(* ===== verification/_CoqProject ===== *)
-Q . S2P
Prelude.v
GoFloat.v
FloatBounds.v
Maps.v
Bytes.v
Sha256.v
Sha512.v
PoH.v
DPoS.v
Common.v
Accounts.v
Crypto.v
TokenSupply.v
GoHeap.v
TxQueue.v
TxPool.v
TxUtils.v
TxManager.v
Wallet.v
Ledger.v
Light.v
Network.v
LockWatch.v
Profiler.v
Config.v
Bfs.v
Dag.v
DPoSState.v
Voting.v
Finalizer.v
Gossip.v
Lachesis.v
Api.v
StartUp.v
Governance.v
ValMgr.v
Errors.v
Recovery.v
Batch.v
Flow.v
Node.v
NodeProps.v
NodeChain.v
Production.v
Checkpoints.v
Optimizer.v
OptStats.v
AutoRecovery.v
Adapter.v
NodeApi.v
Metrics.v
