(* ===== verification/Prelude.v ===== *)
(** * Diamante Quant v2: a verification library

    ** The program

    Diamante Quant is a blockchain node written in Go.  Its consensus joins
    a proof-of-history clock, a delegated proof of stake that chooses
    validators and pays them, and Lachesis, a DAG of events finalized by
    virtual voting.  Around them stand the transactions (accounts, nonces,
    pool, manager), the token supply, governance, a validator registry, and
    the error, recovery, batching and checkpoint services.  The node of
    src/consensus/diamantehybrid.go puts them together; wallets, an HTTP
    interface and a peer-to-peer manager are what the outside sees of it.

    ** The files

    Shared ground.  Prelude: results, machine integers, sums, reachability.
    GoFloat: float64; FloatBounds: bounds of rounded sums and products.
    Maps: ranging over Go maps, [sort.Slice].  Bytes, Sha256 and Sha512:
    identifiers, encodings, the hashes.

    Transactions.  Common (src/common/common.go): transactions and blocks.
    Accounts (src/common/accounts.go): the store and the encrypted keys.
    TokenSupply (src/common/token_supply.go).  GoHeap: container/heap over an
    interface.  TxQueue and TxPool (src/transaction/transaction_pool.go): the
    priority queue, an instance of that heap, and the pool.  TxUtils
    (src/transaction/transaction_utils.go): nonce trackers, a class with laws
    and two instances.  TxManager (src/transaction/transaction_manager.go):
    the client of the pool, of any tracker and of any ledger.

    Outside.  Crypto (src/crypto): the Kyber and Dilithium managers over a
    class of schemes with laws.  Wallet (src/wallet): the client of Crypto,
    Accounts and TxManager.  Api (src/api): every HTTP handler over TxManager,
    TokenSupply and Wallet, and the table of routes.  Network (src/network):
    the peer manager and its discovery.  Config (src/config/config.go).
    Ledger (src/storage): the ledger and the block store in MongoDB over a
    class of collections with laws; it is the ledger TxManager is a client
    of.  StartUp (src/main.go): the wrappers, and the node that main builds
    from Ledger, TxManager, Lachesis, Network and Api.  Light
    (src/mobile/sqlite_lightnode.go): the light node over a class of tables.
    Metrics (src/metrics/reporter.go): the reporter over the consensus of
    StartUp or of Node.

    Consensus.  PoH (diamantepoh/diamantepoh.go), DPoS and DPoSState
    (diamantepos/diamantepos.go), Dag, Voting, Finalizer, Gossip, Lachesis
    (the files of diamantefinality/ of these names; Bfs is the search Voting
    uses), Governance (governance/governance.go), ValMgr
    (validator_manager.go), Errors (errors.go), Recovery
    (recovery_manager.go), Batch (batch_processor.go), Flow (the state of
    event_flow.go) and Node (diamantehybrid.go with the event operations of
    event_flow.go), whose properties are in NodeProps (events) and NodeChain
    (blocks, checkpoints, recovery, life cycle).  Production (the workers of
    diamantehybrid.go: block production, health check, PoH).  Checkpoints
    (recovery/checkpoint_manager.go): checkpoints on disk; AutoRecovery
    (recovery/recovery_manager.go) and Adapter
    (recovery/hybrid_consensus_recovery.go): the clients of Checkpoints.
    LockWatch (deadlock_detector.go), Profiler (performance_profiler.go),
    Optimizer (aiopt/optimizer.go) and OptStats (its statistics and its
    lock).  NodeApi (the getters of diamantehybrid.go and the metrics of
    event_flow.go).  All these are under src/consensus/.

    Each file starts with what it models.  Definitions keep the names of the
    code; a name ending in [_step], [_one] or the like is a part of the
    function of that name, for instance one turn of its loop.

    ** How the code is modelled

    - A struct is a record, a method a function from the state to the new
      state and its answer; an operation that fails returns the state it
      leaves, because Go keeps what was changed before the error.  A panic is
      [None], or the outcome [Panics] in Node, where [Blocks] is a call that
      never returns because it waits for a lock it holds.
    - [uint64], [int] and [time.Duration] are in Z with the wrap-around
      written out ([u64], [i64]); [float64] is IEEE 754 binary64, exact on
      integers up to 2^53, the bound under which the token theorems hold.
    - Events, pool items and the like are shared by pointer: they live in a
      store and the containers hold locations.
    - The clock, random numbers and the order in which a Go map is ranged
      over are arguments; theorems hold for all orders that visit every key
      once ([iter_order]).
    - Goroutines are the calls they make, as separate steps; where the code
      runs calls concurrently without a common lock, the steps between locks
      are interleaved (Finalizer, LockWatch, whose wrapped mutexes announce
      and withdraw outside the mutex they wrap, OptStats, whose threads share
      a [sync.RWMutex], Metrics, and StartUp, whose main and server move in
      any order).  Where a method takes a lock its caller may hold (Network,
      the checkpoints of Node) taking it is part of the method, and the
      outcome when it is held is a call that never returns.
    - Code outside the repository is a parameter: signatures and AEADs, the
      drivers of MongoDB and SQLite, the Prometheus client, JSON codecs,
      [math.Pow], the network.  Laws they need are hypotheses of the theorem
      or of its class, and each such theorem has a concrete instance: the
      databases have one in memory.  A statement of a database may fail, and
      a write that reports an error may have been done.  SHA-256, SHA-512,
      hexadecimal, container/heap and [sort.Slice] are the standard library's
      and are modelled.
    - The lemma [t_witness] applies theorem [t] to concrete values.

    ** Fuel and bounds

    The search of Voting ([Bfs.bfs]) has fuel; [Bfs.bfs_correct] gives a
    bound that suffices on every graph and [Voting.HasSeen_decides] uses it.
    The loops of container/heap have the length of the slice as fuel, and
    the laws of GoHeap show that it suffices.  [chunks] takes the length of
    the list.  Every other recursion is structural.  uint64 arguments are
    assumed in range where a statement says [is_u64].

    ** What the theorems show

    - Pool and queue: in every reachable state the map and the queue hold the
      same transactions, each in the index under its sender and its contract;
      what else the index holds are entries that an eviction or an expiry
      left behind (a defect); adding and removing have exactly their
      documented effect; the heap pops in priority order.
    - Ledger: processing a transaction takes it out of the pool and ends in
      one of few listed states of the database, of which only the last is
      answered without an error; a block is committed with its transactions
      or not at all; no block is above the height; snapshots are taken and
      can never be restored (a defect).  Light node: it refines a map of last
      values, listings included, whatever statements fail.
    - The started node: in every interleaving of main and the HTTP server it
      comes to serve unless the port cannot be listened on, and then the
      hypotheses of the HTTP theorems hold; what has left the pool is never
      served again, and the block store forgets the transactions of a block
      (defects).
    - Tokens: for integer amounts below 2^53 mint and burn refine an integer
      ledger and conserve the sum of the balances; fractions and NaN do not.
    - Manager: processing commits, and nonces that reach the ledger increase
      as long as calls do not overlap (a defect otherwise); what creation
      signs can never be processed (a defect).
    - PoH, DPoS: the chain is a function of its inputs; the active set is the
      top of the stake order, epochs and rewards are bounded, the state
      survives serialisation, and totals, flags and list agree in every state
      that is reached, saved states restored.
    - DAG, voting, finality: every reachable DAG is sound, and consistent as
      long as events name parents it has; [HasSeen] terminates and
      decides ancestry, cycles included; the vote counts the stake that has seen the event;
      any interleaving of the finalizers gives the same set.
    - Governance: the life cycle of proposals; what passed had 66 % of the
      active validators, by heads: stake is not counted (a divergence).
    - Validator manager: its registry and the DAG agree, and DPoS with them
      but for validators added again after RestoreState (a defect).
    - Node: what creating and finalizing an event does, the maps of the
      event flow over any history, which block errors
      keep the height; and defects proved as theorems: empty blocks, the
      checkpoint deadlock, a restart that starts nothing, double rewards.
    - Production: what one tick does on each branch, when it never returns,
      how the delay backs off, which checkpoint the health check calls old.
    - Checkpoint manager: saving and restoring is a round trip, a restart
      loses no checkpoint, whatever the disk does its invariant holds;
      recovery stays in its budget of attempts; a write that fails ends the
      adapter's checkpoints for good (a defect).
    - Detector: its alarms are true, a lock that is never given back is
      reported exactly once, readers can hide (a defect).  Profiler: its
      statistics are those of the records in its window.  Optimizer: the
      parameters stay in their bounds; calls that take its lock once never
      block each other for good, and the one that takes it twice can (a
      defect).  Metrics: the gauges hold what the last tick read.
    - Crypto and wallets: sign, verify, seal and open are inverse; files are
      read back; the manager signs for registered wallets; what
      [SubmitTransaction] returns is not what it pooled (a defect).
    - HTTP: a submitted transaction is served as pending; funding refines the
      integer mint; a created wallet is funded and its account, with the
      encrypted key, is served to anybody; one route is never reached.
    - Network: how a stop ends, dials that leak.  Config: a configuration in
      use is valid after every load and update; its handlers are never called.

    ** Not modelled

    The libp2p transport, the MongoDB and SQLite engines and the Prometheus
    client are other projects and appear as classes.  Left out as output or
    input only: the text of log lines and printed durations, JSON text, the
    environment file, the HTTP listener (its answer is an argument of
    StartUp).  The setters that only replace a
    logger have nothing to model. *)

From Stdlib Require Import ZArith Lia List Permutation.
From stdpp Require Import numbers prelude gmap strings sorting.

(** [naive_solver] clears hypotheses that are already gone. *)
#[export] Set Warnings "-clear-no-such-hyp".

(** ** Results of fallible Go functions

    A Go function that returns [(T, error)] is modelled by a [result]; the
    error constructor carries the component's own error type.  Operations
    on shared state return the state next to the result, because a Go
    method that fails keeps every mutation made before the failure. *)
Inductive result (E A : Type) : Type :=
| Ok (a : A)
| Err (e : E).
Arguments Ok {E A} a.
Arguments Err {E A} e.

#[export] Instance result_eq_dec {E A} `{EqDecision E, EqDecision A} :
  EqDecision (result E A).
Proof. solve_decision. Defined.

Definition is_Ok {E A} (r : result E A) : bool :=
  match r with Ok _ => true | Err _ => false end.

(** State-passing with errors: the state survives an error. *)
Definition M (S E A : Type) : Type := S → S * result E A.

Definition ret {S E A} (a : A) : M S E A := λ s, (s, Ok a).
Definition throw {S E A} (e : E) : M S E A := λ s, (s, Err e).
Definition bind {S E A B} (m : M S E A) (k : A → M S E B) : M S E B :=
  λ s, match m s with
       | (s', Ok a) => k a s'
       | (s', Err e) => (s', Err e)
       end.
Definition get {S E} : M S E S := λ s, (s, Ok s).
Definition put {S E} (s : S) : M S E () := λ _, (s, Ok ()).
Definition modify {S E} (f : S → S) : M S E () := λ s, (f s, Ok ()).

Declare Scope go_scope.
Delimit Scope go_scope with go.
Notation "'let*' x ':=' m 'in' k" := (bind m (λ x, k))
  (at level 10, x pattern, m at level 100, k at level 200,
   format "'[v' 'let*'  x  ':='  m  'in' '//' k ']'") : go_scope.
Notation "m ';;;' k" := (bind m (λ _, k))
  (at level 199, right associativity) : go_scope.

(** An early return of an error when the guard holds. *)
Definition fail_if {S E} (b : bool) (e : E) : M S E () :=
  λ s, if b then (s, Err e) else (s, Ok ()).

(** ** Machine integers

    A [uint64] is a [Z] in [0, 2^64), an [int]/[int64] a [Z] in
    [-2^63, 2^63) (64-bit targets); the wrap-around is explicit. *)
Open Scope Z_scope.

Definition u64_max : Z := 18446744073709551615.
Definition u64 (z : Z) : Z := z mod 18446744073709551616.
Definition i64 (z : Z) : Z :=
  (z + 9223372036854775808) mod 18446744073709551616 - 9223372036854775808.

Definition is_u64 (z : Z) : Prop := 0 ≤ z < 18446744073709551616.
Definition is_i64 (z : Z) : Prop :=
  -9223372036854775808 ≤ z < 9223372036854775808.

#[export] Instance is_u64_dec z : Decision (is_u64 z).
Proof. unfold is_u64. apply _. Defined.
#[export] Instance is_i64_dec z : Decision (is_i64 z).
Proof. unfold is_i64. apply _. Defined.

Definition uadd (a b : Z) : Z := u64 (a + b).
Definition usub (a b : Z) : Z := u64 (a - b).
Definition umul (a b : Z) : Z := u64 (a * b).

Create HintDb go_int.

Lemma u64_range z : is_u64 (u64 z).
Proof. unfold is_u64, u64. apply Z.mod_pos_bound. lia. Qed.

Lemma u64_small z : is_u64 z → u64 z = z.
Proof. unfold is_u64, u64. intros. apply Z.mod_small. lia. Qed.

Lemma u64_idemp z : u64 (u64 z) = u64 z.
Proof. apply u64_small, u64_range. Qed.

Lemma u64_add_l a b : u64 (u64 a + b) = u64 (a + b).
Proof. unfold u64. apply Zplus_mod_idemp_l. Qed.

Lemma u64_add_r a b : u64 (a + u64 b) = u64 (a + b).
Proof. unfold u64. apply Zplus_mod_idemp_r. Qed.

Lemma u64_sub_l a b : u64 (u64 a - b) = u64 (a - b).
Proof. unfold u64. apply Zminus_mod_idemp_l. Qed.

Lemma i64_range z : is_i64 (i64 z).
Proof.
  unfold is_i64, i64.
  pose proof (Z.mod_pos_bound (z + 9223372036854775808) 18446744073709551616).
  lia.
Qed.

Lemma i64_small z : is_i64 z → i64 z = z.
Proof. unfold is_i64, i64. intros. rewrite Z.mod_small; lia. Qed.

#[export] Hint Resolve u64_range i64_range : go_int.
Create Rewrite HintDb go_arith.
#[export] Hint Rewrite u64_idemp u64_add_l u64_add_r u64_sub_l : go_arith.

Ltac u64_arith :=
  unfold uadd, usub, umul in *; unfold is_u64 in *;
  repeat match goal with
  | |- context [u64 ?z] => rewrite (u64_small z) by (unfold is_u64; nia)
  end; try nia.

(** The sum a Go loop [for ... { total += x }] computes on [uint64]s. *)
Definition usum (l : list Z) : Z := foldl uadd 0 l.

(** The same sum without wrap-around, the specification side. *)
Definition zsum (l : list Z) : Z := foldr Z.add 0 l.

Lemma foldl_uadd_acc a l : is_u64 a → foldl uadd a l = u64 (a + zsum l).
Proof.
  revert a. induction l as [|x l IH]; intros a Ha; simpl.
  - rewrite Z.add_0_r. symmetry. by apply u64_small.
  - rewrite IH by apply u64_range. unfold uadd. rewrite u64_add_l. f_equal. lia.
Qed.

Lemma usum_zsum l : usum l = u64 (zsum l).
Proof. unfold usum. rewrite foldl_uadd_acc by (vm_compute; split; congruence).
  f_equal. Qed.

Lemma zsum_cons x l : zsum (x :: l) = x + zsum l.
Proof. done. Qed.

Lemma zsum_app l k : zsum (l ++ k) = zsum l + zsum k.
Proof. induction l; simpl; lia. Qed.

Lemma zsum_perm l k : l ≡ₚ k → zsum l = zsum k.
Proof. induction 1; simpl; lia. Qed.

(** A sum over a Go map does not depend on the iteration order. *)
Lemma usum_perm l k : l ≡ₚ k → usum l = usum k.
Proof. intros H. by rewrite !usum_zsum, (zsum_perm _ _ H). Qed.

Lemma zsum_nonneg l : Forall (λ x, 0 ≤ x) l → 0 ≤ zsum l.
Proof. induction 1; simpl; lia. Qed.

Lemma usum_exact l : Forall (λ x, 0 ≤ x) l → zsum l < 18446744073709551616 →
  usum l = zsum l.
Proof.
  intros H ?. rewrite usum_zsum. apply u64_small. unfold is_u64.
  split; [by apply zsum_nonneg | done].
Qed.

#[export] Instance zsum_proper : Proper ((≡ₚ) ==> (=)) zsum.
Proof. intros l k. apply zsum_perm. Qed.
#[export] Instance usum_proper : Proper ((≡ₚ) ==> (=)) usum.
Proof. intros l k. apply usum_perm. Qed.

(** ** Cutting a list into pieces of [n]

    The loop [for i := 0; i < len(l); i += n] with [l[i:min(i+n, len(l))]];
    fuel [length l] is enough when [n] is positive. *)
Fixpoint chunks_fuel {A} (fuel n : nat) (l : list A) : list (list A) :=
  match fuel, l with
  | O, _ | _, [] => []
  | S fuel, _ => take n l :: chunks_fuel fuel n (drop n l)
  end.
Definition chunks {A} (n : nat) (l : list A) : list (list A) := chunks_fuel (length l) n l.

Section chunks.
Context {A : Type} (n : nat) (Hn : (0 < n)%nat).

Lemma concat_chunks_fuel fuel (l : list A) : (length l ≤ fuel)%nat →
  concat (chunks_fuel fuel n l) = l.
Proof using Hn.
  revert l. induction fuel as [|fuel IH]; intros [|x l] Hl; simpl in Hl; try done; try lia.
  cbn [chunks_fuel concat]. rewrite IH by (rewrite length_drop; simpl; lia).
  apply take_drop.
Qed.

Lemma concat_chunks (l : list A) : concat (chunks n l) = l.
Proof using Hn. by apply concat_chunks_fuel. Qed.

Lemma chunks_fuel_sizes fuel (l : list A) :
  Forall (λ b, b ≠ [] ∧ (length b ≤ n)%nat) (chunks_fuel fuel n l).
Proof using Hn.
  revert l. induction fuel as [|fuel IH]; intros [|x l]; cbn [chunks_fuel]; try constructor; [|done].
  split; [by destruct n; [lia|]|]. rewrite length_take. lia.
Qed.

Lemma chunks_sizes (l : list A) : Forall (λ b, b ≠ [] ∧ (length b ≤ n)%nat) (chunks n l).
Proof using Hn. apply chunks_fuel_sizes. Qed.

Lemma chunks_cover (l : list A) : (length l ≤ length (chunks n l) * n)%nat.
Proof using Hn.
  rewrite <- (concat_chunks l) at 1. pose proof (chunks_sizes l) as Hs.
  induction Hs as [|b bs [_ Hb] _ IH]; simpl; [done|]. rewrite length_app. lia.
Qed.

Lemma chunks_nil_iff (l : list A) : chunks n l = [] ↔ l = [].
Proof. destruct l; [done|]. by split. Qed.
End chunks.

(** ** Reachability *)
Inductive star {S : Type} (step : S → S → Prop) : S → S → Prop :=
| star_refl s : star step s s
| star_snoc s1 s2 s3 : star step s1 s2 → step s2 s3 → star step s1 s3.

Lemma star_invariant {S} (step : S → S → Prop) (I : S → Prop) s s' :
  (∀ a b, I a → step a b → I b) → I s → star step s s' → I s'.
Proof. intros Hpres H0. induction 1; eauto. Qed.

Lemma star_trans {S} (step : S → S → Prop) a b c :
  star step a b → star step b c → star step a c.
Proof.
  intros Hab Hbc. induction Hbc as [|b c d _ IH Hcd]; [done|].
  eapply star_snoc; [by apply IH|done].
Qed.

(** ** Small tactics of the development *)

(** Case analysis on every [if]/[match] scrutinee that blocks the goal or
    a hypothesis, closing the contradictory branches. *)
Ltac split_ifs :=
  repeat (case_match; simplify_eq/=; try done).

Ltac bool_to_prop :=
  repeat match goal with
  | H : (_ && _)%bool = true |- _ => apply andb_true_iff in H as [? ?]
  | H : (_ || _)%bool = false |- _ => apply orb_false_iff in H as [? ?]
  | H : negb _ = true |- _ => apply negb_true_iff in H
  | H : negb _ = false |- _ => apply negb_false_iff in H
  | H : (_ <? _) = true |- _ => apply Z.ltb_lt in H
  | H : (_ <? _) = false |- _ => apply Z.ltb_ge in H
  | H : (_ <=? _) = true |- _ => apply Z.leb_le in H
  | H : (_ <=? _) = false |- _ => apply Z.leb_gt in H
  | H : (_ =? _) = true |- _ => apply Z.eqb_eq in H
  | H : (_ =? _) = false |- _ => apply Z.eqb_neq in H
  | H : bool_decide _ = true |- _ => apply bool_decide_eq_true in H
  | H : bool_decide _ = false |- _ => apply bool_decide_eq_false in H
  end.
