(* ===== verification/GoFloat.v ===== *)
(** * Go's float64

    IEEE 754 binary64 with round-to-nearest-even, the arithmetic the Go
    specification prescribes for [float64], on the Standard Library's
    executable [spec_float] (53 bits of precision, emax 1024).  NaN payloads
    are not represented.  Besides the operations used by the program
    (comparison, [+], [-], [*], [/], [math.Min], [math.Max], conversions), the
    file proves that arithmetic on integer-valued floats below 2^53 is exact,
    which is what the conservation theorems of the token components need. *)
From Stdlib Require Import ZArith Lia SpecFloat.
From stdpp Require Import numbers prelude.
From S2P Require Import Prelude.
Open Scope Z_scope.

(** A separate type with its own equality decision. *)
Abbreviation f64 := spec_float.

#[export] Instance f64_eq_dec : EqDecision f64.
Proof. solve_decision. Defined.

Definition prec : Z := 53.
Definition emax : Z := 1024.

Definition f_add : f64 → f64 → f64 := SFadd prec emax.
Definition f_sub : f64 → f64 → f64 := SFsub prec emax.
Definition f_mul : f64 → f64 → f64 := SFmul prec emax.
Definition f_div : f64 → f64 → f64 := SFdiv prec emax.
Definition f_neg : f64 → f64 := SFopp.

(** Go's [<], [<=], [==]: false as soon as an operand is NaN. *)
Definition f_lt (x y : f64) : bool := SFltb x y.
Definition f_le (x y : f64) : bool := SFleb x y.
Definition f_gt (x y : f64) : bool := SFltb y x.
Definition f_ge (x y : f64) : bool := SFleb y x.
Definition f_eq (x y : f64) : bool := SFeqb x y.

Definition f_is_nan (x : f64) : bool :=
  match x with S754_nan => true | _ => false end.

(** [float64(n)] for an integer [n]. *)
Definition f_of_Z (n : Z) : f64 := binary_normalize prec emax n 0 false.

(** The float nearest to [m * 2^e]; used for literals. *)
Definition f_zero : f64 := S754_zero false.
Definition f_one : f64 := f_of_Z 1.

(** A decimal literal [n / 10^k] of the source. The quotient of two exactly
    represented integers is correctly rounded, so this is the float the Go
    compiler produces for the literal (n, 10^k < 2^53). *)
Definition f_lit (n : Z) (k : Z) : f64 := f_div (f_of_Z n) (f_of_Z (10 ^ k)).

(** [math.Max] and [math.Min]: special cases first, as documented. *)
Definition f_max (x y : f64) : f64 :=
  match x, y with
  | S754_infinity false, _ | _, S754_infinity false => S754_infinity false
  | S754_nan, _ | _, S754_nan => S754_nan
  | S754_zero true, S754_zero _ => y
  | S754_zero false, S754_zero _ => x
  | _, _ => if f_gt x y then x else y
  end.
Definition f_min (x y : f64) : f64 :=
  match x, y with
  | S754_infinity true, _ | _, S754_infinity true => S754_infinity true
  | S754_nan, _ | _, S754_nan => S754_nan
  | S754_zero false, S754_zero _ => y
  | S754_zero true, S754_zero _ => x
  | _, _ => if f_lt x y then x else y
  end.

(** [int(x)]: truncation toward zero. [None] when the value is not finite;
    range is left to the caller, since Go makes out-of-range conversions
    implementation dependent. *)
Definition f_trunc (x : f64) : option Z :=
  match x with
  | S754_zero _ => Some 0
  | S754_finite s m e =>
      let a := if 0 <=? e then Z.shiftl (Zpos m) e else Z.shiftr (Zpos m) (- e) in
      Some (if s then - a else a)
  | _ => None
  end.

(** ** Comparison lemmas *)

(** [int(x)] and [int64(x)]; Go leaves the result open outside the range,
    which [wild] stands for. *)
Definition to_int (wild : f64 → Z) (x : f64) : Z :=
  match f_trunc x with
  | Some z => if decide (is_i64 z) then z else wild x
  | None => wild x
  end.

Lemma f_lt_irrefl x : f_lt x x = false.
Proof.
  unfold f_lt, SFltb. destruct x as [[]|[]| |[] m e]; simpl; try done;
  rewrite ?Z.compare_refl; by rewrite (Pos.compare_refl m : Pos.compare_cont Eq m m = Eq).
Qed.

Lemma f_le_total x y : f_is_nan x = false → f_is_nan y = false →
  f_le x y = negb (f_lt y x).
Proof.
  unfold f_le, f_lt, SFleb, SFltb.
  destruct x as [[]|[]| |[] m e], y as [[]|[]| |[] m' e']; simpl; try done;
  intros _ _; rewrite (Z.compare_antisym e e');
  destruct (e ?= e') eqn:He; simpl; try done;
  change (Pos.compare_cont Eq) with Pos.compare;
  rewrite (Pos.compare_antisym m m'); by destruct (m ?= m')%positive.
Qed.

Lemma f_ge_not_lt x y : f_ge x y = true → f_lt x y = false.
Proof.
  unfold f_ge, f_lt, SFleb, SFltb.
  destruct x as [[]|[]| |[] m e], y as [[]|[]| |[] m' e']; simpl; try done;
  rewrite (Z.compare_antisym e' e); destruct (e' ?= e) eqn:He; simpl; try done;
  change (Pos.compare_cont Eq) with Pos.compare;
  rewrite (Pos.compare_antisym m' m); by destruct (m' ?= m)%positive.
Qed.

(** ** Exactness on integers below 2^53 *)

Definition ndig (p : positive) : Z := Zpos (digits2_pos p).
Definition pscale (p : positive) (n : Z) : positive := Z.to_pos (Zpos p * 2 ^ n).

Lemma pscale_spec p n : 0 ≤ n → Zpos (pscale p n) = Zpos p * 2 ^ n.
Proof. intros. unfold pscale. rewrite Z2Pos.id; [done|].
  pose proof (Z.pow_pos_nonneg 2 n). nia. Qed.

Lemma pscale_spec_neg p n : 0 ≤ n → Zneg (pscale p n) = Zneg p * 2 ^ n.
Proof. intros Hn. pose proof (pscale_spec p n Hn). lia. Qed.

Lemma ndig_bounds p : 2 ^ (ndig p - 1) ≤ Zpos p < 2 ^ ndig p.
Proof.
  unfold ndig. induction p as [p IH|p IH|]; simpl digits2_pos; [| |done];
  rewrite Pos2Z.inj_succ; replace (Z.succ _ - 1) with (Zpos (digits2_pos p)) by lia;
  rewrite Z.pow_succ_r by lia;
  replace (2 ^ Zpos (digits2_pos p)) with (2 * 2 ^ (Zpos (digits2_pos p) - 1)) in *
    by (rewrite <- Z.pow_succ_r by lia; f_equal; lia); lia.
Qed.

Lemma ndig_unique p d : 0 < d → 2 ^ (d - 1) ≤ Zpos p < 2 ^ d → ndig p = d.
Proof.
  intros Hd [Hl Hu]. pose proof (ndig_bounds p) as [Hl' Hu'].
  assert (0 < ndig p) by (unfold ndig; lia).
  assert (¬ d < ndig p).
  { intros ?. pose proof (Z.pow_le_mono_r 2 d (ndig p - 1)). lia. }
  assert (¬ ndig p < d).
  { intros ?. pose proof (Z.pow_le_mono_r 2 (ndig p) (d - 1)). lia. }
  lia.
Qed.

Lemma ndig_le p d : 0 ≤ d → Zpos p < 2 ^ d → ndig p ≤ d.
Proof.
  intros Hd Hu. pose proof (ndig_bounds p) as [Hl' _].
  destruct (decide (ndig p ≤ d)); [done|].
  pose proof (Z.pow_le_mono_r 2 d (ndig p - 1)). lia.
Qed.

Lemma ndig_pscale p n : 0 ≤ n → ndig (pscale p n) = ndig p + n.
Proof.
  intros Hn. pose proof (ndig_bounds p) as [Hl Hu].
  assert (0 < ndig p) by (unfold ndig; lia).
  apply ndig_unique; [lia|]. rewrite pscale_spec by done.
  replace (ndig p + n - 1) with (ndig p - 1 + n) by lia.
  rewrite !Z.pow_add_r by lia.
  pose proof (Z.pow_pos_nonneg 2 n). nia.
Qed.

Lemma pscale_0 p : pscale p 0 = p.
Proof. unfold pscale. by rewrite Z.pow_0_r, Z.mul_1_r. Qed.

Lemma pscale_pscale p m n : 0 ≤ m → 0 ≤ n → pscale (pscale p m) n = pscale p (m + n).
Proof.
  intros. apply Pos2Z.inj. rewrite !pscale_spec by lia.
  rewrite Z.pow_add_r by lia. lia.
Qed.

Lemma pscale_succ p n : 0 ≤ n → pscale p (n + 1) = (pscale p n)~0%positive.
Proof.
  intros. apply Pos2Z.inj. rewrite Pos2Z.inj_xO, !pscale_spec by lia.
  rewrite Z.pow_add_r by lia. lia.
Qed.

Lemma iter_xO p d : Pos.iter xO p d = pscale p (Zpos d).
Proof.
  induction d as [|d IH] using Pos.peano_ind.
  - unfold pscale. simpl. lia.
  - rewrite Pos.iter_succ, IH, Pos2Z.inj_succ. symmetry. by apply pscale_succ.
Qed.

Lemma iter_pos_nat {A} (f : A → A) n x :
  SpecFloat.iter_pos f n x = Nat.iter (Pos.to_nat n) f x.
Proof.
  revert x. induction n as [n IH|n IH|]; intros x; cbn [SpecFloat.iter_pos]; [| |done].
  - rewrite !IH, Pos2Nat.inj_xI, Nat.iter_succ_r.
    replace (2 * Pos.to_nat n)%nat with (Pos.to_nat n + Pos.to_nat n)%nat by lia.
    by rewrite Nat.iter_add.
  - rewrite !IH, Pos2Nat.inj_xO.
    replace (2 * Pos.to_nat n)%nat with (Pos.to_nat n + Pos.to_nat n)%nat by lia.
    by rewrite Nat.iter_add.
Qed.

Lemma shr_pos mrs e n :
  shr mrs e (Zpos n) = (Nat.iter (Pos.to_nat n) shr_1 mrs, e + Zpos n).
Proof. unfold shr. by rewrite iter_pos_nat. Qed.

Lemma shr_exact p n :
  Nat.iter n shr_1 (Build_shr_record (Zpos (pscale p (Z.of_nat n))) false false)
  = Build_shr_record (Zpos p) false false.
Proof.
  induction n as [|n IH]; [by rewrite pscale_0|].
  rewrite Nat2Z.inj_succ. unfold Z.succ. rewrite pscale_succ by lia.
  by rewrite Nat.iter_succ_r.
Qed.

(** A 53-digit mantissa with an in-range exponent needs no rounding. *)
Lemma round_aux_canonical s m e : ndig m = 53 → -1074 ≤ e ≤ 971 →
  binary_round_aux prec emax s (Zpos m) e loc_Exact = S754_finite s m e.
Proof.
  intros Hm He. unfold binary_round_aux, shr_fexp, shr_record_of_loc. simpl Zdigits2.
  unfold ndig in Hm. rewrite Hm.
  assert (fexp prec emax (53 + e) - e = 0) as -> by (unfold fexp, emin, prec, emax; lia).
  simpl. rewrite Hm.
  assert (fexp prec emax (53 + e) - e = 0) as -> by (unfold fexp, emin, prec, emax; lia).
  simpl. unfold emax, prec. by rewrite (proj2 (Z.leb_le _ _)) by lia.
Qed.

(** Rounding a value that fits in 53 bits, however it is scaled. *)
Lemma round_exact s p k e : ndig p ≤ 53 → 0 ≤ k → -1074 ≤ ndig p + e - 53 ≤ 971 →
  binary_round prec emax s (pscale p k) (e - k)
  = S754_finite s (pscale p (53 - ndig p)) (ndig p + e - 53).
Proof.
  intros Hp Hk He. unfold binary_round.
  fold (ndig (pscale p k)). rewrite ndig_pscale by done.
  assert (fexp prec emax (ndig p + k + (e - k)) = ndig p + e - 53) as ->
    by (unfold fexp, emin, prec, emax; lia).
  unfold shl_align.
  assert (0 < ndig p) by (unfold ndig; lia).
  destruct (ndig p + e - 53 - (e - k)) as [|n|d] eqn:Hd.
  - replace (e - k) with (ndig p + e - 53) by lia.
    replace k with (53 - ndig p) by lia.
    apply round_aux_canonical; [rewrite ndig_pscale; lia|lia].
  - unfold binary_round_aux, shr_fexp, shr_record_of_loc. simpl Zdigits2.
    fold (ndig (pscale p k)). rewrite ndig_pscale by done.
    assert (fexp prec emax (ndig p + k + (e - k)) - (e - k) = Zpos n) as ->
      by (unfold fexp, emin, prec, emax; lia).
    rewrite shr_pos.
    replace k with (53 - ndig p + Z.of_nat (Pos.to_nat n)) by lia.
    rewrite <- (pscale_pscale p) by lia. rewrite shr_exact.
    simpl shr_m. simpl loc_of_shr_record. unfold round_nearest_even.
    simpl shr_record_of_loc. simpl Zdigits2.
    fold (ndig (pscale p (53 - ndig p))). rewrite ndig_pscale by lia.
    replace (e - _ + _) with (ndig p + e - 53) by lia.
    assert (fexp prec emax (ndig p + (53 - ndig p) + (ndig p + e - 53))
            - (ndig p + e - 53) = 0) as -> by (unfold fexp, emin, prec, emax; lia).
    simpl. unfold emax, prec. by rewrite (proj2 (Z.leb_le _ _)) by lia.
  - rewrite iter_xO, pscale_pscale by lia.
    replace (k + Zpos d) with (53 - ndig p) by lia.
    apply round_aux_canonical; [rewrite ndig_pscale; lia|lia].
Qed.

Definition exact_int (z : Z) : Prop := Z.abs z < 9007199254740992.

#[export] Instance exact_int_dec z : Decision (exact_int z).
Proof. unfold exact_int. apply _. Defined.

Lemma ndig_exact p : exact_int (Zpos p) → ndig p ≤ 53.
Proof. intros ?. apply ndig_le; [lia|]. unfold exact_int in *. simpl in *. lia. Qed.

Lemma f_of_Z_pos p : exact_int (Zpos p) →
  f_of_Z (Zpos p) = S754_finite false (pscale p (53 - ndig p)) (ndig p - 53).
Proof.
  intros H%ndig_exact. unfold f_of_Z, binary_normalize.
  pose proof (round_exact false p 0 0) as Hr. rewrite pscale_0 in Hr.
  replace (0 - 0) with 0 in Hr by lia. replace (ndig p + 0 - 53) with (ndig p - 53) in Hr by lia.
  apply Hr; unfold ndig in *; lia.
Qed.

Lemma f_of_Z_neg p : exact_int (Zneg p) →
  f_of_Z (Zneg p) = S754_finite true (pscale p (53 - ndig p)) (ndig p - 53).
Proof.
  intros H. assert (ndig p ≤ 53) by (by apply ndig_exact).
  unfold f_of_Z, binary_normalize.
  pose proof (round_exact true p 0 0) as Hr. rewrite pscale_0 in Hr.
  replace (0 - 0) with 0 in Hr by lia. replace (ndig p + 0 - 53) with (ndig p - 53) in Hr by lia.
  apply Hr; unfold ndig in *; lia.
Qed.

Lemma normalize_scaled z k : exact_int z → 0 ≤ k →
  binary_normalize prec emax (z * 2 ^ k) (- k) false = f_of_Z z.
Proof.
  intros Hz Hk. destruct z as [|p|p].
  - done.
  - replace (Zpos p * 2 ^ k) with (Zpos (pscale p k)) by (by rewrite pscale_spec).
    rewrite f_of_Z_pos by done. simpl binary_normalize.
    replace (- k) with (0 - k) by lia.
    assert (ndig p ≤ 53) by (by apply ndig_exact).
    rewrite round_exact by (unfold ndig in *; lia). f_equal; lia.
  - replace (Zneg p * 2 ^ k) with (Zneg (pscale p k))
      by (pose proof (pscale_spec p k Hk); lia).
    rewrite f_of_Z_neg by done. simpl binary_normalize.
    replace (- k) with (0 - k) by lia.
    assert (ndig p ≤ 53) by (by apply ndig_exact).
    rewrite round_exact by (unfold ndig in *; lia). f_equal; lia.
Qed.

Lemma align_canonical p ez : ndig p ≤ 53 → ez ≤ ndig p - 53 →
  fst (shl_align (pscale p (53 - ndig p)) (ndig p - 53) ez) = pscale p (- ez).
Proof.
  intros Hp He. unfold shl_align.
  destruct (ez - (ndig p - 53)) as [|d|d] eqn:Hd; [|lia|]; simpl.
  - f_equal. lia.
  - rewrite iter_xO, pscale_pscale by lia. f_equal. lia.
Qed.

Lemma f_add_finite sx mx ex sy my ey :
  f_add (S754_finite sx mx ex) (S754_finite sy my ey) =
  let ez := Z.min ex ey in
  binary_normalize prec emax
    (cond_Zopp sx (Zpos (fst (shl_align mx ex ez)))
     + cond_Zopp sy (Zpos (fst (shl_align my ey ez)))) ez false.
Proof. done. Qed.

Lemma add_aligned (a b : Z) (x y : f64) : exact_int (a + b) →
  x = f_of_Z a → y = f_of_Z b → exact_int a → exact_int b → a ≠ 0 → b ≠ 0 →
  f_add x y = f_of_Z (a + b).
Proof.
  intros Hab -> -> Ha Hb Ha0 Hb0.
  destruct a as [|p|p]; [done| |]; destruct b as [|q|q]; try done;
  rewrite ?f_of_Z_pos, ?f_of_Z_neg, f_add_finite by done; cbv zeta;
  unfold cond_Zopp;
  assert (ndig p ≤ 53) by (by apply ndig_exact);
  assert (ndig q ≤ 53) by (by apply ndig_exact);
  set (ez := Z.min (ndig p - 53) (ndig q - 53));
  rewrite !align_canonical by lia;
  rewrite <- (normalize_scaled _ (- ez)) by (done || lia);
  rewrite Z.opp_involutive, ?Pos2Z.opp_pos; f_equal;
  rewrite ?pscale_spec, ?pscale_spec_neg by lia;
  by rewrite <- Z.mul_add_distr_r.
Qed.

Lemma f_of_Z_0 : f_of_Z 0 = f_zero.
Proof. done. Qed.

(** Addition of integer-valued floats is exact below 2^53. *)
Lemma f_add_exact a b : exact_int a → exact_int b → exact_int (a + b) →
  f_add (f_of_Z a) (f_of_Z b) = f_of_Z (a + b).
Proof.
  intros Ha Hb Hab.
  destruct (decide (a = 0)) as [->|Ha0].
  { destruct (decide (b = 0)) as [->|Hb0]; [done|]. rewrite f_of_Z_0, Z.add_0_l.
    destruct b; [done| |]; by rewrite ?f_of_Z_pos, ?f_of_Z_neg. }
  destruct (decide (b = 0)) as [->|Hb0].
  { rewrite f_of_Z_0, Z.add_0_r.
    destruct a; [done| |]; by rewrite ?f_of_Z_pos, ?f_of_Z_neg. }
  by apply (add_aligned a b).
Qed.

Lemma f_neg_exact a : exact_int a → a ≠ 0 → f_neg (f_of_Z a) = f_of_Z (- a).
Proof.
  intros Ha Ha0. destruct a as [|p|p]; [done| |].
  - change (- Zpos p) with (Zneg p). by rewrite f_of_Z_pos, f_of_Z_neg by done.
  - change (- Zneg p) with (Zpos p). by rewrite f_of_Z_pos, f_of_Z_neg by done.
Qed.

Lemma f_sub_add_neg x y : f_is_nan y = false → f_sub x y = f_add x (f_neg y).
Proof.
  intros Hy. unfold f_sub, f_add, f_neg.
  destruct x as [[]|[]| |[] m e], y as [[]|[]| |[] m' e']; try done; simpl;
  f_equal; rewrite ?Z.opp_involutive; unfold Z.sub; try done; lia.
Qed.

Lemma f_of_Z_not_nan a : exact_int a → f_is_nan (f_of_Z a) = false.
Proof. intros. destruct a; [done| |]; by rewrite ?f_of_Z_pos, ?f_of_Z_neg. Qed.

Lemma f_sub_exact a b : exact_int a → exact_int b → exact_int (a - b) →
  f_sub (f_of_Z a) (f_of_Z b) = f_of_Z (a - b).
Proof.
  intros Ha Hb Hab. destruct (decide (b = 0)) as [->|Hb0].
  - rewrite Z.sub_0_r. destruct a; [done| |]; by rewrite ?f_of_Z_pos, ?f_of_Z_neg.
  - rewrite f_sub_add_neg by (by apply f_of_Z_not_nan).
    rewrite f_neg_exact by done. apply f_add_exact; [done| |done].
    unfold exact_int in *. lia.
Qed.

Lemma canonical_compare p q : ndig p ≤ 53 → ndig q ≤ 53 →
  match ndig p - 53 ?= ndig q - 53 with
  | Lt => Lt | Gt => Gt
  | Eq => Pos.compare_cont Eq (pscale p (53 - ndig p)) (pscale q (53 - ndig q))
  end = (p ?= q)%positive.
Proof.
  intros Hp Hq. change (Pos.compare_cont Eq) with Pos.compare.
  pose proof (ndig_bounds p). pose proof (ndig_bounds q).
  assert (0 < ndig p ∧ 0 < ndig q) as [? ?] by (unfold ndig; lia).
  destruct (Z.compare_spec (ndig p - 53) (ndig q - 53)) as [He|He|He]; symmetry.
  - assert (ndig p = ndig q) as -> by lia.
    change ((Zpos p ?= Zpos q)
      = (Zpos (pscale p (53 - ndig q)) ?= Zpos (pscale q (53 - ndig q)))).
    rewrite !pscale_spec by lia.
    apply Zmult_compare_compat_r.
    pose proof (Z.pow_pos_nonneg 2 (53 - ndig q)). lia.
  - apply (Z.compare_lt_iff (Zpos p) (Zpos q)).
    pose proof (Z.pow_le_mono_r 2 (ndig p) (ndig q - 1)). lia.
  - apply (Z.compare_gt_iff (Zpos p) (Zpos q)).
    pose proof (Z.pow_le_mono_r 2 (ndig q) (ndig p - 1)). lia.
Qed.

(** Comparison of integer-valued floats is comparison of integers. *)
Lemma f_compare_exact a b : exact_int a → exact_int b →
  SFcompare (f_of_Z a) (f_of_Z b) = Some (a ?= b).
Proof.
  intros Ha Hb. destruct a as [|p|p], b as [|q|q]; try done;
  rewrite ?f_of_Z_pos, ?f_of_Z_neg by done; simpl SFcompare; try done;
  f_equal; simpl; rewrite <- (canonical_compare p q) by (by apply ndig_exact);
  by destruct (ndig p - 53 ?= ndig q - 53).
Qed.

Lemma f_lt_exact a b : exact_int a → exact_int b →
  f_lt (f_of_Z a) (f_of_Z b) = (a <? b).
Proof. intros. unfold f_lt, SFltb, Z.ltb. by rewrite f_compare_exact. Qed.

Lemma f_le_exact a b : exact_int a → exact_int b →
  f_le (f_of_Z a) (f_of_Z b) = (a <=? b).
Proof.
  intros. unfold f_le, SFleb, Z.leb. rewrite f_compare_exact by done.
  by destruct (a ?= b).
Qed.

(** ** The order on non-NaN floats

    [f_lt] compares lexicographically on a sign class, the exponent and the
    mantissa, hence is a strict weak order on non-NaN values. *)
Definition fkey (x : f64) : Z * Z * Z :=
  match x with
  | S754_infinity true => (-2, 0, 0)
  | S754_finite true m e => (-1, - e, - Zpos m)
  | S754_zero _ | S754_nan => (0, 0, 0)
  | S754_finite false m e => (1, e, Zpos m)
  | S754_infinity false => (2, 0, 0)
  end.

Definition key_lt (a b : Z * Z * Z) : Prop :=
  let '(a1, a2, a3) := a in let '(b1, b2, b3) := b in
  a1 < b1 ∨ a1 = b1 ∧ (a2 < b2 ∨ a2 = b2 ∧ a3 < b3).

Lemma f_lt_key x y : f_is_nan x = false → f_is_nan y = false →
  f_lt x y = true ↔ key_lt (fkey x) (fkey y).
Proof.
  unfold f_lt, SFltb.
  destruct x as [[]|[]| |[] m e], y as [[]|[]| |[] m' e']; simpl; try done;
  intros _ _; try (split; [by intros|lia]); try (split; [lia|by intros]);
  change (Pos.compare_cont Eq m m') with (m ?= m')%positive;
  destruct (Z.compare_spec e e'); simpl; try (split; [done|lia]); try (split; [lia|done]);
  destruct (Pos.compare_spec m m'); simpl; split; intros; try done; lia.
Qed.

Lemma f_lt_asym x y : f_lt x y = true → f_lt y x = false.
Proof.
  intros Hxy. destruct (f_is_nan x) eqn:Hx; [by destruct x, y|].
  destruct (f_is_nan y) eqn:Hy; [by destruct y|].
  apply not_true_iff_false. rewrite f_lt_key in * by done.
  destruct (fkey x) as [[] ?], (fkey y) as [[] ?]. simpl in *. lia.
Qed.

Lemma f_nlt_trans x y z : f_is_nan x = false → f_is_nan y = false → f_is_nan z = false →
  f_lt x y = false → f_lt y z = false → f_lt x z = false.
Proof.
  rewrite <- !not_true_iff_false. intros Hx Hy Hz.
  rewrite !f_lt_key by by apply not_true_iff_false.
  destruct (fkey x) as [[] ?], (fkey y) as [[] ?], (fkey z) as [[] ?]. simpl. lia.
Qed.

Lemma f_lt_trans x y z : f_lt x y = true → f_lt y z = true → f_lt x z = true.
Proof.
  intros Hxy Hyz.
  destruct (f_is_nan x) eqn:Hx; [by destruct x, y|].
  destruct (f_is_nan y) eqn:Hy; [by destruct y, z|].
  destruct (f_is_nan z) eqn:Hz; [by destruct y, z|].
  rewrite f_lt_key in * by done.
  destruct (fkey x) as [[] ?], (fkey y) as [[] ?], (fkey z) as [[] ?]. simpl in *. lia.
Qed.

(** *** Rounding a non-negative mantissa never produces a NaN *)

Lemma shr_1_nonneg mrs : 0 ≤ shr_m mrs → 0 ≤ shr_m (shr_1 mrs).
Proof. destruct mrs as [[|[]|] r s]; simpl; lia. Qed.

Lemma shr_nonneg mrs e n : 0 ≤ shr_m mrs → 0 ≤ shr_m (shr mrs e n).1.
Proof.
  intros Hm. destruct n as [|n|n]; [done| |done]. rewrite shr_pos. simpl.
  induction (Pos.to_nat n) as [|k IH]; [done|]. simpl. by apply shr_1_nonneg.
Qed.

Lemma record_of_loc_m m l : shr_m (shr_record_of_loc m l) = m.
Proof. by destruct l as [|[]]. Qed.

Lemma round_nearest_even_nonneg m l : 0 ≤ m → 0 ≤ round_nearest_even m l.
Proof. intros. destruct l as [|[]]; simpl; try case_match; lia. Qed.

Lemma round_aux_not_nan s m e l : 0 ≤ m →
  f_is_nan (binary_round_aux prec emax s m e l) = false.
Proof.
  intros Hm. unfold binary_round_aux, shr_fexp.
  destruct (shr (shr_record_of_loc m l) e _) as [mrs1 e1] eqn:H1.
  destruct (shr (shr_record_of_loc (round_nearest_even _ _) _) e1 _) as [mrs2 e2] eqn:H2.
  assert (0 ≤ shr_m mrs1).
  { change mrs1 with (mrs1, e1).1. rewrite <- H1. apply shr_nonneg.
    by rewrite record_of_loc_m. }
  assert (0 ≤ shr_m mrs2).
  { change mrs2 with (mrs2, e2).1. rewrite <- H2. apply shr_nonneg.
    rewrite record_of_loc_m. by apply round_nearest_even_nonneg. }
  destruct (shr_m mrs2); [done| |lia]. by case_match.
Qed.

Lemma f_of_Z_nan n : f_is_nan (f_of_Z n) = false.
Proof.
  unfold f_of_Z, binary_normalize. destruct n; [done| |]; unfold binary_round;
    destruct (shl_align _ _ _); by apply round_aux_not_nan.
Qed.

Definition f_finite_nonzero (x : f64) : bool :=
  match x with S754_finite _ _ _ => true | _ => false end.

Lemma f_mul_nan x y : f_is_nan x = false → f_finite_nonzero y = true →
  f_is_nan (f_mul x y) = false.
Proof.
  destruct x, y; try done. intros _ _. by apply round_aux_not_nan.
Qed.

Lemma f_mul_nan_l x y : f_finite_nonzero x = true → f_is_nan y = false →
  f_is_nan (f_mul x y) = false.
Proof.
  destruct x, y; try done. intros _ _. by apply round_aux_not_nan.
Qed.

Lemma f_min_le_r x y : f_is_nan x = false → f_is_nan y = false →
  f_lt y (f_min x y) = false.
Proof.
  intros Hx Hy. unfold f_min.
  destruct x as [[]|[]| |[] m e], y as [[]|[]| |[] m' e']; try done;
  case_match; rewrite ?f_lt_irrefl; try done; by apply f_lt_asym.
Qed.

Lemma f_min_nan x y : f_is_nan x = false → f_is_nan y = false →
  f_is_nan (f_min x y) = false.
Proof.
  intros Hx Hy. unfold f_min.
  destruct x as [[]|[]| |[] m e], y as [[]|[]| |[] m' e']; try done; by case_match.
Qed.

(** [math.Max(lo, math.Min(x, hi))] clamps into [lo, hi]. *)
Lemma f_clamp_range lo hi x : f_is_nan lo = false → f_is_nan hi = false →
  f_is_nan x = false → f_lt hi lo = false →
  let c := f_max lo (f_min x hi) in
  f_is_nan c = false ∧ f_lt c lo = false ∧ f_lt hi c = false.
Proof.
  intros Hlo Hhi Hx Hord c. subst c.
  pose proof (f_min_le_r x hi Hx Hhi) as Hm. pose proof (f_min_nan x hi Hx Hhi) as Hn.
  revert Hm Hn. generalize (f_min x hi). intros y Hm Hn.
  unfold f_max, f_gt.
  destruct lo as [[]|[]| |[] m e], y as [[]|[]| |[] m' e']; try done;
  try (case_match; repeat split; rewrite ?f_lt_irrefl; done);
  repeat split; rewrite ?f_lt_irrefl; try done; by destruct hi as [[]|[]| |[] ? ?].
Qed.

(** ** Durations (nanoseconds) *)
Definition clamp_i64 (z : Z) : Z :=
  Z.max (-9223372036854775808) (Z.min 9223372036854775807 z).
(** [t.Sub(u)] saturates instead of wrapping. *)
Definition time_sub (t u : Z) : Z := clamp_i64 (t - u).
(** [d.Hours()] and [d.Seconds()]. *)
Definition dur_hours (d : Z) : f64 :=
  f_add (f_of_Z (Z.quot d 3600000000000))
        (f_div (f_of_Z (Z.rem d 3600000000000)) (f_of_Z 3600000000000)).
Definition dur_seconds (d : Z) : f64 :=
  f_add (f_of_Z (Z.quot d 1000000000))
        (f_div (f_of_Z (Z.rem d 1000000000)) (f_of_Z 1000000000)).
Definition second : Z := 1000000000.
Definition minute : Z := 60000000000.
Definition hour : Z := 3600000000000.
