(* ===== verification/FloatBounds.v ===== *)
(** * Bounds of float64 operations

    Rounding is monotone against representable bounds: an operation whose
    exact result lies between two representable values rounds to a finite
    value between them.  Finite floats are compared through [fval], their
    value in units of 2^-1074, an integer. *)
From Stdlib Require Import ZArith Lia SpecFloat.
From stdpp Require Import numbers prelude.
From S2P Require Import Prelude GoFloat.
Open Scope Z_scope.

(** ** Finite values *)

Definition canonical (m : positive) (e : Z) : Prop :=
  fexp prec emax (ndig m + e) = e ∧ e ≤ 971.

Definition fin (x : f64) : Prop :=
  match x with S754_zero _ => True | S754_finite _ m e => canonical m e | _ => False end.

#[export] Instance fin_dec x : Decision (fin x).
Proof. destruct x; unfold fin, canonical; apply _. Defined.

Definition fval (x : f64) : Z :=
  match x with S754_finite s m e => cond_Zopp s (Zpos m * 2 ^ (e + 1074)) | _ => 0 end.

(** A value some finite float has. *)
Definition rep (z : Z) : Prop := ∃ b k, Z.abs b < 2 ^ 53 ∧ 0 ≤ k ≤ 2045 ∧ z = b * 2 ^ k.

Lemma fexp_eq e : fexp prec emax e = Z.max (e - 53) (-1074).
Proof. unfold fexp, emin, prec, emax. lia. Qed.

Lemma canonical_range m e : canonical m e → -1074 ≤ e ≤ 971 ∧ ndig m ≤ 53.
Proof. unfold canonical. rewrite fexp_eq. lia. Qed.

Lemma fin_rep x : fin x → rep (fval x).
Proof.
  destruct x as [s|s| |s m e]; simpl; try done.
  - intros _. exists 0, 0. lia.
  - intros Hc%canonical_range. pose proof (ndig_bounds m) as [_ Hm].
    pose proof (Z.pow_le_mono_r 2 (ndig m) 53).
    exists (cond_Zopp s (Zpos m)), (e + 1074). destruct s; simpl; lia.
Qed.

Lemma rep_scaled b k : Z.abs b < 2 ^ 53 → bool_decide (0 ≤ k ≤ 2045) = true → rep (b * 2 ^ k).
Proof. intros ? Hk%bool_decide_eq_true. by exists b, k. Qed.

Lemma rep_opp z : rep z → rep (- z).
Proof. intros (b & k & ? & ? & ->). exists (- b), k. lia. Qed.

Lemma rep_0 : rep 0.
Proof. exists 0, 0. lia. Qed.

(** ** Shifting and rounding *)

Definition inexact (l : location) : bool := match l with loc_Exact => false | _ => true end.

Lemma shr_1_spec r : 0 ≤ shr_m r →
  shr_m (shr_1 r) = shr_m r / 2
  ∧ inexact (loc_of_shr_record (shr_1 r)) = Z.odd (shr_m r) || inexact (loc_of_shr_record r).
Proof.
  destruct r as [m r s]. cbn [shr_m]. intros Hm.
  destruct m as [|[p|p|]|p]; [| | | |lia].
  - by destruct r, s.
  - replace (Zpos p~1 / 2) with (Zpos p) by (apply Zdiv_unique with 1; lia).
    by destruct r, s.
  - replace (Zpos p~0 / 2) with (Zpos p) by (apply Zdiv_unique with 0; lia).
    by destruct r, s.
  - by destruct r, s.
Qed.

Lemma shr_iter n r : 0 ≤ shr_m r →
  let r' := Nat.iter n shr_1 r in
  shr_m r' = shr_m r / 2 ^ Z.of_nat n
  ∧ (inexact (loc_of_shr_record r') = false
     ↔ shr_m r mod 2 ^ Z.of_nat n = 0 ∧ inexact (loc_of_shr_record r) = false).
Proof.
  intros Hm. cbv zeta. induction n as [|n [IHm IHl]].
  - simpl. rewrite Z.div_1_r, Z.mod_1_r. naive_solver.
  - rewrite Nat2Z.inj_succ. unfold Z.succ.
    rewrite Z.pow_add_r, Z.pow_1_r by lia.
    assert (0 < 2 ^ Z.of_nat n) as Hp by (apply Z.pow_pos_nonneg; lia).
    cbn [Nat.iter nat_rect]. set (r' := Nat.iter n shr_1 r) in *.
    change (nat_rect _ r (λ _, shr_1) n) with r'.
    destruct (shr_1_spec r') as [H1 H2]; [rewrite IHm; apply Z.div_pos; lia|].
    rewrite H1, H2, IHm. split; [apply Z.div_div; lia|].
    rewrite orb_false_iff, IHl, Z.rem_mul_r by lia.
    pose proof (Z.mod_pos_bound (shr_m r) (2 ^ Z.of_nat n) Hp).
    pose proof (Z.mod_pos_bound (shr_m r / 2 ^ Z.of_nat n) 2 ltac:(lia)).
    rewrite <- Z.negb_even, negb_false_iff.
    assert (Z.even (shr_m r / 2 ^ Z.of_nat n) = true ↔ (shr_m r / 2 ^ Z.of_nat n) mod 2 = 0)
      by (rewrite Zmod_even; by destruct (Z.even _)).
    assert (shr_m r mod 2 ^ Z.of_nat n + 2 ^ Z.of_nat n * ((shr_m r / 2 ^ Z.of_nat n) mod 2) = 0
      ↔ shr_m r mod 2 ^ Z.of_nat n = 0 ∧ (shr_m r / 2 ^ Z.of_nat n) mod 2 = 0) by nia.
    tauto.
Qed.

Lemma rne_range m l : m ≤ round_nearest_even m l ≤ m + (if inexact l then 1 else 0).
Proof. destruct l as [|[]]; simpl; try case_match; lia. Qed.

(** The float of a rounded mantissa [r], at most 2^53, on the grid [e]. *)
Definition of_grid (s : bool) (r e : Z) : f64 :=
  match r with
  | Zpos p =>
      if decide (r = 2 ^ 53) then
        if e + 1 <=? 971 then S754_finite s (2 ^ 52)%positive (e + 1) else S754_infinity s
      else if e <=? 971 then S754_finite s p e else S754_infinity s
  | _ => S754_zero s
  end.

Lemma shr_nat r e n : 0 ≤ n → shr r e n = (Nat.iter (Z.to_nat n) shr_1 r, e + n).
Proof.
  intros Hn. destruct n as [|n|n]; [by rewrite Z.add_0_r| |lia]. by rewrite shr_pos, Z2Nat.inj_pos.
Qed.

Lemma loc_of_record m l : loc_of_shr_record (shr_record_of_loc m l) = l.
Proof. by destruct l as [|[]]. Qed.

(** The second normalisation: at most a carry into the next binade. *)
Lemma renormalise s r e : 0 ≤ r ≤ 2 ^ 53 → -1074 ≤ e → (-1074 < e → 2 ^ 52 ≤ r) →
  (let '(mrs, e') := shr_fexp prec emax r e loc_Exact in
   match shr_m mrs with
   | Z0 => S754_zero s
   | Zpos m => if e' <=? emax - prec then S754_finite s m e' else S754_infinity s
   | _ => S754_nan
   end) = of_grid s r e.
Proof.
  intros Hr He Hn. unfold shr_fexp. rewrite fexp_eq. unfold of_grid.
  destruct r as [|p|p]; [|destruct (decide (Zpos p = 2 ^ 53)) as [Hp|Hp]|lia].
  - cbn [Zdigits2]. unfold shr. by destruct (Z.max _ _ - e) as [|k|] eqn:Hk; [|lia|].
  - injection Hp as ->. change (Zdigits2 _) with 54.
    replace (Z.max (54 + e - 53) (-1074) - e) with 1 by lia. cbn [shr SpecFloat.iter_pos].
    change (emax - prec) with 971. done.
  - assert (Z.max (Zdigits2 (Zpos p) + e - 53) (-1074) - e = 0) as ->.
    { change (Zdigits2 (Zpos p)) with (ndig p). pose proof (ndig_le p 53).
      destruct (decide (-1074 < e)) as [Hlt|]; [|lia].
      assert (ndig p = 53) by (apply ndig_unique; lia). lia. }
    done.
Qed.

(** Rounding [m * 2^e] (plus a fraction of [2^e] when inexact), with [e] not
    above the grid of the result. *)
Lemma round_aux_grid s m e l :
  let d := ndig m in
  let e1 := fexp prec emax (d + e) in
  e ≤ e1 →
  ∃ r, binary_round_aux prec emax s (Zpos m) e l = of_grid s r e1
    ∧ Zpos m / 2 ^ (e1 - e) ≤ r ≤ Zpos m / 2 ^ (e1 - e) + 1 ∧ 0 ≤ r ≤ 2 ^ 53
    ∧ (Zpos m mod 2 ^ (e1 - e) = 0 → inexact l = false → r = Zpos m / 2 ^ (e1 - e))
    ∧ (-1074 < e1 → 2 ^ 52 ≤ Zpos m / 2 ^ (e1 - e)).
Proof.
  cbv zeta. intros He. set (d := ndig m) in *. set (e1 := fexp prec emax (d + e)) in *.
  pose proof (shr_iter (Z.to_nat (e1 - e)) (shr_record_of_loc (Zpos m) l)) as Hs.
  rewrite record_of_loc_m, loc_of_record, Z2Nat.id in Hs by lia. cbv zeta in Hs.
  destruct Hs as [Hq Hl]; [lia|].
  unfold binary_round_aux, shr_fexp at 1. change (Zdigits2 (Zpos m)) with d. fold e1.
  rewrite shr_nat by lia. replace (e + (e1 - e)) with e1 by lia.
  set (mrs := Nat.iter _ shr_1 _) in *. set (l' := loc_of_shr_record mrs) in *. rewrite Hq.
  set (q := Zpos m / 2 ^ (e1 - e)) in *.
  pose proof (rne_range q l') as Hrne. pose proof (ndig_bounds m) as [Hlo Hhi]. fold d in Hlo, Hhi.
  assert (0 < d) as Hd by (unfold d, ndig; lia).
  assert (He1 : e1 = Z.max (d + e - 53) (-1074)) by apply fexp_eq.
  assert (Hp : 0 < 2 ^ (e1 - e)) by (apply Z.pow_pos_nonneg; lia).
  assert (0 ≤ q < 2 ^ 53) as [Hq0 Hq1].
  { split; [apply Z.div_pos; lia|]. apply Z.div_lt_upper_bound; [done|].
    rewrite <- Z.pow_add_r by lia. pose proof (Z.pow_le_mono_r 2 d (e1 - e + 53)). lia. }
  assert (Hnorm : -1074 < e1 → 2 ^ 52 ≤ q).
  { intros Hlt. apply Z.div_le_lower_bound; [done|]. rewrite <- Z.pow_add_r by lia.
    replace (e1 - e + 52) with (d - 1) by lia. done. }
  exists (round_nearest_even q l').
  assert (Hr : 0 ≤ round_nearest_even q l' ≤ 2 ^ 53) by (destruct (inexact l'); lia).
  split_and!; [|destruct (inexact l'); lia..| |done].
  - apply renormalise; [done|lia|]. intros Hlt. specialize (Hnorm Hlt). lia.
  - intros Hmod Hex. rewrite (proj2 Hl) in Hrne by done. lia.
Qed.

Lemma pow_pos n : 0 ≤ n → 0 < 2 ^ n.
Proof. intros. apply Z.pow_pos_nonneg; lia. Qed.

(** A large power of two as a positive unknown: [lia] computes with literal
    powers, which is slow and never needed here. *)
Ltac hide_pow n :=
  pose proof (pow_pos n ltac:(done));
  let P := fresh "P" in let E := fresh "E" in remember (2 ^ n) as P eqn:E in *; clear E.

Lemma rep_bound z : rep z → Z.abs z < 2 ^ 2098.
Proof.
  intros (b & k & Hb & Hk & ->). rewrite Z.abs_mul, (Z.abs_eq (2 ^ k)) by (pose proof (pow_pos k); lia).
  replace 2098 with (53 + 2045) by done. rewrite Z.pow_add_r by lia.
  pose proof (Z.pow_le_mono_r 2 k 2045 ltac:(done) (proj2 Hk)) as Hle.
  pose proof (pow_pos k (proj1 Hk)). hide_pow 2045.
  apply Z.lt_le_trans with (2 ^ 53 * 2 ^ k); [nia|]. apply Z.mul_le_mono_nonneg_l; [done|exact Hle].
Qed.

Lemma of_grid_value s r e : 0 ≤ r ≤ 2 ^ 53 → -1074 ≤ e → (-1074 < e → 2 ^ 52 ≤ r) →
  r * 2 ^ (e + 1074) < 2 ^ 2098 →
  fin (of_grid s r e) ∧ fval (of_grid s r e) = cond_Zopp s (r * 2 ^ (e + 1074)).
Proof.
  intros Hr He Hn Hv.
  assert (He' : e ≤ 971 ∧ (r = 2 ^ 53 → e + 1 ≤ 971)).
  { assert (Hgen : ∀ j, 52 ≤ j → 2 ^ j ≤ r → e + 1074 + j < 2098).
    { intros j Hj Hle. apply (Z.pow_lt_mono_r_iff 2); [lia..|].
      rewrite Z.add_comm, Z.pow_add_r by lia. hide_pow 2098. pose proof (pow_pos (e + 1074)). nia. }
    clear Hv. split.
    - destruct (decide (-1074 < e)) as [Hlt|]; [|lia]. pose proof (Hgen 52 ltac:(lia) (Hn Hlt)). lia.
    - intros ->. pose proof (Hgen 53). lia. }
  clear Hv. unfold of_grid. destruct r as [|p|p]; [by destruct s| |lia].
  destruct (decide (Zpos p = 2 ^ 53)) as [Hp|Hp].
  - rewrite (proj2 (Z.leb_le (e + 1) 971)) by (apply He'; done). cbn [fin fval]. split.
    + unfold canonical. rewrite fexp_eq. change (ndig (2 ^ 52)) with 53. lia.
    + rewrite Hp. f_equal. replace (e + 1 + 1074) with (1 + (e + 1074)) by lia.
      rewrite (Z.pow_add_r 2 1) by lia. rewrite Z.mul_assoc. done.
  - rewrite (proj2 (Z.leb_le e 971)) by lia. cbn [fin fval]. split; [|done].
    unfold canonical. rewrite fexp_eq. pose proof (ndig_le p 53).
    destruct (decide (-1074 < e)) as [Hlt|]; [|lia].
    assert (ndig p = 53) by (apply ndig_unique; lia). lia.
Qed.

(** The result of rounding lies between the representable values its exact
    argument lies between; [c] scales both sides to integers. *)
Lemma round_bounds c s m e l lo hi : 0 ≤ c → 0 ≤ e + 1074 + c →
  e ≤ fexp prec emax (ndig m + e) → rep lo → rep hi →
  lo * 2 ^ c < (Zpos m + 1) * 2 ^ (e + 1074 + c) →
  Zpos m * 2 ^ (e + 1074 + c) ≤ hi * 2 ^ c →
  (inexact l = true → Zpos m * 2 ^ (e + 1074 + c) < hi * 2 ^ c) →
  let x := binary_round_aux prec emax s (Zpos m) e l in
  fin x ∧ ∃ v, fval x = cond_Zopp s v ∧ 0 ≤ v ∧ lo ≤ v ≤ hi.
Proof.
  intros Hc Hec He Hlo Hhi Hl Hh Hstrict x.
  destruct (round_aux_grid s m e l He) as (r & Hx & Hr & Hr53 & Hexact & Hnorm).
  pose proof (fexp_eq (ndig m + e)) as He1.
  set (e1 := fexp prec emax (ndig m + e)) in *.
  set (n := e1 - e) in *. set (q := Zpos m / 2 ^ n) in *.
  assert (Hn : 0 ≤ n) by lia. pose proof (pow_pos n Hn) as Hpn.
  assert (Hk1 : 0 ≤ e1 + 1074) by lia. set (k1 := e1 + 1074) in *.
  pose proof (pow_pos k1 Hk1) as Hpk1.
  replace (e + 1074 + c) with (k1 + c - n) in * by lia.
  pose proof (pow_pos (k1 + c - n) Hec) as Hpu. set (u := 2 ^ (k1 + c - n)) in *.
  pose proof (Z.div_mod (Zpos m) (2 ^ n) ltac:(lia)) as Hdm. fold q in Hdm.
  pose proof (Z.mod_pos_bound (Zpos m) (2 ^ n) Hpn) as Hmod.
  assert (Hsplit : ∀ j, k1 ≤ j → 2 ^ j * 2 ^ c = 2 ^ (j - k1) * 2 ^ n * u).
  { intros j Hj. unfold u. rewrite <- !Z.pow_add_r by lia. f_equal. lia. }
  assert (Hup : r * 2 ^ k1 ≤ hi).
  { destruct Hhi as (b & k & Hb & Hk & ->).
    assert (0 < b) by (pose proof (pow_pos k); pose proof (pow_pos c Hc); nia).
    assert (Hkk : k1 ≤ k).
    { destruct (decide (-1074 < e1)) as [Hlt|]; [|lia]. specialize (Hnorm Hlt).
      enough (52 + k1 < 53 + k) by lia. apply (Z.pow_lt_mono_r_iff 2); [lia..|].
      rewrite !Z.pow_add_r by lia. pose proof (pow_pos k).
      apply Z.mul_lt_mono_pos_r with (2 ^ c); [by apply pow_pos|].
      apply Z.le_lt_trans with (b * 2 ^ k * 2 ^ c).
      - rewrite <- !Z.mul_assoc, (Hsplit k1), Z.sub_diag, Z.pow_0_r, Z.mul_1_l by lia.
        apply Z.le_trans with (Zpos m * u); [|by rewrite Z.mul_assoc]. nia.
      - pose proof (pow_pos c Hc). nia. }
    rewrite <- Z.mul_assoc, (Hsplit k), !Z.mul_assoc in Hh by done.
    rewrite <- Z.mul_assoc, (Hsplit k), !Z.mul_assoc in Hstrict by done.
    set (h := b * 2 ^ (k - k1)) in *.
    assert (b * 2 ^ k = h * 2 ^ k1) as ->.
    { unfold h. rewrite <- Z.mul_assoc, <- Z.pow_add_r by lia. f_equal. f_equal. lia. }
    apply Z.mul_le_mono_nonneg_r; [lia|].
    assert (Zpos m ≤ h * 2 ^ n) by nia.
    destruct (inexact l) eqn:Hin.
    - assert (Zpos m < h * 2 ^ n) by (specialize (Hstrict eq_refl); nia). nia.
    - destruct (decide (Zpos m mod 2 ^ n = 0)) as [Hz|Hz]; [rewrite Hexact by done|]; nia. }
  assert (Hdown : lo ≤ r * 2 ^ k1).
  { apply Z.le_trans with (q * 2 ^ k1); [|nia].
    destruct Hlo as (b & k & Hb & Hk & ->).
    destruct (decide (k1 ≤ k)) as [Hkk|Hkk].
    - rewrite <- Z.mul_assoc, (Hsplit k), !Z.mul_assoc in Hl by done.
      assert (b * 2 ^ k = b * 2 ^ (k - k1) * 2 ^ k1) as ->.
      { rewrite <- Z.mul_assoc, <- Z.pow_add_r by lia. f_equal. f_equal. lia. }
      apply Z.mul_le_mono_nonneg_r; [lia|].
      assert (b * 2 ^ (k - k1) * 2 ^ n < Zpos m + 1) by nia.
      apply Z.div_le_lower_bound; lia.
    - assert (-1074 < e1) as Hlt by lia. specialize (Hnorm Hlt).
      apply Z.le_trans with (2 ^ 52 * 2 ^ k1); [|nia].
      apply Z.le_trans with (2 ^ 53 * 2 ^ k); [pose proof (pow_pos k); nia|].
      rewrite <- !Z.pow_add_r by lia. apply Z.pow_le_mono_r; lia. }
  pose proof (rep_bound hi Hhi) as Hb.
  assert (Hlt : r * 2 ^ k1 < 2 ^ 2098) by (clear - Hb Hup; hide_pow 2098; lia). clear Hb.
  destruct (of_grid_value s r e1) as [Hfin Hval];
    [done|clear Hlt; lia|clear Hlt; intros; lia|exact Hlt|]. clear Hlt.
  unfold x. rewrite Hx. split; [done|]. exists (r * 2 ^ k1). split_and!; [done|nia|done..].
Qed.

Lemma round_bounds_exact c s m e lo hi : 0 ≤ c → 0 ≤ e + 1074 + c →
  e ≤ fexp prec emax (ndig m + e) → rep lo → rep hi →
  lo * 2 ^ c ≤ cond_Zopp s (Zpos m * 2 ^ (e + 1074 + c)) ≤ hi * 2 ^ c →
  let x := binary_round_aux prec emax s (Zpos m) e loc_Exact in
  fin x ∧ lo ≤ fval x ≤ hi.
Proof.
  intros Hc Hec He Hlo Hhi Hv x. pose proof (pow_pos _ Hec) as Hp.
  destruct s; simpl in Hv.
  - destruct (round_bounds c true m e loc_Exact (- hi) (- lo)) as (Hf & v & Hx & ? & ?);
      [done..|by apply rep_opp|by apply rep_opp|nia|nia|done|].
    split; [done|]. fold x in Hx. rewrite Hx. simpl. lia.
  - destruct (round_bounds c false m e loc_Exact lo hi) as (Hf & v & Hx & ? & ?);
      [done..|nia|nia|done|].
    split; [done|]. fold x in Hx. by rewrite Hx.
Qed.

(** ** The operations *)

Lemma ndig_mul p q : ndig p + ndig q - 1 ≤ ndig (p * q).
Proof.
  pose proof (ndig_bounds p) as [Hp _]. pose proof (ndig_bounds q) as [Hq _].
  pose proof (ndig_bounds (p * q)) as [_ Hpq]. rewrite Pos2Z.inj_mul in Hpq.
  assert (0 < ndig p ∧ 0 < ndig q) as [? ?] by (unfold ndig; lia).
  enough (ndig p - 1 + (ndig q - 1) < ndig (p * q)) by lia.
  apply (Z.pow_lt_mono_r_iff 2); [lia|unfold ndig; lia|]. rewrite Z.pow_add_r by lia.
  pose proof (pow_pos (ndig p - 1)). pose proof (pow_pos (ndig q - 1)). nia.
Qed.

Lemma f_mul_bounds x y lo hi : fin x → fin y → rep lo → rep hi →
  lo * 2 ^ 1074 ≤ fval x * fval y ≤ hi * 2 ^ 1074 →
  fin (f_mul x y) ∧ lo ≤ fval (f_mul x y) ≤ hi.
Proof.
  assert (Hz : lo * 2 ^ 1074 ≤ 0 ≤ hi * 2 ^ 1074 → lo ≤ 0 ≤ hi).
  { hide_pow 1074. nia. }
  destruct x as [sx|?| |sx mx ex], y as [sy|?| |sy my ey]; try done; intros Hx Hy Hlo Hhi Hv;
    try (split; [done|]; apply Hz; simpl in Hv; hide_pow 1074; lia).
  apply canonical_range in Hx as Hrx. apply canonical_range in Hy as Hry.
  apply (round_bounds_exact 1074); [lia|lia| |done|done|].
  - pose proof (ndig_mul mx my) as Hd. unfold fin, canonical in Hx, Hy. rewrite !fexp_eq in *.
    destruct Hx, Hy. assert (0 < ndig mx ∧ 0 < ndig my) by (unfold ndig; lia). lia.
  - replace (ex + ey + 1074 + 1074) with ((ex + 1074) + (ey + 1074)) by (clear; lia).
    rewrite Pos2Z.inj_mul, Z.pow_add_r by (clear - Hrx Hry; lia). clear Hz Hlo Hhi.
    hide_pow 1074. destruct sx, sy; simpl in Hv |- *; lia.
Qed.

Lemma align_value m e ez : ez ≤ e →
  Zpos (fst (shl_align m e ez)) = Zpos m * 2 ^ (e - ez).
Proof.
  intros He. unfold shl_align. destruct (ez - e) as [|k|k] eqn:Hk; [|lia|]; simpl.
  - replace (e - ez) with 0 by lia. lia.
  - rewrite iter_xO, pscale_spec by lia. f_equal. f_equal. lia.
Qed.

Lemma normalize_bounds z e lo hi : -1074 ≤ e → rep lo → rep hi →
  lo ≤ z * 2 ^ (e + 1074) ≤ hi →
  fin (binary_normalize prec emax z e false)
  ∧ lo ≤ fval (binary_normalize prec emax z e false) ≤ hi.
Proof.
  intros He Hlo Hhi Hv.
  assert (Hr : ∀ s p, lo ≤ cond_Zopp s (Zpos p * 2 ^ (e + 1074)) ≤ hi →
    fin (binary_round prec emax s p e) ∧ lo ≤ fval (binary_round prec emax s p e) ≤ hi).
  { clear Hv. intros s p Hv. unfold binary_round. fold (ndig p).
    pose proof (fexp_eq (ndig p + e)) as Hf. set (e1 := fexp prec emax (ndig p + e)) in *.
    unfold shl_align. destruct (e1 - e) as [|k|k] eqn:Hk.
    - apply (round_bounds_exact 0); [lia..|done|done|]. rewrite Z.add_0_r, !Z.mul_1_r. done.
    - apply (round_bounds_exact 0); [lia..|done|done|]. rewrite Z.add_0_r, !Z.mul_1_r. done.
    - rewrite iter_xO. apply (round_bounds_exact 0); [lia..| |done|done|].
      + rewrite ndig_pscale, fexp_eq by lia. lia.
      + rewrite Z.add_0_r, !Z.mul_1_r, pscale_spec by lia.
        rewrite <- Z.mul_assoc, <- Z.pow_add_r by lia.
        replace (Zpos k + (e1 + 1074)) with (e + 1074) by lia. done. }
  destruct z as [|p|p]; simpl binary_normalize.
  - simpl in *. lia.
  - by apply Hr.
  - apply Hr. simpl cond_Zopp. lia.
Qed.

Lemma f_add_bounds x y lo hi : fin x → fin y → rep lo → rep hi →
  lo ≤ fval x + fval y ≤ hi → fin (f_add x y) ∧ lo ≤ fval (f_add x y) ≤ hi.
Proof.
  destruct x as [sx|?| |sx mx ex], y as [sy|?| |sy my ey]; try done; intros Hx Hy Hlo Hhi Hv.
  - by destruct sx, sy.
  - split; [exact Hx|]. simpl in Hv |- *. lia.
  - rewrite f_add_finite. cbv zeta. apply canonical_range in Hx. apply canonical_range in Hy.
    apply normalize_bounds; [lia|done|done|]. rewrite !align_value by lia.
    assert (Hpow : ∀ e, Z.min ex ey ≤ e → -1074 ≤ e →
      2 ^ (e + 1074) = 2 ^ (e - Z.min ex ey) * 2 ^ (Z.min ex ey + 1074)).
    { intros e He ?. rewrite <- Z.pow_add_r by lia. f_equal. lia. }
    simpl fval in Hv. rewrite (Hpow ex), (Hpow ey) in Hv by lia.
    destruct sx, sy; simpl cond_Zopp in *; lia.
Qed.

Lemma fval_neg x : fval (f_neg x) = - fval x.
Proof. destruct x as [| | |[] m e]; simpl; lia. Qed.
Lemma fin_neg x : fin (f_neg x) ↔ fin x.
Proof. by destruct x. Qed.
Lemma fin_not_nan x : fin x → f_is_nan x = false.
Proof. by destruct x. Qed.

Lemma f_sub_bounds x y lo hi : fin x → fin y → rep lo → rep hi →
  lo ≤ fval x - fval y ≤ hi → fin (f_sub x y) ∧ lo ≤ fval (f_sub x y) ≤ hi.
Proof.
  intros Hx Hy Hlo Hhi Hv. rewrite f_sub_add_neg by by apply fin_not_nan.
  apply f_add_bounds; [done|by apply fin_neg|done|done|]. rewrite fval_neg. lia.
Qed.

Lemma fval_negative m e : fin (S754_finite true m e) → fval (S754_finite true m e) < 0.
Proof. intros Hc%canonical_range. pose proof (pow_pos (e + 1074)). cbn [fval cond_Zopp]. nia. Qed.

Lemma new_location_inexact n r : inexact (new_location n r) = true → r ≠ 0.
Proof. intros Hi ->. unfold new_location in Hi. by destruct (Z.even n). Qed.

(** A quotient below the least unit rounds to it or to zero. *)
Lemma round_bounds_zero s e l lo hi : e ≤ -1074 → lo ≤ 0 → 0 ≤ hi → (inexact l = true → 0 < hi) →
  let x := binary_round_aux prec emax s 0 e l in
  fin x ∧ ∃ v, fval x = cond_Zopp s v ∧ lo ≤ v ≤ hi.
Proof.
  intros He Hlo Hhi Hin x.
  pose proof (shr_iter (Z.to_nat (Z.max (0 + e - 53) (-1074) - e)) (shr_record_of_loc 0 l)) as Hs.
  rewrite record_of_loc_m, loc_of_record in Hs. destruct Hs as [Hq Hl]; [lia|].
  set (mrs := Nat.iter _ shr_1 _) in *. rewrite Z.div_0_l in Hq by (pose proof (pow_pos
    (Z.of_nat (Z.to_nat (Z.max (0 + e - 53) (-1074) - e)))); lia).
  set (l' := loc_of_shr_record mrs) in *.
  pose proof (rne_range 0 l') as Hr. set (r := round_nearest_even 0 l') in *.
  assert (r ≤ hi).
  { destruct (inexact l) eqn:Hi; [specialize (Hin eq_refl); destruct (inexact l'); lia|].
    rewrite (proj2 Hl) in Hr; [lia|]. split; [|done]. apply Z.mod_0_l.
    pose proof (pow_pos (Z.of_nat (Z.to_nat (Z.max (0 + e - 53) (-1074) - e)))). lia. }
  assert (x = of_grid s r (-1074)) as ->.
  { unfold x, binary_round_aux, shr_fexp at 1. cbn [Zdigits2]. rewrite fexp_eq, shr_nat by lia.
    fold mrs. rewrite Hq. fold l'. fold r. replace (e + _) with (-1074) by lia.
    apply renormalise; destruct (inexact l'); lia. }
  destruct (of_grid_value s r (-1074)) as [Hf Hv]; [destruct (inexact l'); lia|lia..| |].
  - change (-1074 + 1074) with 0. rewrite Z.pow_0_r, Z.mul_1_r.
    assert (1 < 2 ^ 2098) by done. destruct (inexact l'); lia.
  - split; [done|]. exists r. change (-1074 + 1074) with 0 in Hv.
    rewrite Z.pow_0_r, Z.mul_1_r in Hv. split; [done|]. destruct (inexact l'); lia.
Qed.

(** The quotient that long division of two canonical mantissas yields has at
    least 53 digits unless it is subnormal. *)
Lemma quotient_digits (mx my : positive) (ex ey k q : Z) : 0 ≤ k →
  ndig my - ndig mx + 53 ≤ k → Zpos mx * 2 ^ k < Zpos my * (q + 1) → 2 ^ 52 ≤ q.
Proof.
  intros Hk Hkd Hq. destruct (decide (2 ^ 52 ≤ q)); [done|].
  pose proof (ndig_bounds mx) as [Hmx _]. pose proof (ndig_bounds my) as [_ Hmy].
  assert (0 < ndig mx ∧ 0 < ndig my) as [? ?] by (unfold ndig; lia).
  enough (ndig mx - 1 + k < ndig my + 52) by lia.
  apply (Z.pow_lt_mono_r_iff 2); [lia..|]. rewrite !Z.pow_add_r by lia.
  pose proof (pow_pos k Hk). apply Z.le_lt_trans with (Zpos mx * 2 ^ k); [nia|].
  apply Z.lt_le_trans with (Zpos my * 2 ^ 52); nia.
Qed.

(** Rounding the outcome of a long division: [mx * 2^k = my * q + r]. *)
Lemma div_round_bounds (mx my : positive) ex ey e q r lo hi :
  let k := ex - ey - e in
  -1074 ≤ ex → -1074 ≤ ey → -2200 ≤ e → 0 ≤ k → Zpos mx * 2 ^ k = Zpos my * q + r →
  0 ≤ r < Zpos my → (e ≤ -1074 ∨ ndig my - ndig mx + 53 ≤ k) → rep lo → rep hi →
  lo * (Zpos my * 2 ^ (ey + 1074)) ≤ Zpos mx * 2 ^ (ex + 1074) * 2 ^ 1074
    ≤ hi * (Zpos my * 2 ^ (ey + 1074)) →
  let x := binary_round_aux prec emax false q e (new_location (Zpos my) r) in
  fin x ∧ lo ≤ fval x ≤ hi.
Proof.
  intros k Hex Hey He Hk Hq Hr Hsize Hlo Hhi Hv x.
  set (c := 2200). assert (Hec : 0 ≤ e + 1074 + c) by (unfold c; lia).
  pose proof (pow_pos (ey + 1074) ltac:(lia)) as Hpy. pose proof (pow_pos _ Hec) as Hpe.
  pose proof (pow_pos c ltac:(unfold c; lia)) as Hpc. pose proof (pow_pos k Hk) as Hpk.
  assert (Hscale : Zpos mx * 2 ^ k * (2 ^ (e + 1074 + c) * 2 ^ (ey + 1074))
    = Zpos mx * 2 ^ (ex + 1074) * 2 ^ 1074 * 2 ^ c).
  { rewrite <- !Z.mul_assoc, <- !Z.pow_add_r by (unfold c; lia). f_equal. f_equal. unfold k. lia. }
  set (fy := Zpos my * 2 ^ (ey + 1074)) in *. assert (0 < fy) as Hfy by (unfold fy; nia).
  assert (Hc0 : 0 ≤ c) by done. clearbody c. hide_pow 1074.
  assert (Hfold : ∀ z, z * 2 ^ (e + 1074 + c) * fy
    = Zpos my * z * (2 ^ (e + 1074 + c) * 2 ^ (ey + 1074))) by (intros z; unfold fy; lia).
  (* the three conditions of [round_bounds], with [fy] cancelled *)
  assert (Hdown : lo * 2 ^ c < (q + 1) * 2 ^ (e + 1074 + c)).
  { apply Z.mul_lt_mono_pos_r with fy; [done|]. rewrite Hfold.
    apply Z.le_lt_trans with (Zpos mx * 2 ^ (ex + 1074) * P * 2 ^ c); [nia|].
    rewrite <- Hscale. apply Z.mul_lt_mono_pos_r; nia. }
  assert (Hup : q * 2 ^ (e + 1074 + c) ≤ hi * 2 ^ c).
  { apply Z.mul_le_mono_pos_r with fy; [done|]. rewrite Hfold.
    apply Z.le_trans with (Zpos mx * 2 ^ (ex + 1074) * P * 2 ^ c); [|nia].
    rewrite <- Hscale. apply Z.mul_le_mono_nonneg_r; nia. }
  assert (Hstrict : inexact (new_location (Zpos my) r) = true →
    q * 2 ^ (e + 1074 + c) < hi * 2 ^ c).
  { intros Hr0%new_location_inexact. apply Z.mul_lt_mono_pos_r with fy; [done|]. rewrite Hfold.
    apply Z.lt_le_trans with (Zpos mx * 2 ^ (ex + 1074) * P * 2 ^ c); [|nia].
    rewrite <- Hscale. apply Z.mul_lt_mono_pos_r; nia. }
  assert (Hbig : ndig my - ndig mx + 53 ≤ k → 2 ^ 52 ≤ q)
    by (intros Hkd; apply (quotient_digits mx my ex ey k q); [done|done|nia]).
  destruct q as [|q|q]; [| |nia].
  - assert (He' : e ≤ -1074) by (destruct Hsize as [?|Hkd]; [done|specialize (Hbig Hkd); lia]).
    destruct (round_bounds_zero false e (new_location (Zpos my) r) lo hi) as (Hf & v & Hx & ?);
      [done| |nia|intros Hi; specialize (Hstrict Hi); nia|fold x in Hf, Hx; by rewrite Hx].
    assert (2 ^ (e + 1074 + c) ≤ 2 ^ c) by (apply Z.pow_le_mono_r; lia). nia.
  - destruct (round_bounds c false q e (new_location (Zpos my) r) lo hi)
      as (Hf & v & Hx & ? & ?); [done|done| |done..|fold x in Hf, Hx; by rewrite Hx].
    rewrite fexp_eq. destruct Hsize as [?|Hkd]; [lia|]. specialize (Hbig Hkd).
    pose proof (ndig_bounds q) as [_ Hnq]. enough (52 < ndig q) by lia.
    apply (Z.pow_lt_mono_r_iff 2); [lia|unfold ndig; lia|lia].
Qed.

Lemma f_div_bounds x y lo hi : fin x → fin y → 0 ≤ fval x → 0 < fval y → rep lo → rep hi →
  lo * fval y ≤ fval x * 2 ^ 1074 ≤ hi * fval y →
  fin (f_div x y) ∧ lo ≤ fval (f_div x y) ≤ hi.
Proof.
  intros Hx Hy Hpx Hpy Hlo Hhi Hv.
  destruct y as [sy|?| |[] my ey]; try done; [pose proof (fval_negative my ey Hy); lia|].
  destruct x as [sx|?| |[] mx ex]; try done; [|pose proof (fval_negative mx ex Hx); lia|].
  - split; [done|]. change (fval (f_div _ _)) with 0. change (fval (S754_zero sx)) with 0 in Hv. nia.
  - apply canonical_range in Hx as [Hex Hdx]. apply canonical_range in Hy as [Hey Hdy].
    unfold f_div, SFdiv, SFdiv_core_binary. cbn [xorb].
    change (Zdigits2 (Zpos mx)) with (ndig mx). change (Zdigits2 (Zpos my)) with (ndig my).
    set (D := ndig mx + ex - (ndig my + ey)).
    pose proof (fexp_eq D) as Hfe. set (e := Z.min (fexp prec emax D) (ex - ey)).
    set (k := ex - ey - e). assert (0 ≤ k) as Hk by lia.
    assert ((match k with 0 => Zpos mx | Zpos _ => Z.shiftl (Zpos mx) k | Zneg _ => 0 end)
      = Zpos mx * 2 ^ k) as ->.
    { destruct k as [|k'|k'] eqn:Hkk; [by rewrite Z.mul_1_r|by rewrite Z.shiftl_mul_pow2|lia]. }
    pose proof (Z_div_mod (Zpos mx * 2 ^ k) (Zpos my) ltac:(lia)) as Hqr.
    destruct (Z.div_eucl _ _) as [q r]. destruct Hqr as [Hq Hr].
    apply (div_round_bounds mx my ex ey e q r lo hi); [lia|lia|lia|done|done|lia| |done..].
    destruct (decide (fexp prec emax D = -1074)); [left; lia|right]. unfold k, D in *. lia.
Qed.

Lemma round_aux_opp s m e l :
  binary_round_aux prec emax (negb s) m e l = f_neg (binary_round_aux prec emax s m e l).
Proof.
  unfold binary_round_aux. destruct (shr_fexp _ _ m e l) as [mrs e1].
  destruct (shr_fexp _ _ _ e1 _) as [mrs2 e2]. destruct (shr_m mrs2); [done| |done]. by case_match.
Qed.

(** The same for either sign, by the magnitude. *)
Lemma f_div_magnitude x y hi : fin x → fin y → 0 < fval y → rep hi →
  Z.abs (fval x) * 2 ^ 1074 ≤ hi * fval y →
  fin (f_div x y) ∧ - hi ≤ fval (f_div x y) ≤ hi.
Proof.
  intros Hx Hy Hpy Hhi Hv.
  destruct (decide (0 ≤ fval x)).
  - destruct (f_div_bounds x y 0 hi) as [? ?]; [done..|apply rep_0|done| |split; [done|]]; hide_pow 1074; nia.
  - destruct x as [| | |[] mx ex]; try done; [|simpl in n; apply canonical_range in Hx;
      pose proof (pow_pos (ex + 1074)); nia].
    destruct y as [sy|?| |[] my ey]; try done; [pose proof (fval_negative my ey Hy); lia|].
    destruct (f_div_bounds (S754_finite false mx ex) (S754_finite false my ey) 0 hi) as [Hf Hb];
      [done..|simpl; clear - Hx; apply canonical_range in Hx; pose proof (pow_pos (ex + 1074)); lia|done|apply rep_0|done|simpl in *; hide_pow 1074; nia|].
    assert (f_div (S754_finite true mx ex) (S754_finite false my ey)
      = f_neg (f_div (S754_finite false mx ex) (S754_finite false my ey))) as ->.
    { unfold f_div, SFdiv. destruct (SFdiv_core_binary _ _ _ _ _ _) as [[q e] l].
      apply (round_aux_opp false). }
    rewrite fin_neg, fval_neg. split; [done|]. clear - Hb. lia.
Qed.

(** ** Comparison, conversion *)

Lemma canonical_lt m e m' e' : canonical m e → canonical m' e' →
  (e < e' ∨ e = e' ∧ Zpos m < Zpos m') ↔ Zpos m * 2 ^ (e + 1074) < Zpos m' * 2 ^ (e' + 1074).
Proof.
  assert (Hlt : ∀ m e m' e', canonical m e → canonical m' e' → e < e' →
    Zpos m * 2 ^ (e + 1074) < Zpos m' * 2 ^ (e' + 1074)).
  { clear. intros m e m' e' Hc Hc' He. pose proof (canonical_range m e Hc) as [? Hd].
    pose proof (canonical_range m' e' Hc') as [? Hd'].
    destruct Hc' as [Hf _]. rewrite fexp_eq in Hf. assert (ndig m' = 53) as Hn by lia.
    pose proof (ndig_bounds m) as [_ Hm]. pose proof (ndig_bounds m') as [Hm' _].
    rewrite Hn in Hm'. pose proof (Z.pow_le_mono_r 2 (ndig m) 53).
    pose proof (pow_pos (e + 1074)).
    apply Z.lt_le_trans with (2 ^ 53 * 2 ^ (e + 1074)); [nia|].
    apply Z.le_trans with (2 ^ 52 * 2 ^ (e' + 1074)); [|pose proof (pow_pos (e' + 1074)); nia].
    rewrite <- !Z.pow_add_r by lia. apply Z.pow_le_mono_r; lia. }
  intros Hc Hc'. pose proof (canonical_range m e Hc). split.
  - intros [He|[<- Hm]]; [by apply Hlt|]. pose proof (pow_pos (e + 1074)). nia.
  - intros Hv. destruct (Z.lt_trichotomy e e') as [?|[<-|He]]; [by left| |].
    + right. split; [done|]. pose proof (pow_pos (e + 1074)). nia.
    + pose proof (Hlt m' e' m e Hc' Hc He). lia.
Qed.

Lemma f_lt_fval x y : fin x → fin y → f_lt x y = true ↔ fval x < fval y.
Proof.
  intros Hx Hy. rewrite f_lt_key by by apply fin_not_nan.
  destruct x as [sx|?| |sx m e]; try done; destruct y as [sy|?| |sy m' e']; try done.
  - simpl. lia.
  - destruct sy; [pose proof (fval_negative _ _ Hy)|
      apply canonical_range in Hy; pose proof (pow_pos (e' + 1074))]; simpl in *; lia.
  - destruct sx; [pose proof (fval_negative _ _ Hx)|
      apply canonical_range in Hx; pose proof (pow_pos (e + 1074))]; simpl in *; lia.
  - pose proof (canonical_range _ _ Hx). pose proof (canonical_range _ _ Hy).
    pose proof (pow_pos (e + 1074)). pose proof (pow_pos (e' + 1074)).
    destruct sx, sy; cbn [fkey key_lt fval cond_Zopp].
    + pose proof (canonical_lt m' e' m e Hy Hx). lia.
    + nia.
    + nia.
    + pose proof (canonical_lt m e m' e' Hx Hy). lia.
Qed.

Lemma f_lt_fval_false x y : fin x → fin y → f_lt x y = false ↔ fval y ≤ fval x.
Proof. intros. rewrite <- not_true_iff_false, f_lt_fval by done. lia. Qed.

Lemma f_of_Z_fval z : exact_int z → fin (f_of_Z z) ∧ fval (f_of_Z z) = z * 2 ^ 1074.
Proof.
  intros Hz. assert (rep (z * 2 ^ 1074)) as Hr.
  { exists z, 1074. split_and!; [exact Hz|done..]. }
  unfold f_of_Z. destruct (normalize_bounds z 0 (z * 2 ^ 1074) (z * 2 ^ 1074)) as [? ?];
    [done|done|done| |].
  - replace (0 + 1074) with 1074 by done. done.
  - split; [done|hide_pow 1074; lia].
Qed.

Lemma f_ge_fval x y : fin x → fin y → f_ge x y = true ↔ fval y ≤ fval x.
Proof.
  intros Hx Hy. unfold f_ge. fold (f_le y x).
  rewrite f_le_total, negb_true_iff, f_lt_fval_false by auto using fin_not_nan. done.
Qed.

(** [int(x)] of a finite float. *)
Lemma f_trunc_fval x : fin x → f_trunc x = Some (Z.quot (fval x) (2 ^ 1074)).
Proof.
  destruct x as [s|s| |s m e]; try done. intros [Hr _]%canonical_range. cbn [f_trunc].
  assert (Hq : (if 0 <=? e then Z.shiftl (Zpos m) e else Z.shiftr (Zpos m) (- e))
    = Z.quot (Zpos m * 2 ^ (e + 1074)) (2 ^ 1074)).
  { pose proof (pow_pos 1074 ltac:(lia)) as Hp. destruct (0 <=? e) eqn:He; bool_to_prop.
    - rewrite Z.shiftl_mul_pow2, Z.pow_add_r, Z.mul_assoc, Z.quot_mul by lia. done.
    - rewrite Z.shiftr_div_pow2, Z.quot_div_nonneg by (pose proof (pow_pos (e + 1074)); lia).
      replace 1074 with ((e + 1074) + - e) at 2 by lia.
      rewrite (Z.pow_add_r 2 (e + 1074)) by lia.
      rewrite (Z.mul_comm (2 ^ (e + 1074))), Z.div_mul_cancel_r; [done| |];
        [pose proof (pow_pos (- e))|pose proof (pow_pos (e + 1074))]; lia. }
  rewrite Hq. destruct s; [|done]. cbn [fval cond_Zopp]. by rewrite Z.quot_opp_l by lia.
Qed.

Lemma f_min_fval x y : fin x → fin y →
  fin (f_min x y) ∧ fval (f_min x y) = Z.min (fval x) (fval y).
Proof.
  intros Hx Hy.
  assert (fin (if f_lt x y then x else y)
    ∧ fval (if f_lt x y then x else y) = Z.min (fval x) (fval y)) as Hg.
  { destruct (f_lt x y) eqn:Hlt; [apply f_lt_fval in Hlt|apply f_lt_fval_false in Hlt]; try done;
      (split; [done|lia]). }
  destruct x as [[]|?| |sx m e]; try done; by destruct y as [[]|?| |sy m' e'].
Qed.

Lemma f_max_fval x y : fin x → fin y →
  fin (f_max x y) ∧ fval (f_max x y) = Z.max (fval x) (fval y).
Proof.
  intros Hx Hy.
  assert (fin (if f_gt x y then x else y)
    ∧ fval (if f_gt x y then x else y) = Z.max (fval x) (fval y)) as Hg.
  { unfold f_gt. fold (f_lt y x).
    destruct (f_lt y x) eqn:Hlt; [apply f_lt_fval in Hlt|apply f_lt_fval_false in Hlt]; try done;
      (split; [done|lia]). }
  destruct x as [[]|?| |sx m e]; try done; by destruct y as [[]|?| |sy m' e'].
Qed.

Lemma rep_int z : exact_int z → rep (z * 2 ^ 1074).
Proof. intros Hz. exists z, 1074. by split_and!. Qed.

(** [d.Seconds()] of a duration is at most its whole seconds plus one. *)
Lemma dur_seconds_bounds d : 0 ≤ d < 9007199254740992 →
  let x := dur_seconds d in
  fin x ∧ Z.quot d 1000000000 * 2 ^ 1074 ≤ fval x ≤ (Z.quot d 1000000000 + 1) * 2 ^ 1074.
Proof.
  intros Hd x. subst x. unfold dur_seconds.
  rewrite Z.rem_mod_nonneg, Z.quot_div_nonneg by lia.
  pose proof (Z.mod_pos_bound d 1000000000 ltac:(lia)) as Hr.
  assert (0 ≤ d / 1000000000 < 9007200) as Hs
    by (split; [apply Z.div_pos|apply Z.div_lt_upper_bound]; lia).
  destruct (f_of_Z_fval (d / 1000000000)) as [Hsf Hsv]; [unfold exact_int; lia|].
  destruct (f_of_Z_fval (d mod 1000000000)) as [Hrf Hrv]; [unfold exact_int; lia|].
  destruct (f_of_Z_fval 1000000000) as [Hgf Hgv]; [unfold exact_int; lia|].
  pose proof (pow_pos 1074 ltac:(done)) as Hp.
  destruct (f_div_bounds (f_of_Z (d mod 1000000000)) (f_of_Z 1000000000) 0 (1 * 2 ^ 1074))
    as [Hqf Hqv]; [done|done|clear Hgv; hide_pow 1074; nia|hide_pow 1074; nia|apply rep_0|by apply rep_int| |].
  - rewrite Hrv, Hgv. clear Hrv Hgv Hsv. hide_pow 1074. nia.
  - apply f_add_bounds; [done|done|apply rep_int; clear - Hs; unfold exact_int; lia|
      apply rep_int; clear - Hs; unfold exact_int; lia|]. rewrite Hsv. hide_pow 1074. lia.
Qed.
