(* ===== verification/Maps.v ===== *)
(** * Go maps: iteration order, sums over a map, sorting

    Ranging over a Go map visits every key once, in an unspecified order.
    Every model function that ranges over a map takes that order as an
    argument; theorems quantify over all orders satisfying [iter_order].
    [sort.Slice] is modelled by insertion of the elements in the given
    order: as the order of the input is arbitrary, this covers every result
    an unstable sort can produce. *)
From Stdlib Require Import ZArith Lia SpecFloat.
From stdpp Require Import numbers prelude gmap sorting.
From S2P Require Import Prelude GoFloat.
Open Scope Z_scope.

Section iteration.
Context {K : Type} `{Countable K} {V : Type}.
Implicit Types (m : gmap K V) (o : list K).

(** [o] is a possible iteration order of [m]. *)
Definition iter_order m o : Prop :=
  NoDup o ∧ ∀ k, k ∈ o ↔ is_Some (m !! k).

Lemma iter_order_alt m o : iter_order m o ↔
  NoDup o ∧ Forall (λ k, is_Some (m !! k)) o ∧ Forall (λ k, k ∈ o) (map_to_list m).*1.
Proof.
  unfold iter_order. rewrite !Forall_forall. split.
  - intros [Hn Ho]. repeat split; [done|by intros k ?%Ho|].
    intros k [[k' v] [-> Hv]]%list_elem_of_fmap. apply Ho. simpl.
    apply elem_of_map_to_list in Hv. by exists v.
  - intros (Hn & Ha & Hb). split; [done|]. intros k. split; [apply Ha|].
    intros [v Hv]. apply Hb, list_elem_of_fmap. exists (k, v).
    by rewrite elem_of_map_to_list.
Qed.

(** Decision procedure, for evaluation on concrete maps. *)
Definition memb (k : K) (l : list K) : bool := existsb (λ j, bool_decide (k = j)) l.
Fixpoint nodupb (l : list K) : bool :=
  match l with [] => true | k :: l => negb (memb k l) && nodupb l end.
Definition iter_orderb m o : bool :=
  nodupb o && forallb (λ k, bool_decide (is_Some (m !! k))) o
  && forallb (λ k, memb k o) (map_to_list m).*1.

Lemma memb_spec k l : memb k l = true ↔ k ∈ l.
Proof.
  unfold memb. rewrite existsb_exists. split.
  - intros (j & Hj & ->%bool_decide_eq_true). by apply list_elem_of_In.
  - intros Hk. exists k. rewrite bool_decide_eq_true. split; [by apply list_elem_of_In|done].
Qed.

Lemma nodupb_true l : nodupb l = true → NoDup l.
Proof.
  induction l as [|k l IH]; simpl; [by constructor|].
  rewrite andb_true_iff, negb_true_iff, <- not_true_iff_false, memb_spec.
  intros [? ?]. constructor; auto.
Qed.

Lemma iter_orderb_true m o : iter_orderb m o = true → iter_order m o.
Proof.
  unfold iter_orderb. rewrite !andb_true_iff, !forallb_forall. intros [[Hn Ha] Hb].
  apply iter_order_alt. rewrite !Forall_forall. split_and!.
  - by apply nodupb_true.
  - intros k Hk. eapply bool_decide_eq_true, Ha. by apply list_elem_of_In.
  - intros k Hk. eapply memb_spec, Hb. by apply list_elem_of_In.
Qed.

Lemma iter_order_default m : iter_order m (map_to_list m).*1.
Proof.
  split; [apply NoDup_fst_map_to_list|]. intros k. rewrite list_elem_of_fmap. split.
  - intros [[k' v] [-> Hv]]. apply elem_of_map_to_list in Hv. by exists v.
  - intros [v Hv]. exists (k, v). by rewrite elem_of_map_to_list.
Qed.

Lemma iter_order_perm m o o' : iter_order m o → iter_order m o' → o ≡ₚ o'.
Proof.
  intros [Hn Ho] [Hn' Ho']. apply NoDup_Permutation; [done..|].
  intros k. by rewrite Ho, Ho'.
Qed.

(** The values visited in order [o]. *)
Definition visit m o : list V := omap (λ k, m !! k) o.

Lemma visit_perm m o o' : o ≡ₚ o' → visit m o ≡ₚ visit m o'.
Proof. intros Hp. unfold visit. by rewrite Hp. Qed.

Lemma visit_default m : visit m (map_to_list m).*1 = (map_to_list m).*2.
Proof.
  unfold visit.
  assert (Hin : ∀ kv, kv ∈ map_to_list m → m !! kv.1 = Some kv.2).
  { intros [k v] Hv. by apply elem_of_map_to_list in Hv. }
  induction (map_to_list m) as [|[k v] l IH]; [done|]. simpl.
  pose proof (Hin (k, v) (list_elem_of_here _ _)) as Hk. simpl in Hk. rewrite Hk.
  f_equal. apply IH. intros kv ?. apply Hin. by right.
Qed.

(** Sum of a quantity over the values of a map. *)
Definition msum (f : V → Z) m : Z := zsum (f <$> (map_to_list m).*2).

Lemma msum_order f m o : iter_order m o → zsum (f <$> visit m o) = msum f m.
Proof.
  intros Ho. unfold msum. rewrite <- visit_default. apply zsum_perm.
  by rewrite (visit_perm m _ _ (iter_order_perm _ _ _ Ho (iter_order_default m))).
Qed.

Lemma msum_empty f : msum f ∅ = 0.
Proof. unfold msum. by rewrite map_to_list_empty. Qed.

Lemma msum_insert_new f m k v : m !! k = None → msum f (<[k:=v]> m) = f v + msum f m.
Proof.
  intros Hk. unfold msum. rewrite (map_to_list_insert m k v Hk). done.
Qed.

Lemma msum_insert f m k v w : m !! k = Some w →
  msum f (<[k:=v]> m) = msum f m - f w + f v.
Proof.
  intros Hk. rewrite <- (insert_delete_id m k w Hk) at 2.
  rewrite <- (insert_delete_eq m k v).
  rewrite !msum_insert_new by apply lookup_delete_eq. lia.
Qed.

Lemma msum_delete f m k w : m !! k = Some w → msum f (delete k m) = msum f m - f w.
Proof.
  intros Hk. rewrite <- (insert_delete_id m k w Hk) at 2.
  rewrite msum_insert_new by apply lookup_delete_eq. lia.
Qed.

Lemma visit_fmap_ext {B} (f : V → B) m m' l :
  (∀ k, k ∈ l → f <$> m !! k = f <$> m' !! k) →
  f <$> visit m l = f <$> visit m' l.
Proof.
  unfold visit. induction l as [|k l IH]; intros Hk; [done|]. simpl.
  pose proof (Hk k (list_elem_of_here _ _)) as Hkk.
  assert (f <$> omap (λ k, m !! k) l = f <$> omap (λ k, m' !! k) l) as Hl.
  { apply IH. intros. apply Hk. by right. }
  destruct (m !! k), (m' !! k); simplify_eq/=; try done. by rewrite Hkk, Hl.
Qed.

Lemma visit_cons m j l :
  visit m (j :: l) = match m !! j with Some v => v :: visit m l | None => visit m l end.
Proof. done. Qed.

Lemma visit_ext m m' l : (∀ k, k ∈ l → m !! k = m' !! k) → visit m l = visit m' l.
Proof.
  induction l as [|k l IH]; intros Hk; [done|]. rewrite !visit_cons.
  rewrite (Hk k), IH by set_solver. done.
Qed.

(** A loop that rewrites the value under each key it visits. *)
Lemma foldl_update_lookup (f : K → V → V) o : ∀ m k, NoDup o →
  foldl (λ m i, match m !! i with Some v => <[i := f i v]> m | None => m end) m o !! k
    = if decide (k ∈ o) then f k <$> m !! k else m !! k.
Proof.
  induction o as [|i o IH]; intros m k Hnd; cbn [foldl].
  { rewrite decide_False; [done|]. by intros ?%elem_of_nil. }
  apply NoDup_cons in Hnd as [Hi Hnd]. rewrite IH by done.
  destruct (decide (k = i)) as [->|Hne].
  - rewrite decide_False, decide_True by (done || by left).
    destruct (m !! i) as [v|] eqn:Hv; [by rewrite lookup_insert_eq|by rewrite Hv].
  - assert (match m !! i with Some v => <[i := f i v]> m | None => m end !! k = m !! k) as ->.
    { destruct (m !! i); [by rewrite lookup_insert_ne|done]. }
    destruct (decide (k ∈ o)), (decide (k ∈ i :: o)); set_solver.
Qed.

Lemma foldl_update_order (f : K → V → V) m o k : iter_order m o →
  foldl (λ m i, match m !! i with Some v => <[i := f i v]> m | None => m end) m o !! k
    = f k <$> m !! k.
Proof.
  intros [Hnd Ho]. rewrite foldl_update_lookup by done. case_decide as Hk; [done|].
  destruct (m !! k) eqn:Hm; [|done]. destruct Hk. apply Ho. by eexists.
Qed.

Lemma iter_order_dom m m' o : (∀ k, is_Some (m !! k) ↔ is_Some (m' !! k)) →
  iter_order m o → iter_order m' o.
Proof. intros Hd [Hn Ho]. split; [done|]. intros k. by rewrite Ho, Hd. Qed.

Lemma visit_sum_insert (f : V → Z) m l k v w : NoDup l → m !! k = Some w →
  zsum (f <$> visit (<[k:=v]> m) l)
  = zsum (f <$> visit m l) + (if decide (k ∈ l) then f v - f w else 0).
Proof.
  intros Hnd Hk. induction l as [|j l IH]; [done|].
  apply NoDup_cons in Hnd as [Hj Hnd]. rewrite !visit_cons.
  destruct (decide (j = k)) as [->|Hne].
  - rewrite lookup_insert_eq, Hk, !fmap_cons, !zsum_cons.
    rewrite (decide_True (P:=k ∈ k :: l)) by left.
    rewrite IH, decide_False by done. lia.
  - rewrite lookup_insert_ne by done. specialize (IH Hnd).
    assert ((if decide (k ∈ j :: l) then f v - f w else 0)
      = (if decide (k ∈ l) then f v - f w else 0)) as ->.
    { destruct (decide (k ∈ l)), (decide (k ∈ j :: l)); set_solver. }
    destruct (m !! j); rewrite ?fmap_cons, ?zsum_cons, IH; lia.
Qed.

Lemma msum_ext f m m' : (∀ k, f <$> m !! k = f <$> m' !! k) → msum f m = msum f m'.
Proof.
  intros Hk.
  assert (Ho : iter_order m' (map_to_list m).*1).
  { destruct (iter_order_default m) as [Hn Ho]. split; [done|]. intros k.
    rewrite Ho, <- !(fmap_is_Some f). by rewrite Hk. }
  rewrite <- (msum_order f m _ (iter_order_default m)), <- (msum_order f m' _ Ho).
  f_equal. by apply visit_fmap_ext.
Qed.

Lemma msum_fmap f g m : (∀ v, f (g v) = f v) → msum f (g <$> m) = msum f m.
Proof.
  intros Hfg. induction m as [|k v m Hk IH] using map_ind.
  - by rewrite fmap_empty.
  - rewrite fmap_insert, !msum_insert_new, IH, Hfg; [done|done|].
    by rewrite lookup_fmap, Hk.
Qed.

Lemma msum_fmap_le f g m : (∀ k v, m !! k = Some v → f (g v) ≤ f v) →
  msum f (g <$> m) ≤ msum f m.
Proof.
  induction m as [|k v m Hk IH] using map_ind; intros Hfg.
  - rewrite fmap_empty. lia.
  - rewrite fmap_insert, !msum_insert_new; [|done|by rewrite lookup_fmap, Hk].
    pose proof (Hfg k v (lookup_insert_eq _ _ _)).
    enough (msum f (g <$> m) ≤ msum f m) by lia. apply IH. intros j w Hj.
    apply (Hfg j). rewrite lookup_insert_ne; [done|]. intros ->. congruence.
Qed.

Lemma msum_nonneg f m : (∀ k v, m !! k = Some v → 0 ≤ f v) → 0 ≤ msum f m.
Proof.
  intros Hf. apply zsum_nonneg, Forall_fmap, Forall_fmap, Forall_forall.
  intros [k v] Hv. apply elem_of_map_to_list in Hv. simpl. eauto.
Qed.

Lemma visit_sum_le f m l : NoDup l → (∀ k v, m !! k = Some v → 0 ≤ f v) →
  zsum (f <$> visit m l) ≤ msum f m.
Proof.
  revert m. induction l as [|k l IH]; intros m Hnd Hf; [by apply msum_nonneg|].
  apply NoDup_cons in Hnd as [Hk Hnd]. rewrite visit_cons.
  destruct (m !! k) as [v|] eqn:Hv; [|by apply IH].
  rewrite fmap_cons, zsum_cons, (visit_ext m (delete k m)).
  - specialize (IH (delete k m) Hnd). rewrite (msum_delete _ _ _ _ Hv) in IH.
    enough (zsum (f <$> visit (delete k m) l) ≤ msum f m - f v) by lia.
    apply IH. intros j w [_ ?]%lookup_delete_Some. eauto.
  - intros j Hj. rewrite lookup_delete_ne; [done|set_solver].
Qed.

Lemma msum_lookup_le f m k v : (∀ k v, m !! k = Some v → 0 ≤ f v) →
  m !! k = Some v → f v ≤ msum f m.
Proof.
  intros Hf Hk. rewrite <- (insert_delete_id m k v Hk).
  rewrite msum_insert_new by apply lookup_delete_eq.
  enough (0 ≤ msum f (delete k m)) by lia.
  apply msum_nonneg. intros k' v' [_ ?]%lookup_delete_Some. eauto.
Qed.
End iteration.

(** ** sort.Slice *)
Section sorting.
Context {A : Type} (less : A → A → bool).

Fixpoint insert_by (x : A) (l : list A) : list A :=
  match l with
  | [] => [x]
  | y :: l' => if less x y then x :: l else y :: insert_by x l'
  end.

Fixpoint sort_acc (acc l : list A) : list A :=
  match l with
  | [] => acc
  | x :: l => sort_acc (insert_by x acc) l
  end.
(** Elements are inserted left to right, each after its equals. *)
Definition sort_slice (l : list A) : list A := sort_acc [] l.

Lemma insert_by_perm x l : insert_by x l ≡ₚ x :: l.
Proof.
  induction l as [|y l IH]; simpl; [done|]. case_match; [done|].
  rewrite IH. apply Permutation_swap.
Qed.

Lemma sort_acc_perm acc l : sort_acc acc l ≡ₚ acc ++ l.
Proof.
  revert acc. induction l as [|x l IH]; intros acc; simpl; [by rewrite app_nil_r|].
  rewrite IH, insert_by_perm. simpl. by rewrite Permutation_middle.
Qed.

Lemma sort_slice_perm l : sort_slice l ≡ₚ l.
Proof. apply sort_acc_perm. Qed.

(** Ordered output, provided [less] is a strict weak order on the
    elements: nothing later must come strictly before something earlier. *)
Definition ordered : list A → Prop :=
  StronglySorted (λ a b, less b a = false).

Context (P : A → Prop).
Context (asym : ∀ a b, P a → P b → less a b = true → less b a = false).
Context (ntrans : ∀ a b c, P a → P b → P c →
  less b a = false → less c b = false → less c a = false).

Lemma insert_by_ordered x l : P x → Forall P l →
  ordered l → ordered (insert_by x l).
Proof using asym ntrans.
  intros Hx HP. induction 1 as [|y l Hl IH Hy]; simpl; [repeat constructor|].
  apply Forall_cons in HP as [HPy HPl].
  destruct (less x y) eqn:Hxy.
  - constructor; [by constructor|]. constructor; [by apply asym|].
    apply Forall_forall. intros z Hz.
    rewrite Forall_forall in Hy, HPl. apply (ntrans x y z); eauto.
  - constructor; [by apply IH|]. rewrite insert_by_perm.
    by constructor.
Qed.

Lemma sort_slice_ordered l : Forall P l → ordered (sort_slice l).
Proof using asym ntrans.
  unfold sort_slice. intros Hl.
  assert (Hg : ∀ acc, Forall P acc → ordered acc → ordered (sort_acc acc l)).
  { induction l as [|x l IH]; intros acc Hacc Ho; [done|].
    apply Forall_cons in Hl as [Hx Hl]. simpl. apply IH; [done| |].
    - rewrite insert_by_perm. by constructor.
    - by apply insert_by_ordered. }
  apply Hg; [done|constructor].
Qed.
End sorting.

Lemma StronglySorted_mono {A} (R R' : A → A → Prop) l :
  (∀ a b, R a b → R' a b) → StronglySorted R l → StronglySorted R' l.
Proof.
  intros HR. induction 1 as [|a l _ IH Ha]; constructor; [done|].
  eapply Forall_impl; [done|]. auto.
Qed.

(** A prefix of an ordered list dominates the rest. *)
Lemma ordered_take_drop {A} (less : A → A → bool) n (l : list A) a b :
  ordered less l → a ∈ take n l → b ∈ drop n l → less b a = false.
Proof.
  intros Ho Ha Hb. rewrite <- (take_drop n l) in Ho.
  revert Ho Ha. generalize (take n l). intros k. induction k as [|x k IH]; simpl.
  - set_solver.
  - intros Ho Ha. apply StronglySorted_inv in Ho as [Ho Hx].
    apply elem_of_cons in Ha as [->|Ha]; [|by apply IH].
    rewrite Forall_forall in Hx. apply Hx. set_solver.
Qed.

(** Discharges [iter_order] on a concrete map. *)
Ltac solve_order := apply iter_orderb_true; vm_compute; reflexivity.
