(* ===== verification/Bytes.v ===== *)
(** * Bytes, 32-byte identifiers, encodings and SHA-256

    [[]byte] is [list byte] and [[32]byte] the record [bytes32], a byte list
    carrying its length.  The file models what the program uses of Go's
    [encoding/binary] (big- and little-endian uint64), [encoding/hex] and
    [crypto/sha256]; SHA-256 is the FIPS 180-4 function itself, executable,
    and checked on the standard test vectors. *)
From Stdlib Require Import ZArith Lia.
From Stdlib Require Import Strings.Byte.
From stdpp Require Import numbers prelude gmap strings countable.
From S2P Require Import Prelude.
Open Scope Z_scope.

#[export] Instance byte_eq_dec : EqDecision byte.
Proof. exact Byte.byte_eq_dec. Defined.

#[export] Program Instance byte_countable : Countable byte :=
  inj_countable Byte.to_N Byte.of_N _.
Next Obligation. intros []; done. Qed.

(** [byte(z)]: truncation to 8 bits. *)
Definition byte_of_Z (z : Z) : byte :=
  match Byte.of_N (Z.to_N (z mod 256)) with Some b => b | None => x00 end.
Definition Z_of_byte (b : byte) : Z := Z.of_N (Byte.to_N b).

Lemma Z_of_byte_of_Z z : Z_of_byte (byte_of_Z z) = z mod 256.
Proof.
  unfold byte_of_Z, Z_of_byte. pose proof (Z.mod_pos_bound z 256).
  destruct (Byte.of_N (Z.to_N (z mod 256))) eqn:Hb.
  - apply Byte.to_of_N in Hb. rewrite Hb. lia.
  - apply Byte.of_N_None_iff in Hb. lia.
Qed.

Lemma byte_of_Z_of_byte b : byte_of_Z (Z_of_byte b) = b.
Proof. by destruct b. Qed.

Lemma Z_of_byte_range b : 0 ≤ Z_of_byte b < 256.
Proof. by destruct b; vm_compute; split. Qed.

(** ** [32]byte *)

Definition len32 (l : list byte) : bool := (length l =? 32)%nat.

Record bytes32 := B32 { b32 : list byte; b32_len : Is_true (len32 b32) }.

Lemma bytes32_eq x y : b32 x = b32 y → x = y.
Proof. destruct x, y; simpl; intros ->. f_equal. apply proof_irrel. Qed.

#[export] Instance bytes32_eq_dec : EqDecision bytes32 := λ x y,
  match decide (b32 x = b32 y) with
  | left H => left (bytes32_eq x y H)
  | right H => right (λ E, H (f_equal b32 E))
  end.

Lemma b32_length x : length (b32 x) = 32%nat.
Proof. destruct x as [l p]. simpl. by apply Is_true_eq_true, Nat.eqb_eq in p. Qed.

Definition zero32 : bytes32 := B32 (replicate 32 x00) I.

(** [copy(out[:], data)] into a zeroed [[32]byte]: the first 32 bytes of
    [data], zero-padded. *)
Definition copy32 (data : list byte) : bytes32 :=
  let l := take 32 (data ++ replicate 32 x00) in
  match decide (Is_true (len32 l)) with
  | left p => B32 l p
  | right _ => zero32
  end.

Lemma copy32_spec data : b32 (copy32 data) = take 32 (data ++ replicate 32 x00).
Proof.
  unfold copy32. case_decide as H; [done|]. destruct H.
  apply Is_true_eq_left. unfold len32. rewrite length_take, length_app, length_replicate.
  apply Nat.eqb_eq. lia.
Qed.

Lemma copy32_id data : length data = 32%nat → b32 (copy32 data) = data.
Proof. intros H. rewrite copy32_spec, take_app_le by lia. apply take_ge. lia. Qed.

Lemma copy32_b32 x : copy32 (b32 x) = x.
Proof. apply bytes32_eq, copy32_id, b32_length. Qed.

#[export] Program Instance bytes32_countable : Countable bytes32 :=
  inj_countable b32 (λ l, Some (copy32 l)) _.
Next Obligation. intros x. simpl. by rewrite copy32_b32. Qed.

(** ** Endianness *)

Fixpoint le_bytes (n : nat) (z : Z) : list byte :=
  match n with
  | O => []
  | S n => byte_of_Z z :: le_bytes n (z / 256)
  end.
Definition be_bytes (n : nat) (z : Z) : list byte := rev (le_bytes n z).

(** [binary.LittleEndian.PutUint64] and [binary.BigEndian.PutUint64]. *)
Definition le64 : Z → list byte := le_bytes 8.
Definition be64 : Z → list byte := be_bytes 8.

Fixpoint le_value (l : list byte) : Z :=
  match l with
  | [] => 0
  | b :: l => Z_of_byte b + 256 * le_value l
  end.
Definition be_value (l : list byte) : Z := le_value (rev l).

Lemma length_le_bytes n z : length (le_bytes n z) = n.
Proof. revert z. induction n; intros; simpl; auto. Qed.

Lemma length_be_bytes n z : length (be_bytes n z) = n.
Proof. unfold be_bytes. by rewrite length_rev, length_le_bytes. Qed.

Lemma le_value_bytes n z : 0 ≤ z < 256 ^ Z.of_nat n → le_value (le_bytes n z) = z.
Proof.
  revert z. induction n as [|n IH]; intros z Hz; [simpl in *; lia|].
  rewrite Nat2Z.inj_succ, Z.pow_succ_r in Hz by lia.
  simpl. rewrite Z_of_byte_of_Z, IH.
  - pose proof (Z.div_mod z 256). lia.
  - split; [apply Z.div_pos; lia|]. apply Z.div_lt_upper_bound; lia.
Qed.

Lemma le64_inj a b : is_u64 a → is_u64 b → le64 a = le64 b → a = b.
Proof.
  intros Ha Hb H. unfold is_u64 in *.
  rewrite <- (le_value_bytes 8 a), <- (le_value_bytes 8 b) by (simpl; lia).
  unfold le64 in H. by rewrite H.
Qed.

Lemma be64_inj a b : is_u64 a → is_u64 b → be64 a = be64 b → a = b.
Proof.
  intros Ha Hb H. apply le64_inj; [done..|].
  unfold be64, be_bytes in H. apply (f_equal (@rev byte)) in H.
  by rewrite !rev_involutive in H.
Qed.

Lemma le_value_range l : 0 ≤ le_value l < 256 ^ Z.of_nat (length l).
Proof.
  induction l as [|b l IH]; [simpl; lia|]. simpl length.
  rewrite Nat2Z.inj_succ, Z.pow_succ_r by lia. simpl.
  pose proof (Z_of_byte_range b). lia.
Qed.

(** ** Hexadecimal *)

Definition hex_digit (n : Z) : byte :=
  byte_of_Z (if n <? 10 then 48 + n else 87 + n).
(** Value of a hex digit; [encoding/hex] accepts both cases. *)
Definition hex_val (b : byte) : option Z :=
  let c := Z_of_byte b in
  if (48 <=? c) && (c <=? 57) then Some (c - 48)
  else if (97 <=? c) && (c <=? 102) then Some (c - 87)
  else if (65 <=? c) && (c <=? 70) then Some (c - 55)
  else None.

(** [hex.EncodeToString] / [fmt.Sprintf("%x", b)]. *)
Fixpoint hex_encode (l : list byte) : list byte :=
  match l with
  | [] => []
  | b :: l => hex_digit (Z_of_byte b / 16) :: hex_digit (Z_of_byte b mod 16)
              :: hex_encode l
  end.
(** [hex.DecodeString]: fails on an odd length or a non-hex digit. *)
Fixpoint hex_decode (l : list byte) : option (list byte) :=
  match l with
  | [] => Some []
  | [_] => None
  | a :: b :: l =>
      match hex_val a, hex_val b, hex_decode l with
      | Some x, Some y, Some r => Some (byte_of_Z (16 * x + y) :: r)
      | _, _, _ => None
      end
  end.

Lemma hex_decode_encode l : hex_decode (hex_encode l) = Some l.
Proof.
  induction l as [|b l IH]; [done|]. simpl. rewrite IH. by destruct b.
Qed.

Lemma hex_encode_inj l k : hex_encode l = hex_encode k → l = k.
Proof.
  intros H. apply (f_equal hex_decode) in H. rewrite !hex_decode_encode in H.
  by simplify_eq.
Qed.

Lemma length_hex_encode l : length (hex_encode l) = (2 * length l)%nat.
Proof. induction l; simpl in *; lia. Qed.

(** Bytes for a positive number: for the concrete codecs of the examples,
    through stdpp's [Countable]. *)
Fixpoint bits (p : positive) : list byte :=
  match p with
  | xH => []
  | xO p => x00 :: bits p
  | xI p => x01 :: bits p
  end.
Fixpoint unbits (l : list byte) : positive :=
  match l with
  | [] => xH
  | x00 :: l => xO (unbits l)
  | _ :: l => xI (unbits l)
  end.
Lemma unbits_bits p : unbits (bits p) = p.
Proof. induction p; simpl; by rewrite ?IHp. Qed.
