(* ===== verification/Sha256.v ===== *)
(** * SHA-256

    The function [crypto/sha256.Sum256] of Go's standard library (FIPS
    180-4), on 32-bit words as [Z]; executable by [vm_compute] and checked
    against the standard test vectors. *)
From Stdlib Require Import ZArith Lia.
From Stdlib Require Import Strings.Byte Strings.String.
From stdpp Require Import numbers prelude.
From S2P Require Import Prelude Bytes.
Open Scope Z_scope.

Definition w32 (z : Z) : Z := Z.land z 4294967295.
Definition rotr (n x : Z) : Z :=
  Z.lor (Z.shiftr x n) (w32 (Z.shiftl x (32 - n))).

Definition big_sigma0 x := Z.lxor (rotr 2 x) (Z.lxor (rotr 13 x) (rotr 22 x)).
Definition big_sigma1 x := Z.lxor (rotr 6 x) (Z.lxor (rotr 11 x) (rotr 25 x)).
Definition small_sigma0 x := Z.lxor (rotr 7 x) (Z.lxor (rotr 18 x) (Z.shiftr x 3)).
Definition small_sigma1 x := Z.lxor (rotr 17 x) (Z.lxor (rotr 19 x) (Z.shiftr x 10)).
Definition sha_ch x y z := Z.lxor (Z.land x y) (Z.land (4294967295 - x) z).
Definition sha_maj x y z :=
  Z.lxor (Z.land x y) (Z.lxor (Z.land x z) (Z.land y z)).

(** The constants are, per FIPS 180-4, the first 32 bits of the fractional
    parts of the cube roots of the first 64 primes, and of the square roots
    of the first 8. *)
Definition is_prime (n : nat) : bool :=
  (2 <=? n)%nat && forallb (λ d, negb (n mod d =? 0)%nat) (seq 2 (n - 2)).
Definition sha_primes : list Z :=
  Eval vm_compute in Z.of_nat <$> List.filter is_prime (seq 0 312).

(** The largest [r] below [2 ^ bits + acc] with [r ^ 3 <= n], bit by bit. *)
Fixpoint cube_root (bits : nat) (acc n : Z) : Z :=
  match bits with
  | O => acc
  | S b =>
      let r := acc + 2 ^ Z.of_nat b in
      cube_root b (if r * r * r <=? n then r else acc) n
  end.

Definition sha_k : list Z :=
  Eval vm_compute in (λ p, w32 (cube_root 40 0 (p * 2 ^ 96))) <$> sha_primes.
Definition sha_init : list Z :=
  Eval vm_compute in (λ p, w32 (Z.sqrt (p * 2 ^ 64))) <$> take 8 sha_primes.

(** One round: the window holds the next 16 words of the schedule. *)
Definition sha_round (st : list Z * list Z) (k : Z) : list Z * list Z :=
  match st with
  | ([a; b; c; d; e; f; g; h], w0 :: ws) =>
      let t1 := w32 (h + big_sigma1 e + sha_ch e f g + k + w0) in
      let t2 := w32 (big_sigma0 a + sha_maj a b c) in
      let w16 := w32 (small_sigma1 (nth 13 ws 0) + nth 8 ws 0
                      + small_sigma0 (nth 0 ws 0) + w0) in
      ([w32 (t1 + t2); a; b; c; w32 (d + t1); e; f; g], ws ++ [w16])
  | _ => st
  end.

Fixpoint be_words (l : list byte) : list Z :=
  match l with
  | a :: b :: c :: d :: l =>
      (Z_of_byte a * 16777216 + Z_of_byte b * 65536
       + Z_of_byte c * 256 + Z_of_byte d) :: be_words l
  | _ => []
  end.

Definition sha_block (h : list Z) (words : list Z) : list Z :=
  let '(v, _) := foldl sha_round (h, words) sha_k in
  zip_with (λ x y, w32 (x + y)) h v.

(** Padding: 0x80, zeros up to 56 mod 64, the bit length on 8 bytes. *)
Definition sha_pad (m : list byte) : list byte :=
  let n := Z.of_nat (length m) in
  m ++ [x80] ++ replicate (Z.to_nat ((55 - n) mod 64)) x00 ++ be64 (8 * n).

Fixpoint sha_blocks (fuel : nat) (h words : list Z) : list Z :=
  match fuel with
  | O => h
  | S fuel => sha_blocks fuel (sha_block h (take 16 words)) (drop 16 words)
  end.

Definition sha256_words (m : list byte) : list Z :=
  let ws := be_words (sha_pad m) in
  sha_blocks (length ws / 16) sha_init ws.

(** [sha256.Sum256(m)]. *)
Definition sha256 (m : list byte) : bytes32 :=
  copy32 (concat (be_bytes 4 <$> sha256_words m)).

Definition bytes_of_Zs (l : list Z) : list byte := byte_of_Z <$> l.

Example sha256_empty :
  hex_encode (b32 (sha256 [])) =
  list_byte_of_string "e3b0c44298fc1c149afbf4c8996fb92427ae41e4649b934ca495991b7852b855".
Proof. vm_compute. reflexivity. Qed.

Example sha256_abc :
  hex_encode (b32 (sha256 (list_byte_of_string "abc"))) =
  list_byte_of_string "ba7816bf8f01cfea414140de5dae2223b00361a396177a9cb410ff61f20015ad".
Proof. vm_compute. reflexivity. Qed.

(** Two blocks. *)
Example sha256_long :
  hex_encode (b32 (sha256 (list_byte_of_string
    "abcdbcdecdefdefgefghfghighijhijkijkljklmklmnlmnomnopnopq"))) =
  list_byte_of_string "248d6a61d20638b8e5c026930c3e6039a33ce45964ff2167f6ecedd419db06c1".
Proof. vm_compute. reflexivity. Qed.

#[global] Arguments sha256 : simpl never.
#[global] Opaque sha256.
