(* ===== verification/Sha512.v ===== *)
(** * SHA-512

    The function [crypto/sha512.Sum512] of Go's standard library (FIPS
    180-4), on 64-bit words as [Z], and [common.SecureHashData], which prints
    it; checked against the standard test vectors. *)
From Stdlib Require Import ZArith Lia.
From Stdlib Require Import Strings.Byte Strings.String.
From stdpp Require Import numbers prelude.
From S2P Require Import Prelude Bytes Sha256.
Open Scope Z_scope.

Definition word : Z := Eval vm_compute in Z.ones 64.
Definition w64 (z : Z) : Z := Z.land z word.
Definition rotr64 (n x : Z) : Z := Z.lor (Z.shiftr x n) (w64 (Z.shiftl x (64 - n))).
Definition rot3 (i j k x : Z) : Z := Z.lxor (rotr64 i x) (Z.lxor (rotr64 j x) (rotr64 k x)).
Definition schedule0 (x : Z) : Z := Z.lxor (rotr64 1 x) (Z.lxor (rotr64 8 x) (Z.shiftr x 7)).
Definition schedule1 (x : Z) : Z := Z.lxor (rotr64 19 x) (Z.lxor (rotr64 61 x) (Z.shiftr x 6)).
Definition choose (x y z : Z) : Z := Z.lxor (Z.land x y) (Z.land (word - x) z).

(** The first 64 bits of the fractional parts of the cube roots of the first
    80 primes, and of the square roots of the first 8. *)
Definition primes80 : list Z :=
  Eval vm_compute in Z.of_nat <$> List.filter is_prime (seq 0 410).
Definition sha512_k : list Z :=
  Eval vm_compute in (λ p, w64 (cube_root 72 0 (p * 2 ^ 192))) <$> primes80.
Definition sha512_init : list Z :=
  Eval vm_compute in (λ p, w64 (Z.sqrt (p * 2 ^ 128))) <$> take 8 primes80.

(** The window holds the next 16 words of the schedule. *)
Definition sha512_round (st : list Z * list Z) (k : Z) : list Z * list Z :=
  match st with
  | ([a; b; c; d; e; f; g; h], w0 :: ws) =>
      let t1 := h + rot3 14 18 41 e + choose e f g + k + w0 in
      let t2 := rot3 28 34 39 a + sha_maj a b c in
      let w16 := schedule1 (nth 13 ws 0) + nth 8 ws 0 + schedule0 (nth 0 ws 0) + w0 in
      ([w64 (t1 + t2); a; b; c; w64 (d + t1); e; f; g], ws ++ [w64 w16])
  | _ => st
  end.
Definition sha512_block (h words : list Z) : list Z :=
  zip_with (λ x y, w64 (x + y)) h (foldl sha512_round (h, words) sha512_k).1.

(** Words of eight bytes, most significant first. *)
Fixpoint words64 (fuel : nat) (l : list byte) : list Z :=
  match fuel with
  | O => []
  | S fuel => foldl (λ z b, 256 * z + Z_of_byte b) 0 (take 8 l) :: words64 fuel (drop 8 l)
  end.

(** Padding: 0x80, zeros up to 112 mod 128, the bit length on 16 bytes. *)
Definition sha512_pad (m : list byte) : list byte :=
  let n := Z.of_nat (length m) in
  m ++ [x80] ++ replicate (Z.to_nat ((111 - n) mod 128)) x00 ++ be_bytes 16 (8 * n).

Fixpoint sha512_blocks (fuel : nat) (h words : list Z) : list Z :=
  match fuel with
  | O => h
  | S fuel => sha512_blocks fuel (sha512_block h (take 16 words)) (drop 16 words)
  end.

(** [sha512.Sum512(m)]. *)
Definition sha512 (m : list byte) : list byte :=
  let p := sha512_pad m in
  let ws := words64 (length p / 8) p in
  concat (be_bytes 8 <$> sha512_blocks (length ws / 16) sha512_init ws).

(** The digest in hexadecimal. *)
Definition SecureHashData (data : list byte) : list byte := hex_encode (sha512 data).

Example sha512_empty :
  SecureHashData (list_byte_of_string
    "") =
  list_byte_of_string
    "cf83e1357eefb8bdf1542850d66d8007d620e4050b5715dc83f4a921d36ce9ce47d0d13c5d85f2b0ff8318d2877eec2f63b931bd47417a81a538327af927da3e".
Proof. vm_compute. reflexivity. Qed.

Example sha512_abc :
  SecureHashData (list_byte_of_string
    "abc") =
  list_byte_of_string
    "ddaf35a193617abacc417349ae20413112e6fa4e89a97ea20a9eeee64b55d39a2192992a274fc1a836ba3c23a3feebbd454d4423643ce80e2a9ac94fa54ca49f".
Proof. vm_compute. reflexivity. Qed.

(** Two blocks. *)
Example sha512_long :
  SecureHashData (list_byte_of_string
    "abcdefghbcdefghicdefghijdefghijkefghijklfghijklmghijklmnhijklmnoijklmnopjklmnopqklmnopqrlmnopqrsmnopqrstnopqrstu") =
  list_byte_of_string
    "8e959b75dae313da8cf4f72814fc143f8f7779c6eb9f7fa17299aeadb6889018501d289e4900f7e4331b99dec4b5433ac7d329eeb6dd26545e96e55b874be909".
Proof. vm_compute. reflexivity. Qed.

(** Every digest has 64 bytes, whatever the length of the data. *)
Lemma sha512_round_length st k : length st.1 = 8%nat → length (sha512_round st k).1 = 8%nat.
Proof.
  destruct st as [h [|w ws]]; [by destruct h as [|? [|? [|? [|? [|? [|? [|? [|? [|? ?]]]]]]]]]|].
  by destruct h as [|? [|? [|? [|? [|? [|? [|? [|? [|? ?]]]]]]]]].
Qed.

Lemma sha512_block_length h words : length h = 8%nat → length (sha512_block h words) = 8%nat.
Proof.
  intros Hh. unfold sha512_block. rewrite length_zip_with.
  assert (∀ ks st, length st.1 = 8%nat → length (foldl sha512_round st ks).1 = 8%nat) as Hks.
  { intros ks. induction ks as [|k ks IH]; intros st Hst; [done|]. by apply IH, sha512_round_length. }
  rewrite Hks by done. by rewrite Hh.
Qed.

Lemma sha512_length m : length (sha512 m) = 64%nat.
Proof.
  unfold sha512. cbv zeta. set (fuel := (length _ / 16)%nat). clearbody fuel.
  set (ws := words64 _ _). clearbody ws.
  assert (∀ h, length h = 8%nat → ∀ ws, length (sha512_blocks fuel h ws) = 8%nat) as Hb.
  { induction fuel as [|fuel IH]; intros h Hh us; [done|]. by apply IH, sha512_block_length. }
  specialize (Hb sha512_init eq_refl ws).
  destruct (sha512_blocks fuel sha512_init ws) as [|a [|b [|c [|d [|e [|f [|g [|x [|y h]]]]]]]]]; done.
Qed.

Lemma SecureHashData_length data : length (SecureHashData data) = 128%nat.
Proof. unfold SecureHashData. by rewrite length_hex_encode, sha512_length. Qed.

#[global] Arguments sha512 : simpl never.
#[global] Opaque sha512.
