(* ===== verification/PoH.v ===== *)
(** * Proof of history: src/consensus/diamantepoh/diamantepoh.go

    A hash chain: [advanceState] mixes a counter into the state, [Record] and
    [BatchRecord] mix data.  The clock is an explicit argument of every
    operation that reads it; [VerifyProof] also takes what its [select] and
    [time.Since] observe at each iteration.  Logging is left out. *)
From Stdlib Require Import ZArith Lia Strings.Byte Strings.String.
From stdpp Require Import numbers prelude strings.
From S2P Require Import Prelude GoFloat Bytes Sha256.
Open Scope Z_scope.

Definition MaxIterations : Z := 1000000.
Definition MaxBatchSize : Z := 500.
Definition VerificationTime : Z := 200000000.

Record PoH := mkPoH {
  state : bytes32; count : Z; lastTick : Z; tickDelay : Z }.

Definition set_chain (s : bytes32) (c : Z) (p : PoH) : PoH :=
  mkPoH s c (lastTick p) (tickDelay p).
Definition set_lastTick (t : Z) (p : PoH) : PoH :=
  mkPoH (state p) (count p) t (tickDelay p).

Inductive PoHError :=
| ErrDelayNotPositive
| ErrTargetBehind (target current : Z)
| ErrTooManyIterations
| ErrVerificationCanceled
| ErrVerificationTimeout (iterations : Z)
| ErrTargetInPast
| ErrRestoreFuture (current target : Z)
| ErrRecoverFuture (current target : Z).

#[export] Instance PoHError_eq_dec : EqDecision PoHError.
Proof. solve_decision. Defined.

Definition default_seed : bytes32 := sha256 (list_byte_of_string "Diamante Default Seed").

Definition NewPoH (now : Z) (initialState : bytes32) (delay : Z) : PoH :=
  let s := if decide (initialState = zero32) then default_seed else initialState in
  mkPoH s 0 now delay.

(** ** Advancing the chain *)

(** One iteration of the loop shared by [advanceState], [GenerateProof] and
    [VerifyProof], on the pair (state, count). *)
Definition chain_step (sc : bytes32 * Z) : bytes32 * Z :=
  let c := uadd sc.2 1 in
  (sha256 (b32 sc.1 ++ le64 c), c).

Definition chain (n : nat) (sc : bytes32 * Z) : bytes32 * Z := Nat.iter n chain_step sc.

Definition advanceState (iterations : Z) (p : PoH) : PoH :=
  let '(s, c) := chain (Z.to_nat iterations) (state p, count p) in set_chain s c p.

Definition AdvanceState := advanceState.

Definition tickLocked (now : Z) (p : PoH) : PoH :=
  if time_sub now (lastTick p) <? tickDelay p then p
  else set_lastTick now (advanceState 1 p).

Definition Tick := tickLocked.

Definition GetTickDelay (p : PoH) : Z := tickDelay p.
Definition SetTickDelay (delay : Z) (p : PoH) : PoH * result PoHError () :=
  if delay <=? 0 then (p, Err ErrDelayNotPositive)
  else (mkPoH (state p) (count p) (lastTick p) delay, Ok ()).

(** ** Recording data *)

Definition Record_ (now : Z) (data : list byte) (p : PoH) : PoH * bytes32 :=
  let p1 := tickLocked now p in
  let proof := sha256 (b32 (state p1) ++ data) in
  (set_chain proof (uadd (count p1) 1) p1, proof).

(** The loop of [BatchRecord]; [nows] is the clock at each iteration. *)
Fixpoint record_loop (nows : list Z) (l : list (list byte)) (p : PoH) :
    PoH * list bytes32 :=
  match l with
  | [] => (p, [])
  | data :: l =>
      let p1 := tickLocked (hd 0 nows) p in
      let hash := sha256 (b32 (state p1) ++ data) in
      let p2 := set_chain hash (uadd (count p1) 1) p1 in
      let '(p3, hs) := record_loop (tl nows) l p2 in
      (p3, hash :: hs)
  end.

Definition BatchRecord (nows : list Z) (dataList : list (list byte)) (p : PoH) :
    PoH * list bytes32 :=
  let l := if MaxBatchSize <? Z.of_nat (length dataList)
           then take (Z.to_nat MaxBatchSize) dataList else dataList in
  record_loop nows l p.

(** ** Verification *)

Definition Verify (prevState : bytes32) (data : list byte) (proof : bytes32) (cnt : Z)
    (p : PoH) : bool :=
  if 1048576 <? Z.of_nat (length data) then false
  else if uadd (count p) 10000 <? cnt then false
  else if decide (prevState = zero32) then false
  else if (match data with [] => true | _ => false end) && negb (bool_decide (proof = zero32))
  then false
  else bool_decide (sha256 (b32 prevState ++ data) = proof).

Definition GetState (p : PoH) : bytes32 := state p.
Definition GetCount (p : PoH) : Z := count p.
Definition GetSnapshot (p : PoH) : bytes32 * Z := (state p, count p).

Definition GenerateProof (data : list byte) (iterations : Z) (p : PoH) :
    PoH * result PoHError (bytes32 * bytes32 * Z) :=
  if MaxIterations <? iterations then (p, Err ErrTooManyIterations)
  else
    let p' := advanceState iterations p in
    (p', Ok (sha256 (b32 (state p') ++ data), state p, count p)).

(** The loop of [VerifyProof] from iteration [i], with [todo] left: whether
    the context is done before the iteration, and the time elapsed after
    it. *)
Fixpoint verify_loop (done_ : Z → bool) (elapsed : Z → Z) (todo : nat) (i : Z)
    (sc : bytes32 * Z) : result PoHError (bytes32 * Z) :=
  match todo with
  | O => Ok sc
  | S todo =>
      if done_ i then Err ErrVerificationCanceled
      else
        let sc' := chain_step sc in
        if VerificationTime <? elapsed i then Err (ErrVerificationTimeout (i + 1))
        else verify_loop done_ elapsed todo (i + 1) sc'
  end.

Definition VerifyProof (done_ : Z → bool) (elapsed : Z → Z) (startState : bytes32)
    (data : list byte) (proof : bytes32) (startCount iterations : Z) :
    result PoHError bool :=
  if MaxIterations <? iterations then Err ErrTooManyIterations
  else
    match verify_loop done_ elapsed (Z.to_nat iterations) 0 (startState, startCount) with
    | Err e => Err e
    | Ok (s, _) => Ok (bool_decide (sha256 (b32 s ++ data) = proof))
    end.

Fixpoint VerifyHashRange (startState : bytes32) (startCount : Z) (hashes : list bytes32) :
    bool :=
  match hashes with
  | [] => true
  | h :: hashes =>
      let c := uadd startCount 1 in
      if decide (sha256 (b32 startState ++ le64 c) = h) then VerifyHashRange h c hashes
      else false
  end.

(** ** Synchronising, estimating, restoring *)

Definition Synchronize (now : Z) (targetState : bytes32) (targetCount : Z) (p : PoH) :
    PoH * result PoHError () :=
  if targetCount <? count p then (p, Err (ErrTargetBehind targetCount (count p)))
  else (set_lastTick now (set_chain targetState targetCount p), Ok ()).

Definition EstimateTimeToCount (targetCount : Z) (p : PoH) : Z :=
  if targetCount <=? count p then 0
  else i64 (i64 (usub targetCount (count p)) * tickDelay p).

Definition EstimateTime (targetCount : Z) (p : PoH) : result PoHError Z :=
  if targetCount <? count p then Err ErrTargetInPast
  else Ok (EstimateTimeToCount targetCount p).

Definition RestoreSnapshot (now : Z) (s : bytes32) (c : Z) (p : PoH) :
    PoH * result PoHError () :=
  if count p <? c then (p, Err (ErrRestoreFuture (count p) c))
  else (set_lastTick now (set_chain s c p), Ok ()).

Definition RecoverFromError (now : Z) (lastKnownState : bytes32) (lastKnownCount : Z)
    (p : PoH) : PoH * result PoHError () :=
  if count p <? lastKnownCount then (p, Err (ErrRecoverFuture (count p) lastKnownCount))
  else (set_lastTick now (set_chain lastKnownState lastKnownCount p), Ok ()).

(** * The chain *)

Lemma chain_add n m sc : chain (n + m) sc = chain m (chain n sc).
Proof. unfold chain. rewrite Nat.add_comm. apply Nat.iter_add. Qed.

Lemma chain_succ n sc : chain (S n) sc = chain n (chain_step sc).
Proof. apply Nat.iter_succ_r. Qed.

Lemma chain_count n sc : is_u64 sc.2 → (chain n sc).2 = u64 (sc.2 + Z.of_nat n).
Proof.
  revert sc. induction n as [|n IH]; intros sc Hc.
  - rewrite Z.add_0_r. symmetry. by apply u64_small.
  - rewrite chain_succ, IH by apply u64_range. simpl. unfold uadd.
    rewrite u64_add_l. f_equal. lia.
Qed.

(** Without interruption the verifier recomputes the chain. *)
Lemma verify_loop_chain done_ elapsed n : ∀ i sc,
  (∀ j, i ≤ j < i + Z.of_nat n → done_ j = false ∧ elapsed j ≤ VerificationTime) →
  verify_loop done_ elapsed n i sc = Ok (chain n sc).
Proof.
  induction n as [|n IH]; intros i sc Ht; [done|]. rewrite chain_succ. simpl.
  destruct (Ht i) as [-> Hel]; [lia|].
  rewrite (proj2 (Z.ltb_ge _ _) Hel). apply IH. intros j Hj. apply Ht. lia.
Qed.

(** Interrupted or not, an answer is always about the chain. *)
Lemma verify_loop_sound done_ elapsed n : ∀ i sc sc',
  verify_loop done_ elapsed n i sc = Ok sc' → sc' = chain n sc.
Proof.
  induction n as [|n IH]; intros i sc sc'; simpl; [naive_solver|].
  do 2 (case_match; [done|]). intros ->%IH. by rewrite <- chain_succ.
Qed.

Lemma advanceState_chain iterations p :
  (state (advanceState iterations p), count (advanceState iterations p))
  = chain (Z.to_nat iterations) (state p, count p).
Proof. unfold advanceState. by destruct (chain _ _). Qed.

(** The states the chain goes through. *)
Fixpoint chain_states (n : nat) (sc : bytes32 * Z) : list bytes32 :=
  match n with
  | O => []
  | S n => (chain_step sc).1 :: chain_states n (chain_step sc)
  end.

(** One call of [Record], collecting the proofs. *)
Definition record_one (acc : PoH * list bytes32) (nd : Z * list byte) : PoH * list bytes32 :=
  ((Record_ nd.1 nd.2 acc.1).1, acc.2 ++ [(Record_ nd.1 nd.2 acc.1).2]).

Lemma record_one_acc k : ∀ hs p, foldl record_one (p, hs) k =
  ((foldl record_one (p, []) k).1, hs ++ (foldl record_one (p, []) k).2).
Proof.
  induction k as [|x k IH]; intros hs p; cbn [foldl]; [by rewrite app_nil_r|].
  assert (∀ hs, record_one (p, hs) x
    = ((Record_ x.1 x.2 p).1, hs ++ [(Record_ x.1 x.2 p).2])) as Hone by done.
  rewrite !Hone, (IH (hs ++ _)), (IH ([] ++ _)). simpl. by rewrite <- (assoc_L app).
Qed.

Lemma record_loop_fold l : ∀ nows p, length nows = length l →
  record_loop nows l p = foldl record_one (p, []) (zip nows l).
Proof.
  induction l as [|d l IH]; intros [|t nows] p Hlen; simplify_eq; [done|].
  cbn [zip zip_with foldl].
  change (record_one (p, []) (t, d)) with ((Record_ t d p).1, [(Record_ t d p).2]).
  rewrite record_one_acc, <- IH by done. cbn [record_loop hd tl].
  unfold Record_. cbn [fst snd]. by destruct (record_loop _ _ _).
Qed.

Lemma hash_range_states hs : ∀ s c,
  VerifyHashRange s c hs = true ↔ hs = chain_states (length hs) (s, c).
Proof.
  induction hs as [|h hs IH]; intros s c; [done|]. simpl. case_decide as Hh.
  - rewrite IH. unfold chain_step. cbn [fst snd]. rewrite Hh. split; congruence.
  - split; [done|]. intros Heq. injection Heq as Heq _. by destruct Hh.
Qed.

(** * Properties *)

(** proof round trip.  A proof generated with at most [MaxIterations]
    iterations is accepted by [VerifyProof] for the same data, start state,
    start count and number of iterations, provided the verification is
    neither cancelled nor out of time; generation moves the generator to the
    end of the verified chain segment and its counter by [iterations] modulo
    2^64. *)
Theorem GenerateProof_verifies data iterations p done_ elapsed :
  is_u64 (count p) → 0 ≤ iterations ≤ MaxIterations →
  (∀ j, 0 ≤ j < iterations → done_ j = false ∧ elapsed j ≤ VerificationTime) →
  ∃ p' proof, GenerateProof data iterations p = (p', Ok (proof, state p, count p)) ∧
    VerifyProof done_ elapsed (state p) data proof (count p) iterations = Ok true ∧
    chain (Z.to_nat iterations) (state p, count p) = (state p', count p') ∧
    count p' = u64 (count p + iterations).
Proof.
  intros Hc [Hi0 Hi] Ht. pose proof (advanceState_chain iterations p) as Hch.
  unfold GenerateProof, VerifyProof. rewrite (proj2 (Z.ltb_ge _ _) Hi).
  do 2 eexists. split; [done|]. split_and!; [| done |].
  - rewrite verify_loop_chain, <- Hch by (intros; apply Ht; lia).
    by rewrite bool_decide_true.
  - pose proof (chain_count (Z.to_nat iterations) (state p, count p) Hc) as Hn.
    rewrite <- Hch in Hn. simpl in Hn. rewrite Hn. f_equal. lia.
Qed.

(** soundness of verification, whatever is cancelled or timed out: a
    positive answer means the proof is the hash of the data under the state
    reached by exactly [iterations] steps of the chain, a negative one that
    it is not; too many iterations are refused before any work. *)
Theorem VerifyProof_sound done_ elapsed s data proof c iterations b :
  VerifyProof done_ elapsed s data proof c iterations = Ok b →
  iterations ≤ MaxIterations ∧
  b = bool_decide (proof = sha256 (b32 (chain (Z.to_nat iterations) (s, c)).1 ++ data)).
Proof.
  unfold VerifyProof. case_match eqn:Hm; [done|]. apply Z.ltb_ge in Hm.
  destruct (verify_loop _ _ _ _ _) as [[s' c']|] eqn:Hl; [|done].
  apply verify_loop_sound in Hl. rewrite <- Hl. intros [= <-].
  split; [done|]. apply bool_decide_ext. simpl; split; congruence.
Qed.

(** [BatchRecord] is [Record] applied to the data one after the other,
    on the first [MaxBatchSize] items, for any clock readings. *)
Theorem BatchRecord_is_Record nows dataList p :
  let l := take (Z.to_nat MaxBatchSize) dataList in
  length nows = length l →
  BatchRecord nows dataList p = foldl record_one (p, []) (zip nows l).
Proof.
  intros l Hn. unfold BatchRecord. rewrite <- record_loop_fold by done.
  destruct (Z.ltb_spec MaxBatchSize (Z.of_nat (length dataList))) as [?|Hle]; [done|].
  unfold l. by rewrite take_ge by (unfold MaxBatchSize in *; lia).
Qed.

(** [VerifyHashRange] accepts exactly the states the chain goes through
    from the given state and count. *)
Theorem VerifyHashRange_iff s c hashes :
  VerifyHashRange s c hashes = true ↔ hashes = chain_states (length hashes) (s, c).
Proof. apply hash_range_states. Qed.

(** a proof returned by [Record] verifies, before the counter moves on,
    against the state the chain had once the pending tick was taken, unless
    the data is empty, larger than 1 MiB or that state is zero: [Verify]
    refuses every empty record except with a zero proof. *)
Theorem Record_Verify now data p : is_u64 (count p) →
  count p + 10002 < 18446744073709551616 →
  let p1 := tickLocked now p in
  let '(p2, proof) := Record_ now data p in
  Verify (state p1) data proof (count p2) p2 =
    (Z.of_nat (length data) <=? 1048576) && bool_decide (state p1 ≠ zero32)
    && (bool_decide (data ≠ []) || bool_decide (proof = zero32)).
Proof.
  intros Hc Hmax. simpl. unfold Record_. unfold Verify. simpl.
  set (c1 := count (tickLocked now p)).
  assert (0 ≤ c1 ≤ count p + 1) as Hc1.
  { subst c1. unfold tickLocked, is_u64 in *. case_match; [lia|]. simpl.
    unfold uadd. rewrite u64_small by (unfold is_u64; lia). lia. }
  assert ((uadd (uadd c1 1) 10000 <? uadd c1 1) = false) as ->.
  { apply Z.ltb_ge. unfold uadd. rewrite !u64_small; unfold is_u64; lia. }
  destruct (Z.ltb_spec 1048576 (Z.of_nat (length data))) as [Hl|Hl];
    [by rewrite (proj2 (Z.leb_gt _ _) Hl)|]. rewrite (proj2 (Z.leb_le _ _) Hl). simpl.
  case_decide as Hz.
  { by rewrite (bool_decide_false (state _ ≠ zero32)) by tauto. }
  rewrite (bool_decide_true (state _ ≠ zero32)) by done. simpl.
  destruct data as [|x data].
  - rewrite (bool_decide_false ([] ≠ [])) by tauto. simpl.
    case_bool_decide; simpl; [by rewrite bool_decide_true|done].
  - rewrite (bool_decide_true (_ :: _ ≠ [])) by done. simpl. by rewrite bool_decide_true.
Qed.

(** ** A concrete generator *)

Definition poh_sample : PoH := NewPoH 0 zero32 1000.
Definition poh_data : list byte := list_byte_of_string "tx".
Definition poh_proof : bytes32 :=
  sha256 (b32 (chain 3 (state poh_sample, 0)).1 ++ poh_data).

Lemma GenerateProof_verifies_witness :
  is_u64 (count poh_sample) ∧
  ∃ p' proof, GenerateProof poh_data 3 poh_sample
      = (p', Ok (proof, state poh_sample, count poh_sample)) ∧
    VerifyProof (λ _, false) (λ i, 1000 * i) (state poh_sample) poh_data proof
      (count poh_sample) 3 = Ok true ∧
    chain (Z.to_nat 3) (state poh_sample, count poh_sample) = (state p', count p') ∧
    count p' = u64 (count poh_sample + 3).
Proof.
  split; [by vm_compute|].
  apply (GenerateProof_verifies poh_data 3 poh_sample (λ _, false) (λ i, 1000 * i)).
  - by vm_compute.
  - by vm_compute.
  - intros j Hj. split; [done|]. unfold VerificationTime. lia.
Defined.

(** Cancelled from the second iteration on, with a proof for one iteration. *)
Lemma VerifyProof_sound_witness :
  VerifyProof (λ i, bool_decide (1 ≤ i)) (λ _, 0) (state poh_sample) poh_data poh_proof 0 2
    = Err ErrVerificationCanceled ∧
  3 ≤ MaxIterations ∧
  true = bool_decide (poh_proof
    = sha256 (b32 (chain (Z.to_nat 3) (state poh_sample, 0)).1 ++ poh_data)).
Proof.
  split; [by vm_compute|].
  apply (VerifyProof_sound (λ _, false) (λ _, 0) (state poh_sample) poh_data poh_proof 0 3).
  by vm_compute.
Defined.

Lemma BatchRecord_is_Record_witness :
  BatchRecord [5; 2000] [poh_data; []] poh_sample
  = foldl record_one (poh_sample, []) (zip [5; 2000] [poh_data; []]).
Proof. exact (BatchRecord_is_Record [5; 2000] [poh_data; []] poh_sample eq_refl). Defined.

Lemma Record_Verify_witness :
  let p1 := tickLocked 2000 poh_sample in
  let '(p2, proof) := Record_ 2000 poh_data poh_sample in
  Verify (state p1) poh_data proof (count p2) p2 =
    (Z.of_nat (length poh_data) <=? 1048576) && bool_decide (state p1 ≠ zero32)
    && (bool_decide (poh_data ≠ []) || bool_decide (proof = zero32)).
Proof. apply (Record_Verify 2000 poh_data poh_sample); by vm_compute. Defined.
