(* ===== verification/DPoS.v ===== *)
(** * Delegated proof of stake: src/consensus/diamantepos/diamantepos.go

    [validators] is the Go map of [*Validator]; a pointer of
    [activeValidators] is represented by the identifier under which the map
    holds that same object ([AddValidator] never replaces an entry, so the
    correspondence is one to one).  The serialisation of the state is in
    DPoSState.v.  A Go runtime panic (negative slice bound,
    division by zero) is [None]. *)
From Stdlib Require Import ZArith Lia SpecFloat.
From stdpp Require Import numbers prelude gmap strings.
From S2P Require Import Prelude GoFloat Bytes Sha256 Maps.
Open Scope Z_scope.

Record SlashEvent := mkSlash {
  sl_ValidatorID : bytes32; sl_Amount : Z; sl_Reason : string; sl_Timestamp : Z }.

Record Validator := mkVal {
  ID : bytes32;
  Stake : Z;
  Performance : f64;
  LastUpdateTime : Z;
  BlocksProduced : Z;
  MisbehaviorCount : Z;
  IsActive : bool }.

Definition set_Stake (s : Z) (v : Validator) : Validator :=
  mkVal (ID v) s (Performance v) (LastUpdateTime v) (BlocksProduced v)
        (MisbehaviorCount v) (IsActive v).
Definition set_Performance (p : f64) (t : Z) (v : Validator) : Validator :=
  mkVal (ID v) (Stake v) p t (BlocksProduced v) (MisbehaviorCount v) (IsActive v).
Definition set_BlocksProduced (n : Z) (v : Validator) : Validator :=
  mkVal (ID v) (Stake v) (Performance v) (LastUpdateTime v) n
        (MisbehaviorCount v) (IsActive v).
Definition set_Misbehavior (n : Z) (v : Validator) : Validator :=
  mkVal (ID v) (Stake v) (Performance v) (LastUpdateTime v) (BlocksProduced v)
        n (IsActive v).
Definition set_IsActive (b : bool) (v : Validator) : Validator :=
  mkVal (ID v) (Stake v) (Performance v) (LastUpdateTime v) (BlocksProduced v)
        (MisbehaviorCount v) b.

Record DPoS := mkDPoS {
  validators : gmap bytes32 Validator;
  activeValidators : list bytes32;
  totalStake : Z;
  activeTotalStake : Z;
  lastBlockHeight : Z;
  epochDuration : Z;
  currentEpoch : Z;
  maxSetSize : Z;
  slashLog : list SlashEvent }.

Definition with_validators (m : gmap bytes32 Validator) (d : DPoS) : DPoS :=
  mkDPoS m (activeValidators d) (totalStake d) (activeTotalStake d)
    (lastBlockHeight d) (epochDuration d) (currentEpoch d) (maxSetSize d) (slashLog d).
Definition with_total (t : Z) (d : DPoS) : DPoS :=
  mkDPoS (validators d) (activeValidators d) t (activeTotalStake d)
    (lastBlockHeight d) (epochDuration d) (currentEpoch d) (maxSetSize d) (slashLog d).
Definition with_active (l : list bytes32) (t : Z) (d : DPoS) : DPoS :=
  mkDPoS (validators d) l (totalStake d) t
    (lastBlockHeight d) (epochDuration d) (currentEpoch d) (maxSetSize d) (slashLog d).
Definition with_epoch (dur cur : Z) (d : DPoS) : DPoS :=
  mkDPoS (validators d) (activeValidators d) (totalStake d) (activeTotalStake d)
    (lastBlockHeight d) dur cur (maxSetSize d) (slashLog d).
Definition with_maxSetSize (n : Z) (d : DPoS) : DPoS :=
  mkDPoS (validators d) (activeValidators d) (totalStake d) (activeTotalStake d)
    (lastBlockHeight d) (epochDuration d) (currentEpoch d) n (slashLog d).
Definition with_slashLog (l : list SlashEvent) (d : DPoS) : DPoS :=
  mkDPoS (validators d) (activeValidators d) (totalStake d) (activeTotalStake d)
    (lastBlockHeight d) (epochDuration d) (currentEpoch d) (maxSetSize d) l.

Definition NewDPoS (size epochDur : Z) : DPoS :=
  mkDPoS ∅ [] 0 0 0 epochDur 0 size [].

(** ** The active set *)

(** [float64(v.Stake) * v.Performance]. *)
Definition score (v : Validator) : f64 := f_mul (f_of_Z (Stake v)) (Performance v).

Definition score_of (m : gmap bytes32 Validator) (i : bytes32) : f64 :=
  match m !! i with Some v => score v | None => S754_nan end.

(** The comparison function given to [sort.Slice]: [scoreI > scoreJ]. *)
Definition score_before (m : gmap bytes32 Validator) (i j : bytes32) : bool :=
  f_gt (score_of m i) (score_of m j).

(** One step of the second loop: mark active and accumulate the stake. *)
Definition activate (acc : gmap bytes32 Validator * Z) (i : bytes32) :
    gmap bytes32 Validator * Z :=
  match acc.1 !! i with
  | Some v => (<[i := set_IsActive true v]> acc.1, uadd acc.2 (Stake v))
  | None => acc
  end.

Definition go_min (a b : Z) : Z := if a <? b then a else b.

Definition updateActiveValidators (order : list bytes32) (d : DPoS) : option DPoS :=
  let sorted := sort_slice (score_before (validators d)) order in
  let top := go_min (Z.of_nat (length sorted)) (maxSetSize d) in
  if top <? 0 then None (* sorted[:top] panics *)
  else
    let act := take (Z.to_nat top) sorted in
    let '(m, tot) := foldl activate (set_IsActive false <$> validators d, 0) act in
    Some (with_active act tot (with_validators m d)).

(** The registration part of [AddValidator]. *)
Definition register (now : Z) (id : bytes32) (stake : Z) (d : DPoS) : DPoS :=
  match validators d !! id with
  | Some _ => d
  | None =>
      with_total (uadd (totalStake d) stake)
        (with_validators (<[id := mkVal id stake f_one now 0 0 false]> (validators d)) d)
  end.

Definition AddValidator (order : list bytes32) (now : Z) (id : bytes32) (stake : Z)
    (d : DPoS) : option DPoS :=
  updateActiveValidators order (register now id stake d).

Definition UpdateStake (order : list bytes32) (id : bytes32) (newStake : Z)
    (d : DPoS) : option DPoS :=
  match validators d !! id with
  | Some val =>
      updateActiveValidators order
        (with_validators (<[id := set_Stake newStake val]> (validators d))
           (with_total (uadd (usub (totalStake d) (Stake val)) newStake) d))
  | None => Some d
  end.

Definition SetSetSize (order : list bytes32) (size : Z) (d : DPoS) : option DPoS :=
  updateActiveValidators order (with_maxSetSize size d).

Definition SetEpochDuration (duration : Z) (d : DPoS) : DPoS :=
  if duration =? 0 then d else with_epoch duration (currentEpoch d) d.

(** ** Block producer selection *)

Definition producer_index (blockNumber : Z) (lastBlockHash : bytes32) (n : Z) : Z :=
  let seed := sha256 (b32 lastBlockHash ++ be64 blockNumber) in
  be_value (take 8 (b32 seed)) mod n.

Definition GetNextValidator (blockNumber : Z) (lastBlockHash : bytes32) (d : DPoS) :
    option (bytes32 * Z) :=
  match activeValidators d with
  | [] => None
  | act =>
      i ← act !! Z.to_nat (producer_index blockNumber lastBlockHash (Z.of_nat (length act)));
      v ← validators d !! i;
      Some (ID v, Stake v)
  end.

(** ** Epoch processing *)

Definition calculateTotalReward (epoch : Z) : Z :=
  if epoch <=? 1 then 100 else 1000000 / uadd 1 (epoch / 100).

Definition calculatePenalty (stake misbehaviorCount : Z) : Z :=
  umul (stake / 100) misbehaviorCount.

(** The penalty of one validator, capped at its stake. *)
Definition slash_penalty (v : Validator) : Z :=
  let penalty := calculatePenalty (Stake v) (MisbehaviorCount v) in
  if Stake v <? penalty then Stake v else penalty.

(** The loop body of [handleSlashingAndPenalties] for one validator. *)
Definition slash_step (now : Z) (acc : DPoS * bool) (i : bytes32) : DPoS * bool :=
  let '(d, slashedAny) := acc in
  match validators d !! i with
  | None => acc
  | Some val =>
      if 0 <? MisbehaviorCount val then
        let penalty := slash_penalty val in
        let val' := set_Misbehavior 0 (set_Stake (usub (Stake val) penalty) val) in
        let at' := if IsActive val then usub (activeTotalStake d) penalty
                   else activeTotalStake d in
        let d' := with_slashLog (slashLog d ++ [mkSlash (ID val) penalty "Misbehavior" now])
                    (with_active (activeValidators d) at'
                       (with_total (usub (totalStake d) penalty)
                          (with_validators (<[i := val']> (validators d)) d))) in
        (d', slashedAny || (0 <? penalty))
      else acc
  end.

Definition handleSlashingAndPenalties (order : list bytes32) (now : Z) (d : DPoS) :
    DPoS * bool :=
  foldl (slash_step now) (d, false) order.

(** The loop body of [distributeRewards]; [None] is the division by zero. *)
Definition reward_step (totalReward : Z) (od : option DPoS) (i : bytes32) : option DPoS :=
  d ← od;
  match validators d !! i with
  | None => Some d
  | Some val =>
      if activeTotalStake d =? 0 then None
      else
        let reward := umul totalReward (Stake val) / activeTotalStake d in
        Some (with_active (activeValidators d) (uadd (activeTotalStake d) reward)
                (with_total (uadd (totalStake d) reward)
                   (with_validators
                      (<[i := set_Stake (uadd (Stake val) reward) val]> (validators d)) d)))
  end.

Definition distributeRewards (d : DPoS) : option DPoS :=
  if activeTotalStake d =? 0 then Some d
  else foldl (reward_step (calculateTotalReward (currentEpoch d)))
         (Some d) (activeValidators d).

Definition transitionToNextEpoch (d : DPoS) : DPoS :=
  with_validators (set_BlocksProduced 0 <$> validators d) d.

Definition RewardValidator (now : Z) (id : bytes32) (d : DPoS) : DPoS :=
  match validators d !! id with
  | Some val =>
      with_validators
        (<[id := set_Performance
                   (f_min (f_mul (Performance val) (f_lit 101 2)) f_one) now val]>
           (validators d)) d
  | None => d
  end.

Inductive EpochError := ErrZeroEpochDuration.

Section epoch.
(** [math.Pow]. *)
Variable pow : f64 → f64 → f64.

Definition decay (now : Z) (v : Validator) : Validator :=
  let hoursDiff := dur_hours (time_sub now (LastUpdateTime v)) in
  if f_gt hoursDiff f_zero then
    let p := f_mul (Performance v) (pow (f_lit 99 2) hoursDiff) in
    set_Performance (f_max (f_lit 1 1) (f_min p f_one)) now v
  else v.

Definition updatePerformance (now : Z) (d : DPoS) : DPoS :=
  with_validators (decay now <$> validators d) d.

(** [order1] is the iteration order of the slashing loop, [order2] that of
    the loop collecting the validators to sort. *)
Definition ProcessEpoch (order1 order2 : list bytes32) (now blockNumber : Z)
    (d : DPoS) : option (DPoS * result EpochError ()) :=
  if epochDuration d =? 0 then Some (d, Err ErrZeroEpochDuration)
  else if negb (blockNumber mod epochDuration d =? 0) then Some (d, Ok ())
  else
    let d1 := with_epoch (epochDuration d) (uadd (currentEpoch d) 1) d in
    let '(d2, slashedAny) := handleSlashingAndPenalties order1 now d1 in
    d3 ← updateActiveValidators order2 d2;
    d4 ← (if slashedAny then Some d3 else distributeRewards d3);
    Some (transitionToNextEpoch (updatePerformance now d4), Ok ()).
End epoch.

(** ** Queries and test helpers *)

Definition IsActiveValidator (id : bytes32) (d : DPoS) : bool :=
  match validators d !! id with Some v => IsActive v | None => false end.

Definition GetValidators (order : list bytes32) (d : DPoS) : list (bytes32 * Z) :=
  (λ v, (ID v, Stake v)) <$> visit (validators d) order.

Definition GetActiveValidators (d : DPoS) : list (bytes32 * Z) :=
  (λ v, (ID v, Stake v)) <$> visit (validators d) (activeValidators d).

Definition GetTotalStake (d : DPoS) : Z := totalStake d.

Definition GetValidatorStake (id : bytes32) (d : DPoS) : Z :=
  match validators d !! id with
  | None => 0
  | Some val =>
      if negb (IsActive val) then 0
      else
        let activeCount := Z.of_nat (length (activeValidators d)) in
        if activeCount =? 0 then 0 else totalStake d / activeCount
  end.

Definition GetSetSize (d : DPoS) : Z := maxSetSize d.
Definition GetEpochDuration (d : DPoS) : Z := epochDuration d.
Definition GetSlashLog (d : DPoS) : list SlashEvent := slashLog d.

Definition InjectMisbehaviorCount (id : bytes32) (count : Z) (d : DPoS) : DPoS :=
  match validators d !! id with
  | Some v => with_validators (<[id := set_Misbehavior count v]> (validators d)) d
  | None => d
  end.

Definition InjectLastUpdateTime (id : bytes32) (t : Z) (d : DPoS) : DPoS :=
  match validators d !! id with
  | Some v => with_validators (<[id := set_Performance (Performance v) t v]> (validators d)) d
  | None => d
  end.

Definition GetValidatorPerformance (id : bytes32) (d : DPoS) : f64 :=
  match validators d !! id with Some v => Performance v | None => f_zero end.

(** * Invariant *)

(** Identifiers and the stored total; what every operation needs before the
    active set is rebuilt. *)
Record wf_base (d : DPoS) : Prop := {
  wfb_val : ∀ i v, validators d !! i = Some v → ID v = i ∧ is_u64 (Stake v);
  wfb_total : totalStake d = u64 (msum Stake (validators d));
  wfb_size : 0 ≤ maxSetSize d }.

Definition active_sum (d : DPoS) : Z :=
  zsum (Stake <$> visit (validators d) (activeValidators d)).

(** Consistency of the active set with the validators and the totals. *)
Record wf (d : DPoS) : Prop := {
  wf_b :> wf_base d;
  wf_nodup : NoDup (activeValidators d);
  wf_flag : ∀ i v, validators d !! i = Some v →
    IsActive v = bool_decide (i ∈ activeValidators d);
  wf_dom : ∀ i, i ∈ activeValidators d → is_Some (validators d !! i);
  wf_active_total : activeTotalStake d = u64 (active_sum d);
  wf_bound : Z.of_nat (length (activeValidators d)) ≤ maxSetSize d }.

Lemma go_min_spec a b : go_min a b = Z.min a b.
Proof. unfold go_min. destruct (Z.ltb_spec a b); lia. Qed.

Lemma activate_fold l m t : NoDup l → (∀ i, i ∈ l → is_Some (m !! i)) →
  (∀ k, (foldl activate (m, t) l).1 !! k =
     if decide (k ∈ l) then set_IsActive true <$> m !! k else m !! k) ∧
  (foldl activate (m, t) l).2 = foldl uadd t (Stake <$> visit m l).
Proof.
  revert m t. induction l as [|i l IH]; intros m t Hnd Hdom; [done|].
  apply NoDup_cons in Hnd as [Hi Hnd].
  destruct (Hdom i) as [v Hv]; [by left|].
  assert (Hact : activate (m, t) i = (<[i:=set_IsActive true v]> m, uadd t (Stake v)))
    by (unfold activate; simpl; by rewrite Hv).
  simpl foldl. rewrite Hact.
  destruct (IH (<[i:=set_IsActive true v]> m) (uadd t (Stake v)) Hnd) as [IH1 IH2].
  { intros j Hj. rewrite lookup_insert_ne by set_solver. apply Hdom. by right. }
  split.
  - intros k. rewrite IH1. destruct (decide (k = i)) as [->|Hk].
    + rewrite decide_False, decide_True by set_solver. by rewrite lookup_insert_eq, Hv.
    + rewrite lookup_insert_ne by done.
      destruct (decide (k ∈ l)), (decide (k ∈ i :: l)); set_solver.
  - rewrite IH2. unfold visit at 2. simpl. rewrite Hv. simpl. f_equal.
    apply visit_fmap_ext. intros k Hk. by rewrite lookup_insert_ne by set_solver.
Qed.

Lemma length_sorted (order : list bytes32) less :
  length (sort_slice less order) = length order.
Proof. apply Permutation_length, sort_slice_perm. Qed.

(** The validators selected by [updateActiveValidators]. *)
Definition selection (order : list bytes32) (d : DPoS) : list bytes32 :=
  take (Z.to_nat (maxSetSize d)) (sort_slice (score_before (validators d)) order).

Definition same_but_active (v w : Validator) : Prop :=
  set_IsActive false v = set_IsActive false w.

Lemma updateActive_spec order d : wf_base d → iter_order (validators d) order →
  ∃ d', updateActiveValidators order d = Some d' ∧ wf d' ∧
    activeValidators d' = selection order d ∧
    totalStake d' = totalStake d ∧ epochDuration d' = epochDuration d ∧
    currentEpoch d' = currentEpoch d ∧ maxSetSize d' = maxSetSize d ∧
    slashLog d' = slashLog d ∧ lastBlockHeight d' = lastBlockHeight d ∧
    (∀ i, validators d' !! i =
       (λ v, set_IsActive (bool_decide (i ∈ selection order d)) v) <$> validators d !! i).
Proof.
  intros [Hval Htot Hsz] [Hnd Hord].
  set (sorted := sort_slice (score_before (validators d)) order).
  assert (Hsel : take (Z.to_nat (go_min (Z.of_nat (length sorted)) (maxSetSize d))) sorted
                 = selection order d).
  { unfold selection. fold sorted. rewrite go_min_spec.
    destruct (Z.min_spec (Z.of_nat (length sorted)) (maxSetSize d)) as [[? ->]|[? ->]]; [|done].
    rewrite !take_ge by lia. done. }
  unfold updateActiveValidators. fold sorted. rewrite Hsel.
  assert ((go_min (Z.of_nat (length sorted)) (maxSetSize d) <? 0) = false) as ->.
  { rewrite go_min_spec. apply Z.ltb_ge. lia. }
  assert (Hsub : ∀ i, i ∈ selection order d → is_Some (validators d !! i)).
  { intros i Hi. apply Hord. unfold selection in Hi.
    apply (sublist_subseteq _ _ (sublist_take _ _)) in Hi.
    by rewrite sort_slice_perm in Hi. }
  assert (HndS : NoDup (selection order d)).
  { eapply sublist_NoDup; [|apply sublist_take]. by rewrite sort_slice_perm. }
  destruct (activate_fold (selection order d) (set_IsActive false <$> validators d) 0 HndS)
    as [Hm Ht].
  { intros i Hi. rewrite lookup_fmap. destruct (Hsub i Hi) as [v ->]. by eexists. }
  destruct (foldl activate _ _) as [m tot]. simpl in Hm, Ht.
  assert (Hlk : ∀ i, m !! i =
    (λ v, set_IsActive (bool_decide (i ∈ selection order d)) v) <$> validators d !! i).
  { intros i. rewrite Hm, lookup_fmap. destruct (validators d !! i) as [v|] eqn:Hv; simpl.
    - case_decide; [rewrite bool_decide_true by done|rewrite bool_decide_false by done];
      by destruct v.
    - by case_decide. }
  assert (Hstk : ∀ i, Stake <$> m !! i = Stake <$> validators d !! i).
  { intros i. rewrite Hlk. by destruct (validators d !! i). }
  eexists. split; [done|]. split_and!; try done. split; simpl; try done.
  - split; simpl; [|by rewrite Htot, (msum_ext _ _ _ Hstk)|done].
    intros i v Hv. rewrite Hlk in Hv.
    destruct (validators d !! i) as [w|] eqn:Hw; simplify_eq/=. by apply Hval.
  - intros i v Hv. rewrite Hlk in Hv. by destruct (validators d !! i); simplify_eq/=.
  - intros i Hi. rewrite Hlk. destruct (Hsub i Hi) as [v ->]. by eexists.
  - rewrite Ht. unfold active_sum. simpl. rewrite <- usum_zsum. unfold usum. f_equal.
    apply visit_fmap_ext. intros i _. rewrite Hstk, lookup_fmap.
    by destruct (validators d !! i).
  - unfold selection. rewrite length_take. lia.
Qed.

Lemma wf_stake d i v : wf_base d → validators d !! i = Some v → is_u64 (Stake v).
Proof. intros Hd Hi. by destruct (wfb_val _ Hd i v Hi). Qed.

(** Changing one validator's stake, with the totals adjusted modulo 2^64,
    keeps the whole invariant. *)
Lemma wf_change_stake d i v v' log :
  wf d → validators d !! i = Some v → ID v' = ID v → is_u64 (Stake v') →
  IsActive v' = IsActive v →
  wf (with_slashLog log (with_active (activeValidators d)
        (u64 (activeTotalStake d + (if IsActive v then Stake v' - Stake v else 0)))
        (with_total (u64 (totalStake d + (Stake v' - Stake v)))
           (with_validators (<[i := v']> (validators d)) d)))).
Proof.
  intros [[Hval Htot Hsz] Hnd Hflag Hdom Hact Hb] Hi Hid Hu Ha.
  split; [split|..]; simpl; try done.
  - intros j w Hj. destruct (decide (i = j)) as [->|].
    + rewrite lookup_insert_eq in Hj. simplify_eq. split; [|done].
      rewrite Hid. by apply Hval.
    + rewrite lookup_insert_ne in Hj by done. by apply Hval.
  - rewrite (msum_insert _ _ _ _ _ Hi), Htot, u64_add_l. f_equal. lia.
  - intros j w Hj. destruct (decide (i = j)) as [->|].
    + rewrite lookup_insert_eq in Hj. simplify_eq. rewrite Ha. by apply Hflag.
    + rewrite lookup_insert_ne in Hj by done. by apply Hflag.
  - intros j Hj. apply lookup_insert_is_Some'. right. by apply Hdom.
  - unfold active_sum in *. simpl. rewrite (visit_sum_insert _ _ _ _ _ v), Hact by done.
    rewrite u64_add_l. f_equal. f_equal. rewrite (Hflag i v Hi).
    case_decide; [by rewrite bool_decide_true|by rewrite bool_decide_false].
Qed.

Lemma register_wf_base now id stake d : wf_base d → is_u64 stake →
  wf_base (register now id stake d).
Proof.
  intros Hd Hs. unfold register. destruct (validators d !! id) eqn:Hid; [done|].
  destruct Hd as [Hval Htot Hsz]. split; simpl; [| |done].
  - intros i v Hv. destruct (decide (id = i)) as [->|].
    + rewrite lookup_insert_eq in Hv. by simplify_eq.
    + rewrite lookup_insert_ne in Hv by done. by apply Hval.
  - rewrite msum_insert_new by done. simpl. unfold uadd. rewrite Htot, u64_add_l.
    f_equal. lia.
Qed.

Lemma UpdateStake_wf_base d id val newStake : wf_base d → is_u64 newStake →
  validators d !! id = Some val →
  wf_base (with_validators (<[id := set_Stake newStake val]> (validators d))
           (with_total (uadd (usub (totalStake d) (Stake val)) newStake) d)).
Proof.
  intros [Hval Htot Hsz] Hs Hid. split; simpl; [| |done].
  - intros i v Hv. destruct (decide (id = i)) as [->|].
    + rewrite lookup_insert_eq in Hv. simplify_eq. split; [|done]. by destruct (Hval _ _ Hid).
    + rewrite lookup_insert_ne in Hv by done. by apply Hval.
  - rewrite (msum_insert _ _ _ _ _ Hid). simpl. unfold uadd, usub.
    rewrite Htot, u64_sub_l, u64_add_l. done.
Qed.

(** ** Slashing *)

Lemma calculatePenalty_range s c : is_u64 (calculatePenalty s c).
Proof. apply u64_range. Qed.

Lemma slash_penalty_range v : is_u64 (Stake v) → 0 ≤ slash_penalty v ≤ Stake v.
Proof.
  unfold slash_penalty, is_u64. intros.
  pose proof (calculatePenalty_range (Stake v) (MisbehaviorCount v)) as H'.
  unfold is_u64 in H'. destruct (Z.ltb_spec (Stake v) (calculatePenalty (Stake v) (MisbehaviorCount v))); lia.
Qed.

(** What slashing does to a validator. *)
Definition slashed (v : Validator) : Validator :=
  if 0 <? MisbehaviorCount v
  then set_Misbehavior 0 (set_Stake (Stake v - slash_penalty v) v) else v.

Definition slash_events (now : Z) (v : Validator) : list SlashEvent :=
  if 0 <? MisbehaviorCount v
  then [mkSlash (ID v) (slash_penalty v) "Misbehavior" now] else [].

Definition punished (v : Validator) : bool :=
  (0 <? MisbehaviorCount v) && (0 <? slash_penalty v).

Lemma active_total_idemp d : wf d → u64 (activeTotalStake d) = activeTotalStake d.
Proof. intros Hd. rewrite (wf_active_total d Hd). apply u64_idemp. Qed.

Lemma total_idemp d : wf_base d → u64 (totalStake d) = totalStake d.
Proof. intros Hd. rewrite (wfb_total d Hd). apply u64_idemp. Qed.

Lemma slash_step_spec now d b i v : wf d → validators d !! i = Some v →
  let '(d', b') := slash_step now (d, b) i in
  wf d' ∧ validators d' = <[i := slashed v]> (validators d) ∧
  b' = b || punished v ∧ activeValidators d' = activeValidators d ∧
  epochDuration d' = epochDuration d ∧ currentEpoch d' = currentEpoch d ∧
  maxSetSize d' = maxSetSize d ∧ slashLog d' = slashLog d ++ slash_events now v.
Proof.
  intros Hd Hi. unfold slash_step, slashed, punished, slash_events. rewrite Hi.
  pose proof (wf_stake d i v Hd Hi) as Hs.
  pose proof (slash_penalty_range v Hs) as Hp.
  destruct (0 <? MisbehaviorCount v).
  - assert (usub (Stake v) (slash_penalty v) = Stake v - slash_penalty v) as ->.
    { unfold usub. apply u64_small. unfold is_u64 in *. lia. }
    split_and!; try done.
    pose proof (wf_change_stake d i v (set_Misbehavior 0 (set_Stake (Stake v - slash_penalty v) v))
              (slashLog d ++ [mkSlash (ID v) (slash_penalty v) "Misbehavior" now]) Hd Hi eq_refl) as Hw.
    simpl in Hw. replace (Stake v - slash_penalty v - Stake v) with (- slash_penalty v) in Hw by lia.
    assert ((if IsActive v then usub (activeTotalStake d) (slash_penalty v) else activeTotalStake d)
      = u64 (activeTotalStake d + (if IsActive v then - slash_penalty v else 0))) as ->.
    { destruct (IsActive v); [done|]. by rewrite Z.add_0_r, active_total_idemp. }
    apply Hw; [|done]. unfold is_u64 in *. lia.
  - simpl. rewrite orb_false_r, app_nil_r, insert_id by done. done.
Qed.

(** The fields neither slashing nor rewards touch. *)
Definition same_frame (d d' : DPoS) : Prop :=
  activeValidators d' = activeValidators d ∧ epochDuration d' = epochDuration d ∧
  currentEpoch d' = currentEpoch d ∧ maxSetSize d' = maxSetSize d.

Lemma slash_loop_spec now l : ∀ d b, wf d → NoDup l →
  (∀ i, i ∈ l → is_Some (validators d !! i)) →
  let '(d', b') := foldl (slash_step now) (d, b) l in
  wf d' ∧ same_frame d d' ∧ b' = b || existsb punished (visit (validators d) l) ∧
  slashLog d' = slashLog d ++ (visit (validators d) l ≫= slash_events now) ∧
  ∀ i, validators d' !! i =
    if decide (i ∈ l) then slashed <$> validators d !! i else validators d !! i.
Proof.
  induction l as [|i l IH]; intros d b Hd Hnd Hdom.
  { cbn. split_and!; try done; [by rewrite orb_false_r|by rewrite app_nil_r]. }
  cbn [foldl].
  apply NoDup_cons in Hnd as [Hi Hnd].
  destruct (Hdom i) as [v Hv]; [by left|].
  pose proof (slash_step_spec now d b i v Hd Hv) as Hstep.
  destruct (slash_step now (d, b) i) as [d1 b1] eqn:Hs1.
  destruct Hstep as (Hd1 & Hm1 & -> & Ha1 & He1 & Hc1 & Hx1 & Hl1).
  specialize (IH d1 (b || punished v) Hd1 Hnd).
  destruct (foldl (slash_step now) (d1, b || punished v) l) as [d2 b2].
  destruct IH as (Hd2 & (Ha2 & He2 & Hc2 & Hx2) & -> & Hl2 & Hm2).
  { intros j Hj. rewrite Hm1, lookup_insert_ne by set_solver. apply Hdom. by right. }
  assert (visit (validators d1) l = visit (validators d) l) as Hvis.
  { rewrite Hm1. apply visit_ext. intros j Hj. by rewrite lookup_insert_ne by set_solver. }
  rewrite (visit_cons (validators d)), Hv, <- Hvis.
  cbn beta iota. split_and!; try congruence.
  - unfold same_frame. split_and!; congruence.
  - simpl. by rewrite orb_assoc.
  - simpl. by rewrite Hl2, Hl1, (assoc_L app).
  - intros j. rewrite Hm2, Hm1. destruct (decide (j = i)) as [->|Hne].
    + rewrite decide_False, decide_True, lookup_insert_eq, Hv by set_solver. done.
    + rewrite lookup_insert_ne by done.
      destruct (decide (j ∈ l)), (decide (j ∈ i :: l)); set_solver.
Qed.

(** ** Rewards *)

Definition reward_of (R : Z) (d : DPoS) (v : Validator) : Z :=
  umul R (Stake v) / activeTotalStake d.

Lemma reward_step_eq R d i v : validators d !! i = Some v → activeTotalStake d ≠ 0 →
  reward_step R (Some d) i =
  Some (with_active (activeValidators d) (uadd (activeTotalStake d) (reward_of R d v))
          (with_total (uadd (totalStake d) (reward_of R d v))
             (with_validators
                (<[i := set_Stake (uadd (Stake v) (reward_of R d v)) v]> (validators d)) d))).
Proof.
  intros Hi HA. unfold reward_step, reward_of. simpl. rewrite Hi.
  by rewrite (proj2 (Z.eqb_neq _ _) HA).
Qed.

Lemma u64_add_sub_r a b c : u64 (a + (u64 (b + c) - b)) = u64 (a + c).
Proof.
  replace (a + (u64 (b + c) - b)) with ((a - b) + u64 (b + c)) by lia.
  rewrite u64_add_r. f_equal. lia.
Qed.

Lemma reward_step_wf R d i v : wf d → i ∈ activeValidators d →
  validators d !! i = Some v → activeTotalStake d ≠ 0 →
  ∃ d', reward_step R (Some d) i = Some d' ∧ wf d' ∧ same_frame d d' ∧
    validators d' = <[i := set_Stake (uadd (Stake v) (reward_of R d v)) v]> (validators d) ∧
    activeTotalStake d' = uadd (activeTotalStake d) (reward_of R d v) ∧
    slashLog d' = slashLog d.
Proof.
  intros Hd Hin Hi HA. eexists. split; [by apply reward_step_eq|].
  assert (IsActive v = true) as Hact
    by (by rewrite (wf_flag d Hd i v Hi), bool_decide_true).
  pose proof (wf_change_stake d i v (set_Stake (uadd (Stake v) (reward_of R d v)) v)
    (slashLog d) Hd Hi eq_refl (u64_range _) eq_refl) as Hw.
  rewrite Hact in Hw. simpl in Hw. unfold uadd in *.
  rewrite !u64_add_sub_r in Hw. split_and!; try done.
Qed.

Lemma mul_div_le x a : 0 < a → x / a * a ≤ x.
Proof. intros. pose proof (Z.mul_div_le x a). lia. Qed.

Lemma umul_le R s : 0 ≤ R → 0 ≤ s → 0 ≤ umul R s ≤ R * s.
Proof.
  intros. unfold umul, u64. split; [apply Z.mod_pos_bound; lia|apply Z.mod_le; nia].
Qed.

(** The arithmetic of one iteration: what is left of the budget [R]. *)
Lemma reward_budget R A0 A s r rest : 0 ≤ R → 0 < A0 ≤ A → 0 ≤ s → 0 ≤ rest →
  A0 * (A - A0) + R * (s + rest) ≤ R * A0 → r = umul R s / A →
  0 ≤ r ∧ A + r ≤ A0 + R ∧ A0 * (A + r - A0) + R * rest ≤ R * A0.
Proof.
  intros HR HA Hs Hrest Hb ->.
  pose proof (umul_le R s HR Hs) as Hm.
  pose proof (mul_div_le (umul R s) A) as Hd.
  pose proof (Z.div_pos (umul R s) A) as Hp.
  assert (A0 * (umul R s / A) ≤ umul R s / A * A) by nia.
  split_and!; [lia| |nia].
  assert (A0 * (A + umul R s / A - A0) ≤ A0 * R) as Hfin by nia.
  apply Z.mul_le_mono_pos_l in Hfin; lia.
Qed.

Definition only_stake_grows (d d' : DPoS) : Prop :=
  ∀ i, option_Forall2 (λ v v', ∃ s, v' = set_Stake s v ∧ Stake v ≤ s)
    (validators d !! i) (validators d' !! i).

Lemma only_stake_grows_refl d : only_stake_grows d d.
Proof.
  intros i. destruct (validators d !! i) as [v|]; constructor.
  exists (Stake v). by destruct v.
Qed.

Lemma only_stake_grows_trans d1 d2 d3 :
  only_stake_grows d1 d2 → only_stake_grows d2 d3 → only_stake_grows d1 d3.
Proof.
  intros H12 H23 i. specialize (H12 i). specialize (H23 i).
  destruct H12 as [v w (s & -> & Hs)|]; inversion H23 as [? ? (s' & -> & Hs')|]; simplify_eq;
    constructor.
  exists s'. simpl in Hs'. split; [done|lia].
Qed.

Lemma stake_le_active d i v : wf d → i ∈ activeValidators d →
  validators d !! i = Some v → 0 ≤ Stake v ≤ active_sum d.
Proof.
  intros Hd Hin Hi. pose proof (wf_stake d i v Hd Hi) as Hs. unfold is_u64 in Hs.
  split; [lia|]. unfold active_sum. pose proof (wf_nodup d Hd) as Hnd.
  assert (Hg : ∀ l, i ∈ l → Stake v ≤ zsum (Stake <$> visit (validators d) l)); [|by apply Hg].
  assert (Hnn : ∀ l, 0 ≤ zsum (Stake <$> visit (validators d) l)).
  { intros l. apply zsum_nonneg, Forall_fmap, Forall_forall. intros w Hw.
    unfold visit in Hw. apply list_elem_of_omap in Hw as (j & _ & Hj).
    pose proof (wf_stake d j w Hd Hj). unfold is_u64 in *. simpl. lia. }
  intros l. induction l as [|j l IH]; [set_solver|]. intros [<-|Hl]%elem_of_cons;
    rewrite visit_cons.
  - rewrite Hi, fmap_cons, zsum_cons. specialize (Hnn l). lia.
  - specialize (IH Hl). destruct (validators d !! j) as [w|] eqn:Hj; [|done].
    pose proof (wf_stake d j w Hd Hj). unfold is_u64 in *.
    rewrite fmap_cons, zsum_cons. lia.
Qed.

Lemma reward_loop R A0 l : ∀ d, 0 ≤ R → A0 + R < 18446744073709551616 →
  wf d → active_sum d = activeTotalStake d → 0 < A0 ≤ activeTotalStake d →
  NoDup l → (∀ i, i ∈ l → i ∈ activeValidators d) →
  A0 * (activeTotalStake d - A0) + R * zsum (Stake <$> visit (validators d) l) ≤ R * A0 →
  ∃ d', foldl (reward_step R) (Some d) l = Some d' ∧ wf d' ∧ same_frame d d' ∧
    activeTotalStake d ≤ activeTotalStake d' ≤ A0 + R ∧
    active_sum d' = activeTotalStake d' ∧ slashLog d' = slashLog d ∧
    only_stake_grows d d' ∧
    (∀ j, j ∉ l → validators d' !! j = validators d !! j).
Proof.
  induction l as [|i l IH]; intros d HR Hmax Hd Hsum HA Hnd Hin Hb.
  { exists d. unfold same_frame. split_and!; try done; [|apply only_stake_grows_refl].
    - cbn in Hb. assert (A0 * (activeTotalStake d - A0) ≤ A0 * R) as Hfin by lia.
      apply Z.mul_le_mono_pos_l in Hfin; lia. }
  apply NoDup_cons in Hnd as [Hi Hnd].
  assert (i ∈ activeValidators d) as Hia by (apply Hin; by left).
  destruct (wf_dom d Hd i Hia) as [v Hv].
  destruct (stake_le_active d i v Hd Hia Hv) as [Hs0 Hs1].
  rewrite visit_cons, Hv, fmap_cons, zsum_cons in Hb.
  assert (0 ≤ zsum (Stake <$> visit (validators d) l)) as Hrest.
  { apply zsum_nonneg, Forall_fmap, Forall_forall. intros w Hw.
    apply list_elem_of_omap in Hw as (j & _ & Hj).
    pose proof (wf_stake d j w Hd Hj). unfold is_u64 in *. simpl. lia. }
  destruct (reward_budget R A0 (activeTotalStake d) (Stake v) (reward_of R d v) _
    HR HA Hs0 Hrest Hb eq_refl) as (Hr & Hle & Hb').
  destruct (reward_step_wf R d i v Hd Hia Hv) as (d1 & Hd1 & Hwf1 & Hf1 & Hm1 & HA1 & Hl1);
    [lia|].
  assert (activeTotalStake d1 = activeTotalStake d + reward_of R d v) as HA1'.
  { rewrite HA1. unfold uadd. apply u64_small. unfold is_u64. lia. }
  assert (uadd (Stake v) (reward_of R d v) = Stake v + reward_of R d v) as Hsv.
  { unfold uadd. apply u64_small. unfold is_u64. lia. }
  destruct Hf1 as (Ha1 & He1 & Hc1 & Hx1).
  assert (active_sum d1 = activeTotalStake d1) as Hsum1.
  { unfold active_sum. rewrite Ha1, Hm1, (visit_sum_insert _ _ _ _ _ v), decide_True, Hsv
      by (try done; apply Hd). fold (active_sum d). simpl. lia. }
  destruct (IH d1 HR Hmax Hwf1 Hsum1) as (d2 & Hd2 & Hwf2 & Hf2 & HA2 & Hsum2 & Hl2 & Hg2 & Hm2).
  - lia.
  - done.
  - intros j Hj. rewrite Ha1. apply Hin. by right.
  - rewrite (visit_ext _ (validators d)); [rewrite HA1'; done|].
    intros j Hj. by rewrite Hm1, lookup_insert_ne by set_solver.
  - exists d2. cbn [foldl]. rewrite Hd1. split; [done|]. split; [done|].
    destruct Hf2 as (Ha2 & He2 & Hc2 & Hx2).
    split_and!; [unfold same_frame; split_and!; congruence|lia|lia|done|congruence| |].
    + apply (only_stake_grows_trans d d1); [|done]. intros j. rewrite Hm1, Hsv.
      destruct (decide (i = j)) as [<-|]; [|rewrite lookup_insert_ne by done;
        apply only_stake_grows_refl].
      rewrite lookup_insert_eq, Hv. constructor. eexists. split; [done|lia].
    + intros j Hj. rewrite Hm2 by set_solver. rewrite Hm1, lookup_insert_ne by set_solver. done.
Qed.

Lemma calculateTotalReward_range e : 0 ≤ calculateTotalReward e ≤ 1000000.
Proof.
  unfold calculateTotalReward. case_match; [lia|].
  pose proof (u64_range (1 + e / 100)) as Hu. unfold is_u64 in Hu. unfold uadd.
  destruct (decide (u64 (1 + e / 100) = 0)) as [->|Hne]; [by vm_compute|].
  split; [apply Z.div_pos; lia|]. apply Z.div_le_upper_bound; nia.
Qed.

Lemma active_sum_nonneg d : wf_base d → 0 ≤ active_sum d.
Proof.
  intros Hd. apply zsum_nonneg, Forall_fmap, Forall_forall. intros w Hw.
  apply list_elem_of_omap in Hw as (j & _ & Hj).
  pose proof (wf_stake d j w Hd Hj). unfold is_u64 in *. simpl. lia.
Qed.

Lemma distributeRewards_total d : wf d →
  active_sum d + calculateTotalReward (currentEpoch d) < 18446744073709551616 →
  ∃ d', distributeRewards d = Some d' ∧ wf d' ∧ same_frame d d' ∧
    active_sum d ≤ active_sum d' ≤ active_sum d + calculateTotalReward (currentEpoch d) ∧
    slashLog d' = slashLog d ∧ only_stake_grows d d' ∧
    (∀ j, j ∉ activeValidators d → validators d' !! j = validators d !! j).
Proof.
  intros Hd Hmax. unfold distributeRewards.
  pose proof (calculateTotalReward_range (currentEpoch d)) as HR.
  pose proof (active_sum_nonneg d Hd) as H0.
  assert (active_sum d = activeTotalStake d) as Hsum.
  { rewrite (wf_active_total d Hd). symmetry. apply u64_small. unfold is_u64. lia. }
  destruct (Z.eqb_spec (activeTotalStake d) 0) as [Hz|Hz].
  - exists d. unfold same_frame. split_and!; try done; [lia|].
    apply only_stake_grows_refl.
  - destruct (reward_loop (calculateTotalReward (currentEpoch d)) (activeTotalStake d)
      (activeValidators d) d) as (d' & ? & ? & ? & ? & Hs' & ? & ? & ?);
      [lia|lia|done|done|lia|apply Hd|done| |].
    + fold (active_sum d). rewrite Hsum. lia.
    + exists d'. split_and!; try done; lia.
Qed.

Lemma reward_fold_none R l : foldl (reward_step R) None l = None.
Proof. induction l as [|i l IH]; [done|]. cbn [foldl]. by rewrite <- IH at 2. Qed.

Lemma reward_fold_wf R l : ∀ d d', wf d → (∀ i, i ∈ l → i ∈ activeValidators d) →
  foldl (reward_step R) (Some d) l = Some d' → wf d'.
Proof.
  induction l as [|i l IH]; intros d d' Hd Hin Hf; [by simplify_eq/=|].
  cbn [foldl] in Hf.
  destruct (wf_dom d Hd i) as [v Hv]; [apply Hin; by left|].
  destruct (decide (activeTotalStake d = 0)) as [Hz|Hz].
  - assert (reward_step R (Some d) i = None) as Hn.
    { unfold reward_step. simpl. by rewrite Hv, Hz. }
    by rewrite Hn, reward_fold_none in Hf.
  - destruct (reward_step_wf R d i v Hd) as (d1 & Hd1 & Hwf & (Ha & _) & _);
      [apply Hin; by left|done|done|].
    rewrite Hd1 in Hf. apply (IH d1); [done| |done].
    intros j Hj. rewrite Ha. apply Hin. by right.
Qed.

Lemma distributeRewards_wf d d' : wf d → distributeRewards d = Some d' → wf d'.
Proof.
  unfold distributeRewards. case_match; [naive_solver|].
  intros Hd. by apply reward_fold_wf.
Qed.

(** ** Operations that keep identifier, stake and active flag *)

Definition vkey (v : Validator) : bytes32 * Z * bool := (ID v, Stake v, IsActive v).

Lemma vkey_lookup (m m' : gmap bytes32 Validator) i v :
  (∀ i, vkey <$> m' !! i = vkey <$> m !! i) → m' !! i = Some v →
  ∃ w, m !! i = Some w ∧ ID v = ID w ∧ Stake v = Stake w ∧ IsActive v = IsActive w.
Proof.
  intros Hk Hv. specialize (Hk i). rewrite Hv in Hk.
  destruct (m !! i) as [w|] eqn:Hw; [|done]. simpl in Hk. unfold vkey in Hk.
  simplify_eq. eauto.
Qed.

Lemma wf_same_keys d m' : wf d →
  (∀ i, vkey <$> m' !! i = vkey <$> validators d !! i) → wf (with_validators m' d).
Proof.
  intros [[Hval Htot Hsz] Hnd Hflag Hdom Hact Hb] Hk.
  assert (Hst : ∀ i, Stake <$> m' !! i = Stake <$> validators d !! i).
  { intros i. specialize (Hk i). destruct (m' !! i), (validators d !! i);
      simpl in *; unfold vkey in *; congruence. }
  split; [split|..]; simpl; try done.
  - intros i v Hv. destruct (vkey_lookup _ _ i v Hk Hv) as (w & Hw & -> & -> & _).
    by apply Hval.
  - by rewrite (msum_ext _ _ _ Hst).
  - intros i v Hv. destruct (vkey_lookup _ _ i v Hk Hv) as (w & Hw & _ & _ & ->).
    by apply Hflag.
  - intros i Hi. destruct (Hdom i Hi) as [v Hv]. specialize (Hk i).
    rewrite Hv in Hk. by destruct (m' !! i).
  - unfold active_sum in *. simpl. rewrite Hact. do 2 f_equal.
    apply visit_fmap_ext. intros. by rewrite Hst.
Qed.

Lemma wf_fmap_keys f d : wf d → (∀ v, vkey (f v) = vkey v) →
  wf (with_validators (f <$> validators d) d).
Proof.
  intros Hd Hf. apply wf_same_keys; [done|]. intros i. rewrite lookup_fmap.
  destruct (validators d !! i); [|done]. simpl. by rewrite Hf.
Qed.

Lemma wf_insert_keys i v w d : wf d → validators d !! i = Some w → vkey v = vkey w →
  wf (with_validators (<[i := v]> (validators d)) d).
Proof.
  intros Hd Hi Hv. apply wf_same_keys; [done|]. intros j.
  destruct (decide (i = j)) as [->|]; [rewrite lookup_insert_eq, Hi; simpl; by rewrite Hv|].
  by rewrite lookup_insert_ne.
Qed.

Lemma updateActive_wf order d d' :
  (∀ i v, validators d !! i = Some v → ID v = i ∧ is_u64 (Stake v)) →
  totalStake d = u64 (msum Stake (validators d)) →
  iter_order (validators d) order → updateActiveValidators order d = Some d' → wf d'.
Proof.
  intros Hv Ht Ho Hu. assert (wf_base d) as Hb.
  { split; [done|done|]. unfold updateActiveValidators in Hu. case_match; [done|].
    rewrite go_min_spec in *. bool_to_prop. lia. }
  destruct (updateActive_spec order d Hb Ho) as (d2 & Hd2 & ? & _). by simplify_eq.
Qed.

(** * The component as a transition system *)

Section system.
Variable pow : f64 → f64 → f64.

(** Every exported mutator but RestoreState, with every admissible iteration order, clock
    and argument; a call that panics has no successor. *)
Inductive dpos_step : DPoS → DPoS → Prop :=
| step_AddValidator order now id stake d d' :
    is_u64 stake → iter_order (validators (register now id stake d)) order →
    AddValidator order now id stake d = Some d' → dpos_step d d'
| step_UpdateStake order id stake d d' :
    is_u64 stake → iter_order (validators d) order →
    UpdateStake order id stake d = Some d' → dpos_step d d'
| step_SetSetSize order size d d' :
    iter_order (validators d) order →
    SetSetSize order size d = Some d' → dpos_step d d'
| step_SetEpochDuration duration d :
    is_u64 duration → dpos_step d (SetEpochDuration duration d)
| step_ProcessEpoch order1 order2 now blockNumber d d' r :
    is_u64 blockNumber →
    iter_order (validators d) order1 → iter_order (validators d) order2 →
    ProcessEpoch pow order1 order2 now blockNumber d = Some (d', r) → dpos_step d d'
| step_RewardValidator now id d : dpos_step d (RewardValidator now id d)
| step_InjectMisbehaviorCount id count d :
    is_u64 count → dpos_step d (InjectMisbehaviorCount id count d)
| step_InjectLastUpdateTime id t d : dpos_step d (InjectLastUpdateTime id t d).

Lemma vkey_decay now v : vkey (decay pow now v) = vkey v.
Proof. unfold decay. by case_match. Qed.

Lemma handleSlashing_spec order now d : wf d → iter_order (validators d) order →
  ∃ d' b, handleSlashingAndPenalties order now d = (d', b) ∧ wf d' ∧ same_frame d d' ∧
    b = existsb punished (visit (validators d) order) ∧
    slashLog d' = slashLog d ++ (visit (validators d) order ≫= slash_events now) ∧
    ∀ i, validators d' !! i = slashed <$> validators d !! i.
Proof.
  intros Hd [Hn Ho].
  pose proof (slash_loop_spec now order d false Hd Hn) as Hl.
  unfold handleSlashingAndPenalties.
  destruct (foldl (slash_step now) (d, false) order) as [d' b].
  destruct Hl as (? & ? & -> & ? & Hm); [by intros i ?%Ho|].
  exists d', (false || existsb punished (visit (validators d) order)).
  split_and!; try done. intros i. rewrite Hm. case_decide as Hi; [done|].
  rewrite Ho in Hi. destruct (validators d !! i); [by destruct Hi|done].
Qed.

Lemma wf_with_epoch dur cur d : wf d → wf (with_epoch dur cur d).
Proof. by intros [[] ? ? ? ? ?]. Qed.

Lemma updateActive_wf' order d d' : wf d → iter_order (validators d) order →
  updateActiveValidators order d = Some d' → wf d'.
Proof. intros [[Hv Ht _] _ _ _ _ _]. by apply updateActive_wf. Qed.

Lemma iter_order_same_dom d d' (f : Validator → Validator) order :
  (∀ i, validators d' !! i = f <$> validators d !! i) →
  iter_order (validators d) order → iter_order (validators d') order.
Proof.
  intros Hm. apply iter_order_dom. intros i. by rewrite Hm, fmap_is_Some.
Qed.

Lemma ProcessEpoch_wf order1 order2 now bn d d' r : wf d →
  iter_order (validators d) order1 → iter_order (validators d) order2 →
  ProcessEpoch pow order1 order2 now bn d = Some (d', r) → wf d'.
Proof.
  intros Hd Ho1 Ho2. unfold ProcessEpoch. do 2 (case_match; [naive_solver|]).
  set (d1 := with_epoch _ _ d). assert (wf d1) as Hd1 by by apply wf_with_epoch.
  destruct (handleSlashing_spec order1 now d1 Hd1 Ho1)
    as (d2 & b & -> & Hd2 & _ & _ & _ & Hm).
  destruct (updateActiveValidators order2 d2) as [d3|] eqn:H3; [|done]. simpl.
  assert (wf d3) as Hd3.
  { eapply updateActive_wf'; [done| |done]. by eapply (iter_order_same_dom d1). }
  assert (Hgen : ∀ d4, wf d4 → wf (transitionToNextEpoch (updatePerformance pow now d4))).
  { intros d4 Hd4. unfold transitionToNextEpoch. apply wf_fmap_keys; [|done].
    apply wf_fmap_keys; [done|]. apply vkey_decay. }
  destruct b; [naive_solver|].
  destruct (distributeRewards d3) as [d4|] eqn:H4; [|done].
  simpl. intros [= <- _]. apply Hgen. by eapply distributeRewards_wf.
Qed.

Lemma dpos_step_wf d d' : wf d → dpos_step d d' → wf d'.
Proof.
  intros Hd. destruct 1 as [order now id stake d d' Hs Ho Ha|order id stake d d' Hs Ho Hu
    |order size d d' Ho Hs|dur d Hdur|o1 o2 now bn d d' r Hb Ho1 Ho2 Hp
    |now id d|id count d Hc|id t d].
  - eapply updateActive_wf; [| |done|done];
      apply (register_wf_base now id stake d Hd Hs).
  - unfold UpdateStake in Hu. destruct (validators d !! id) as [v|] eqn:Hv; [|naive_solver].
    destruct (UpdateStake_wf_base d id v stake Hd Hs Hv) as [Hb1 Hb2 _].
    eapply updateActive_wf; [done|done| |done]. simpl.
    eapply iter_order_dom; [|done]. intros j. rewrite lookup_insert_is_Some'.
    split; [naive_solver|]. intros [->|?]; [by eexists|done].
  - destruct Hd as [[? ? ?] ? ? ? ? ?]. by apply (updateActive_wf order (with_maxSetSize size d)).
  - unfold SetEpochDuration. case_match; [done|]. by apply wf_with_epoch.
  - by apply (ProcessEpoch_wf o1 o2 now bn d d' r).
  - unfold RewardValidator. destruct (validators d !! id) eqn:Hv; [|done].
    by eapply wf_insert_keys.
  - unfold InjectMisbehaviorCount. destruct (validators d !! id) eqn:Hv; [|done].
    by eapply wf_insert_keys.
  - unfold InjectLastUpdateTime. destruct (validators d !! id) eqn:Hv; [|done].
    by eapply wf_insert_keys.
Qed.

Lemma wf_NewDPoS size dur : 0 ≤ size → wf (NewDPoS size dur).
Proof.
  intros. split; [split|..]; simpl; try done; try (by intros i v; rewrite lookup_empty).
  - constructor.
  - set_solver.
Qed.
End system.

(** * Properties *)

(** What rebuilding the active set leaves alone. *)
Definition vkey_stake (v : Validator) : bytes32 * Z * f64 * Z * Z * Z :=
  (ID v, Stake v, Performance v, LastUpdateTime v, BlocksProduced v, MisbehaviorCount v).

(** Performances as epoch processing leaves them. *)
Definition perf_in_range (p : f64) : Prop :=
  f_is_nan p = false ∧ f_lt p (f_lit 1 1) = false ∧ f_lt f_one p = false.
Definition perf_ok (d : DPoS) : Prop :=
  ∀ i v, validators d !! i = Some v → perf_in_range (Performance v).

Definition perf_okb (d : DPoS) : bool :=
  forallb (λ v, bool_decide (perf_in_range (Performance v))) (map_to_list (validators d)).*2.

Lemma perf_okb_true d : perf_okb d = true → perf_ok d.
Proof.
  unfold perf_okb. rewrite forallb_forall. intros Hp i v Hv.
  eapply bool_decide_eq_true, Hp, list_elem_of_In, list_elem_of_fmap.
  exists (i, v). by rewrite elem_of_map_to_list.
Qed.

Lemma perf_finite p : perf_in_range p → f_finite_nonzero p = true.
Proof.
  intros (Hn & Hlo & Hhi). by destruct p as [[]|[]| |s m e].
Qed.

Lemma score_nan v : perf_in_range (Performance v) → f_is_nan (score v) = false.
Proof. intros Hp. apply f_mul_nan; [apply f_of_Z_nan|by apply perf_finite]. Qed.

Lemma score_before_ordered d order : perf_ok d → iter_order (validators d) order →
  ordered (score_before (validators d)) (sort_slice (score_before (validators d)) order).
Proof.
  intros Hp [_ Ho].
  apply (sort_slice_ordered _ (λ i, f_is_nan (score_of (validators d) i) = false)).
  - intros a b _ _. unfold score_before, f_gt. apply f_lt_asym.
  - intros a b c Ha Hb Hc. unfold score_before, f_gt. by apply f_nlt_trans.
  - apply Forall_forall. intros i [v Hv]%Ho. unfold score_of. rewrite Hv.
    eapply score_nan, Hp; done.
Qed.

(** C26: refinement of the active-set selection: on a consistent state with
    performances in range, rebuilding the active set succeeds whatever order
    the map is iterated in, re-establishes the whole invariant, activates
    exactly min(n, maxSetSize) validators, and no validator left out has a
    strictly higher score (stake times performance) than one selected. *)
Theorem updateActiveValidators_topk order d :
  wf_base d → perf_ok d → iter_order (validators d) order →
  ∃ d', updateActiveValidators order d = Some d' ∧ wf d' ∧
    Z.of_nat (length (activeValidators d')) =
      Z.min (Z.of_nat (size (validators d))) (maxSetSize d) ∧
    (∀ i, vkey_stake <$> validators d' !! i = vkey_stake <$> validators d !! i) ∧
    (∀ i j v w, validators d' !! i = Some v → validators d' !! j = Some w →
       IsActive v = true → IsActive w = false → f_gt (score w) (score v) = false).
Proof.
  intros Hb Hp Ho.
  destruct (updateActive_spec order d Hb Ho)
    as (d' & Hu & Hd' & Ha & _ & _ & _ & Hsz & _ & _ & Hm).
  exists d'. split_and!; try done.
  - rewrite Ha. unfold selection. rewrite length_take, length_sorted.
    assert (length order = size (validators d)) as ->.
    { rewrite (Permutation_length (iter_order_perm _ _ _ Ho (iter_order_default _))).
      by rewrite length_fmap, length_map_to_list. }
    pose proof (wfb_size d Hb). lia.
  - intros i. rewrite Hm. by destruct (validators d !! i).
  - intros i j v w Hi Hj Hv Hw. rewrite Hm in Hi, Hj.
    destruct (validators d !! i) as [v0|] eqn:Hi0; [|done].
    destruct (validators d !! j) as [w0|] eqn:Hj0; [|done]. simplify_eq/=.
    apply bool_decide_eq_true in Hv. apply bool_decide_eq_false in Hw.
    pose proof (score_before_ordered d order Hp Ho) as Hord.
    assert (j ∈ drop (Z.to_nat (maxSetSize d)) (sort_slice (score_before (validators d)) order)) as Hjd.
    { assert (j ∈ sort_slice (score_before (validators d)) order) as Hjs
        by (rewrite sort_slice_perm; apply Ho; by eexists).
      rewrite <- (take_drop (Z.to_nat (maxSetSize d))), elem_of_app in Hjs.
      by destruct Hjs. }
    pose proof (ordered_take_drop _ _ _ i j Hord Hv Hjd) as Hs.
    unfold score_before, score_of in Hs. by rewrite Hi0, Hj0 in Hs.
Qed.

Lemma decay_perf pow now v :
  (∀ h, f_is_nan h = false → f_is_nan (pow (f_lit 99 2) h) = false) →
  perf_in_range (Performance v) → perf_in_range (Performance (decay pow now v)).
Proof.
  intros Hpow Hp. unfold decay. case_match eqn:Hgt; [|done]. cbn [Performance set_Performance].
  apply f_clamp_range; [done|done| |done].
  apply f_mul_nan_l; [by apply perf_finite|]. apply Hpow.
  by destruct (dur_hours _).
Qed.

Lemma slashed_stake_le v : is_u64 (Stake v) →
  0 ≤ Stake (slashed v) ≤ Stake v.
Proof.
  intros Hs. pose proof (slash_penalty_range v Hs). unfold slashed, is_u64 in *.
  case_match; simpl; lia.
Qed.

Lemma active_sum_le d : wf d → active_sum d ≤ msum Stake (validators d).
Proof.
  intros Hd. apply visit_sum_le; [apply Hd|]. intros k v Hv.
  apply (wf_stake d k v Hd) in Hv. unfold is_u64 in Hv. lia.
Qed.

(** The end of [ProcessEpoch]: what decay and the reset do to a validator. *)
Definition epoch_end (pow : f64 → f64 → f64) (now : Z) (v : Validator) : Validator :=
  set_BlocksProduced 0 (decay pow now v).

Lemma epoch_end_validators pow now d i :
  validators (transitionToNextEpoch (updatePerformance pow now d)) !! i
  = epoch_end pow now <$> validators d !! i.
Proof. simpl. rewrite !lookup_fmap. by destruct (validators d !! i). Qed.

Lemma epoch_end_wf pow now d : wf d →
  wf (transitionToNextEpoch (updatePerformance pow now d)).
Proof.
  intros Hd. unfold transitionToNextEpoch. apply wf_fmap_keys; [|done].
  apply wf_fmap_keys; [done|]. apply vkey_decay.
Qed.

Lemma epoch_end_fields pow now v : Stake (epoch_end pow now v) = Stake v ∧
  MisbehaviorCount (epoch_end pow now v) = MisbehaviorCount v ∧
  BlocksProduced (epoch_end pow now v) = 0 ∧
  Performance (epoch_end pow now v) = Performance (decay pow now v).
Proof. unfold epoch_end, decay. by case_match. Qed.

Definition epoch_effect (slashedAny : bool) (v v' : Validator) : Prop :=
  Stake (slashed v) ≤ Stake v' ∧ (slashedAny = true → Stake v' = Stake (slashed v)) ∧
  Performance v' = Performance v ∧ MisbehaviorCount v' ≤ 0.

Lemma slashed_fields v :
  Performance (slashed v) = Performance v ∧ MisbehaviorCount (slashed v) ≤ 0.
Proof.
  unfold slashed. case_match eqn:Hc; simpl; [done|]. split; [done|]. by bool_to_prop.
Qed.

(** Slashing, re-selection and rewards together. *)
Lemma epoch_stakes order1 order2 now d : wf d →
  iter_order (validators d) order1 → iter_order (validators d) order2 →
  msum Stake (validators d) + 1000000 < 18446744073709551616 →
  ∃ d2 d3 d4, let b := existsb punished (visit (validators d) order1) in
    handleSlashingAndPenalties order1 now d = (d2, b) ∧
    updateActiveValidators order2 d2 = Some d3 ∧
    (if b then Some d3 else distributeRewards d3) = Some d4 ∧ wf d4 ∧
    currentEpoch d4 = currentEpoch d ∧
    slashLog d4 = slashLog d ++ (visit (validators d) order1 ≫= slash_events now) ∧
    ∀ i, option_Forall2 (epoch_effect b) (validators d !! i) (validators d4 !! i).
Proof.
  intros Hd Ho1 Ho2 Hmax.
  destruct (handleSlashing_spec order1 now d Hd Ho1)
    as (d2 & b & Hs2 & Hd2 & (Ha2 & He2 & Hc2 & Hx2) & Hb & Hl2 & Hm2).
  destruct (updateActive_spec order2 d2 Hd2)
    as (d3 & Hu3 & Hd3 & Ha3 & _ & He3 & Hc3 & Hx3 & Hl3 & _ & Hm3).
  { by apply (iter_order_same_dom d d2 slashed). }
  assert (Hm3' : ∀ i, validators d3 !! i = (λ v, set_IsActive
      (bool_decide (i ∈ selection order2 d2)) (slashed v)) <$> validators d !! i).
  { intros i. rewrite Hm3, Hm2. by destruct (validators d !! i). }
  assert (∃ d4, (if b then Some d3 else distributeRewards d3) = Some d4 ∧ wf d4 ∧
    currentEpoch d4 = currentEpoch d3 ∧ slashLog d4 = slashLog d3 ∧
    only_stake_grows d3 d4 ∧ (b = true → d4 = d3)) as (d4 & H4 & Hd4 & Hc4 & Hl4 & Hg4 & Hb4).
  { destruct b; [exists d3; split_and!; try done; apply only_stake_grows_refl|].
    assert (active_sum d3 ≤ msum Stake (validators d)) as Hs3.
    { etrans; [by apply active_sum_le|].
      rewrite (msum_ext _ _ (slashed <$> validators d)).
      - apply msum_fmap_le. intros k v Hv. pose proof (slashed_stake_le v (wf_stake d k v Hd Hv)). lia.
      - intros k. rewrite lookup_fmap, Hm3'. by destruct (validators d !! k). }
    pose proof (calculateTotalReward_range (currentEpoch d3)).
    destruct (distributeRewards_total d3 Hd3) as (d4 & ? & ? & (? & ? & ? & ?) & ? & ? & ? & ?);
      [lia|]. exists d4. split_and!; done. }
  exists d2, d3, d4. rewrite <- Hb. cbn zeta. split_and!; try done; try congruence.
  intros i. specialize (Hg4 i). rewrite Hm3' in Hg4.
  destruct (validators d !! i) as [v|] eqn:Hv; inversion Hg4 as [? v4 (s & -> & Hs) Heq Heq4|];
    simplify_eq; constructor.
  destruct (slashed_fields v) as [Hp Hc]. unfold epoch_effect. split_and!; try done.
  intros Hbt. apply Hb4 in Hbt. subst d4. rewrite Hm3', Hv in Heq4. 
  injection Heq4 as Heq4. by rewrite Heq4.
Qed.

(** C35: an epoch boundary, end to end.  With no [uint64] overflow in sight
    and performances in range, [ProcessEpoch] at a multiple of the epoch
    duration never fails or panics, whatever the two map iteration orders
    are: the epoch counter advances, every misbehaving validator is slashed
    (exactly the log entries of [slash_events] are appended, in visiting
    order) and its counter cleared, stakes then only grow by rewards, and
    not at all when anybody lost stake, performances stay in [0.1, 1] and
    the whole invariant holds again. *)
Theorem ProcessEpoch_boundary pow order1 order2 now bn d :
  (∀ h, f_is_nan h = false → f_is_nan (pow (f_lit 99 2) h) = false) →
  wf d → perf_ok d →
  iter_order (validators d) order1 → iter_order (validators d) order2 →
  epochDuration d ≠ 0 → bn mod epochDuration d = 0 →
  msum Stake (validators d) + 1000000 < 18446744073709551616 →
  ∃ d', ProcessEpoch pow order1 order2 now bn d = Some (d', Ok ()) ∧
    wf d' ∧ perf_ok d' ∧ currentEpoch d' = uadd (currentEpoch d) 1 ∧
    slashLog d' = slashLog d ++ (visit (validators d) order1 ≫= slash_events now) ∧
    (∀ i v, validators d !! i = Some v → ∃ v', validators d' !! i = Some v' ∧
       BlocksProduced v' = 0 ∧ MisbehaviorCount v' ≤ 0 ∧ Stake (slashed v) ≤ Stake v' ∧
       (existsb punished (visit (validators d) order1) = true →
        Stake v' = Stake (slashed v))).
Proof.
  intros Hpow Hd Hp Ho1 Ho2 Hdur Hbn Hmax. unfold ProcessEpoch.
  rewrite (proj2 (Z.eqb_neq _ _) Hdur), (proj2 (Z.eqb_eq _ _) Hbn). cbn [negb].
  set (d1 := with_epoch _ _ d). assert (wf d1) as Hd1 by by apply wf_with_epoch.
  destruct (epoch_stakes order1 order2 now d1 Hd1 Ho1 Ho2 Hmax)
    as (d2 & d3 & d4 & -> & -> & Hb4 & Hd4 & Hc4 & Hl4 & Heff).
  cbn [mbind option_bind]. rewrite Hb4. cbn [mbind option_bind].
  eexists. split; [done|]. split; [by apply epoch_end_wf|]. split_and!; [|done|done|].
  - intros i v Hv. rewrite epoch_end_validators in Hv. specialize (Heff i).
    change (validators d1) with (validators d) in Heff.
    destruct (validators d4 !! i) as [v4|]; simplify_eq/=.
    inversion Heff as [v0 w (_ & _ & Hpf & _) Hv0|]; simplify_eq.
    change (Performance (set_BlocksProduced 0 ?w)) with (Performance w).
    apply decay_perf; [done|]. rewrite Hpf. by apply (Hp i).
  - intros i v Hv. specialize (Heff i). change (validators d1) with (validators d) in Heff.
    rewrite Hv in Heff. inversion Heff as [w v4 (Hle & Heq & _ & Hc) Hw Hv4|]; simplify_eq.
    exists (epoch_end pow now v4). rewrite epoch_end_validators.
    rewrite <- Hv4. destruct (epoch_end_fields pow now v4) as (-> & -> & -> & _). done.
Qed.

(** rewards are bounded.  When stakes plus one epoch's reward fit in a
    [uint64], distribution cannot divide by zero and hands out at most
    [calculateTotalReward], although the product [totalReward * Stake] may
    wrap and the divisor changes during the loop; no validator loses stake,
    only active ones can gain, and the invariant is kept. *)
Theorem distributeRewards_bounded d : wf d →
  active_sum d + calculateTotalReward (currentEpoch d) < 18446744073709551616 →
  ∃ d', distributeRewards d = Some d' ∧ wf d' ∧
    activeValidators d' = activeValidators d ∧
    active_sum d ≤ active_sum d' ≤ active_sum d + calculateTotalReward (currentEpoch d) ∧
    only_stake_grows d d' ∧
    (∀ j, j ∉ activeValidators d → validators d' !! j = validators d !! j).
Proof.
  intros Hd Hmax. destruct (distributeRewards_total d Hd Hmax)
    as (d' & ? & ? & (? & _) & ? & _ & ? & ?). by exists d'.
Qed.

(** the producer of a block is always an active validator with its
    current stake, and there is none exactly when the active set is empty;
    the index computed from the hash never runs out of range. *)
Theorem GetNextValidator_spec bn h d : wf d →
  match GetNextValidator bn h d with
  | None => activeValidators d = []
  | Some (i, s) => i ∈ activeValidators d ∧ IsActiveValidator i d = true ∧
      ∃ v, validators d !! i = Some v ∧ Stake v = s
  end.
Proof.
  intros Hd. unfold GetNextValidator.
  destruct (activeValidators d) as [|a l] eqn:Ha; [done|]. rewrite <- Ha.
  set (n := Z.of_nat (length (activeValidators d))).
  assert (0 < n) as Hn by (unfold n; rewrite Ha; simpl; lia).
  assert (0 ≤ producer_index bn h n < n) as Hix.
  { unfold producer_index. by apply Z.mod_pos_bound. }
  destruct (lookup_lt_is_Some_2 (activeValidators d) (Z.to_nat (producer_index bn h n)))
    as [i Hi]; [unfold n in *; lia|].
  rewrite Hi. simpl. assert (i ∈ activeValidators d) as Hin by by eapply list_elem_of_lookup_2.
  destruct (wf_dom d Hd i Hin) as [v Hv]. rewrite Hv. simpl.
  destruct (wfb_val d Hd i v Hv) as [-> _]. split_and!; [done| |eauto].
  unfold IsActiveValidator. by rewrite Hv, (wf_flag d Hd i v Hv), bool_decide_true.
Qed.

(** ** What modelling showed *)

(** [GetValidatorStake] answers the average stake, the same for every active
    validator, not the stake of the validator asked for. *)
Lemma GetValidatorStake_is_average i j d :
  IsActiveValidator i d = true → IsActiveValidator j d = true →
  GetValidatorStake i d = GetValidatorStake j d.
Proof.
  unfold IsActiveValidator, GetValidatorStake.
  destruct (validators d !! i) as [v|]; [|done]. destruct (validators d !! j) as [w|]; [|done].
  by intros -> ->.
Qed.

(** Rewards do not shrink as epochs pass: the second epoch pays 10000 times
    the first. *)
Example calculateTotalReward_grows :
  calculateTotalReward 1 = 100 ∧ calculateTotalReward 2 = 1000000.
Proof. done. Qed.

(** ** A concrete state *)

Definition val_a : bytes32 := copy32 [byte_of_Z 1].
Definition val_b : bytes32 := copy32 [byte_of_Z 2].
Definition val_c : bytes32 := copy32 [byte_of_Z 3].

Definition add_sample (d : DPoS) (id : bytes32) (s : Z) : DPoS :=
  let r := register 0 id s d in
  default d (updateActiveValidators (map_to_list (validators r)).*1 r).

Definition dpos_sample : DPoS :=
  add_sample (add_sample (add_sample (NewDPoS 2 10) val_a 50) val_b 50) val_c 20.

Definition dpos_sample_bad : DPoS := InjectMisbehaviorCount val_c 3 dpos_sample.

Lemma add_sample_reach pow d id s : is_u64 s → wf d →
  star (dpos_step pow) d (add_sample d id s).
Proof.
  intros Hs Hd.
  destruct (updateActive_spec (map_to_list (validators (register 0 id s d))).*1
    (register 0 id s d)) as (d' & Hd' & _); [apply register_wf_base; [apply Hd|done]|apply iter_order_default|].
  unfold add_sample. cbn zeta. rewrite Hd'. simpl.
  eapply star_snoc; [constructor|]. eapply step_AddValidator; [done| |exact Hd'].
  apply iter_order_default.
Qed.

Lemma add_sample_wf d id s : is_u64 s → wf d → wf (add_sample d id s).
Proof.
  intros Hs Hd. pose (pow := λ x _ : f64, x).
  eapply (star_invariant (dpos_step pow)); [apply dpos_step_wf|exact Hd|by apply add_sample_reach].
Qed.

Lemma dpos_sample_wf : wf dpos_sample.
Proof.
  unfold dpos_sample. repeat (apply add_sample_wf; [by vm_compute|]). by apply wf_NewDPoS.
Qed.

Lemma dpos_sample_bad_wf : wf dpos_sample_bad.
Proof.
  eapply (dpos_step_wf (λ x _, x)); [apply dpos_sample_wf|]. apply step_InjectMisbehaviorCount.
  by vm_compute.
Qed.

Lemma updateActiveValidators_topk_witness :
  IsActiveValidator val_c dpos_sample = false ∧
  ∃ d', updateActiveValidators [val_c; val_a; val_b] dpos_sample = Some d' ∧ wf d' ∧
    Z.of_nat (length (activeValidators d')) =
      Z.min (Z.of_nat (size (validators dpos_sample))) (maxSetSize dpos_sample) ∧
    (∀ i, vkey_stake <$> validators d' !! i = vkey_stake <$> validators dpos_sample !! i) ∧
    (∀ i j v w, validators d' !! i = Some v → validators d' !! j = Some w →
       IsActive v = true → IsActive w = false → f_gt (score w) (score v) = false).
Proof.
  split; [by vm_compute|].
  apply (updateActiveValidators_topk [val_c; val_a; val_b] dpos_sample).
  - apply dpos_sample_wf.
  - by apply perf_okb_true; vm_compute.
  - solve_order.
Defined.

Lemma ProcessEpoch_boundary_witness :
  existsb punished (visit (validators dpos_sample_bad) [val_c; val_a; val_b]) = false ∧
  ∃ d', ProcessEpoch (λ x _, x) [val_c; val_a; val_b] [val_a; val_b; val_c] (hour * 2) 20
      dpos_sample_bad = Some (d', Ok ()) ∧
    wf d' ∧ perf_ok d' ∧ currentEpoch d' = uadd (currentEpoch dpos_sample_bad) 1 ∧
    slashLog d' = slashLog dpos_sample_bad
      ++ (visit (validators dpos_sample_bad) [val_c; val_a; val_b] ≫= slash_events (hour * 2)) ∧
    (∀ i v, validators dpos_sample_bad !! i = Some v → ∃ v', validators d' !! i = Some v' ∧
       BlocksProduced v' = 0 ∧ MisbehaviorCount v' ≤ 0 ∧ Stake (slashed v) ≤ Stake v' ∧
       (existsb punished (visit (validators dpos_sample_bad) [val_c; val_a; val_b]) = true →
        Stake v' = Stake (slashed v))).
Proof.
  split; [by vm_compute|].
  apply (ProcessEpoch_boundary (λ x _, x) [val_c; val_a; val_b] [val_a; val_b; val_c]).
  - done.
  - apply dpos_sample_bad_wf.
  - by apply perf_okb_true; vm_compute.
  - solve_order.
  - solve_order.
  - by vm_compute.
  - by vm_compute.
  - by vm_compute.
Defined.

Lemma distributeRewards_bounded_witness :
  active_sum dpos_sample = 100 ∧
  ∃ d', distributeRewards dpos_sample = Some d' ∧ wf d' ∧
    activeValidators d' = activeValidators dpos_sample ∧
    active_sum dpos_sample ≤ active_sum d'
      ≤ active_sum dpos_sample + calculateTotalReward (currentEpoch dpos_sample) ∧
    only_stake_grows dpos_sample d' ∧
    (∀ j, j ∉ activeValidators dpos_sample →
       validators d' !! j = validators dpos_sample !! j).
Proof.
  split; [by vm_compute|].
  apply (distributeRewards_bounded dpos_sample); [apply dpos_sample_wf|by vm_compute].
Defined.

(** Two validators with equal stakes get 50 and 33: the divisor grows while
    the rewards are handed out. *)
Example rewards_unequal :
  (λ d, GetValidators [val_a; val_b] d) <$> distributeRewards dpos_sample
  = Some [(val_a, 83); (val_b, 100)].
Proof. by vm_compute. Qed.

Lemma GetNextValidator_spec_witness :
  is_Some (GetNextValidator 7 zero32 dpos_sample) ∧
  match GetNextValidator 7 zero32 dpos_sample with
  | None => activeValidators dpos_sample = []
  | Some (i, s) => i ∈ activeValidators dpos_sample ∧ IsActiveValidator i dpos_sample = true ∧
      ∃ v, validators dpos_sample !! i = Some v ∧ Stake v = s
  end.
Proof.
  split; [by vm_compute; eexists|].
  apply (GetNextValidator_spec 7 zero32 dpos_sample), dpos_sample_wf.
Defined.
