(* ===== verification/Common.v ===== *)
(** * Transactions and blocks: src/common/common.go

    The data every other package shares, with its validation and hashing.
    [Metadata] and the other [interface{}]-valued fields are not modelled.
    A nil slice and an empty one are the same list: the code only looks at
    their length. *)
From Stdlib Require Import ZArith Lia SpecFloat.
From Stdlib Require Import Strings.Byte Strings.String.
From stdpp Require Import numbers prelude pretty strings.
From S2P Require Import Prelude GoFloat Bytes Sha256.
Open Scope Z_scope.

Record Transaction := mkTx {
  tx_ID : string;
  tx_Sender : string;
  tx_Receiver : string;
  tx_Amount : f64;
  tx_Timestamp : Z;
  tx_Signature : list byte;
  tx_Priority : Z;
  tx_Fee : f64;
  tx_ExpiryTime : Z;
  tx_SmartContractID : string;
  tx_Data : list byte;
  tx_Nonce : Z;
  tx_SignerID : string;
  tx_BlockHeight : Z;
  tx_Status : string }.

#[export] Instance spec_float_eq_dec : EqDecision f64.
Proof. solve_decision. Defined.
#[export] Instance Transaction_eq_dec : EqDecision Transaction.
Proof. solve_decision. Defined.

(** The sentinel errors of the package, and those its functions build. *)
Inductive CommonError :=
| ErrAccountNotFound
| ErrInsufficientFunds
| ErrAccountExists
| ErrAmountNotPositive
| ErrFeeNegative
| ErrNoSenderOrReceiver
| ErrTransactionExpired
| ErrBlockNumber
| ErrBlockTimestamp
| ErrBlockHashEmpty
| ErrPreviousBlockRequired
| ErrPreviousHashMismatch
| ErrNotSequential
| ErrBlockTransaction (e : CommonError)
| ErrEmptyAccountID
| ErrNoPublicKey
| ErrNegativeBalance
| ErrNegativeNonce
| ErrStakeNotPositive
| ErrUnstakeNotPositive
| ErrInsufficientStake
| ErrKeyLength
| ErrEmptyPrivateKey
| ErrEmptyCiphertext
| ErrCiphertextTooShort
| ErrNonceGeneration
| ErrOpenFailed
| ErrEmptyHexKey
| ErrHexKey
| ErrNoEncryptedKey
| ErrNilAccount
| ErrExceedsTotalSupply
| ErrInvalidAmount
| ErrTreasuryNotFound
| ErrBurnAccountNotFound
| ErrAccountIDNotFound (id : string)
| ErrEmptyPublicKey.

#[export] Instance CommonError_eq_dec : EqDecision CommonError.
Proof. solve_decision. Defined.

(** [tx.Validate()]; [now] is the current Unix time. *)
Definition tx_Validate (now : Z) (tx : Transaction) : result CommonError () :=
  if f_le (tx_Amount tx) f_zero then Err ErrAmountNotPositive
  else if f_lt (tx_Fee tx) f_zero then Err ErrFeeNegative
  else if bool_decide (tx_Sender tx = EmptyString) || bool_decide (tx_Receiver tx = EmptyString)
  then Err ErrNoSenderOrReceiver
  else if (0 <? tx_ExpiryTime tx) && (tx_ExpiryTime tx <? now) then Err ErrTransactionExpired
  else Ok ().

Definition ValidateTransaction (now : Z) (tx : Transaction) : result CommonError () :=
  tx_Validate now tx.

Record Block := mkBlock {
  bk_Number : Z;
  bk_PreviousHash : string;
  bk_Hash : string;
  bk_Transactions : list Transaction;
  bk_Timestamp : Z;
  bk_Validator : string;
  bk_ShardID : string;
  bk_DataCluster : string;
  bk_MerkleRoot : string;
  bk_Data : list byte;
  bk_Checksum : list byte;
  bk_SignerPublicKey : list byte;
  bk_Signature : list byte }.

(** The loop over the block's transactions: the first failure is returned. *)
Fixpoint validate_txs (now : Z) (txs : list Transaction) : result CommonError () :=
  match txs with
  | [] => Ok ()
  | tx :: txs =>
      match tx_Validate now tx with
      | Err e => Err (ErrBlockTransaction e)
      | Ok _ => validate_txs now txs
      end
  end.

(** [b.Validate(previousBlock)]; [None] is the nil pointer. *)
Definition block_Validate (now : Z) (previousBlock : option Block) (b : Block) :
    result CommonError () :=
  if bk_Number b <=? 0 then Err ErrBlockNumber
  else if bk_Timestamp b <=? 0 then Err ErrBlockTimestamp
  else if (String.length (bk_Hash b) =? 0)%nat then Err ErrBlockHashEmpty
  else
    let link :=
      if 1 <? bk_Number b then
        match previousBlock with
        | None => Err ErrPreviousBlockRequired
        | Some p =>
            if negb (bool_decide (bk_PreviousHash b = bk_Hash p)) then Err ErrPreviousHashMismatch
            else if negb (bk_Number b =? i64 (bk_Number p + 1)) then Err ErrNotSequential
            else Ok ()
        end
      else Ok () in
    match link with
    | Err e => Err e
    | Ok _ => validate_txs now (bk_Transactions b)
    end.

(** ** Hashing *)

(** [fmt.Sprintf("%x", b)]. *)
Definition hex_string (l : list byte) : string := string_of_list_byte (hex_encode l).

Definition HashData (data : list byte) : string := hex_string (b32 (sha256 data)).

(** [t] is the clock reading in nanoseconds. *)
Definition GenerateUniqueID (t : Z) : string :=
  hex_string (take 16 (b32 (sha256 (list_byte_of_string (pretty t))))).

Section hashing.
(** [fmt.Sprintf("%.8f", x)]. *)
Variable fmt8 : f64 → string.

Definition tx_hash_input (tx : Transaction) : string :=
  tx_ID tx +:+ ":" +:+ tx_Sender tx +:+ ":" +:+ tx_Receiver tx +:+ ":" +:+
  fmt8 (tx_Amount tx) +:+ ":" +:+ pretty (tx_Timestamp tx).

Definition HashTransactions (txs : list Transaction) : string :=
  match txs with
  | [] => EmptyString
  | _ =>
      let combined := foldl (λ c tx, c +:+ tx_hash_input tx) EmptyString txs in
      hex_string (b32 (sha256 (list_byte_of_string combined)))
  end.

Definition ComputeBlockHash (block : Block) : string :=
  let data := pretty (bk_Number block) +:+ ":" +:+ bk_PreviousHash block +:+ ":" +:+
    pretty (bk_Timestamp block) +:+ ":" +:+ bk_MerkleRoot block +:+ ":" +:+
    HashTransactions (bk_Transactions block) in
  hex_string (b32 (sha256 (list_byte_of_string data))).
End hashing.

(** * Facts *)

Lemma validate_txs_ok now txs :
  validate_txs now txs = Ok () ↔ Forall (λ tx, tx_Validate now tx = Ok ()) txs.
Proof.
  induction txs as [|tx txs IH]; simpl; [by split|]. rewrite Forall_cons, <- IH.
  destruct (tx_Validate now tx) as [[]|e]; split; naive_solver.
Qed.

Lemma tx_Validate_ok now tx : tx_Validate now tx = Ok () ↔
  f_le (tx_Amount tx) f_zero = false ∧ f_lt (tx_Fee tx) f_zero = false ∧
  tx_Sender tx ≠ EmptyString ∧ tx_Receiver tx ≠ EmptyString ∧
  (tx_ExpiryTime tx ≤ 0 ∨ now ≤ tx_ExpiryTime tx).
Proof.
  unfold tx_Validate.
  destruct (f_le _ _); [naive_solver|]. destruct (f_lt _ _); [naive_solver|].
  repeat case_bool_decide; simpl; try naive_solver.
  destruct (Z.ltb_spec 0 (tx_ExpiryTime tx)); simpl; [|naive_solver lia].
  destruct (Z.ltb_spec (tx_ExpiryTime tx) now); naive_solver lia.
Qed.

(** A chain, newest block first, every block validated against the one
    before it. *)
Fixpoint valid_chain (now : Z) (bs : list Block) : Prop :=
  match bs with
  | [] => True
  | b :: bs => block_Validate now (head bs) b = Ok () ∧ valid_chain now bs
  end.

Lemma block_Validate_ok now prev b : block_Validate now prev b = Ok () →
  0 < bk_Number b ∧ Forall (λ tx, tx_Validate now tx = Ok ()) (bk_Transactions b) ∧
  (1 < bk_Number b → ∃ p, prev = Some p ∧ bk_PreviousHash b = bk_Hash p ∧
     bk_Number b = i64 (bk_Number p + 1)).
Proof.
  unfold block_Validate. intros Hv.
  destruct (Z.leb_spec (bk_Number b) 0); [done|].
  destruct (bk_Timestamp b <=? 0); [done|].
  destruct (String.length (bk_Hash b) =? 0)%nat; [done|]. split; [done|].
  destruct (Z.ltb_spec 1 (bk_Number b)).
  - destruct prev as [p|]; [|done]. case_bool_decide; [|done]. simpl in Hv.
    destruct (Z.eqb_spec (bk_Number b) (i64 (bk_Number p + 1))); [|done]. simpl in Hv.
    split; [by apply validate_txs_ok in Hv|eauto].
  - split; [by apply validate_txs_ok in Hv|lia].
Qed.

Lemma i64_succ_big n : is_i64 n → 0 < n → 1 < i64 (n + 1) → i64 (n + 1) = n + 1.
Proof.
  intros Hn H0 H1. destruct (decide (n + 1 < 9223372036854775808)).
  - apply i64_small. unfold is_i64 in *. lia.
  - unfold is_i64 in Hn. replace n with 9223372036854775807 in H1 by lia. by vm_compute in H1.
Qed.

(** * Properties *)

(** block validation yields a well-numbered, hash-linked chain.  In a
    list of blocks, newest first, each validated against the one below it,
    the newest block's number [n] is witnessed by [n] blocks numbered
    [n, n-1, ..., 1], each naming the hash of the next, and all their
    transactions are valid. *)
Theorem valid_chain_numbering now bs b0 :
  valid_chain now bs → Forall (λ b, is_i64 (bk_Number b)) bs → head bs = Some b0 →
  ∀ k, 0 ≤ k < bk_Number b0 →
    ∃ b, bs !! Z.to_nat k = Some b ∧ bk_Number b = bk_Number b0 - k ∧
      Forall (λ tx, tx_Validate now tx = Ok ()) (bk_Transactions b) ∧
      (k + 1 < bk_Number b0 → ∃ p, bs !! Z.to_nat (k + 1) = Some p ∧
         bk_PreviousHash b = bk_Hash p).
Proof.
  revert b0. induction bs as [|b bs IH]; intros b0 Hv Hi Hh k Hk; [done|].
  destruct Hv as [Hb Hv]. apply Forall_cons in Hi as [_ Hi]. simplify_eq/=.
  destruct (block_Validate_ok now _ _ Hb) as (Hpos & Htx & Hlink).
  destruct (decide (bk_Number b0 = 1)) as [H1|H1].
  { exists b0. replace k with 0 by lia. split_and!; [done|lia|done|lia]. }
  destruct Hlink as (p & Hp & Hh & Hn); [lia|].
  assert (bk_Number b0 = bk_Number p + 1) as Hn'.
  { destruct bs as [|p' bs]; simplify_eq/=. apply Forall_cons in Hi as [Hip _].
    destruct Hv as [Hpv _]. apply block_Validate_ok in Hpv as [Hpp _].
    rewrite Hn. apply i64_succ_big; [done|done|lia]. }
  destruct (decide (k = 0)) as [->|Hk0].
  - exists b0. split_and!; [done|lia|done|]. intros _. exists p.
    split; [|done]. by destruct bs.
  - destruct (IH p Hv Hi Hp (k - 1)) as (c & Hc & Hcn & Hct & Hcl); [lia|].
    exists c. replace (Z.to_nat k) with (S (Z.to_nat (k - 1))) by lia.
    replace (Z.to_nat (k + 1)) with (S (Z.to_nat (k - 1 + 1))) by lia. simpl.
    split_and!; [done|lia|done|]. intros Hk1. apply Hcl. lia.
Qed.

(** ** Concrete blocks *)

Definition tx_sample (sender receiver : string) : Transaction :=
  mkTx "t1" sender receiver (f_of_Z 5) 7 [] 0 f_zero 0 "" [] 0 "" 0 "pending".
Definition block_sample (n : Z) (prev hash : string) : Block :=
  mkBlock n prev hash [tx_sample "alice" "bob"] 10 "v" "" "" "" [] [] [] [].

Lemma valid_chain_numbering_witness :
  let bs := [block_sample 2 "h1" "h2"; block_sample 1 "" "h1"] in
  ∃ b, bs !! Z.to_nat 1 = Some b ∧ bk_Number b = 2 - 1 ∧
      Forall (λ tx, tx_Validate 100 tx = Ok ()) (bk_Transactions b) ∧
      (1 + 1 < 2 → ∃ p, bs !! Z.to_nat (1 + 1) = Some p ∧ bk_PreviousHash b = bk_Hash p).
Proof.
  intros bs. apply (valid_chain_numbering 100 bs (block_sample 2 "h1" "h2")).
  - by repeat split.
  - repeat constructor; by vm_compute.
  - done.
  - simpl. lia.
Defined.

(** The fields are joined by colons that may also occur inside them: two
    different transactions have the same hash. *)
Example HashTransactions_ambiguous fmt8 :
  tx_sample "a:b" "c" ≠ tx_sample "a" "b:c" ∧
  HashTransactions fmt8 [tx_sample "a:b" "c"] = HashTransactions fmt8 [tx_sample "a" "b:c"].
Proof. split; [done|]. unfold HashTransactions. simpl foldl. do 4 f_equal. Qed.
