(* ===== verification/Accounts.v ===== *)
(** * Accounts: src/common/accounts.go and the account store of common.go

    The global map [accounts] holds pointers; [RegisterAccount] stores an
    account under its own identifier and never replaces an entry, so an
    account is represented by the value stored under its identifier.  The
    AEAD of [crypto/cipher] (AES-256-GCM) is a pair of functions with the
    law that opening undoes sealing. *)
From Stdlib Require Import ZArith Lia SpecFloat.
From Stdlib Require Import Strings.Byte Strings.String.
From stdpp Require Import numbers prelude gmap strings.
From S2P Require Import Prelude GoFloat Maps Bytes Sha256 Common.
Open Scope Z_scope.

Record Account := mkAccount {
  acc_ID : string;
  acc_PublicKey : list byte;
  acc_EncryptedPrivateKey : list byte;
  acc_Balance : f64;
  acc_MultiSig : bool;
  acc_HDWalletKey : string;
  acc_Role : string;
  acc_KYCStatus : bool;
  acc_VotingWeight : Z;
  acc_Nonce : Z;
  acc_CreatedAt : Z;
  acc_LastActive : Z;
  acc_StakedAmount : f64;
  acc_DelegatedValidator : string }.

Definition with_Balance (b : f64) (a : Account) : Account :=
  mkAccount (acc_ID a) (acc_PublicKey a) (acc_EncryptedPrivateKey a) b (acc_MultiSig a)
    (acc_HDWalletKey a) (acc_Role a) (acc_KYCStatus a) (acc_VotingWeight a) (acc_Nonce a)
    (acc_CreatedAt a) (acc_LastActive a) (acc_StakedAmount a) (acc_DelegatedValidator a).
Definition with_PublicKey (k : list byte) (a : Account) : Account :=
  mkAccount (acc_ID a) k (acc_EncryptedPrivateKey a) (acc_Balance a) (acc_MultiSig a)
    (acc_HDWalletKey a) (acc_Role a) (acc_KYCStatus a) (acc_VotingWeight a) (acc_Nonce a)
    (acc_CreatedAt a) (acc_LastActive a) (acc_StakedAmount a) (acc_DelegatedValidator a).
Definition with_EncryptedPrivateKey (k : list byte) (a : Account) : Account :=
  mkAccount (acc_ID a) (acc_PublicKey a) k (acc_Balance a) (acc_MultiSig a)
    (acc_HDWalletKey a) (acc_Role a) (acc_KYCStatus a) (acc_VotingWeight a) (acc_Nonce a)
    (acc_CreatedAt a) (acc_LastActive a) (acc_StakedAmount a) (acc_DelegatedValidator a).
Definition with_Nonce (n : Z) (a : Account) : Account :=
  mkAccount (acc_ID a) (acc_PublicKey a) (acc_EncryptedPrivateKey a) (acc_Balance a)
    (acc_MultiSig a) (acc_HDWalletKey a) (acc_Role a) (acc_KYCStatus a) (acc_VotingWeight a)
    n (acc_CreatedAt a) (acc_LastActive a) (acc_StakedAmount a) (acc_DelegatedValidator a).
Definition with_LastActive (t : Z) (a : Account) : Account :=
  mkAccount (acc_ID a) (acc_PublicKey a) (acc_EncryptedPrivateKey a) (acc_Balance a)
    (acc_MultiSig a) (acc_HDWalletKey a) (acc_Role a) (acc_KYCStatus a) (acc_VotingWeight a)
    (acc_Nonce a) (acc_CreatedAt a) t (acc_StakedAmount a) (acc_DelegatedValidator a).
Definition with_Staked (s : f64) (a : Account) : Account :=
  mkAccount (acc_ID a) (acc_PublicKey a) (acc_EncryptedPrivateKey a) (acc_Balance a)
    (acc_MultiSig a) (acc_HDWalletKey a) (acc_Role a) (acc_KYCStatus a) (acc_VotingWeight a)
    (acc_Nonce a) (acc_CreatedAt a) (acc_LastActive a) s (acc_DelegatedValidator a).

(** The zero value of the struct, with an identifier and a balance. *)
Definition blank_account (id : string) (pk : list byte) (bal : f64) (created active : Z) :
    Account :=
  mkAccount id pk [] bal false "" "" false 0 0 created active f_zero "".

(** ** Methods of an account *)

Definition acc_Validate (a : Account) : result CommonError () :=
  if bool_decide (acc_ID a = EmptyString) then Err ErrEmptyAccountID
  else if (length (acc_PublicKey a) =? 0)%nat then Err ErrNoPublicKey
  else if f_lt (acc_Balance a) f_zero then Err ErrNegativeBalance
  else if acc_Nonce a <? 0 then Err ErrNegativeNonce
  else Ok ().

Definition GetBalance (a : Account) : f64 := acc_Balance a.

Definition IncrementNonce (a : Account) : Account * Z :=
  let n := i64 (acc_Nonce a + 1) in (with_Nonce n a, n).

Definition UpdateBalance (now : Z) (amount : f64) (a : Account) :
    Account * result CommonError () :=
  if f_lt (f_add (acc_Balance a) amount) f_zero then (a, Err ErrInsufficientFunds)
  else (with_LastActive now (with_Balance (f_add (acc_Balance a) amount) a), Ok ()).

Definition Stake (amount : f64) (a : Account) : Account * result CommonError () :=
  if f_le amount f_zero then (a, Err ErrStakeNotPositive)
  else if f_lt (acc_Balance a) amount then (a, Err ErrInsufficientFunds)
  else (with_Staked (f_add (acc_StakedAmount a) amount)
          (with_Balance (f_sub (acc_Balance a) amount) a), Ok ()).

Definition Unstake (amount : f64) (a : Account) : Account * result CommonError () :=
  if f_le amount f_zero then (a, Err ErrUnstakeNotPositive)
  else if f_lt (acc_StakedAmount a) amount then (a, Err ErrInsufficientStake)
  else (with_Balance (f_add (acc_Balance a) amount)
          (with_Staked (f_sub (acc_StakedAmount a) amount) a), Ok ()).

Definition Clone (a : Account) : Account :=
  mkAccount (acc_ID a) (acc_PublicKey a) (acc_EncryptedPrivateKey a) (acc_Balance a)
    (acc_MultiSig a) (acc_HDWalletKey a) (acc_Role a) (acc_KYCStatus a) (acc_VotingWeight a)
    (acc_Nonce a) (acc_CreatedAt a) (acc_LastActive a) (acc_StakedAmount a)
    (acc_DelegatedValidator a).

Definition NewAccount (now : Z) (id : string) (publicKey : list byte) :
    result CommonError Account :=
  if bool_decide (id = EmptyString) then Err ErrEmptyAccountID
  else if (length publicKey =? 0)%nat then Err ErrEmptyPublicKey
  else Ok (blank_account id publicKey f_zero now now).

(** ** Private keys at rest *)

Section keys.
(** [Seal] and [Open] of AES-256-GCM: key, nonce, text. *)
Variable seal : list byte → list byte → list byte → list byte.
Variable open_ : list byte → list byte → list byte → option (list byte).

Definition NonceSize : nat := 12.

(** [nonce] is what the random source delivers, [None] its failure. *)
Definition EncryptPrivateKey (nonce : option (list byte)) (plain key : list byte) :
    result CommonError (list byte) :=
  if negb (length key =? 32)%nat then Err ErrKeyLength
  else if (length plain =? 0)%nat then Err ErrEmptyPrivateKey
  else match nonce with
       | None => Err ErrNonceGeneration
       | Some n => Ok (n ++ seal key n plain)
       end.

Definition DecryptPrivateKey (ciphertext key : list byte) : result CommonError (list byte) :=
  if negb (length key =? 32)%nat then Err ErrKeyLength
  else if (length ciphertext =? 0)%nat then Err ErrEmptyCiphertext
  else if (length ciphertext <? NonceSize)%nat then Err ErrCiphertextTooShort
  else match open_ key (take NonceSize ciphertext) (drop NonceSize ciphertext) with
       | None => Err ErrOpenFailed
       | Some plain => Ok plain
       end.

Definition SetPrivateKey (nonce : option (list byte)) (plain : list byte) (hexKey : string)
    (a : Account) : Account * result CommonError () :=
  if (length plain =? 0)%nat then (a, Err ErrEmptyPrivateKey)
  else if bool_decide (hexKey = EmptyString) then (a, Err ErrEmptyHexKey)
  else match hex_decode (list_byte_of_string hexKey) with
       | None => (a, Err ErrHexKey)
       | Some key =>
           match EncryptPrivateKey nonce plain key with
           | Err e => (a, Err e)
           | Ok encrypted => (with_EncryptedPrivateKey encrypted a, Ok ())
           end
       end.

Definition GetDecryptedPrivateKey (hexKey : string) (a : Account) :
    result CommonError (list byte) :=
  if bool_decide (hexKey = EmptyString) then Err ErrEmptyHexKey
  else if (length (acc_EncryptedPrivateKey a) =? 0)%nat then Err ErrNoEncryptedKey
  else match hex_decode (list_byte_of_string hexKey) with
       | None => Err ErrHexKey
       | Some key => DecryptPrivateKey (acc_EncryptedPrivateKey a) key
       end.
End keys.

(** ** The account store *)

Abbreviation accounts_map := (gmap string Account).

Definition SetAccountBalance (id : string) (balance : f64) (m : accounts_map) :
    accounts_map * result CommonError () :=
  if bool_decide (id = EmptyString) then (m, Err ErrEmptyAccountID)
  else match m !! id with
       | None => (<[id := blank_account id [] balance 0 0]> m, Ok ())
       | Some acc => (<[id := with_Balance balance acc]> m, Ok ())
       end.

Definition SetPublicKey (id : string) (pubKey : list byte) (m : accounts_map) :
    accounts_map * result CommonError () :=
  if bool_decide (id = EmptyString) then (m, Err ErrEmptyAccountID)
  else if (length pubKey =? 0)%nat then (m, Err ErrEmptyPublicKey)
  else match m !! id with
       | None => (<[id := blank_account id pubKey f_zero 0 0]> m, Ok ())
       | Some acc => (<[id := with_PublicKey pubKey acc]> m, Ok ())
       end.

Definition CheckAccountBalance (id : string) (amount : f64) (m : accounts_map) : bool :=
  if f_lt amount f_zero then false
  else match m !! id with
       | None => false
       | Some acc => f_ge (acc_Balance acc) amount
       end.

Definition GetAccount (id : string) (m : accounts_map) : option Account := m !! id.

Definition GetPublicKey (id : string) (m : accounts_map) : result CommonError (list byte) :=
  match m !! id with
  | None => Err (ErrAccountIDNotFound id)
  | Some acc => Ok (acc_PublicKey acc)
  end.

Definition UpdateAccountBalance (id : string) (amount : f64) (m : accounts_map) :
    accounts_map * result CommonError () :=
  match m !! id with
  | None => (m, Err ErrAccountNotFound)
  | Some acc =>
      if f_lt (f_add (acc_Balance acc) amount) f_zero then (m, Err ErrInsufficientFunds)
      else (<[id := with_Balance (f_add (acc_Balance acc) amount) acc]> m, Ok ())
  end.

Definition RegisterAccount (ac : option Account) (m : accounts_map) :
    accounts_map * result CommonError () :=
  match ac with
  | None => (m, Err ErrNilAccount)
  | Some ac =>
      if bool_decide (acc_ID ac = EmptyString) then (m, Err ErrEmptyAccountID)
      else match m !! acc_ID ac with
           | Some _ => (m, Err ErrAccountExists)
           | None => (<[acc_ID ac := ac]> m, Ok ())
           end
  end.

Definition GetAllAccounts (m : accounts_map) : accounts_map :=
  (λ acc, with_Nonce (acc_Nonce acc)
     (blank_account (acc_ID acc) (acc_PublicKey acc) (acc_Balance acc) 0 0)) <$> m.

Definition ClearAllAccounts (m : accounts_map) : accounts_map := ∅.

(** * Properties *)

(** private keys at rest.  What [SetPrivateKey] accepted is recovered by
    [GetDecryptedPrivateKey] with the same hexadecimal key, and nothing but
    the encrypted key field of the account changed; a key that is not 32
    bytes of hexadecimal is never accepted. *)
Theorem SetPrivateKey_roundtrip seal open_ nonce plain hexKey a a' :
  (∀ k n p, open_ k n (seal k n p) = Some p) →
  length nonce = NonceSize →
  SetPrivateKey seal (Some nonce) plain hexKey a = (a', Ok ()) →
  GetDecryptedPrivateKey open_ hexKey a' = Ok plain ∧
  a' = with_EncryptedPrivateKey (acc_EncryptedPrivateKey a') a ∧
  ∃ key, hex_decode (list_byte_of_string hexKey) = Some key ∧ length key = 32%nat.
Proof.
  intros Hopen Hn. unfold SetPrivateKey, GetDecryptedPrivateKey.
  case_match eqn:Hp; [done|]. case_bool_decide; [done|].
  destruct (hex_decode _) as [key|]; [|done]. unfold EncryptPrivateKey.
  destruct (length key =? 32)%nat eqn:Hk; [|done]. simpl.
  rewrite Hp. intros [= <-]. simpl.
  split; [|split; [done|]]; [|exists key; by rewrite <- Nat.eqb_eq].
  rewrite length_app, Hn. simpl. unfold DecryptPrivateKey. rewrite Hk. simpl.
  rewrite length_app, Hn. simpl. rewrite <- Hn, take_app_length, drop_app_length.
  by rewrite Hopen.
Qed.

Lemma f_le_exact_0 x : exact_int x → f_le (f_of_Z x) f_zero = (x <=? 0).
Proof. intros Hx. rewrite <- f_of_Z_0. by apply f_le_exact. Qed.

(** staking moves value, it neither creates nor destroys any.  On
    integer-valued amounts below 2^53, [Stake] succeeds exactly for
    [0 < x <= balance] and [Unstake] exactly for [0 < x <= staked]; success
    moves [x] between the two fields and touches nothing else, failure
    changes nothing. *)
Theorem stake_unstake_exact a b s x :
  acc_Balance a = f_of_Z b → acc_StakedAmount a = f_of_Z s →
  0 ≤ b → 0 ≤ s → exact_int (b + s) → exact_int x →
  Stake (f_of_Z x) a =
    (if decide (0 < x ≤ b)
     then (with_Staked (f_of_Z (s + x)) (with_Balance (f_of_Z (b - x)) a), Ok ())
     else (a, Err (if decide (x ≤ 0) then ErrStakeNotPositive else ErrInsufficientFunds))) ∧
  Unstake (f_of_Z x) a =
    (if decide (0 < x ≤ s)
     then (with_Staked (f_of_Z (s - x)) (with_Balance (f_of_Z (b + x)) a), Ok ())
     else (a, Err (if decide (x ≤ 0) then ErrUnstakeNotPositive else ErrInsufficientStake))).
Proof.
  intros Hb Hs Hb0 Hs0 Hbs Hx. unfold exact_int in Hbs.
  assert (∀ z, 0 ≤ z ≤ b + s → exact_int z) as Hex by (unfold exact_int; lia).
  unfold Stake, Unstake. rewrite Hb, Hs, !f_le_exact_0, !f_lt_exact
    by (done || (apply Hex; lia)).
  destruct (Z.leb_spec x 0), (Z.ltb_spec b x), (Z.ltb_spec s x);
    repeat case_decide; try lia;
    rewrite ?f_add_exact, ?f_sub_exact by (done || (apply Hex; lia)); by split.
Qed.

(** ** Concrete accounts *)

Definition acc_sample : Account := with_Staked (f_of_Z 20) (blank_account "alice" [x01] (f_of_Z 30) 0 0).

Definition key_hex : string :=
  "000102030405060708090a0b0c0d0e0f101112131415161718191a1b1c1d1e1f".

(** A toy AEAD that satisfies the law: the key is kept in front. *)
Definition toy_seal (k n p : list byte) : list byte := k ++ p.
Definition toy_open (k n c : list byte) : option (list byte) :=
  if decide (take (length k) c = k) then Some (drop (length k) c) else None.

Lemma toy_open_seal k n p : toy_open k n (toy_seal k n p) = Some p.
Proof.
  unfold toy_open, toy_seal. by rewrite take_app_length, decide_True, drop_app_length.
Qed.

Lemma SetPrivateKey_roundtrip_witness :
  let a' := (SetPrivateKey toy_seal (Some (replicate 12 x07)) [x2a] key_hex acc_sample).1 in
  GetDecryptedPrivateKey toy_open key_hex a' = Ok [x2a] ∧
  a' = with_EncryptedPrivateKey (acc_EncryptedPrivateKey a') acc_sample ∧
  ∃ key, hex_decode (list_byte_of_string key_hex) = Some key ∧ length key = 32%nat.
Proof.
  intros a'.
  apply (SetPrivateKey_roundtrip toy_seal toy_open (replicate 12 x07) [x2a] key_hex acc_sample a').
  - apply toy_open_seal.
  - done.
  - vm_compute. reflexivity.
Defined.

Lemma stake_unstake_exact_witness :
  Stake (f_of_Z 10) acc_sample =
    (if decide (0 < 10 ≤ 30)
     then (with_Staked (f_of_Z (20 + 10)) (with_Balance (f_of_Z (30 - 10)) acc_sample), Ok ())
     else (acc_sample, Err (if decide (10 ≤ 0) then ErrStakeNotPositive else ErrInsufficientFunds))) ∧
  Unstake (f_of_Z 10) acc_sample =
    (if decide (0 < 10 ≤ 20)
     then (with_Staked (f_of_Z (20 - 10)) (with_Balance (f_of_Z (30 + 10)) acc_sample), Ok ())
     else (acc_sample, Err (if decide (10 ≤ 0) then ErrUnstakeNotPositive else ErrInsufficientStake))).
Proof. apply (stake_unstake_exact acc_sample 30 20 10); done. Defined.
