(* ===== verification/Crypto.v ===== *)
(** * Cryptography: src/crypto

    kyber.go, dilithium.go and crypto_manager.go.  The key encapsulation and
    the signatures themselves are circl's: a [KemScheme] and a [SignScheme]
    with what circl documents of them as laws.  AES-GCM and SHAKE256 are
    parameters too, the first with the law of Accounts.v.  Random bytes,
    clock differences and cancellation are arguments.  Logging is left out. *)
From Stdlib Require Import ZArith Lia.
From Stdlib Require Import Strings.Byte Strings.String.
From stdpp Require Import numbers prelude strings.
From S2P Require Import Prelude Bytes Sha256 Accounts.
Open Scope Z_scope.

(** ** The schemes of circl *)

(** [kem.Scheme]: generation and encapsulation take the random bytes they
    use; [None] is a returned error. *)
Record KemScheme := mkKem {
  kem_Name : string;
  kem_PK : Type;
  kem_SK : Type;
  kem_GenerateKeyPair : list byte → option (kem_PK * kem_SK);
  kem_MarshalPK : kem_PK → option (list byte);
  kem_MarshalSK : kem_SK → option (list byte);
  kem_UnmarshalPK : list byte → option kem_PK;
  kem_UnmarshalSK : list byte → option kem_SK;
  kem_Encapsulate : list byte → kem_PK → option (list byte * list byte);
  kem_Decapsulate : kem_SK → list byte → option (list byte) }.

(** [sign.Scheme]; without a context, as the program uses it. *)
Record SignScheme := mkSign {
  sig_PK : Type;
  sig_SK : Type;
  sig_GenerateKey : list byte → option (sig_PK * sig_SK);
  sig_MarshalPK : sig_PK → option (list byte);
  sig_MarshalSK : sig_SK → option (list byte);
  sig_UnmarshalPK : list byte → option sig_PK;
  sig_UnmarshalSK : list byte → option sig_SK;
  sig_Sign : sig_SK → list byte → list byte;
  sig_Verify : sig_PK → list byte → list byte → bool;
  sig_Public : sig_SK → option sig_PK }.

Class KemLaws (s : KemScheme) : Prop := {
  kl_keys rnd pk sk : kem_GenerateKeyPair s rnd = Some (pk, sk) → ∃ pb sb,
    kem_MarshalPK s pk = Some pb ∧ pb ≠ [] ∧ kem_UnmarshalPK s pb = Some pk ∧
    kem_MarshalSK s sk = Some sb ∧ sb ≠ [] ∧ kem_UnmarshalSK s sb = Some sk;
  kl_agree rnd rnd' pk sk : kem_GenerateKeyPair s rnd = Some (pk, sk) → ∃ ct ss,
    kem_Encapsulate s rnd' pk = Some (ct, ss) ∧ ct ≠ [] ∧ ss ≠ [] ∧
    kem_Decapsulate s sk ct = Some ss }.

Class SignLaws (s : SignScheme) : Prop := {
  sl_keys rnd pk sk : sig_GenerateKey s rnd = Some (pk, sk) → ∃ pb sb,
    sig_MarshalPK s pk = Some pb ∧ pb ≠ [] ∧ sig_UnmarshalPK s pb = Some pk ∧
    sig_MarshalSK s sk = Some sb ∧ sb ≠ [] ∧ sig_UnmarshalSK s sb = Some sk;
  sl_correct rnd pk sk m : sig_GenerateKey s rnd = Some (pk, sk) →
    sig_Sign s sk m ≠ [] ∧ sig_Verify s pk m (sig_Sign s sk m) = true;
  sl_public rnd pk sk : sig_GenerateKey s rnd = Some (pk, sk) → sig_Public s sk = Some pk }.

Record Circl := mkCircl {
  kyber512 : KemScheme; kyber768 : KemScheme; kyber1024 : KemScheme;
  mode2 : SignScheme; mode3 : SignScheme; mode5 : SignScheme }.

Class CirclLaws (lib : Circl) : Prop := {
  cl_512 :: KemLaws (kyber512 lib); cl_768 :: KemLaws (kyber768 lib);
  cl_1024 :: KemLaws (kyber1024 lib);
  cl_2 :: SignLaws (mode2 lib); cl_3 :: SignLaws (mode3 lib); cl_5 :: SignLaws (mode5 lib) }.

(** ** Errors *)

Inductive CryptoError :=
| ErrInvalidKyberLevel (level : Z)
| ErrInvalidDilithiumLevel (level : Z)
| ErrNilInput
| ErrEmptyInput
| ErrSigningTimeout
| ErrNilKyberScheme
| ErrUnmarshalPublicKey
| ErrUnmarshalPrivateKey
| ErrEncapsulationFailed
| ErrDecapsulationFailed
| ErrInvalidCiphertext
| ErrInvalidDilithiumScheme (level : Z)
| ErrDilithiumKeyGenFailed
| ErrDilithiumPublicKeyRecover
| ErrTextLevel (level : Z) (* invalid Dilithium level: %d *)
| ErrText (s : string)
| ErrWrap (s : string) (e : CryptoError).

Definition wrap {A} (s : string) (r : result CryptoError A) : result CryptoError A :=
  match r with Ok a => Ok a | Err e => Err (ErrWrap s e) end.
#[export] Instance result_bind {E} : MBind (result E) :=
  λ A B f r, match r with Ok a => f a | Err e => Err e end.
(** A failure of a library call becomes [e]. *)
Definition expect {A} (o : option A) (e : CryptoError) : result CryptoError A :=
  match o with Some a => Ok a | None => Err e end.
Definition orelse {S E A} (o : option A) (e : E) : M S E A :=
  λ s, (s, match o with Some a => Ok a | None => Err e end).
Definition lift {S A} (r : result CryptoError A) : M S CryptoError A := λ s, (s, r).

(** ** Counters and averages *)

(** A counter with its average time. *)
Record OpStat := mkStat { st_count : Z; st_avg : Z }.

Definition observe (d : Z) (s : OpStat) : OpStat :=
  mkStat (uadd (st_count s) 1)
    (if st_avg s =? 0 then d else Z.quot (i64 (i64 (st_avg s * 9) + d)) 10).

(** ** Kyber: kyber.go *)

Definition KyberLevel512 : Z := 512.
Definition KyberLevel768 : Z := 768.
Definition KyberLevel1024 : Z := 1024.

Record KyberKeyPair := mkKyberKeys { kp_PublicKey : list byte; kp_PrivateKey : list byte }.

Definition isNil {A} (o : option A) : bool := match o with Some _ => false | None => true end.
Definition isEmpty (l : list byte) : bool := (length l =? 0)%nat.
#[global] Arguments isEmpty : simpl never.

Definition kyber_Validate (kp : option KyberKeyPair) : result CryptoError () :=
  match kp with
  | None => Err (ErrText "nil key pair")
  | Some kp =>
      if isEmpty (kp_PublicKey kp) then Err (ErrText "empty public key")
      else if isEmpty (kp_PrivateKey kp) then Err (ErrText "empty private key")
      else Ok ()
  end.

Record KyberKeyPairSerialized := mkKyberSer { ks_PublicKey : list byte; ks_PrivateKey : list byte }.

Definition SerializeKyberKeyPair (kp : option KyberKeyPair) :
    result CryptoError KyberKeyPairSerialized :=
  match kp with
  | None => Err (ErrText "nil KyberKeyPair")
  | Some k =>
      _ ← wrap "invalid KyberKeyPair" (kyber_Validate kp);
      Ok (mkKyberSer (kp_PublicKey k) (kp_PrivateKey k))
  end.

Definition DeserializeKyberKeyPair (s : option KyberKeyPairSerialized) :
    result CryptoError KyberKeyPair :=
  match s with
  | None => Err (ErrText "nil serialized KyberKeyPair")
  | Some s =>
      if isEmpty (ks_PublicKey s) then Err (ErrText "empty public key in serialized KyberKeyPair")
      else if isEmpty (ks_PrivateKey s)
      then Err (ErrText "empty private key in serialized KyberKeyPair")
      else
        let kp := mkKyberKeys (ks_PublicKey s) (ks_PrivateKey s) in
        _ ← kyber_Validate (Some kp); Ok kp
  end.

Record KyberCrypto := mkKyber {
  kc_scheme : option KemScheme;
  kc_securityBits : Z;
  kc_keyGen : OpStat;
  kc_encaps : OpStat;
  kc_decaps : OpStat }.

Definition no_stat : OpStat := mkStat 0 0.

Definition security_bits (name : string) : Z :=
  if bool_decide (name = "Kyber512"%string) then 128
  else if bool_decide (name = "Kyber768"%string) then 192
  else if bool_decide (name = "Kyber1024"%string) then 256
  else 0.

(** The log line asks a nil scheme for its name: a panic. *)
Definition NewKyberCrypto (scheme : option KemScheme) : option KyberCrypto :=
  scheme ← scheme;
  Some (mkKyber (Some scheme) (security_bits (kem_Name scheme)) no_stat no_stat no_stat).

Definition GetSecurityLevelBits (kc : KyberCrypto) : Z := kc_securityBits kc.

Definition count_keyGen (d : Z) (kc : KyberCrypto) : KyberCrypto :=
  mkKyber (kc_scheme kc) (kc_securityBits kc) (observe d (kc_keyGen kc)) (kc_encaps kc) (kc_decaps kc).
Definition count_encaps (d : Z) (kc : KyberCrypto) : KyberCrypto :=
  mkKyber (kc_scheme kc) (kc_securityBits kc) (kc_keyGen kc) (observe d (kc_encaps kc)) (kc_decaps kc).
Definition count_decaps (d : Z) (kc : KyberCrypto) : KyberCrypto :=
  mkKyber (kc_scheme kc) (kc_securityBits kc) (kc_keyGen kc) (kc_encaps kc) (observe d (kc_decaps kc)).

Local Open Scope go_scope.

Definition GenerateKeyPair (rnd : list byte) (d : Z) : M KyberCrypto CryptoError KyberKeyPair :=
  let* kc := get in
  let* s := orelse (kc_scheme kc) ErrNilKyberScheme in
  let* keys := orelse (kem_GenerateKeyPair s rnd) (ErrText "kyber generate keypair") in
  let* pubBytes := orelse (kem_MarshalPK s keys.1) (ErrText "kyber public key marshaling failed") in
  let* privBytes := orelse (kem_MarshalSK s keys.2) (ErrText "kyber private key marshaling failed") in
  modify (count_keyGen d) ;;;
  ret (mkKyberKeys pubBytes privBytes).

Definition EncapsulateFromBytes (rnd : list byte) (d : Z) (pubKeyBytes : list byte) :
    M KyberCrypto CryptoError (list byte * list byte) :=
  let* kc := get in
  let* s := orelse (kc_scheme kc) ErrNilKyberScheme in
  fail_if (isEmpty pubKeyBytes) ErrEmptyInput ;;;
  let* pubKey := orelse (kem_UnmarshalPK s pubKeyBytes) ErrUnmarshalPublicKey in
  let* r := orelse (kem_Encapsulate s rnd pubKey) ErrEncapsulationFailed in
  modify (count_encaps d) ;;;
  ret r.

Definition DecapsulateFromBytes (d : Z) (privKeyBytes ciphertext : list byte) :
    M KyberCrypto CryptoError (list byte) :=
  let* kc := get in
  let* s := orelse (kc_scheme kc) ErrNilKyberScheme in
  fail_if (isEmpty privKeyBytes || isEmpty ciphertext) ErrEmptyInput ;;;
  let* privKey := orelse (kem_UnmarshalSK s privKeyBytes) ErrUnmarshalPrivateKey in
  let* ss := orelse (kem_Decapsulate s privKey ciphertext) ErrDecapsulationFailed in
  modify (count_decaps d) ;;;
  ret ss.

Definition deriveSessionKey (sharedSecret : list byte) : option (list byte) :=
  if isEmpty sharedSecret then None else Some (b32 (sha256 sharedSecret)).

Section aead.
(** [Seal] and [Open] of AES-256-GCM; the key has 32 bytes, so creating the
    cipher does not fail. *)
Variable seal : list byte → list byte → list byte → list byte.
Variable open_ : list byte → list byte → list byte → option (list byte).

Definition EncryptWithShared (nonce : option (list byte)) (plaintext sharedSecret : list byte) :
    result CryptoError (list byte) :=
  if isEmpty plaintext || isEmpty sharedSecret then Err ErrEmptyInput
  else
    key ← expect (deriveSessionKey sharedSecret) (ErrText "failed to derive session key");
    n ← expect nonce (ErrText "nonce generation failed");
    Ok (n ++ seal key n plaintext).

Definition DecryptWithShared (ciphertext sharedSecret : list byte) :
    result CryptoError (list byte) :=
  if isEmpty ciphertext || isEmpty sharedSecret then Err ErrEmptyInput
  else
    key ← expect (deriveSessionKey sharedSecret) (ErrText "failed to derive session key");
    if (length ciphertext <? NonceSize)%nat
    then Err (ErrWrap "too short for nonce" ErrInvalidCiphertext)
    else expect (open_ key (take NonceSize ciphertext) (drop NonceSize ciphertext))
           (ErrText "AES-GCM decryption failed").
End aead.

(** Differences are collected in one byte. *)
Definition byte_xor (a b : byte) : Z := Z.lxor (Z_of_byte a) (Z_of_byte b).
Definition compareByteSlices (a b : list byte) : bool :=
  if negb (length a =? length b)%nat then false
  else foldl (λ r ab, Z.lor r (byte_xor ab.1 ab.2)) 0 (zip a b) =? 0.

Definition ValidateKyberKeyPair (rnd : list byte) (scheme : option KemScheme)
    (keyPair : option KyberKeyPair) : result CryptoError () :=
  s ← expect scheme ErrNilKyberScheme;
  _ ← kyber_Validate keyPair;
  kp ← expect keyPair (ErrText "nil key pair");
  pubKey ← expect (kem_UnmarshalPK s (kp_PublicKey kp)) (ErrText "public key unmarshaling failed");
  privKey ← expect (kem_UnmarshalSK s (kp_PrivateKey kp)) (ErrText "private key unmarshaling failed");
  '(ct, ss1) ← expect (kem_Encapsulate s rnd pubKey) (ErrText "encapsulation test failed");
  ss2 ← expect (kem_Decapsulate s privKey ct) (ErrText "decapsulation test failed");
  if negb (compareByteSlices ss1 ss2)
  then Err (ErrText "shared secret mismatch in validation") else Ok ().

Definition KyberLevelToBytes (level : Z) : Z :=
  if level =? KyberLevel512 then 16 else if level =? KyberLevel768 then 24 else 32.

(** ** Dilithium: dilithium.go *)

Definition DilithiumLevel2 : Z := 2.
Definition DilithiumLevel3 : Z := 3.
Definition DilithiumLevel5 : Z := 5.
Definition defaultDilithiumLevel : Z := DilithiumLevel3.

Definition isValidDilithiumLevel (level : Z) : bool :=
  (level =? DilithiumLevel2) || (level =? DilithiumLevel3) || (level =? DilithiumLevel5).

(** The package's statistics. *)
Record dilithiumStats := mkDilStats {
  ds_keyGen : OpStat;
  ds_sign : OpStat;
  ds_verify : OpStat;
  ds_lastOperation : Z }.

Definition dil_keyGen (d now : Z) (s : dilithiumStats) : dilithiumStats :=
  mkDilStats (observe d (ds_keyGen s)) (ds_sign s) (ds_verify s) now.
Definition dil_sign (d now : Z) (s : dilithiumStats) : dilithiumStats :=
  mkDilStats (ds_keyGen s) (observe d (ds_sign s)) (ds_verify s) now.
Definition dil_verify (d now : Z) (s : dilithiumStats) : dilithiumStats :=
  mkDilStats (ds_keyGen s) (ds_sign s) (observe d (ds_verify s)) now.

Record DilithiumKeyPair := mkDilKeys {
  dk_PublicKey : list byte; dk_PrivateKey : list byte; dk_Level : Z }.
Record DilithiumKeyPairSerialized := mkDilSer {
  dks_PublicKey : list byte; dks_PrivateKey : list byte; dks_Level : Z }.

Definition dilithium_Validate (kp : option DilithiumKeyPair) : result CryptoError () :=
  match kp with
  | None => Err (ErrText "nil key pair")
  | Some kp =>
      if isEmpty (dk_PublicKey kp) then Err (ErrText "empty public key")
      else if isEmpty (dk_PrivateKey kp) then Err (ErrText "empty private key")
      else if negb (isValidDilithiumLevel (dk_Level kp)) && negb (dk_Level kp =? 0)
      then Err (ErrTextLevel (dk_Level kp))
      else Ok ()
  end.

Definition SerializeDilithiumKeyPair (kp : option DilithiumKeyPair) :
    result CryptoError DilithiumKeyPairSerialized :=
  match kp with
  | None => Err (ErrText "nil DilithiumKeyPair")
  | Some k =>
      _ ← wrap "invalid DilithiumKeyPair" (dilithium_Validate kp);
      Ok (mkDilSer (dk_PublicKey k) (dk_PrivateKey k) (dk_Level k))
  end.

Definition DeserializeDilithiumKeyPair (s : option DilithiumKeyPairSerialized) :
    result CryptoError DilithiumKeyPair :=
  match s with
  | None => Err (ErrText "nil serialized DilithiumKeyPair")
  | Some s =>
      if isEmpty (dks_PublicKey s)
      then Err (ErrText "empty public key in serialized DilithiumKeyPair")
      else if isEmpty (dks_PrivateKey s)
      then Err (ErrText "empty private key in serialized DilithiumKeyPair")
      else
        let level := if dks_Level s =? 0 then defaultDilithiumLevel else dks_Level s in
        if negb (isValidDilithiumLevel level) then Err (ErrTextLevel level)
        else
          let kp := mkDilKeys (dks_PublicKey s) (dks_PrivateKey s) level in
          _ ← dilithium_Validate (Some kp); Ok kp
  end.

Definition DilithiumSignatureSize (level : Z) : Z :=
  if level =? DilithiumLevel2 then 2420
  else if level =? DilithiumLevel3 then 3293
  else if level =? DilithiumLevel5 then 4595
  else 3293.
Definition key_level (kp : DilithiumKeyPair) : Z :=
  if dk_Level kp =? 0 then defaultDilithiumLevel else dk_Level kp.
Definition GetSignatureSize (kp : DilithiumKeyPair) : Z := DilithiumSignatureSize (key_level kp).

Definition GetSecurityLevel (level : Z) : Z :=
  if level =? DilithiumLevel2 then 2
  else if level =? DilithiumLevel3 then 3
  else if level =? DilithiumLevel5 then 5
  else 0.

Section signatures.
Variable lib : Circl.

Definition getDilithiumScheme (level : Z) : option SignScheme :=
  if level =? DilithiumLevel2 then Some (mode2 lib)
  else if level =? DilithiumLevel3 then Some (mode3 lib)
  else if level =? DilithiumLevel5 then Some (mode5 lib)
  else None.

Definition GenerateDilithiumKeyPair (level : Z) (rnd : list byte) (d now : Z) :
    M dilithiumStats CryptoError DilithiumKeyPair :=
  fail_if (negb (isValidDilithiumLevel level)) (ErrInvalidDilithiumScheme level) ;;;
  let* s := orelse (getDilithiumScheme level) (ErrInvalidDilithiumScheme level) in
  let* keys := orelse (sig_GenerateKey s rnd) ErrDilithiumKeyGenFailed in
  let* pubBytes := orelse (sig_MarshalPK s keys.1) (ErrText "failed to marshal Dilithium public key") in
  let* privBytes := orelse (sig_MarshalSK s keys.2) (ErrText "failed to marshal Dilithium private key") in
  modify (dil_keyGen d now) ;;;
  ret (mkDilKeys pubBytes privBytes level).

Definition SignDilithium (level : Z) (d now : Z) (privKeyBytes message : list byte) :
    M dilithiumStats CryptoError (list byte) :=
  fail_if (negb (isValidDilithiumLevel level)) (ErrInvalidDilithiumScheme level) ;;;
  fail_if (isEmpty privKeyBytes || isEmpty message) ErrEmptyInput ;;;
  let* s := orelse (getDilithiumScheme level) (ErrInvalidDilithiumScheme level) in
  let* sk := orelse (sig_UnmarshalSK s privKeyBytes) (ErrText "failed to unmarshal Dilithium private key") in
  modify (dil_sign d now) ;;;
  ret (sig_Sign s sk message).

Definition VerifyDilithium (level : Z) (d now : Z) (pubKeyBytes message signature : list byte) :
    M dilithiumStats CryptoError bool :=
  fail_if (negb (isValidDilithiumLevel level)) (ErrInvalidDilithiumScheme level) ;;;
  fail_if (isEmpty pubKeyBytes || isEmpty message || isEmpty signature) ErrEmptyInput ;;;
  let* s := orelse (getDilithiumScheme level) (ErrInvalidDilithiumScheme level) in
  let* pk := orelse (sig_UnmarshalPK s pubKeyBytes) (ErrText "failed to unmarshal Dilithium public key") in
  modify (dil_verify d now) ;;;
  ret (sig_Verify s pk message signature).

Definition DilithiumPrivateKeyToPub (level : Z) (privKeyBytes : list byte) :
    result CryptoError (list byte) :=
  if negb (isValidDilithiumLevel level) then Err (ErrInvalidDilithiumScheme level)
  else if isEmpty privKeyBytes then Err ErrEmptyInput
  else
    s ← expect (getDilithiumScheme level) (ErrInvalidDilithiumScheme level);
    sk ← expect (sig_UnmarshalSK s privKeyBytes) (ErrText "failed to unmarshal Dilithium private key");
    pk ← expect (sig_Public s sk) ErrDilithiumPublicKeyRecover;
    expect (sig_MarshalPK s pk) (ErrText "failed to marshal Dilithium public key").

(** The signer is the circl private key itself; here its scheme and key. *)
Definition CryptoSignerWithLevel (level : Z) (kp : DilithiumKeyPair) :
    result CryptoError { s : SignScheme & sig_SK s } :=
  _ ← dilithium_Validate (Some kp);
  s ← expect (getDilithiumScheme level) (ErrInvalidDilithiumScheme level);
  sk ← expect (sig_UnmarshalSK s (dk_PrivateKey kp)) (ErrText "failed to unmarshal Dilithium private key");
  Ok (existT s sk).
Definition CryptoSigner (kp : DilithiumKeyPair) : result CryptoError { s : SignScheme & sig_SK s } :=
  CryptoSignerWithLevel (key_level kp) kp.

Definition SignDataWithDilithium (d now : Z) (privKey data : list byte) :
    M dilithiumStats CryptoError (list byte) :=
  SignDilithium defaultDilithiumLevel d now privKey data.
Definition VerifySignature (d now : Z) (pubKey data sig : list byte) :
    M dilithiumStats CryptoError bool :=
  VerifyDilithium defaultDilithiumLevel d now pubKey data sig.

(** [testMsg]: the clock, little endian, in 32 bytes. *)
Definition test_message (now : Z) : list byte := le64 (u64 now) ++ replicate 24 x00.

Definition ValidateDilithiumKeyPair (now d1 now1 d2 now2 : Z) (kp : option DilithiumKeyPair) :
    M dilithiumStats CryptoError () :=
  lift (dilithium_Validate kp) ;;;
  let* kp := orelse kp (ErrText "nil key pair") in
  let* sig := λ s, prod_map id (wrap "validation signing failed")
                (SignDilithium (key_level kp) d1 now1 (dk_PrivateKey kp) (test_message now) s) in
  let* valid := λ s, prod_map id (wrap "validation verification failed")
                (VerifyDilithium (key_level kp) d2 now2 (dk_PublicKey kp) (test_message now) sig s) in
  fail_if (negb valid) (ErrText "key pair validation failed: signature verification failed").

Definition boolToInt (b : bool) : Z := if b then 1 else 0.
(** [subtle.ConstantTimeByteEq] and [subtle.ConstantTimeSelect]. *)
Definition ConstantTimeByteEq (x y : Z) : Z := Z.shiftr ((Z.lxor x y - 1) mod 2 ^ 32) 31.
Definition ConstantTimeSelect (v x y : Z) : Z :=
  Z.lor (Z.land (Z.lnot (v - 1)) x) (Z.land (v - 1) y).

Definition VerifySignatureConstantTime (d now : Z) (pubKey data sig : list byte) :
    dilithiumStats → dilithiumStats * (bool * option CryptoError) := λ s,
  let '(s, r) := VerifyDilithium defaultDilithiumLevel d now pubKey data sig s in
  let valid := match r with Ok b => b | Err _ => false end in
  let result := ConstantTimeSelect (ConstantTimeByteEq (boolToInt valid) 1) 1 0 in
  (s, (result =? 1, match r with Ok _ => None | Err e => Some e end)).
End signatures.

(** ** The manager: crypto_manager.go *)

Record CryptoManager := mkCM {
  cm_kyberLevel : Z;
  cm_kyber : KyberCrypto;
  cm_dilithiumLevel : Z;
  cm_encaps : OpStat;
  cm_decaps : OpStat;
  cm_sign : OpStat;
  cm_verify : OpStat;
  lastKeyRotation : Z }.

(** A manager and the package's Dilithium statistics. *)
Record CryptoState := mkCS { cs_cm : CryptoManager; cs_dil : dilithiumStats }.

Definition with_kyber (k : KyberCrypto) (cm : CryptoManager) : CryptoManager :=
  mkCM (cm_kyberLevel cm) k (cm_dilithiumLevel cm) (cm_encaps cm) (cm_decaps cm) (cm_sign cm)
    (cm_verify cm) (lastKeyRotation cm).
Definition metric_encaps (d : Z) (cm : CryptoManager) : CryptoManager :=
  mkCM (cm_kyberLevel cm) (cm_kyber cm) (cm_dilithiumLevel cm) (observe d (cm_encaps cm))
    (cm_decaps cm) (cm_sign cm) (cm_verify cm) (lastKeyRotation cm).
Definition metric_decaps (d : Z) (cm : CryptoManager) : CryptoManager :=
  mkCM (cm_kyberLevel cm) (cm_kyber cm) (cm_dilithiumLevel cm) (cm_encaps cm)
    (observe d (cm_decaps cm)) (cm_sign cm) (cm_verify cm) (lastKeyRotation cm).
Definition metric_sign (d : Z) (cm : CryptoManager) : CryptoManager :=
  mkCM (cm_kyberLevel cm) (cm_kyber cm) (cm_dilithiumLevel cm) (cm_encaps cm) (cm_decaps cm)
    (observe d (cm_sign cm)) (cm_verify cm) (lastKeyRotation cm).
Definition metric_verify (d : Z) (cm : CryptoManager) : CryptoManager :=
  mkCM (cm_kyberLevel cm) (cm_kyber cm) (cm_dilithiumLevel cm) (cm_encaps cm) (cm_decaps cm)
    (cm_sign cm) (observe d (cm_verify cm)) (lastKeyRotation cm).
(** [RotateKeys] only takes the time. *)
Definition RotateKeys (now : Z) (cm : CryptoManager) : CryptoManager :=
  mkCM (cm_kyberLevel cm) (cm_kyber cm) (cm_dilithiumLevel cm) (cm_encaps cm) (cm_decaps cm)
    (cm_sign cm) (cm_verify cm) now.

(** A call of the inner state; a metric after the call, whatever it gave. *)
Definition on_kyber {A} (m : M KyberCrypto CryptoError A) : M CryptoState CryptoError A := λ s,
  let '(k, r) := m (cm_kyber (cs_cm s)) in (mkCS (with_kyber k (cs_cm s)) (cs_dil s), r).
Definition on_dil {A} (m : M dilithiumStats CryptoError A) : M CryptoState CryptoError A := λ s,
  let '(d, r) := m (cs_dil s) in (mkCS (cs_cm s) d, r).
Definition metered {A} (f : CryptoManager → CryptoManager) (what : string)
    (m : M CryptoState CryptoError A) : M CryptoState CryptoError A := λ s,
  let '(s, r) := m s in (mkCS (f (cs_cm s)) (cs_dil s), wrap what r).
Definition named {S A} (what : string) (m : M S CryptoError A) : M S CryptoError A := λ s,
  prod_map id (wrap what) (m s).

Section manager.
Variable lib : Circl.
Variable seal : list byte → list byte → list byte → list byte.
Variable open_ : list byte → list byte → list byte → option (list byte).
Variable shake256 : list byte → nat → list byte.

Definition KyberSchemeFromLevel (level : Z) : option KemScheme :=
  if level =? KyberLevel512 then Some (kyber512 lib)
  else if level =? KyberLevel768 then Some (kyber768 lib)
  else if level =? KyberLevel1024 then Some (kyber1024 lib)
  else None.

(** The options set a logger or nothing.  [None] is a panic, which the
    check of the scheme rules out. *)
Definition NewCryptoManager (kyberLevel dilLevel now : Z) :
    option (result CryptoError CryptoManager) :=
  match KyberSchemeFromLevel kyberLevel with
  | None => Some (Err (ErrInvalidKyberLevel kyberLevel))
  | Some s =>
      if negb (isValidDilithiumLevel dilLevel)
      then Some (Err (ErrInvalidDilithiumLevel dilLevel))
      else
        kyb ← NewKyberCrypto (Some s);
        Some (Ok (mkCM kyberLevel kyb dilLevel no_stat no_stat no_stat no_stat now))
  end.

Definition GenerateKEMKeyPair (rnd : list byte) (d : Z) :
    M CryptoState CryptoError KyberKeyPair :=
  let* kp := named "failed to generate Kyber key pair" (on_kyber (GenerateKeyPair rnd d)) in
  fail_if (isEmpty (kp_PublicKey kp) || isEmpty (kp_PrivateKey kp))
    (ErrText "generated key pair contains empty keys") ;;;
  ret kp.

Definition GenerateSignatureKeyPair (rnd : list byte) (d now : Z) :
    M CryptoState CryptoError DilithiumKeyPair :=
  let* s := get in
  let* kp := named "failed to generate Dilithium key pair"
               (on_dil (GenerateDilithiumKeyPair lib (cm_dilithiumLevel (cs_cm s)) rnd d now)) in
  fail_if (isEmpty (dk_PublicKey kp) || isEmpty (dk_PrivateKey kp))
    (ErrText "generated Dilithium key pair contains empty keys") ;;;
  ret kp.

Definition EncryptKEM (rnd : list byte) (d d' : Z) (pubKeyBytes : list byte) :
    M CryptoState CryptoError (list byte * list byte) :=
  fail_if (isEmpty pubKeyBytes) ErrEmptyInput ;;;
  metered (metric_encaps d') "KEM encapsulation failed"
    (on_kyber (EncapsulateFromBytes rnd d pubKeyBytes)).

Definition DecryptKEM (d d' : Z) (privKeyBytes ciphertext : list byte) :
    M CryptoState CryptoError (list byte) :=
  fail_if (isEmpty privKeyBytes || isEmpty ciphertext) ErrEmptyInput ;;;
  metered (metric_decaps d') "KEM decapsulation failed"
    (on_kyber (DecapsulateFromBytes d privKeyBytes ciphertext)).

(** [cancelled]: the context ended before the signature was there; the
    signing goroutine finishes nevertheless. *)
Definition SignWithContext (cancelled : bool) (d now d' : Z) (priv : option DilithiumKeyPair)
    (message : list byte) : M CryptoState CryptoError (list byte) :=
  let* priv := orelse priv ErrNilInput in
  fail_if (isEmpty message) ErrEmptyInput ;;;
  fail_if (isEmpty (dk_PrivateKey priv)) (ErrText "private key is empty") ;;;
  let* s := get in
  let sign := on_dil (SignDilithium lib (cm_dilithiumLevel (cs_cm s)) d now (dk_PrivateKey priv) message) in
  if cancelled then λ s, ((sign s).1, Err ErrSigningTimeout)
  else metered (metric_sign d') "dilithium signing failed" sign.

Definition Sign (d now d' : Z) := SignWithContext false d now d'.

Definition Verify (d now d' : Z) (pub : option DilithiumKeyPair) (msg sig : list byte) :
    M CryptoState CryptoError bool :=
  let* pub := orelse pub ErrNilInput in
  fail_if (isEmpty msg || isEmpty sig) ErrEmptyInput ;;;
  fail_if (isEmpty (dk_PublicKey pub)) (ErrText "public key is empty") ;;;
  let* s := get in
  metered (metric_verify d') "dilithium verification failed"
    (on_dil (VerifyDilithium lib (cm_dilithiumLevel (cs_cm s)) d now (dk_PublicKey pub) msg sig)).

(** What happens around a combined operation: random bytes, the nonce, the
    clock and the context. *)
Record crypto_env := mkCryptoEnv {
  ce_rnd : list byte;
  ce_nonce : option (list byte);
  ce_dur : nat → Z;
  ce_now : Z;
  ce_cancelled : bool }.

Definition CombinedEncryptAndSign (env : crypto_env) (pubKeyKEM : list byte)
    (dilPriv : option DilithiumKeyPair) (message : list byte) :
    M CryptoState CryptoError (list byte * list byte * list byte) :=
  fail_if (isEmpty pubKeyKEM || isNil dilPriv || isEmpty message) ErrEmptyInput ;;;
  let* cs := named "encapsulation error"
               (EncryptKEM (ce_rnd env) (ce_dur env 0%nat) (ce_dur env 1%nat) pubKeyKEM) in
  let* enc := named "AES encryption error"
                (lift (EncryptWithShared seal (ce_nonce env) message cs.2)) in
  let* sig := named "dilithium sign error"
                (SignWithContext (ce_cancelled env) (ce_dur env 2%nat) (ce_now env) (ce_dur env 3%nat)
                   dilPriv message) in
  ret (cs.1, enc, sig).

Definition CombinedDecryptAndVerify (env : crypto_env) (privKeyKEM : list byte)
    (dilPub : option DilithiumKeyPair) (ciphertext encData signature : list byte) :
    M CryptoState CryptoError (list byte * bool) :=
  fail_if (isEmpty privKeyKEM || isNil dilPub || isEmpty ciphertext || isEmpty encData
           || isEmpty signature) ErrEmptyInput ;;;
  let* ss := named "decapsulation error"
               (DecryptKEM (ce_dur env 0%nat) (ce_dur env 1%nat) privKeyKEM ciphertext) in
  let* pt := named "AES decryption error" (lift (DecryptWithShared open_ encData ss)) in
  let* ok := named "signature verification error"
               (Verify (ce_dur env 2%nat) (ce_now env) (ce_dur env 3%nat) dilPub pt signature) in
  ret (pt, ok).

(** [rnd] is what the random source delivers for [n] bytes. *)
Definition GenerateRandomBytes (n : Z) (rnd : option (list byte)) : result CryptoError (list byte) :=
  if n <=? 0 then Err (ErrText "invalid length: must be positive")
  else expect rnd (ErrText "random read failed").

Definition DeriveKey (seed : list byte) (n : Z) : result CryptoError (list byte) :=
  if isEmpty seed then Err ErrEmptyInput
  else if n <=? 0 then Err (ErrText "invalid length: must be positive")
  else Ok (shake256 seed (Z.to_nat n)).
End manager.

Definition SerializeKyberPublicKey (pub : list byte) : result CryptoError (list byte) :=
  if isEmpty pub then Err ErrEmptyInput
  else
    let sz := Z.of_nat (length pub) in
    Ok ([byte_of_Z (Z.shiftr sz 24); byte_of_Z (Z.shiftr sz 16); byte_of_Z (Z.shiftr sz 8);
         byte_of_Z sz] ++ pub).

Definition DeserializeKyberPublicKey (data : list byte) : result CryptoError (list byte) :=
  match data with
  | b0 :: b1 :: b2 :: b3 :: rest =>
      let sz := Z.lor (Z.lor (Z.lor (Z.shiftl (Z_of_byte b0) 24) (Z.shiftl (Z_of_byte b1) 16))
                  (Z.shiftl (Z_of_byte b2) 8)) (Z_of_byte b3) in
      if (sz <=? 0) || negb (Z.of_nat (length data) =? sz + 4)
      then Err (ErrText "invalid data format: size mismatch")
      else Ok rest
  | _ => Err (ErrText "input too short for length prefix")
  end.

(** * Facts *)

Lemma isEmpty_false l : isEmpty l = false ↔ l ≠ [].
Proof. unfold isEmpty. rewrite Nat.eqb_neq. split; by destruct l. Qed.

(** ** Comparison in constant time *)

Lemma foldl_lor l : ∀ r, 0 ≤ r → Forall (λ z, 0 ≤ z) l →
  foldl Z.lor r l = 0 ↔ r = 0 ∧ Forall (λ z, z = 0) l.
Proof.
  induction l as [|z l IH]; intros r Hr Hl; cbn [foldl].
  { split; [|by intros [? _]]. by split. }
  apply Forall_cons in Hl as [Hz Hl].
  rewrite IH, Z.lor_eq_0_iff, Forall_cons by (done || by apply Z.lor_nonneg). tauto.
Qed.

Lemma byte_xor_0 a b : byte_xor a b = 0 ↔ a = b.
Proof.
  unfold byte_xor. rewrite Z.lxor_eq_0_iff. split; [|by intros ->].
  intros H. rewrite <- (byte_of_Z_of_byte a), <- (byte_of_Z_of_byte b). by f_equal.
Qed.

Lemma compareByteSlices_eq a b : compareByteSlices a b = bool_decide (a = b).
Proof.
  unfold compareByteSlices. destruct (length a =? length b)%nat eqn:Hlen; cbn [negb].
  2: { apply Nat.eqb_neq in Hlen. symmetry. apply bool_decide_eq_false. congruence. }
  apply Nat.eqb_eq in Hlen.
  assert (Hf : ∀ r, foldl (λ r ab, Z.lor r (byte_xor ab.1 ab.2)) r (zip a b)
    = foldl Z.lor r (uncurry byte_xor <$> zip a b)).
  { induction (zip a b) as [|[x y] l IH]; intros r; [done|]. cbn. by rewrite IH. }
  rewrite Hf. apply eq_bool_prop_intro. rewrite bool_decide_spec, Is_true_true, Z.eqb_eq, foldl_lor.
  - split.
    + intros [_ Hz]. revert b Hlen Hz Hf. induction a as [|x a IH]; intros [|y b]; try done.
      intros [= Hlen] Hz Hf. cbn in Hz. apply Forall_cons in Hz as [Hx Hz].
      apply byte_xor_0 in Hx as ->. f_equal. apply IH; [done|done|]. intros r.
      clear. revert r. induction (zip a b) as [|[x y] l IH]; intros r; [done|]. cbn. by rewrite IH.
    + intros <-. split; [done|]. clear. induction a as [|x a IH]; [done|].
      apply Forall_cons. split; [by apply byte_xor_0|done].
  - done.
  - apply Forall_fmap, Forall_true. intros [x y]. cbn. apply Z.lxor_nonneg.
    pose proof (Z_of_byte_range x). pose proof (Z_of_byte_range y). lia.
Qed.

(** ** The length prefix *)

Lemma lor_disjoint x y n : 0 ≤ n → 0 ≤ y < 2 ^ n → Z.lor (x * 2 ^ n) y = x * 2 ^ n + y.
Proof.
  intros Hn Hy. rewrite <- Z.shiftl_mul_pow2 by done.
  assert (Z.land (Z.shiftl x n) y = 0) as Hl.
  { apply Z.bits_inj'. intros i Hi. rewrite Z.land_spec, Z.bits_0.
    destruct (Z.lt_ge_cases i n) as [Hlt|Hge]; [by rewrite Z.shiftl_spec_low|].
    rewrite <- (Z.mod_small y (2 ^ n)) by done. by rewrite Z.mod_pow2_bits_high, andb_false_r by lia. }
  by rewrite <- Z.lxor_lor, Z.add_nocarry_lxor.
Qed.

(** The four bytes of a length. *)
Definition prefix_val (b0 b1 b2 b3 : byte) : Z :=
  Z_of_byte b0 * 16777216 + Z_of_byte b1 * 65536 + Z_of_byte b2 * 256 + Z_of_byte b3.

Lemma prefix_lor b0 b1 b2 b3 :
  Z.lor (Z.lor (Z.lor (Z.shiftl (Z_of_byte b0) 24) (Z.shiftl (Z_of_byte b1) 16))
           (Z.shiftl (Z_of_byte b2) 8)) (Z_of_byte b3) = prefix_val b0 b1 b2 b3.
Proof.
  pose proof (Z_of_byte_range b0). pose proof (Z_of_byte_range b1).
  pose proof (Z_of_byte_range b2). pose proof (Z_of_byte_range b3).
  rewrite !Z.shiftl_mul_pow2 by lia. unfold prefix_val.
  rewrite (lor_disjoint _ (Z_of_byte b1 * 2 ^ 16)) by lia.
  replace (Z_of_byte b0 * 2 ^ 24 + Z_of_byte b1 * 2 ^ 16)
    with ((Z_of_byte b0 * 256 + Z_of_byte b1) * 2 ^ 16) by lia.
  rewrite (lor_disjoint _ (Z_of_byte b2 * 2 ^ 8)) by lia.
  replace ((Z_of_byte b0 * 256 + Z_of_byte b1) * 2 ^ 16 + Z_of_byte b2 * 2 ^ 8)
    with ((Z_of_byte b0 * 65536 + Z_of_byte b1 * 256 + Z_of_byte b2) * 2 ^ 8) by lia.
  rewrite lor_disjoint by lia. lia.
Qed.

Lemma prefix_of sz : 0 ≤ sz < 2 ^ 32 →
  prefix_val (byte_of_Z (Z.shiftr sz 24)) (byte_of_Z (Z.shiftr sz 16))
    (byte_of_Z (Z.shiftr sz 8)) (byte_of_Z sz) = sz.
Proof.
  intros Hsz. unfold prefix_val. rewrite !Z_of_byte_of_Z, !Z.shiftr_div_pow2 by lia.
  change (2 ^ 24) with 16777216. change (2 ^ 16) with 65536. change (2 ^ 8) with 256.
  change (2 ^ 32) with 4294967296 in Hsz. Z.to_euclidean_division_equations. lia.
Qed.

Lemma prefix_inj b0 b1 b2 b3 sz : prefix_val b0 b1 b2 b3 = sz →
  [byte_of_Z (Z.shiftr sz 24); byte_of_Z (Z.shiftr sz 16); byte_of_Z (Z.shiftr sz 8); byte_of_Z sz]
  = [b0; b1; b2; b3].
Proof.
  intros Hv. pose proof (Z_of_byte_range b0). pose proof (Z_of_byte_range b1).
  pose proof (Z_of_byte_range b2). pose proof (Z_of_byte_range b3). unfold prefix_val in Hv.
  rewrite !Z.shiftr_div_pow2 by lia.
  change (2 ^ 24) with 16777216. change (2 ^ 16) with 65536. change (2 ^ 8) with 256.
  assert (Hb : ∀ b z, z mod 256 = Z_of_byte b → byte_of_Z z = b).
  { intros b z Hz. rewrite <- (byte_of_Z_of_byte b), <- Hz. unfold byte_of_Z.
    by rewrite Z.mod_mod. }
  rewrite (Hb b0), (Hb b1), (Hb b2), (Hb b3);
    [done|Z.to_euclidean_division_equations; lia..].
Qed.

(** the length prefix of a public key is a bijection between the
    non-empty keys shorter than 2^32 bytes and the well-formed inputs: what
    was serialized is read back, and what is read back is what would be
    serialized.  A longer key is serialized all the same and never read
    back. *)
Theorem key_prefix_roundtrip data pub : DeserializeKyberPublicKey data = Ok pub ↔
  SerializeKyberPublicKey pub = Ok data ∧ Z.of_nat (length pub) < 2 ^ 32.
Proof.
  unfold SerializeKyberPublicKey. split.
  - destruct data as [|b0 [|b1 [|b2 [|b3 rest]]]]; try done. unfold DeserializeKyberPublicKey.
    rewrite prefix_lor. destruct (_ || _) eqn:Hc; [done|]. intros [= <-]. bool_to_prop.
    cbn [length] in *.
    match goal with H : Z.of_nat _ = prefix_val _ _ _ _ + 4 |- _ =>
      assert (prefix_val b0 b1 b2 b3 = Z.of_nat (length rest)) as Hv by lia end.
    pose proof (prefix_inj _ _ _ _ _ Hv) as Hp. rewrite Hp.
    assert (isEmpty rest = false) as -> by (apply isEmpty_false; intros ->; cbn in Hv; lia).
    split; [done|]. rewrite <- Hv. unfold prefix_val.
    pose proof (Z_of_byte_range b0). pose proof (Z_of_byte_range b1).
    pose proof (Z_of_byte_range b2). pose proof (Z_of_byte_range b3). lia.
  - intros [Hs Hlen]. destruct (isEmpty pub) eqn:He; [done|]. injection Hs as <-.
    apply isEmpty_false in He. cbn [app DeserializeKyberPublicKey].
    rewrite prefix_lor, prefix_of by lia. cbn [length].
    assert (length pub ≠ 0)%nat by (by destruct pub).
    destruct (_ || _) eqn:Hc; [|done]. apply orb_true_iff in Hc as [Hc|Hc]; bool_to_prop; lia.
Qed.

(** ** Signatures in constant time *)

Lemma constant_time_select b :
  (ConstantTimeSelect (ConstantTimeByteEq (boolToInt b) 1) 1 0 =? 1) = b.
Proof. by destruct b. Qed.

(** Serializing a Dilithium key pair and reading it back fills in the default
    level; nothing else changes, and every pair that serializes reads back. *)
Lemma dilithium_pair_roundtrip kp s : SerializeDilithiumKeyPair (Some kp) = Ok s →
  DeserializeDilithiumKeyPair (Some s)
    = Ok (mkDilKeys (dk_PublicKey kp) (dk_PrivateKey kp) (key_level kp)).
Proof.
  unfold SerializeDilithiumKeyPair, DeserializeDilithiumKeyPair, dilithium_Validate, key_level.
  destruct (isEmpty (dk_PublicKey kp)) eqn:H1; [done|].
  destruct (isEmpty (dk_PrivateKey kp)) eqn:H2; [done|].
  destruct (_ && _) eqn:Hl; [done|]. intros [= <-]. cbn [dks_PublicKey dks_PrivateKey dks_Level].
  rewrite H1, H2. destruct (dk_Level kp =? 0) eqn:H0.
  { cbn. by rewrite H1, H2. }
  rewrite andb_true_r in Hl. rewrite Hl. cbn. rewrite H1, H2.
  cbn. by rewrite Hl.
Qed.

Lemma kyber_pair_roundtrip kp s : SerializeKyberKeyPair (Some kp) = Ok s →
  DeserializeKyberKeyPair (Some s) = Ok kp.
Proof.
  unfold SerializeKyberKeyPair, DeserializeKyberKeyPair, kyber_Validate.
  destruct kp as [pub priv]. cbn [kp_PublicKey kp_PrivateKey].
  destruct (isEmpty pub) eqn:H1; [done|]. destruct (isEmpty priv) eqn:H2; [done|].
  intros [= <-]. cbn. rewrite H1, H2. done.
Qed.

(** ** Keys that were generated *)

(** Opens the monad of the operations. *)
Ltac run := unfold named, metered, on_kyber, on_dil, bind, get, orelse, modify, ret, fail_if,
  lift, throw.

Section laws.
Variable lib : Circl.
Context `{CirclLaws lib}.
Variable seal : list byte → list byte → list byte → list byte.
Variable open_ : list byte → list byte → list byte → option (list byte).

#[export] Instance kyber_scheme_laws level s : KyberSchemeFromLevel lib level = Some s → KemLaws s.
Proof. unfold KyberSchemeFromLevel. intros Hs. repeat case_match; simplify_eq; apply _. Qed.
Lemma dilithium_scheme_laws level s : getDilithiumScheme lib level = Some s → SignLaws s.
Proof. unfold getDilithiumScheme. intros Hs. repeat case_match; simplify_eq; apply _. Qed.

Lemma valid_level level : isValidDilithiumLevel level = true → is_Some (getDilithiumScheme lib level).
Proof.
  unfold isValidDilithiumLevel, getDilithiumScheme. intros Hv.
  destruct (level =? DilithiumLevel2); [done|]. destruct (level =? DilithiumLevel3); [done|].
  cbn [orb] in Hv. by rewrite Hv.
Qed.

(** A state of a manager made with the two levels. *)
Record levels (kl dl : Z) (s : CryptoState) : Prop := {
  lv_kyber : kc_scheme (cm_kyber (cs_cm s)) = KyberSchemeFromLevel lib kl;
  lv_some : is_Some (KyberSchemeFromLevel lib kl);
  lv_level : cm_dilithiumLevel (cs_cm s) = dl;
  lv_valid : isValidDilithiumLevel dl = true }.

Definition kem_pair (kl : Z) (kp : KyberKeyPair) : Prop := ∃ s rnd pk sk,
  KyberSchemeFromLevel lib kl = Some s ∧ kem_GenerateKeyPair s rnd = Some (pk, sk) ∧
  kem_UnmarshalPK s (kp_PublicKey kp) = Some pk ∧ kem_UnmarshalSK s (kp_PrivateKey kp) = Some sk ∧
  kp_PublicKey kp ≠ [] ∧ kp_PrivateKey kp ≠ [].
Definition sign_pair (dl : Z) (kp : DilithiumKeyPair) : Prop := ∃ s rnd pk sk,
  getDilithiumScheme lib dl = Some s ∧ sig_GenerateKey s rnd = Some (pk, sk) ∧
  sig_UnmarshalPK s (dk_PublicKey kp) = Some pk ∧ sig_UnmarshalSK s (dk_PrivateKey kp) = Some sk ∧
  dk_PublicKey kp ≠ [] ∧ dk_PrivateKey kp ≠ [].

Lemma new_levels kl dl now cm ds : NewCryptoManager lib kl dl now = Some (Ok cm) →
  levels kl dl (mkCS cm ds).
Proof.
  unfold NewCryptoManager. destruct (KyberSchemeFromLevel lib kl) as [s|] eqn:Hs; [|done].
  destruct (isValidDilithiumLevel dl) eqn:Hv; [|done]. intros [= <-].
  split; cbn; by rewrite ?Hs.
Qed.

Lemma GenerateKEM_pair kl dl rnd d s s' kp : levels kl dl s →
  GenerateKEMKeyPair rnd d s = (s', Ok kp) → kem_pair kl kp ∧ levels kl dl s'.
Proof.
  intros [Hk [sch Hsch] Hl Hv]. rewrite Hsch in Hk.
  unfold GenerateKEMKeyPair, GenerateKeyPair, named, on_kyber, bind, get, orelse, modify, ret, fail_if.
  rewrite Hk. cbn. destruct (kem_GenerateKeyPair sch rnd) as [[pk sk]|] eqn:Hg; [|done]. cbn.
  destruct (kl_keys (KemLaws := kyber_scheme_laws kl sch Hsch) rnd pk sk Hg)
    as (pb & sb & -> & Hpb & Hup & -> & Hsb & Hus).
  cbn. rewrite (proj2 (isEmpty_false pb) Hpb), (proj2 (isEmpty_false sb) Hsb). cbn.
  intros [= <- <-]. split; [by exists sch, rnd, pk, sk|]. split; cbn; by rewrite ?Hsch.
Qed.

Lemma GenerateSignature_pair kl dl rnd d now s s' kp : levels kl dl s →
  GenerateSignatureKeyPair lib rnd d now s = (s', Ok kp) →
  sign_pair dl kp ∧ dk_Level kp = dl ∧ levels kl dl s'.
Proof.
  intros [Hk Hs Hl Hv].
  unfold GenerateSignatureKeyPair, GenerateDilithiumKeyPair, named, on_dil, bind, get, orelse,
    modify, ret, fail_if.
  rewrite Hl, Hv. destruct (valid_level dl Hv) as [sch Hsch]. rewrite Hsch. cbn.
  destruct (sig_GenerateKey sch rnd) as [[pk sk]|] eqn:Hg; [|done]. cbn.
  destruct (sl_keys (SignLaws := dilithium_scheme_laws dl sch Hsch) rnd pk sk Hg)
    as (pb & sb & -> & Hpb & Hup & -> & Hsb & Hus).
  cbn. rewrite (proj2 (isEmpty_false pb) Hpb), (proj2 (isEmpty_false sb) Hsb). cbn.
  intros [= <- <-]. split; [by exists sch, rnd, pk, sk|]. by split.
Qed.

Lemma EncryptKEM_ok kl dl rnd d d' kp s : levels kl dl s → kem_pair kl kp → ∃ s' ct ss,
  EncryptKEM rnd d d' (kp_PublicKey kp) s = (s', Ok (ct, ss)) ∧ levels kl dl s' ∧
  ct ≠ [] ∧ ss ≠ [] ∧
  ∀ e e' t, levels kl dl t → ∃ t', DecryptKEM e e' (kp_PrivateKey kp) ct t = (t', Ok ss)
                                   ∧ levels kl dl t'.
Proof.
  intros [Hk _ Hl Hv] (sch & rnd0 & pk & sk & Hsch & Hg & Hup & Hus & Hpub & Hpriv).
  destruct (kl_agree (KemLaws := kyber_scheme_laws kl sch Hsch) rnd0 rnd pk sk Hg)
    as (ct & ss & He & Hct & Hss & Hd).
  eexists _, ct, ss. split; [|split; [|split; [done|split; [done|]]]].
  - unfold EncryptKEM, EncapsulateFromBytes. run.
    rewrite (proj2 (isEmpty_false _) Hpub). cbn. rewrite Hk, Hsch. cbn. rewrite Hup. cbn. rewrite He. cbn. reflexivity.
  - split; cbn; by rewrite ?Hsch, ?Hk.
  - intros e e' t [Hk' _ Hl' Hv']. eexists. split.
    + unfold DecryptKEM, DecapsulateFromBytes. run.
      rewrite (proj2 (isEmpty_false _) Hpriv), (proj2 (isEmpty_false _) Hct). cbn.
      rewrite Hk', Hsch. cbn.
      rewrite Hus. cbn. rewrite Hd. cbn. reflexivity.
    + split; cbn; by rewrite ?Hsch, ?Hk'.
Qed.

Lemma Sign_ok kl dl d now d' dk m s : levels kl dl s → sign_pair dl dk → m ≠ [] → ∃ s' sig,
  SignWithContext lib false d now d' (Some dk) m s = (s', Ok sig) ∧ levels kl dl s' ∧ sig ≠ [] ∧
  ∀ e now' e' dk' t, levels kl dl t → dk_PublicKey dk' = dk_PublicKey dk →
    ∃ t', Verify lib e now' e' (Some dk') m sig t = (t', Ok true) ∧ levels kl dl t'.
Proof.
  intros [Hk Hs Hl Hv] (sch & rnd & pk & sk & Hsch & Hg & Hup & Hus & Hpub & Hpriv) Hm.
  destruct (sl_correct (SignLaws := dilithium_scheme_laws dl sch Hsch) rnd pk sk m Hg) as [Hne Hver].
  eexists _, (sig_Sign sch sk m). split; [|split; [|split; [done|]]].
  - unfold SignWithContext, SignDilithium. run. cbn.
    rewrite (proj2 (isEmpty_false _) Hpriv), (proj2 (isEmpty_false _) Hm). cbn.
    rewrite Hl, Hv. cbn. rewrite Hsch. cbn.
    rewrite Hus. cbn. reflexivity.
  - by split.
  - intros e now' e' dk' t [Hk' Hs' Hl' Hv'] Hdk. eexists. split.
    + unfold Verify, VerifyDilithium. run. cbn. rewrite Hdk.
      rewrite (proj2 (isEmpty_false _) Hpub), (proj2 (isEmpty_false _) Hm), (proj2 (isEmpty_false _) Hne).
      cbn. rewrite Hl', Hv. cbn. rewrite Hsch. cbn. rewrite Hup. cbn. rewrite Hver. reflexivity.
    + by split.
Qed.

Lemma shared_roundtrip n m ss : (∀ k n p, open_ k n (seal k n p) = Some p) →
  length n = NonceSize → m ≠ [] → ss ≠ [] → ∃ enc,
  EncryptWithShared seal (Some n) m ss = Ok enc ∧ enc ≠ [] ∧ DecryptWithShared open_ enc ss = Ok m.
Proof.
  intros Hopen Hn Hm Hss. exists (n ++ seal (b32 (sha256 ss)) n m).
  assert (n ++ seal (b32 (sha256 ss)) n m ≠ []) as Hne.
  { intros He. apply (f_equal length) in He. rewrite length_app, Hn in He. discriminate. }
  unfold EncryptWithShared, DecryptWithShared, deriveSessionKey.
  rewrite (proj2 (isEmpty_false _) Hm), (proj2 (isEmpty_false _) Hss), (proj2 (isEmpty_false _) Hne).
  cbn [orb]. split; [done|]. split; [done|]. cbn [expect mbind result_bind].
  rewrite length_app, Hn. replace (_ <? _)%nat with false
    by (symmetry; apply Nat.ltb_ge; unfold NonceSize; lia).
  by rewrite <- Hn, take_app_length, drop_app_length, Hopen.
Qed.

(** C12: a message that was encrypted and signed is decrypted and verified.
    With keys two managers of the same levels generated, a nonce of twelve
    bytes and a signature in time, [CombinedEncryptAndSign] of a non-empty
    message always succeeds, and [CombinedDecryptAndVerify] at any later
    state of the receiver gives back the message and [true], whatever private
    part and level the receiver's copy of the signer's key has. *)
Theorem combined_roundtrip kl dl env env' kp dk dk' m n s t :
  (∀ k n p, open_ k n (seal k n p) = Some p) →
  levels kl dl s → levels kl dl t → kem_pair kl kp → sign_pair dl dk →
  dk_PublicKey dk' = dk_PublicKey dk → m ≠ [] →
  ce_nonce env = Some n → length n = NonceSize → ce_cancelled env = false →
  ∃ s' t' ct enc sig,
    CombinedEncryptAndSign lib seal env (kp_PublicKey kp) (Some dk) m s = (s', Ok (ct, enc, sig))
    ∧ CombinedDecryptAndVerify lib open_ env' (kp_PrivateKey kp) (Some dk') ct enc sig t
      = (t', Ok (m, true)).
Proof.
  intros Hopen Hs Ht Hkp Hdk Hpub Hm Hnonce Hn Hc.
  destruct (EncryptKEM_ok kl dl (ce_rnd env) (ce_dur env 0) (ce_dur env 1) kp s Hs Hkp)
    as (s1 & ct & ss & He & Hs1 & Hct & Hss & Hdec).
  destruct (Hdec (ce_dur env' 0) (ce_dur env' 1) t Ht) as (t1 & Hd & Ht1).
  destruct (shared_roundtrip n m ss Hopen Hn Hm Hss) as (enc & Henc & Hne & Hopn).
  destruct (Sign_ok kl dl (ce_dur env 2) (ce_now env) (ce_dur env 3) dk m s1 Hs1 Hdk Hm)
    as (s2 & sig & Hsg & Hs2 & Hsig & Hver).
  destruct (Hver (ce_dur env' 2) (ce_now env') (ce_dur env' 3) dk' t1 Ht1 Hpub) as (t2 & Hv & Ht2).
  destruct Hkp as (sch & rnd0 & pk & sk & _ & _ & _ & _ & Hp1 & Hp2).
  exists s2, t2, ct, enc, sig.
  unfold CombinedEncryptAndSign, CombinedDecryptAndVerify, named, bind, fail_if, lift, ret.
  rewrite !(proj2 (isEmpty_false _)) by done. cbn [isNil orb].
  rewrite He, Hd. cbn [prod_map wrap snd fst id]. rewrite Hnonce, Henc, Hc. cbn [wrap].
  rewrite Hsg, Hopn. cbn [prod_map wrap id]. rewrite Hv. done.
Qed.
End laws.

(** ** Concrete schemes

    Toy schemes with equal public and private keys that satisfy the laws. *)

Definition hash (l : list byte) : list byte := b32 (sha256 l).

Lemma hash_ne l : hash l ≠ [].
Proof. intros He. pose proof (b32_length (sha256 l)) as Hl. unfold hash in He. by rewrite He in Hl. Qed.

Definition toy_kem (name : string) : KemScheme :=
  mkKem name (list byte) (list byte) (λ rnd, Some (hash rnd, hash rnd)) Some Some Some Some
    (λ rnd pk, Some (hash rnd, hash (pk ++ hash rnd))) (λ sk ct, Some (hash (sk ++ ct))).
Definition toy_sign : SignScheme :=
  mkSign (list byte) (list byte) (λ rnd, Some (hash rnd, hash rnd)) Some Some Some Some
    (λ sk m, hash (sk ++ m)) (λ pk m s, bool_decide (s = hash (pk ++ m))) Some.

#[export] Instance toy_kem_laws name : KemLaws (toy_kem name).
Proof.
  split.
  - intros rnd pk sk [= <- <-]. eexists _, _. split_and!; try done; apply hash_ne.
  - intros rnd rnd' pk sk [= <- <-]. eexists _, _. split_and!; try done; apply hash_ne.
Qed.
#[export] Instance toy_sign_laws : SignLaws toy_sign.
Proof.
  split.
  - intros rnd pk sk [= <- <-]. eexists _, _. split_and!; try done; apply hash_ne.
  - intros rnd pk sk m [= <- <-]. split; [apply hash_ne|]. by apply bool_decide_eq_true.
  - by intros rnd pk sk [= <- <-].
Qed.

Definition toy_lib : Circl :=
  mkCircl (toy_kem "Kyber512") (toy_kem "Kyber768") (toy_kem "Kyber1024") toy_sign toy_sign toy_sign.
#[export] Instance toy_lib_laws : CirclLaws toy_lib.
Proof. split; apply _. Qed.

Definition toy_cm : CryptoManager :=
  mkCM 1024 (mkKyber (Some (toy_kem "Kyber1024")) 256 no_stat no_stat no_stat) 3
    no_stat no_stat no_stat no_stat 0.
Definition toy_state : CryptoState := mkCS toy_cm (mkDilStats no_stat no_stat no_stat 0).
Definition toy_env : crypto_env := mkCryptoEnv [x01] (Some (replicate 12 x00)) (λ _, 5) 10 false.

Definition toy_kp : KyberKeyPair := mkKyberKeys (hash [x01]) (hash [x01]).
Definition toy_dk : DilithiumKeyPair := mkDilKeys (hash [x02]) (hash [x02]) 3.

Lemma toy_cm_new : NewCryptoManager toy_lib 1024 3 0 = Some (Ok toy_cm).
Proof. done. Qed.
Lemma toy_kp_pair : kem_pair toy_lib 1024 toy_kp.
Proof.
  exists (toy_kem "Kyber1024"), [x01], (hash [x01]), (hash [x01]).
  split_and!; [reflexivity..|apply hash_ne|apply hash_ne].
Qed.
Lemma toy_dk_pair : sign_pair toy_lib 3 toy_dk.
Proof.
  exists toy_sign, [x02], (hash [x02]), (hash [x02]).
  split_and!; [reflexivity..|apply hash_ne|apply hash_ne].
Qed.

Lemma combined_roundtrip_witness : ∃ s' t' ct enc sig,
  CombinedEncryptAndSign toy_lib toy_seal toy_env (hash [x01]) (Some toy_dk) [x2a] toy_state
    = (s', Ok (ct, enc, sig))
  ∧ CombinedDecryptAndVerify toy_lib toy_open toy_env (hash [x01]) (Some toy_dk) ct enc sig toy_state
    = (t', Ok ([x2a], true)).
Proof.
  apply (combined_roundtrip toy_lib toy_seal toy_open 1024 3 toy_env toy_env toy_kp toy_dk toy_dk
    [x2a] (replicate 12 x00) toy_state toy_state).
  - apply toy_open_seal.
  - apply (new_levels toy_lib 1024 3 0), toy_cm_new.
  - apply (new_levels toy_lib 1024 3 0), toy_cm_new.
  - apply toy_kp_pair.
  - apply toy_dk_pair.
  - reflexivity.
  - discriminate.
  - reflexivity.
  - reflexivity.
  - reflexivity.
Defined.
