(* ===== verification/TokenSupply.v ===== *)
(** * Token supply: src/common/token_supply.go

    Minting moves tokens from the treasury account, burning moves them back;
    [circulatingSupply] counts what is outside.  The detailed definitions
    compute on [float64]; an abstract ledger on integers specifies them and
    the refinement holds while sums stay below 2^53. *)
From Stdlib Require Import ZArith Lia SpecFloat.
From Stdlib Require Import Strings.Byte Strings.String.
From stdpp Require Import numbers prelude gmap strings.
From S2P Require Import Prelude GoFloat Maps Bytes Common Accounts.
Open Scope Z_scope.

Definition DefaultTotalSupply : f64 := f_of_Z 100000000.
Definition DefaultInitialFunding : f64 := f_of_Z 100.

(** The singleton together with the global account store it works on. *)
Record TokenSupply := mkSupply {
  accts : accounts_map;
  totalSupply : f64;
  circulatingSupply : f64;
  treasuryID : string }.

Definition with_accts (m : accounts_map) (ts : TokenSupply) : TokenSupply :=
  mkSupply m (totalSupply ts) (circulatingSupply ts) (treasuryID ts).
Definition with_circ (c : f64) (ts : TokenSupply) : TokenSupply :=
  mkSupply (accts ts) (totalSupply ts) c (treasuryID ts).

(** The singleton as [GetTokenSupply] creates it. *)
Definition GetTokenSupply (m : accounts_map) : TokenSupply :=
  mkSupply m DefaultTotalSupply f_zero "".

Definition Initialize (now : Z) (total : f64) (treasury : string) (ts : TokenSupply) :
    TokenSupply * result CommonError () :=
  if f_le total f_zero then (ts, Err ErrInvalidAmount)
  else
    let ts1 := mkSupply (accts ts) total (circulatingSupply ts) treasury in
    match GetAccount treasury (accts ts1) with
    | None =>
        match RegisterAccount (Some (blank_account treasury [] total now now)) (accts ts1) with
        | (_, Err e) => (ts1, Err e)
        | (m, Ok _) => (with_circ f_zero (with_accts m ts1), Ok ())
        end
    | Some acc =>
        (with_circ f_zero (with_accts (<[treasury := with_Balance total acc]> (accts ts1)) ts1),
         Ok ())
    end.

Definition GetTotalSupply (ts : TokenSupply) : f64 := totalSupply ts.
Definition GetCirculatingSupply (ts : TokenSupply) : f64 := circulatingSupply ts.
Definition GetTreasuryID (ts : TokenSupply) : string := treasuryID ts.
Definition GetTreasuryBalance (ts : TokenSupply) : f64 :=
  match GetAccount (treasuryID ts) (accts ts) with
  | None => f_zero
  | Some acc => acc_Balance acc
  end.

Definition MintTokens (id : string) (amount : f64) (ts : TokenSupply) :
    TokenSupply * result CommonError () :=
  if f_le amount f_zero then (ts, Err ErrInvalidAmount)
  else match GetAccount (treasuryID ts) (accts ts) with
  | None => (ts, Err ErrTreasuryNotFound)
  | Some treasury =>
      if f_lt (acc_Balance treasury) amount then (ts, Err ErrExceedsTotalSupply)
      else match UpdateAccountBalance (treasuryID ts) (f_neg amount) (accts ts) with
      | (m1, Err e) => (with_accts m1 ts, Err e)
      | (m1, Ok _) =>
          match UpdateAccountBalance id amount m1 with
          | (m2, Err e) =>
              (with_accts (UpdateAccountBalance (treasuryID ts) amount m2).1 ts, Err e)
          | (m2, Ok _) =>
              (with_circ (f_add (circulatingSupply ts) amount) (with_accts m2 ts), Ok ())
          end
      end
  end.

Definition BurnTokens (id : string) (amount : f64) (ts : TokenSupply) :
    TokenSupply * result CommonError () :=
  if f_le amount f_zero then (ts, Err ErrInvalidAmount)
  else match GetAccount id (accts ts) with
  | None => (ts, Err ErrBurnAccountNotFound)
  | Some account =>
      if f_lt (acc_Balance account) amount then (ts, Err ErrInsufficientFunds)
      else match UpdateAccountBalance id (f_neg amount) (accts ts) with
      | (m1, Err e) => (with_accts m1 ts, Err e)
      | (m1, Ok _) =>
          match UpdateAccountBalance (treasuryID ts) amount m1 with
          | (m2, Err e) =>
              (with_accts (UpdateAccountBalance id amount m2).1 ts, Err e)
          | (m2, Ok _) =>
              (with_circ (f_sub (circulatingSupply ts) amount) (with_accts m2 ts), Ok ())
          end
      end
  end.

Definition FundNewWallet (id : string) (amount : f64) (ts : TokenSupply) :
    TokenSupply * result CommonError () :=
  if f_le amount f_zero then (ts, Err ErrInvalidAmount) else MintTokens id amount ts.

(** * The abstract ledger *)

Record Ledger := mkLedger {
  l_bal : gmap string Z; l_circ : Z; l_treasury : string }.

(** Move [x] from [src] to [dst], both present. *)
Definition transfer (src dst : string) (x : Z) (m : gmap string Z) : option (gmap string Z) :=
  b ← m !! src;
  let m1 := <[src := b - x]> m in
  c ← m1 !! dst;
  Some (<[dst := c + x]> m1).

Definition spec_mint (id : string) (x : Z) (l : Ledger) : Ledger * result CommonError () :=
  if decide (x ≤ 0) then (l, Err ErrInvalidAmount)
  else match l_bal l !! l_treasury l with
  | None => (l, Err ErrTreasuryNotFound)
  | Some b =>
      if decide (b < x) then (l, Err ErrExceedsTotalSupply)
      else match transfer (l_treasury l) id x (l_bal l) with
           | None => (l, Err ErrAccountNotFound)
           | Some m => (mkLedger m (l_circ l + x) (l_treasury l), Ok ())
           end
  end.

Definition spec_burn (id : string) (x : Z) (l : Ledger) : Ledger * result CommonError () :=
  if decide (x ≤ 0) then (l, Err ErrInvalidAmount)
  else match l_bal l !! id with
  | None => (l, Err ErrBurnAccountNotFound)
  | Some b =>
      if decide (b < x) then (l, Err ErrInsufficientFunds)
      else match transfer id (l_treasury l) x (l_bal l) with
           | None => (l, Err ErrAccountNotFound)
           | Some m => (mkLedger m (l_circ l - x) (l_treasury l), Ok ())
           end
  end.

(** ** The refinement relation *)

(** The balances of the store are the integers of the ledger. *)
Definition bal_rel (m : accounts_map) (bal : gmap string Z) : Prop :=
  ∀ i, acc_Balance <$> m !! i = f_of_Z <$> bal !! i.

(** Balances are non-negative and everything together stays exact. *)
Definition bal_ok (bal : gmap string Z) : Prop :=
  (∀ i b, bal !! i = Some b → 0 ≤ b) ∧ exact_int (msum id bal).

Record refines (ts : TokenSupply) (l : Ledger) : Prop := {
  r_bal : bal_rel (accts ts) (l_bal l);
  r_ok : bal_ok (l_bal l);
  r_circ : circulatingSupply ts = f_of_Z (l_circ l);
  r_circ_exact : exact_int (l_circ l);
  r_treasury : treasuryID ts = l_treasury l }.

Lemma bal_rel_lookup m bal i : bal_rel m bal →
  match m !! i, bal !! i with
  | Some a, Some b => acc_Balance a = f_of_Z b
  | None, None => True
  | _, _ => False
  end.
Proof. intros H. specialize (H i). destruct (m !! i), (bal !! i); by simplify_eq/=. Qed.

Lemma bal_rel_insert m bal i a b : bal_rel m bal → acc_Balance a = f_of_Z b →
  bal_rel (<[i := a]> m) (<[i := b]> bal).
Proof.
  intros H Ha j. destruct (decide (i = j)) as [->|].
  - rewrite !lookup_insert_eq. simpl. by rewrite Ha.
  - by rewrite !lookup_insert_ne.
Qed.

Lemma bal_ok_range bal i b : bal_ok bal → bal !! i = Some b → 0 ≤ b ∧ exact_int b.
Proof.
  intros [H0 He] Hi. pose proof (H0 i b Hi).
  pose proof (msum_lookup_le id bal i b H0 Hi). unfold exact_int, id in *. lia.
Qed.

(** One update of one balance. *)
Lemma update_refines m bal i b x : bal_rel m bal → bal !! i = Some b →
  exact_int b → exact_int x → 0 ≤ b + x → exact_int (b + x) →
  ∃ m', UpdateAccountBalance i (f_of_Z x) m = (m', Ok ()) ∧ bal_rel m' (<[i := b + x]> bal).
Proof.
  intros Hr Hi Hb Hx Hbx Hs. unfold UpdateAccountBalance.
  pose proof (bal_rel_lookup m bal i Hr) as Hl. rewrite Hi in Hl.
  destruct (m !! i) as [a|]; [|done]. rewrite Hl, f_add_exact by done.
  rewrite <- f_of_Z_0, f_lt_exact, (proj2 (Z.ltb_ge _ _)) by (done || lia).
  eexists. split; [done|]. by apply bal_rel_insert.
Qed.

Lemma update_missing m bal i x : bal_rel m bal → bal !! i = None →
  UpdateAccountBalance i x m = (m, Err ErrAccountNotFound).
Proof.
  intros Hr Hi. unfold UpdateAccountBalance.
  pose proof (bal_rel_lookup m bal i Hr) as Hl. rewrite Hi in Hl. by destruct (m !! i).
Qed.

Lemma msum_insert_Z (bal : gmap string Z) i b c : bal !! i = Some b →
  msum id (<[i := c]> bal) = msum id bal - b + c.
Proof. intros Hi. by rewrite (msum_insert id bal i c b Hi). Qed.

(** The sum of two entries of the ledger. *)
Lemma transfer_ok src dst x bal bal' b : bal_ok bal → 0 < x ≤ b → bal !! src = Some b →
  transfer src dst x bal = Some bal' →
  ∃ c, <[src := b - x]> bal !! dst = Some c ∧ bal' = <[dst := c + x]> (<[src := b - x]> bal) ∧
    0 ≤ c ∧ exact_int c ∧ exact_int (c + x) ∧ bal_ok bal' ∧ msum id bal' = msum id bal.
Proof.
  intros Hok Hx Hb. unfold transfer. rewrite Hb. simpl.
  destruct (<[src := b - x]> bal !! dst) as [c|] eqn:Hc; [|done]. intros [= <-].
  destruct Hok as [H0 He]. pose proof (msum_insert_Z bal src b (b - x) Hb) as Hs1.
  pose proof (msum_insert_Z _ dst c (c + x) Hc) as Hs2.
  assert (∀ j a, <[src := b - x]> bal !! j = Some a → 0 ≤ a) as H1.
  { intros j a [[-> <-]|[? ?]]%lookup_insert_Some; [lia|eauto]. }
  pose proof (H1 dst c Hc).
  assert (∀ j a, <[dst := c + x]> (<[src := b - x]> bal) !! j = Some a → 0 ≤ a) as H2.
  { intros j a [[-> <-]|[? ?]]%lookup_insert_Some; [lia|eauto]. }
  pose proof (msum_lookup_le id _ dst (c + x) H2 (lookup_insert_eq _ _ _)).
  exists c. unfold bal_ok, exact_int, id in *. split_and!; try done; lia.
Qed.

(** Debit, credit, and the compensation when the credit fails. *)
Lemma move_refines m bal src dst x b : bal_rel m bal → bal_ok bal →
  bal !! src = Some b → 0 < x ≤ b →
  ∃ m1, UpdateAccountBalance src (f_neg (f_of_Z x)) m = (m1, Ok ()) ∧
    match transfer src dst x bal with
    | Some bal' => ∃ m2, UpdateAccountBalance dst (f_of_Z x) m1 = (m2, Ok ()) ∧
        bal_rel m2 bal' ∧ bal_ok bal' ∧ msum id bal' = msum id bal
    | None => UpdateAccountBalance dst (f_of_Z x) m1 = (m1, Err ErrAccountNotFound) ∧
        bal_rel (UpdateAccountBalance src (f_of_Z x) m1).1 bal
    end.
Proof.
  intros Hr Hok Hb Hx. destruct (bal_ok_range bal src b Hok Hb) as [Hb0 Hbe].
  assert (∀ z, - b ≤ z ≤ b → exact_int z) as Hex by (unfold exact_int in *; lia).
  rewrite f_neg_exact by (lia || (apply Hex; lia)).
  destruct (update_refines m bal src b (- x) Hr Hb) as (m1 & Hm1 & Hr1);
    [apply Hex; lia..|lia|apply Hex; lia|]. replace (b + - x) with (b - x) in Hr1 by lia.
  exists m1. split; [done|]. destruct (transfer src dst x bal) as [bal'|] eqn:Ht.
  - destruct (transfer_ok src dst x bal bal' b Hok Hx Hb Ht)
      as (c & Hc & -> & Hc0 & Hce & Hcx & Hok' & Hsum).
    destruct (update_refines m1 _ dst c x Hr1 Hc) as (m2 & Hm2 & Hr2);
      [done|apply Hex; lia|lia|done|]. eauto.
  - unfold transfer in Ht. rewrite Hb in Ht. simpl in Ht.
    destruct (<[src := b - x]> bal !! dst) as [c|] eqn:Hc; [done|].
    split; [by eapply update_missing|].
    destruct (update_refines m1 _ src (b - x) x Hr1) as (m2 & -> & Hr2);
      [by rewrite lookup_insert_eq|apply Hex; lia|apply Hex; lia|lia|apply Hex; lia|]. simpl.
    rewrite insert_insert_eq in Hr2. replace (b - x + x) with b in Hr2 by lia.
    by rewrite (insert_id bal) in Hr2.
Qed.

Lemma refines_circ ts l m bal c : refines ts l → bal_rel m bal → bal_ok bal → exact_int c →
  refines (with_circ (f_of_Z c) (with_accts m ts)) (mkLedger bal c (l_treasury l)).
Proof. intros [] ? ? ?. by split. Qed.

Lemma refines_accts ts l m : refines ts l → bal_rel m (l_bal l) → refines (with_accts m ts) l.
Proof. intros [] ?. by split. Qed.

(** Room for one more operation below 2^53. *)
Definition headroom (l : Ledger) : Prop :=
  Z.abs (l_circ l) + msum id (l_bal l) < 9007199254740992.

Lemma headroom_exact l i b x : headroom l → bal_ok (l_bal l) → l_bal l !! i = Some b →
  0 < x ≤ b → exact_int (l_circ l + x) ∧ exact_int (l_circ l - x).
Proof.
  intros Hh [H0 _] Hb Hx. pose proof (msum_lookup_le id _ i b H0 Hb).
  unfold headroom, exact_int, id in *. lia.
Qed.

Lemma mint_refines ts l who x : refines ts l → exact_int x → headroom l →
  refines (MintTokens who (f_of_Z x) ts).1 (spec_mint who x l).1 ∧
  (MintTokens who (f_of_Z x) ts).2 = (spec_mint who x l).2.
Proof.
  intros Href Hx Hh. pose proof Href as [Hr Hok Hc Hce Ht].
  unfold MintTokens, spec_mint, GetAccount. rewrite f_le_exact_0, Ht by done.
  destruct (Z.leb_spec x 0); [by rewrite decide_True by lia|rewrite decide_False by lia].
  pose proof (bal_rel_lookup _ _ (l_treasury l) Hr) as Hl.
  destruct (accts ts !! l_treasury l) as [a|], (l_bal l !! l_treasury l) as [b|] eqn:Hb; try done.
  destruct (bal_ok_range _ _ b Hok Hb) as [Hb0 Hbe]. rewrite Hl, f_lt_exact by done.
  destruct (Z.ltb_spec b x); [by rewrite decide_True by lia|rewrite decide_False by lia].
  destruct (move_refines (accts ts) (l_bal l) (l_treasury l) who x b Hr Hok Hb)
    as (m1 & -> & Hmove); [lia|].
  destruct (headroom_exact l (l_treasury l) b x) as [Hp Hm]; [done|done|done|lia|].
  destruct (transfer _ _ _ _) as [bal'|].
  - destruct Hmove as (m2 & -> & Hr2 & Hok2 & _). rewrite Hc, f_add_exact by done.
    split; [|done]. by apply (refines_circ ts l).
  - destruct Hmove as [-> Hr2]. split; [|done]. by apply refines_accts.
Qed.

Lemma burn_refines ts l who x : refines ts l → exact_int x → headroom l →
  refines (BurnTokens who (f_of_Z x) ts).1 (spec_burn who x l).1 ∧
  (BurnTokens who (f_of_Z x) ts).2 = (spec_burn who x l).2.
Proof.
  intros Href Hx Hh. pose proof Href as [Hr Hok Hc Hce Ht].
  unfold BurnTokens, spec_burn, GetAccount. rewrite f_le_exact_0, Ht by done.
  destruct (Z.leb_spec x 0); [by rewrite decide_True by lia|rewrite decide_False by lia].
  pose proof (bal_rel_lookup _ _ who Hr) as Hl.
  destruct (accts ts !! who) as [a|], (l_bal l !! who) as [b|] eqn:Hb; try done.
  destruct (bal_ok_range _ _ b Hok Hb) as [Hb0 Hbe]. rewrite Hl, f_lt_exact by done.
  destruct (Z.ltb_spec b x); [by rewrite decide_True by lia|rewrite decide_False by lia].
  destruct (move_refines (accts ts) (l_bal l) who (l_treasury l) x b Hr Hok Hb)
    as (m1 & -> & Hmove); [lia|].
  destruct (headroom_exact l who b x) as [Hp Hm]; [done|done|done|lia|].
  destruct (transfer _ _ _ _) as [bal'|].
  - destruct Hmove as (m2 & -> & Hr2 & Hok2 & _). rewrite Hc, f_sub_exact by done.
    split; [|done]. by apply (refines_circ ts l).
  - destruct Hmove as [-> Hr2]. split; [|done]. by apply refines_accts.
Qed.

(** * Properties *)

(** C11: [MintTokens] and [BurnTokens] refine the integer ledger: from
    related states they return the same error or success, and end in related
    states, compensation of a failed credit included. *)
Theorem mint_burn_refine ts l who x : refines ts l → exact_int x → headroom l →
  (refines (MintTokens who (f_of_Z x) ts).1 (spec_mint who x l).1 ∧
   (MintTokens who (f_of_Z x) ts).2 = (spec_mint who x l).2) ∧
  (refines (BurnTokens who (f_of_Z x) ts).1 (spec_burn who x l).1 ∧
   (BurnTokens who (f_of_Z x) ts).2 = (spec_burn who x l).2).
Proof. split; [by apply mint_refines|by apply burn_refines]. Qed.

(** What the treasury holds. *)
Definition treasury_bal (l : Ledger) : Z := default 0 (l_bal l !! l_treasury l).

(** The amount by which an operation on the account [who] moves
    circulating supply and treasury apart: the whole amount when [who] is the
    treasury itself and the operation succeeded, nothing otherwise. *)
Definition self_move (who : string) (x : Z) (r : result CommonError ()) (treasury : string) : Z :=
  if decide (who = treasury) then match r with Ok _ => x | Err _ => 0 end else 0.

(** What minting and burning do to the two sums. *)
Definition supply_moved (l l' : Ledger) (x : Z) : Prop :=
  l_treasury l' = l_treasury l ∧ msum id (l_bal l') = msum id (l_bal l) ∧
  l_circ l' + treasury_bal l' = l_circ l + treasury_bal l + x.

Lemma supply_moved_refl l x : x = 0 → supply_moved l l x.
Proof. intros ->. split_and!; [done|done|lia]. Qed.

Lemma self_move_err who x e t : self_move who x (Err e) t = 0.
Proof. unfold self_move. by case_decide. Qed.

Lemma treasury_bal_insert2 src dst u v m c t :
  treasury_bal (mkLedger (<[dst := v]> (<[src := u]> m)) c t)
    = if decide (t = dst) then v else if decide (t = src) then u else default 0 (m !! t).
Proof.
  unfold treasury_bal. cbn [l_bal l_treasury].
  destruct (decide (t = dst)) as [->|]; [by rewrite lookup_insert_eq|].
  destruct (decide (t = src)) as [->|]; [by rewrite lookup_insert_ne, lookup_insert_eq|].
  by rewrite !lookup_insert_ne.
Qed.

Lemma spec_mint_moved who x l : bal_ok (l_bal l) →
  supply_moved l (spec_mint who x l).1 (self_move who x (spec_mint who x l).2 (l_treasury l)).
Proof.
  intros Hok. unfold spec_mint.
  destruct (decide (x ≤ 0)); [by apply supply_moved_refl, self_move_err|].
  destruct (l_bal l !! l_treasury l) as [b|] eqn:Hb; [|by apply supply_moved_refl, self_move_err].
  destruct (decide (b < x)); [by apply supply_moved_refl, self_move_err|].
  destruct (transfer _ _ _ _) as [bal'|] eqn:Ht; [|by apply supply_moved_refl, self_move_err].
  destruct (transfer_ok _ _ x _ bal' b Hok ltac:(lia) Hb Ht)
    as (c & Hc & -> & _ & _ & _ & _ & Hsum).
  split_and!; [done|exact Hsum|]. cbn [fst snd l_circ]. rewrite treasury_bal_insert2.
  unfold treasury_bal, self_move. rewrite Hb. cbn.
  destruct (decide (l_treasury l = who)) as [<-|Hne].
  - rewrite lookup_insert_eq in Hc. injection Hc as <-. rewrite decide_True by done. lia.
  - rewrite decide_True, decide_False by congruence. lia.
Qed.

Lemma spec_burn_moved who x l : bal_ok (l_bal l) →
  supply_moved l (spec_burn who x l).1 (- self_move who x (spec_burn who x l).2 (l_treasury l)).
Proof.
  intros Hok. unfold spec_burn.
  destruct (decide (x ≤ 0)); [apply supply_moved_refl; cbn [snd]; by rewrite self_move_err|].
  destruct (l_bal l !! who) as [b|] eqn:Hb;
    [|apply supply_moved_refl; cbn [snd]; by rewrite self_move_err].
  destruct (decide (b < x)); [apply supply_moved_refl; cbn [snd]; by rewrite self_move_err|].
  destruct (transfer _ _ _ _) as [bal'|] eqn:Ht;
    [|apply supply_moved_refl; cbn [snd]; by rewrite self_move_err].
  destruct (transfer_ok _ _ x _ bal' b Hok ltac:(lia) Hb Ht)
    as (c & Hc & -> & _ & _ & _ & _ & Hsum).
  split_and!; [done|exact Hsum|]. cbn [fst snd l_circ]. rewrite treasury_bal_insert2.
  unfold treasury_bal, self_move. rewrite decide_True by done.
  destruct (decide (who = l_treasury l)) as [->|Hne].
  - rewrite lookup_insert_eq in Hc. injection Hc as <-. rewrite Hb. cbn. lia.
  - rewrite lookup_insert_ne in Hc by done. rewrite Hc. cbn. lia.
Qed.

(** A run of mints, burns and fundings with integer amounts, by anybody,
    successful or not; the list records the amounts the treasury minted to
    itself (positive) or burned of its own (negative). *)
Inductive supply_run (ts0 : TokenSupply) : list Z → TokenSupply → Prop :=
| run_none : supply_run ts0 [] ts0
| run_mint own ts who x : supply_run ts0 own ts → exact_int x →
    supply_run ts0 (self_move who x (MintTokens who (f_of_Z x) ts).2 (treasuryID ts) :: own)
      (MintTokens who (f_of_Z x) ts).1
| run_burn own ts who x : supply_run ts0 own ts → exact_int x →
    supply_run ts0 (- self_move who x (BurnTokens who (f_of_Z x) ts).2 (treasuryID ts) :: own)
      (BurnTokens who (f_of_Z x) ts).1
| run_fund own ts who x : supply_run ts0 own ts → exact_int x →
    supply_run ts0 (self_move who x (FundNewWallet who (f_of_Z x) ts).2 (treasuryID ts) :: own)
      (FundNewWallet who (f_of_Z x) ts).1.

Lemma FundNewWallet_MintTokens who a ts : FundNewWallet who a ts = MintTokens who a ts.
Proof. unfold FundNewWallet, MintTokens. by destruct (f_le a f_zero). Qed.

Lemma zsum_abs l : Z.abs (zsum l) ≤ zsum (Z.abs <$> l).
Proof. induction l as [|x l IH]; [done|]. cbn [fmap list_fmap]. rewrite !zsum_cons. lia. Qed.

Lemma supply_run_moved ts0 l0 own ts : refines ts0 l0 →
  supply_run ts0 own ts →
  Z.abs (l_circ l0 + treasury_bal l0) + 2 * msum id (l_bal l0) + zsum (Z.abs <$> own)
    < 9007199254740992 →
  ∃ l, refines ts l ∧ supply_moved l0 l (zsum own).
Proof.
  intros Hr0 Hrun. induction Hrun as [|own ts who x _ IH Hx|own ts who x _ IH Hx|own ts who x _ IH Hx];
    cbn [fmap list_fmap]; rewrite ?zsum_cons; intros Hroom;
    [by exists l0; split; [|apply supply_moved_refl]|..].
  all: destruct IH as (l & Hr & Ht & Hs & Hc); [lia|].
  all: assert (headroom l) as Hh.
  1, 3, 5: unfold headroom; destruct (r_ok _ _ Hr) as [H0 _];
    assert (0 ≤ treasury_bal l ≤ msum id (l_bal l)) as Hb;
    [unfold treasury_bal; destruct (l_bal l !! l_treasury l) as [b|] eqn:Hb; cbn [default];
       [split; [eauto|by eapply (msum_lookup_le id)]|split; [lia|by apply msum_nonneg]]
    |pose proof (zsum_abs own); lia].
  all: rewrite ?FundNewWallet_MintTokens, ?(r_treasury _ _ Hr).
  1, 3: destruct (mint_refines ts l who x Hr Hx Hh) as [H1 ->];
    destruct (spec_mint_moved who x l (r_ok _ _ Hr)) as (Ht' & Hs' & Hc');
    exists (spec_mint who x l).1; (split; [done|]); unfold supply_moved; split_and!; try congruence; lia.
  destruct (burn_refines ts l who x Hr Hx Hh) as [H1 ->].
  destruct (spec_burn_moved who x l (r_ok _ _ Hr)) as (Ht' & Hs' & Hc').
  exists (spec_burn who x l).1. split; [done|]. unfold supply_moved. split_and!; try congruence. lia.
Qed.

(** C7: conservation.  Over any sequence of mints, burns and wallet fundings
    with integer amounts, by anybody, while the sums stay below 2^53: the
    sum of all balances stays what it was and no balance becomes negative;
    treasury and circulating supply together change exactly by what the
    treasury minted to itself less what it burned of its own -- not at all
    when it does neither. *)
Theorem supply_conserved ts l own ts' : refines ts l → supply_run ts own ts' →
  Z.abs (l_circ l + treasury_bal l) + 2 * msum id (l_bal l) + zsum (Z.abs <$> own)
    < 9007199254740992 →
  ∃ l', refines ts' l' ∧ msum id (l_bal l') = msum id (l_bal l) ∧
    (∀ i b, l_bal l' !! i = Some b → 0 ≤ b) ∧
    l_circ l' + treasury_bal l' = l_circ l + treasury_bal l + zsum own ∧
    circulatingSupply ts' = f_of_Z (l_circ l + treasury_bal l + zsum own - treasury_bal l').
Proof.
  intros Hr Hrun Hroom. destruct (supply_run_moved ts l own ts' Hr Hrun Hroom) as (l' & Hr' & _ & Hs & Hc).
  exists l'. split_and!; try done; [apply (r_ok _ _ Hr')|]. rewrite (r_circ _ _ Hr'). f_equal. lia.
Qed.

(** Initialisation establishes the relation. *)
Lemma Initialize_refines now n treasury ts bal :
  bal_rel (accts ts) bal → bal_ok (<[treasury := n]> bal) → 0 < n → exact_int n →
  treasury ≠ EmptyString →
  ∃ ts', Initialize now (f_of_Z n) treasury ts = (ts', Ok ()) ∧
    refines ts' (mkLedger (<[treasury := n]> bal) 0 treasury).
Proof.
  intros Hr Hok Hn He Hne. unfold Initialize, GetAccount. simpl.
  rewrite f_le_exact_0, (proj2 (Z.leb_gt _ _) Hn) by done.
  destruct (accts ts !! treasury) as [a|] eqn:Ha.
  - eexists. split; [done|]. split; simpl; [by apply bal_rel_insert|done|done|done|done].
  - unfold RegisterAccount. simpl. rewrite bool_decide_false by done. eexists. split; [done|].
    split; simpl; [by apply bal_rel_insert|done|done|done|done].
Qed.

(** ** A concrete supply *)

Definition supply_sample : TokenSupply :=
  let m := (SetAccountBalance "alice" (f_of_Z 7) ∅).1 in
  (Initialize 0 (f_of_Z 1000) "treasury" (GetTokenSupply m)).1.
Definition ledger_sample : Ledger :=
  mkLedger (<["treasury" := 1000]> (<["alice" := 7]> ∅)) 0 "treasury".

Lemma sample_refines : refines supply_sample ledger_sample.
Proof.
  destruct (Initialize_refines 0 1000 "treasury"
    (GetTokenSupply (SetAccountBalance "alice" (f_of_Z 7) ∅).1) (<["alice" := 7]> ∅))
    as (ts' & Hi & Hr).
  - simpl. by apply bal_rel_insert.
  - split; [|by vm_compute].
    intros i b [[_ <-]|[_ [[_ <-]|[_ Hb]]%lookup_insert_Some]]%lookup_insert_Some; [lia|lia|].
    by rewrite lookup_empty in Hb.
  - lia.
  - by vm_compute.
  - done.
  - unfold supply_sample. by rewrite Hi.
Qed.

Lemma mint_burn_refine_witness :
  (refines (MintTokens "alice" (f_of_Z 5) supply_sample).1 (spec_mint "alice" 5 ledger_sample).1 ∧
   (MintTokens "alice" (f_of_Z 5) supply_sample).2 = (spec_mint "alice" 5 ledger_sample).2) ∧
  (refines (BurnTokens "alice" (f_of_Z 5) supply_sample).1 (spec_burn "alice" 5 ledger_sample).1 ∧
   (BurnTokens "alice" (f_of_Z 5) supply_sample).2 = (spec_burn "alice" 5 ledger_sample).2).
Proof.
  apply (mint_burn_refine supply_sample ledger_sample "alice" 5);
    [apply sample_refines|by vm_compute|by vm_compute].
Defined.

(** A mint, a burn and a mint by the treasury to itself. *)
Definition supply_three : TokenSupply :=
  (MintTokens "treasury" (f_of_Z 10)
    (BurnTokens "alice" (f_of_Z 3) (MintTokens "alice" (f_of_Z 5) supply_sample).1).1).1.

Lemma supply_three_run : supply_run supply_sample [10; 0; 0] supply_three.
Proof.
  assert (∃ own, supply_run supply_sample own supply_three ∧ own = [10; 0; 0]) as (own & H & <-);
    [|exact H].
  unfold supply_three. eexists. split.
  - eapply run_mint; [|by vm_compute]. eapply run_burn; [|by vm_compute].
    eapply run_mint; [apply run_none|by vm_compute].
  - by vm_compute.
Qed.

Lemma supply_conserved_witness :
  ∃ l', refines supply_three l' ∧ msum id (l_bal l') = msum id (l_bal ledger_sample) ∧
    (∀ i b, l_bal l' !! i = Some b → 0 ≤ b) ∧
    l_circ l' + treasury_bal l'
      = l_circ ledger_sample + treasury_bal ledger_sample + zsum [10; 0; 0] ∧
    circulatingSupply supply_three
      = f_of_Z (l_circ ledger_sample + treasury_bal ledger_sample + zsum [10; 0; 0]
          - treasury_bal l').
Proof.
  apply (supply_conserved supply_sample ledger_sample [10; 0; 0] supply_three).
  - apply sample_refines.
  - apply supply_three_run.
  - by vm_compute.
Defined.

(** Minting to the treasury itself moves nothing and still raises the
    circulating supply. *)
Example mint_to_treasury :
  let ts' := (MintTokens "treasury" (f_of_Z 10) supply_sample).1 in
  GetTreasuryBalance ts' = GetTreasuryBalance supply_sample ∧
  GetCirculatingSupply ts' = f_of_Z 10 ∧ GetCirculatingSupply supply_sample = f_zero.
Proof. by vm_compute. Qed.

(** Every guard is false on a NaN: minting NaN succeeds and turns both
    balances and the circulating supply into NaN. *)
Example mint_nan :
  let '(ts', r) := MintTokens "alice" S754_nan supply_sample in
  r = Ok () ∧ GetTreasuryBalance ts' = S754_nan ∧ GetCirculatingSupply ts' = S754_nan.
Proof. by vm_compute. Qed.

(** Amounts below the precision of the treasury's balance are created out of
    nothing: the treasury keeps all it had. *)
Example mint_dust :
  let ts := (Initialize 0 DefaultTotalSupply "treasury"
               (GetTokenSupply (SetAccountBalance "alice" f_zero ∅).1)).1 in
  let ts' := (MintTokens "alice" (f_lit 1 9) ts).1 in
  GetTreasuryBalance ts' = GetTreasuryBalance ts ∧
  acc_Balance <$> GetAccount "alice" (accts ts') = Some (f_lit 1 9).
Proof. by vm_compute. Qed.
