(* ===== verification/GoHeap.v ===== *)
(** * container/heap

    The algorithms of Go's [container/heap] over the interface
    [heap.Interface], the list instance with its correctness proof, and the
    laws under which any other implementation inherits it: an
    implementation is related to a list by an abstraction function that
    commutes with [Less] and [Swap]. *)
From Stdlib Require Import ZArith Lia.
From stdpp Require Import numbers prelude.
From S2P Require Import Prelude.
Open Scope nat_scope.

(** ** heap.Interface *)

Class HeapInterface (H : Type) := {
  Len : H → nat;
  Less : nat → nat → H → bool;
  Swap : nat → nat → H → H }.

Section algorithms.
Context `{HeapInterface H}.

(** Fuel [j] is enough: the index strictly decreases. *)
Fixpoint up (fuel j : nat) (h : H) : H :=
  match fuel with
  | O => h
  | S fuel =>
      let i := ((j - 1) / 2)%nat in
      if (i =? j)%nat || negb (Less j i h) then h else up fuel i (Swap i j h)
  end.

(** The final position; fuel [n] is enough, the index strictly increases. *)
Fixpoint down (fuel i n : nat) (h : H) : H * nat :=
  match fuel with
  | O => (h, i)
  | S fuel =>
      let j1 := (2 * i + 1)%nat in
      if (n <=? j1)%nat then (h, i)
      else
        let j2 := (j1 + 1)%nat in
        let j := if (j2 <? n)%nat && Less j2 j1 h then j2 else j1 in
        if negb (Less j i h) then (h, i) else down fuel j n (Swap i j h)
  end.

(** What [heap.Remove] and [heap.Fix] do at an index. *)
Definition sift (i n : nat) (h : H) : H :=
  let '(h, i') := down n i n h in
  if (i <? i')%nat then h else up i i h.

Definition fix_at (i : nat) (h : H) : H := sift i (Len h) h.

(** [heap.Pop] and [heap.Remove] up to the final [h.Pop()], which removes
    the last element; [None] is the index-out-of-range panic. *)
Definition pop_prepare (h : H) : option H :=
  match Len h with
  | O => None
  | S n => Some (down n 0 n (Swap 0 n h)).1
  end.

Definition remove_prepare (i : nat) (h : H) : option H :=
  if (Len h <=? i)%nat then None
  else
    let n := (Len h - 1)%nat in
    Some (if (n =? i)%nat then h else sift i n (Swap i n h)).

Fixpoint init_loop (i n : nat) (h : H) : H :=
  match i with
  | O => h
  | S i => init_loop i n (down n i n h).1
  end.
(** [heap.Init]. *)
Definition init (h : H) : H := init_loop (Len h / 2) (Len h) h.

(** [heap.Push] after [h.Push(x)]. *)
Definition push_finish (h : H) : H := up (Len h - 1) (Len h - 1) h.
End algorithms.

(** Whatever [Swap] preserves, the algorithms preserve. *)
Section preservation.
Context `{HeapInterface H} (P : H → Prop) (HP : ∀ i j h, P h → P (Swap i j h)).

Lemma up_preserves fuel : ∀ j h, P h → P (up fuel j h).
Proof using HP.
  induction fuel as [|fuel IH]; intros j h Hh; simpl; [done|]. case_match; [done|]. auto.
Qed.

Lemma down_preserves fuel : ∀ i n h, P h → P (down fuel i n h).1.
Proof using HP.
  induction fuel as [|fuel IH]; intros i n h Hh; cbn [down]; [done|].
  case_match; [done|]. case_match; [done|]. auto.
Qed.

Lemma sift_preserves i n h : P h → P (sift i n h).
Proof using HP.
  intros Hh. unfold sift. pose proof (down_preserves n i n h Hh) as Hd.
  destruct (down n i n h) as [h' i']. case_match; [done|]. by apply up_preserves.
Qed.

Lemma pop_prepare_preserves h h' : P h → pop_prepare h = Some h' → P h'.
Proof using HP.
  intros Hh. unfold pop_prepare. case_match; [done|]. intros [= <-].
  by apply down_preserves, HP.
Qed.

Lemma remove_prepare_preserves i h h' : P h → remove_prepare i h = Some h' → P h'.
Proof using HP.
  intros Hh. unfold remove_prepare. case_match; [done|]. intros [= <-].
  case_match; [done|]. by apply sift_preserves, HP.
Qed.
End preservation.

(** ** The list instance *)

Section lists.
Context {A : Type} (key : A → Z).

Definition swap_list (i j : nat) (l : list A) : list A :=
  match l !! i, l !! j with
  | Some a, Some b => <[i := b]> (<[j := a]> l)
  | _, _ => l
  end.

(** A max-heap on [key]. *)
Definition less_list (i j : nat) (l : list A) : bool :=
  match l !! i, l !! j with
  | Some a, Some b => (key b <? key a)%Z
  | _, _ => false
  end.

#[local] Instance list_heap : HeapInterface (list A) :=
  {| Len := length; Less := less_list; Swap := swap_list |}.

Definition parent (k : nat) : nat := (k - 1) / 2.

Definition kat (l : list A) (k : nat) : Z :=
  match l !! k with Some a => key a | None => 0 end.

(** The first [n] elements form a heap. *)
Definition heap_upto (n : nat) (l : list A) : Prop :=
  ∀ k : nat, 0 < k < n → (kat l k ≤ kat l (parent k))%Z.
Definition heap_ok (l : list A) : Prop := heap_upto (length l) l.

Lemma swap_list_alt i j l a b : l !! i = Some a → l !! j = Some b →
  swap_list i j l = <[i := b]> (<[j := a]> l).
Proof. unfold swap_list. by intros -> ->. Qed.

Lemma length_swap i j l : length (swap_list i j l) = length l.
Proof. unfold swap_list. repeat case_match; by rewrite ?length_insert. Qed.

Lemma lookup_swap i j l k : i < length l → j < length l →
  swap_list i j l !! k = if decide (k = i) then l !! j else if decide (k = j) then l !! i else l !! k.
Proof.
  intros Hi Hj. destruct (lookup_lt_is_Some_2 l i Hi) as [a Ha].
  destruct (lookup_lt_is_Some_2 l j Hj) as [b Hb].
  rewrite (swap_list_alt i j l a b Ha Hb).
  destruct (decide (k = i)) as [->|].
  - rewrite list_lookup_insert_eq by (by rewrite length_insert). done.
  - rewrite list_lookup_insert_ne by done. destruct (decide (k = j)) as [->|].
    + by rewrite list_lookup_insert_eq.
    + by rewrite list_lookup_insert_ne.
Qed.

Lemma kat_swap i j l k : i < length l → j < length l →
  kat (swap_list i j l) k =
  if decide (k = i) then kat l j else if decide (k = j) then kat l i else kat l k.
Proof.
  intros Hi Hj. unfold kat. rewrite lookup_swap by done. by repeat case_decide.
Qed.

Lemma kat_swap_l i j l : i < length l → j < length l → kat (swap_list i j l) i = kat l j.
Proof. intros. by rewrite kat_swap, decide_True. Qed.
Lemma kat_swap_r i j l : i < length l → j < length l → kat (swap_list i j l) j = kat l i.
Proof. intros. rewrite kat_swap by done. by repeat case_decide; subst. Qed.
Lemma kat_swap_ne i j k l : i < length l → j < length l → k ≠ i → k ≠ j →
  kat (swap_list i j l) k = kat l k.
Proof. intros. by rewrite kat_swap, !decide_False. Qed.

Lemma swap_perm i j l : swap_list i j l ≡ₚ l.
Proof.
  unfold swap_list. destruct (l !! i) as [a|] eqn:Ha; [|done].
  destruct (l !! j) as [b|] eqn:Hb; [|done].
  by apply Permutation_insert_swap.
Qed.

(** Heap except that position [j] may be larger than its parent. *)
Definition up_inv (n j : nat) (l : list A) : Prop :=
  (∀ k : nat, 0 < k < n → k ≠ j → (kat l k ≤ kat l (parent k))%Z) ∧
  (∀ k : nat, 0 < k < n → parent k = j → 0 < j → (kat l k ≤ kat l (parent j))%Z).

(** Heap except that position [i] may be smaller than its children. *)
Definition down_inv (n i : nat) (l : list A) : Prop :=
  (∀ k : nat, 0 < k < n → parent k ≠ i → (kat l k ≤ kat l (parent k))%Z) ∧
  (∀ k : nat, 0 < k < n → parent k = i → 0 < i → (kat l k ≤ kat l (parent i))%Z).

Lemma parent_child k i : 0 < k → parent k = i ↔ k = 2 * i + 1 ∨ k = 2 * i + 2.
Proof.
  intros Hk. unfold parent.
  pose proof (Nat.div_mod (k - 1) 2). pose proof (Nat.mod_upper_bound (k - 1) 2). lia.
Qed.

Lemma parent_lt k : 0 < k → parent k < k.
Proof. intros Hk. apply Nat.Div0.div_lt_upper_bound; lia. Qed.

Lemma parent_0 : parent 0 = 0.
Proof. done. Qed.

Lemma less_list_kat i j l : i < length l → j < length l →
  less_list i j l = (kat l j <? kat l i)%Z.
Proof.
  intros Hi Hj. unfold less_list, kat.
  destruct (lookup_lt_is_Some_2 l i Hi) as [a ->].
  by destruct (lookup_lt_is_Some_2 l j Hj) as [b ->].
Qed.

Lemma up_step n j l : 0 < j < n → n ≤ length l → up_inv n j l →
  (kat l (parent j) < kat l j)%Z → up_inv n (parent j) (swap_list (parent j) j l).
Proof.
  intros Hj Hn [H1 H2] Hlt. pose proof (parent_lt j) as Hpj.
  remember (parent j) as i eqn:Hi. assert (i < length l ∧ j < length l) as [Hil Hjl] by lia.
  pose proof (kat_swap_l i j l Hil Hjl) as Hsl. pose proof (kat_swap_r i j l Hil Hjl) as Hsr.
  pose proof (λ k, kat_swap_ne i j k l Hil Hjl) as Hsn.
  split; intros k Hk.
  - intros Hki. specialize (H1 k Hk). specialize (H2 k Hk).
    destruct (decide (k = j)) as [->|Hkj]; [rewrite <- Hi, Hsl, Hsr; lia|].
    rewrite (Hsn k) by done. destruct (decide (parent k = i)) as [Hp|Hp].
    + rewrite Hp in *. rewrite Hsl. lia.
    + destruct (decide (parent k = j)) as [Hp'|Hp']; [rewrite Hp', Hsr; lia|].
      rewrite Hsn by done. lia.
  - intros Hp H0. pose proof (parent_lt i) as Hpi. pose proof (parent_lt k) as Hpk.
    rewrite (Hsn (parent i)) by lia. pose proof (H1 i) as H1i. specialize (H1 k Hk).
    destruct (decide (k = j)) as [->|Hkj]; [rewrite Hsr; lia|].
    rewrite (Hsn k) by lia. rewrite Hp in H1. lia.
Qed.

Lemma up_inv_done n j l : up_inv n j l → (0 < j → (kat l j ≤ kat l (parent j))%Z) →
  heap_upto n l.
Proof.
  intros [H1 _] Hj k Hk. destruct (decide (k = j)) as [->|]; [apply Hj; lia|by apply H1].
Qed.

(** [up] restores the heap, and only permutes. *)
Lemma up_spec n fuel : ∀ j l, n ≤ length l → j < n → j ≤ fuel → up_inv n j l →
  heap_upto n (up fuel j l) ∧ up fuel j l ≡ₚ l ∧
  (∀ k, n ≤ k → up fuel j l !! k = l !! k).
Proof.
  induction fuel as [|fuel IH]; intros j l Hn Hj Hf Hinv;
    cbn [up Less Swap list_heap].
  - split_and!; [|done|done]. apply (up_inv_done n j); [done|intros; lia].
  - fold (parent j). destruct (decide (j = 0)) as [->|Hj0].
    { split_and!; [|done|done]. apply (up_inv_done n 0); [done|intros; lia]. }
    pose proof (parent_lt j ltac:(lia)). rewrite (proj2 (Nat.eqb_neq _ _)) by lia. cbn [orb].
    rewrite less_list_kat by lia. destruct (Z.ltb_spec (kat l (parent j)) (kat l j)); cbn [negb].
    + destruct (IH (parent j) (swap_list (parent j) j l)) as (IH1 & IH2 & IH3).
      * by rewrite length_swap.
      * lia.
      * lia.
      * apply up_step; [lia|done|done|done].
      * split_and!; [done|by rewrite IH2, swap_perm|].
        intros k Hk. rewrite IH3, lookup_swap, !decide_False by lia. done.
    + split_and!; [|done|done]. apply (up_inv_done n j); [done|intros; lia].
Qed.

Lemma length_up fuel : ∀ j l, length (up fuel j l) = length l.
Proof.
  induction fuel as [|fuel IH]; intros j l; [done|]. cbn [up Swap list_heap].
  case_match; [done|]. by rewrite IH, length_swap.
Qed.

Lemma length_down fuel : ∀ i n l, length (down fuel i n l).1 = length l.
Proof.
  induction fuel as [|fuel IH]; intros i n l; [done|]. cbn [down Swap list_heap].
  do 2 (case_match; [done|]). by rewrite IH, length_swap.
Qed.

Lemma down_step n i j l : 0 < j < n → n ≤ length l → parent j = i → down_inv n i l →
  (∀ k, 0 < k < n → parent k = i → (kat l k ≤ kat l j)%Z) → (kat l i < kat l j)%Z →
  down_inv n j (swap_list i j l).
Proof.
  intros Hj Hn Hi [H1 H2] Hmax Hlt. pose proof (parent_lt j) as Hpj.
  assert (i < length l ∧ j < length l) as [Hil Hjl] by lia.
  pose proof (kat_swap_l i j l Hil Hjl) as Hsl. pose proof (kat_swap_r i j l Hil Hjl) as Hsr.
  pose proof (λ k, kat_swap_ne i j k l Hil Hjl) as Hsn.
  split; intros k Hk Hp; pose proof (parent_lt k) as Hpk.
  - specialize (H1 k Hk). specialize (Hmax k Hk).
    destruct (decide (k = j)) as [->|Hkj]; [rewrite Hi, Hsl, Hsr; lia|].
    destruct (decide (k = i)) as [->|Hki].
    { rewrite Hsl, (Hsn (parent i)) by lia. apply (H2 j); [done|done|lia]. }
    rewrite (Hsn k) by done. destruct (decide (parent k = i)) as [Hpi|Hpi].
    + rewrite Hpi, Hsl. by apply Hmax.
    + rewrite Hsn by done. by apply H1.
  - intros _. rewrite (Hsn k), Hi, Hsl by lia. rewrite <- Hp. apply H1; [done|lia].
Qed.

Lemma down_inv_done n i l : down_inv n i l →
  (∀ k, 0 < k < n → parent k = i → (kat l k ≤ kat l i)%Z) → heap_upto n l.
Proof.
  intros [H1 _] Hc k Hk. destruct (decide (parent k = i)) as [Hp|Hp]; [|by apply H1].
  rewrite Hp. by apply Hc.
Qed.

(** The child [down] compares with. *)
Lemma down_child n i l : n ≤ length l → 2 * i + 1 < n →
  let j := if (2 * i + 1 + 1 <? n) && less_list (2 * i + 1 + 1) (2 * i + 1) l
           then 2 * i + 1 + 1 else 2 * i + 1 in
  0 < j < n ∧ parent j = i ∧ i < j ∧
  (∀ k, 0 < k < n → parent k = i → (kat l k ≤ kat l j)%Z).
Proof.
  intros Hn Hi j.
  assert (j = 2 * i + 1 ∨ j = 2 * i + 2) as Hj by (unfold j; case_match; lia).
  assert (0 < j < n) as Hjn.
  { split; [lia|]. unfold j. destruct (Nat.ltb_spec (2 * i + 1 + 1) n); simpl; [|lia].
    case_match; lia. }
  split_and!; [lia|lia|by apply parent_child; lia|lia|].
  intros k Hk Hp. apply parent_child in Hp; [|lia]. unfold j.
  destruct (Nat.ltb_spec (2 * i + 1 + 1) n) as [Hlt|Hge]; cbn [andb].
  - rewrite less_list_kat by lia.
    replace (2 * i + 2) with (2 * i + 1 + 1) in Hp by lia.
    destruct (Z.ltb_spec (kat l (2 * i + 1)) (kat l (2 * i + 1 + 1))); destruct Hp as [->| ->]; lia.
  - destruct Hp as [->| ->]; lia.
Qed.

(** [down] restores the heap in the first [n] places, and only permutes
    them. *)
Lemma down_spec n fuel : ∀ i l, n ≤ length l → n ≤ i + fuel → down_inv n i l →
  let '(l', i') := down fuel i n l in
  heap_upto n l' ∧ l' ≡ₚ l ∧ (∀ k, n ≤ k → l' !! k = l !! k) ∧ i ≤ i' ∧ (i' = i → l' = l).
Proof.
  induction fuel as [|fuel IH]; intros i l Hn Hf Hinv; cbn [down Less Swap list_heap].
  { split_and!; try done. apply (down_inv_done n i); [done|].
    intros k Hk Hp. apply parent_child in Hp; lia. }
  destruct (Nat.leb_spec n (2 * i + 1)) as [Hle|Hgt].
  { split_and!; try done. apply (down_inv_done n i); [done|].
    intros k Hk Hp. apply parent_child in Hp; lia. }
  pose proof (down_child n i l Hn Hgt) as Hc. cbv zeta in Hc.
  set (j := if _ && _ then _ else _) in *. clearbody j.
  destruct Hc as (Hj & Hp & Hij & Hmax). rewrite less_list_kat by lia.
  destruct (Z.ltb_spec (kat l i) (kat l j)) as [Hlt|Hge]; cbn [negb].
  - specialize (IH j (swap_list i j l)). rewrite length_swap in IH.
    specialize (IH Hn ltac:(lia) (down_step n i j l Hj Hn Hp Hinv Hmax Hlt)).
    destruct (down fuel j n (swap_list i j l)) as [l' i'].
    destruct IH as (IH1 & IH2 & IH3 & IH4 & _). split_and!; [done|by rewrite IH2, swap_perm| |lia|lia].
    intros k Hk. rewrite IH3, lookup_swap, !decide_False by lia. done.
  - split_and!; try done. apply (down_inv_done n i); [done|].
    intros k Hk Hpk. specialize (Hmax k Hk Hpk). lia.
Qed.

(** Nothing happens at a node that dominates its children. *)
Lemma down_noop n fuel i l : n ≤ length l →
  (∀ k, 0 < k < n → parent k = i → (kat l k ≤ kat l i)%Z) → down fuel i n l = (l, i).
Proof.
  intros Hn Hc. destruct fuel as [|fuel]; [done|]. cbn [down Less Swap list_heap].
  destruct (Nat.leb_spec n (2 * i + 1)) as [Hle|Hgt]; [done|].
  pose proof (down_child n i l Hn Hgt) as Hch. cbv zeta in Hch.
  set (j := if _ && _ then _ else _) in *. clearbody j.
  destruct Hch as (Hj & Hp & Hij & _). rewrite less_list_kat by lia.
  by rewrite (proj2 (Z.ltb_ge _ _) (Hc j Hj Hp)).
Qed.

(** A heap whose element at [i] was replaced by anything. *)
Definition broken_at (n i : nat) (l : list A) : Prop :=
  (∀ k : nat, 0 < k < n → k ≠ i → parent k ≠ i → (kat l k ≤ kat l (parent k))%Z) ∧
  (∀ k : nat, 0 < k < n → parent k = i → 0 < i → (kat l k ≤ kat l (parent i))%Z).

Lemma heap_up_inv n j l : heap_upto n l → j < n → up_inv n j l.
Proof.
  intros Hh Hj. split; [auto|]. intros k Hk Hp Hj0.
  pose proof (Hh k Hk). pose proof (Hh j). rewrite Hp in *. lia.
Qed.

Lemma sift_spec n i l : n ≤ length l → i < n → broken_at n i l →
  heap_upto n (sift i n l) ∧ sift i n l ≡ₚ l ∧ (∀ k, n ≤ k → sift i n l !! k = l !! k).
Proof.
  intros Hn Hi [H1 H2]. unfold sift.
  destruct (decide (0 < i ∧ (kat l (parent i) < kat l i)%Z)) as [[H0 Hlt]|Hle].
  - rewrite (down_noop n n i l Hn).
    + rewrite Nat.ltb_irrefl. apply up_spec; [done|done|done|]. split.
      * intros k Hk Hki. destruct (decide (parent k = i)) as [Hp|Hp]; [|by apply H1].
        rewrite Hp. specialize (H2 k Hk Hp H0). lia.
      * intros k Hk Hp _. by apply H2.
    + intros k Hk Hp. specialize (H2 k Hk Hp H0). lia.
  - assert (down_inv n i l) as Hd.
    { split; [|done]. intros k Hk Hp. destruct (decide (k = i)) as [->|]; [|by apply H1].
      destruct (Z.le_gt_cases (kat l i) (kat l (parent i))); [done|]. destruct Hle. lia. }
    pose proof (down_spec n n i l Hn ltac:(lia) Hd) as Hds.
    destruct (down n i n l) as [l' i']. destruct Hds as (Hh & Hp & Hk & Hii & Heq).
    destruct (Nat.ltb_spec i i'); [by split_and!|]. rewrite (Heq ltac:(lia)) in *.
    apply up_spec; [done|done|done|]. by apply heap_up_inv.
Qed.
Lemma swap_broken n i l : heap_ok l → length l = S n → i < n → broken_at n i (swap_list i n l).
Proof.
  intros Hh Hl Hi. unfold heap_ok in Hh. rewrite Hl in Hh.
  assert (∀ k, k < n → k ≠ i → kat (swap_list i n l) k = kat l k) as Hk.
  { intros k Hk Hki. apply kat_swap_ne; lia. }
  split; intros k Hkn; pose proof (parent_lt k); pose proof (parent_lt i).
  - intros Hki Hp. rewrite !Hk by lia. apply Hh. lia.
  - intros Hp Hi0. rewrite !Hk by lia. pose proof (Hh k). pose proof (Hh i).
    rewrite Hp in *. lia.
Qed.

Lemma remove_prepare_spec i l : heap_ok l → i < length l →
  ∃ l', remove_prepare i l = Some l' ∧ l' ≡ₚ l ∧
    l' !! (length l - 1) = l !! i ∧ heap_upto (length l - 1) l'.
Proof.
  intros Hh Hi. unfold remove_prepare. cbn [Len list_heap].
  destruct (Nat.leb_spec (length l) i); [lia|]. set (n := length l - 1).
  destruct (Nat.eqb_spec n i) as [<-|Hne].
  - exists l. split_and!; try done. intros k Hk. apply Hh. lia.
  - cbn [Swap list_heap]. eexists. split; [done|].
    destruct (sift_spec n i (swap_list i n l)) as (S1 & S2 & S3).
    + rewrite length_swap. lia.
    + lia.
    + apply swap_broken; [done|lia|lia].
    + split_and!; [by rewrite S2, swap_perm| |done].
      rewrite S3, lookup_swap, decide_False, decide_True by lia. done.
Qed.

Lemma pop_prepare_spec l : heap_ok l → l ≠ [] →
  ∃ l', pop_prepare l = Some l' ∧ l' ≡ₚ l ∧
    l' !! (length l - 1) = l !! 0 ∧ heap_upto (length l - 1) l'.
Proof.
  intros Hh Hne. unfold pop_prepare. cbn [Len list_heap].
  destruct (length l) as [|n] eqn:Hl; [by destruct l|]. cbn [Swap list_heap].
  eexists. split; [done|]. simpl. rewrite Nat.sub_0_r.
  destruct (decide (n = 0)) as [->|Hn].
  - destruct l as [|a []]; try done. by split_and!; [|done|intros k Hk; lia].
  - assert (down_inv n 0 (swap_list 0 n l)) as Hd.
    { destruct (swap_broken n 0 l Hh Hl ltac:(lia)) as [B1 B2]. split; [|lia].
      intros k Hk Hp. apply B1; [done|lia|done]. }
    pose proof (down_spec n n 0 (swap_list 0 n l)) as Hds. rewrite length_swap in Hds.
    specialize (Hds ltac:(lia) ltac:(lia) Hd).
    destruct (down n 0 n (swap_list 0 n l)) as [l' i']. destruct Hds as (D1 & D2 & D3 & _).
    simpl. split_and!; [by rewrite D2, swap_perm| |done].
    by rewrite D3, lookup_swap, decide_False, decide_True by lia.
Qed.

Lemma heap_max l k : heap_ok l → k < length l → (kat l k ≤ kat l 0)%Z.
Proof.
  intros Hh. induction k as [k IH] using lt_wf_ind. intros Hk.
  destruct (decide (k = 0)) as [->|]; [done|]. pose proof (parent_lt k ltac:(lia)).
  etrans; [apply Hh; lia|]. apply IH; lia.
Qed.

Lemma kat_app_l l x k : k < length l → kat (l ++ x) k = kat l k.
Proof. intros. unfold kat. by rewrite lookup_app_l. Qed.

Lemma push_finish_spec l x : heap_ok l →
  heap_ok (push_finish (l ++ [x])) ∧ push_finish (l ++ [x]) ≡ₚ x :: l.
Proof.
  intros Hh. unfold push_finish. cbn [Len list_heap].
  assert (length (l ++ [x]) - 1 = length l) as Hl by (rewrite length_app; simpl; lia).
  rewrite Hl. destruct (up_spec (length (l ++ [x])) (length l) (length l) (l ++ [x]))
    as (U1 & U2 & _); [done|rewrite length_app; simpl; lia|done| |].
  - split; intros k Hk; pose proof (parent_lt k) as Hp.
    + intros Hne. rewrite length_app in Hk. simpl in Hk.
      rewrite !kat_app_l by lia. apply Hh. lia.
    + intros Heq. rewrite length_app in Hk. simpl in Hk. lia.
  - split; [|by rewrite U2, Permutation_app_comm]. unfold heap_ok. by rewrite (Permutation_length U2).
Qed.

Lemma heap_take n l : n ≤ length l → heap_upto n l → heap_ok (take n l).
Proof.
  intros Hn Hh k Hk. rewrite length_take in Hk. unfold kat.
  pose proof (parent_lt k). rewrite !lookup_take_lt by lia. apply Hh. lia.
Qed.
End lists.

(** ** Other implementations *)

(** [arr] abstracts a queue to the list it represents. *)
Class HeapLaws {H A : Type} `{HeapInterface H} (key : A → Z) (wf : H → Prop)
    (arr : H → list A) : Prop := {
  law_len h : Len h = length (arr h);
  law_less h i j : wf h → i < Len h → j < Len h → Less i j h = less_list key i j (arr h);
  law_swap h i j : wf h → i < Len h → j < Len h →
    wf (Swap i j h) ∧ arr (Swap i j h) = swap_list i j (arr h) }.

Section simulation.
Context {H A : Type} `{HL : HeapLaws H A key wf arr}.
#[local] Existing Instance list_heap.

Lemma len_swap h i j : wf h → i < Len h → j < Len h → Len (Swap i j h) = Len h.
Proof.
  intros. rewrite !law_len. destruct (law_swap h i j) as [_ ->]; [done..|]. apply length_swap.
Qed.

Lemma up_sim fuel : ∀ j h, wf h → j < Len h →
  wf (up fuel j h) ∧ arr (up fuel j h) = @up _ (list_heap key) fuel j (arr h).
Proof.
  induction fuel as [|fuel IH]; intros j h Hwf Hj; [done|]. cbn [up].
  assert ((j - 1) / 2 ≤ j) as Hp by (apply Nat.Div0.div_le_upper_bound; lia).
  destruct (Nat.eqb_spec ((j - 1) / 2) j) as [He|He]; cbn [orb]; [done|].
  rewrite law_less by (done || lia). cbn [Less Swap list_heap].
  destruct (less_list key j ((j - 1) / 2) (arr h)); cbn [negb]; [|done].
  destruct (law_swap h ((j - 1) / 2) j) as [Hw Ha]; [done|lia|done|].
  destruct (IH ((j - 1) / 2) (Swap ((j - 1) / 2) j h)) as [IH1 IH2];
    [done|rewrite len_swap by (done || lia); lia|].
  split; [done|]. by rewrite IH2, Ha.
Qed.

Lemma down_sim fuel : ∀ i n h, wf h → n ≤ Len h →
  wf (down fuel i n h).1 ∧ (down fuel i n h).2 = (@down _ (list_heap key) fuel i n (arr h)).2 ∧
  arr (down fuel i n h).1 = (@down _ (list_heap key) fuel i n (arr h)).1.
Proof.
  induction fuel as [|fuel IH]; intros i n h Hwf Hn; [done|]. cbn [down].
  destruct (Nat.leb_spec n (2 * i + 1)) as [Hle|Hgt]; [done|]. cbn [Less Swap list_heap].
  assert ((2 * i + 1 + 1 <? n) && Less (2 * i + 1 + 1) (2 * i + 1) h
    = (2 * i + 1 + 1 <? n) && less_list key (2 * i + 1 + 1) (2 * i + 1) (arr h)) as ->.
  { destruct (Nat.ltb_spec (2 * i + 1 + 1) n); [|done]. by rewrite law_less by (done || lia). }
  set (j := if _ && _ then _ else _).
  assert (i < j < n) as Hj.
  { unfold j. destruct (Nat.ltb_spec (2 * i + 1 + 1) n); cbn [andb]; [case_match|]; lia. }
  clearbody j. rewrite law_less by (done || lia).
  destruct (less_list key j i (arr h)); cbn [negb]; [|done].
  destruct (law_swap h i j) as [Hw Ha]; [done|lia|lia|].
  destruct (IH j n (Swap i j h)) as (IH1 & IH2 & IH3); [done|rewrite len_swap by (done || lia); lia|].
  by rewrite IH2, IH3, Ha.
Qed.

Lemma len_arr h h' : length (arr h) = length (arr h') → Len h = Len h'.
Proof. by rewrite !law_len. Qed.

Lemma sift_sim i n h : wf h → n ≤ Len h → i < Len h →
  wf (sift i n h) ∧ arr (sift i n h) = @sift _ (list_heap key) i n (arr h).
Proof.
  intros Hwf Hn Hi. unfold sift. pose proof (down_sim n i n h Hwf Hn) as (D1 & D2 & D3).
  destruct (down n i n h) as [h' i'], (@down _ (list_heap key) n i n (arr h)) as [l' i''] eqn:Hd.
  simpl in *. subst i''. destruct (Nat.ltb_spec i i'); [by rewrite D3|].
  rewrite <- D3. apply up_sim; [done|]. erewrite len_arr; [done|]. rewrite D3.
  change l' with (l', i').1. rewrite <- Hd. apply length_down.
Qed.

Lemma push_finish_sim h : wf h → 0 < Len h →
  wf (push_finish h) ∧ arr (push_finish h) = @push_finish _ (list_heap key) (arr h).
Proof.
  intros Hwf Hn. unfold push_finish. cbn [Len list_heap]. rewrite <- law_len.
  apply up_sim; [done|lia].
Qed.

Lemma pop_prepare_sim h : wf h →
  match pop_prepare h with
  | Some h' => wf h' ∧ @pop_prepare _ (list_heap key) (arr h) = Some (arr h')
  | None => arr h = []
  end.
Proof.
  intros Hwf. unfold pop_prepare. cbn [Len Swap list_heap]. rewrite <- law_len.
  pose proof (law_len h) as Hl. destruct (Len h) as [|n] eqn:Hn; [by destruct (arr h)|].
  destruct (law_swap h 0 n) as [Hw Ha]; [done|lia|lia|].
  pose proof (down_sim n 0 n (Swap 0 n h) Hw) as (D1 & D2 & D3);
    [rewrite len_swap by (done || lia); lia|].
  split; [done|]. by rewrite D3, Ha.
Qed.

Lemma remove_prepare_sim i h : wf h →
  match remove_prepare i h with
  | Some h' => wf h' ∧ @remove_prepare _ (list_heap key) i (arr h) = Some (arr h')
  | None => length (arr h) ≤ i
  end.
Proof.
  intros Hwf. unfold remove_prepare. cbn [Len Swap list_heap]. rewrite <- law_len.
  destruct (Nat.leb_spec (Len h) i) as [Hle|Hgt]; [done|].
  destruct (Nat.eqb_spec (Len h - 1) i) as [He|He]; [done|].
  destruct (law_swap h i (Len h - 1)) as [Hw Ha]; [done|lia|lia|].
  destruct (sift_sim i (Len h - 1) (Swap i (Len h - 1) h) Hw) as [S1 S2];
    [rewrite len_swap by (done || lia); lia..|].
  split; [done|]. by rewrite S2, Ha.
Qed.
End simulation.
