(* ===== verification/TxQueue.v ===== *)
(** * The priority queue of the transaction pool

    [PriorityQueue] of src/transaction/transaction_pool.go: a slice of
    pointers to items that remember their own index.  Items live in a store
    indexed by locations, because the pool's map and the queue share them.
    The queue instantiates the heap interface and satisfies its laws, so
    the heap theory applies. *)
From Stdlib Require Import ZArith Lia Strings.String.
From stdpp Require Import numbers prelude gmap strings sorting.
From S2P Require Import Prelude GoFloat Maps Common GoHeap.
Open Scope nat_scope.

Abbreviation loc := positive (only parsing).

Record TransactionItem := mkItem {
  it_tx : Transaction;
  it_priority : Z;
  it_index : Z;
  it_insertTime : Z;
  it_size : Z }.

Definition set_index (i : Z) (it : TransactionItem) : TransactionItem :=
  mkItem (it_tx it) (it_priority it) i (it_insertTime it) (it_size it).
Definition set_priority (p : Z) (it : TransactionItem) : TransactionItem :=
  mkItem (it_tx it) p (it_index it) (it_insertTime it) (it_size it).

Record Queue := mkQueue {
  q_store : gmap loc TransactionItem;
  q_arr : list loc }.

Definition prio (s : gmap loc TransactionItem) (l : loc) : Z :=
  match s !! l with Some it => it_priority it | None => 0%Z end.

(** [pq[i].index = i], through the pointer. *)
Definition write_index (l : loc) (i : Z) (s : gmap loc TransactionItem) :
    gmap loc TransactionItem := alter (set_index i) l s.

Definition pq_Len (q : Queue) : nat := length (q_arr q).
Definition pq_Less (i j : nat) (q : Queue) : bool :=
  match q_arr q !! i, q_arr q !! j with
  | Some a, Some b => (prio (q_store q) b <? prio (q_store q) a)%Z
  | _, _ => false
  end.
Definition pq_Swap (i j : nat) (q : Queue) : Queue :=
  match q_arr q !! i, q_arr q !! j with
  | Some a, Some b =>
      mkQueue (write_index a (Z.of_nat j) (write_index b (Z.of_nat i) (q_store q)))
        (<[i := b]> (<[j := a]> (q_arr q)))
  | _, _ => q
  end.
Definition pq_Push (l : loc) (q : Queue) : Queue :=
  mkQueue (write_index l (Z.of_nat (length (q_arr q))) (q_store q)) (q_arr q ++ [l]).
Definition pq_Pop (q : Queue) : option (loc * Queue) :=
  l ← last (q_arr q);
  Some (l, mkQueue (write_index l (-1)%Z (q_store q)) (take (length (q_arr q) - 1) (q_arr q))).

#[export] Instance queue_heap : HeapInterface Queue :=
  {| Len := pq_Len; Less := pq_Less; Swap := pq_Swap |}.

(** [heap.Push], [heap.Pop] and [heap.Remove] on the queue; [None] is the
    index-out-of-range panic. *)
Definition heap_Push (l : loc) (q : Queue) : Queue := push_finish (pq_Push l q).
Definition heap_Pop (q : Queue) : option (loc * Queue) := q ← pop_prepare q; pq_Pop q.
Definition heap_Remove (i : Z) (q : Queue) : option (loc * Queue) :=
  if (i <? 0)%Z then None else q ← remove_prepare (Z.to_nat i) q; pq_Pop q.
(** [pq.Update(item, priority)]. *)
Definition pq_Update (l : loc) (p : Z) (q : Queue) : option Queue :=
  it ← q_store q !! l;
  let q := mkQueue (<[l := set_priority p it]> (q_store q)) (q_arr q) in
  if (it_index it <? 0)%Z || (Z.of_nat (Len q) <=? it_index it)%Z then None
  else Some (fix_at (Z.to_nat (it_index it)) q).

(** ** The laws *)

(** Every queued item is in the store, knows its index, and is queued once. *)
Record queue_wf (q : Queue) : Prop := {
  qw_nodup : NoDup (q_arr q);
  qw_index : ∀ i l, q_arr q !! i = Some l →
    ∃ it, q_store q !! l = Some it ∧ it_index it = Z.of_nat i }.

(** The abstraction: locations with their priorities. *)
Definition queue_arr (q : Queue) : list (loc * Z) :=
  (λ l, (l, prio (q_store q) l)) <$> q_arr q.

Definition item_key (x : loc * Z) : Z := x.2.

Lemma lookup_write_index l i s k :
  write_index l i s !! k = if decide (k = l) then set_index i <$> s !! k else s !! k.
Proof.
  unfold write_index. destruct (decide (k = l)) as [->|]; [by rewrite lookup_alter_eq|].
  by rewrite lookup_alter_ne.
Qed.

Lemma prio_write_index l i s k : prio (write_index l i s) k = prio s k.
Proof.
  unfold prio. rewrite lookup_write_index. case_decide; [|done]. by destruct (s !! k).
Qed.

Lemma fmap_pair_swap i j (l : list loc) f :
  (λ x : loc, (x, f x : Z)) <$> swap_list i j l
  = swap_list i j ((λ x, (x, f x)) <$> l).
Proof.
  unfold swap_list. rewrite !list_lookup_fmap.
  destruct (l !! i), (l !! j); simpl; try done. by rewrite !list_fmap_insert.
Qed.

#[export] Instance queue_laws : HeapLaws item_key queue_wf queue_arr.
Proof.
  split.
  - intros q. unfold queue_arr. by rewrite length_fmap.
  - intros q i j _ _ _. unfold Less, queue_heap, pq_Less, less_list, queue_arr.
    rewrite !list_lookup_fmap. by destruct (q_arr q !! i), (q_arr q !! j).
  - intros q i j [Hnd Hix] Hi Hj. unfold Len, queue_heap, pq_Len in Hi, Hj.
    destruct (lookup_lt_is_Some_2 _ i Hi) as [a Ha].
    destruct (lookup_lt_is_Some_2 _ j Hj) as [b Hb].
    unfold Swap, queue_heap, pq_Swap. rewrite Ha, Hb.
    assert (Hsw : <[i := b]> (<[j := a]> (q_arr q)) = swap_list i j (q_arr q))
      by by rewrite (swap_list_alt i j _ a b).
    split; [split; simpl|].
    + rewrite Hsw, swap_perm. done.
    + rewrite Hsw. intros k l Hk. rewrite lookup_swap in Hk by done.
      rewrite !lookup_write_index.
      destruct (decide (k = i)) as [->|Hki].
      { rewrite Hb in Hk. simplify_eq. destruct (Hix j l Hb) as (it & -> & _).
        rewrite (decide_True (P := l = l)) by done.
        destruct (decide (l = a)) as [->|]; simpl; eexists; (split; [done|]); simpl; [|done].
        by rewrite (NoDup_lookup _ i j a Hnd Ha Hb). }
      destruct (decide (k = j)) as [->|Hkj].
      { rewrite Ha in Hk. simplify_eq. destruct (Hix i l Ha) as (it & -> & _).
        rewrite (decide_True (P := l = l)) by done. case_decide; simpl; eexists; (split; [done|]); done. }
      assert (l ≠ a) by (intros ->; apply Hki; by eapply NoDup_lookup).
      assert (l ≠ b) by (intros ->; apply Hkj; by eapply NoDup_lookup).
      rewrite !decide_False by done. by apply Hix.
    + unfold queue_arr. simpl. rewrite Hsw.
      rewrite (list_fmap_ext _ (λ x, (x, prio (q_store q) x))); [apply fmap_pair_swap|].
      intros _ x _. by rewrite !prio_write_index.
Qed.

(** ** What the operations do *)

(** A well-formed queue in heap order. *)
Definition queue_ok (q : Queue) : Prop := queue_wf q ∧ heap_ok item_key (queue_arr q).

(** Everything about an item but its index. *)
Definition core (it : TransactionItem) : Transaction * Z * Z * Z :=
  (it_tx it, it_priority it, it_insertTime it, it_size it).
Definition same_core (s s' : gmap loc TransactionItem) : Prop :=
  ∀ l, core <$> s' !! l = core <$> s !! l.

#[export] Instance same_core_refl : Reflexive same_core.
Proof. by intros s l. Qed.
#[export] Instance same_core_trans : Transitive same_core.
Proof. intros a b c H1 H2 l. by rewrite (H2 l). Qed.

Lemma same_core_write l i s : same_core s (write_index l i s).
Proof.
  intros k. rewrite lookup_write_index. case_decide; [|done]. by destruct (s !! k).
Qed.

Lemma same_core_swap s0 i j q : same_core s0 (q_store q) → same_core s0 (q_store (Swap i j q)).
Proof.
  intros Hs. unfold Swap, queue_heap, pq_Swap. repeat case_match; try done. simpl.
  etrans; [done|]. etrans; [|apply same_core_write]. apply same_core_write.
Qed.

Lemma same_core_lookup s s' l it : same_core s s' → s !! l = Some it →
  ∃ it', s' !! l = Some it' ∧ core it' = core it.
Proof.
  intros Hs Hl. specialize (Hs l). rewrite Hl in Hs. destruct (s' !! l) as [it'|]; [|done].
  apply (inj Some) in Hs. eauto.
Qed.

Lemma same_core_prio s s' l : same_core s s' → prio s' l = prio s l.
Proof.
  intros Hs. specialize (Hs l). unfold prio. destruct (s !! l), (s' !! l); try done.
  apply (inj Some) in Hs. unfold core in Hs. congruence.
Qed.

Lemma fst_queue_arr q : (queue_arr q).*1 = q_arr q.
Proof. unfold queue_arr. rewrite <- list_fmap_compose. apply list_fmap_id. Qed.

Lemma queue_arr_ext q q' : q_arr q' = q_arr q → same_core (q_store q) (q_store q') →
  queue_arr q' = queue_arr q.
Proof.
  intros Ha Hs. unfold queue_arr. rewrite Ha. apply list_fmap_ext.
  intros _ l _. by rewrite (same_core_prio _ _ l Hs).
Qed.

(** Dropping the last element, once the rest is a heap. *)
Lemma pq_Pop_spec q l n : queue_wf q → q_arr q !! n = Some l → length (q_arr q) = S n →
  heap_upto item_key n (queue_arr q) →
  ∃ q', pq_Pop q = Some (l, q') ∧ queue_ok q' ∧ q_arr q ≡ₚ l :: q_arr q' ∧
    same_core (q_store q) (q_store q').
Proof.
  intros [Hnd Hix] Hl Hlen Hh.
  assert (q_arr q = take n (q_arr q) ++ [l]) as Happ.
  { rewrite <- (take_S_r _ _ _ Hl). symmetry. apply take_ge. lia. }
  assert (last (q_arr q) = Some l) as Hlast by (rewrite Happ; apply last_snoc).
  unfold pq_Pop. rewrite Hlast. simpl. eexists. split; [done|].
  rewrite Hlen. replace (S n - 1) with n by lia.
  rewrite Happ in Hnd. apply NoDup_app in Hnd as (Hnd & Hdis & _).
  assert (l ∉ take n (q_arr q)) as Hnl by (intros Hin; apply (Hdis l Hin); by left).
  split; [split|].
  - split; simpl; [done|]. intros i k Hk.
    assert (i < n) as Hi by (apply lookup_lt_Some in Hk; rewrite length_take in Hk; lia).
    rewrite lookup_write_index, decide_False.
    + apply Hix. by rewrite lookup_take_lt in Hk.
    + intros ->. apply Hnl. by eapply list_elem_of_lookup_2.
  - assert (queue_arr {| q_store := write_index l (-1) (q_store q); q_arr := take n (q_arr q) |}
      = take n (queue_arr q)) as ->.
    { unfold queue_arr. simpl. rewrite fmap_take. f_equal. apply list_fmap_ext.
      intros _ x _. by rewrite prio_write_index. }
    apply heap_take; [|done]. unfold queue_arr. rewrite length_fmap. lia.
  - split; [|apply same_core_write]. simpl. rewrite Permutation_cons_append. by rewrite <- Happ.
Qed.

Lemma queue_arr_perm q q' : queue_arr q ≡ₚ queue_arr q' → q_arr q ≡ₚ q_arr q'.
Proof. intros Hp. rewrite <- !fst_queue_arr. by rewrite Hp. Qed.

Lemma lookup_queue_arr q i l p : queue_arr q !! i = Some (l, p) → q_arr q !! i = Some l.
Proof.
  unfold queue_arr. rewrite list_lookup_fmap. destruct (q_arr q !! i); naive_solver.
Qed.

Lemma length_queue_arr q : length (queue_arr q) = length (q_arr q).
Proof. unfold queue_arr. by rewrite length_fmap. Qed.

Lemma heap_Push_spec l it q : queue_ok q → q_store q !! l = Some it → l ∉ q_arr q →
  queue_ok (heap_Push l q) ∧ q_arr (heap_Push l q) ≡ₚ l :: q_arr q ∧
  same_core (q_store q) (q_store (heap_Push l q)).
Proof.
  intros [[Hnd Hix] Hh] Hl Hn. unfold heap_Push.
  assert (queue_wf (pq_Push l q)) as Hwf.
  { split; simpl.
    - apply NoDup_app. split_and!; [done|set_solver|apply NoDup_singleton].
    - intros i k Hk. rewrite lookup_write_index. destruct (decide (k = l)) as [->|Hkl].
      + assert (i = length (q_arr q)) as ->.
        { apply lookup_app_Some in Hk as [Hk|[? Hk]].
          - exfalso. apply Hn. by eapply list_elem_of_lookup_2.
          - destruct (i - length (q_arr q)) eqn:Hi; simplify_eq/=. lia. }
        rewrite Hl. simpl. eauto.
      + apply Hix. apply lookup_app_Some in Hk as [Hk|[? Hk]]; [done|].
        destruct (i - length (q_arr q)) eqn:Hi; simplify_eq/=. }
  assert (queue_arr (pq_Push l q) = queue_arr q ++ [(l, prio (q_store q) l)]) as Ha.
  { unfold queue_arr. simpl. rewrite fmap_app. simpl. rewrite prio_write_index. f_equal.
    apply list_fmap_ext. intros _ x _. by rewrite prio_write_index. }
  destruct (push_finish_sim (pq_Push l q) Hwf) as [P1 P2].
  { simpl. unfold pq_Len. simpl. rewrite length_app. simpl. lia. }
  destruct (push_finish_spec item_key (queue_arr q) (l, prio (q_store q) l) Hh) as [S1 S2].
  rewrite Ha in P2. split; [split|split].
  - done.
  - by rewrite P2.
  - rewrite <- fst_queue_arr, P2, S2. simpl. by rewrite fst_queue_arr.
  - apply (up_preserves (λ q', same_core (q_store q) (q_store q'))).
    + intros i j h. apply same_core_swap.
    + apply same_core_write.
Qed.

Lemma heap_Pop_spec q : queue_ok q →
  match heap_Pop q with
  | None => q_arr q = []
  | Some (l, q') => queue_ok q' ∧ q_arr q ≡ₚ l :: q_arr q' ∧
      same_core (q_store q) (q_store q') ∧
      (∀ k, k ∈ q_arr q → (prio (q_store q) k ≤ prio (q_store q) l)%Z)
  end.
Proof.
  intros [Hwf Hh]. unfold heap_Pop. pose proof (pop_prepare_sim q Hwf) as Hs.
  pose proof (pop_prepare_preserves (λ q', same_core (q_store q) (q_store q'))
    (λ i j h, same_core_swap _ i j h) q) as Hc.
  destruct (pop_prepare q) as [q1|] eqn:Hq; simpl.
  - destruct Hs as [Hwf1 Hs].
    assert (queue_arr q ≠ []) as Hne by (intros He; by rewrite He in Hs).
    destruct (pop_prepare_spec item_key _ Hh Hne) as (l' & Hl' & Hp & Hlast & Hu).
    rewrite Hl' in Hs. simplify_eq.
    destruct (queue_arr q) as [|[l p] rest] eqn:Harr; [done|].
    simpl in Hlast, Hu. rewrite Nat.sub_0_r in Hlast, Hu.
    assert (length (q_arr q1) = S (length rest)) as Hlen.
    { by rewrite <- length_queue_arr, (Permutation_length Hp). }
    destruct (pq_Pop_spec q1 l (length rest) Hwf1 (lookup_queue_arr _ _ _ _ Hlast) Hlen Hu)
      as (q' & -> & Hok & Hp' & Hc').
    specialize (Hc q1 (same_core_refl _) eq_refl).
    split_and!; [done| |by etrans|].
    + rewrite <- Hp'. apply queue_arr_perm. by rewrite Harr, Hp.
    + intros k Hk. apply list_elem_of_lookup in Hk as [i Hi].
      assert (queue_arr q !! i = Some (k, prio (q_store q) k)) as Hqi
        by (unfold queue_arr; by rewrite list_lookup_fmap, Hi).
      assert (queue_arr q !! 0 = Some (l, prio (q_store q) l)) as Hq0.
      { rewrite Harr. simpl. unfold queue_arr in Harr.
        destruct (q_arr q); simplify_eq/=. done. }
      pose proof (heap_max item_key (queue_arr q) i) as Hm. rewrite Harr in Hm at 1.
      specialize (Hm Hh). unfold kat in Hm. rewrite Hqi, Hq0 in Hm. apply Hm.
      by apply lookup_lt_Some in Hqi.
  - rewrite <- fst_queue_arr. by rewrite Hs.
Qed.

Lemma heap_Remove_spec i l q : queue_ok q → q_arr q !! i = Some l →
  ∃ q', heap_Remove (Z.of_nat i) q = Some (l, q') ∧ queue_ok q' ∧
    q_arr q ≡ₚ l :: q_arr q' ∧ same_core (q_store q) (q_store q').
Proof.
  intros [Hwf Hh] Hi. unfold heap_Remove.
  rewrite (proj2 (Z.ltb_ge _ _)), Nat2Z.id by lia.
  pose proof (remove_prepare_sim i q Hwf) as Hs.
  pose proof (remove_prepare_preserves (λ q', same_core (q_store q) (q_store q'))
    (λ i j h, same_core_swap _ i j h) i q) as Hc.
  assert (queue_arr q !! i = Some (l, prio (q_store q) l)) as Hqi
    by (unfold queue_arr; by rewrite list_lookup_fmap, Hi).
  apply lookup_lt_Some in Hqi as Hlt.
  destruct (remove_prepare_spec item_key i (queue_arr q) Hh Hlt) as (l' & Hl' & Hp & Hlast & Hu).
  destruct (remove_prepare i q) as [q1|]; [|lia]. simpl. destruct Hs as [Hwf1 Hs].
  rewrite Hl' in Hs. simplify_eq. rewrite Hqi in Hlast.
  assert (length (q_arr q1) = S (length (queue_arr q) - 1)) as Hlen.
  { rewrite <- length_queue_arr, (Permutation_length Hp). lia. }
  destruct (pq_Pop_spec q1 l _ Hwf1 (lookup_queue_arr _ _ _ _ Hlast) Hlen Hu)
    as (q' & -> & Hok & Hp' & Hc').
  specialize (Hc q1 (same_core_refl _) eq_refl).
  exists q'. split_and!; [done|done| |by etrans].
  rewrite <- Hp'. apply queue_arr_perm. by rewrite Hp.
Qed.

(** * Properties *)

(** Popping until the queue is empty. *)
Fixpoint pop_all (fuel : nat) (q : Queue) : list loc :=
  match fuel with
  | O => []
  | S fuel =>
      match heap_Pop q with
      | None => []
      | Some (l, q) => l :: pop_all fuel q
      end
  end.

(** C4: the queue is a priority queue: popping a well-formed queue until it
    is empty yields every queued item exactly once, in non-increasing
    priority. *)
Theorem heap_pops_in_order q : queue_ok q →
  pop_all (length (q_arr q)) q ≡ₚ q_arr q ∧
  StronglySorted (λ a b, (prio (q_store q) b ≤ prio (q_store q) a)%Z)
    (pop_all (length (q_arr q)) q).
Proof.
  remember (length (q_arr q)) as n eqn:Hn. revert q Hn.
  induction n as [|n IH]; intros q Hn Hq; cbn [pop_all].
  { destruct (q_arr q); [|done]. split; [done|constructor]. }
  pose proof (heap_Pop_spec q Hq) as Hs. destruct (heap_Pop q) as [[l q']|].
  - destruct Hs as (Hq' & Hperm & Hc & Hmax).
    apply Permutation_length in Hperm as Hlen. simpl in Hlen.
    destruct (IH q') as [IH1 IH2]; [lia|done|]. split; [by rewrite IH1, Hperm|].
    constructor.
    + eapply StronglySorted_mono; [|exact IH2]. intros a b. cbn beta.
      by rewrite !(same_core_prio _ _ _ Hc).
    + apply Forall_forall. intros k Hk. apply Hmax. rewrite Hperm. right.
      by rewrite <- IH1.
  - by rewrite Hs in Hn.
Qed.

(** ** A concrete queue *)

Definition queue_item (p : Z) : TransactionItem :=
  mkItem (mkTx "" "" "" f_zero 0 [] 0 f_zero 0 "" [] 0 "" 0 "") p 0 0 0.
Definition queue_push (l : loc) (p : Z) (q : Queue) : Queue :=
  heap_Push l (mkQueue (<[l := queue_item p]> (q_store q)) (q_arr q)).
Definition queue_sample : Queue :=
  queue_push 3%positive 7 (queue_push 2%positive 9 (queue_push 1%positive 4 (mkQueue ∅ []))).

Lemma queue_sample_ok : queue_ok queue_sample.
Proof.
  split; [split|].
  - apply nodupb_true. by vm_compute.
  - intros i l Hi. change (q_arr queue_sample) with [2%positive; 1%positive; 3%positive] in Hi.
    destruct i as [|[|[|i]]]; simplify_eq/=; eexists; by split.
  - change (queue_arr queue_sample) with [(2%positive, 9%Z); (1%positive, 4%Z); (3%positive, 7%Z)].
    intros k Hk. simpl in Hk. destruct k as [|[|[|k]]]; try lia; by vm_compute.
Qed.

Lemma heap_pops_in_order_witness :
  pop_all 3 queue_sample ≡ₚ [2%positive; 1%positive; 3%positive] ∧
  StronglySorted (λ a b, (prio (q_store queue_sample) b ≤ prio (q_store queue_sample) a)%Z)
    (pop_all 3 queue_sample).
Proof. apply (heap_pops_in_order queue_sample), queue_sample_ok. Defined.
