(* ===== verification/TxPool.v ===== *)
(** * The transaction pool: src/transaction/transaction_pool.go

    The pool keeps every pending transaction twice, in a map by identifier
    and in the priority queue, both pointing to the same item, and indexes
    accounts by their highest nonce and their pending identifiers.

    The clock ([now], nanoseconds), the network load, the account store and
    signature verification are arguments; map iteration orders too.  A
    runtime panic is [None].  Transaction metadata is not modelled. *)
From Stdlib Require Import ZArith Lia SpecFloat.
From Stdlib Require Import Strings.Byte Strings.Ascii Strings.String.
From stdpp Require Import numbers prelude pretty gmap strings.
From S2P Require Import Prelude GoFloat Maps Bytes Common Accounts GoHeap TxQueue.
Open Scope Z_scope.

(** Why a transaction is refused. *)
Inductive Refusal :=
| RefCommon (e : CommonError)
| RefFeeBelowMinimum
| RefExpired
| RefTooOld
| RefSenderNotFound
| RefNoPublicKey
| RefSignatureError
| RefInvalidSignature
| RefNonce (nonce current : Z).

Inductive PoolError :=
| ErrPoolFull
| ErrTxNotFound
| ErrDuplicateTx
| ErrInvalidTx (r : Refusal)
| ErrEmptyAccount.

Record PoolMetrics := mkMetrics {
  TotalTxs : Z;
  ExpiredTxs : Z;
  ValidTxs : Z;
  InvalidTxs : Z;
  TotalFees : f64;
  LastCleanupTime : Z;
  LastOptimizationTime : Z;
  AvgTxSize : Z;
  MemoryUsage : Z;
  PriorityDistribution : gmap string Z }.

Record TransactionPool := mkPool {
  queue : Queue; (* pendingTxs, and the heap of items *)
  nextLoc : loc;
  txMap : gmap string loc;
  maxPoolSize : Z;
  txTimeout : Z;
  minFee : f64;
  maxFee : f64;
  conflictResolutionEnabled : bool;
  expirationDuration : Z;
  poolMetrics : PoolMetrics;
  keyManager : bool;
  accountNonces : gmap string Z;
  accountTxs : gmap string (gset string);
  lastCleanupTime : Z;
  totalAdded : Z;
  totalRemoved : Z;
  totalExpired : Z;
  totalEvicted : Z }.

Definition pendingTxs (p : TransactionPool) : list loc := q_arr (queue p).
Definition item_at (p : TransactionPool) (l : loc) : option TransactionItem :=
  q_store (queue p) !! l.

Definition with_queue (q : Queue) (p : TransactionPool) : TransactionPool :=
  mkPool q (nextLoc p) (txMap p) (maxPoolSize p) (txTimeout p) (minFee p) (maxFee p)
    (conflictResolutionEnabled p) (expirationDuration p) (poolMetrics p) (keyManager p)
    (accountNonces p) (accountTxs p) (lastCleanupTime p) (totalAdded p) (totalRemoved p)
    (totalExpired p) (totalEvicted p).
Definition with_txMap (m : gmap string loc) (p : TransactionPool) : TransactionPool :=
  mkPool (queue p) (nextLoc p) m (maxPoolSize p) (txTimeout p) (minFee p) (maxFee p)
    (conflictResolutionEnabled p) (expirationDuration p) (poolMetrics p) (keyManager p)
    (accountNonces p) (accountTxs p) (lastCleanupTime p) (totalAdded p) (totalRemoved p)
    (totalExpired p) (totalEvicted p).
Definition with_minFee (f : f64) (p : TransactionPool) : TransactionPool :=
  mkPool (queue p) (nextLoc p) (txMap p) (maxPoolSize p) (txTimeout p) f (maxFee p)
    (conflictResolutionEnabled p) (expirationDuration p) (poolMetrics p) (keyManager p)
    (accountNonces p) (accountTxs p) (lastCleanupTime p) (totalAdded p) (totalRemoved p)
    (totalExpired p) (totalEvicted p).
Definition with_metrics (m : PoolMetrics) (p : TransactionPool) : TransactionPool :=
  mkPool (queue p) (nextLoc p) (txMap p) (maxPoolSize p) (txTimeout p) (minFee p) (maxFee p)
    (conflictResolutionEnabled p) (expirationDuration p) m (keyManager p)
    (accountNonces p) (accountTxs p) (lastCleanupTime p) (totalAdded p) (totalRemoved p)
    (totalExpired p) (totalEvicted p).
Definition with_accounts (n : gmap string Z) (t : gmap string (gset string))
    (p : TransactionPool) : TransactionPool :=
  mkPool (queue p) (nextLoc p) (txMap p) (maxPoolSize p) (txTimeout p) (minFee p) (maxFee p)
    (conflictResolutionEnabled p) (expirationDuration p) (poolMetrics p) (keyManager p)
    n t (lastCleanupTime p) (totalAdded p) (totalRemoved p)
    (totalExpired p) (totalEvicted p).
Definition with_cleanup (t : Z) (p : TransactionPool) : TransactionPool :=
  mkPool (queue p) (nextLoc p) (txMap p) (maxPoolSize p) (txTimeout p) (minFee p) (maxFee p)
    (conflictResolutionEnabled p) (expirationDuration p) (poolMetrics p) (keyManager p)
    (accountNonces p) (accountTxs p) t (totalAdded p) (totalRemoved p)
    (totalExpired p) (totalEvicted p).
Definition with_totals (a r e v : Z) (p : TransactionPool) : TransactionPool :=
  mkPool (queue p) (nextLoc p) (txMap p) (maxPoolSize p) (txTimeout p) (minFee p) (maxFee p)
    (conflictResolutionEnabled p) (expirationDuration p) (poolMetrics p) (keyManager p)
    (accountNonces p) (accountTxs p) (lastCleanupTime p) a r e v.

Definition with_TotalTxs (n : Z) (m : PoolMetrics) : PoolMetrics :=
  mkMetrics n (ExpiredTxs m) (ValidTxs m) (InvalidTxs m) (TotalFees m) (LastCleanupTime m)
    (LastOptimizationTime m) (AvgTxSize m) (MemoryUsage m) (PriorityDistribution m).
Definition with_InvalidTxs (n : Z) (m : PoolMetrics) : PoolMetrics :=
  mkMetrics (TotalTxs m) (ExpiredTxs m) (ValidTxs m) n (TotalFees m) (LastCleanupTime m)
    (LastOptimizationTime m) (AvgTxSize m) (MemoryUsage m) (PriorityDistribution m).
Definition with_LastOptimization (t : Z) (m : PoolMetrics) : PoolMetrics :=
  mkMetrics (TotalTxs m) (ExpiredTxs m) (ValidTxs m) (InvalidTxs m) (TotalFees m)
    (LastCleanupTime m) t (AvgTxSize m) (MemoryUsage m) (PriorityDistribution m).
Definition with_Fees (f : f64) (m : PoolMetrics) : PoolMetrics :=
  mkMetrics (TotalTxs m) (ExpiredTxs m) (ValidTxs m) (InvalidTxs m) f (LastCleanupTime m)
    (LastOptimizationTime m) (AvgTxSize m) (MemoryUsage m) (PriorityDistribution m).

Definition NewTransactionPool (now maxSize timeout : Z) (minF maxF : f64) (expiration : Z)
    (km conflicts : bool) : option TransactionPool :=
  if maxSize <? 0 then None (* make with a negative capacity *)
  else
    Some (mkPool (init (mkQueue ∅ [])) 1 ∅ maxSize timeout minF maxF conflicts expiration
      (mkMetrics 0 0 0 0 f_zero 0 0 0 0 ∅) km ∅ ∅ now 0 0 0 0).

Section pool.
(** [crypto.VerifySignature], [None] for an error. *)
Variable VerifySignature : list byte → list byte → list byte → option bool.
(** What a [float64] outside the range of [int] converts to. *)
Variable wild_int : f64 → Z.

Definition unix (now : Z) : Z := now / second.

(** ** Adding a transaction *)

Definition estimateTransactionSize (tx : Transaction) : Z :=
  200 + Z.of_nat (length (tx_Data tx)).

Definition verifySignature (accs : accounts_map) (tx : Transaction) : result Refusal bool :=
  match GetAccount (tx_Sender tx) accs with
  | None => Err RefSenderNotFound
  | Some acc =>
      if (length (acc_PublicKey acc) =? 0)%nat then Err RefNoPublicKey
      else match VerifySignature (acc_PublicKey acc) (list_byte_of_string (tx_ID tx))
                   (tx_Signature tx) with
           | None => Err RefSignatureError
           | Some valid => Ok valid
           end
  end.

Definition validateTransaction (now : Z) (accs : accounts_map) (tx : Transaction)
    (p : TransactionPool) : result Refusal () :=
  match ValidateTransaction (unix now) tx with
  | Err e => Err (RefCommon e)
  | Ok _ =>
    if f_lt (tx_Fee tx) (minFee p) then Err RefFeeBelowMinimum
    else if (0 <? tx_ExpiryTime tx) && (tx_ExpiryTime tx <=? unix now) then Err RefExpired
    else if to_int wild_int (dur_seconds (expirationDuration p)) <? i64 (unix now - tx_Timestamp tx)
    then Err RefTooOld
    else
      let sig :=
        if keyManager p && negb (length (tx_Signature tx) =? 0)%nat then
          match verifySignature accs tx with
          | Err e => Err e
          | Ok false => Err RefInvalidSignature
          | Ok true => Ok ()
          end
        else Ok () in
      match sig with
      | Err e => Err e
      | Ok _ =>
          match accountNonces p !! tx_Sender tx with
          | Some current =>
              if tx_Nonce tx <=? current then Err (RefNonce (tx_Nonce tx) current) else Ok ()
          | None => Ok ()
          end
      end
  end.

Definition calculatePriority (now : Z) (tx : Transaction) : Z :=
  let estimatedSize := 1024 + Z.of_nat (length (tx_Data tx)) in
  let feePerByte := f_div (f_mul (tx_Fee tx) (f_of_Z 1024)) (f_of_Z estimatedSize) in
  let ageSeconds := i64 (unix now - tx_Timestamp tx) in
  let ageFactor := f_div (f_of_Z ageSeconds) (f_of_Z 3600) in
  let ageFactor := if f_gt ageFactor (f_of_Z 10) then f_of_Z 10 else ageFactor in
  let rawPriority := f_add (f_mul feePerByte (f_of_Z 10)) ageFactor in
  let scaled := to_int wild_int (f_mul rawPriority (f_of_Z 5)) in
  let scaled := if 100 <? scaled then 100 else scaled in
  if scaled <? 0 then 0 else scaled.

Definition adjustFeesBasedOnLoad (networkLoad : Z) (p : TransactionPool) : TransactionPool :=
  let loadFactor := f_div (f_of_Z networkLoad) (f_of_Z 100) in
  let originalMinFee := minFee p in
  let f1 :=
    if 75 <? networkLoad then f_mul originalMinFee (f_add f_one loadFactor)
    else if networkLoad <? 25 then
      f_mul originalMinFee (f_add (f_lit 8 1) (f_mul (f_lit 2 1) loadFactor))
    else f_mul originalMinFee (f_add (f_lit 9 1) (f_mul (f_lit 2 1) loadFactor)) in
  let floor := f_mul originalMinFee (f_lit 5 1) in
  let f2 := if f_lt f1 floor then floor else f1 in
  let f3 := if f_gt f2 (maxFee p) then maxFee p else f2 in
  with_minFee f3 p.

(** [delete(accTxs, txID)] and the removal of an emptied set. *)
Definition drop_account_tx (acct id : string) (m : gmap string (gset string)) :
    gmap string (gset string) :=
  match m !! acct with
  | None => m
  | Some ids =>
      let ids := ids ∖ {[id]} in
      if decide (ids = ∅) then delete acct m else <[acct := ids]> m
  end.

(** One iteration of the eviction loop; [None] is a panic. *)
Definition evict_one (p : TransactionPool) : option TransactionPool :=
  '(l, q) ← heap_Pop (queue p);
  it ← q_store q !! l;
  let id := tx_ID (it_tx it) in
  let p := with_txMap (delete id (txMap p)) (with_queue q p) in
  let p := with_accounts (accountNonces p)
             (drop_account_tx (tx_Sender (it_tx it)) id (accountTxs p)) p in
  Some (with_totals (totalAdded p) (totalRemoved p) (totalExpired p)
          (uadd (totalEvicted p) 1) p).

Fixpoint evict (n : nat) (p : TransactionPool) : option TransactionPool :=
  match n with
  | O => Some p
  | S n =>
      if (length (pendingTxs p) =? 0)%nat then Some p
      else p ← evict_one p; evict n p
  end.

Definition optimizePool (now netLoad : Z) (p : TransactionPool) : option TransactionPool :=
  let currentSize := Z.of_nat (length (pendingTxs p)) in
  let targetSize := to_int wild_int (f_mul (f_of_Z (maxPoolSize p)) (f_lit 8 1)) in
  if currentSize <=? targetSize then Some p
  else
    let p := adjustFeesBasedOnLoad netLoad p in
    p ← evict (Z.to_nat (i64 (currentSize - targetSize))) p;
    Some (with_metrics (with_TotalTxs (Z.of_nat (length (pendingTxs p)))
            (with_LastOptimization now (poolMetrics p))) p).

Definition add_account_tx (acct id : string) (m : gmap string (gset string)) :
    gmap string (gset string) :=
  <[acct := {[id]} ∪ default ∅ (m !! acct)]> m.

(** Steps 4 to 10 of [AddTransaction]. *)
Definition insertTransaction (now : Z) (tx : Transaction) (p : TransactionPool) :
    option TransactionPool :=
  let size := estimateTransactionSize tx in
  let item := mkItem tx (calculatePriority now tx) 0 now size in
  let l := nextLoc p in
  let q := heap_Push l (mkQueue (<[l := item]> (q_store (queue p))) (q_arr (queue p))) in
  let nonces :=
    match accountNonces p !! tx_Sender tx with
    | Some current =>
        if current <? tx_Nonce tx then <[tx_Sender tx := tx_Nonce tx]> (accountNonces p)
        else accountNonces p
    | None => <[tx_Sender tx := tx_Nonce tx]> (accountNonces p)
    end in
  let acc := add_account_tx (tx_Sender tx) (tx_ID tx) (accountTxs p) in
  let acc := if bool_decide (tx_SmartContractID tx = EmptyString) then acc
             else add_account_tx (tx_SmartContractID tx) (tx_ID tx) acc in
  let m := poolMetrics p in
  let total := i64 (TotalTxs m + 1) in
  if total =? 0 then None (* division by zero *)
  else
    let avg := Z.quot (i64 (i64 (AvgTxSize m * i64 (total - 1)) + size)) total in
    let m := mkMetrics total (ExpiredTxs m) (i64 (ValidTxs m + 1)) (InvalidTxs m)
               (f_add (TotalFees m) (tx_Fee tx)) (LastCleanupTime m) (LastOptimizationTime m)
               avg (MemoryUsage m) (PriorityDistribution m) in
    Some (mkPool q (Pos.succ l) (<[tx_ID tx := l]> (txMap p)) (maxPoolSize p) (txTimeout p)
            (minFee p) (maxFee p) (conflictResolutionEnabled p) (expirationDuration p) m
            (keyManager p) nonces acc (lastCleanupTime p) (uadd (totalAdded p) 1)
            (totalRemoved p) (totalExpired p) (totalEvicted p)).

Definition AddTransaction (now netLoad : Z) (accs : accounts_map) (tx : Transaction)
    (p : TransactionPool) : option (TransactionPool * result PoolError ()) :=
  match txMap p !! tx_ID tx with
  | Some _ => Some (p, Err ErrDuplicateTx)
  | None =>
      p1 ← (if maxPoolSize p <=? Z.of_nat (length (pendingTxs p))
            then optimizePool now netLoad p else Some p);
      if maxPoolSize p1 <=? Z.of_nat (length (pendingTxs p1)) then Some (p1, Err ErrPoolFull)
      else match validateTransaction now accs tx p1 with
           | Err r =>
               Some (with_metrics (with_InvalidTxs (i64 (InvalidTxs (poolMetrics p1) + 1))
                       (poolMetrics p1)) p1, Err (ErrInvalidTx r))
           | Ok _ => p2 ← insertTransaction now tx p1; Some (p2, Ok ())
           end
  end.

(** ** Removing transactions *)

(** [heap.Remove] of a mapped item and its map entry. *)
Definition remove_item (id : string) (l : loc) (p : TransactionPool) :
    option (TransactionPool * TransactionItem) :=
  it ← item_at p l;
  '(_, q) ← heap_Remove (it_index it) (queue p);
  Some (with_txMap (delete id (txMap p)) (with_queue q p), it).

Definition RemoveTransaction (id : string) (p : TransactionPool) :
    option (TransactionPool * result PoolError ()) :=
  match txMap p !! id with
  | None => Some (p, Err ErrTxNotFound)
  | Some l =>
      '(p1, it) ← remove_item id l p;
      let acc := drop_account_tx (tx_Sender (it_tx it)) id (accountTxs p1) in
      let acc := if bool_decide (tx_SmartContractID (it_tx it) = EmptyString) then acc
                 else drop_account_tx (tx_SmartContractID (it_tx it)) id acc in
      let m := poolMetrics p1 in
      let m := with_Fees (f_sub (TotalFees m) (tx_Fee (it_tx it)))
                 (with_TotalTxs (i64 (TotalTxs m - 1)) m) in
      let p2 := with_metrics m (with_accounts (accountNonces p1) acc p1) in
      Some (with_totals (totalAdded p2) (uadd (totalRemoved p2) 1) (totalExpired p2)
              (totalEvicted p2) p2, Ok ())
  end.

Definition expired (now maxAge : Z) (tx : Transaction) : bool :=
  ((0 <? tx_ExpiryTime tx) && (tx_ExpiryTime tx <? unix now))
  || (tx_Timestamp tx * second <? now - maxAge).

(** The identifiers whose item satisfies [f], in iteration order. *)
Definition select_ids (f : Transaction → bool) (order : list string) (p : TransactionPool) :
    list string :=
  List.filter (λ id, match txMap p !! id with
                     | Some l => match item_at p l with
                                 | Some it => f (it_tx it)
                                 | None => false
                                 end
                     | None => false
                     end) order.

(** Loop 3 of [RemoveExpiredTransactions]. *)
Fixpoint remove_all (ids : list string) (p : TransactionPool) : option TransactionPool :=
  match ids with
  | [] => Some p
  | id :: ids =>
      match txMap p !! id with
      | None => remove_all ids p
      | Some l =>
          '(p1, it) ← remove_item id l p;
          remove_all ids (with_accounts (accountNonces p1)
            (drop_account_tx (tx_Sender (it_tx it)) id (accountTxs p1)) p1)
      end
  end.

Definition RemoveExpiredTransactions (now maxAge : Z) (order : list string)
    (p : TransactionPool) : option (TransactionPool * Z) :=
  let toRemove := select_ids (expired now maxAge) order p in
  p1 ← remove_all toRemove p;
  let n := Z.of_nat (length toRemove) in
  let m := poolMetrics p1 in
  let m := mkMetrics (TotalTxs m) (i64 (ExpiredTxs m + n)) (ValidTxs m) (InvalidTxs m)
             (TotalFees m) now (LastOptimizationTime m) (AvgTxSize m) (MemoryUsage m)
             (PriorityDistribution m) in
  let p2 := with_cleanup now (with_metrics m p1) in
  Some (with_totals (totalAdded p2) (totalRemoved p2) (uadd (totalExpired p2) n)
          (totalEvicted p2) p2, n).

(** ** Conflicts *)

Definition conflict_key (tx : Transaction) : string :=
  tx_Sender tx +:+ ":" +:+ pretty (tx_Nonce tx).

(** The map of maps built by the first loop. *)
Definition build_conflicts (order : list string) (p : TransactionPool) :
    gmap string (gmap string TransactionItem) :=
  foldl (λ c id,
    match txMap p !! id with
    | Some l =>
        match item_at p l with
        | Some it =>
            let key := conflict_key (it_tx it) in
            <[key := <[tx_ID (it_tx it) := it]> (default ∅ (c !! key))]> c
        | None => c
        end
    | None => c
    end) ∅ order.

(** The best fee of a conflict set, iterated in the order given. *)
Definition highest_fee (ids : list string) (cs : gmap string TransactionItem) : f64 * string :=
  foldl (λ best id,
    match cs !! id with
    | Some it => if f_gt (tx_Fee (it_tx it)) best.1 then (tx_Fee (it_tx it), id) else best
    | None => best
    end) (f_zero, EmptyString) ids.

(** Loop 2 on one conflict set; [ids1] and [ids2] are the two iterations
    over it. *)
Definition losers_of (ids1 ids2 : list string) (cs : gmap string TransactionItem) :
    list string :=
  if Z.of_nat (size cs) <=? 1 then []
  else let best := (highest_fee ids1 cs).2 in
       List.filter (λ id, negb (bool_decide (id = best))) ids2.

Fixpoint conflict_losers (keys : list string) (ord1 ord2 : string → list string)
    (c : gmap string (gmap string TransactionItem)) : list string :=
  match keys with
  | [] => []
  | key :: keys =>
      match c !! key with
      | Some cs => losers_of (ord1 key) (ord2 key) cs
      | None => []
      end ++ conflict_losers keys ord1 ord2 c
  end.

Fixpoint remove_conflicting (ids : list string) (p : TransactionPool) : option TransactionPool :=
  match ids with
  | [] => Some p
  | id :: ids =>
      match txMap p !! id with
      | None => remove_conflicting ids p
      | Some l => '(p1, _) ← remove_item id l p; remove_conflicting ids p1
      end
  end.

Definition HandleConflicts (order keys : list string) (ord1 ord2 : string → list string)
    (p : TransactionPool) : option TransactionPool :=
  if negb (conflictResolutionEnabled p) then Some p
  else remove_conflicting (conflict_losers keys ord1 ord2 (build_conflicts order p)) p.

(** ** Queries *)

Definition GetMaxPoolSize (p : TransactionPool) : Z := maxPoolSize p.
Definition PoolSize (p : TransactionPool) : Z := Z.of_nat (length (pendingTxs p)).

Definition lookup_tx (p : TransactionPool) (id : string) : option Transaction :=
  l ← txMap p !! id; it ← item_at p l; Some (it_tx it).

Definition GetAllTransactions (order : list string) (p : TransactionPool) :
    list TransactionItem :=
  omap (λ id, l ← txMap p !! id; item_at p l) order.

Definition GetTransaction (id : string) (p : TransactionPool) : result PoolError Transaction :=
  match lookup_tx p id with None => Err ErrTxNotFound | Some tx => Ok tx end.

Definition HasTransaction (id : string) (p : TransactionPool) : bool :=
  bool_decide (is_Some (txMap p !! id)).

Definition GetAccountTransactions (account : string) (order : list string)
    (p : TransactionPool) : result PoolError (list Transaction) :=
  if bool_decide (account = EmptyString) then Err ErrEmptyAccount
  else match accountTxs p !! account with
       | None => Ok []
       | Some _ => Ok (omap (lookup_tx p) order)
       end.

Definition band (priority : Z) : string :=
  if priority <? 20 then "veryLow" else if priority <? 40 then "low"
  else if priority <? 60 then "medium" else if priority <? 80 then "high" else "veryHigh".

Definition getPriorityDistribution (order : list string) (p : TransactionPool) :
    gmap string Z :=
  foldl (λ r it, <[band (it_priority it) := default 0 (r !! band (it_priority it)) + 1]> r)
    (<["veryLow" := 0]> (<["low" := 0]> (<["medium" := 0]> (<["high" := 0]>
      (<["veryHigh" := 0]> ∅)))))
    (GetAllTransactions order p).

Definition GetMetrics (order : list string) (p : TransactionPool) : PoolMetrics :=
  let m := poolMetrics p in
  mkMetrics (TotalTxs m) (ExpiredTxs m) (ValidTxs m) (InvalidTxs m) (TotalFees m)
    (LastCleanupTime m) (LastOptimizationTime m) (AvgTxSize m)
    (i64 (TotalTxs m * AvgTxSize m)) (getPriorityDistribution order p).
End pool.

(** * Invariant *)

Definition tx_at (q : Queue) (l : loc) : option Transaction := it_tx <$> q_store q !! l.

(** Facts about the transactions in the pool, through their locations. *)
Record pool_wf (p : TransactionPool) : Prop := {
  pw_queue : queue_ok (queue p);
  pw_map : ∀ id l, txMap p !! id = Some l ↔
    l ∈ pendingTxs p ∧ ∃ tx, tx_at (queue p) l = Some tx ∧ tx_ID tx = id;
  pw_fresh : ∀ l, is_Some (q_store (queue p) !! l) → (l < nextLoc p)%positive;
  pw_prio : ∀ l, l ∈ pendingTxs p → 0 ≤ prio (q_store (queue p)) l ≤ 100;
  pw_nonce : ∀ l tx, l ∈ pendingTxs p → tx_at (queue p) l = Some tx →
    ∃ n, accountNonces p !! tx_Sender tx = Some n ∧ tx_Nonce tx ≤ n;
  pw_distinct : ∀ l l' tx tx', l ∈ pendingTxs p → l' ∈ pendingTxs p →
    tx_at (queue p) l = Some tx → tx_at (queue p) l' = Some tx' →
    tx_Sender tx = tx_Sender tx' → tx_Nonce tx = tx_Nonce tx' → l = l';
  pw_acct : ∀ l tx, l ∈ pendingTxs p → tx_at (queue p) l = Some tx →
    ∃ s, accountTxs p !! tx_Sender tx = Some s ∧ tx_ID tx ∈ s;
  pw_size : Z.of_nat (length (pendingTxs p)) ≤ maxPoolSize p }.

Lemma tx_at_core q q' l : same_core (q_store q) (q_store q') → tx_at q' l = tx_at q l.
Proof.
  intros Hs. specialize (Hs l). unfold tx_at.
  destruct (q_store q !! l), (q_store q' !! l); try done.
  apply (inj Some) in Hs. unfold core in Hs. simpl. congruence.
Qed.

Lemma same_core_dom s s' l : same_core s s' → is_Some (s' !! l) → is_Some (s !! l).
Proof. intros Hs. specialize (Hs l). intros [it Hit]. rewrite Hit in Hs. destruct (s !! l); [by eexists|done]. Qed.

Lemma pool_tx p l : pool_wf p → l ∈ pendingTxs p → ∃ tx, tx_at (queue p) l = Some tx.
Proof.
  intros [[[_ Hix] _] _ _ _ _ _ _ _] Hl. apply list_elem_of_lookup in Hl as [i Hi].
  destruct (Hix i l Hi) as (it & Hit & _). unfold tx_at. rewrite Hit. simpl. eauto.
Qed.

(** Keeping every pair of an account index but those with one identifier. *)
Definition keeps_others (id : string) (m m' : gmap string (gset string)) : Prop :=
  ∀ a s i, m !! a = Some s → i ∈ s → i ≠ id → ∃ s', m' !! a = Some s' ∧ i ∈ s'.

Lemma keeps_others_refl id m : keeps_others id m m.
Proof. intros a s i. eauto. Qed.

Lemma keeps_others_trans id m1 m2 m3 :
  keeps_others id m1 m2 → keeps_others id m2 m3 → keeps_others id m1 m3.
Proof.
  intros H12 H23 a s i Hs Hi Hne. destruct (H12 a s i Hs Hi Hne) as (s' & Hs' & Hi'). eauto.
Qed.

Lemma drop_account_keeps acct id m : keeps_others id m (drop_account_tx acct id m).
Proof.
  intros a s i Hs Hi Hne. unfold drop_account_tx.
  destruct (m !! acct) as [ids|] eqn:Hids; [|eauto].
  destruct (decide (a = acct)) as [->|Ha].
  - simplify_eq. case_decide as He; [set_solver|]. rewrite lookup_insert_eq.
    eexists. split; [done|set_solver].
  - case_decide; [rewrite lookup_delete_ne by done|rewrite lookup_insert_ne by done]; eauto.
Qed.

(** Taking one transaction out. *)
Lemma pool_wf_remove p p' l tx :
  pool_wf p → tx_at (queue p) l = Some tx → queue_ok (queue p') →
  pendingTxs p ≡ₚ l :: pendingTxs p' →
  same_core (q_store (queue p)) (q_store (queue p')) →
  txMap p' = delete (tx_ID tx) (txMap p) → nextLoc p' = nextLoc p →
  accountNonces p' = accountNonces p → maxPoolSize p' = maxPoolSize p →
  keeps_others (tx_ID tx) (accountTxs p) (accountTxs p') →
  pool_wf p'.
Proof.
  intros Hp Htx Hok Hperm Hc Hm Hn Han Hsz Hacct.
  pose proof (λ k, tx_at_core (queue p) (queue p') k Hc) as Hta.
  assert (l ∈ pendingTxs p) as Hl by (rewrite Hperm; by left).
  assert (NoDup (l :: pendingTxs p')) as [Hnl Hnd]%NoDup_cons.
  { rewrite <- Hperm. apply (pw_queue p Hp). }
  assert (∀ k, k ∈ pendingTxs p' → k ∈ pendingTxs p ∧ k ≠ l) as Hin.
  { intros k Hk. split; [rewrite Hperm; by right|]. by intros ->. }
  assert (∀ k tx', k ∈ pendingTxs p → tx_at (queue p) k = Some tx' → tx_ID tx' = tx_ID tx → k = l)
    as Hid.
  { intros k tx' Hk Hk' He.
    assert (txMap p !! tx_ID tx = Some k) as H1 by (apply (pw_map p Hp); eauto).
    assert (txMap p !! tx_ID tx = Some l) as H2 by (apply (pw_map p Hp); eauto).
    congruence. }
  split.
  - done.
  - intros id k. rewrite Hm, lookup_delete_Some, (pw_map p Hp), Hta. split.
    + intros (Hne & Hk & tx' & Htx' & He). split; [|by eauto].
      rewrite Hperm in Hk. apply elem_of_cons in Hk as [->|Hk]; [congruence|done].
    + intros (Hk & tx' & Htx' & He). apply Hin in Hk as [Hk Hkl].
      split_and!; [|done|by eauto]. intros <-. by apply Hkl, (Hid k tx').
  - intros k Hk. rewrite Hn. apply (pw_fresh p Hp). by eapply same_core_dom.
  - intros k Hk. rewrite (same_core_prio _ _ k Hc). apply (pw_prio p Hp). by apply Hin.
  - intros k tx' Hk. rewrite Hta, Han. apply (pw_nonce p Hp). by apply Hin.
  - intros k k' tx1 tx2 Hk Hk'. rewrite !Hta. apply (pw_distinct p Hp); by apply Hin.
  - intros k tx' Hk. rewrite Hta. intros Htx'. apply Hin in Hk as [Hk Hkl].
    destruct (pw_acct p Hp k tx' Hk Htx') as (s & Hs & Hi).
    apply (Hacct _ s); [done|done|]. intros He. by apply Hkl, (Hid k tx').
  - rewrite Hsz. pose proof (pw_size p Hp). rewrite (Permutation_length Hperm) in *. simpl in *. lia.
Qed.

(** [heap.Remove] of a mapped item hits that item. *)
Lemma remove_item_spec id l p : pool_wf p → txMap p !! id = Some l →
  ∃ q' it, remove_item id l p = Some (with_txMap (delete id (txMap p)) (with_queue q' p), it) ∧
    tx_at (queue p) l = Some (it_tx it) ∧ tx_ID (it_tx it) = id ∧
    queue_ok q' ∧ pendingTxs p ≡ₚ l :: q_arr q' ∧ same_core (q_store (queue p)) (q_store q').
Proof.
  intros Hp Hid. apply (pw_map p Hp) in Hid as (Hl & tx & Htx & Hid).
  pose proof (pw_queue p Hp) as Hq. pose proof Hq as [[_ Hix] _].
  apply list_elem_of_lookup in Hl as [i Hi]. destruct (Hix i l Hi) as (it & Hit & Hidx).
  destruct (heap_Remove_spec i l (queue p) Hq Hi) as (q' & Hr & Hok & Hperm & Hc).
  assert (it_tx it = tx) as <- by (unfold tx_at in Htx; rewrite Hit in Htx; by simplify_eq/=).
  exists q', it. unfold remove_item, item_at. rewrite Hit. simpl. rewrite Hidx, Hr. simpl.
  split_and!; try done.
Qed.

(** Removal of one identifier, the shape all removing operations share. *)
Definition removed (id : string) (p p' : TransactionPool) : Prop :=
  ∃ l tx, txMap p !! id = Some l ∧ lookup_tx p id = Some tx ∧
    pendingTxs p ≡ₚ l :: pendingTxs p' ∧
    same_core (q_store (queue p)) (q_store (queue p')) ∧
    txMap p' = delete id (txMap p) ∧ accountNonces p' = accountNonces p.

Lemma lookup_tx_at p id l : txMap p !! id = Some l → lookup_tx p id = tx_at (queue p) l.
Proof. intros Hl. unfold lookup_tx. rewrite Hl. unfold tx_at, item_at. simpl. by destruct (_ !! _). Qed.

Lemma removed_other id p p' : removed id p p' →
  lookup_tx p' id = None ∧ ∀ id', id' ≠ id → lookup_tx p' id' = lookup_tx p id'.
Proof.
  intros (l & tx & Hl & _ & _ & Hc & Hm & _). split.
  - unfold lookup_tx. by rewrite Hm, lookup_delete_eq.
  - intros id' Hne. destruct (txMap p !! id') as [k|] eqn:Hk.
    + rewrite (lookup_tx_at p id' k Hk), (lookup_tx_at p' id' k).
      * by apply tx_at_core.
      * by rewrite Hm, lookup_delete_ne.
    + unfold lookup_tx. by rewrite Hm, lookup_delete_ne, Hk.
Qed.

(** ** The index of accounts *)

(** The identifiers under an account, whose key is a sender or a contract. *)
Definition ids_of (p : TransactionPool) (a : string) : gset string := default ∅ (accountTxs p !! a).

(** The transaction belongs under the account. *)
Definition belongs (a : string) (tx : Transaction) : Prop :=
  tx_Sender tx = a ∨ tx_SmartContractID tx = a ∧ a ≠ EmptyString.

Definition lost (p p' : TransactionPool) (tx : Transaction) : Prop :=
  ∃ id, lookup_tx p id = Some tx ∧ lookup_tx p' id = None.

(** No account is kept with nothing under it. *)
Definition no_empty (m : gmap string (gset string)) : Prop := ∀ a s, m !! a = Some s → s ≠ ∅.

(** Transactions taken out, with their sender's entries. *)
Record shrinks (p p' : TransactionPool) : Prop := {
  sh_sub id tx : lookup_tx p' id = Some tx → lookup_tx p id = Some tx;
  sh_keep a id : id ∈ ids_of p a → is_Some (lookup_tx p' id) → id ∈ ids_of p' a;
  sh_ids a id : id ∈ ids_of p' a → id ∈ ids_of p a;
  sh_sender a id tx : id ∈ ids_of p' a → lookup_tx p id = Some tx → lookup_tx p' id = None →
    tx_Sender tx ≠ a;
  sh_empty : no_empty (accountTxs p) → no_empty (accountTxs p') }.

Lemma shrinks_refl p : shrinks p p.
Proof. split; try done. intros a id tx _ H1 H2. congruence. Qed.

Lemma shrinks_trans p p1 p2 : shrinks p p1 → shrinks p1 p2 → shrinks p p2.
Proof.
  intros H1 H2. split.
  - intros id tx H. by apply (sh_sub _ _ H1), (sh_sub _ _ H2).
  - intros a id Hi [tx Htx]. apply (sh_keep _ _ H2); [|by eexists].
    apply (sh_keep _ _ H1); [done|]. exists tx. by apply (sh_sub _ _ H2).
  - intros a id H. by apply (sh_ids _ _ H1), (sh_ids _ _ H2).
  - intros a id tx Hi Htx Hn. destruct (lookup_tx p1 id) as [tx1|] eqn:Htx1.
    + pose proof (sh_sub _ _ H1 _ _ Htx1) as H. rewrite Htx in H. injection H as ->.
      by apply (sh_sender _ _ H2 a id tx1).
    + apply (sh_sender _ _ H1 a id tx); [by apply (sh_ids _ _ H2)|done..].
  - intros H. by apply (sh_empty _ _ H2), (sh_empty _ _ H1).
Qed.

Lemma drop_account_elem acct id m a i :
  i ∈ default ∅ (drop_account_tx acct id m !! a) ↔
  i ∈ default ∅ (m !! a) ∧ ¬ (a = acct ∧ i = id).
Proof.
  unfold drop_account_tx. destruct (m !! acct) as [ids|] eqn:Hids.
  - destruct (decide (a = acct)) as [->|Ha].
    + rewrite Hids. simpl. case_decide as He; [rewrite lookup_delete_eq|rewrite lookup_insert_eq];
        simpl; set_solver.
    + case_decide; [rewrite lookup_delete_ne by done|rewrite lookup_insert_ne by done]; naive_solver.
  - split; [|naive_solver]. intros Hi. split; [done|]. intros [-> ->]. rewrite Hids in Hi. set_solver.
Qed.

Lemma drop_account_no_empty acct id m : no_empty m → no_empty (drop_account_tx acct id m).
Proof.
  intros Hm a s. unfold drop_account_tx. destruct (m !! acct) as [ids|]; [|apply Hm].
  case_decide as He; [intros [_ H]%lookup_delete_Some; by eapply Hm|].
  intros [[_ <-]|[_ H]]%lookup_insert_Some; [done|by eapply Hm].
Qed.

(** One transaction taken out with its sender's entry. *)
Lemma shrinks_one id tx p p' : removed id p p' → lookup_tx p id = Some tx →
  accountTxs p' = drop_account_tx (tx_Sender tx) id (accountTxs p) → shrinks p p'.
Proof.
  intros [Hno Hoth]%removed_other Htx Ha. split; unfold ids_of; rewrite ?Ha.
  - intros i t Hi. destruct (decide (i = id)) as [->|Hne]; [congruence|]. by rewrite <- Hoth.
  - intros a i Hi Hs. apply drop_account_elem. split; [done|]. intros [-> ->].
    rewrite Hno in Hs. by destruct Hs.
  - intros a i. rewrite drop_account_elem. naive_solver.
  - intros a i t. rewrite drop_account_elem. intros [Hi Hne] Ht Hn <-. apply Hne.
    destruct (decide (i = id)) as [->|Hi']; [split; congruence|]. rewrite Hoth in Hn; congruence.
  - apply drop_account_no_empty.
Qed.

Lemma shrinks_ext p p' : queue p' = queue p → txMap p' = txMap p → accountTxs p' = accountTxs p →
  shrinks p p'.
Proof.
  intros Hq Hm Ha. assert (∀ id, lookup_tx p' id = lookup_tx p id) as Hl.
  { intros id. unfold lookup_tx, item_at. by rewrite Hm, Hq. }
  split; unfold ids_of; rewrite ?Ha; try done; intros *; rewrite Hl; congruence.
Qed.

(** Everything but queue, map, account index and statistics is kept. *)
Definition settings (p : TransactionPool) : loc * Z * Z * f64 * bool * Z * bool :=
  (nextLoc p, maxPoolSize p, txTimeout p, maxFee p, conflictResolutionEnabled p,
   expirationDuration p, keyManager p).

Lemma RemoveTransaction_spec id p : pool_wf p →
  match RemoveTransaction id p with
  | None => False
  | Some (p', Ok _) => pool_wf p' ∧ removed id p p' ∧ settings p' = settings p
  | Some (p', Err e) => p' = p ∧ e = ErrTxNotFound ∧ HasTransaction id p = false
  end.
Proof.
  intros Hp. unfold RemoveTransaction. destruct (txMap p !! id) as [l|] eqn:Hl.
  - destruct (remove_item_spec id l p Hp Hl) as (q' & it & -> & Htx & Hid & Hok & Hperm & Hc).
    cbn [mbind option_bind]. subst id. split_and!; [|exists l, (it_tx it); split_and!|done]; try done.
    + eapply (pool_wf_remove p _ l (it_tx it)); try done; simpl.
      case_bool_decide; [apply drop_account_keeps|].
      eapply keeps_others_trans; apply drop_account_keeps.
    + by rewrite (lookup_tx_at _ _ _ Hl).
  - split_and!; try done. unfold HasTransaction. rewrite Hl. apply bool_decide_eq_false.
    by intros [? ?].
Qed.

Lemma evict_one_spec p : pool_wf p →
  match evict_one p with
  | None => pendingTxs p = []
  | Some p' => pool_wf p' ∧ shrinks p p' ∧ settings p' = settings p ∧ minFee p' = minFee p ∧
      poolMetrics p' = poolMetrics p ∧
      ∃ l tx, removed (tx_ID tx) p p' ∧ tx_at (queue p) l = Some tx ∧
        pendingTxs p ≡ₚ l :: pendingTxs p' ∧
        (∀ k, k ∈ pendingTxs p → prio (q_store (queue p)) k ≤ prio (q_store (queue p)) l)
  end.
Proof.
  intros Hp. unfold evict_one. pose proof (heap_Pop_spec (queue p) (pw_queue p Hp)) as Hs.
  destruct (heap_Pop (queue p)) as [[l q]|]; [|done]. simpl.
  destruct Hs as (Hok & Hperm & Hc & Hmax).
  assert (l ∈ pendingTxs p) as Hl by (unfold pendingTxs; rewrite Hperm; by left).
  destruct (pool_tx p l Hp Hl) as [tx Htx].
  pose proof (tx_at_core (queue p) q l Hc) as Hq. rewrite Htx in Hq. unfold tx_at in Hq.
  destruct (q_store q !! l) as [it|]; [|done]. simpl in Hq. injection Hq as Hq.
  cbn [mbind option_bind]. rewrite Hq.
  assert (txMap p !! tx_ID tx = Some l) as Hm by (apply (pw_map p Hp); eauto).
  split_and!; try done.
  - eapply (pool_wf_remove p _ l tx); try done. apply drop_account_keeps.
  - assert (lookup_tx p (tx_ID tx) = Some tx) as Hlk by by rewrite (lookup_tx_at _ _ _ Hm).
    eapply (shrinks_one (tx_ID tx) tx); [|done|done]. exists l, tx. by split_and!.
  - exists l, tx. split_and!; try done. exists l, tx. split_and!; try done.
    by rewrite (lookup_tx_at _ _ _ Hm).
Qed.

(** The evictions: each takes the highest priority left. *)
Inductive evictions : nat → TransactionPool → TransactionPool → Prop :=
| ev_nil p : evictions 0 p p
| ev_cons n p p1 p2 l tx :
    removed (tx_ID tx) p p1 → pendingTxs p ≡ₚ l :: pendingTxs p1 →
    (∀ k, k ∈ pendingTxs p → prio (q_store (queue p)) k ≤ prio (q_store (queue p)) l) →
    evictions n p1 p2 → evictions (S n) p p2.

Lemma evict_spec n : ∀ p, pool_wf p →
  ∃ p', evict n p = Some p' ∧ pool_wf p' ∧ shrinks p p' ∧ settings p' = settings p ∧ minFee p' = minFee p ∧
    poolMetrics p' = poolMetrics p ∧ evictions (n `min` length (pendingTxs p)) p p' ∧
    length (pendingTxs p') = (length (pendingTxs p) - n)%nat.
Proof.
  induction n as [|n IH]; intros p Hp; simpl.
  { exists p. split_and!; try done; [apply shrinks_refl|constructor|lia]. }
  destruct (length (pendingTxs p)) as [|k] eqn:H0; simpl.
  { exists p. split_and!; try done; [apply shrinks_refl|constructor]. }
  pose proof (evict_one_spec p Hp) as He. destruct (evict_one p) as [p1|]; simpl.
  - destruct He as (Hp1 & Hsh1 & Hs1 & Hf1 & Hm1 & l & tx & Hr & Htx & Hperm & Hmax).
    apply Permutation_length in Hperm as Hlen. simpl in Hlen.
    destruct (IH p1 Hp1) as (p2 & -> & Hp2 & Hsh2 & Hs2 & Hf2 & Hm2 & Hev & Hl2).
    replace (length (pendingTxs p1)) with k in * by lia.
    exists p2. split_and!; try congruence; [by eapply shrinks_trans|by econstructor].
  - by rewrite He in H0.
Qed.

(** Changes outside what [pool_wf] speaks of. *)
Lemma pool_wf_ext p p' : pool_wf p → queue p' = queue p → nextLoc p' = nextLoc p →
  txMap p' = txMap p → accountNonces p' = accountNonces p → accountTxs p' = accountTxs p →
  maxPoolSize p' = maxPoolSize p → pool_wf p'.
Proof.
  intros [] Hq Hn Hm Han Hat Hs. unfold pendingTxs in *.
  split; unfold pendingTxs; rewrite ?Hq, ?Hn, ?Hm, ?Han, ?Hat, ?Hs; done.
Qed.

Definition target_size (wild_int : f64 → Z) (p : TransactionPool) : Z :=
  to_int wild_int (f_mul (f_of_Z (maxPoolSize p)) (f_lit 8 1)).

(** Same configuration, up to the minimum fee. *)
Lemma optimizePool_spec wild now netLoad p : pool_wf p →
  ∃ p', optimizePool wild now netLoad p = Some p' ∧ pool_wf p' ∧ shrinks p p' ∧ settings p' = settings p ∧
    InvalidTxs (poolMetrics p') = InvalidTxs (poolMetrics p) ∧
    (let n := Z.to_nat (i64 (PoolSize p - target_size wild p)) in
     if PoolSize p <=? target_size wild p then p' = p
     else length (pendingTxs p') = (length (pendingTxs p) - n)%nat ∧
          TotalTxs (poolMetrics p') = PoolSize p' ∧
          ∃ p0 p1, evictions (n `min` length (pendingTxs p)) p0 p1 ∧
            queue p0 = queue p ∧ txMap p0 = txMap p ∧
            queue p1 = queue p' ∧ txMap p1 = txMap p').
Proof.
  intros Hp. unfold optimizePool. fold (target_size wild p). fold (PoolSize p).
  destruct (PoolSize p <=? target_size wild p) eqn:Hle;
    [exists p; split_and!; try done; apply shrinks_refl|].
  set (p0 := adjustFeesBasedOnLoad netLoad p).
  assert (pool_wf p0) as Hp0 by by apply (pool_wf_ext p).
  destruct (evict_spec (Z.to_nat (i64 (PoolSize p - target_size wild p))) p0 Hp0)
    as (p1 & -> & Hp1 & Hsh & Hs1 & _ & Hm1 & Hev & Hl). simpl.
  eexists. split; [done|]. split; [by apply (pool_wf_ext p1)|].
  split; [eapply shrinks_trans, shrinks_ext; [exact (shrinks_trans _ _ _ (shrinks_ext p p0 eq_refl eq_refl eq_refl) Hsh)|done..]|].
  split; [done|].
  split; [simpl; by rewrite Hm1|]. split; [done|]. split; [done|]. by exists p0, p1.
Qed.

(** ** Adding *)

Lemma queue_ok_fresh l it q : queue_ok q → l ∉ q_arr q →
  queue_ok (mkQueue (<[l := it]> (q_store q)) (q_arr q)).
Proof.
  intros [[Hnd Hix] Hh] Hl.
  assert (∀ k, k ∈ q_arr q → (<[l := it]> (q_store q)) !! k = q_store q !! k) as Hk.
  { intros k Hk. rewrite lookup_insert_ne; [done|]. by intros ->. }
  split; [split; simpl; [done|]|].
  - intros i k Hi. rewrite Hk; [by apply Hix|]. by eapply list_elem_of_lookup_2.
  - assert (queue_arr (mkQueue (<[l := it]> (q_store q)) (q_arr q)) = queue_arr q) as ->; [|done].
    unfold queue_arr. simpl. apply list_fmap_ext. intros i k Hi. unfold prio.
    rewrite Hk; [done|]. by eapply list_elem_of_lookup_2.
Qed.

Lemma calculatePriority_range wild now tx : 0 ≤ calculatePriority wild now tx ≤ 100.
Proof.
  unfold calculatePriority. set (x := to_int _ _). cbv zeta.
  destruct (Z.ltb_spec 100 x); [done|]. destruct (Z.ltb_spec x 0); lia.
Qed.

Lemma add_account_keeps acct id m a s i :
  m !! a = Some s → i ∈ s → ∃ s', add_account_tx acct id m !! a = Some s' ∧ i ∈ s'.
Proof.
  intros Hs Hi. unfold add_account_tx. destruct (decide (a = acct)) as [->|Ha].
  - rewrite lookup_insert_eq, Hs. simpl. eexists. split; [done|set_solver].
  - rewrite lookup_insert_ne by done. eauto.
Qed.

Lemma add_account_new acct id m : ∃ s, add_account_tx acct id m !! acct = Some s ∧ id ∈ s.
Proof. unfold add_account_tx. rewrite lookup_insert_eq. eexists. split; [done|set_solver]. Qed.

(** The account index after an insertion. *)
Definition insert_accounts (tx : Transaction) (m : gmap string (gset string)) :
    gmap string (gset string) :=
  let acc := add_account_tx (tx_Sender tx) (tx_ID tx) m in
  if bool_decide (tx_SmartContractID tx = EmptyString) then acc
  else add_account_tx (tx_SmartContractID tx) (tx_ID tx) acc.

Lemma insert_accounts_keeps tx m a s i :
  m !! a = Some s → i ∈ s → ∃ s', insert_accounts tx m !! a = Some s' ∧ i ∈ s'.
Proof.
  intros Hs Hi. unfold insert_accounts.
  destruct (add_account_keeps (tx_Sender tx) (tx_ID tx) m a s i Hs Hi) as (s1 & Hs1 & Hi1).
  case_bool_decide; [eauto|]. by eapply add_account_keeps.
Qed.

Lemma insert_accounts_new tx m : ∃ s, insert_accounts tx m !! tx_Sender tx = Some s ∧ tx_ID tx ∈ s.
Proof.
  unfold insert_accounts. destruct (add_account_new (tx_Sender tx) (tx_ID tx) m) as (s & Hs & Hi).
  case_bool_decide; [eauto|]. by eapply add_account_keeps.
Qed.

(** Putting one transaction in, at a fresh location. *)
Lemma pool_wf_insert p p' tx it :
  pool_wf p → txMap p !! tx_ID tx = None → PoolSize p < maxPoolSize p →
  (∀ n, accountNonces p !! tx_Sender tx = Some n → n < tx_Nonce tx) →
  it_tx it = tx → 0 ≤ it_priority it ≤ 100 →
  queue p' = heap_Push (nextLoc p)
    (mkQueue (<[nextLoc p := it]> (q_store (queue p))) (q_arr (queue p))) →
  nextLoc p' = Pos.succ (nextLoc p) → txMap p' = <[tx_ID tx := nextLoc p]> (txMap p) →
  accountNonces p' = <[tx_Sender tx := tx_Nonce tx]> (accountNonces p) →
  accountTxs p' = insert_accounts tx (accountTxs p) → maxPoolSize p' = maxPoolSize p →
  pool_wf p' ∧ pendingTxs p' ≡ₚ nextLoc p :: pendingTxs p ∧
  (∀ k, tx_at (queue p') k = if decide (k = nextLoc p) then Some tx else tx_at (queue p) k).
Proof.
  intros Hp Hid Hsz Hnon Hit Hprio Hq Hn Hm Han Hat Hmax.
  set (l := nextLoc p) in *.
  assert (l ∉ q_arr (queue p)) as Hl.
  { intros Hin. destruct (pool_tx p l Hp Hin) as [tx' Htx'].
    assert (is_Some (q_store (queue p) !! l)) as Hs
      by (unfold tx_at in Htx'; by destruct (q_store (queue p) !! l); simplify_eq/=; eexists).
    apply (pw_fresh p Hp) in Hs. unfold l in Hs. lia. }
  destruct (heap_Push_spec l it _ (queue_ok_fresh l it _ (pw_queue p Hp) Hl))
    as (Hok & Hperm & Hc); [simpl; by rewrite lookup_insert_eq|done|]. rewrite <- Hq in Hok, Hperm, Hc.
  simpl in Hperm, Hc.
  assert (∀ k, tx_at (queue p') k = if decide (k = l) then Some tx else tx_at (queue p) k) as Hta.
  { intros k. pose proof (tx_at_core (mkQueue (<[l := it]> (q_store (queue p))) []) (queue p') k Hc)
      as ->. unfold tx_at. simpl. case_decide as Hk.
    - subst k. rewrite lookup_insert_eq. simpl. by rewrite Hit.
    - by rewrite lookup_insert_ne. }
  assert (∀ k, prio (q_store (queue p')) k = if decide (k = l) then it_priority it
    else prio (q_store (queue p)) k) as Hpr.
  { intros k. rewrite (same_core_prio _ _ k Hc). unfold prio. case_decide as Hk.
    - subst k. by rewrite lookup_insert_eq.
    - by rewrite lookup_insert_ne. }
  assert (∀ k, k ∈ pendingTxs p' ↔ k = l ∨ k ∈ pendingTxs p) as Hin.
  { intros k. unfold pendingTxs. by rewrite Hperm, elem_of_cons. }
  assert (∀ k, k ∈ pendingTxs p → k ≠ l) as Hne by (by intros k Hk ->).
  split; [|done]. split.
  - done.
  - intros id k. rewrite Hm, lookup_insert_Some, Hin, Hta. split.
    + intros [[<- <-]|[Hne' Hk]].
      * split; [by left|]. rewrite decide_True by done. eauto.
      * apply (pw_map p Hp) in Hk as [Hk Htx]. split; [by right|].
        by rewrite decide_False by auto.
    + intros [[->|Hk] (tx' & Htx' & <-)].
      * rewrite decide_True in Htx' by done. simplify_eq. by left.
      * rewrite decide_False in Htx' by auto. right.
        assert (txMap p !! tx_ID tx' = Some k) as Hk' by (apply (pw_map p Hp); eauto).
        split; [|done]. congruence.
  - intros k Hk. rewrite Hn. destruct (decide (k = l)) as [->|Hkl]; [unfold l; lia|].
    apply (same_core_dom _ _ _ Hc) in Hk. rewrite lookup_insert_ne in Hk by done.
    apply (pw_fresh p Hp) in Hk. unfold l. lia.
  - intros k Hk. rewrite Hpr. case_decide; [done|]. apply (pw_prio p Hp).
    apply Hin in Hk as [|]; done.
  - intros k tx' Hk. rewrite Hta, Han. case_decide as Hkl.
    + intros [= <-]. rewrite lookup_insert_eq. eauto with lia.
    + intros Htx'. apply Hin in Hk as [|Hk]; [done|].
      destruct (pw_nonce p Hp k tx' Hk Htx') as (n & Hn' & Hle).
      destruct (decide (tx_Sender tx = tx_Sender tx')) as [He|He].
      * rewrite He, lookup_insert_eq. eexists. split; [done|].
        rewrite <- He in Hn'. apply Hnon in Hn'. lia.
      * rewrite lookup_insert_ne by done. eauto.
  - assert (∀ k tx', k ∈ pendingTxs p → tx_at (queue p) k = Some tx' →
      tx_Sender tx' = tx_Sender tx → tx_Nonce tx' ≠ tx_Nonce tx) as Hd.
    { intros k tx' Hk Htx' Hs. destruct (pw_nonce p Hp k tx' Hk Htx') as (n & Hn' & Hle).
      rewrite Hs in Hn'. apply Hnon in Hn'. lia. }
    intros k k' tx1 tx2 Hk Hk'. rewrite !Hta. apply Hin in Hk, Hk'.
    repeat case_decide; intros H1 H2 Hs Hnn; simplify_eq; try done.
    + destruct Hk' as [|Hk']; [done|]. by destruct (Hd k' tx2 Hk' H2).
    + destruct Hk as [|Hk]; [done|]. by destruct (Hd k tx1 Hk H1).
    + destruct Hk as [|Hk], Hk' as [|Hk']; try done. by apply (pw_distinct p Hp k k' tx1 tx2).
  - intros k tx' Hk. rewrite Hta, Hat. case_decide as Hkl.
    + intros [= <-]. apply insert_accounts_new.
    + intros Htx'. apply Hin in Hk as [|Hk]; [done|].
      destruct (pw_acct p Hp k tx' Hk Htx') as (s & Hs & Hi). by eapply insert_accounts_keeps.
  - rewrite Hmax. unfold pendingTxs. rewrite (Permutation_length Hperm). simpl.
    unfold PoolSize, pendingTxs in Hsz. lia.
Qed.

Section operations.
Context (VerifySignature : list byte → list byte → list byte → option bool)
        (wild_int : f64 → Z).

(** Acceptance of a transaction means at least this. *)
Lemma validateTransaction_ok now accs tx p :
  validateTransaction VerifySignature wild_int now accs tx p = Ok () →
  tx_Validate (unix now) tx = Ok () ∧ f_lt (tx_Fee tx) (minFee p) = false ∧
  (∀ n, accountNonces p !! tx_Sender tx = Some n → n < tx_Nonce tx) ∧
  (keyManager p = true → tx_Signature tx ≠ [] →
   ∃ acc, accs !! tx_Sender tx = Some acc ∧ VerifySignature (acc_PublicKey acc)
     (list_byte_of_string (tx_ID tx)) (tx_Signature tx) = Some true).
Proof.
  unfold validateTransaction, ValidateTransaction, verifySignature, GetAccount.
  destruct (tx_Validate (unix now) tx) as [[]|]; [|done].
  destruct (f_lt _ _); [done|]. destruct (_ && _) in |- *; [done|].
  destruct (_ <? _) in |- *; [done|]. intros Hv. split; [done|]. split; [done|].
  assert (Hn : (match accountNonces p !! tx_Sender tx with
    | Some c => if tx_Nonce tx <=? c then Err (RefNonce (tx_Nonce tx) c) else Ok ()
    | None => Ok () end : result Refusal ()) = Ok () →
    ∀ n, accountNonces p !! tx_Sender tx = Some n → n < tx_Nonce tx).
  { intros Hm n Hnn. rewrite Hnn in Hm. by destruct (Z.leb_spec (tx_Nonce tx) n). }
  destruct (keyManager p && negb (length (tx_Signature tx) =? 0)%nat) eqn:Hkm.
  - destruct (accs !! tx_Sender tx) as [acc|]; [|done].
    destruct (length (acc_PublicKey acc) =? 0)%nat; [done|].
    destruct (VerifySignature _ _ _) as [[]|] eqn:Hsig; try done.
    split; [by apply Hn|]. eauto.
  - split; [by apply Hn|]. intros Hk Hs. rewrite Hk in Hkm. simpl in Hkm.
    by destruct (tx_Signature tx).
Qed.

Lemma insertTransaction_spec now tx p :
  pool_wf p → txMap p !! tx_ID tx = None → PoolSize p < maxPoolSize p →
  (∀ n, accountNonces p !! tx_Sender tx = Some n → n < tx_Nonce tx) →
  i64 (TotalTxs (poolMetrics p) + 1) ≠ 0 →
  ∃ p', insertTransaction wild_int now tx p = Some p' ∧ pool_wf p' ∧
    pendingTxs p' ≡ₚ nextLoc p :: pendingTxs p ∧
    (∀ id, lookup_tx p' id = if decide (id = tx_ID tx) then Some tx else lookup_tx p id) ∧
    TotalTxs (poolMetrics p') = i64 (TotalTxs (poolMetrics p) + 1) ∧
    accountTxs p' = insert_accounts tx (accountTxs p).
Proof.
  intros Hp Hid Hsz Hn Ht. unfold insertTransaction.
  rewrite (proj2 (Z.eqb_neq _ _) Ht). eexists. split; [done|].
  match goal with |- pool_wf ?p' ∧ _ =>
    edestruct (pool_wf_insert p p' tx (mkItem tx (calculatePriority wild_int now tx) 0 now
      (estimateTransactionSize tx))) as (Hwf & Hperm & Hta) end; try done.
  - apply calculatePriority_range.
  - simpl. destruct (accountNonces p !! tx_Sender tx) as [c|] eqn:Hc; [|done].
    specialize (Hn c eq_refl). by rewrite (proj2 (Z.ltb_lt _ _) Hn).
  - split_and!; [done|done| |done|done]. intros id. unfold lookup_tx at 1. cbn [txMap].
    destruct (decide (id = tx_ID tx)) as [->|Hi].
    + rewrite lookup_insert_eq. simpl.
      specialize (Hta (nextLoc p)). rewrite decide_True in Hta by done.
      unfold tx_at in Hta. simpl in Hta. unfold item_at. simpl.
      destruct (_ !! nextLoc p) as [it|]; simplify_eq/=. done.
    + rewrite lookup_insert_ne by done.
      destruct (txMap p !! id) as [k|] eqn:Hk; [|unfold lookup_tx; by rewrite Hk].
      rewrite (lookup_tx_at p id k Hk). apply (pw_map p Hp) in Hk as [Hk _].
      assert (k ≠ nextLoc p) as Hkn.
      { intros ->. assert (NoDup (nextLoc p :: pendingTxs p)) as Hnd
          by (rewrite <- Hperm; apply (pw_queue _ Hwf)). apply NoDup_cons in Hnd. naive_solver. }
      specialize (Hta k). rewrite decide_False in Hta by done. rewrite <- Hta.
      simpl. unfold tx_at, item_at. simpl. by destruct (_ !! k).
Qed.

Lemma evictions_lookup n p p' : evictions n p p' →
  ∀ id tx, lookup_tx p' id = Some tx → lookup_tx p id = Some tx.
Proof.
  induction 1 as [p|n p p1 p2 l tx0 Hr _ _ _ IH]; intros id tx Hid; [done|].
  apply IH in Hid. destruct (removed_other _ _ _ Hr) as [Hno Hoth].
  destruct (decide (id = tx_ID tx0)) as [->|Hne]; [congruence|]. by rewrite <- Hoth.
Qed.

Lemma lookup_tx_queue p p' : queue p = queue p' → txMap p = txMap p' →
  ∀ id, lookup_tx p id = lookup_tx p' id.
Proof. intros Hq Hm id. unfold lookup_tx, item_at. by rewrite Hm, Hq. Qed.

Lemma optimizePool_lookup now netLoad p p' : pool_wf p →
  optimizePool wild_int now netLoad p = Some p' →
  ∀ id tx, lookup_tx p' id = Some tx → lookup_tx p id = Some tx.
Proof.
  intros Hp Ho. destruct (optimizePool_spec wild_int now netLoad p Hp)
    as (p1 & Hp1 & _ & _ & _ & _ & Hd). rewrite Ho in Hp1. simplify_eq. cbv zeta in Hd.
  case_match; [by subst|]. destruct Hd as (_ & _ & p0 & p2 & Hev & Hq0 & Hm0 & Hq2 & Hm2).
  intros id tx. rewrite <- (lookup_tx_queue p2 p1), <- (lookup_tx_queue p0 p) by done.
  by eapply evictions_lookup.
Qed.

(** The pool a validation runs on, and everything [AddTransaction] may
    answer. *)
Lemma AddTransaction_spec now netLoad accs tx p :
  pool_wf p → 0 ≤ TotalTxs (poolMetrics p) < 9223372036854775807 →
  maxPoolSize p < 9223372036854775807 →
  ∃ p' r, AddTransaction VerifySignature wild_int now netLoad accs tx p = Some (p', r) ∧
    pool_wf p' ∧
    match r with
    | Ok _ => lookup_tx p (tx_ID tx) = None ∧ lookup_tx p' (tx_ID tx) = Some tx ∧
        tx_Validate (unix now) tx = Ok ()
    | Err _ => lookup_tx p' (tx_ID tx) = lookup_tx p (tx_ID tx)
    end ∧
    (∀ id tx', id ≠ tx_ID tx → lookup_tx p' id = Some tx' → lookup_tx p id = Some tx') ∧
    (PoolSize p < maxPoolSize p → ∀ id, id ≠ tx_ID tx → lookup_tx p' id = lookup_tx p id).
Proof.
  intros Hp Ht Hmax. unfold AddTransaction.
  destruct (txMap p !! tx_ID tx) as [l|] eqn:Hid.
  { exists p, (Err ErrDuplicateTx). done. }
  assert (lookup_tx p (tx_ID tx) = None) as Hno by (unfold lookup_tx; by rewrite Hid).
  assert (∃ p1, (if maxPoolSize p <=? Z.of_nat (length (pendingTxs p))
      then optimizePool wild_int now netLoad p else Some p) = Some p1 ∧ pool_wf p1 ∧
      0 ≤ TotalTxs (poolMetrics p1) < 9223372036854775807 ∧
      (∀ id tx', lookup_tx p1 id = Some tx' → lookup_tx p id = Some tx') ∧
      (PoolSize p < maxPoolSize p → p1 = p)) as (p1 & -> & Hp1 & Ht1 & Hl1 & Heq1).
  { destruct (Z.leb_spec (maxPoolSize p) (Z.of_nat (length (pendingTxs p)))) as [Hle|Hgt].
    - destruct (optimizePool_spec wild_int now netLoad p Hp) as (p1 & Ho & Hp1 & _ & Hs1 & _ & Hd).
      exists p1. split_and!; try done.
      + cbv zeta in Hd. case_match; [subst; lia|]. destruct Hd as (_ & -> & _).
        unfold PoolSize. lia.
      + cbv zeta in Hd. case_match; [subst; lia|]. destruct Hd as (Hlen & -> & _).
        unfold PoolSize. pose proof (pw_size p Hp). lia.
      + by eapply optimizePool_lookup.
      + unfold PoolSize. lia.
    - exists p. split_and!; done || lia. }
  cbn [mbind option_bind].
  assert (lookup_tx p1 (tx_ID tx) = None) as Hno1.
  { destruct (lookup_tx p1 (tx_ID tx)) eqn:Hl; [|done]. apply Hl1 in Hl. congruence. }
  destruct (Z.leb_spec (maxPoolSize p1) (Z.of_nat (length (pendingTxs p1)))) as [Hle|Hgt].
  { exists p1, (Err ErrPoolFull). split_and!; try done; [congruence|eauto|].
    intros Hlt. by rewrite (Heq1 Hlt). }
  destruct (validateTransaction _ _ _ _ _ _) as [[]|r] eqn:Hv.
  - destruct (validateTransaction_ok now accs tx p1 Hv) as (Hval & _ & Hnon & _).
    destruct (insertTransaction_spec now tx p1) as (p2 & -> & Hp2 & _ & Hl2 & _); try done.
    + destruct (txMap p1 !! tx_ID tx) as [k|] eqn:Hk; [|done].
      rewrite (lookup_tx_at _ _ _ Hk) in Hno1. apply (pw_map p1 Hp1) in Hk as (_ & tx' & Hk & _).
      congruence.
    + rewrite i64_small; unfold is_i64; lia.
    + exists p2, (Ok ()). cbn [mbind option_bind]. split_and!; try done.
      * by rewrite Hl2, decide_True.
      * intros id tx' Hne. rewrite Hl2, decide_False by done. apply Hl1.
      * intros Hlt id Hne. rewrite Hl2, decide_False, (Heq1 Hlt); done.
  - eexists _, (Err (ErrInvalidTx r)). split; [done|]. split; [by apply (pool_wf_ext p1)|].
    split_and!.
    + change (lookup_tx p1 (tx_ID tx) = lookup_tx p (tx_ID tx)). congruence.
    + intros id tx' _. apply Hl1.
    + intros Hlt id _. by rewrite (Heq1 Hlt).
Qed.
End operations.

(** ** Removing several *)

Lemma remove_all_spec ids : ∀ p, pool_wf p →
  ∃ p', remove_all ids p = Some p' ∧ pool_wf p' ∧ shrinks p p' ∧ settings p' = settings p ∧
    poolMetrics p' = poolMetrics p ∧
    (∀ id, lookup_tx p' id = if decide (id ∈ ids) then None else lookup_tx p id) ∧
    (NoDup ids → (∀ id, id ∈ ids → is_Some (txMap p !! id)) →
     length (pendingTxs p) = (length ids + length (pendingTxs p'))%nat).
Proof.
  induction ids as [|id ids IH]; intros p Hp; cbn [remove_all].
  { exists p. split_and!; try done. apply shrinks_refl. }
  destruct (txMap p !! id) as [l|] eqn:Hl.
  - destruct (remove_item_spec id l p Hp Hl) as (q' & it & -> & Htx & Hid & Hok & Hperm & Hc).
    cbn [mbind option_bind]. subst id.
    match goal with |- context [remove_all ids ?p1] => set (p1' := p1) end.
    assert (pool_wf p1') as Hp1.
    { eapply (pool_wf_remove p p1' l (it_tx it)); try done. apply drop_account_keeps. }
    assert (removed (tx_ID (it_tx it)) p p1') as Hr.
    { exists l, (it_tx it). split_and!; try done. by rewrite (lookup_tx_at _ _ _ Hl). }
    assert (shrinks p p1') as Hsh.
    { eapply (shrinks_one _ (it_tx it)); [done| |done]. by rewrite (lookup_tx_at _ _ _ Hl). }
    destruct (IH p1' Hp1) as (p2 & -> & Hp2 & Hsh2 & Hs2 & Hm2 & Hl2 & Hn2).
    exists p2. split_and!; try done.
    + by eapply shrinks_trans.
    + intros id. rewrite Hl2. destruct (removed_other _ _ _ Hr) as [Hno Hoth].
      destruct (decide (id = tx_ID (it_tx it))) as [->|Hne].
      * rewrite (decide_True (P := _ ∈ _ :: _)) by left. by case_decide.
      * rewrite (Hoth id Hne).
        destruct (decide (id ∈ ids)), (decide (id ∈ tx_ID (it_tx it) :: ids)); set_solver.
    + intros [Hni Hnd]%NoDup_cons Hsome. rewrite (Permutation_length Hperm). simpl. f_equal.
      apply Hn2; [done|]. intros id Hin. simpl. rewrite lookup_delete_ne by set_solver.
      apply Hsome. by right.
  - destruct (IH p Hp) as (p2 & -> & Hp2 & Hsh2 & Hs2 & Hm2 & Hl2 & _). exists p2. split_and!; try done.
    + intros i. rewrite Hl2. destruct (decide (i = id)) as [->|Hne].
      * assert (lookup_tx p id = None) as -> by (unfold lookup_tx; by rewrite Hl).
        by repeat case_decide.
      * destruct (decide (i ∈ ids)), (decide (i ∈ id :: ids)); set_solver.
    + intros _ Hsome. destruct (Hsome id) as [? ?]; [by left|congruence].
Qed.

Lemma select_ids_spec f order p id : iter_order (txMap p) order → pool_wf p →
  id ∈ select_ids f order p ↔ ∃ tx, lookup_tx p id = Some tx ∧ f tx = true.
Proof.
  intros [_ Ho] Hp. unfold select_ids.
  rewrite list_elem_of_In, filter_In, <- list_elem_of_In, Ho. unfold lookup_tx. split.
  - intros [[l Hl] Hf]. rewrite Hl in Hf |- *. simpl.
    destruct (item_at p l) as [it|]; [|done]. simpl. eauto.
  - intros (tx & Htx & Hf). destruct (txMap p !! id) as [l|]; [|done]. simpl in Htx.
    split; [by eexists|]. destruct (item_at p l); simplify_eq/=. done.
Qed.

(** ** Conflicts *)

(** Decimal numerals contain no colon. *)
Fixpoint no_colon (s : string) : bool :=
  match s with
  | EmptyString => true
  | String c s => negb (bool_decide (c = ":"%char)) && no_colon s
  end.

Lemma no_colon_app s t : no_colon (s +:+ t) = no_colon s && no_colon t.
Proof. induction s as [|c s IH]; simpl; [done|]. by rewrite IH, andb_assoc. Qed.

Lemma no_colon_char n : bool_decide (pretty_N_char n = ":"%char) = false.
Proof. unfold pretty_N_char. by repeat case_match. Qed.

Lemma no_colon_N_go n : ∀ s, no_colon s = true → no_colon (pretty_N_go n s) = true.
Proof.
  induction (N.lt_wf_0 n) as [n _ IH]. intros s Hs.
  destruct (decide (n = 0)%N) as [->|Hn]; [by rewrite pretty_N_go_0|].
  rewrite pretty_N_go_step by lia. apply IH.
  - apply N.div_lt; lia.
  - simpl. by rewrite no_colon_char.
Qed.

Lemma no_colon_N n : no_colon (pretty_N n) = true.
Proof. unfold pretty_N. destruct (decide _); [done|]. by apply no_colon_N_go. Qed.

Lemma no_colon_pretty (z : Z) : no_colon (pretty z) = true.
Proof.
  destruct z as [|n|n]; [done|apply (no_colon_N (Npos n))|].
  change (no_colon ("-" +:+ pretty_N (Npos n)) = true). by rewrite no_colon_app, no_colon_N.
Qed.

Lemma split_colon s1 : ∀ s2 t1 t2, no_colon t1 = true → no_colon t2 = true →
  s1 +:+ ":" +:+ t1 = s2 +:+ ":" +:+ t2 → s1 = s2 ∧ t1 = t2.
Proof.
  assert (∀ s t, no_colon (s +:+ ":" +:+ t) = false) as Hc.
  { intros s t. rewrite !no_colon_app. simpl. apply andb_false_r. }
  induction s1 as [|c s1 IH]; intros [|c' s2] t1 t2 H1 H2 He.
  - change (String ":" t1 = String ":" t2) in He. by simplify_eq.
  - change (String ":" t1 = String c' (s2 +:+ ":" +:+ t2)) in He. injection He as _ ->.
    by rewrite Hc in H1.
  - change (String c (s1 +:+ ":" +:+ t1) = String ":" t2) in He. injection He as _ <-.
    by rewrite Hc in H2.
  - change (String c (s1 +:+ ":" +:+ t1) = String c' (s2 +:+ ":" +:+ t2)) in He.
    injection He as -> He. destruct (IH s2 t1 t2 H1 H2 He) as [-> ->]. done.
Qed.

Lemma conflict_key_inj tx tx' : conflict_key tx = conflict_key tx' →
  tx_Sender tx = tx_Sender tx' ∧ tx_Nonce tx = tx_Nonce tx'.
Proof.
  intros He. unfold conflict_key in He. apply split_colon in He as [Hs Hn];
    [|apply no_colon_pretty..]. split; [done|]. by apply (inj pretty) in Hn.
Qed.

(** The conflict sets only hold pooled transactions, under their key. *)
Definition conflicts_ok (p : TransactionPool)
    (c : gmap string (gmap string TransactionItem)) : Prop :=
  ∀ key cs id it, c !! key = Some cs → cs !! id = Some it →
    lookup_tx p id = Some (it_tx it) ∧ conflict_key (it_tx it) = key.

Lemma build_conflicts_ok order p : pool_wf p → conflicts_ok p (build_conflicts order p).
Proof.
  intros Hp. unfold build_conflicts.
  assert (Hg : ∀ c, conflicts_ok p c → conflicts_ok p (foldl (λ c id,
    match txMap p !! id with
    | Some l => match item_at p l with
        | Some it =>
            <[conflict_key (it_tx it) := <[tx_ID (it_tx it) := it]>
              (default ∅ (c !! conflict_key (it_tx it)))]> c
        | None => c end
    | None => c end) c order)).
  { induction order as [|id order IH]; intros c Hc; [done|]. cbn [foldl]. apply IH.
    destruct (txMap p !! id) as [l|] eqn:Hl; [|done].
    destruct (item_at p l) as [it|] eqn:Hit; [|done].
    assert (lookup_tx p id = Some (it_tx it)) as Hlk
      by (unfold lookup_tx; rewrite Hl; simpl; by rewrite Hit).
    assert (tx_ID (it_tx it) = id) as Hid.
    { rewrite (lookup_tx_at _ _ _ Hl) in Hlk. apply (pw_map p Hp) in Hl as (_ & tx & Htx & <-).
      congruence. }
    intros key cs id' it' [[<- <-]|[Hne Hk]]%lookup_insert_Some; [|by eapply Hc].
    intros [[<- <-]|[Hne Hi]]%lookup_insert_Some; [by rewrite Hid|].
    destruct (c !! conflict_key (it_tx it)) as [cs|] eqn:Hcs; simpl in Hi.
    - by eapply Hc.
    - by rewrite lookup_empty in Hi. }
  apply Hg. intros key cs id it Hk. by rewrite lookup_empty in Hk.
Qed.

Lemma map_size_le_1 {V} (m : gmap string V) :
  (∀ i j, is_Some (m !! i) → is_Some (m !! j) → i = j) → (size m ≤ 1)%nat.
Proof.
  intros H. destruct (decide (m = ∅)) as [->|Hne]; [by rewrite map_size_empty; lia|].
  apply map_choose in Hne as (i & x & Hi).
  assert (m = {[i := x]}) as ->.
  { apply map_eq. intros j. destruct (decide (i = j)) as [<-|Hij].
    - by rewrite lookup_singleton_eq.
    - rewrite lookup_singleton_ne by done. destruct (m !! j) eqn:Hj; [|done].
      destruct Hij. apply H; by eexists. }
  by rewrite map_size_singleton.
Qed.

Lemma no_conflicts p c keys ord1 ord2 : pool_wf p → conflicts_ok p c →
  conflict_losers keys ord1 ord2 c = [].
Proof.
  intros Hp Hc. induction keys as [|key keys IH]; [done|]. simpl.
  rewrite IH, app_nil_r. destruct (c !! key) as [cs|] eqn:Hcs; [|done]. unfold losers_of.
  destruct (Z.leb_spec (Z.of_nat (size cs)) 1) as [|Hgt]; [done|]. exfalso.
  assert (size cs ≤ 1)%nat; [|lia]. apply map_size_le_1.
  intros i j [it Hi] [jt Hj].
  destruct (Hc key cs i it Hcs Hi) as [Hti Hki]. destruct (Hc key cs j jt Hcs Hj) as [Htj Hkj].
  rewrite <- Hkj in Hki. apply conflict_key_inj in Hki as [Hs Hn].
  destruct (txMap p !! i) as [li|] eqn:Hli; [|unfold lookup_tx in Hti; by rewrite Hli in Hti].
  destruct (txMap p !! j) as [lj|] eqn:Hlj; [|unfold lookup_tx in Htj; by rewrite Hlj in Htj].
  rewrite (lookup_tx_at _ _ _ Hli) in Hti. rewrite (lookup_tx_at _ _ _ Hlj) in Htj.
  apply (pw_map p Hp) in Hli as (Hil & ti & Hti' & <-), Hlj as (Hjl & tj & Htj' & <-).
  assert (li = lj) as -> by (by apply (pw_distinct p Hp li lj (it_tx it) (it_tx jt))).
  congruence.
Qed.

(** ** The pool as a transition system *)

Section system.
Context (VerifySignature : list byte → list byte → list byte → option bool)
        (wild_int : f64 → Z).

Inductive pool_step : TransactionPool → TransactionPool → Prop :=
| step_Add now netLoad accs tx p p' r :
    AddTransaction VerifySignature wild_int now netLoad accs tx p = Some (p', r) →
    0 ≤ TotalTxs (poolMetrics p) < 9223372036854775807 → pool_step p p'
| step_Remove id p p' r : RemoveTransaction id p = Some (p', r) → pool_step p p'
| step_Expire now maxAge order p p' n :
    iter_order (txMap p) order →
    RemoveExpiredTransactions now maxAge order p = Some (p', n) → pool_step p p'
| step_Conflicts order keys ord1 ord2 p p' :
    iter_order (txMap p) order →
    HandleConflicts order keys ord1 ord2 p = Some p' → pool_step p p'.

Lemma HandleConflicts_same order keys ord1 ord2 p : pool_wf p →
  HandleConflicts order keys ord1 ord2 p = Some p.
Proof.
  intros Hp. unfold HandleConflicts. case_match; [done|].
  by rewrite (no_conflicts p _ _ _ _ Hp (build_conflicts_ok order p Hp)).
Qed.

Lemma RemoveExpired_spec now maxAge order p : pool_wf p → iter_order (txMap p) order →
  ∃ p', RemoveExpiredTransactions now maxAge order p
      = Some (p', Z.of_nat (length (select_ids (expired now maxAge) order p))) ∧
    pool_wf p' ∧ shrinks p p' ∧ settings p' = settings p ∧
    (∀ id, lookup_tx p' id = match lookup_tx p id with
       | Some tx => if expired now maxAge tx then None else Some tx
       | None => None
       end) ∧
    length (pendingTxs p) = (length (select_ids (expired now maxAge) order p)
                             + length (pendingTxs p'))%nat.
Proof.
  intros Hp Ho. unfold RemoveExpiredTransactions.
  destruct (remove_all_spec (select_ids (expired now maxAge) order p) p Hp)
    as (p1 & -> & Hp1 & Hsh & Hs1 & _ & Hl1 & Hn1). cbn [mbind option_bind].
  eexists. split; [done|]. split; [by apply (pool_wf_ext p1)|].
  split; [by eapply shrinks_trans, shrinks_ext|]. split; [done|].
  split; [|apply Hn1].
  2:{ unfold select_ids. apply NoDup_ListNoDup, List.NoDup_filter, NoDup_ListNoDup, Ho. }
  2:{ intros id Hin. apply (select_ids_spec _ order p id Ho Hp) in Hin as (tx & Htx & _).
      unfold lookup_tx in Htx. by destruct (txMap p !! id). }
  intros id. change (lookup_tx p1 id = match lookup_tx p id with
    | Some tx => if expired now maxAge tx then None else Some tx | None => None end).
  rewrite Hl1. destruct (decide (id ∈ select_ids (expired now maxAge) order p)) as [Hin|Hin].
  - apply (select_ids_spec _ order p id Ho Hp) in Hin as (tx & -> & ->). done.
  - destruct (lookup_tx p id) as [tx|] eqn:Htx; [|done].
    destruct (expired now maxAge tx) eqn:He; [|done]. destruct Hin.
    apply select_ids_spec; eauto.
Qed.

Lemma settings_max p p' : settings p' = settings p → maxPoolSize p' = maxPoolSize p.
Proof. unfold settings. intros. by simplify_eq. Qed.

Lemma insert_max now tx p p' : insertTransaction wild_int now tx p = Some p' →
  maxPoolSize p' = maxPoolSize p.
Proof. unfold insertTransaction. case_match; [done|]. by intros [= <-]. Qed.

Lemma Add_max now netLoad accs tx p p' r : pool_wf p →
  AddTransaction VerifySignature wild_int now netLoad accs tx p = Some (p', r) →
  maxPoolSize p' = maxPoolSize p.
Proof.
  intros Hp. unfold AddTransaction. case_match; [naive_solver|].
  assert (∃ p1, (if maxPoolSize p <=? Z.of_nat (length (pendingTxs p))
      then optimizePool wild_int now netLoad p else Some p) = Some p1 ∧
      maxPoolSize p1 = maxPoolSize p) as (p1 & -> & <-).
  { case_match; [|by eexists]. destruct (optimizePool_spec wild_int now netLoad p Hp)
      as (p1 & ? & _ & _ & Hs & _). exists p1. split; [done|]. by apply settings_max. }
  cbn [mbind option_bind]. case_match; [naive_solver|]. case_match; [|naive_solver].
  destruct (insertTransaction _ _ _ _) as [p2|] eqn:Hi; [|done]. simpl. intros [= <- _].
  by eapply insert_max.
Qed.

Lemma pool_step_inv p p' : pool_wf p → maxPoolSize p < 9223372036854775807 →
  pool_step p p' → pool_wf p' ∧ maxPoolSize p' = maxPoolSize p.
Proof.
  intros Hp Hmax. destruct 1 as [now nl accs tx p p' r Ha Ht|id p p' r Hr
    |now age order p p' n Ho Hr|order keys o1 o2 p p' Ho Hc].
  - destruct (AddTransaction_spec VerifySignature wild_int now nl accs tx p Hp Ht Hmax)
      as (p1 & r1 & Ha1 & Hp1 & _). rewrite Ha in Ha1. simplify_eq.
    split; [done|by eapply Add_max].
  - pose proof (RemoveTransaction_spec id p Hp) as Hs. rewrite Hr in Hs.
    destruct r as [[]|e]; [|by destruct Hs as (-> & _)].
    destruct Hs as (Hp1 & _ & Hs). split; [done|by apply settings_max].
  - destruct (RemoveExpired_spec now age order p Hp Ho) as (p1 & Hp1 & Hw & _ & Hs & _).
    rewrite Hr in Hp1. injection Hp1 as -> _. split; [done|by apply settings_max].
  - rewrite (HandleConflicts_same _ _ _ _ _ Hp) in Hc. by simplify_eq.
Qed.

(** ** Runs, with what evictions and expiries took out *)

(** The transactions [gone] were in [p] and are not in [p']. *)
Definition took (p p' : TransactionPool) (gone : list Transaction) : Prop :=
  ∀ tx, tx ∈ gone ↔ lost p p' tx.

Inductive pool_run (p0 : TransactionPool) : list Transaction → TransactionPool → Prop :=
| run_nil : pool_run p0 [] p0
| run_Add now netLoad accs tx taken gone p p' r : pool_run p0 taken p →
    AddTransaction VerifySignature wild_int now netLoad accs tx p = Some (p', r) →
    0 ≤ TotalTxs (poolMetrics p) < 9223372036854775807 →
    took p p' gone → pool_run p0 (taken ++ gone) p'
| run_Remove id taken p p' r : pool_run p0 taken p →
    RemoveTransaction id p = Some (p', r) → pool_run p0 taken p'
| run_Expire now maxAge order taken gone p p' n : pool_run p0 taken p →
    iter_order (txMap p) order → RemoveExpiredTransactions now maxAge order p = Some (p', n) →
    took p p' gone → pool_run p0 (taken ++ gone) p'
| run_Conflicts order keys ord1 ord2 taken p p' : pool_run p0 taken p →
    iter_order (txMap p) order → HandleConflicts order keys ord1 ord2 p = Some p' →
    pool_run p0 taken p'.

Lemma took_exists p p' : ∃ gone, took p p' gone.
Proof.
  exists (omap (λ id, match lookup_tx p' id with None => lookup_tx p id | Some _ => None end)
            (map_to_list (txMap p)).*1).
  intros tx. rewrite list_elem_of_omap. split.
  - intros (id & _ & Hid). exists id. by destruct (lookup_tx p' id).
  - intros (id & Hid & Hn). exists id. rewrite Hn. split; [|done].
    unfold lookup_tx in Hid. destruct (txMap p !! id) as [l|] eqn:Hl; [|done].
    apply list_elem_of_fmap. exists (id, l). by rewrite elem_of_map_to_list.
Qed.

(** Every sequence of steps is such a run. *)
Lemma pool_run_exists p0 p : star pool_step p0 p → ∃ taken, pool_run p0 taken p.
Proof.
  induction 1 as [p0|p0 p1 p2 _ [taken Hrun] Hs]; [by exists []; constructor|].
  destruct (took_exists p1 p2) as [gone Hg].
  destruct Hs; eexists; [eapply run_Add|eapply run_Remove|eapply run_Expire|eapply run_Conflicts]; done.
Qed.

(** Every transaction is in the index, and nothing else but leftovers. *)
Record index_ok (taken : list Transaction) (p : TransactionPool) : Prop := {
  ix_empty : no_empty (accountTxs p);
  ix_pooled id tx a : lookup_tx p id = Some tx → belongs a tx → id ∈ ids_of p a;
  ix_ids a id : id ∈ ids_of p a → (∃ tx, lookup_tx p id = Some tx ∧ belongs a tx) ∨
    ∃ tx, tx ∈ taken ∧ tx_ID tx = id ∧ tx_SmartContractID tx = a ∧ a ≠ EmptyString ∧
      tx_Sender tx ≠ a }.

Lemma lookup_tx_ID p id tx : pool_wf p → lookup_tx p id = Some tx → tx_ID tx = id.
Proof.
  intros Hp Hl. destruct (txMap p !! id) as [l|] eqn:Hm; [|unfold lookup_tx in Hl; by rewrite Hm in Hl].
  rewrite (lookup_tx_at _ _ _ Hm) in Hl. apply (pw_map p Hp) in Hm as (_ & t & Ht & <-). congruence.
Qed.

Lemma index_shrinks taken taken' p p' : pool_wf p → shrinks p p' → index_ok taken p →
  (∀ tx, tx ∈ taken ∨ lost p p' tx → tx ∈ taken') → index_ok taken' p'.
Proof.
  intros Hp Hsh [I1 I2 I3] Ht. split.
  - by apply (sh_empty _ _ Hsh).
  - intros id tx a Hl Hb. apply (sh_keep _ _ Hsh); [|by eexists].
    eapply I2; [by apply (sh_sub _ _ Hsh)|done].
  - intros a id Hi. destruct (I3 a id (sh_ids _ _ Hsh _ _ Hi)) as [(tx & Htx & Hb)|(tx & Hin & Hx)].
    + destruct (lookup_tx p' id) as [tx'|] eqn:Htx'.
      * left. exists tx'. split; [done|]. apply (sh_sub _ _ Hsh) in Htx'. congruence.
      * right. pose proof (sh_sender _ _ Hsh _ _ _ Hi Htx Htx') as Hs. exists tx.
        split; [apply Ht; right; by exists id|]. split; [by eapply lookup_tx_ID|].
        destruct Hb as [Hb|[Hb Hne]]; [done|by split_and!].
    + right. exists tx. split; [apply Ht; by left|done].
Qed.

Lemma index_removed taken id tx p p' : pool_wf p → removed id p p' → lookup_tx p id = Some tx →
  accountTxs p' = (let acc := drop_account_tx (tx_Sender tx) id (accountTxs p) in
    if bool_decide (tx_SmartContractID tx = EmptyString) then acc
    else drop_account_tx (tx_SmartContractID tx) id acc) →
  index_ok taken p → index_ok taken p'.
Proof.
  intros Hp [Hno Hoth]%removed_other Htx Ha [I1 I2 I3]. cbv zeta in Ha.
  assert (∀ a i, i ∈ ids_of p' a ↔ i ∈ ids_of p a ∧ ¬ (i = id ∧ belongs a tx)) as Hids.
  { intros a i. unfold ids_of, belongs. rewrite Ha. case_bool_decide; rewrite !drop_account_elem; naive_solver. }
  split.
  - rewrite Ha. case_bool_decide; repeat apply drop_account_no_empty; done.
  - intros i t a Ht Hb. assert (i ≠ id) as Hne by congruence. rewrite Hoth in Ht by done.
    apply Hids. split; [by eapply I2|naive_solver].
  - intros a i [Hi Hn]%Hids. destruct (I3 a i Hi) as [(t & Ht & Hb)|Hx]; [|by right].
    left. exists t. rewrite Hoth; [done|]. intros ->. apply Hn. split; [done|congruence].
Qed.

Lemma insert_accounts_elem tx m a i : i ∈ default ∅ (insert_accounts tx m !! a) ↔
  i ∈ default ∅ (m !! a) ∨ i = tx_ID tx ∧ belongs a tx.
Proof.
  assert (∀ acct id m a i, i ∈ default ∅ (add_account_tx acct id m !! a) ↔
    i ∈ default ∅ (m !! a) ∨ i = id ∧ acct = a) as Hadd.
  { intros acct id m' b j. unfold add_account_tx. destruct (decide (b = acct)) as [->|Hb].
    - rewrite lookup_insert_eq. simpl. set_solver.
    - rewrite lookup_insert_ne by done. naive_solver. }
  unfold insert_accounts, belongs. case_bool_decide as Hc; rewrite !Hadd; naive_solver.
Qed.

Lemma insert_no_empty tx m : no_empty m → no_empty (insert_accounts tx m).
Proof.
  assert (∀ acct id m, no_empty m → no_empty (add_account_tx acct id m)) as Hadd.
  { intros acct id m' Hm a s. unfold add_account_tx.
    intros [[_ <-]|[_ H]]%lookup_insert_Some; [set_solver|by eapply Hm]. }
  intros Hm. unfold insert_accounts. case_bool_decide; auto.
Qed.

Lemma index_inserted taken tx p p' : lookup_tx p (tx_ID tx) = None →
  (∀ id, lookup_tx p' id = if decide (id = tx_ID tx) then Some tx else lookup_tx p id) →
  accountTxs p' = insert_accounts tx (accountTxs p) → index_ok taken p → index_ok taken p'.
Proof.
  intros Hno Hl Ha [I1 I2 I3].
  assert (∀ a i, i ∈ ids_of p' a ↔ i ∈ ids_of p a ∨ i = tx_ID tx ∧ belongs a tx) as Hids.
  { intros a i. unfold ids_of. rewrite Ha. apply insert_accounts_elem. }
  split.
  - rewrite Ha. by apply insert_no_empty.
  - intros id t a. rewrite Hl, Hids. case_decide; [intros [= <-]; auto|eauto].
  - intros a i [Hi|[-> Hb]]%Hids.
    + destruct (I3 a i Hi) as [(t & Ht & Hb)|Hx]; [|by right]. left. exists t.
      rewrite Hl, decide_False; [done|congruence].
    + left. exists tx. by rewrite Hl, decide_True.
Qed.

(** What an addition does to the index: evictions, then an insertion. *)
Lemma index_Add taken now netLoad accs tx p p' r : pool_wf p → index_ok taken p →
  AddTransaction VerifySignature wild_int now netLoad accs tx p = Some (p', r) →
  0 ≤ TotalTxs (poolMetrics p) < 9223372036854775807 → maxPoolSize p < 9223372036854775807 →
  ∀ gone, took p p' gone → index_ok (taken ++ gone) p'.
Proof.
  intros Hp Hix Ha Ht Hmax gone Hg.
  destruct (AddTransaction_spec VerifySignature wild_int now netLoad accs tx p Hp Ht Hmax)
    as (p'' & r' & Ha' & Hp' & _). rewrite Ha in Ha'. injection Ha' as <- <-.
  unfold AddTransaction in Ha. destruct (txMap p !! tx_ID tx) as [l|] eqn:Hid.
  { injection Ha as <- _. eapply index_shrinks; [exact Hp|apply shrinks_refl|done|].
    intros t [H|(id & H1 & H2)]; [|congruence]. apply elem_of_app. by left. }
  assert (∃ p1, (if maxPoolSize p <=? Z.of_nat (length (pendingTxs p))
      then optimizePool wild_int now netLoad p else Some p) = Some p1 ∧ pool_wf p1 ∧ shrinks p p1)
    as (p1 & Ho & Hp1 & Hsh).
  { destruct (_ <=? _); [|exists p; split_and!; try done; apply shrinks_refl].
    destruct (optimizePool_spec wild_int now netLoad p Hp) as (p1 & ? & ? & ? & _). by exists p1. }
  rewrite Ho in Ha. cbn [mbind option_bind] in Ha.
  assert (lookup_tx p (tx_ID tx) = None) as Hno by (unfold lookup_tx; by rewrite Hid).
  assert (lookup_tx p1 (tx_ID tx) = None) as Hno1.
  { destruct (lookup_tx p1 (tx_ID tx)) eqn:Hl; [|done]. apply (sh_sub _ _ Hsh) in Hl. congruence. }
  assert ((∀ id, id ≠ tx_ID tx → lookup_tx p' id = lookup_tx p1 id) → index_ok (taken ++ gone) p1) as H1.
  { intros Hl. eapply index_shrinks; [exact Hp|exact Hsh|done|]. intros t [H|(id & H1 & H2)];
      apply elem_of_app; [by left|right]. apply Hg. exists id. split; [done|].
    rewrite Hl; [done|]. congruence. }
  destruct (maxPoolSize p1 <=? _) eqn:Hfull; [injection Ha as <- _; by apply H1|].
  destruct (validateTransaction _ _ _ _ _ _) as [[]|e] eqn:Hv.
  - destruct (insertTransaction wild_int now tx p1) as [p2|] eqn:Hi; [|done].
    injection Ha as <- _. pose proof (validateTransaction_ok _ _ _ _ _ _ Hv) as (_ & _ & Hnon & _).
    destruct (Z.eqb_spec (i64 (TotalTxs (poolMetrics p1) + 1)) 0) as [Hz|Hz].
    { unfold insertTransaction in Hi. cbv zeta in Hi. by rewrite Hz in Hi. }
    destruct (insertTransaction_spec wild_int now tx p1 Hp1) as (p3 & Hi3 & _ & _ & Hl & _ & Hacc); try done.
    { destruct (txMap p1 !! tx_ID tx) as [k|] eqn:Hk; [|done].
      rewrite (lookup_tx_at _ _ _ Hk) in Hno1. apply (pw_map p1 Hp1) in Hk as (_ & t & Hk & _). congruence. }
    { apply Z.leb_gt in Hfull. done. }
    rewrite Hi in Hi3. injection Hi3 as <-. eapply index_inserted; [exact Hno1|done|done|].
    apply H1. intros id Hne. by rewrite Hl, decide_False.
  - injection Ha as <- _. eapply index_shrinks; [exact Hp1|by apply shrinks_ext|by apply H1|].
    intros t [H|(id & Hx & Hy)]; [done|]. assert (lookup_tx p1 id = None) by exact Hy. congruence.
Qed.

Lemma pool_run_inv p0 taken p : pool_run p0 taken p → maxPoolSize p0 < 9223372036854775807 →
  pool_wf p0 → index_ok [] p0 → pool_wf p ∧ maxPoolSize p = maxPoolSize p0 ∧ index_ok taken p.
Proof.
  intros Hrun Hmax Hp0 Hix0.
  induction Hrun as [|now nl accs tx taken gone p p' r _ (Hp & Hm & Hix) Ha Ht Hg
    |id taken p p' r _ (Hp & Hm & Hix) Hr|now age order taken gone p p' n _ (Hp & Hm & Hix) Ho Hr Hg
    |order keys o1 o2 taken p p' _ (Hp & Hm & Hix) Ho Hc]; [done|..].
  - destruct (pool_step_inv p p' Hp) as [Hp' Hm']; [congruence|by eapply step_Add|].
    split_and!; [done|congruence|]. eapply (index_Add taken _ _ _ _ p); try done. by rewrite Hm.
  - destruct (pool_step_inv p p' Hp) as [Hp' Hm']; [congruence|by eapply step_Remove|].
    split_and!; [done|congruence|]. pose proof (RemoveTransaction_spec id p Hp) as Hs. rewrite Hr in Hs.
    destruct r as [[]|e]; [|by destruct Hs as (-> & _)]. destruct Hs as (_ & Hrem & _).
    pose proof Hrem as (l & tx & Hl & Htx & _). eapply (index_removed taken id tx p); [done..| |done].
    unfold RemoveTransaction in Hr. rewrite Hl in Hr.
    destruct (remove_item_spec id l p Hp Hl) as (q' & it & Hri & Hit & _). rewrite Hri in Hr.
    cbn [mbind option_bind] in Hr. injection Hr as <-.
    rewrite (lookup_tx_at _ _ _ Hl), Hit in Htx. by injection Htx as ->.
  - destruct (pool_step_inv p p' Hp) as [Hp' Hm']; [congruence|by eapply step_Expire|].
    split_and!; [done|congruence|].
    destruct (RemoveExpired_spec now age order p Hp Ho) as (p1 & Hp1 & _ & Hsh & _).
    rewrite Hr in Hp1. injection Hp1 as -> _. eapply index_shrinks; [exact Hp|done|done|].
    intros t Ht. apply elem_of_app. destruct Ht; [by left|right; by apply Hg].
  - rewrite (HandleConflicts_same _ _ _ _ _ Hp) in Hc. by simplify_eq.
Qed.
End system.

Lemma pool_wf_new now maxSize timeout minF maxF expiration km conflicts p :
  NewTransactionPool now maxSize timeout minF maxF expiration km conflicts = Some p →
  pool_wf p ∧ maxPoolSize p = maxSize.
Proof.
  unfold NewTransactionPool. destruct (Z.ltb_spec maxSize 0); [done|]. intros [= <-].
  split; [|done]. change (init (mkQueue ∅ [])) with (mkQueue ∅ []).
  assert (∀ l : loc, l ∉ @nil loc) as Hnil by set_solver.
  split; unfold pendingTxs; cbn [queue q_arr q_store nextLoc txMap maxPoolSize length];
    try (intros l **; exfalso; eapply Hnil; eassumption).
  - split; [split; simpl; [constructor|by intros []]|]. intros k Hk. simpl in Hk. lia.
  - intros id l. rewrite lookup_empty. split; [done|]. by intros [?%Hnil _].
  - intros l [? Hl]. by rewrite lookup_empty in Hl.
  - simpl. lia.
Qed.

(** ** Eviction takes the best *)

Lemma evictions_highest n p p' : evictions n p p' →
  (∀ k, k ∈ pendingTxs p' → k ∈ pendingTxs p) ∧
  ∀ k k', k ∈ pendingTxs p → k ∉ pendingTxs p' → k' ∈ pendingTxs p' →
    prio (q_store (queue p)) k' ≤ prio (q_store (queue p)) k.
Proof.
  induction 1 as [p|n p p1 p2 l tx Hr Hperm Hmax _ [IH1 IH2]]; [done|].
  assert (∀ k, k ∈ pendingTxs p ↔ k = l ∨ k ∈ pendingTxs p1) as Hin.
  { intros k. by rewrite Hperm, elem_of_cons. }
  assert (∀ k, prio (q_store (queue p1)) k = prio (q_store (queue p)) k) as Hpr.
  { intros k. destruct Hr as (? & ? & _ & _ & _ & Hc & _). by apply same_core_prio. }
  split; [intros k Hk; apply Hin; auto|].
  intros k k' Hk Hnk Hk'. apply Hin in Hk as [->|Hk].
  - apply Hmax, Hin. auto.
  - rewrite <- !Hpr. by apply IH2.
Qed.

(** * Properties *)

(** C1: the pool's data structures never diverge.  From an empty pool, any
    sequence of additions, removals, expirations and conflict resolutions
    keeps: the map and the queue in one-to-one correspondence with correct
    indices, the heap order, at most [maxPoolSize] transactions, priorities
    in [0, 100], nonces of a sender pairwise distinct and bounded by the
    recorded one; and the index of accounts, in both directions: every
    transaction is under its sender and under its contract, and every
    identifier under an account is that of such a transaction -- or of one
    that an eviction or an expiry took out, which leaves the entry under its
    contract (and only that one) behind.  No account is kept empty. *)
Theorem pool_reachable_wf VerifySignature wild_int now maxSize timeout minF maxF expiration
    km conflicts p0 p taken :
  NewTransactionPool now maxSize timeout minF maxF expiration km conflicts = Some p0 →
  maxSize < 9223372036854775807 →
  pool_run VerifySignature wild_int p0 taken p →
  pool_wf p ∧ maxPoolSize p = maxSize ∧
  (∀ a s, accountTxs p !! a = Some s → s ≠ ∅) ∧
  (∀ id tx a, lookup_tx p id = Some tx → belongs a tx → id ∈ ids_of p a) ∧
  (∀ a id, id ∈ ids_of p a → (∃ tx, lookup_tx p id = Some tx ∧ belongs a tx) ∨
     ∃ tx, tx ∈ taken ∧ tx_ID tx = id ∧ tx_SmartContractID tx = a ∧ a ≠ EmptyString ∧
       tx_Sender tx ≠ a).
Proof.
  intros Hnew Hmax Hrun. destruct (pool_wf_new _ _ _ _ _ _ _ _ _ Hnew) as [H0 Hm0].
  assert (accountTxs p0 = ∅ ∧ txMap p0 = ∅) as [Ha0 Ht0].
  { unfold NewTransactionPool in Hnew. destruct (maxSize <? 0); [done|]. by injection Hnew as <-. }
  subst maxSize. clear Hnew. destruct (pool_run_inv _ _ p0 taken p Hrun Hmax H0) as (Hp & Hm & [I1 I2 I3]).
  { split; [intros a s; rewrite Ha0|intros id tx a; unfold lookup_tx; rewrite Ht0
      |intros a id; unfold ids_of; rewrite Ha0]; rewrite lookup_empty; [done..|set_solver]. }
  by split_and!.
Qed.

(** C2: adding a transaction, every outcome.  On a well-formed pool the call
    never panics; acceptance means the transaction is valid, was not there
    before, is there now and no other transaction was lost while the pool
    had room; refusal leaves the transactions of a non-full pool as they
    were, and never admits the refused one. *)
Theorem AddTransaction_correct VerifySignature wild_int now netLoad accs tx p :
  pool_wf p → 0 ≤ TotalTxs (poolMetrics p) < 9223372036854775807 →
  maxPoolSize p < 9223372036854775807 →
  ∃ p' r, AddTransaction VerifySignature wild_int now netLoad accs tx p = Some (p', r) ∧
    pool_wf p' ∧
    match r with
    | Ok _ => lookup_tx p (tx_ID tx) = None ∧ lookup_tx p' (tx_ID tx) = Some tx ∧
        tx_Validate (unix now) tx = Ok ()
    | Err _ => lookup_tx p' (tx_ID tx) = lookup_tx p (tx_ID tx)
    end ∧
    (∀ id tx', id ≠ tx_ID tx → lookup_tx p' id = Some tx' → lookup_tx p id = Some tx') ∧
    (PoolSize p < maxPoolSize p → ∀ id, id ≠ tx_ID tx → lookup_tx p' id = lookup_tx p id).
Proof. apply AddTransaction_spec. Qed.

(** C3: removal is exact.  [RemoveTransaction] never panics; it removes the
    transaction asked for, and that one only, or reports [ErrTxNotFound] and
    changes nothing. *)
Theorem RemoveTransaction_exact id p : pool_wf p →
  ∃ p' r, RemoveTransaction id p = Some (p', r) ∧ pool_wf p' ∧
    r = (if HasTransaction id p then Ok () else Err ErrTxNotFound) ∧
    (∀ id', lookup_tx p' id' = if decide (id' = id) then None else lookup_tx p id').
Proof.
  intros Hp. pose proof (RemoveTransaction_spec id p Hp) as Hs.
  destruct (RemoveTransaction id p) as [[p' [[]|e]]|]; [| |done].
  - destruct Hs as (Hp' & Hr & _). exists p', (Ok ()). destruct (removed_other _ _ _ Hr) as [H1 H2].
    destruct Hr as (l & tx & Hl & _). split_and!; try done.
    + unfold HasTransaction. by rewrite Hl.
    + intros id'. destruct (decide (id' = id)) as [->|]; auto.
  - destruct Hs as (-> & -> & Hh). exists p, (Err ErrTxNotFound). rewrite Hh. split_and!; try done.
    intros id'. destruct (decide (id' = id)) as [->|]; [|done].
    unfold HasTransaction in Hh. apply bool_decide_eq_false in Hh. unfold lookup_tx.
    destruct (txMap p !! id) eqn:Hl; [|done]. destruct Hh. by eexists.
Qed.

(** expiration is exact, whatever the iteration order of the map: the
    transactions that survive are those that are neither past their expiry
    time nor older than [maxAge], and the count returned is the number
    removed. *)
Theorem RemoveExpired_exact now maxAge order p : pool_wf p → iter_order (txMap p) order →
  ∃ p' n, RemoveExpiredTransactions now maxAge order p = Some (p', n) ∧ pool_wf p' ∧
    (∀ id, lookup_tx p' id = match lookup_tx p id with
       | Some tx => if expired now maxAge tx then None else Some tx
       | None => None
       end) ∧
    n = Z.of_nat (length (pendingTxs p)) - Z.of_nat (length (pendingTxs p')).
Proof.
  intros Hp Ho. destruct (RemoveExpired_spec now maxAge order p Hp Ho)
    as (p' & Hr & Hp' & _ & _ & Hl & Hn). exists p', (Z.of_nat (length (select_ids (expired now maxAge) order p))). split_and!; try done. lia.
Qed.

(** conflict resolution never removes anything.  Because the pool only
    accepts strictly increasing nonces, no two pooled transactions share a
    sender and a nonce, so on every well-formed pool, for every iteration
    order, [HandleConflicts] is the identity. *)
Theorem HandleConflicts_noop order keys ord1 ord2 p : pool_wf p →
  HandleConflicts order keys ord1 ord2 p = Some p.
Proof. apply HandleConflicts_same. Qed.

(** optimisation makes room by evicting the best.  When the pool exceeds
    its target, [optimizePool] keeps exactly the target number of
    transactions, and every evicted one has a priority at least as high as
    every one kept: [heap.Pop] on a max-heap takes the highest. *)
Theorem optimizePool_evicts_highest wild_int now netLoad p : pool_wf p →
  0 ≤ target_size wild_int p < PoolSize p → PoolSize p < 9223372036854775808 →
  ∃ p', optimizePool wild_int now netLoad p = Some p' ∧ pool_wf p' ∧
    PoolSize p' = target_size wild_int p ∧
    (∀ l, l ∈ pendingTxs p' → l ∈ pendingTxs p) ∧
    (∀ l l', l ∈ pendingTxs p → l ∉ pendingTxs p' → l' ∈ pendingTxs p' →
       prio (q_store (queue p)) l' ≤ prio (q_store (queue p)) l).
Proof.
  intros Hp Ht Hmax. destruct (optimizePool_spec wild_int now netLoad p Hp)
    as (p' & Ho & Hp' & _ & _ & _ & Hd). cbv zeta in Hd.
  rewrite (proj2 (Z.leb_gt _ _)), i64_small in Hd by (unfold is_i64; lia).
  destruct Hd as (Hlen & _ & p0 & p1 & Hev & Hq0 & _ & Hq1 & _).
  destruct (evictions_highest _ _ _ Hev) as [H1 H2]. unfold pendingTxs in *.
  rewrite Hq0, Hq1 in *. exists p'. split_and!; try done.
  unfold PoolSize, pendingTxs in *. lia.
Qed.

(** ** A concrete pool *)

Definition sig_true (_ _ _ : list byte) : option bool := Some true.
Definition wild0 (_ : f64) : Z := 0.

Definition pool_tx_sample (id : string) (nonce fee ts : Z) : Transaction :=
  mkTx id "alice" "bob" (f_of_Z 5) ts [] 0 (f_of_Z fee) 0 "" [] nonce "" 0 "pending".

Definition pool_empty : TransactionPool :=
  default (mkPool (mkQueue ∅ []) 1 ∅ 0 0 f_zero f_zero false 0
    (mkMetrics 0 0 0 0 f_zero 0 0 0 0 ∅) false ∅ ∅ 0 0 0 0 0)
    (NewTransactionPool 0 4 0 f_zero (f_of_Z 100) (1000000 * second) false true).

Definition pool_add (p : TransactionPool) (tx : Transaction) : TransactionPool :=
  match AddTransaction sig_true wild0 (1000 * second) 50 ∅ tx p with
  | Some (p', _) => p'
  | None => p
  end.

Definition pool_sample : TransactionPool :=
  foldl pool_add pool_empty
    [pool_tx_sample "t1" 1 1 900; pool_tx_sample "t2" 2 3 950;
     pool_tx_sample "t3" 3 2 990; pool_tx_sample "t4" 4 0 1000].

Lemma pool_add_step p tx : 0 ≤ TotalTxs (poolMetrics p) < 9223372036854775807 →
  star (pool_step sig_true wild0) p (pool_add p tx).
Proof.
  intros Ht. unfold pool_add.
  destruct (AddTransaction sig_true wild0 (1000 * second) 50 ∅ tx p) as [[p' r]|] eqn:Ha;
    [|constructor].
  eapply star_snoc; [constructor|]. by eapply step_Add.
Qed.

Lemma pool_sample_reach : star (pool_step sig_true wild0) pool_empty pool_sample.
Proof.
  unfold pool_sample. cbn [foldl].
  repeat (eapply star_trans; [|apply pool_add_step; by vm_compute]). constructor.
Qed.

Lemma pool_empty_new :
  NewTransactionPool 0 4 0 f_zero (f_of_Z 100) (1000000 * second) false true = Some pool_empty.
Proof. reflexivity. Qed.

Lemma pool_sample_wf : pool_wf pool_sample.
Proof.
  destruct (pool_wf_new _ _ _ _ _ _ _ _ _ pool_empty_new) as [H0 Hm].
  assert (pool_wf pool_sample ∧ maxPoolSize pool_sample = 4) as [? _]; [|done].
  pose proof pool_sample_reach as Hst. rewrite <- Hm.
  induction Hst as [|p1 p2 p3 _ IH Hs]; [done|]. destruct (IH H0 Hm) as [Hp2 Hm2].
  destruct (pool_step_inv sig_true wild0 p2 p3 Hp2) as [Hp3 Hm3]; [lia|done|].
  split; [done|congruence].
Qed.

(** The sample, with an expiry of a transaction to a contract. *)
Definition contract_tx : Transaction :=
  mkTx "c1" "alice" "bob" (f_of_Z 5) 1000 [] 0 (f_of_Z 1) 1500 "shop" [] 1 "" 0 "pending".
Definition stale_pool : TransactionPool :=
  default pool_empty (fst <$> RemoveExpiredTransactions (2000 * second) (1000000 * second) ["c1"]
    (pool_add pool_empty contract_tx)).

Example stale_contract_entry : lookup_tx stale_pool "c1" = None ∧ ids_of stale_pool "alice" = ∅ ∧
  ids_of stale_pool "shop" = {["c1"]}.
Proof. split_and!; vm_compute; reflexivity. Qed.

Lemma lookup_empty_pool id : lookup_tx pool_empty id = None.
Proof. reflexivity. Qed.

Lemma contract_added : ∃ r,
  AddTransaction sig_true wild0 (1000 * second) 50 ∅ contract_tx pool_empty
    = Some (pool_add pool_empty contract_tx, r).
Proof.
  unfold pool_add. destruct (AddTransaction _ _ _ _ _ _ _) as [[p r]|] eqn:Ha; [by eexists|].
  vm_compute in Ha. discriminate.
Qed.

Lemma contract_expired : ∃ n,
  RemoveExpiredTransactions (2000 * second) (1000000 * second) ["c1"] (pool_add pool_empty contract_tx)
    = Some (stale_pool, n).
Proof.
  unfold stale_pool. destruct (RemoveExpiredTransactions _ _ _ _) as [[p n]|] eqn:Ha; [by eexists|].
  vm_compute in Ha. discriminate.
Qed.

Lemma stale_pool_run : pool_run sig_true wild0 pool_empty [contract_tx] stale_pool.
Proof.
  destruct contract_added as [r Ha], contract_expired as [n He].
  assert (pool_run sig_true wild0 pool_empty [] (pool_add pool_empty contract_tx)) as Hadd.
  { eapply (run_Add sig_true wild0 pool_empty _ _ _ _ [] [] pool_empty _ r); [apply run_nil|exact Ha| |].
    { change (TotalTxs (poolMetrics pool_empty)) with 0. lia. }
    intros tx. split; [intros Hin; apply elem_of_nil in Hin; destruct Hin|].
    intros (id & Hid & _). rewrite lookup_empty_pool in Hid. discriminate Hid. }
  refine (run_Expire _ _ _ _ _ _ [] [contract_tx] _ _ _ Hadd _ He _);
    [by apply iter_orderb_true; vm_compute|].
  intros tx. rewrite list_elem_of_singleton. split; [intros ->; exists "c1"; split; vm_compute; reflexivity|].
  intros (id & Hid & _). destruct (decide (id = "c1")) as [->|Hne].
  { vm_compute in Hid. injection Hid as <-. reflexivity. }
  exfalso. assert (txMap (pool_add pool_empty contract_tx) = {["c1" := 1%positive]}) as Hm
    by (vm_compute; reflexivity).
  unfold lookup_tx in Hid. rewrite Hm, lookup_singleton_ne in Hid by congruence. discriminate Hid.
Qed.

Lemma pool_reachable_wf_witness :
  pool_wf stale_pool ∧ maxPoolSize stale_pool = 4 ∧
  (∀ a s, accountTxs stale_pool !! a = Some s → s ≠ ∅) ∧
  (∀ id tx a, lookup_tx stale_pool id = Some tx → belongs a tx → id ∈ ids_of stale_pool a) ∧
  (∀ a id, id ∈ ids_of stale_pool a → (∃ tx, lookup_tx stale_pool id = Some tx ∧ belongs a tx) ∨
     ∃ tx, tx ∈ [contract_tx] ∧ tx_ID tx = id ∧ tx_SmartContractID tx = a ∧ a ≠ EmptyString ∧
       tx_Sender tx ≠ a).
Proof.
  apply (pool_reachable_wf sig_true wild0 0 4 0 f_zero (f_of_Z 100) (1000000 * second) false true
    pool_empty stale_pool [contract_tx] pool_empty_new); [lia|apply stale_pool_run].
Defined.

Lemma AddTransaction_correct_witness :
  let tx := pool_tx_sample "t5" 5 4 1000 in
  ∃ p' r, AddTransaction sig_true wild0 (1000 * second) 50 ∅ tx pool_sample = Some (p', r) ∧
    pool_wf p' ∧
    match r with
    | Ok _ => lookup_tx pool_sample (tx_ID tx) = None ∧ lookup_tx p' (tx_ID tx) = Some tx ∧
        tx_Validate (unix (1000 * second)) tx = Ok ()
    | Err _ => lookup_tx p' (tx_ID tx) = lookup_tx pool_sample (tx_ID tx)
    end ∧
    (∀ id tx', id ≠ tx_ID tx → lookup_tx p' id = Some tx' → lookup_tx pool_sample id = Some tx') ∧
    (PoolSize pool_sample < maxPoolSize pool_sample →
     ∀ id, id ≠ tx_ID tx → lookup_tx p' id = lookup_tx pool_sample id).
Proof.
  apply (AddTransaction_correct sig_true wild0 (1000 * second) 50 ∅
    (pool_tx_sample "t5" 5 4 1000) pool_sample); [apply pool_sample_wf| |]; by vm_compute.
Defined.

Lemma RemoveTransaction_exact_witness :
  ∃ p' r, RemoveTransaction "t2" pool_sample = Some (p', r) ∧ pool_wf p' ∧
    r = (if HasTransaction "t2" pool_sample then Ok () else Err ErrTxNotFound) ∧
    (∀ id', lookup_tx p' id' = if decide (id' = "t2") then None else lookup_tx pool_sample id').
Proof. apply (RemoveTransaction_exact "t2" pool_sample), pool_sample_wf. Defined.

Lemma RemoveExpired_exact_witness :
  ∃ p' n, RemoveExpiredTransactions (1000 * second) (60 * second) ["t1"; "t2"; "t3"; "t4"]
      pool_sample = Some (p', n) ∧ pool_wf p' ∧
    (∀ id, lookup_tx p' id = match lookup_tx pool_sample id with
       | Some tx => if expired (1000 * second) (60 * second) tx then None else Some tx
       | None => None
       end) ∧
    n = Z.of_nat (length (pendingTxs pool_sample)) - Z.of_nat (length (pendingTxs p')).
Proof.
  apply (RemoveExpired_exact (1000 * second) (60 * second) ["t1"; "t2"; "t3"; "t4"] pool_sample
    pool_sample_wf). solve_order.
Defined.

Lemma HandleConflicts_noop_witness :
  HandleConflicts ["t1"; "t2"; "t3"; "t4"] ["alice:1"; "alice:2"; "alice:3"; "alice:4"]
    (λ _, []) (λ _, []) pool_sample = Some pool_sample.
Proof.
  apply (HandleConflicts_noop ["t1"; "t2"; "t3"; "t4"]
    ["alice:1"; "alice:2"; "alice:3"; "alice:4"] (λ _, []) (λ _, []) pool_sample pool_sample_wf).
Defined.

Lemma optimizePool_evicts_highest_witness :
  ∃ p', optimizePool wild0 0 50 pool_sample = Some p' ∧ pool_wf p' ∧
    PoolSize p' = target_size wild0 pool_sample ∧
    (∀ l, l ∈ pendingTxs p' → l ∈ pendingTxs pool_sample) ∧
    (∀ l l', l ∈ pendingTxs pool_sample → l ∉ pendingTxs p' → l' ∈ pendingTxs p' →
       prio (q_store (queue pool_sample)) l' ≤ prio (q_store (queue pool_sample)) l).
Proof.
  apply (optimizePool_evicts_highest wild0 0 50 pool_sample); [apply pool_sample_wf| |];
    by vm_compute.
Defined.
