(* ===== verification/TxUtils.v ===== *)
(** * Nonces and stateless transaction checks: src/transaction/transaction_utils.go

    The interface [NonceTracker] is a class, with its laws in
    [NonceTrackerLaws]: the clients (batch validation here, the transaction
    manager in TxManager.v) are proved against the laws, and the two
    implementations of the source are instances.  The account store, the
    clock and [crypto.VerifySignature] are arguments. *)
From Stdlib Require Import ZArith Lia SpecFloat.
From Stdlib Require Import Strings.Byte Strings.Ascii Strings.String.
From stdpp Require Import numbers prelude pretty gmap strings.
From S2P Require Import Prelude GoFloat Maps Bytes Sha256 Common Accounts GoHeap TxQueue TxPool.
Open Scope Z_scope.

(** ** Nonce trackers *)

Inductive NonceError :=
| ErrFirstNonce (nonce : Z) (* ErrNonceSequenceViolation: must be 1 *)
| ErrNonceReuse (nonce current : Z)
| ErrNonceSequenceViolation (nonce expected : Z).

(** [GetNonce] threads the state: a persistent tracker initialises itself
    on the first read. *)
Class NonceTracker (T : Type) := {
  GetNonce : string → T → T * Z;
  SetNonce : string → Z → T → T;
  ValidateNonce : string → Z → T → result NonceError ();
  Reset : string → T → T;
  GetAllNonces : T → gmap string Z }.

Abbreviation DefaultNonceTracker := (gmap string Z).

Definition NewDefaultNonceTracker : DefaultNonceTracker := ∅.
Definition default_GetNonce (accountID : string) (nt : DefaultNonceTracker) : Z :=
  default 0 (nt !! accountID).
Definition default_SetNonce (accountID : string) (nonce : Z) (nt : DefaultNonceTracker) :
    DefaultNonceTracker := <[accountID := nonce]> nt.
Definition default_ValidateNonce (accountID : string) (nonce : Z) (nt : DefaultNonceTracker) :
    result NonceError () :=
  match nt !! accountID with
  | None => if negb (nonce =? 1) then Err (ErrFirstNonce nonce) else Ok ()
  | Some currentNonce =>
      if nonce <=? currentNonce then Err (ErrNonceReuse nonce currentNonce)
      else if i64 (currentNonce + 1) <? nonce
      then Err (ErrNonceSequenceViolation nonce (i64 (currentNonce + 1)))
      else Ok ()
  end.
Definition default_Reset (accountID : string) (nt : DefaultNonceTracker) :
    DefaultNonceTracker := delete accountID nt.

(** [GetAllNonces] copies the map, in the order its iteration takes. *)
Definition copy_nonces (order : list string) (nt : DefaultNonceTracker) : gmap string Z :=
  foldl (λ r acc, match nt !! acc with Some n => <[acc := n]> r | None => r end) ∅ order.
Definition default_GetAllNonces (nt : DefaultNonceTracker) : gmap string Z :=
  copy_nonces (map_to_list nt).*1 nt.

#[export] Instance default_tracker : NonceTracker DefaultNonceTracker := {
  GetNonce a nt := (nt, default_GetNonce a nt);
  SetNonce := default_SetNonce;
  ValidateNonce := default_ValidateNonce;
  Reset := default_Reset;
  GetAllNonces := default_GetAllNonces }.

(** The embedded tracker and the flag of [lazyInitialize], which reads
    nothing from the ledger. *)
Record PersistentNonceTracker := mkPersistent {
  embedded : DefaultNonceTracker;
  initialized : bool }.

Definition NewPersistentNonceTracker : PersistentNonceTracker :=
  mkPersistent NewDefaultNonceTracker false.
Definition lazyInitialize (nt : PersistentNonceTracker) : PersistentNonceTracker :=
  if initialized nt then nt else mkPersistent (embedded nt) true.
Definition persistent_GetNonce (accountID : string) (nt : PersistentNonceTracker) :
    PersistentNonceTracker * Z :=
  let nt := lazyInitialize nt in (nt, default_GetNonce accountID (embedded nt)).

#[export] Instance persistent_tracker : NonceTracker PersistentNonceTracker := {
  GetNonce := persistent_GetNonce;
  SetNonce a n nt := mkPersistent (default_SetNonce a n (embedded nt)) (initialized nt);
  ValidateNonce a n nt := default_ValidateNonce a n (embedded nt);
  Reset a nt := mkPersistent (default_Reset a (embedded nt)) (initialized nt);
  GetAllNonces nt := default_GetAllNonces (embedded nt) }.

(** ** Validation of one transaction *)

Inductive ValidationErrorCode :=
| ErrCodeInsufficientFunds
| ErrCodeInvalidAmount
| ErrCodeInvalidFee
| ErrCodeInvalidSender
| ErrCodeInvalidSignature
| ErrCodeInvalidNonce
| ErrCodeTransactionExpired.

(** The errors of [ValidateTransaction], one per return statement. *)
Inductive ValidationError :=
| AmountMustBePositive
| FeeBelowMinimum (fee minFee : f64)
| SenderReceiverRequired
| InsufficientFunds
| InvalidNonce (e : NonceError)
| HasExpired
| PublicKeyNotFound
| EmptyPublicKey
| VerificationError
| InvalidSignature.

Definition Code (e : ValidationError) : ValidationErrorCode :=
  match e with
  | AmountMustBePositive => ErrCodeInvalidAmount
  | FeeBelowMinimum _ _ => ErrCodeInvalidFee
  | SenderReceiverRequired => ErrCodeInvalidSender
  | InsufficientFunds => ErrCodeInsufficientFunds
  | InvalidNonce _ => ErrCodeInvalidNonce
  | HasExpired => ErrCodeTransactionExpired
  | PublicKeyNotFound => ErrCodeInvalidSender
  | EmptyPublicKey => ErrCodeInvalidSender
  | VerificationError => ErrCodeInvalidSignature
  | InvalidSignature => ErrCodeInvalidSignature
  end.

(** [e.Error()] from the message and the code's text. *)
Definition Error (message code : string) : string :=
  if negb (bool_decide (code = EmptyString)) then "[" +:+ code +:+ "] " +:+ message
  else message.

Inductive SignatureError :=
| TxHasNoSignature
| FailedToGetPublicKey (e : CommonError)
| ErrMissingPublicKey
| VerifyFailed.

Section checks.
(** [crypto.VerifySignature], [None] for an error. *)
Variable VerifySignature : list byte → list byte → list byte → option bool.
Context {T : Type} `{NonceTracker T}.

Definition check_signature (accs : accounts_map) (tx : Transaction) :
    result ValidationError () :=
  if (0 <? length (tx_Signature tx))%nat then
    match GetPublicKey (tx_Sender tx) accs with
    | Err _ => Err PublicKeyNotFound
    | Ok pubKey =>
        if (length pubKey =? 0)%nat then Err EmptyPublicKey
        else match VerifySignature pubKey (list_byte_of_string (tx_ID tx)) (tx_Signature tx) with
             | None => Err VerificationError
             | Some ok => if negb ok then Err InvalidSignature else Ok ()
             end
    end
  else Ok ().

(** [now] is the clock, in nanoseconds. *)
Definition ValidateTransaction (now : Z) (accs : accounts_map) (tx : Transaction)
    (minFee : f64) (nonceTracker : T) : result ValidationError () :=
  if f_le (tx_Amount tx) f_zero then Err AmountMustBePositive
  else if f_lt (tx_Fee tx) minFee then Err (FeeBelowMinimum (tx_Fee tx) minFee)
  else if bool_decide (tx_Sender tx = EmptyString) || bool_decide (tx_Receiver tx = EmptyString)
  then Err SenderReceiverRequired
  else if negb (CheckAccountBalance (tx_Sender tx) (f_add (tx_Amount tx) (tx_Fee tx)) accs)
  then Err InsufficientFunds
  else match ValidateNonce (tx_Sender tx) (tx_Nonce tx) nonceTracker with
       | Err e => Err (InvalidNonce e)
       | Ok _ =>
           if (0 <? tx_ExpiryTime tx) && (tx_ExpiryTime tx <? unix now) then Err HasExpired
           else check_signature accs tx
       end.

Definition ReplayProtectionMiddleware (tx : Transaction) (tracker : T) :
    T * result (Z * Z) () :=
  let '(tracker, currentNonce) := GetNonce (tx_Sender tx) tracker in
  if negb (tx_Nonce tx =? i64 (currentNonce + 1))
  then (tracker, Err (i64 (currentNonce + 1), tx_Nonce tx))
  else (SetNonce (tx_Sender tx) (tx_Nonce tx) tracker, Ok ()).

Definition VerifyTransactionSignature (accs : accounts_map) (tx : Transaction) :
    result SignatureError bool :=
  if (length (tx_Signature tx) =? 0)%nat then Err TxHasNoSignature
  else match GetPublicKey (tx_Sender tx) accs with
       | Err e => Err (FailedToGetPublicKey e)
       | Ok pubKey =>
           if (length pubKey =? 0)%nat then Err ErrMissingPublicKey
           else match VerifySignature pubKey (list_byte_of_string (tx_ID tx))
                        (tx_Signature tx) with
                | None => Err VerifyFailed
                | Some ok => Ok ok
                end
       end.
End checks.

Definition EstimateTransactionFee (tx : Transaction) (baseFee : f64) (urgent : bool) : f64 :=
  let sizeEstimate := estimateTransactionSize tx in
  let feePerKB := if urgent then f_mul baseFee (f_lit 15 1) else baseFee in
  let fee := f_div (f_mul feePerKB (f_of_Z sizeEstimate)) (f_of_Z 1024) in
  let fee := if negb (bool_decide (tx_SmartContractID tx = EmptyString))
             then f_add fee (f_mul baseFee (f_lit 5 1)) else fee in
  if f_lt fee baseFee then baseFee else fee.

Section ids.
(** [fmt.Sprintf("%.8f", x)]. *)
Variable fmt8 : f64 → string.

(** [t1], [t2]: the two clock readings, in nanoseconds. *)
Definition GenerateTransactionID (t1 t2 : Z) (sender receiver : string) (amount : f64) :
    string :=
  let raw := sender +:+ ":" +:+ receiver +:+ ":" +:+ fmt8 amount +:+ ":" +:+ pretty t1
             +:+ ":" +:+ pretty t2 in
  hex_string (b32 (sha256 (list_byte_of_string raw))).
End ids.

Definition IsValidTransactionID (id : string) : bool :=
  if negb (String.length id =? 64)%nat then false
  else match hex_decode (list_byte_of_string id) with
       | None => false
       | Some _ => true
       end.

(** The source returns its argument. *)
Definition SortTransactionsByPriority (txs : list Transaction) : list Transaction := txs.

(** ** Batches *)

Section batch.
Variable VerifySignature : list byte → list byte → list byte → option bool.
Context {T : Type} `{NonceTracker T}.

(** The loop: the errors by identifier, the temporary tracker and the valid
    transactions, newest last.  [now k] is the clock at the [k]-th call. *)
Fixpoint validate_batch (now : nat → Z) (k : nat) (accs : accounts_map) (minFee : f64)
    (txs : list Transaction)
    (st : gmap string ValidationError * DefaultNonceTracker * list Transaction) :
    gmap string ValidationError * DefaultNonceTracker * list Transaction :=
  match txs with
  | [] => st
  | tx :: txs =>
      let '(results, temp, valid) := st in
      match ValidateTransaction VerifySignature (now k) accs tx minFee temp with
      | Err e =>
          validate_batch now (S k) accs minFee txs (<[tx_ID tx := e]> results, temp, valid)
      | Ok _ =>
          validate_batch now (S k) accs minFee txs
            (results, SetNonce (tx_Sender tx) (tx_Nonce tx) temp, valid ++ [tx])
      end
  end.

(** [order]: the iteration over the nonces copied into the temporary
    tracker.  The pointers of the batch are not nil. *)
Definition ValidateTransactionBatch (now : nat → Z) (order : list string)
    (accs : accounts_map) (txs : list Transaction) (minFee : f64) (tracker : T) :
    gmap string ValidationError * list Transaction :=
  match txs with
  | [] => (∅, [])
  | _ =>
      let allNonces := GetAllNonces tracker in
      let tempTracker := foldl (λ t acc,
        match allNonces !! acc with Some n => SetNonce acc n t | None => t end)
        NewDefaultNonceTracker order in
      let '(results, _, validTxs) := validate_batch now 0 accs minFee txs (∅, tempTracker, []) in
      (results, validTxs)
  end.
End batch.

(** * The tracker interface *)

(** A tracker behaves as the map [GetAllNonces] shows. *)
Class NonceTrackerLaws (T : Type) `{NonceTracker T} := {
  GetNonce_value a t : (GetNonce a t).2 = default 0 (GetAllNonces t !! a);
  GetNonce_state a t : GetAllNonces (GetNonce a t).1 = GetAllNonces t;
  SetNonce_state a n t : GetAllNonces (SetNonce a n t) = <[a := n]> (GetAllNonces t);
  ValidateNonce_value a n t : ValidateNonce a n t = default_ValidateNonce a n (GetAllNonces t);
  Reset_state a t : GetAllNonces (Reset a t) = delete a (GetAllNonces t) }.

(** Replaying a map's entries rebuilds it, in any order. *)
Lemma replay_entries (m : gmap string Z) order (acc : gmap string Z) :
  NoDup order → (∀ k, k ∈ order → acc !! k = None) →
  ∀ k, foldl (λ t a, match m !! a with Some n => <[a := n]> t | None => t end) acc order !! k
    = if decide (k ∈ order) then m !! k else acc !! k.
Proof.
  revert acc. induction order as [|j order IH]; intros acc Hnd Hfree k; [done|].
  apply NoDup_cons in Hnd as [Hj Hnd]. cbn [foldl]. rewrite IH; [|done|].
  - rewrite (decide_ext (k ∈ j :: order) (k = j ∨ k ∈ order)) by apply elem_of_cons.
    destruct (decide (k = j)) as [->|Hne].
    + rewrite decide_False by done. rewrite (decide_True (P := j = j ∨ _)) by auto.
      destruct (m !! j) as [n|] eqn:Hm; [by rewrite lookup_insert_eq|].
      apply Hfree. by left.
    + rewrite (decide_ext (k = j ∨ k ∈ order) (k ∈ order)) by naive_solver.
      case_decide; [done|]. destruct (m !! j); [rewrite lookup_insert_ne by done|]; done.
  - intros i Hi. destruct (m !! j); [rewrite lookup_insert_ne by set_solver|];
      apply Hfree; set_solver.
Qed.

Lemma replay_all (m : gmap string Z) order : iter_order m order →
  foldl (λ t a, match m !! a with Some n => <[a := n]> t | None => t end) (∅ : gmap string Z) order = m.
Proof.
  intros [Hnd Hdom]. apply map_eq. intros k. rewrite replay_entries; [|done|by intros; rewrite lookup_empty].
  case_decide as Hk; [done|]. rewrite lookup_empty. symmetry.
  destruct (m !! k) eqn:Hm; [|done]. exfalso. apply Hk, Hdom. by eexists.
Qed.

Lemma default_GetAllNonces_eq nt : default_GetAllNonces nt = nt.
Proof. apply replay_all, iter_order_default. Qed.

#[export] Instance default_laws : NonceTrackerLaws DefaultNonceTracker.
Proof.
  split; simpl; intros; rewrite ?default_GetAllNonces_eq; done.
Qed.

#[export] Instance persistent_laws : NonceTrackerLaws PersistentNonceTracker.
Proof.
  split; simpl; intros; rewrite ?default_GetAllNonces_eq; unfold lazyInitialize;
    try (by destruct (initialized t)).
Qed.

(** ** Calls on a tracker *)

Inductive nonce_call :=
| CallGet (a : string)
| CallSet (a : string) (n : Z)
| CallValidate (a : string) (n : Z)
| CallReset (a : string)
| CallAll.

Inductive nonce_answer :=
| AnsNonce (n : Z)
| AnsDone
| AnsValid (r : result NonceError ())
| AnsAll (m : gmap string Z).

Definition do_call {T} `{NonceTracker T} (c : nonce_call) (t : T) : T * nonce_answer :=
  match c with
  | CallGet a => let '(t, n) := GetNonce a t in (t, AnsNonce n)
  | CallSet a n => (SetNonce a n t, AnsDone)
  | CallValidate a n => (t, AnsValid (ValidateNonce a n t))
  | CallReset a => (Reset a t, AnsDone)
  | CallAll => (t, AnsAll (GetAllNonces t))
  end.

Fixpoint do_calls {T} `{NonceTracker T} (cs : list nonce_call) (t : T) : list nonce_answer :=
  match cs with
  | [] => []
  | c :: cs => let '(t, a) := do_call c t in a :: do_calls cs t
  end.

Lemma do_call_sim {T U} `{NonceTrackerLaws T, NonceTrackerLaws U} c (t : T) (u : U) :
  GetAllNonces t = GetAllNonces u →
  (do_call c t).2 = (do_call c u).2 ∧
  GetAllNonces (do_call c t).1 = GetAllNonces (do_call c u).1.
Proof.
  intros Heq. destruct c as [a|a n|a n|a|]; simpl.
  - pose proof (GetNonce_value a t). pose proof (GetNonce_value a u).
    pose proof (GetNonce_state a t). pose proof (GetNonce_state a u).
    destruct (GetNonce a t), (GetNonce a u). simpl in *. split; congruence.
  - by rewrite !SetNonce_state, Heq.
  - by rewrite !ValidateNonce_value, Heq.
  - by rewrite !Reset_state, Heq.
  - by rewrite Heq.
Qed.

Lemma do_calls_sim {T U} `{NonceTrackerLaws T, NonceTrackerLaws U} cs : ∀ (t : T) (u : U),
  GetAllNonces t = GetAllNonces u → do_calls cs t = do_calls cs u.
Proof.
  induction cs as [|c cs IH]; intros t u Heq; [done|]. simpl.
  destruct (do_call_sim c t u Heq) as [Ha Hs].
  destruct (do_call c t), (do_call c u). simpl in *. subst. f_equal. auto.
Qed.

(** ** Nonce arithmetic *)

Lemma default_ValidateNonce_ok a n nt :
  (∀ c, nt !! a = Some c → is_i64 c) → default_ValidateNonce a n nt = Ok () →
  n = default 0 (nt !! a) + 1.
Proof.
  intros Hi. unfold default_ValidateNonce. destruct (nt !! a) as [c|] eqn:Hc; simpl.
  - specialize (Hi c eq_refl). destruct (Z.leb_spec n c); [done|].
    destruct (Z.ltb_spec (i64 (c + 1)) n) as [|Hle]; [done|]. intros _.
    destruct (decide (c + 1 < 9223372036854775808)).
    + rewrite i64_small in Hle by (unfold is_i64 in *; lia). lia.
    + unfold is_i64 in Hi. assert (c = 9223372036854775807) as -> by lia.
      assert (i64 (9223372036854775807 + 1) = -9223372036854775808) as He by done. lia.
  - destruct (Z.eqb_spec n 1); [lia|done].
Qed.

(** Nonces of one sender in a list of transactions. *)
Definition nonces_of (a : string) (txs : list Transaction) : list Z :=
  tx_Nonce <$> filter (λ tx, tx_Sender tx = a) txs.

Lemma nonces_of_app a l k : nonces_of a (l ++ k) = nonces_of a l ++ nonces_of a k.
Proof. unfold nonces_of. by rewrite filter_app, fmap_app. Qed.

Lemma nonces_of_one a tx :
  nonces_of a [tx] = if decide (tx_Sender tx = a) then [tx_Nonce tx] else [].
Proof. unfold nonces_of. rewrite filter_cons. by case_decide. Qed.

Lemma ValidateTransaction_ok {T} `{NonceTracker T} VerifySignature now accs tx minFee (t : T) :
  ValidateTransaction VerifySignature now accs tx minFee t = Ok () →
  f_le (tx_Amount tx) f_zero = false ∧ f_lt (tx_Fee tx) minFee = false ∧
  tx_Sender tx ≠ EmptyString ∧ tx_Receiver tx ≠ EmptyString ∧
  CheckAccountBalance (tx_Sender tx) (f_add (tx_Amount tx) (tx_Fee tx)) accs = true ∧
  ValidateNonce (tx_Sender tx) (tx_Nonce tx) t = Ok () ∧
  (tx_ExpiryTime tx ≤ 0 ∨ unix now ≤ tx_ExpiryTime tx) ∧
  check_signature VerifySignature accs tx = Ok ().
Proof.
  unfold ValidateTransaction.
  destruct (f_le _ _); [done|]. destruct (f_lt _ _); [done|].
  repeat case_bool_decide; try done. simpl.
  destruct (CheckAccountBalance _ _ _); [|done]. simpl.
  destruct (ValidateNonce _ _ _) as [[]|]; [|done].
  destruct (Z.ltb_spec 0 (tx_ExpiryTime tx)), (Z.ltb_spec (tx_ExpiryTime tx) (unix now));
    simpl; intros; split_and!; try done; lia.
Qed.

Lemma succ_in_i64 c : is_i64 c → is_i64 (c + 1) ∨ c = 9223372036854775807.
Proof. unfold is_i64. lia. Qed.

(** ** The batch loop *)

Section batch_proof.
Variable VerifySignature : list byte → list byte → list byte → option bool.

Record batch_ok (accs : accounts_map) (minFee : f64) (nt0 nt : DefaultNonceTracker)
    (valid : list Transaction) : Prop := {
  bo_contig : ∀ a, ∃ k : nat, nonces_of a valid = seqZ (default 0 (nt0 !! a) + 1) (Z.of_nat k) ∧
    default 0 (nt !! a) = default 0 (nt0 !! a) + Z.of_nat k;
  bo_i64 : ∀ a c, nt !! a = Some c → is_i64 c;
  bo_valid : Forall (λ tx, f_le (tx_Amount tx) f_zero = false ∧
    f_lt (tx_Fee tx) minFee = false ∧ tx_Sender tx ≠ EmptyString ∧
    tx_Receiver tx ≠ EmptyString ∧ check_signature VerifySignature accs tx = Ok () ∧
    CheckAccountBalance (tx_Sender tx) (f_add (tx_Amount tx) (tx_Fee tx)) accs = true) valid }.

Lemma batch_ok_accept accs minFee nt0 nt valid now tx :
  batch_ok accs minFee nt0 nt valid → is_i64 (tx_Nonce tx) →
  ValidateTransaction VerifySignature now accs tx minFee nt = Ok () →
  batch_ok accs minFee nt0 (default_SetNonce (tx_Sender tx) (tx_Nonce tx) nt) (valid ++ [tx]).
Proof.
  intros [Hc Hi Hv] Hn Hok. apply ValidateTransaction_ok in Hok as (?&?&?&?&?&Hnon&_&?).
  apply default_ValidateNonce_ok in Hnon; [|apply Hi]. split.
  - intros a. destruct (Hc a) as (k & Hk & Hd). rewrite nonces_of_app, nonces_of_one, Hk.
    unfold default_SetNonce. case_decide as Ha.
    + exists (S k). subst a. rewrite lookup_insert_eq. simpl.
      rewrite seqZ_S, Hnon, Hd. split; [do 2 f_equal; lia|lia].
    + exists k. rewrite app_nil_r, lookup_insert_ne by done. done.
  - intros a c. unfold default_SetNonce. rewrite lookup_insert_Some.
    intros [[_ <-]|[_ ?]]; eauto.
  - apply Forall_app. split; [done|]. repeat constructor; done.
Qed.

Lemma validate_batch_spec now accs minFee nt0 txs : ∀ k results nt valid,
  batch_ok accs minFee nt0 nt valid → Forall (λ tx, is_i64 (tx_Nonce tx)) txs →
  let '(results', nt', valid') :=
    validate_batch VerifySignature now k accs minFee txs (results, nt, valid) in
  batch_ok accs minFee nt0 nt' valid' ∧
  (∃ l, valid' = valid ++ l ∧ l `sublist_of` txs) ∧
  (∀ tx, tx ∈ txs → tx ∈ valid' ∨ is_Some (results' !! tx_ID tx)) ∧
  (∀ id, is_Some (results !! id) → is_Some (results' !! id)).
Proof.
  induction txs as [|tx txs IH]; intros k results nt valid Hb Hn; cbn [validate_batch].
  { split_and!; [done|exists []; by rewrite app_nil_r|by intros ? ?%elem_of_nil|done]. }
  apply Forall_cons in Hn as [Hn1 Hn].
  destruct (ValidateTransaction _ _ _ _ _ _) as [[]|e] eqn:Hv.
  - specialize (IH (S k) results _ _ (batch_ok_accept _ _ _ _ _ _ _ Hb Hn1 Hv) Hn).
    cbn [SetNonce default_tracker] in *.
    destruct (validate_batch _ _ _ _ _ _ _) as [[r' nt'] v'].
    destruct IH as (Hb' & (l & -> & Hl) & Hall & Hres).
    split_and!; [done|exists (tx :: l); by rewrite <- app_assoc; split; [|constructor]| |done].
    intros tx' [->|Hin]%elem_of_cons; [|auto]. left. set_solver.
  - specialize (IH (S k) (<[tx_ID tx := e]> results) nt valid Hb Hn).
    destruct (validate_batch _ _ _ _ _ _ _) as [[r' nt'] v'].
    destruct IH as (Hb' & (l & -> & Hl) & Hall & Hres).
    split_and!; [done|exists l; split; [done|by constructor]| |].
    + intros tx' [->|Hin]%elem_of_cons; [|auto]. right. apply Hres.
      rewrite lookup_insert_eq. by eexists.
    + intros id Hid. apply Hres. destruct (decide (id = tx_ID tx)) as [->|];
        [rewrite lookup_insert_eq; by eexists|by rewrite lookup_insert_ne].
Qed.
End batch_proof.

Lemma length_hex_string b : String.length (hex_string (b32 b)) = 64%nat.
Proof.
  unfold hex_string. assert (∀ l, String.length (string_of_list_byte l) = length l) as Hl.
  { intros l. induction l as [|c l IH]; [done|]. simpl. by rewrite <- IH. }
  by rewrite Hl, length_hex_encode, b32_length.
Qed.

(** * Properties *)

(** batch validation enforces one contiguous nonce sequence per sender.
    Starting from any lawful tracker, in any order of its copy, for every
    account the accepted transactions carry the nonces [n+1, n+2, ...] after
    the tracker's [n], in the order of the batch; each passes every check of
    [ValidateTransaction], and every other transaction has an error recorded
    under its identifier. *)
Theorem batch_nonces_contiguous {T} `{NonceTrackerLaws T} VerifySignature now order accs txs
    minFee (tracker : T) :
  iter_order (GetAllNonces tracker) order →
  (∀ a c, GetAllNonces tracker !! a = Some c → is_i64 c) →
  Forall (λ tx, is_i64 (tx_Nonce tx)) txs →
  let '(results, valid) :=
    ValidateTransactionBatch VerifySignature now order accs txs minFee tracker in
  valid `sublist_of` txs ∧
  (∀ a, nonces_of a valid =
     seqZ (default 0 (GetAllNonces tracker !! a) + 1) (Z.of_nat (length (nonces_of a valid)))) ∧
  Forall (λ tx, check_signature VerifySignature accs tx = Ok () ∧
    CheckAccountBalance (tx_Sender tx) (f_add (tx_Amount tx) (tx_Fee tx)) accs = true) valid ∧
  (∀ tx, tx ∈ txs → tx ∈ valid ∨ is_Some (results !! tx_ID tx)).
Proof.
  intros Ho Hi Hn. unfold ValidateTransactionBatch. destruct txs as [|tx0 txs].
  { split_and!; [done..|]. by intros ? ?%elem_of_nil. }
  cbn [SetNonce default_tracker]. unfold default_SetNonce, NewDefaultNonceTracker.
  rewrite (replay_all _ _ Ho).
  pose proof (validate_batch_spec VerifySignature now accs minFee (GetAllNonces tracker)
    (tx0 :: txs) 0 ∅ (GetAllNonces tracker) []) as Hb.
  destruct (validate_batch _ _ _ _ _ _ _) as [[r nt] v].
  destruct Hb as ([Hc _ Hv] & (l & -> & Hl) & Hall & _); [|done|].
  { split; [|done|done]. intros a. exists 0%nat. split; [done|lia]. }
  split_and!; [done| |eapply Forall_impl; [done|naive_solver]|done].
  intros a. destruct (Hc a) as (k & Hk & _). rewrite Hk, length_seqZ. f_equal. lia.
Qed.

(** every generated transaction identifier is accepted by
    [IsValidTransactionID]. *)
Theorem GenerateTransactionID_valid fmt8 t1 t2 sender receiver amount :
  IsValidTransactionID (GenerateTransactionID fmt8 t1 t2 sender receiver amount) = true.
Proof.
  unfold IsValidTransactionID, GenerateTransactionID. cbv zeta. rewrite length_hex_string.
  unfold hex_string. cbn [Nat.eqb negb].
  by rewrite list_byte_of_string_of_list_byte, hex_decode_encode.
Qed.

(** the persistent tracker refines the in-memory one: any sequence of
    calls on a fresh one of each gives the same answers. *)
Theorem persistent_refines_default cs :
  do_calls cs NewPersistentNonceTracker = do_calls cs NewDefaultNonceTracker.
Proof. apply do_calls_sim. done. Qed.

(** ** Concrete batches *)

Definition batch_tx (id sender : string) (nonce : Z) (amount : Z) : Transaction :=
  mkTx id sender "bob" (f_of_Z amount) 7 [] 0 (f_of_Z 1) 0 "" [] nonce "" 0 "pending".
Definition batch_accounts : accounts_map :=
  <["alice" := blank_account "alice" [x01] (f_of_Z 10) 0 0]>
  (<["carol" := blank_account "carol" [x02] (f_of_Z 10) 0 0]> ∅).
Definition batch_tracker : PersistentNonceTracker := SetNonce "alice" 4 NewPersistentNonceTracker.

Definition batch_txs : list Transaction :=
  [batch_tx "a" "alice" 5 2; batch_tx "b" "carol" 1 2; batch_tx "c" "alice" 7 2;
   batch_tx "d" "alice" 6 2].
Definition batch_outcome : gmap string ValidationError * list Transaction :=
  ValidateTransactionBatch sig_true (λ _, 0) ["alice"] batch_accounts batch_txs (f_of_Z 1)
    batch_tracker.

Lemma batch_nonces_contiguous_witness :
  tx_ID <$> batch_outcome.2 = ["a"; "b"; "d"] ∧
  (let '(results, valid) := batch_outcome in
   valid `sublist_of` batch_txs ∧
   (∀ a, nonces_of a valid =
     seqZ (default 0 (GetAllNonces batch_tracker !! a) + 1) (Z.of_nat (length (nonces_of a valid)))) ∧
   Forall (λ tx, check_signature sig_true batch_accounts tx = Ok () ∧
    CheckAccountBalance (tx_Sender tx) (f_add (tx_Amount tx) (tx_Fee tx)) batch_accounts = true)
    valid ∧
   (∀ tx, tx ∈ batch_txs → tx ∈ valid ∨ is_Some (results !! tx_ID tx))).
Proof.
  split; [by vm_compute|].
  apply (batch_nonces_contiguous sig_true (λ _, 0) ["alice"] batch_accounts
    batch_txs (f_of_Z 1) batch_tracker).
  - solve_order.
  - intros a c. change (GetAllNonces batch_tracker) with (<["alice" := 4]> (∅ : gmap string Z)).
    rewrite lookup_insert_Some, lookup_empty. intros [[_ <-]|[_ ?]]; [|done]. by vm_compute.
  - repeat constructor; by vm_compute.
Defined.

(** The balance is checked for each transaction alone: a batch that spends
    an account twice over is accepted as a whole. *)
Example batch_overspends :
  ValidateTransactionBatch sig_true (λ _, 0) [] batch_accounts
    [batch_tx "a" "alice" 1 9; batch_tx "b" "alice" 2 9] (f_of_Z 1) NewDefaultNonceTracker
  = (∅, [batch_tx "a" "alice" 1 9; batch_tx "b" "alice" 2 9]).
Proof. by vm_compute. Qed.
