(* ===== verification/TxManager.v ===== *)
(** * The transaction manager: src/transaction/transaction_manager.go

    The manager joins the pool, a nonce tracker, the account store and the
    ledger.  The tracker is any type of the class [NonceTracker]; the ledger
    is any type of the class [LedgerAPI] (an interface of the source whose
    implementation talks to a database).  The [k]-th reading of the clock in
    an operation is [clk k].  The crypto manager, the environment's key, the
    AEAD and Dilithium signing are parameters.  Logging is not modelled; the
    background goroutines are modelled by the body of one tick. *)
From Stdlib Require Import ZArith Lia SpecFloat Sorted.
From Stdlib Require Import Strings.Byte Strings.Ascii Strings.String.
From stdpp Require Import numbers prelude pretty gmap strings.
From S2P Require Import Prelude GoFloat Maps Bytes Sha256 Common Accounts GoHeap TxQueue TxPool.
From S2P Require Import TxUtils.
Open Scope Z_scope.

(** What the manager uses of [common.LedgerAPI]; errors are opaque. *)
Class LedgerAPI (L LE : Type) := {
  ledger_AddTransaction : Transaction → L → L * result LE ();
  ledger_UpdateAccountBalance : string → f64 → L → L * result LE ();
  ledger_IsTransactionCommitted : string → L → bool }.

Inductive ManagerError (LE : Type) :=
| MErrEmptyParty
| MErrAmountNotPositive
| MErrFeeTooLow
| MErrNonceNotPositive
| MErrDataTooLarge
| MErrTimestampInFuture
| MErrTooOld
| MErrInsufficientFunds
| MErrNonceTooLow (nonce current : Z)
| MErrNonceTooHigh (nonce current : Z)
| MErrContractWithoutData
| MErrValidation (e : ManagerError LE)
| MErrSenderNotFound
| MErrMissingEnvKey
| MErrDecrypt (e : CommonError)
| MErrSigningFailed
| MErrSigning (e : ManagerError LE)
| MErrPoolAdd (e : PoolError)
| MErrNotInPool (e : PoolError)
| MErrReplay (expected got : Z)
| MErrLedgerCommit (e : LE)
| MErrSenderBalance (e : LE)
| MErrReceiverBalance (e : LE)
| MErrBalance (e : ManagerError LE)
| MErrTxUnknown
| MErrEmptyAccountID
| MErrAlreadyRunning
| MErrNotRunning.
Arguments MErrEmptyParty {LE}.
Arguments MErrAmountNotPositive {LE}.
Arguments MErrFeeTooLow {LE}.
Arguments MErrNonceNotPositive {LE}.
Arguments MErrDataTooLarge {LE}.
Arguments MErrTimestampInFuture {LE}.
Arguments MErrTooOld {LE}.
Arguments MErrInsufficientFunds {LE}.
Arguments MErrNonceTooLow {LE} nonce current.
Arguments MErrNonceTooHigh {LE} nonce current.
Arguments MErrContractWithoutData {LE}.
Arguments MErrValidation {LE} e.
Arguments MErrSenderNotFound {LE}.
Arguments MErrMissingEnvKey {LE}.
Arguments MErrDecrypt {LE} e.
Arguments MErrSigningFailed {LE}.
Arguments MErrSigning {LE} e.
Arguments MErrPoolAdd {LE} e.
Arguments MErrNotInPool {LE} e.
Arguments MErrReplay {LE} expected got.
Arguments MErrLedgerCommit {LE} e.
Arguments MErrSenderBalance {LE} e.
Arguments MErrReceiverBalance {LE} e.
Arguments MErrBalance {LE} e.
Arguments MErrTxUnknown {LE}.
Arguments MErrEmptyAccountID {LE}.
Arguments MErrAlreadyRunning {LE}.
Arguments MErrNotRunning {LE}.

Record TransactionStats := mkStats {
  TotalProcessed : Z;
  TotalRejected : Z;
  TotalConfirmed : Z;
  AvgProcessingTime : Z;
  MaxProcessingTime : Z;
  AvgConfirmationTime : Z;
  LastProcessedTime : Z }.

Record TransactionManager (T L : Type) := mkTM {
  tm_pool : TransactionPool;
  minFeeThreshold : f64;
  nonceTracker : T;
  tm_conflictResolution : bool;
  ledger : L;
  tm_stats : TransactionStats;
  maxTxsPerBlock : Z;
  maxTxSize : Z;
  maxFutureNonce : Z;
  maxTxAge : Z;
  isRunning : bool;
  stopClosed : bool }.
Arguments mkTM {T L}.
Arguments tm_pool {T L} t.
Arguments minFeeThreshold {T L} t.
Arguments nonceTracker {T L} t.
Arguments tm_conflictResolution {T L} t.
Arguments ledger {T L} t.
Arguments tm_stats {T L} t.
Arguments maxTxsPerBlock {T L} t.
Arguments maxTxSize {T L} t.
Arguments maxFutureNonce {T L} t.
Arguments maxTxAge {T L} t.
Arguments isRunning {T L} t.
Arguments stopClosed {T L} t.

(** [NewTransactionManager], before its options. *)
Definition NewTransactionManager {L} (txPool : TransactionPool) (minFee : f64)
    (conflicts : bool) (l : L) : TransactionManager DefaultNonceTracker L :=
  mkTM txPool minFee NewDefaultNonceTracker conflicts l (mkStats 0 0 0 0 0 0 0)
    5000 (1024 * 1024) 10 (24 * hour) false false.

Section setters.
Context {T L : Type}.
Implicit Types tm : TransactionManager T L.

Definition set_pool (p : TransactionPool) tm : TransactionManager T L :=
  mkTM p (minFeeThreshold tm) (nonceTracker tm) (tm_conflictResolution tm) (ledger tm)
    (tm_stats tm) (maxTxsPerBlock tm) (maxTxSize tm) (maxFutureNonce tm) (maxTxAge tm)
    (isRunning tm) (stopClosed tm).
Definition set_tracker (t : T) tm : TransactionManager T L :=
  mkTM (tm_pool tm) (minFeeThreshold tm) t (tm_conflictResolution tm) (ledger tm)
    (tm_stats tm) (maxTxsPerBlock tm) (maxTxSize tm) (maxFutureNonce tm) (maxTxAge tm)
    (isRunning tm) (stopClosed tm).
Definition set_ledger (l : L) tm : TransactionManager T L :=
  mkTM (tm_pool tm) (minFeeThreshold tm) (nonceTracker tm) (tm_conflictResolution tm) l
    (tm_stats tm) (maxTxsPerBlock tm) (maxTxSize tm) (maxFutureNonce tm) (maxTxAge tm)
    (isRunning tm) (stopClosed tm).
Definition set_stats (s : TransactionStats) tm : TransactionManager T L :=
  mkTM (tm_pool tm) (minFeeThreshold tm) (nonceTracker tm) (tm_conflictResolution tm)
    (ledger tm) s (maxTxsPerBlock tm) (maxTxSize tm) (maxFutureNonce tm) (maxTxAge tm)
    (isRunning tm) (stopClosed tm).
Definition set_running (r c : bool) tm : TransactionManager T L :=
  mkTM (tm_pool tm) (minFeeThreshold tm) (nonceTracker tm) (tm_conflictResolution tm)
    (ledger tm) (tm_stats tm) (maxTxsPerBlock tm) (maxTxSize tm) (maxFutureNonce tm)
    (maxTxAge tm) r c.
Definition set_limits (perBlock size future age : Z) tm : TransactionManager T L :=
  mkTM (tm_pool tm) (minFeeThreshold tm) (nonceTracker tm) (tm_conflictResolution tm)
    (ledger tm) (tm_stats tm) perBlock size future age (isRunning tm) (stopClosed tm).

(** The functional options; a non-positive value is ignored. *)
Definition WithMaxTransactionsPerBlock (max : Z) tm : TransactionManager T L :=
  if 0 <? max then set_limits max (maxTxSize tm) (maxFutureNonce tm) (maxTxAge tm) tm else tm.
Definition WithMaxTransactionSize (maxSize : Z) tm : TransactionManager T L :=
  if 0 <? maxSize
  then set_limits (maxTxsPerBlock tm) maxSize (maxFutureNonce tm) (maxTxAge tm) tm else tm.
Definition WithMaxFutureNonce (max : Z) tm : TransactionManager T L :=
  if 0 <? max
  then set_limits (maxTxsPerBlock tm) (maxTxSize tm) max (maxTxAge tm) tm else tm.
Definition WithMaxTransactionAge (maxAge : Z) tm : TransactionManager T L :=
  if 0 <? maxAge
  then set_limits (maxTxsPerBlock tm) (maxTxSize tm) (maxFutureNonce tm) maxAge tm else tm.
End setters.

(** ** Statistics *)

Definition moving_average (avg duration : Z) : Z :=
  if avg =? 0 then duration else Z.quot (i64 (i64 (avg * 9) + duration)) 10.

Definition stats_rejected (s : TransactionStats) : TransactionStats :=
  mkStats (TotalProcessed s) (uadd (TotalRejected s) 1) (TotalConfirmed s)
    (AvgProcessingTime s) (MaxProcessingTime s) (AvgConfirmationTime s) (LastProcessedTime s).
Definition stats_processed (startTime now1 now2 : Z) (s : TransactionStats) :
    TransactionStats :=
  let duration := time_sub now1 startTime in
  mkStats (uadd (TotalProcessed s) 1) (TotalRejected s) (TotalConfirmed s)
    (moving_average (AvgProcessingTime s) duration)
    (if MaxProcessingTime s <? duration then duration else MaxProcessingTime s)
    (AvgConfirmationTime s) now2.
Definition stats_confirmed (startTime now : Z) (s : TransactionStats) : TransactionStats :=
  mkStats (TotalProcessed s) (TotalRejected s) (uadd (TotalConfirmed s) 1)
    (AvgProcessingTime s) (MaxProcessingTime s)
    (moving_average (AvgConfirmationTime s) (time_sub now startTime)) (LastProcessedTime s).

Section manager.
Context {T L LE : Type} `{NonceTracker T, LedgerAPI L LE}.
Variable VerifySignature : list byte → list byte → list byte → option bool.
Variable wild_int : f64 → Z.
Variable fmt8 : f64 → string.
(** The crypto manager's [SignWithContext], absent when there is none. *)
Variable cryptoManager : option (list byte → list byte → option (list byte)).
(** [os.Getenv("DIAMANTE_WALLET_ENCRYPTION_KEY")]. *)
Variable env_key : string.
(** [Open] of AES-256-GCM. *)
Variable open_ : list byte → list byte → list byte → option (list byte).
Variable SignDataWithDilithium : list byte → list byte → option (list byte).
Implicit Types tm : TransactionManager T L.

Definition logRejection tm : TransactionManager T L :=
  set_stats (stats_rejected (tm_stats tm)) tm.

Definition updateProcessingStats (startTime now1 now2 : Z) tm : TransactionManager T L :=
  set_stats (stats_processed startTime now1 now2 (tm_stats tm)) tm.

(** [now] is the clock reading of step 3. *)
Definition ValidateTransaction (now : Z) (accs : accounts_map) (tx : Transaction) tm :
    TransactionManager T L * result (ManagerError LE) () :=
  if f_le (tx_Amount tx) f_zero then (tm, Err MErrAmountNotPositive)
  else if f_lt (tx_Fee tx) (minFeeThreshold tm) then (tm, Err MErrFeeTooLow)
  else if bool_decide (tx_Sender tx = EmptyString) || bool_decide (tx_Receiver tx = EmptyString)
  then (tm, Err MErrEmptyParty)
  else if tx_Nonce tx <=? 0 then (tm, Err MErrNonceNotPositive)
  else if maxTxSize tm <? Z.of_nat (length (tx_Data tx)) then (tm, Err MErrDataTooLarge)
  else if unix now + 300 <? tx_Timestamp tx then (tm, Err MErrTimestampInFuture)
  else if to_int wild_int (dur_seconds (maxTxAge tm)) <? i64 (unix now - tx_Timestamp tx)
  then (tm, Err MErrTooOld)
  else if negb (CheckAccountBalance (tx_Sender tx) (f_add (tx_Amount tx) (tx_Fee tx)) accs)
  then (tm, Err MErrInsufficientFunds)
  else
    let '(t, currentNonce) := GetNonce (tx_Sender tx) (nonceTracker tm) in
    let tm := set_tracker t tm in
    if tx_Nonce tx <=? currentNonce then (tm, Err (MErrNonceTooLow (tx_Nonce tx) currentNonce))
    else if i64 (currentNonce + maxFutureNonce tm) <? tx_Nonce tx
    then (tm, Err (MErrNonceTooHigh (tx_Nonce tx) currentNonce))
    else if negb (bool_decide (tx_SmartContractID tx = EmptyString))
            && (length (tx_Data tx) =? 0)%nat
    then (tm, Err MErrContractWithoutData)
    else (tm, Ok ()).

Definition set_Signature (s : list byte) (tx : Transaction) : Transaction :=
  mkTx (tx_ID tx) (tx_Sender tx) (tx_Receiver tx) (tx_Amount tx) (tx_Timestamp tx) s
    (tx_Priority tx) (tx_Fee tx) (tx_ExpiryTime tx) (tx_SmartContractID tx) (tx_Data tx)
    (tx_Nonce tx) (tx_SignerID tx) (tx_BlockHeight tx) (tx_Status tx).
Definition set_Status (s : string) (tx : Transaction) : Transaction :=
  mkTx (tx_ID tx) (tx_Sender tx) (tx_Receiver tx) (tx_Amount tx) (tx_Timestamp tx)
    (tx_Signature tx) (tx_Priority tx) (tx_Fee tx) (tx_ExpiryTime tx) (tx_SmartContractID tx)
    (tx_Data tx) (tx_Nonce tx) (tx_SignerID tx) (tx_BlockHeight tx) s.

Definition signTransaction (accs : accounts_map) (tx : Transaction) :
    result (ManagerError LE) Transaction :=
  match GetAccount (tx_Sender tx) accs with
  | None => Err MErrSenderNotFound
  | Some acc =>
      let message := list_byte_of_string (tx_ID tx) in
      let by_manager :=
        match cryptoManager with
        | None => None
        | Some sign =>
            match sign (acc_PublicKey acc) message with
            | Some signature => if (0 <? length signature)%nat then Some signature else None
            | None => None
            end
        end in
      match by_manager with
      | Some signature => Ok (set_Signature signature tx)
      | None =>
          if bool_decide (env_key = EmptyString) then Err MErrMissingEnvKey
          else match GetDecryptedPrivateKey open_ env_key acc with
               | Err e => Err (MErrDecrypt e)
               | Ok privKey =>
                   match SignDataWithDilithium privKey message with
                   | None => Err MErrSigningFailed
                   | Some signature => Ok (set_Signature signature tx)
                   end
               end
      end
  end.

(** Steps 2 to 4: the transaction before validation. *)
Definition build_tx (clk : nat → Z) (sender receiver : string) (amount fee : f64)
    (data : list byte) (nonce : Z) : Transaction :=
  mkTx (GenerateTransactionID fmt8 (clk 1%nat) (clk 2%nat) sender receiver amount)
    sender receiver amount (unix (clk 3%nat)) [] 0 fee 0 "" data nonce "" 0 "pending".

(** [None] is a runtime panic. *)
Definition CreateTransaction (clk : nat → Z) (netLoad : Z) (accs : accounts_map)
    (sender receiver : string) (amount fee : f64) (data : list byte) tm :
    option (TransactionManager T L * result (ManagerError LE) Transaction) :=
  if bool_decide (sender = EmptyString) || bool_decide (receiver = EmptyString)
  then Some (tm, Err MErrEmptyParty)
  else if f_le amount f_zero then Some (tm, Err MErrAmountNotPositive)
  else if f_lt fee (minFeeThreshold tm) then Some (tm, Err MErrFeeTooLow)
  else
    let '(t, currentNonce) := GetNonce sender (nonceTracker tm) in
    let tm := set_tracker t tm in
    let tx := build_tx clk sender receiver amount fee data (i64 (currentNonce + 1)) in
    match ValidateTransaction (clk 4%nat) accs tx tm with
    | (tm, Err e) => Some (logRejection tm, Err (MErrValidation e))
    | (tm, Ok _) =>
        match signTransaction accs tx with
        | Err e => Some (logRejection tm, Err (MErrSigning e))
        | Ok tx =>
            '(p, r) ← AddTransaction VerifySignature wild_int (clk 5%nat) netLoad accs tx
                        (tm_pool tm);
            let tm := set_pool p tm in
            match r with
            | Err e => Some (logRejection tm, Err (MErrPoolAdd e))
            | Ok _ =>
                let tm := set_tracker (SetNonce sender (tx_Nonce tx) (nonceTracker tm)) tm in
                Some (updateProcessingStats (clk 0%nat) (clk 6%nat) (clk 7%nat) tm, Ok tx)
            end
        end
    end.

Definition updateBalances (tx : Transaction) (l : L) : L * result (ManagerError LE) () :=
  match ledger_UpdateAccountBalance (tx_Sender tx) (f_neg (f_add (tx_Amount tx) (tx_Fee tx))) l
  with
  | (l, Err e) => (l, Err (MErrSenderBalance e))
  | (l, Ok _) =>
      match ledger_UpdateAccountBalance (tx_Receiver tx) (tx_Amount tx) l with
      | (l, Err e) => (l, Err (MErrReceiverBalance e))
      | (l, Ok _) => (l, Ok ())
      end
  end.

(** Steps 4 to 7 of [ProcessTransaction], the transaction being out of the
    pool. *)
Definition commit_tx (clk : nat → Z) (tx : Transaction) tm :
    TransactionManager T L * result (ManagerError LE) () :=
  let tx := set_Status "committed" tx in
  match ledger_AddTransaction tx (ledger tm) with
  | (l, Err e) => (set_ledger l tm, Err (MErrLedgerCommit e))
  | (l, Ok _) =>
      match updateBalances tx l with
      | (l, Err e) => (set_ledger l tm, Err (MErrBalance e))
      | (l, Ok _) =>
          (set_stats (stats_confirmed (clk 0%nat) (clk 1%nat) (tm_stats tm)) (set_ledger l tm),
           Ok ())
      end
  end.

Definition ProcessTransaction (clk : nat → Z) (txID : string) tm :
    option (TransactionManager T L * result (ManagerError LE) ()) :=
  match GetTransaction txID (tm_pool tm) with
  | Err e => Some (tm, Err (MErrNotInPool e))
  | Ok tx =>
      match ReplayProtectionMiddleware tx (nonceTracker tm) with
      | (t, Err (expected, got)) => Some (set_tracker t tm, Err (MErrReplay expected got))
      | (t, Ok _) =>
          '(p, _) ← RemoveTransaction (tx_ID tx) (tm_pool tm);
          Some (commit_tx clk tx (set_pool p (set_tracker t tm)))
      end
  end.

(** The same call in the phases between which other goroutines may run: the
    pool and the nonce are read, the nonce is written, the rest follows. *)
Definition process_read (txID : string) tm : TransactionManager T L * option Transaction :=
  match GetTransaction txID (tm_pool tm) with
  | Err _ => (tm, None)
  | Ok tx =>
      let '(t, currentNonce) := GetNonce (tx_Sender tx) (nonceTracker tm) in
      (set_tracker t tm, if tx_Nonce tx =? i64 (currentNonce + 1) then Some tx else None)
  end.
Definition process_write (tx : Transaction) tm : TransactionManager T L :=
  set_tracker (SetNonce (tx_Sender tx) (tx_Nonce tx) (nonceTracker tm)) tm.
Definition process_rest (clk : nat → Z) (tx : Transaction) tm :
    option (TransactionManager T L * result (ManagerError LE) ()) :=
  '(p, _) ← RemoveTransaction (tx_ID tx) (tm_pool tm);
  Some (commit_tx clk tx (set_pool p tm)).

(** The iteration orders are those of the pool's [HandleConflicts]. *)
Definition HandleTransactionConflicts (order keys : list string)
    (ord1 ord2 : string → list string) tm : option (TransactionManager T L) :=
  if negb (tm_conflictResolution tm) then Some tm
  else p ← HandleConflicts order keys ord1 ord2 (tm_pool tm); Some (set_pool p tm).

Definition GetTransactionStatus (txID : string) tm :
    string * result (ManagerError LE) () :=
  if HasTransaction txID (tm_pool tm) then ("Pending"%string, Ok ())
  else if ledger_IsTransactionCommitted txID (ledger tm) then ("Committed"%string, Ok ())
  else ("Unknown"%string, Err MErrTxUnknown).

Definition GetPendingTransactions (order : list string) tm : list Transaction :=
  it_tx <$> GetAllTransactions order (tm_pool tm).

Definition GetPoolSize tm : Z := PoolSize (tm_pool tm).
Definition GetStats tm : TransactionStats := tm_stats tm.

Definition GetPendingTransactionsByAccount (accountID : string) (order : list string) tm :
    result (ManagerError LE) (list Transaction) :=
  if bool_decide (accountID = EmptyString) then Err MErrEmptyAccountID
  else Ok (List.filter (λ tx, bool_decide (tx_Sender tx = accountID)
                              || bool_decide (tx_Receiver tx = accountID))
             (it_tx <$> GetAllTransactions order (tm_pool tm))).

(** The error of the pending query is dropped. *)
Definition GetTransactionsByAccount (accountID : string) (order : list string) tm :
    list Transaction :=
  match GetPendingTransactionsByAccount accountID order tm with
  | Ok txs => txs
  | Err _ => []
  end.

Definition EstimateFee tm : f64 :=
  let utilization := f_div (f_of_Z (PoolSize (tm_pool tm)))
                       (f_of_Z (GetMaxPoolSize (tm_pool tm))) in
  f_mul (minFeeThreshold tm) (f_add f_one utilization).

Definition SuggestNonce (sender : string) tm : TransactionManager T L * Z :=
  let '(t, n) := GetNonce sender (nonceTracker tm) in (set_tracker t tm, i64 (n + 1)).

(** ** Background work *)

Definition Start tm : TransactionManager T L * result (ManagerError LE) () :=
  if isRunning tm then (tm, Err MErrAlreadyRunning)
  else (set_running true (stopClosed tm) tm, Ok ()).

(** Closing a closed channel panics. *)
Definition Stop tm : option (TransactionManager T L * result (ManagerError LE) ()) :=
  if negb (isRunning tm) then Some (tm, Err MErrNotRunning)
  else if stopClosed tm then None
  else Some (set_running false true tm, Ok ()).

(** One tick of [cleanupExpiredTransactions]. *)
Definition cleanupExpiredTransactions (now : Z) (order : list string) tm :
    option (TransactionManager T L) :=
  '(p, _) ← RemoveExpiredTransactions now (maxTxAge tm) order (tm_pool tm);
  Some (set_pool p tm).

(** One tick of [revalidatePendingTransactions]: the loop over the items and
    the number removed. *)
Fixpoint revalidate (clk : nat → Z) (k : nat) (accs : accounts_map)
    (items : list TransactionItem) (removed : Z) tm : option (TransactionManager T L * Z) :=
  match items with
  | [] => Some (tm, removed)
  | it :: items =>
      if time_sub (clk k) (tx_Timestamp (it_tx it) * second) <? 5 * minute
      then revalidate clk (S k) accs items removed tm
      else match ValidateTransaction (clk (S k)) accs (it_tx it) tm with
           | (tm, Ok _) => revalidate clk (S (S k)) accs items removed tm
           | (tm, Err _) =>
               '(p, r) ← RemoveTransaction (tx_ID (it_tx it)) (tm_pool tm);
               revalidate clk (S (S k)) accs items
                 (match r with Ok _ => i64 (removed + 1) | Err _ => removed end)
                 (set_pool p tm)
           end
  end.

Definition revalidatePendingTransactions (clk : nat → Z) (accs : accounts_map)
    (order : list string) tm : option (TransactionManager T L * Z) :=
  revalidate clk 0 accs (GetAllTransactions order (tm_pool tm)) 0 tm.
End manager.

(** * Facts *)

Section facts.
Context {T L LE : Type} `{NonceTrackerLaws T, LedgerAPI L LE}.
Variable VerifySignature : list byte → list byte → list byte → option bool.
Variable wild_int : f64 → Z.
Variable fmt8 : f64 → string.
Variable cryptoManager : option (list byte → list byte → option (list byte)).
Variable env_key : string.
Variable open_ : list byte → list byte → list byte → option (list byte).
Variable SignDataWithDilithium : list byte → list byte → option (list byte).
Implicit Types tm : TransactionManager T L.

(** What a client sees of the tracker. *)
Definition nonces tm : gmap string Z := GetAllNonces (nonceTracker tm).
Definition nonce_at tm (a : string) : Z := default 0 (nonces tm !! a).

(** Only the tracker's private state may differ. *)
Definition same_manager tm tm' : Prop :=
  tm_pool tm' = tm_pool tm ∧ ledger tm' = ledger tm ∧ nonces tm' = nonces tm ∧
  minFeeThreshold tm' = minFeeThreshold tm.

Lemma same_manager_refl tm : same_manager tm tm.
Proof. done. Qed.

Lemma same_manager_trans tm1 tm2 tm3 :
  same_manager tm1 tm2 → same_manager tm2 tm3 → same_manager tm1 tm3.
Proof. unfold same_manager. intuition congruence. Qed.

Lemma same_manager_nonce tm tm' a : same_manager tm tm' → nonce_at tm' a = nonce_at tm a.
Proof. intros (_ & _ & Hn & _). unfold nonce_at. by rewrite Hn. Qed.

Lemma GetNonce_manager a tm :
  ∃ t, GetNonce a (nonceTracker tm) = (t, nonce_at tm a) ∧ same_manager tm (set_tracker t tm).
Proof.
  pose proof (GetNonce_value a (nonceTracker tm)) as Hv.
  pose proof (GetNonce_state a (nonceTracker tm)) as Hs.
  destruct (GetNonce a (nonceTracker tm)) as [t n]. simpl in *. subst n. by exists t.
Qed.

Lemma i64_succ_above n : is_i64 n → n < i64 (n + 1) → i64 (n + 1) = n + 1.
Proof.
  intros Hn Hlt. destruct (succ_in_i64 n Hn) as [Hs|Hm]; [by apply i64_small|subst n].
  by vm_compute in Hlt.
Qed.

(** A branch that returns an error. *)
Ltac refused := eexists _, _; split; [reflexivity|split; [done|discriminate]].

Lemma ValidateTransaction_spec now accs tx tm :
  ∃ tm' r, ValidateTransaction wild_int (LE := LE) now accs tx tm = (tm', r) ∧
    same_manager tm tm' ∧
    (r = Ok () → nonce_at tm (tx_Sender tx) < tx_Nonce tx ∧ 0 < tx_Nonce tx ∧
       tx_Nonce tx ≤ i64 (nonce_at tm (tx_Sender tx) + maxFutureNonce tm) ∧
       CheckAccountBalance (tx_Sender tx) (f_add (tx_Amount tx) (tx_Fee tx)) accs = true).
Proof.
  unfold ValidateTransaction.
  destruct (f_le _ _); [refused|].
  destruct (f_lt _ _); [refused|].
  destruct (bool_decide _ || bool_decide _); [refused|].
  destruct (Z.leb_spec (tx_Nonce tx) 0); [refused|].
  destruct (maxTxSize tm <? _); [refused|].
  destruct (unix now + 300 <? _); [refused|].
  destruct (to_int _ _ <? _); [refused|].
  destruct (CheckAccountBalance _ _ _); cbn [negb]; [|refused].
  destruct (GetNonce_manager (tx_Sender tx) tm) as (t & -> & Hs). cbn beta iota zeta.
  destruct (Z.leb_spec (tx_Nonce tx) (nonce_at tm (tx_Sender tx))); [refused|].
  destruct (Z.ltb_spec (i64 (nonce_at tm (tx_Sender tx) + maxFutureNonce (set_tracker t tm)))
    (tx_Nonce tx)) as [|Hle]; [refused|].
  destruct (negb _ && _); [refused|].
  eexists _, (Ok ()). split_and!; try done.
Qed.

Lemma signTransaction_spec accs tx tx' :
  signTransaction cryptoManager env_key open_ SignDataWithDilithium (LE := LE) accs tx = Ok tx' →
  ∃ s, tx' = set_Signature s tx.
Proof.
  unfold signTransaction. destruct (GetAccount _ _); [|done]. cbv zeta.
  destruct (match cryptoManager with None => None | Some _ => _ end) as [s|].
  { intros Heq. simplify_eq. eauto. }
  case_bool_decide; [done|]. destruct (GetDecryptedPrivateKey _ _ _); [|done].
  destruct (SignDataWithDilithium _ _); [|done]. intros. simplify_eq. eauto.
Qed.

Lemma ReplayProtection_spec tx tm :
  ∃ t r, ReplayProtectionMiddleware tx (nonceTracker tm) = (t, r) ∧
    if decide (tx_Nonce tx = i64 (nonce_at tm (tx_Sender tx) + 1))
    then r = Ok () ∧ GetAllNonces t = <[tx_Sender tx := tx_Nonce tx]> (nonces tm)
    else r = Err (i64 (nonce_at tm (tx_Sender tx) + 1), tx_Nonce tx) ∧
         GetAllNonces t = nonces tm.
Proof.
  unfold ReplayProtectionMiddleware.
  destruct (GetNonce_manager (tx_Sender tx) tm) as (t & -> & Hs).
  destruct Hs as (_ & _ & Hn & _). unfold nonces in Hn. simpl in Hn.
  destruct (Z.eqb_spec (tx_Nonce tx) (i64 (nonce_at tm (tx_Sender tx) + 1))) as [He|He]; simpl.
  - eexists _, _. split; [done|]. rewrite decide_True by done.
    by rewrite SetNonce_state, Hn.
  - eexists _, _. split; [done|]. by rewrite decide_False.
Qed.

(** What [CreateTransaction] puts into the pool, without the signature. *)
Definition created (sender receiver : string) (amount fee : f64) (data : list byte) (n : Z)
    (tx : Transaction) : Prop :=
  tx_Sender tx = sender ∧ tx_Receiver tx = receiver ∧ tx_Amount tx = amount ∧
  tx_Fee tx = fee ∧ tx_Data tx = data ∧ tx_Nonce tx = n ∧ tx_Status tx = "pending"%string.

Lemma CreateTransaction_spec clk netLoad accs sender receiver amount fee data tm :
  is_i64 (nonce_at tm sender) → pool_wf (tm_pool tm) → 0 ≤ TotalTxs (poolMetrics (tm_pool tm)) < 9223372036854775807 →
  maxPoolSize (tm_pool tm) < 9223372036854775807 →
  ∃ tm' r, CreateTransaction VerifySignature wild_int fmt8 cryptoManager env_key open_
      SignDataWithDilithium (LE := LE) clk netLoad accs sender receiver amount fee data tm
    = Some (tm', r) ∧
    pool_wf (tm_pool tm') ∧ ledger tm' = ledger tm ∧
    maxPoolSize (tm_pool tm') = maxPoolSize (tm_pool tm) ∧
    match r with
    | Ok tx =>
        created sender receiver amount fee data (nonce_at tm sender + 1) tx ∧
        is_i64 (tx_Nonce tx) ∧
        lookup_tx (tm_pool tm) (tx_ID tx) = None ∧
        lookup_tx (tm_pool tm') (tx_ID tx) = Some tx ∧
        nonces tm' = <[sender := tx_Nonce tx]> (nonces tm) ∧
        CheckAccountBalance sender (f_add amount fee) accs = true ∧
        String.length (tx_ID tx) = 64%nat ∧
        ∀ id x, id ≠ tx_ID tx → lookup_tx (tm_pool tm') id = Some x → lookup_tx (tm_pool tm) id = Some x
    | Err _ => nonces tm' = nonces tm ∧
        ∀ id tx, lookup_tx (tm_pool tm') id = Some tx → lookup_tx (tm_pool tm) id = Some tx
    end.
Proof.
  intros Hi0 Hp Ht Hmax. unfold CreateTransaction.
  destruct (bool_decide _ || bool_decide _); [by eauto 10|].
  destruct (f_le _ _); [by eauto 10|]. destruct (f_lt _ _); [by eauto 10|].
  destruct (GetNonce_manager sender tm) as (t & -> & Hs0). cbn beta iota zeta.
  set (tx0 := build_tx _ _ _ _ _ _ _ _).
  destruct (ValidateTransaction_spec (clk 4%nat) accs tx0 (set_tracker t tm))
    as (tm1 & r1 & -> & Hs1 & Hok).
  pose proof (same_manager_trans _ _ _ Hs0 Hs1) as (Hpool & Hled & Hnon & Hmin).
  destruct r1 as [[]|e].
  2:{ eexists _, _. split; [done|]. cbn. rewrite Hpool, Hled. by eauto. }
  destruct (Hok eq_refl) as (Hlt & Hpos & _ & Hbal). clear Hok.
  rewrite (same_manager_nonce _ _ _ Hs0) in Hlt. cbn [tx0 build_tx tx_Sender tx_Nonce] in Hlt, Hpos.
  assert (i64 (nonce_at tm sender + 1) = nonce_at tm sender + 1) as Hi.
  { by apply i64_succ_above. }
  destruct (signTransaction _ _ _ _ _ _) as [tx|e] eqn:Hsign.
  2:{ eexists _, _. split; [done|]. cbn. rewrite Hpool, Hled. by eauto. }
  apply signTransaction_spec in Hsign as [s ->].
  rewrite <- Hpool in Hp, Ht, Hmax.
  destruct (AddTransaction_spec VerifySignature wild_int (clk 5%nat) netLoad accs
    (set_Signature s tx0) (tm_pool tm1) Hp Ht Hmax) as (p & r & Hadd & Hp' & Hr & Hold & _).
  pose proof (Add_max _ _ _ _ _ _ _ _ _ Hp Hadd) as Hpmax.
  rewrite Hadd. cbn [mbind option_bind]. rewrite Hpool in *.
  destruct r as [[]|e]; eexists _, _; (split; [done|]); cbn.
  - destruct Hr as (Hno & Hyes & _). split; [done|]. split; [congruence|]. split; [done|].
    split; [unfold created; cbn; rewrite Hi; by split_and!|].
    split; [apply i64_range|].
    split_and!; [done..| |done|apply length_hex_string|exact Hold].
    unfold nonces in *. cbn. rewrite SetNonce_state. by f_equal.
  - split_and!; try done; try congruence. intros id tx Hid.
    destruct (decide (id = tx_ID (set_Signature s tx0))) as [->|Hne]; [congruence|eauto].
Qed.

Lemma ledger_only l tm : nonces (set_ledger l tm) = nonces tm ∧
  tm_pool (set_ledger l tm) = tm_pool tm.
Proof. done. Qed.

(** The ledger operations of a settlement, in order. *)
Definition settled (tx : Transaction) (l l' : L) : Prop :=
  ∃ l1 l2, ledger_AddTransaction (set_Status "committed" tx) l = (l1, Ok ()) ∧
    ledger_UpdateAccountBalance (tx_Sender tx) (f_neg (f_add (tx_Amount tx) (tx_Fee tx))) l1
      = (l2, Ok ()) ∧
    ledger_UpdateAccountBalance (tx_Receiver tx) (tx_Amount tx) l2 = (l', Ok ()).

Lemma commit_tx_spec clk tx tm :
  ∃ tm' r, commit_tx (LE := LE) clk tx tm = (tm', r) ∧ nonces tm' = nonces tm ∧
    tm_pool tm' = tm_pool tm ∧
    match r with
    | Ok _ => settled tx (ledger tm) (ledger tm')
    | Err e => (∃ le, e = MErrLedgerCommit le) ∨ (∃ be, e = MErrBalance be)
    end.
Proof.
  unfold commit_tx, settled.
  destruct (ledger_AddTransaction _ _) as [l1 [[]|e1]]; [|by eauto 12].
  unfold updateBalances. cbn [set_Status tx_Sender tx_Receiver tx_Amount tx_Fee].
  destruct (ledger_UpdateAccountBalance (tx_Sender tx) _ l1) as [l2 [[]|e2]] eqn:H2;
    [|by eauto 12].
  destruct (ledger_UpdateAccountBalance (tx_Receiver tx) _ l2) as [l3 [[]|e3]] eqn:H3;
    [|by eauto 12].
  eexists _, _. split_and!; [done..|]. by exists l1, l2.
Qed.

(** The transaction the replay check lets through, if any. *)
Definition passes (txID : string) tm : option Transaction :=
  tx ← lookup_tx (tm_pool tm) txID;
  if decide (tx_Nonce tx = i64 (nonce_at tm (tx_Sender tx) + 1)) then Some tx else None.

Lemma passes_spec txID tm tx : passes txID tm = Some tx →
  lookup_tx (tm_pool tm) txID = Some tx ∧ tx_Nonce tx = i64 (nonce_at tm (tx_Sender tx) + 1).
Proof.
  unfold passes. destruct (lookup_tx _ _); [|done]. cbn [mbind option_bind].
  case_decide; [|done]. by intros [= <-].
Qed.

Lemma lookup_tx_id p id tx : pool_wf p → lookup_tx p id = Some tx → tx_ID tx = id.
Proof.
  intros Hp Hl. destruct (txMap p !! id) as [l|] eqn:Hid.
  - rewrite (lookup_tx_at _ _ _ Hid) in Hl. apply (pw_map p Hp) in Hid as (_ & tx' & Ht & <-).
    congruence.
  - unfold lookup_tx in Hl. by rewrite Hid in Hl.
Qed.

Lemma lookup_has p id tx : lookup_tx p id = Some tx → HasTransaction id p = true.
Proof.
  unfold lookup_tx, HasTransaction. intros Hl. apply bool_decide_eq_true.
  destruct (txMap p !! id); [by eexists|done].
Qed.

Lemma ProcessTransaction_spec clk txID tm : pool_wf (tm_pool tm) →
  ∃ tm' r, ProcessTransaction (LE := LE) clk txID tm = Some (tm', r) ∧
    pool_wf (tm_pool tm') ∧ maxPoolSize (tm_pool tm') = maxPoolSize (tm_pool tm) ∧
    match passes txID tm with
    | Some tx =>
        nonces tm' = <[tx_Sender tx := tx_Nonce tx]> (nonces tm) ∧
        (∀ id, lookup_tx (tm_pool tm') id =
           if decide (id = txID) then None else lookup_tx (tm_pool tm) id) ∧
        match r with
        | Ok _ => settled tx (ledger tm) (ledger tm')
        | Err e => (∃ le, e = MErrLedgerCommit le) ∨ (∃ be, e = MErrBalance be)
        end
    | None =>
        same_manager tm tm' ∧
        r = Err (match lookup_tx (tm_pool tm) txID with
                 | Some tx => MErrReplay (i64 (nonce_at tm (tx_Sender tx) + 1)) (tx_Nonce tx)
                 | None => MErrNotInPool ErrTxNotFound
                 end)
    end.
Proof.
  intros Hp. unfold ProcessTransaction, passes, GetTransaction.
  destruct (lookup_tx (tm_pool tm) txID) as [tx|] eqn:Hl; cbn [mbind option_bind];
    [|by eauto 10 using same_manager_refl].
  destruct (ReplayProtection_spec tx tm) as (t & r & -> & Hr).
  case_decide as Hn; destruct Hr as [-> Ht].
  - rewrite (lookup_tx_id _ _ _ Hp Hl).
    pose proof (RemoveTransaction_spec txID (tm_pool tm) Hp) as Hs.
    destruct (RemoveTransaction txID (tm_pool tm)) as [[p [[]|e]]|]; [| |done].
    2:{ destruct Hs as (_ & _ & Hh). by rewrite (lookup_has _ _ _ Hl) in Hh. }
    destruct Hs as (Hp' & Hrem & Hset). apply removed_other in Hrem as [Hgone Hkept].
    apply settings_max in Hset.
    cbn [mbind option_bind].
    destruct (commit_tx_spec clk tx (set_pool p (set_tracker t tm)))
      as (tm' & r & -> & Hnon & Hpool & Hres).
    exists tm', r. rewrite Hpool. split_and!; try done.
    + by rewrite Hnon.
    + intros id. cbn. destruct (decide (id = txID)) as [->|]; auto.
  - eexists _, _. by split_and!.
Qed.

Lemma nonce_at_insert tm tm' b n a : nonces tm' = <[b := n]> (nonces tm) →
  nonce_at tm' a = if decide (a = b) then n else nonce_at tm a.
Proof.
  unfold nonce_at. intros ->. case_decide as Ha; [subst; by rewrite lookup_insert_eq|].
  by rewrite lookup_insert_ne.
Qed.
End facts.

(** ** What is handed to the ledger *)

(** Any ledger, with a record of the calls of AddTransaction made to it. *)
Record recording (L : Type) := mkRecording { handed : list Transaction; inner : L }.
Arguments mkRecording {L} handed inner.
Arguments handed {L} r.
Arguments inner {L} r.

#[export] Instance recording_api {L LE} `{LedgerAPI L LE} : LedgerAPI (recording L) LE := {
  ledger_AddTransaction tx l :=
    let '(i, r) := ledger_AddTransaction tx (inner l) in (mkRecording (handed l ++ [tx]) i, r);
  ledger_UpdateAccountBalance id amount l :=
    let '(i, r) := ledger_UpdateAccountBalance id amount (inner l) in (mkRecording (handed l) i, r);
  ledger_IsTransactionCommitted id l := ledger_IsTransactionCommitted id (inner l) }.

(** ** Runs of the manager *)

Section runs.
Context {T L LE : Type} `{NonceTrackerLaws T, LedgerAPI L LE}.
Variable VerifySignature : list byte → list byte → list byte → option bool.
Variable wild_int : f64 → Z.
Variable fmt8 : f64 → string.
Variable cryptoManager : option (list byte → list byte → option (list byte)).
Variable env_key : string.
Variable open_ : list byte → list byte → list byte → option (list byte).
Variable SignDataWithDilithium : list byte → list byte → option (list byte).
Abbreviation Manager := (TransactionManager T (recording L)).
Implicit Types tm : Manager.

(** One call, made when the one before has returned.  [ms_pool] covers
    cleanup, conflict resolution and transactions that enter the pool from
    elsewhere. *)
Inductive manager_step : Manager → Manager → Prop :=
| ms_create clk netLoad accs sender receiver amount fee data tm tm' r :
    CreateTransaction VerifySignature wild_int fmt8 cryptoManager env_key open_
      SignDataWithDilithium (LE := LE) clk netLoad accs sender receiver amount fee data tm
      = Some (tm', r) →
    0 ≤ TotalTxs (poolMetrics (tm_pool tm)) < 9223372036854775807 →
    manager_step tm tm'
| ms_process clk txID tm tm' r :
    ProcessTransaction (LE := LE) clk txID tm = Some (tm', r) →
    (∀ a, nonce_at tm a < 9223372036854775807) →
    manager_step tm tm'
| ms_revalidate clk accs order removed tm tm' :
    revalidatePendingTransactions wild_int (LE := LE) clk accs order tm = Some (tm', removed) →
    manager_step tm tm'
| ms_pool tm p :
    pool_step VerifySignature wild_int (tm_pool tm) p → manager_step tm (set_pool p tm).

(** The ledger is called once for a transaction that passed the replay
    check, and not at all otherwise. *)
Lemma commit_handed clk tx tm :
  handed (ledger (commit_tx (LE := LE) clk tx tm).1)
    = handed (ledger tm) ++ [set_Status "committed" tx].
Proof.
  unfold commit_tx, updateBalances. cbn [ledger_AddTransaction recording_api].
  destruct (ledger_AddTransaction _ _) as [i1 [[]|e1]]; [|done].
  cbn [ledger_UpdateAccountBalance recording_api inner].
  destruct (ledger_UpdateAccountBalance _ _ i1) as [i2 [[]|e2]]; [|done]. cbn [inner].
  by destruct (ledger_UpdateAccountBalance _ _ i2) as [i3 [[]|e3]].
Qed.

Lemma Process_handed clk txID tm tm' r :
  ProcessTransaction (LE := LE) clk txID tm = Some (tm', r) →
  handed (ledger tm') = handed (ledger tm) ++ (set_Status "committed" <$> option_list (passes txID tm)).
Proof.
  unfold ProcessTransaction, passes, GetTransaction.
  destruct (lookup_tx (tm_pool tm) txID) as [tx|]; cbn [mbind option_bind];
    [|intros [= <- _]; by rewrite app_nil_r].
  destruct (ReplayProtection_spec tx tm) as (t & rr & -> & Hr).
  case_decide as Hn; destruct Hr as [-> _].
  - destruct (RemoveTransaction _ _) as [[p x]|]; [|done]. cbn [mbind option_bind]. intros [= Hc].
    pose proof (commit_handed clk tx (set_pool p (set_tracker t tm))) as Hh. rewrite Hc in Hh. exact Hh.
  - intros [= <- _]. by rewrite app_nil_r.
Qed.

Definition manager_ok tm : Prop :=
  pool_wf (tm_pool tm) ∧ maxPoolSize (tm_pool tm) < 9223372036854775807 ∧
  (∀ a c, nonces tm !! a = Some c → 0 ≤ c < 9223372036854775808).

Lemma ok_nonce tm a : manager_ok tm → 0 ≤ nonce_at tm a < 9223372036854775808.
Proof.
  intros (_ & _ & Hn). unfold nonce_at. destruct (nonces tm !! a) eqn:Ha; simpl; [eauto|lia].
Qed.

Lemma ok_insert tm tm' b n : (∀ a c, nonces tm !! a = Some c → 0 ≤ c < 9223372036854775808) →
  nonces tm' = <[b := n]> (nonces tm) → 0 ≤ n < 9223372036854775808 →
  ∀ a c, nonces tm' !! a = Some c → 0 ≤ c < 9223372036854775808.
Proof.
  intros Hok -> Hn a c. rewrite lookup_insert_Some. intros [[_ <-]|[_ Ha]]; eauto.
Qed.

(** What one operation, or a run, does to the nonces of every account. *)
Definition advances tm (tr : list Transaction) tm' : Prop :=
  ∀ a, StronglySorted Z.lt (nonces_of a tr) ∧
    Forall (λ n, nonce_at tm a < n ≤ nonce_at tm' a) (nonces_of a tr) ∧
    nonce_at tm a ≤ nonce_at tm' a.

Lemma advances_same tm tm' : nonces tm' = nonces tm → advances tm [] tm'.
Proof. intros Hn a. unfold nonce_at. rewrite Hn. repeat constructor. lia. Qed.

Lemma advances_one tm b n tr tm' : nonces tm' = <[b := n]> (nonces tm) → nonce_at tm b < n →
  tr = [] ∨ (∃ tx, tr = [tx] ∧ tx_Sender tx = b ∧ tx_Nonce tx = n) → advances tm tr tm'.
Proof.
  intros Hn Hlt Htr a. rewrite (nonce_at_insert _ _ _ _ a Hn).
  destruct Htr as [->|(tx & -> & <- & <-)].
  - repeat constructor. case_decide; subst; lia.
  - rewrite nonces_of_one. destruct (decide (tx_Sender tx = a)) as [<-|Hne].
    + rewrite decide_True by done. repeat constructor; lia.
    + rewrite decide_False by done. repeat constructor; lia.
Qed.

Lemma StronglySorted_app_lt l k m : StronglySorted Z.lt l → StronglySorted Z.lt k →
  Forall (λ n, n ≤ m) l → Forall (λ n, m < n) k → StronglySorted Z.lt (l ++ k).
Proof.
  intros Hl Hk Hlm Hkm. induction Hl as [|x l Hl IH Hx]; [done|]. simpl.
  apply Forall_cons in Hlm as [Hxm Hlm]. constructor; [auto|].
  apply Forall_app. split; [done|]. eapply Forall_impl; [done|]. simpl. lia.
Qed.

Lemma advances_trans tm1 tm2 tm3 tr tr' :
  advances tm1 tr tm2 → advances tm2 tr' tm3 → advances tm1 (tr ++ tr') tm3.
Proof.
  intros H12 H23 a. destruct (H12 a) as (Hs1 & Hf1 & Hle1), (H23 a) as (Hs2 & Hf2 & Hle2).
  rewrite nonces_of_app. split_and!; [| |lia].
  - apply (StronglySorted_app_lt _ _ (nonce_at tm2 a)); try done;
      (eapply Forall_impl; [done|simpl; lia]).
  - apply Forall_app. split; (eapply Forall_impl; [done|simpl; lia]).
Qed.

Lemma revalidate_spec clk accs items : ∀ k removed tm tm' n,
  revalidate wild_int (LE := LE) clk k accs items removed tm = Some (tm', n) → pool_wf (tm_pool tm) →
  pool_wf (tm_pool tm') ∧ maxPoolSize (tm_pool tm') = maxPoolSize (tm_pool tm) ∧
  nonces tm' = nonces tm ∧ ledger tm' = ledger tm.
Proof.
  induction items as [|it items IH]; intros k removed tm tm' n; cbn [revalidate].
  { by intros [= <- <-]. }
  case_match; [by apply IH|].
  destruct (ValidateTransaction_spec (LE := LE) wild_int (clk (S k)) accs (it_tx it) tm)
    as (tm1 & r & -> & (Hp1 & Hl1 & Hn1 & _) & _).
  destruct r; [intros Hr Hw; rewrite <- Hp1, <- Hn1, <- Hl1 in *; by eapply IH|].
  intros Hr Hw. rewrite <- Hp1 in Hw.
  pose proof (RemoveTransaction_spec (tx_ID (it_tx it)) (tm_pool tm1) Hw) as Hs.
  destruct (RemoveTransaction _ _) as [[p r]|]; [|done]. cbn [mbind option_bind] in Hr.
  assert (pool_wf p ∧ maxPoolSize p = maxPoolSize (tm_pool tm1)) as [Hwp Hmp].
  { destruct r; destruct Hs as (? & ? & Hset); [|by simplify_eq].
    split; [done|by apply settings_max]. }
  apply IH in Hr as (Hw' & Hm' & Hn' & Hl'); [|done]. rewrite <- Hp1, <- Hn1, <- Hl1. cbn in *.
  split_and!; try done. congruence.
Qed.

Lemma manager_step_inv tm tm' : manager_ok tm → manager_step tm tm' →
  manager_ok tm' ∧ ∃ tr, handed (ledger tm') = handed (ledger tm) ++ tr ∧ advances tm tr tm'.
Proof.
  intros Hok. pose proof Hok as (Hp & Hmax & Hn).
  assert (∀ tm', ledger tm' = ledger tm → advances tm [] tm' →
    ∃ tr, handed (ledger tm') = handed (ledger tm) ++ tr ∧ advances tm tr tm') as Hnone.
  { intros m Hl Ha. exists []. by rewrite Hl, app_nil_r. }
  destruct 1 as [clk nl accs snd rcv am fee data tm tm' r Hc Ht|clk txID tm tm' r Hr Hlim
    |clk accs order n tm tm' Hr|tm p Hs].
  - destruct (CreateTransaction_spec (LE := LE) VerifySignature wild_int fmt8 cryptoManager
      env_key open_ SignDataWithDilithium clk nl accs snd rcv am fee data tm)
      as (tm1 & r1 & Hc1 & Hp1 & Hl1 & Hm1 & Hres); try done.
    { pose proof (ok_nonce tm snd Hok). unfold is_i64. lia. }
    rewrite Hc in Hc1. injection Hc1 as <- <-. destruct r as [tx|e].
    + destruct Hres as ((Hsnd & _ & _ & _ & _ & Hnonce & _) & Hi & _ & _ & Hnon & _).
      pose proof (ok_nonce tm snd Hok).
      split; [split_and!|apply Hnone; [done|eapply advances_one]]; [done|congruence| |done|lia|by left].
      eapply ok_insert; [done..|]. unfold is_i64 in Hi. lia.
    + destruct Hres as [Hnon _].
      split; [split_and!|apply Hnone; [done|by apply advances_same]]; [done|congruence|]. by rewrite Hnon.
  - pose proof (Process_handed clk txID tm tm' r Hr) as Hh.
    destruct (ProcessTransaction_spec (LE := LE) clk txID tm Hp) as (tm1 & r1 & Hr1 & Hp1 & Hm1 & Hres).
    rewrite Hr in Hr1. injection Hr1 as <- <-.
    destruct (passes txID tm) as [tx|] eqn:Hpass; simpl.
    + destruct Hres as (Hnon & _). apply passes_spec in Hpass as [_ Hnonce].
      pose proof (ok_nonce tm (tx_Sender tx) Hok). specialize (Hlim (tx_Sender tx)).
      rewrite i64_small in Hnonce by (unfold is_i64; lia).
      split; [split_and!|exists [set_Status "committed" tx]; split; [exact Hh|eapply advances_one]];
        [done|congruence| |done|cbn; lia|right; by exists (set_Status "committed" tx)].
      eapply ok_insert; [done..|lia].
    + destruct Hres as [(_ & Hl & Hnon & _) _].
      split; [split_and!|apply Hnone; [done|by apply advances_same]]; [done|congruence|]. by rewrite Hnon.
  - apply revalidate_spec in Hr as (Hp' & Hm' & Hnon & Hl); [|done].
    split; [split_and!|apply Hnone; [done|by apply advances_same]]; [done|congruence|]. by rewrite Hnon.
  - destruct (pool_step_inv VerifySignature wild_int (tm_pool tm) p Hp Hmax Hs) as [Hp' Hm'].
    split; [split_and!|apply Hnone; [done|by apply advances_same]]; [done|cbn; congruence|done].
Qed.

Lemma run_inv tm tm' : manager_ok tm → star manager_step tm tm' →
  manager_ok tm' ∧ ∃ tr, handed (ledger tm') = handed (ledger tm) ++ tr ∧ advances tm tr tm'.
Proof.
  intros Hok. induction 1 as [tm|tm1 tm2 tm3 _ IH Hs].
  - split; [done|]. exists []. rewrite app_nil_r. split; [done|by apply advances_same].
  - destruct (IH Hok) as (Hok2 & tr & Ht & Ha).
    destruct (manager_step_inv _ _ Hok2 Hs) as (Hok3 & tr' & Ht' & Ha').
    split; [done|]. exists (tr ++ tr'). rewrite Ht', Ht, <- app_assoc.
    split; [done|by eapply advances_trans].
Qed.
End runs.

(** * Properties *)

Section properties.
Context {T L LE : Type} `{NonceTrackerLaws T, LedgerAPI L LE}.
Variable VerifySignature : list byte → list byte → list byte → option bool.
Variable wild_int : f64 → Z.
Variable fmt8 : f64 → string.
Variable cryptoManager : option (list byte → list byte → option (list byte)).
Variable env_key : string.
Variable open_ : list byte → list byte → list byte → option (list byte).
Variable SignDataWithDilithium : list byte → list byte → option (list byte).
Implicit Types tm : TransactionManager T L.

(** C15: creating a transaction.  On a well-formed pool, for any lawful
    tracker and any ledger, [CreateTransaction] never panics, keeps the pool
    well formed and does not touch the ledger.  On success the transaction
    carries the next nonce of its sender, is covered by the balance, was not
    in the pool and is there now, and the tracker has moved to its nonce; on
    failure no nonce is consumed and no transaction was added. *)
Theorem CreateTransaction_correct clk netLoad accs sender receiver amount fee data tm :
  is_i64 (nonce_at tm sender) → pool_wf (tm_pool tm) →
  0 ≤ TotalTxs (poolMetrics (tm_pool tm)) < 9223372036854775807 →
  maxPoolSize (tm_pool tm) < 9223372036854775807 →
  ∃ tm' r, CreateTransaction VerifySignature wild_int fmt8 cryptoManager env_key open_
      SignDataWithDilithium (LE := LE) clk netLoad accs sender receiver amount fee data tm
    = Some (tm', r) ∧ pool_wf (tm_pool tm') ∧ ledger tm' = ledger tm ∧
    match r with
    | Ok tx =>
        created sender receiver amount fee data (nonce_at tm sender + 1) tx ∧
        lookup_tx (tm_pool tm) (tx_ID tx) = None ∧
        lookup_tx (tm_pool tm') (tx_ID tx) = Some tx ∧
        nonces tm' = <[sender := tx_Nonce tx]> (nonces tm) ∧
        CheckAccountBalance sender (f_add amount fee) accs = true
    | Err _ => nonces tm' = nonces tm ∧
        ∀ id tx, lookup_tx (tm_pool tm') id = Some tx → lookup_tx (tm_pool tm) id = Some tx
    end.
Proof.
  intros Hi Hp Ht Hmax.
  destruct (CreateTransaction_spec (LE := LE) VerifySignature wild_int fmt8 cryptoManager env_key
    open_ SignDataWithDilithium clk netLoad accs sender receiver amount fee data tm Hi Hp Ht Hmax)
    as (tm' & r & Hc & Hp' & Hl & _ & Hr).
  exists tm', r. split_and!; try done. destruct r; naive_solver.
Qed.

(** a transaction the manager created cannot be processed by it.
    [CreateTransaction] already advances the tracker to the new nonce, so the
    replay check of [ProcessTransaction], which wants the tracker's successor,
    refuses it: pool, ledger and nonces stay as they are. *)
Theorem created_never_processed clk netLoad accs sender receiver amount fee data tm tm' tx clk' :
  is_i64 (nonce_at tm sender) → pool_wf (tm_pool tm) →
  0 ≤ TotalTxs (poolMetrics (tm_pool tm)) < 9223372036854775807 →
  maxPoolSize (tm_pool tm) < 9223372036854775807 →
  CreateTransaction VerifySignature wild_int fmt8 cryptoManager env_key open_
    SignDataWithDilithium (LE := LE) clk netLoad accs sender receiver amount fee data tm
    = Some (tm', Ok tx) →
  ∃ tm'', ProcessTransaction (LE := LE) clk' (tx_ID tx) tm'
    = Some (tm'', Err (MErrReplay (i64 (tx_Nonce tx + 1)) (tx_Nonce tx))) ∧
    same_manager tm' tm''.
Proof.
  intros Hi Hp Ht Hmax Hc.
  destruct (CreateTransaction_spec (LE := LE) VerifySignature wild_int fmt8 cryptoManager env_key
    open_ SignDataWithDilithium clk netLoad accs sender receiver amount fee data tm Hi Hp Ht Hmax)
    as (tm1 & r1 & Hc1 & Hp' & _ & _ & Hr).
  rewrite Hc in Hc1. injection Hc1 as <- <-.
  destruct Hr as ((Hs & _ & _ & _ & _ & Hn & _) & Hin & _ & Hl & Hnon & _).
  assert (nonce_at tm' (tx_Sender tx) = tx_Nonce tx) as Hat.
  { rewrite (nonce_at_insert _ _ _ _ _ Hnon), Hs. by rewrite decide_True. }
  assert (passes (tx_ID tx) tm' = None) as Hno.
  { unfold passes. rewrite Hl. cbn [mbind option_bind]. rewrite Hat, decide_False; [done|].
    pose proof (i64_range (tx_Nonce tx + 1)) as Hr. intros He.
    destruct (succ_in_i64 _ Hin) as [Hs1|Hm]; [rewrite i64_small in He by done; lia|].
    rewrite Hm in He. by vm_compute in He. }
  destruct (ProcessTransaction_spec (LE := LE) clk' (tx_ID tx) tm' Hp')
    as (tm'' & r & Hpr & _ & _ & Hres).
  rewrite Hno, Hl, Hat in Hres. destruct Hres as [Hsame ->]. by exists tm''.
Qed.

(** C8: processing a finalized transaction, every outcome.  It never
    panics.  If the transaction is pooled with exactly the next nonce, the
    nonce is consumed and the transaction, and no other, leaves the pool
    before the ledger is called; success means the three ledger operations
    succeeded in order with the amount and fee debited from the sender and
    the amount credited to the receiver, failure that one of them failed.
    Either way a second call reports it missing.  In every other case
    nothing changes. *)
Theorem ProcessTransaction_correct clk clk' txID tm : pool_wf (tm_pool tm) →
  ∃ tm' r, ProcessTransaction (LE := LE) clk txID tm = Some (tm', r) ∧
    pool_wf (tm_pool tm') ∧
    match passes txID tm with
    | Some tx =>
        nonces tm' = <[tx_Sender tx := tx_Nonce tx]> (nonces tm) ∧
        (∀ id, lookup_tx (tm_pool tm') id =
           if decide (id = txID) then None else lookup_tx (tm_pool tm) id) ∧
        match r with
        | Ok _ => settled tx (ledger tm) (ledger tm')
        | Err e => (∃ le, e = MErrLedgerCommit le) ∨ (∃ be, e = MErrBalance be)
        end ∧
        ProcessTransaction (LE := LE) clk' txID tm'
          = Some (tm', Err (MErrNotInPool ErrTxNotFound))
    | None =>
        same_manager tm tm' ∧
        r = Err (match lookup_tx (tm_pool tm) txID with
                 | Some tx => MErrReplay (i64 (nonce_at tm (tx_Sender tx) + 1)) (tx_Nonce tx)
                 | None => MErrNotInPool ErrTxNotFound
                 end)
    end.
Proof.
  intros Hp. destruct (ProcessTransaction_spec (LE := LE) clk txID tm Hp)
    as (tm' & r & Hr & Hp' & _ & Hres).
  exists tm', r. split_and!; [done..|]. destruct (passes txID tm) as [tx|]; [|done].
  destruct Hres as (Hn & Hl & Hs). split_and!; try done.
  unfold ProcessTransaction, GetTransaction. by rewrite Hl, decide_True.
Qed.

(** C13: replay protection across the whole life of the manager.  In any
    sequence of creations, processings, revalidations and pool operations,
    each made when the one before has returned, on any ledger: the
    transactions the ledger is called with carry, for every sender, strictly
    increasing nonces above the initial one: none is committed twice.  (Two
    calls that overlap can commit one twice: [race_commits_twice].) *)
Theorem committed_nonces_increasing (tm tm' : TransactionManager T (recording L)) : manager_ok tm →
  star (manager_step (LE := LE) VerifySignature wild_int fmt8 cryptoManager env_key open_
    SignDataWithDilithium) tm tm' →
  manager_ok tm' ∧ ∃ tr, handed (ledger tm') = handed (ledger tm) ++ tr ∧
  ∀ a, StronglySorted Z.lt (nonces_of a tr) ∧
    Forall (λ n, nonce_at tm a < n ≤ nonce_at tm' a) (nonces_of a tr).
Proof.
  intros Hok Hrun. destruct (run_inv _ _ _ _ _ _ _ _ _ Hok Hrun) as (Hok' & tr & Ht & Ha).
  split; [done|]. exists tr. split; [done|]. intros a. destruct (Ha a) as (? & ? & _). done.
Qed.

(** The phases, one after the other, are the call. *)
Lemma phases_sequential clk txID tm tm1 tx : process_read txID tm = (tm1, Some tx) →
  ProcessTransaction (LE := LE) clk txID tm = process_rest clk tx (process_write tx tm1).
Proof.
  unfold process_read, ProcessTransaction, process_write, process_rest, ReplayProtectionMiddleware.
  destruct (GetTransaction _ _) as [tx0|e]; [|done].
  destruct (GetNonce _ _) as [t n]. destruct (Z.eqb_spec (tx_Nonce tx0) (i64 (n + 1))); [|done].
  intros [= <- <-]. done.
Qed.
End properties.

(** ** A concrete manager *)

(** A ledger in memory: committed transactions and balances. *)
Abbreviation mem_ledger := (list Transaction * accounts_map)%type.
#[export] Instance mem_ledger_api : LedgerAPI mem_ledger CommonError := {
  ledger_AddTransaction tx l := ((tx :: l.1, l.2), Ok ());
  ledger_UpdateAccountBalance id amount l :=
    let '(m, r) := UpdateAccountBalance id amount l.2 in ((l.1, m), r);
  ledger_IsTransactionCommitted id l := existsb (λ tx, bool_decide (tx_ID tx = id)) l.1 }.

Definition sample_accounts : accounts_map :=
  <["alice" := blank_account "alice" [x01] (f_of_Z 100) 0 0]>
  (<["bob" := blank_account "bob" [x02] (f_of_Z 0) 0 0]> ∅).
Definition fixed8 (x : f64) : string := "5.00000000".
Definition sample_signer : option (list byte → list byte → option (list byte)) :=
  Some (λ _ _, Some [x01]).
Definition no_open (_ _ _ : list byte) : option (list byte) := None.
Definition no_sign (_ _ : list byte) : option (list byte) := None.
Definition sample_clock (k : nat) : Z := 1000 * second + Z.of_nat k.

Definition manager0 : TransactionManager DefaultNonceTracker mem_ledger :=
  NewTransactionManager pool_empty f_zero true ([], sample_accounts).

Definition create0 : option (TransactionManager DefaultNonceTracker mem_ledger *
    result (ManagerError CommonError) Transaction) :=
  CreateTransaction sig_true wild0 fixed8 sample_signer "" no_open no_sign sample_clock 50
    sample_accounts "alice" "bob" (f_of_Z 5) (f_of_Z 1) [] manager0.
Definition manager1 : TransactionManager DefaultNonceTracker mem_ledger :=
  match create0 with Some (tm, _) => tm | None => manager0 end.
Definition tx1 : Transaction :=
  match create0 with Some (_, Ok tx) => tx | _ => pool_tx_sample "" 0 0 0 end.

Lemma create0_eq : create0 = Some (manager1, Ok tx1).
Proof.
  unfold manager1, tx1. destruct create0 as [[tm [tx|e]]|] eqn:Hc; [done|exfalso..];
    apply (f_equal (λ o, match o with Some (_, Ok _) => true | _ => false end)) in Hc;
    by vm_compute in Hc.
Qed.

Lemma pool_empty_wf : pool_wf pool_empty.
Proof. by destruct (pool_wf_new _ _ _ _ _ _ _ _ _ pool_empty_new). Qed.

Lemma CreateTransaction_correct_witness :
  ∃ tm' r, create0 = Some (tm', r) ∧ pool_wf (tm_pool tm') ∧ ledger tm' = ledger manager0 ∧
    match r with
    | Ok tx =>
        created "alice" "bob" (f_of_Z 5) (f_of_Z 1) [] (nonce_at manager0 "alice" + 1) tx ∧
        lookup_tx (tm_pool manager0) (tx_ID tx) = None ∧
        lookup_tx (tm_pool tm') (tx_ID tx) = Some tx ∧
        nonces tm' = <["alice" := tx_Nonce tx]> (nonces manager0) ∧
        CheckAccountBalance "alice" (f_add (f_of_Z 5) (f_of_Z 1)) sample_accounts = true
    | Err _ => nonces tm' = nonces manager0 ∧
        ∀ id tx, lookup_tx (tm_pool tm') id = Some tx →
          lookup_tx (tm_pool manager0) id = Some tx
    end.
Proof.
  apply (CreateTransaction_correct (LE := CommonError) sig_true wild0 fixed8 sample_signer ""
    no_open no_sign sample_clock 50 sample_accounts "alice" "bob" (f_of_Z 5) (f_of_Z 1) [] manager0);
    [by vm_compute|apply pool_empty_wf|by vm_compute|by vm_compute].
Defined.

Lemma created_never_processed_witness :
  ∃ tm'', ProcessTransaction (LE := CommonError) sample_clock (tx_ID tx1) manager1
    = Some (tm'', Err (MErrReplay (i64 (tx_Nonce tx1 + 1)) (tx_Nonce tx1))) ∧
    same_manager manager1 tm''.
Proof.
  apply (created_never_processed (LE := CommonError) sig_true wild0 fixed8 sample_signer ""
    no_open no_sign sample_clock 50 sample_accounts "alice" "bob" (f_of_Z 5) (f_of_Z 1) [] manager0);
    [by vm_compute|apply pool_empty_wf|by vm_compute|by vm_compute|apply create0_eq].
Defined.

(** A transaction received by the pool, not created by this manager. *)
Definition manager_ext : TransactionManager DefaultNonceTracker mem_ledger :=
  set_pool pool_sample manager0.

Lemma ProcessTransaction_correct_witness :
  passes "t1" manager_ext = Some (pool_tx_sample "t1" 1 1 900) ∧
  ∃ tm' r, ProcessTransaction (LE := CommonError) sample_clock "t1" manager_ext = Some (tm', r) ∧
    pool_wf (tm_pool tm') ∧
    match passes "t1" manager_ext with
    | Some tx =>
        nonces tm' = <[tx_Sender tx := tx_Nonce tx]> (nonces manager_ext) ∧
        (∀ id, lookup_tx (tm_pool tm') id =
           if decide (id = "t1"%string) then None else lookup_tx (tm_pool manager_ext) id) ∧
        match r with
        | Ok _ => settled (LE := CommonError) tx (ledger manager_ext) (ledger tm')
        | Err e => (∃ le, e = MErrLedgerCommit le) ∨ (∃ be, e = MErrBalance be)
        end ∧
        ProcessTransaction (LE := CommonError) sample_clock "t1" tm'
          = Some (tm', Err (MErrNotInPool ErrTxNotFound))
    | None =>
        same_manager manager_ext tm' ∧
        r = Err (match lookup_tx (tm_pool manager_ext) "t1" with
                 | Some tx => MErrReplay (i64 (nonce_at manager_ext (tx_Sender tx) + 1)) (tx_Nonce tx)
                 | None => MErrNotInPool ErrTxNotFound
                 end)
    end.
Proof.
  split; [by vm_compute|].
  apply (ProcessTransaction_correct (LE := CommonError) sample_clock sample_clock "t1" manager_ext).
  apply pool_sample_wf.
Defined.

Definition process_ext (id : string) (tm : TransactionManager DefaultNonceTracker mem_ledger) :
    TransactionManager DefaultNonceTracker mem_ledger :=
  match ProcessTransaction (LE := CommonError) sample_clock id tm with
  | Some (tm, _) => tm
  | None => tm
  end.

(** The first transaction settles; replaying it, or skipping a nonce, does
    nothing; the balances have moved. *)
Example settle_ext :
  let tm := process_ext "t3" (process_ext "t1" (process_ext "t1" manager_ext)) in
  (tx_ID <$> (ledger tm).1, acc_Balance <$> (ledger tm).2 !! "alice",
   acc_Balance <$> (ledger tm).2 !! "bob", nonce_at tm "alice")
  = (["t1"], Some (f_of_Z 94), Some (f_of_Z 5), 1).
Proof. by vm_compute. Qed.

(** The same over a recording ledger, and two settlements. *)
Definition manager_rec : TransactionManager DefaultNonceTracker (recording mem_ledger) :=
  set_pool pool_sample
    (NewTransactionManager pool_empty f_zero true (mkRecording [] ([], sample_accounts))).

Definition process_rec (id : string) (tm : TransactionManager DefaultNonceTracker (recording mem_ledger)) :
    TransactionManager DefaultNonceTracker (recording mem_ledger) :=
  match ProcessTransaction (LE := CommonError) sample_clock id tm with
  | Some (tm, _) => tm
  | None => tm
  end.
Definition manager_two : TransactionManager DefaultNonceTracker (recording mem_ledger) :=
  process_rec "t2" (process_rec "t1" manager_rec).

Lemma manager_rec_nonces : nonces manager_rec = ∅.
Proof. by vm_compute. Qed.

Lemma process_rec_nonces : nonces (process_rec "t1" manager_rec) = <["alice" := 1]> ∅.
Proof. by vm_compute. Qed.

Lemma process_rec_step id tm :
  bool_decide (is_Some (ProcessTransaction (LE := CommonError) sample_clock id tm)) = true →
  (∀ a, nonce_at tm a < 9223372036854775807) →
  manager_step (LE := CommonError) sig_true wild0 fixed8 sample_signer "" no_open no_sign
    tm (process_rec id tm).
Proof.
  intros [[tm' r] Hr]%bool_decide_eq_true Hlim. unfold process_rec. rewrite Hr. by eapply ms_process.
Qed.

Lemma committed_nonces_increasing_witness :
  tx_ID <$> handed (ledger manager_two) = ["t1"; "t2"] ∧
  manager_ok manager_two ∧ ∃ tr, handed (ledger manager_two) = handed (ledger manager_rec) ++ tr ∧
  ∀ a, StronglySorted Z.lt (nonces_of a tr) ∧
    Forall (λ n, nonce_at manager_rec a < n ≤ nonce_at manager_two a) (nonces_of a tr).
Proof.
  split; [by vm_compute|].
  apply (committed_nonces_increasing (LE := CommonError) sig_true wild0 fixed8 sample_signer ""
    no_open no_sign manager_rec manager_two).
  - split_and!; [apply pool_sample_wf|by vm_compute|].
    intros a c. rewrite manager_rec_nonces, lookup_empty. done.
  - apply (star_snoc _ _ (process_rec "t1" manager_rec));
      [apply (star_snoc _ _ manager_rec); [apply star_refl|]|];
      (apply process_rec_step; [by vm_compute|]).
    + intros a. unfold nonce_at. rewrite manager_rec_nonces, lookup_empty. done.
    + intros a. unfold nonce_at. rewrite process_rec_nonces.
      destruct (decide (a = "alice"%string)) as [->|Ha];
        [by rewrite lookup_insert_eq|by rewrite lookup_insert_ne, lookup_empty].
Defined.

(** The nonce is read and written in two calls of the tracker: two calls of
    ProcessTransaction for one transaction that both read before either
    writes commit it twice, and the sender pays twice. *)
Definition race : option (TransactionManager DefaultNonceTracker (recording mem_ledger)) :=
  let '(tm, o1) := process_read "t1" manager_rec in
  let '(tm, o2) := process_read "t1" tm in
  tx1 ← o1; tx2 ← o2;
  let tm := process_write tx2 (process_write tx1 tm) in
  '(tm, _) ← process_rest (LE := CommonError) sample_clock tx1 tm;
  '(tm, _) ← process_rest (LE := CommonError) sample_clock tx2 tm; Some tm.

Example race_commits_twice :
  (λ tm, (tx_ID <$> handed (ledger tm), acc_Balance <$> (inner (ledger tm)).2 !! "alice")) <$> race
  = Some (["t1"; "t1"], Some (f_of_Z 88)).
Proof. by vm_compute. Qed.

(** [Stop] closes the channel that [Start] does not reopen: stopping a
    restarted manager panics. *)
Example restart_stop_panics {T L} (tm : TransactionManager T L) :
  isRunning tm = false → stopClosed tm = false →
  ∃ tm1 tm2 tm3, Start (LE := CommonError) tm = (tm1, Ok ()) ∧
    Stop (LE := CommonError) tm1 = Some (tm2, Ok ()) ∧
    Start (LE := CommonError) tm2 = (tm3, Ok ()) ∧ Stop (LE := CommonError) tm3 = None.
Proof.
  intros Hr Hc. unfold Start, Stop. rewrite Hr. eexists _, _, _.
  cbn. rewrite Hc. split_and!; reflexivity.
Qed.
