(* ===== verification/Wallet.v ===== *)
(** * Wallets: src/wallet

    wallet.go with the two mocks.  A wallet holds its keys and a crypto
    manager of Crypto.v, registers its account in the store of Accounts.v,
    and submits through the transaction manager of TxManager.v.  JSON is a
    pair of functions; the file system maps paths to contents.  The manager
    calls the package's signature functions too: what they answer does not
    depend on their statistics, which are left out there. *)
From Stdlib Require Import ZArith Lia SpecFloat.
From Stdlib Require Import Strings.Byte Strings.String.
From stdpp Require Import numbers prelude gmap strings pretty.
From S2P Require Import Prelude GoFloat Maps Bytes Sha256 Common Accounts Crypto.
From S2P Require Import TxQueue TxPool TxUtils TxManager.
Open Scope Z_scope.

(** ** Data *)

Record Wallet := mkWallet {
  w_ID : string;
  w_Nonce : Z;
  w_KEM : KyberKeyPair;
  w_Sig : DilithiumKeyPair;
  w_CM : CryptoManager }.

Record WalletFile := mkWalletFile {
  wf_ID : string;
  wf_Nonce : Z;
  wf_KEM : option KyberKeyPairSerialized;
  wf_Sig : option DilithiumKeyPairSerialized }.

Inductive WalletError :=
| WErrCrypto (s : string) (e : CryptoError)
| WErrCommon (s : string) (e : CommonError)
| WErrText (s : string).

Inductive SubmitError (LE : Type) :=
| SubmitCreate (e : WalletError)
| SubmitManager (e : ManagerError LE).
Arguments SubmitCreate {LE} e.
Arguments SubmitManager {LE} e.

Definition bump_nonce (w : Wallet) : Wallet :=
  mkWallet (w_ID w) (i64 (w_Nonce w + 1)) (w_KEM w) (w_Sig w) (w_CM w).

(** ** Operations *)

Section wallet.
Variable lib : Circl.
Variable seal : list byte → list byte → list byte → list byte.
Variable open_ : list byte → list byte → list byte → option (list byte).
Variable fmt8 : f64 → string.
Variable wild_int : f64 → Z.
Variable marshal : WalletFile → list byte.
Variable unmarshal : list byte → option WalletFile.
(** [os.Getenv("DIAMANTE_WALLET_ENCRYPTION_KEY")]. *)
Variable env_key : string.

(** The random bytes of the two key pairs, the time of each, and the clock. *)
Record wallet_env := mkWalletEnv {
  we_kem : list byte; we_sig : list byte; we_dur : nat → Z; we_now : nat → Z }.

(** [None] is a panic of the constructor of the manager. *)
Definition NewWallet (env : wallet_env) (ds : dilithiumStats) :
    option (dilithiumStats * result WalletError Wallet) :=
  r ← NewCryptoManager lib KyberLevel1024 DilithiumLevel3 (we_now env 0%nat);
  Some match r with
  | Err e => (ds, Err (WErrCrypto "failed to create crypto manager" e))
  | Ok cm =>
      match GenerateKEMKeyPair (we_kem env) (we_dur env 0%nat) (mkCS cm ds) with
      | (s, Err e) => (cs_dil s, Err (WErrCrypto "failed to generate Kyber key pair" e))
      | (s, Ok kem) =>
          match GenerateSignatureKeyPair lib (we_sig env) (we_dur env 1%nat) (we_now env 1%nat) s with
          | (s, Err e) => (cs_dil s, Err (WErrCrypto "failed to generate Dilithium key pair" e))
          | (s, Ok sig) =>
              (cs_dil s, Ok (mkWallet (GenerateUniqueID (we_now env 2%nat)) 0 kem sig (cs_cm s)))
          end
      end
  end.

Definition RegisterAccount (nonce : option (list byte)) (w : Wallet) (accs : accounts_map) :
    accounts_map * result WalletError () :=
  if bool_decide (env_key = EmptyString)
  then (accs, Err (WErrText "DIAMANTE_WALLET_ENCRYPTION_KEY environment variable not set"))
  else match hex_decode (list_byte_of_string env_key) with
       | None => (accs, Err (WErrText "failed to decode DIAMANTE_WALLET_ENCRYPTION_KEY"))
       | Some keyBytes =>
           if negb (length keyBytes =? 32)%nat
           then (accs, Err (WErrText "DIAMANTE_WALLET_ENCRYPTION_KEY must be 64 hex characters"))
           else
             let account := blank_account (w_ID w) (dk_PublicKey (w_Sig w)) f_zero 0 0 in
             match SetPrivateKey seal nonce (dk_PrivateKey (w_Sig w)) env_key account with
             | (_, Err e) => (accs, Err (WErrCommon "failed to encrypt private key" e))
             | (account, Ok _) =>
                 match Accounts.RegisterAccount (Some account) accs with
                 | (accs, Err e) => (accs, Err (WErrCommon "failed to register account" e))
                 | (accs, Ok _) => (accs, Ok ())
                 end
             end
       end.

Definition GetBalance (w : Wallet) (accs : accounts_map) : result WalletError f64 :=
  match GetAccount (w_ID w) accs with
  | None => Err (WErrText "account not found")
  | Some account => Ok (acc_Balance account)
  end.

Definition FundWallet (amount : f64) (w : Wallet) (accs : accounts_map) :
    accounts_map * result CommonError () := UpdateAccountBalance (w_ID w) amount accs.

(** The nonce is taken before the signature can fail. *)
Definition CreateTransaction (env : wallet_env) (receiver : string) (amount fee : f64)
    (data : list byte) (w : Wallet) (ds : dilithiumStats) :
    Wallet * dilithiumStats * result WalletError Transaction :=
  let txID := GenerateUniqueID (we_now env 0%nat) in
  let w := bump_nonce w in
  let tx := mkTx txID (w_ID w) receiver amount (unix (we_now env 1%nat)) [] 0 fee 0 "" data
              (w_Nonce w) "" 0 "" in
  match SignDataWithDilithium lib (we_dur env 0%nat) (we_now env 2%nat)
          (dk_PrivateKey (w_Sig w)) (list_byte_of_string (tx_ID tx)) ds with
  | (ds, Err e) => (w, ds, Err (WErrCrypto "failed to sign transaction" e))
  | (ds, Ok sig) => (w, ds, Ok (set_Signature sig tx))
  end.

(** The signature functions as the transaction package calls them. *)
Definition no_stats : dilithiumStats := mkDilStats no_stat no_stat no_stat 0.
Definition pure_sign (priv data : list byte) : option (list byte) :=
  match (SignDataWithDilithium lib 0 0 priv data no_stats).2 with Ok s => Some s | Err _ => None end.
Definition pure_verify (pub data sig : list byte) : option bool :=
  match (VerifySignature lib 0 0 pub data sig no_stats).2 with Ok b => Some b | Err _ => None end.
(** [signTransaction] gives its crypto manager a key pair that has only the
    public key. *)
Definition pure_manager (cm : CryptoManager) (pub data : list byte) : option (list byte) :=
  match (SignWithContext lib false 0 0 0 (Some (mkDilKeys pub [] 0)) data (mkCS cm no_stats)).2 with
  | Ok s => Some s | Err _ => None end.

Section submit.
Context {T L LE : Type} `{NonceTracker T, LedgerAPI L LE}.

Definition SubmitTransaction (env : wallet_env) (clk : nat → Z) (netLoad : Z)
    (cm : option CryptoManager) (receiver : string) (amount fee : f64) (data : list byte)
    (w : Wallet) (ds : dilithiumStats) (accs : accounts_map) (tm : TransactionManager T L) :
    option (Wallet * dilithiumStats * TransactionManager T L *
            result (SubmitError LE) Transaction) :=
  match CreateTransaction env receiver amount fee data w ds with
  | (w, ds, Err e) => Some (w, ds, tm, Err (SubmitCreate e))
  | (w, ds, Ok tx) =>
      '(tm, r) ← TxManager.CreateTransaction pure_verify wild_int fmt8 (pure_manager <$> cm) env_key
                   open_ pure_sign (LE := LE) clk netLoad accs (tx_Sender tx) (tx_Receiver tx)
                   (tx_Amount tx) (tx_Fee tx) (tx_Data tx) tm;
      Some (w, ds, tm, match r with Err e => Err (SubmitManager e) | Ok _ => Ok tx end)
  end.
End submit.

(** The mock of the wallet's tests does not submit. *)
Definition SubmitTransactionWithMock := CreateTransaction.
Definition mock_CreateTransaction (now : Z) (sender receiver : string) (amount fee : f64)
    (data : list byte) : Transaction :=
  mkTx (GenerateUniqueID now) sender receiver amount 0 [] 0 fee 0 "" data 1 "" 0 "pending".

Definition SignMessage (d now : Z) (message : string) (w : Wallet) :
    M dilithiumStats CryptoError (list byte) :=
  SignDataWithDilithium lib d now (dk_PrivateKey (w_Sig w)) (list_byte_of_string message).
Definition w_VerifySignature (d now : Z) (message : string) (signature : list byte) (w : Wallet) :
    M dilithiumStats CryptoError bool :=
  VerifySignature lib d now (dk_PublicKey (w_Sig w)) (list_byte_of_string message) signature.
Definition GetPublicKeyHex (w : Wallet) : string := hex_string (dk_PublicKey (w_Sig w)).

(** [writes]: the file can be written. *)
Definition Export (writes : bool) (path : string) (w : Wallet) (fs : gmap string (list byte)) :
    gmap string (list byte) * result WalletError () :=
  match SerializeKyberKeyPair (Some (w_KEM w)) with
  | Err e => (fs, Err (WErrCrypto "failed to serialize Kyber key pair" e))
  | Ok kem =>
      match SerializeDilithiumKeyPair (Some (w_Sig w)) with
      | Err e => (fs, Err (WErrCrypto "failed to serialize Dilithium key pair" e))
      | Ok sig =>
          let wf := mkWalletFile (w_ID w) (w_Nonce w) (Some kem) (Some sig) in
          if writes then (<[path := marshal wf]> fs, Ok ())
          else (fs, Err (WErrText "failed to write wallet file"))
      end
  end.

Definition ImportWallet (now : Z) (path : string) (fs : gmap string (list byte)) :
    option (result WalletError Wallet) :=
  match fs !! path with
  | None => Some (Err (WErrText "failed to read wallet file"))
  | Some data =>
      match unmarshal data with
      | None => Some (Err (WErrText "failed to unmarshal wallet JSON"))
      | Some wf =>
          r ← NewCryptoManager lib KyberLevel1024 DilithiumLevel3 now;
          Some match r with
          | Err e => Err (WErrCrypto "failed to re-create crypto manager" e)
          | Ok cm =>
              match DeserializeKyberKeyPair (wf_KEM wf) with
              | Err e => Err (WErrCrypto "failed to deserialize Kyber key pair" e)
              | Ok kem =>
                  match DeserializeDilithiumKeyPair (wf_Sig wf) with
                  | Err e => Err (WErrCrypto "failed to deserialize Dilithium key pair" e)
                  | Ok sig => Ok (mkWallet (wf_ID wf) (wf_Nonce wf) kem sig cm)
                  end
              end
          end
      end
  end.
End wallet.

(** * Facts *)

Section facts.
Variable lib : Circl.
Context `{CirclLaws lib}.
Variable seal : list byte → list byte → list byte → list byte.
Variable open_ : list byte → list byte → list byte → option (list byte).
Variable fmt8 : f64 → string.
Variable wild_int : f64 → Z.
Variable env_key : string.

Lemma level3 : getDilithiumScheme lib defaultDilithiumLevel = Some (mode3 lib).
Proof. done. Qed.

(** What level 3 keys sign is verified, whatever was counted meanwhile. *)
Lemma sign_verify dk m : sign_pair lib 3 dk → m ≠ [] → ∃ sig, sig ≠ [] ∧
  (∀ d now ds, SignDataWithDilithium lib d now (dk_PrivateKey dk) m ds = (dil_sign d now ds, Ok sig)) ∧
  (∀ d now ds, VerifySignature lib d now (dk_PublicKey dk) m sig ds = (dil_verify d now ds, Ok true)).
Proof.
  intros (sch & rnd & pk & sk & Hsch & Hg & Hup & Hus & Hpub & Hpriv) Hm.
  injection Hsch as <-.
  destruct (sl_correct rnd pk sk m Hg) as [Hne Hver].
  exists (sig_Sign (mode3 lib) sk m). split; [done|].
  unfold SignDataWithDilithium, SignDilithium, VerifySignature, VerifyDilithium.
  split; intros d now ds; run; rewrite level3.
  - rewrite (proj2 (isEmpty_false _) Hpriv), (proj2 (isEmpty_false _) Hm). cbn. by rewrite Hus.
  - rewrite (proj2 (isEmpty_false _) Hpub), (proj2 (isEmpty_false _) Hm), (proj2 (isEmpty_false _) Hne).
    cbn. rewrite Hup. cbn. by rewrite Hver.
Qed.

(** A key pair without a private part never signs: the crypto manager of the
    transaction manager is no use. *)
Lemma manager_never_signs cm pub m : pure_manager lib cm pub m = None.
Proof. unfold pure_manager, SignWithContext. run. cbn. by destruct (isEmpty m). Qed.

(** A wallet with keys as [NewWallet] makes them. *)
Record fresh (w : Wallet) : Prop := {
  fr_kem : kem_pair lib KyberLevel1024 (w_KEM w);
  fr_sig : sign_pair lib DilithiumLevel3 (w_Sig w);
  fr_level : dk_Level (w_Sig w) = DilithiumLevel3 }.

Lemma NewWallet_fresh env ds ds' w : NewWallet lib env ds = Some (ds', Ok w) → fresh w.
Proof.
  unfold NewWallet. destruct (NewCryptoManager _ _ _ _) as [[cm|e]|] eqn:Hcm; [|done..].
  pose proof (new_levels lib _ _ _ _ ds Hcm) as Hl. cbn [mbind option_bind].
  destruct (GenerateKEMKeyPair _ _ _) as [s1 [kem|e]] eqn:Hk; [|done].
  destruct (GenerateKEM_pair lib _ _ _ _ _ _ _ Hl Hk) as [Hkem Hl1].
  destruct (GenerateSignatureKeyPair _ _ _ _ _) as [s2 [sig|e]] eqn:Hs; [|done].
  destruct (GenerateSignature_pair lib _ _ _ _ _ _ _ _ Hl1 Hs) as (Hsig & Hlev & _).
  intros [= <- <-]. by split.
Qed.

Lemma key_bytes s : s ≠ EmptyString → list_byte_of_string s ≠ [].
Proof. by destruct s. Qed.

(** The account of a wallet keeps its keys, whatever happens to the rest. *)
Definition same_keys (a b : Account) : Prop :=
  acc_PublicKey b = acc_PublicKey a ∧ acc_EncryptedPrivateKey b = acc_EncryptedPrivateKey a.

Lemma decrypted_same_keys hexKey a b : same_keys a b →
  GetDecryptedPrivateKey open_ hexKey b = GetDecryptedPrivateKey open_ hexKey a.
Proof. intros [_ Hk]. unfold GetDecryptedPrivateKey. by rewrite Hk. Qed.

Lemma RegisterAccount_stored nonce w accs accs' :
  (∀ k n p, open_ k n (seal k n p) = Some p) → length nonce = NonceSize →
  RegisterAccount seal env_key (Some nonce) w accs = (accs', Ok ()) →
  ∃ a, accs' !! w_ID w = Some a ∧ acc_PublicKey a = dk_PublicKey (w_Sig w)
    ∧ env_key ≠ EmptyString
    ∧ GetDecryptedPrivateKey open_ env_key a = Ok (dk_PrivateKey (w_Sig w)).
Proof.
  intros Hopen Hn. unfold RegisterAccount. case_bool_decide as He; [done|].
  destruct (hex_decode _) as [kb|]; [|done]. destruct (negb _); [done|].
  destruct (SetPrivateKey _ _ _ _ _) as [a [[]|e]] eqn:Hset; [|done].
  destruct (SetPrivateKey_roundtrip seal open_ _ _ _ _ _ Hopen Hn Hset) as (Hd & Ha & _).
  unfold Accounts.RegisterAccount. case_bool_decide as Hid; [done|].
  destruct (accs !! acc_ID a) eqn:Hl; [done|]. intros [= <-]. exists a.
  assert (acc_ID a = w_ID w) as Hida by (by rewrite Ha). rewrite Hida, lookup_insert_eq.
  split; [done|]. split; [by rewrite Ha|]. by split.
Qed.

(** C38: a registered wallet signs through the transaction manager.  After a
    new wallet registered its account, [signTransaction] signs every
    transaction of that account that has an identifier, with the key of the
    wallet, whatever crypto manager there is and whatever happened to the
    account's other fields, and the pool's check accepts the signature. *)
Theorem registered_wallet_signs {LE} env ds ds' w nonce accs accs' accs2 a a2 cm tx :
  (∀ k n p, open_ k n (seal k n p) = Some p) → length nonce = NonceSize →
  NewWallet lib env ds = Some (ds', Ok w) →
  RegisterAccount seal env_key (Some nonce) w accs = (accs', Ok ()) →
  accs' !! w_ID w = Some a → accs2 !! w_ID w = Some a2 → same_keys a a2 →
  tx_Sender tx = w_ID w → tx_ID tx ≠ EmptyString →
  ∃ sig, signTransaction (LE := LE) (pure_manager lib <$> cm) env_key open_ (pure_sign lib) accs2 tx
      = Ok (set_Signature sig tx)
    ∧ sig ≠ []
    ∧ pure_verify lib (acc_PublicKey a2) (list_byte_of_string (tx_ID tx)) sig = Some true.
Proof.
  intros Hopen Hn Hnew Hreg Ha Ha2 Hsame Hsnd Hid.
  destruct (NewWallet_fresh _ _ _ _ Hnew) as [_ Hsig _].
  destruct (RegisterAccount_stored _ _ _ _ Hopen Hn Hreg) as (a0 & Ha0 & Hpub & Henv & Hdec).
  assert (a0 = a) as -> by congruence.
  destruct (sign_verify (w_Sig w) (list_byte_of_string (tx_ID tx)) Hsig (key_bytes _ Hid))
    as (sig & Hne & Hs & Hv).
  exists sig. split_and!; [|done|].
  - unfold signTransaction, GetAccount. rewrite Hsnd, Ha2. cbv zeta.
    rewrite (bool_decide_eq_false_2 _ Henv), (decrypted_same_keys _ _ _ Hsame), Hdec.
    unfold pure_sign. rewrite Hs. cbn [snd].
    destruct cm as [cm|]; cbn [fmap option_fmap option_map]; [by rewrite manager_never_signs|done].
  - unfold pure_verify. destruct Hsame as [-> _]. by rewrite Hpub, Hv.
Qed.

(** ** Files *)

Definition with_CM (cm : CryptoManager) (w : Wallet) : Wallet :=
  mkWallet (w_ID w) (w_Nonce w) (w_KEM w) (w_Sig w) cm.

Lemma fresh_serializes w : fresh w → ∃ kem sig,
  SerializeKyberKeyPair (Some (w_KEM w)) = Ok kem ∧ SerializeDilithiumKeyPair (Some (w_Sig w)) = Ok sig.
Proof.
  intros [(? & ? & ? & ? & _ & _ & _ & _ & H1 & H2) (? & ? & ? & ? & _ & _ & _ & _ & H3 & H4) Hl].
  unfold SerializeKyberKeyPair, SerializeDilithiumKeyPair, kyber_Validate, dilithium_Validate.
  rewrite !(proj2 (isEmpty_false _)) by done. rewrite Hl. cbn. by eexists _, _.
Qed.

(** export and import.  The wallet of [NewWallet], at any later nonce,
    exports whenever its file can be written, only that file changes, and
    importing the file at any later time gives the wallet back, with a new
    crypto manager of the same levels. *)
Theorem export_import marshal unmarshal path w fs :
  (∀ wf, unmarshal (marshal wf) = Some wf) → fresh w →
  ∃ fs', Export marshal true path w fs = (fs', Ok ()) ∧
    (∀ p, p ≠ path → fs' !! p = fs !! p) ∧
    ∀ now fs2, fs2 !! path = fs' !! path → ∃ cm,
      NewCryptoManager lib KyberLevel1024 DilithiumLevel3 now = Some (Ok cm) ∧
      ImportWallet lib unmarshal now path fs2 = Some (Ok (with_CM cm w)).
Proof.
  intros Hjson Hf. destruct (fresh_serializes w Hf) as (kem & sig & Hk & Hs).
  unfold Export. rewrite Hk, Hs. eexists. split; [done|]. split.
  { intros p Hp. by rewrite lookup_insert_ne. }
  intros now fs2 Hfs. rewrite lookup_insert_eq in Hfs. unfold ImportWallet.
  rewrite Hfs, Hjson.
  destruct (NewCryptoManager lib KyberLevel1024 DilithiumLevel3 now) as [[cm|e]|] eqn:Hcm; [|done..].
  exists cm. split; [done|]. cbn [mbind option_bind wf_KEM wf_Sig wf_ID wf_Nonce].
  rewrite (kyber_pair_roundtrip _ _ Hk), (dilithium_pair_roundtrip _ _ Hs).
  unfold key_level. rewrite (fr_level _ Hf). cbn. unfold with_CM. repeat f_equal.
  rewrite <- (fr_level _ Hf). by destruct (w_Sig w).
Qed.

(** ** Submitting *)

Lemma length_unique_id t : String.length (GenerateUniqueID t) = 32%nat.
Proof.
  unfold GenerateUniqueID, hex_string.
  assert (∀ l, String.length (string_of_list_byte l) = length l) as Hl.
  { intros l. induction l as [|c l IH]; [done|]. simpl. by rewrite <- IH. }
  by rewrite Hl, length_hex_encode, length_take, b32_length.
Qed.

Context {T L LE : Type} `{NonceTrackerLaws T, LedgerAPI L LE}.

(** what [SubmitTransaction] returns is not what it submitted.  It never
    panics and always uses up a nonce of the wallet.  When it succeeds, the
    transaction in the pool is one the manager built and signed, with the
    tracker's next nonce; the returned one, with the wallet's nonce, has
    another identifier and is not in the pool unless it was there before.
    When it fails, the tracker's nonces have not moved. *)
Theorem submit_returns_another env clk netLoad cm receiver amount fee data w ds accs
    (tm : TransactionManager T L) :
  is_i64 (nonce_at tm (w_ID w)) → pool_wf (tm_pool tm) →
  0 ≤ TotalTxs (poolMetrics (tm_pool tm)) < 9223372036854775807 →
  maxPoolSize (tm_pool tm) < 9223372036854775807 →
  ∃ w' ds' tm' r, SubmitTransaction lib open_ fmt8 wild_int env_key (LE := LE) env clk netLoad cm
      receiver amount fee data w ds accs tm = Some (w', ds', tm', r) ∧
    w' = bump_nonce w ∧
    match r with
    | Err _ => nonces tm' = nonces tm
    | Ok tx => tx_Nonce tx = w_Nonce w' ∧ ∃ tx',
        created (w_ID w) receiver amount fee data (nonce_at tm (w_ID w) + 1) tx' ∧
        lookup_tx (tm_pool tm') (tx_ID tx') = Some tx' ∧
        tx_ID tx' ≠ tx_ID tx ∧
        ∀ x, lookup_tx (tm_pool tm') (tx_ID tx) = Some x → lookup_tx (tm_pool tm) (tx_ID tx) = Some x
    end.
Proof.
  intros Hi Hp Ht Hmax. unfold SubmitTransaction, CreateTransaction.
  destruct (SignDataWithDilithium _ _ _ _ _ _) as [ds1 [sig|e]]; [|by eexists _, _, _, _].
  cbn [tx_Sender tx_Receiver tx_Amount tx_Fee tx_Data set_Signature].
  destruct (CreateTransaction_spec (LE := LE) (pure_verify lib) wild_int fmt8 (pure_manager lib <$> cm)
    env_key open_ (pure_sign lib) clk netLoad accs (w_ID w) receiver amount fee data tm Hi Hp Ht Hmax)
    as (tm' & r & Hc & _ & _ & _ & Hr).
  change (w_ID (bump_nonce w)) with (w_ID w). rewrite Hc. cbn [mbind option_bind].
  destruct r as [tx'|e]; eexists _, _, _, _; (split; [done|]); (split; [done|]).
  - destruct Hr as (Hcr & _ & _ & Hl & _ & _ & Hlen & Hold). split; [done|]. exists tx'.
    assert (tx_ID tx' ≠ GenerateUniqueID (we_now env 0%nat)) as Hne.
    { intros He. pose proof (length_unique_id (we_now env 0%nat)) as Hu. rewrite <- He, Hlen in Hu. done. }
    split_and!; [done..|]. cbn [tx_ID set_Signature]. intros x. by apply Hold.
  - apply Hr.
Qed.
End facts.

(** ** A concrete wallet *)

Definition wallet_env0 : wallet_env :=
  mkWalletEnv [x01] [x02] (λ _, 7) (λ k, 1000 * second + Z.of_nat k).
Definition nonce0 : list byte := replicate 12 x09.

Definition new0 : option (dilithiumStats * result WalletError Wallet) :=
  NewWallet toy_lib wallet_env0 no_stats.
Definition wallet0 : Wallet :=
  match new0 with Some (_, Ok w) => w | _ => mkWallet "" 0 toy_kp toy_dk toy_cm end.
Definition ds0 : dilithiumStats := match new0 with Some (ds, _) => ds | None => no_stats end.

Lemma new0_eq : new0 = Some (ds0, Ok wallet0).
Proof.
  unfold wallet0, ds0. destruct new0 as [[ds [w|e]]|] eqn:Hc; [done|exfalso..];
    apply (f_equal (λ o, match o with Some (_, Ok _) => true | _ => false end)) in Hc;
    by vm_compute in Hc.
Qed.

Definition registered0 : accounts_map * result WalletError () :=
  RegisterAccount toy_seal key_hex (Some nonce0) wallet0 sample_accounts.
Definition account0 : Account := default (blank_account "" [] f_zero 0 0) (registered0.1 !! w_ID wallet0).
Definition accounts0 : accounts_map := (FundWallet (f_of_Z 100) wallet0 registered0.1).1.

Lemma registered0_eq : registered0 = (registered0.1, Ok ()).
Proof.
  assert (registered0.2 = Ok ()) as Hr by (vm_compute; reflexivity).
  destruct registered0 as [m r]. cbn in Hr. by rewrite Hr.
Qed.

Lemma account0_eq : registered0.1 !! w_ID wallet0 = Some account0.
Proof.
  unfold account0. destruct (registered0.1 !! w_ID wallet0) eqn:He; [done|exfalso].
  apply (f_equal isNil) in He. by vm_compute in He.
Qed.

Definition tx_of_wallet : Transaction :=
  mkTx "t1" (w_ID wallet0) "bob" (f_of_Z 5) 0 [] 0 f_zero 0 "" [] 1 "" 0 "pending".

Lemma registered_wallet_signs_witness : ∃ sig,
  signTransaction (LE := CommonError) (pure_manager toy_lib <$> Some toy_cm) key_hex toy_open
    (pure_sign toy_lib) registered0.1 tx_of_wallet = Ok (set_Signature sig tx_of_wallet)
  ∧ sig ≠ []
  ∧ pure_verify toy_lib (acc_PublicKey account0) (list_byte_of_string "t1") sig = Some true.
Proof.
  apply (registered_wallet_signs toy_lib toy_seal toy_open key_hex (LE := CommonError)
    wallet_env0 no_stats ds0 wallet0 nonce0 sample_accounts registered0.1 registered0.1
    account0 account0 (Some toy_cm) tx_of_wallet).
  - apply toy_open_seal.
  - reflexivity.
  - exact new0_eq.
  - exact registered0_eq.
  - exact account0_eq.
  - exact account0_eq.
  - split; reflexivity.
  - reflexivity.
  - discriminate.
Defined.

(** Files in a concrete encoding. *)
Definition file_tuple (wf : WalletFile) : string * Z * option (list byte * list byte)
    * option (list byte * list byte * Z) :=
  (wf_ID wf, wf_Nonce wf, (λ k, (ks_PublicKey k, ks_PrivateKey k)) <$> wf_KEM wf,
   (λ k, (dks_PublicKey k, dks_PrivateKey k, dks_Level k)) <$> wf_Sig wf).
Definition toy_marshal (wf : WalletFile) : list byte := bits (encode (file_tuple wf)).
Definition toy_unmarshal (l : list byte) : option WalletFile :=
  '(id, n, kem, sig) ← decode (unbits l);
  Some (mkWalletFile id n ((λ k, mkKyberSer k.1 k.2) <$> kem)
    ((λ k, mkDilSer k.1.1 k.1.2 k.2) <$> sig)).

Lemma toy_wallet_json wf : toy_unmarshal (toy_marshal wf) = Some wf.
Proof.
  unfold toy_unmarshal, toy_marshal. rewrite unbits_bits, decode_encode.
  by destruct wf as [id n [[]|] [[]|]].
Qed.

Lemma export_import_witness : ∃ fs',
  Export toy_marshal true "w.json" wallet0 ∅ = (fs', Ok ()) ∧
  (∀ p, p ≠ "w.json"%string → fs' !! p = (∅ : gmap string (list byte)) !! p) ∧
  ∀ now fs2, fs2 !! "w.json"%string = fs' !! "w.json"%string → ∃ cm,
    NewCryptoManager toy_lib KyberLevel1024 DilithiumLevel3 now = Some (Ok cm) ∧
    ImportWallet toy_lib toy_unmarshal now "w.json" fs2 = Some (Ok (with_CM cm wallet0)).
Proof.
  apply (export_import toy_lib toy_marshal toy_unmarshal "w.json" wallet0 ∅).
  - exact toy_wallet_json.
  - exact (NewWallet_fresh toy_lib wallet_env0 no_stats ds0 wallet0 new0_eq).
Defined.

Definition submitted0 :=
  SubmitTransaction toy_lib toy_open fixed8 wild0 key_hex (LE := CommonError) wallet_env0
    sample_clock 50 (Some toy_cm) "bob" (f_of_Z 5) (f_of_Z 1) [] wallet0 ds0 accounts0 manager0.

(** The submission of a registered and funded wallet succeeds. *)
Example submitted0_ok :
  (match submitted0 with Some (_, _, _, Ok _) => true | _ => false end) = true.
Proof. vm_compute. reflexivity. Qed.

Lemma submit_returns_another_witness : ∃ w' ds' tm' r, submitted0 = Some (w', ds', tm', r) ∧
  w' = bump_nonce wallet0 ∧
  match r with
  | Err _ => nonces tm' = nonces manager0
  | Ok tx => tx_Nonce tx = w_Nonce w' ∧ ∃ tx',
      created (w_ID wallet0) "bob" (f_of_Z 5) (f_of_Z 1) [] (nonce_at manager0 (w_ID wallet0) + 1) tx' ∧
      lookup_tx (tm_pool tm') (tx_ID tx') = Some tx' ∧
      tx_ID tx' ≠ tx_ID tx ∧
      ∀ x, lookup_tx (tm_pool tm') (tx_ID tx) = Some x → lookup_tx (tm_pool manager0) (tx_ID tx) = Some x
  end.
Proof.
  apply (submit_returns_another toy_lib toy_open fixed8 wild0 key_hex (LE := CommonError)
    wallet_env0 sample_clock 50 (Some toy_cm) "bob" (f_of_Z 5) (f_of_Z 1) [] wallet0 ds0 accounts0
    manager0); [by vm_compute|apply pool_empty_wf|by vm_compute|by vm_compute].
Defined.
