(* ===== verification/Ledger.v ===== *)
(** * The ledger in MongoDB: src/storage

    mongo_ledger.go and mongo_store.go.  The database is a parameter: a
    collection is any type with the operations of the driver the code calls
    ([Driver]) and the documented laws of a collection with a unique index
    ([DriverLaws]); an operation may fail, and a write that reports an error
    may have been done nevertheless.  Documents are the records the code
    writes; decoding one into a Go struct, which depends on the driver's
    field names, is a parameter too.  A session works on copies of the two
    collections of [CommitBlock], which its commit puts in place. *)
From Stdlib Require Import ZArith Lia SpecFloat.
From Stdlib Require Import Strings.Byte Strings.Ascii Strings.String.
From stdpp Require Import numbers prelude gmap strings pretty.
From S2P Require Import Prelude GoFloat Maps Bytes Sha256 Common Accounts.
From S2P Require Import TxQueue TxPool TxUtils TxManager.
Open Scope Z_scope.

(** ** The driver *)

(** The answer to [FindOne]. *)
Inductive found (E D : Type) :=
| Found (d : D)
| NoDocuments
| Failed (e : E).
Arguments Found {E D} d.
Arguments NoDocuments {E D}.
Arguments Failed {E D} e.

(** A collection of documents [D] with a unique index over [K].  Reading
    leaves it alone; whether a read fails is a matter of its state. *)
Class Driver (Coll : Type → Type → Type) (E : Type) := {
  FindOne {K D} : (D → bool) → Coll K D → found E D;
  FindMax {K D} : (D → option Z) → Coll K D → found E D;
  FindAll {K D} : Coll K D → result E (list D);
  CountDocuments {K D} : Coll K D → result E Z;
  InsertOne {K D} : EqDecision K → K → D → Coll K D → Coll K D * result E ();
  (** The flag says whether a document matched. *)
  UpdateOne {K D} : (D → bool) → (D → D) → Coll K D → Coll K D * result E bool;
  DeleteOne {K D} : (D → bool) → Coll K D → Coll K D * result E ();
  (** Replacements with upsert, by the value of the index. *)
  BulkReplace {K D} : EqDecision K → list (K * D) → Coll K D → Coll K D * result E () }.

(** Documented behaviour, through the documents by their index values. *)
Class DriverLaws (Coll : Type → Type → Type) (E : Type) `{Driver Coll E} := {
  docs {K D} `{Countable K} : Coll K D → gmap K D;
  FindOne_found {K D} `{Countable K} (p : D → bool) (c : Coll K D) d :
    FindOne p c = Found d → ∃ k, docs c !! k = Some d ∧ p d = true;
  FindOne_none {K D} `{Countable K} (p : D → bool) (c : Coll K D) k d :
    FindOne p c = NoDocuments → docs c !! k = Some d → p d = false;
  FindMax_found {K D} `{Countable K} (f : D → option Z) (c : Coll K D) d :
    FindMax f c = Found d → (∃ k, docs c !! k = Some d) ∧
    ∀ k d' z, docs c !! k = Some d' → f d' = Some z → ∃ m, f d = Some m ∧ z ≤ m;
  FindMax_none {K D} `{Countable K} (f : D → option Z) (c : Coll K D) :
    FindMax f c = NoDocuments → docs c = ∅;
  FindAll_docs {K D} `{Countable K} (c : Coll K D) l :
    FindAll c = Ok l → ∃ kl, NoDup kl.*1 ∧ kl.*2 = l ∧ docs c = list_to_map kl;
  CountDocuments_docs {K D} `{Countable K} (c : Coll K D) n :
    CountDocuments c = Ok n → n = Z.of_nat (size (docs c));
  InsertOne_docs {K D} `{Countable K} k d (c c' : Coll K D) r :
    InsertOne _ k d c = (c', r) →
    match r with
    | Ok _ => docs c !! k = None ∧ docs c' = <[k := d]> (docs c)
    | Err _ => docs c' = docs c ∨ docs c !! k = None ∧ docs c' = <[k := d]> (docs c)
    end;
  UpdateOne_docs {K D} `{Countable K} (p : D → bool) f (c c' : Coll K D) r :
    UpdateOne p f c = (c', r) →
    (r ≠ Ok true ∧ docs c' = docs c ∧ (r = Ok false → ∀ k d, docs c !! k = Some d → p d = false)) ∨
    (r ≠ Ok false ∧ ∃ k d, docs c !! k = Some d ∧ p d = true ∧ docs c' = <[k := f d]> (docs c));
  DeleteOne_docs {K D} `{Countable K} (p : D → bool) (c c' : Coll K D) r :
    DeleteOne p c = (c', r) →
    (docs c' = docs c ∧ (r = Ok () → ∀ k d, docs c !! k = Some d → p d = false)) ∨
    (∃ k d, docs c !! k = Some d ∧ p d = true ∧ docs c' = delete k (docs c));
  BulkReplace_docs {K D} `{Countable K} l (c c' : Coll K D) r :
    BulkReplace _ l c = (c', r) → NoDup l.*1 →
    match r with
    | Ok _ => docs c' = list_to_map l ∪ docs c
    | Err _ => ∃ n, docs c' = list_to_map (take n l) ∪ docs c
    end }.

(** ** Documents *)

Record AccountDoc := mkAccountDoc {
  ad_address : string; ad_publicKey : list byte; ad_balance : f64; ad_nonce : Z }.
Record TxDoc := mkTxDoc {
  td_txHash : string; td_from : string; td_to : string; td_amount : f64; td_timestamp : Z;
  td_signature : list byte; td_nonce : Z; td_blockHeight : Z; td_status : string }.
(** The ledger and the block store write to one collection: the ledger some
    fields with the number as [blockHeight], the store the whole block with
    the number as [number]. *)
Inductive BlockDoc :=
| LedgerBlock (blockHeight : Z) (hash previousHash : string) (timestamp : Z)
    (transactions : list Transaction)
| StoreBlock (block : Block).
Definition bd_blockHeight (d : BlockDoc) : option Z :=
  match d with LedgerBlock h _ _ _ _ => Some h | StoreBlock _ => None end.
Definition bd_number (d : BlockDoc) : option Z :=
  match d with LedgerBlock _ _ _ _ _ => None | StoreBlock b => Some (bk_Number b) end.
Record SnapshotDoc := mkSnapshotDoc {
  sd_blockHeight : Z; sd_stateRoot : string; sd_stateData : gmap string AccountDoc;
  sd_timestamp : Z }.
(** Maps of arbitrary values and functions are left out of a contract. *)
Record SmartContract := mkContract {
  sc_ID : string; sc_Code : string; sc_Owner : string; sc_ABI : string; sc_Language : string;
  sc_GasUsage : f64 }.

Inductive LedgerError (E : Type) :=
| LErrDriver (e : E)
| LErrDecode
| LErrNoDocuments
| LErrAccountExists (id : string)
| LErrNoAccount (id : string)
| LErrTxExists (id : string)
| LErrSnapshot (height : Z)
| LErrStateData
| LErrBlockHeight
| LErrNoBlocks
| LErrContract (id : string).
Arguments LErrDriver {E} e.
Arguments LErrDecode {E}.
Arguments LErrNoDocuments {E}.
Arguments LErrAccountExists {E} id.
Arguments LErrNoAccount {E} id.
Arguments LErrTxExists {E} id.
Arguments LErrSnapshot {E} height.
Arguments LErrStateData {E}.
Arguments LErrBlockHeight {E}.
Arguments LErrNoBlocks {E}.
Arguments LErrContract {E} id.

(** What an [interface{}] that holds a document can be: a value of one of the
    driver's types, or a map of the language. *)
Inductive doc_value :=
| BsonM (m : gmap string AccountDoc)
| BsonD (fields : list (string * AccountDoc))
| GoMap (m : gmap string AccountDoc).
(** [v.(map[string]interface{})]: of another type is a value of the type
    [bson.M], although it is defined as that map. *)
Definition assert_map (v : doc_value) : option (gmap string AccountDoc) :=
  match v with GoMap m => Some m | BsonM _ | BsonD _ => None end.

(** ** The ledger *)

Section ledger.
Context {Coll : Type → Type → Type} {E : Type} `{!Driver Coll E}.
Variable decode_account : AccountDoc → option Account.
Variable decode_tx : TxDoc → option Transaction.
Variable decode_block : BlockDoc → option Block.
(** What the driver decodes the [stateData] of a [bson.M] to. *)
Variable decode_nested : gmap string AccountDoc → doc_value.
Variable marshal_state : gmap string AccountDoc → option (list byte).

Record MongoLedger := mkLedger {
  accountsColl : Coll string AccountDoc;
  blocksColl : Coll (option Z) BlockDoc;
  transactionsColl : Coll string TxDoc;
  snapshotsColl : Coll Z SnapshotDoc;
  contractsColl : Coll string SmartContract;
  currentHeight : Z }.

Definition set_accounts (c : Coll string AccountDoc) (l : MongoLedger) : MongoLedger :=
  mkLedger c (blocksColl l) (transactionsColl l) (snapshotsColl l) (contractsColl l) (currentHeight l).
Definition set_blocks (c : Coll (option Z) BlockDoc) (l : MongoLedger) : MongoLedger :=
  mkLedger (accountsColl l) c (transactionsColl l) (snapshotsColl l) (contractsColl l) (currentHeight l).
Definition set_transactions (c : Coll string TxDoc) (l : MongoLedger) : MongoLedger :=
  mkLedger (accountsColl l) (blocksColl l) c (snapshotsColl l) (contractsColl l) (currentHeight l).
Definition set_snapshots (c : Coll Z SnapshotDoc) (l : MongoLedger) : MongoLedger :=
  mkLedger (accountsColl l) (blocksColl l) (transactionsColl l) c (contractsColl l) (currentHeight l).
Definition set_contracts (c : Coll string SmartContract) (l : MongoLedger) : MongoLedger :=
  mkLedger (accountsColl l) (blocksColl l) (transactionsColl l) (snapshotsColl l) c (currentHeight l).
Definition set_height (h : Z) (l : MongoLedger) : MongoLedger :=
  mkLedger (accountsColl l) (blocksColl l) (transactionsColl l) (snapshotsColl l) (contractsColl l) h.

(** [FindOne(...).Decode(&x)]. *)
Definition Decode {D A} (dec : D → option A) (r : found E D) : result (LedgerError E) A :=
  match r with
  | NoDocuments => Err LErrNoDocuments
  | Failed e => Err (LErrDriver e)
  | Found d => match dec d with Some a => Ok a | None => Err LErrDecode end
  end.

Definition wrap {A} (r : result E A) : result (LedgerError E) A :=
  match r with Ok a => Ok a | Err e => Err (LErrDriver e) end.

Definition by_address (id : string) (d : AccountDoc) : bool := bool_decide (ad_address d = id).
Definition by_hash (id : string) (d : TxDoc) : bool := bool_decide (td_txHash d = id).
Definition by_height (n : Z) (d : BlockDoc) : bool := bool_decide (bd_blockHeight d = Some n).
Definition by_snapshot (n : Z) (d : SnapshotDoc) : bool := bool_decide (sd_blockHeight d = n).
Definition by_contract (id : string) (d : SmartContract) : bool := bool_decide (sc_ID d = id).

Definition getCurrentHeightFromDB (l : MongoLedger) : result (LedgerError E) Z :=
  match FindMax bd_blockHeight (blocksColl l) with
  | NoDocuments => Ok 0
  | Failed e => Err (LErrDriver e)
  | Found d => match bd_blockHeight d with Some h => Ok h | None => Err LErrBlockHeight end
  end.

(** [indexes]: the outcome of creating the indices. *)
Definition NewMongoLedger (connect indexes : option E) (l : MongoLedger) :
    result (LedgerError E) MongoLedger :=
  match connect with
  | Some e => Err (LErrDriver e)
  | None =>
      match indexes with
      | Some e => Err (LErrDriver e)
      | None =>
          match getCurrentHeightFromDB l with
          | Err e => Err e
          | Ok height => Ok (set_height height l)
          end
      end
  end.

Definition CreateAccount (ac : Account) (l : MongoLedger) : MongoLedger * result (LedgerError E) () :=
  match Decode decode_account (FindOne (by_address (acc_ID ac)) (accountsColl l)) with
  | Ok _ => (l, Err (LErrAccountExists (acc_ID ac)))
  | Err LErrNoDocuments =>
      let '(c, r) := InsertOne _ (acc_ID ac)
                       (mkAccountDoc (acc_ID ac) (acc_PublicKey ac) (acc_Balance ac) 0)
                       (accountsColl l) in
      (set_accounts c l, wrap r)
  | Err e => (l, Err e)
  end.

(** An account that is not there is no error. *)
Definition UpdateAccount (ac : Account) (l : MongoLedger) : MongoLedger * result (LedgerError E) () :=
  let '(c, r) := UpdateOne (by_address (acc_ID ac))
                   (λ d, mkAccountDoc (ad_address d) (acc_PublicKey ac) (acc_Balance ac) (acc_Nonce ac))
                   (accountsColl l) in
  (set_accounts c l, match wrap r with Ok _ => Ok () | Err e => Err e end).

Definition GetBalance (accountID : string) (l : MongoLedger) : result (LedgerError E) f64 :=
  match Decode decode_account (FindOne (by_address accountID) (accountsColl l)) with
  | Ok ac => Ok (acc_Balance ac)
  | Err e => Err e
  end.

Definition inc_balance (amount : f64) (d : AccountDoc) : AccountDoc :=
  mkAccountDoc (ad_address d) (ad_publicKey d) (f_add (ad_balance d) amount) (ad_nonce d).
Definition UpdateAccountBalance (accountID : string) (amount : f64) (l : MongoLedger) :
    MongoLedger * result (LedgerError E) () :=
  let '(c, r) := UpdateOne (by_address accountID) (inc_balance amount) (accountsColl l) in
  (set_accounts c l,
   match r with
   | Err e => Err (LErrDriver e)
   | Ok false => Err (LErrNoAccount accountID)
   | Ok true => Ok ()
   end).

(** Whatever the status of the transaction, the document says pending. *)
Definition tx_doc (tx : Transaction) : TxDoc :=
  mkTxDoc (tx_ID tx) (tx_Sender tx) (tx_Receiver tx) (tx_Amount tx) (tx_Timestamp tx)
    (tx_Signature tx) (tx_Nonce tx) (tx_BlockHeight tx) "pending".
Definition AddTransaction (tx : Transaction) (l : MongoLedger) :
    MongoLedger * result (LedgerError E) () :=
  match Decode decode_tx (FindOne (by_hash (tx_ID tx)) (transactionsColl l)) with
  | Ok _ => (l, Err (LErrTxExists (tx_ID tx)))
  | Err LErrNoDocuments =>
      let '(c, r) := InsertOne _ (tx_ID tx) (tx_doc tx) (transactionsColl l) in
      (set_transactions c l, wrap r)
  | Err e => (l, Err e)
  end.

Definition IsTransactionCommitted (txID : string) (l : MongoLedger) : bool :=
  is_Ok (Decode decode_tx (FindOne (by_hash txID) (transactionsColl l))).

(** The session of a commit: starting it, starting its transaction, the
    answer of its commit, and whether a commit that answers with an error has
    been done nevertheless. *)
Record Session := mkSession {
  ss_start : option E; ss_begin : option E; ss_commit : option E; ss_landed : bool }.

Definition mark_committed (number : Z) (d : TxDoc) : TxDoc :=
  mkTxDoc (td_txHash d) (td_from d) (td_to d) (td_amount d) (td_timestamp d) (td_signature d)
    (td_nonce d) number "committed".
Fixpoint mark_all (number : Z) (txs : list Transaction) (c : Coll string TxDoc) :
    Coll string TxDoc * result E () :=
  match txs with
  | [] => (c, Ok ())
  | tx :: txs =>
      match UpdateOne (by_hash (tx_ID tx)) (mark_committed number) c with
      | (c, Err e) => (c, Err e)
      | (c, Ok _) => mark_all number txs c
      end
  end.

Definition block_doc (block : Block) : BlockDoc :=
  LedgerBlock (bk_Number block) (bk_Hash block) (bk_PreviousHash block) (bk_Timestamp block)
    (bk_Transactions block).

(** The height is raised before the transaction is committed. *)
Definition CommitBlock (ss : Session) (block : Block) (l : MongoLedger) :
    MongoLedger * result (LedgerError E) () :=
  match ss_start ss with
  | Some e => (l, Err (LErrDriver e))
  | None =>
      match ss_begin ss with
      | Some e => (l, Err (LErrDriver e))
      | None =>
          match InsertOne _ (Some (bk_Number block)) (block_doc block) (blocksColl l) with
          | (_, Err e) => (l, Err (LErrDriver e))
          | (blocks, Ok _) =>
              match mark_all (bk_Number block) (bk_Transactions block) (transactionsColl l) with
              | (_, Err e) => (l, Err (LErrDriver e))
              | (txs, Ok _) =>
                  let l1 := if currentHeight l <? bk_Number block
                            then set_height (bk_Number block) l else l in
                  let l2 := set_transactions txs (set_blocks blocks l1) in
                  match ss_commit ss with
                  | None => (l2, Ok ())
                  | Some e => (if ss_landed ss then l2 else l1, Err (LErrDriver e))
                  end
              end
          end
      end
  end.

Definition GetBlockByNumber (num : Z) (l : MongoLedger) : option Block :=
  match Decode decode_block (FindOne (by_height num) (blocksColl l)) with
  | Ok b => Some b
  | Err _ => None
  end.

Definition computeStateRoot (stateData : gmap string AccountDoc) : string :=
  match marshal_state stateData with Some data => HashData data | None => EmptyString end.

(** The cursor's documents by address; of equal addresses the last stays. *)
Definition state_of (l : list AccountDoc) : gmap string AccountDoc :=
  foldl (λ m ac, <[ad_address ac := ac]> m) ∅ l.

Definition CreateSnapshot (now height : Z) (l : MongoLedger) :
    MongoLedger * result (LedgerError E) () :=
  match FindAll (accountsColl l) with
  | Err e => (l, Err (LErrDriver e))
  | Ok accs =>
      let stateData := state_of accs in
      let '(c, r) := InsertOne _ height
                       (mkSnapshotDoc height (computeStateRoot stateData) stateData now)
                       (snapshotsColl l) in
      (set_snapshots c l, wrap r)
  end.

(** [order] is the iteration order of the state's map. *)
Definition RestoreSnapshot (order : list string) (height : Z) (l : MongoLedger) :
    MongoLedger * result (LedgerError E) () :=
  match FindOne (by_snapshot height) (snapshotsColl l) with
  | NoDocuments | Failed _ => (l, Err (LErrSnapshot height))
  | Found snapshot =>
      match assert_map (decode_nested (sd_stateData snapshot)) with
      | None => (l, Err LErrStateData)
      | Some stateData =>
          let models := omap (λ id, (λ d, (id, d)) <$> stateData !! id) order in
          match models with
          | [] => (set_height height l, Ok ())
          | _ =>
              match BulkReplace _ models (accountsColl l) with
              | (c, Err e) => (set_accounts c l, Err (LErrDriver e))
              | (c, Ok _) => (set_height height (set_accounts c l), Ok ())
              end
          end
      end
  end.

Definition IntegrityCheck (l : MongoLedger) : result (LedgerError E) () :=
  match CountDocuments (blocksColl l) with
  | Err e => Err (LErrDriver e)
  | Ok count => if count =? 0 then Err LErrNoBlocks else Ok ()
  end.

Definition DeploySmartContract (sc : SmartContract) (l : MongoLedger) :
    MongoLedger * result (LedgerError E) () :=
  let '(c, r) := InsertOne _ (sc_ID sc) sc (contractsColl l) in (set_contracts c l, wrap r).
(** [params]: the parameters as [%v] prints them. *)
Definition ExecuteSmartContract (scID function sender params : string) (l : MongoLedger) :
    result (LedgerError E) string :=
  match FindOne (by_contract scID) (contractsColl l) with
  | Found _ => Ok ("Executed function " +:+ function +:+ " with params " +:+ params)
  | _ => Err (LErrContract scID)
  end.
Definition RemoveSmartContract (contractID : string) (l : MongoLedger) :
    MongoLedger * result (LedgerError E) () :=
  let '(c, r) := DeleteOne (by_contract contractID) (contractsColl l) in (set_contracts c l, wrap r).

(** ** The block store, on the ledger's collection of blocks *)

Definition SaveBlock (block : Block) (l : MongoLedger) : MongoLedger * result (LedgerError E) () :=
  let '(c, r) := InsertOne _ None (StoreBlock block) (blocksColl l) in (set_blocks c l, wrap r).
Definition GetBlock (blockNumber : Z) (l : MongoLedger) : result (LedgerError E) Block :=
  Decode decode_block
    (FindOne (λ d, bool_decide (bd_number d = Some blockNumber)) (blocksColl l)).
End ledger.
Arguments MongoLedger Coll : clear implicits.
Arguments Session E : clear implicits.

#[export] Instance mongo_ledger_api {Coll E} `{!Driver Coll E}
    (decode_tx : TxDoc → option Transaction) : LedgerAPI (MongoLedger Coll) (LedgerError E) := {
  ledger_AddTransaction := AddTransaction decode_tx;
  ledger_UpdateAccountBalance := UpdateAccountBalance;
  ledger_IsTransactionCommitted := IsTransactionCommitted decode_tx }.

(** * Facts *)

(** ** Collections whose index is a function of the document *)

Section keyed.
Context {Coll : Type → Type → Type} {E : Type} `{DriverLaws Coll E} {K D : Type} `{Countable K}.
Variable key : D → K.
Implicit Types c : Coll K D.

Definition keyed c : Prop := ∀ k d, docs c !! k = Some d → key d = k.
Definition is_key (k : K) (d : D) : bool := bool_decide (key d = k).

Lemma find_key c k : keyed c →
  match FindOne (is_key k) c with
  | Found d => docs c !! k = Some d
  | NoDocuments => docs c !! k = None
  | Failed _ => True
  end.
Proof.
  intros Hk. destruct (FindOne (is_key k) c) as [d| |e] eqn:Hf; [| |done].
  - apply FindOne_found in Hf as (k' & Hd & Hp). apply bool_decide_eq_true in Hp.
    by rewrite <- Hp, (Hk _ _ Hd).
  - destruct (docs c !! k) as [d|] eqn:Hd; [|done].
    apply (FindOne_none _ _ _ _ Hf) in Hd as Hp. apply bool_decide_eq_false in Hp.
    by destruct Hp; apply Hk.
Qed.

(** An update by the index changes that document or nothing. *)
Lemma update_key c c' k f r : keyed c → (∀ d, key (f d) = key d) →
  UpdateOne (is_key k) f c = (c', r) → keyed c' ∧
  ((r ≠ Ok true ∧ docs c' = docs c ∧ (r = Ok false → docs c !! k = None)) ∨
   (r ≠ Ok false ∧ is_Some (docs c !! k) ∧ docs c' = alter f k (docs c))).
Proof.
  intros Hk Hf Hu. apply UpdateOne_docs in Hu as [(Hr & Hd & Hn)|(Hr & k' & d & Hd & Hp & He)].
  - split; [intros j d; rewrite Hd; apply Hk|]. left. split_and!; [done..|]. intros Hfalse.
    destruct (docs c !! k) as [d|] eqn:Hl; [|done].
    pose proof (Hn Hfalse k d Hl) as Hp. apply bool_decide_eq_false in Hp. by destruct Hp; apply Hk.
  - apply bool_decide_eq_true in Hp. assert (k' = k) as -> by (by rewrite <- (Hk _ _ Hd)).
    assert (alter f k (docs c) = <[k := f d]> (docs c)) as Ha.
    { apply map_eq. intros j. destruct (decide (j = k)) as [->|Hne].
      - by rewrite lookup_alter_eq, lookup_insert_eq, Hd.
      - by rewrite lookup_alter_ne, lookup_insert_ne. }
    split; [|right; rewrite Ha, Hd; by eauto]. intros j x. rewrite He, lookup_insert_Some.
    intros [[<- <-]|[_ Hx]]; [by rewrite Hf|by apply Hk].
Qed.

Lemma insert_keyed c c' k d r : keyed c → key d = k → InsertOne _ k d c = (c', r) →
  keyed c' ∧ match r with
  | Ok _ => docs c !! k = None ∧ docs c' = <[k := d]> (docs c)
  | Err _ => docs c' = docs c ∨ docs c !! k = None ∧ docs c' = <[k := d]> (docs c)
  end.
Proof.
  intros Hk Hd Hi. apply InsertOne_docs in Hi as Hr. split; [|done].
  assert (docs c' = docs c ∨ docs c' = <[k := d]> (docs c)) as [He|He] by (destruct r; naive_solver);
    intros j x; rewrite He; [apply Hk|]. rewrite lookup_insert_Some.
  intros [[<- <-]|[_ Hx]]; [done|by apply Hk].
Qed.
End keyed.

(** Reading a map in some order and building it again. *)
Lemma read_all_keys {A} (m : gmap string A) order : NoDup order →
  NoDup (omap (λ id, (λ d, (id, d)) <$> m !! id) order).*1.
Proof.
  induction 1 as [|id order Hid Hn IH]; [constructor|]. cbn [omap list_omap].
  destruct (m !! id) as [d|]; [|exact IH]. cbn [fmap option_fmap option_map list_fmap fst].
  constructor; [|exact IH]. intros ([k x] & -> & Hin)%list_elem_of_fmap.
  apply list_elem_of_omap in Hin as (j & Hj & Hm). destruct (m !! j); [|done].
  cbn in Hm. by simplify_eq.
Qed.

Lemma read_all {A} (m : gmap string A) order : iter_order m order →
  list_to_map (omap (λ id, (λ d, (id, d)) <$> m !! id) order) = m.
Proof.
  intros [Hn Ho]. apply map_eq. intros k.
  destruct (m !! k) as [d|] eqn:Hk.
  - apply elem_of_list_to_map_1; [by apply read_all_keys|].
    apply list_elem_of_omap. exists k. rewrite Hk. split; [|done]. apply Ho. by rewrite Hk.
  - apply not_elem_of_list_to_map_1. intros ([j x] & -> & Hin)%list_elem_of_fmap.
    apply list_elem_of_omap in Hin as (i & _ & Hm). destruct (m !! i) eqn:Hi; [|done].
    cbn in Hm. simplify_eq. cbn in Hk. congruence.
Qed.


(** ** The operations *)

Section facts.
Context {Coll : Type → Type → Type} {E : Type} `{DriverLaws Coll E}.
Variable decode_account : AccountDoc → option Account.
Variable decode_tx : TxDoc → option Transaction.
Implicit Types l : MongoLedger Coll.

Abbreviation accts l := (docs (accountsColl l)).
Abbreviation txs_of l := (docs (transactionsColl l)).
Abbreviation blocks_of l := (docs (blocksColl l)).
Abbreviation snaps_of l := (docs (snapshotsColl l)).

Record ledger_wf l : Prop := {
  lw_accounts : keyed ad_address (accountsColl l);
  lw_txs : keyed td_txHash (transactionsColl l);
  lw_blocks : keyed bd_blockHeight (blocksColl l);
  lw_snapshots : keyed sd_blockHeight (snapshotsColl l);
  lw_contracts : keyed sc_ID (contractsColl l) }.

(** A write changed the documents of a collection, if at all, by [f]. *)
Definition maybe {K D} `{Countable K} (f : gmap K D → gmap K D) (m m' : gmap K D) : Prop :=
  m' = m ∨ m' = f m.

Lemma AddTransaction_doc tx l l' r : ledger_wf l →
  AddTransaction decode_tx tx l = (l', r) →
  ledger_wf l' ∧ accts l' = accts l ∧
  match r with
  | Ok _ => txs_of l !! tx_ID tx = None ∧ txs_of l' = <[tx_ID tx := tx_doc tx]> (txs_of l)
  | Err _ => txs_of l' = txs_of l ∨
      txs_of l !! tx_ID tx = None ∧ txs_of l' = <[tx_ID tx := tx_doc tx]> (txs_of l)
  end.
Proof.
  intros Hw. unfold AddTransaction. destruct (Decode _ _) as [a|e] eqn:Hd.
  { intros [= <- <-]. by split_and!; [| |left]. }
  destruct e; try (intros [= <- <-]; by split_and!; [| |left]).
  destruct (InsertOne _ _ _ _) as [c r0] eqn:Hi. intros [= <- <-].
  destruct (insert_keyed td_txHash _ _ _ (tx_doc tx) _ (lw_txs l Hw) eq_refl Hi) as [Hk Hr].
  split; [|split; [done|by destruct r0]]. destruct Hw. by split.
Qed.

Lemma UpdateAccountBalance_spec id x l l' r : ledger_wf l →
  UpdateAccountBalance id x l = (l', r) →
  ledger_wf l' ∧ txs_of l' = txs_of l ∧
  match r with
  | Ok _ => is_Some (accts l !! id) ∧ accts l' = alter (inc_balance x) id (accts l)
  | Err _ => maybe (alter (inc_balance x) id) (accts l) (accts l')
  end ∧ (accts l !! id = None → accts l' = accts l).
Proof.
  intros Hw. unfold UpdateAccountBalance.
  destruct (UpdateOne _ _ _) as [c r0] eqn:Hu. intros [= <- <-].
  destruct (update_key ad_address _ _ id (inc_balance x) _ (lw_accounts l Hw) (λ _, eq_refl) Hu) as [Hk Hr].
  split; [destruct Hw; by split|]. split; [done|]. unfold maybe. cbn [accountsColl set_accounts].
  destruct Hr as [(Hr & Hd & Hn)|(Hr & [d Hs] & Hd)].
  - rewrite Hd. destruct r0 as [[]|e]; [done|by auto..].
  - split; [destruct r0 as [[]|e]; [split; [by eexists|done]|done|by right]|congruence].
Qed.

Lemma CreateAccount_spec ac l l' r : ledger_wf l →
  CreateAccount decode_account ac l = (l', r) → ledger_wf l' ∧ txs_of l' = txs_of l ∧
  blocksColl l' = blocksColl l ∧ currentHeight l' = currentHeight l.
Proof.
  intros Hw. unfold CreateAccount. destruct (Decode _ _) as [a|e]; [by intros [= <- <-]|].
  destruct e; try (by intros [= <- <-]).
  destruct (InsertOne _ _ _ _) as [c r0] eqn:Hi. intros [= <- <-].
  eapply (insert_keyed ad_address) in Hi as [Hk _]; [|apply Hw|done].
  split; [destruct Hw; by split|done].
Qed.

Lemma UpdateAccount_spec ac l l' r : ledger_wf l → UpdateAccount ac l = (l', r) →
  ledger_wf l' ∧ blocksColl l' = blocksColl l ∧ currentHeight l' = currentHeight l.
Proof.
  intros Hw. unfold UpdateAccount. destruct (UpdateOne _ _ _) as [c r0] eqn:Hu. intros [= <- <-].
  eapply (update_key ad_address) in Hu as [Hk _]; [|apply Hw|done].
  split; [destruct Hw; by split|done].
Qed.

Lemma mark_all_spec n txs : ∀ c c' : Coll string TxDoc, keyed td_txHash c →
  mark_all n txs c = (c', Ok ()) → keyed td_txHash c' ∧
  ∀ id, docs c' !! id = (if decide (id ∈ tx_ID <$> txs) then mark_committed n else λ d, d) <$> docs c !! id.
Proof.
  induction txs as [|tx txs IH]; intros c c' Hk; cbn [mark_all].
  { intros [= <-]. split; [done|]. intros id. rewrite decide_False by apply not_elem_of_nil.
    by destruct (docs c !! id). }
  destruct (UpdateOne _ _ _) as [c1 r] eqn:Hu.
  destruct (update_key td_txHash _ _ (tx_ID tx) (mark_committed n) _ Hk (λ _, eq_refl) Hu) as [Hk1 Hr].
  destruct r as [b|e]; [|done]. intros Hm. destruct (IH _ _ Hk1 Hm) as [Hk' Hd].
  split; [done|]. intros id. rewrite Hd, fmap_cons.
  assert (docs c1 = alter (mark_committed n) (tx_ID tx) (docs c)) as ->.
  { destruct Hr as [(Hb & He & Hn)|(_ & _ & He)]; [|done]. rewrite He.
    symmetry. apply map_eq. intros j. destruct (decide (j = tx_ID tx)) as [->|];
      [|by rewrite lookup_alter_ne]. rewrite lookup_alter_eq.
    destruct b; [done|]. by rewrite Hn. }
  destruct (decide (id = tx_ID tx)) as [->|Hne].
  - rewrite lookup_alter_eq, (decide_True (P := _ ∈ _ :: _)) by apply list_elem_of_here.
    destruct (docs c !! tx_ID tx); [|done]. cbn. by destruct (decide _).
  - rewrite lookup_alter_ne by done. f_equal.
    destruct (decide (id ∈ tx_ID <$> txs)) as [Hin|Hin];
      [by rewrite decide_True by (by right)|].
    rewrite decide_False; [done|]. by intros [->|Hin']%elem_of_cons.
Qed.

(** What a block does to the documents, when it is committed. *)
Definition block_done (block : Block) l l' : Prop :=
  blocks_of l !! Some (bk_Number block) = None ∧
  blocks_of l' = <[Some (bk_Number block) := block_doc block]> (blocks_of l) ∧
  ∀ id, txs_of l' !! id =
    (if decide (id ∈ tx_ID <$> bk_Transactions block) then mark_committed (bk_Number block) else λ d, d)
      <$> txs_of l !! id.

Lemma CommitBlock_spec ss block l l' r : ledger_wf l → CommitBlock ss block l = (l', r) →
  ledger_wf l' ∧ accountsColl l' = accountsColl l ∧ snapshotsColl l' = snapshotsColl l ∧
  (block_done block l l' ∨ (blocksColl l' = blocksColl l ∧ transactionsColl l' = transactionsColl l)) ∧
  (r = Ok () → block_done block l l') ∧
  (ss_landed ss = false → r ≠ Ok () →
    blocksColl l' = blocksColl l ∧ transactionsColl l' = transactionsColl l) ∧
  currentHeight l ≤ currentHeight l' ∧
  (block_done block l l' → currentHeight l' = Z.max (currentHeight l) (bk_Number block)).
Proof.
  intros Hw. unfold CommitBlock.
  assert (∀ e : LedgerError E, (l, Err e) = (l', r) → ledger_wf l' ∧ accountsColl l' = accountsColl l ∧
    snapshotsColl l' = snapshotsColl l ∧
    (block_done block l l' ∨ (blocksColl l' = blocksColl l ∧ transactionsColl l' = transactionsColl l)) ∧
    (r = Ok () → block_done block l l') ∧ (ss_landed ss = false → r ≠ Ok () →
    blocksColl l' = blocksColl l ∧ transactionsColl l' = transactionsColl l) ∧
    currentHeight l ≤ currentHeight l' ∧
    (block_done block l l' → currentHeight l' = Z.max (currentHeight l) (bk_Number block))) as Hstop.
  { intros e [= <- <-]. split_and!; try done; [by right|]. intros (Hn & Hi & _).
    exfalso. rewrite Hi, lookup_insert_eq in Hn. done. }
  destruct (ss_start ss); [apply Hstop|]. destruct (ss_begin ss); [apply Hstop|].
  destruct (InsertOne _ _ _ _) as [bl [[]|e]] eqn:Hi; [|apply Hstop].
  destruct (mark_all _ _ _) as [tx [[]|e]] eqn:Hm; [|apply Hstop]. clear Hstop. cbv zeta.
  destruct (insert_keyed bd_blockHeight _ _ _ (block_doc block) _ (lw_blocks l Hw) eq_refl Hi)
    as (Hkb & Hno & Hbl).
  destruct (mark_all_spec _ _ _ _ (lw_txs l Hw) Hm) as [Hkt Htx].
  set (l1 := if currentHeight l <? bk_Number block then _ else _).
  assert (Hl1 : ∃ h, l1 = set_height h l ∧ h = Z.max (currentHeight l) (bk_Number block)).
  { unfold l1. destruct (Z.ltb_spec (currentHeight l) (bk_Number block)).
    - eexists. split; [done|lia].
    - exists (currentHeight l). split; [by destruct l|lia]. }
  destruct Hl1 as (h & -> & Hh).
  assert (block_done block l (set_transactions tx (set_blocks bl (set_height h l)))) as Hdone by by split.
  destruct (ss_commit ss) as [e|]; [destruct (ss_landed ss)|]; intros [= <- <-];
    (split_and!; [by destruct Hw; split|done|done|by auto|by auto|by auto|cbn; lia|]);
    by intros.
Qed.

(** ** Heights *)

(** No block document of the ledger is above the current height. *)
Definition height_bound l : Prop :=
  ∀ k d h, blocks_of l !! k = Some d → bd_blockHeight d = Some h → h ≤ currentHeight l.

Lemma NewMongoLedger_bound connect indexes l l' :
  NewMongoLedger connect indexes l = Ok l' → height_bound l' ∧ blocksColl l' = blocksColl l.
Proof.
  unfold NewMongoLedger, getCurrentHeightFromDB. destruct connect; [done|]. destruct indexes; [done|].
  destruct (FindMax _ _) as [d| |e] eqn:Hf; [|intros [= <-]|done].
  - destruct (bd_blockHeight d) as [m|] eqn:Hm; [|done]. intros [= <-]. split; [|done].
    apply FindMax_found in Hf as [_ Hmax]. intros k d' h Hd Hh.
    destruct (Hmax k d' h Hd Hh) as (m' & Hm' & Hle). cbn. congruence.
  - split; [|done]. apply FindMax_none in Hf. intros k d h Hd. cbn in Hd. by rewrite Hf in Hd.
Qed.

(** The driver, as documented, decodes the documents within a [bson.M] as
    [bson.M]. *)
Definition nested_is_bson (decode_nested : gmap string AccountDoc → doc_value) : Prop :=
  ∀ m, decode_nested m = BsonM m.

(** Then no restoration ever succeeds, nor changes anything. *)
Lemma RestoreSnapshot_refused decode_nested order h l : nested_is_bson decode_nested →
  RestoreSnapshot decode_nested order h l
    = (l, Err (match FindOne (by_snapshot h) (snapshotsColl l) with
               | Found _ => LErrStateData
               | _ => LErrSnapshot h
               end)).
Proof. intros Ha. unfold RestoreSnapshot. destruct (FindOne _ _); [|done..]. by rewrite Ha. Qed.

(** Every operation of the ledger and of the store that writes. *)
Inductive ledger_step (decode_nested : gmap string AccountDoc → doc_value) : MongoLedger Coll → MongoLedger Coll → Prop :=
| ls_create ac l : ledger_step decode_nested l (CreateAccount decode_account ac l).1
| ls_update ac l : ledger_step decode_nested l (UpdateAccount ac l).1
| ls_balance id x l : ledger_step decode_nested l (UpdateAccountBalance id x l).1
| ls_tx tx l : ledger_step decode_nested l (AddTransaction decode_tx tx l).1
| ls_block ss block l : ledger_step decode_nested l (CommitBlock ss block l).1
| ls_snapshot marshal now h l : ledger_step decode_nested l (CreateSnapshot marshal now h l).1
| ls_deploy sc l : ledger_step decode_nested l (DeploySmartContract sc l).1
| ls_remove id l : ledger_step decode_nested l (RemoveSmartContract id l).1
| ls_restore order h l : ledger_step decode_nested l (RestoreSnapshot decode_nested order h l).1
| ls_save block l : ledger_step decode_nested l (SaveBlock block l).1.

Lemma block_done_bound block l l' : height_bound l → block_done block l l' →
  currentHeight l' = Z.max (currentHeight l) (bk_Number block) → height_bound l'.
Proof.
  intros Hb (_ & Hd & _) Hh k d h. rewrite Hd, lookup_insert_Some, Hh.
  intros [[_ <-]|[_ Hk]] Hbd; [injection Hbd as <-; lia|]. pose proof (Hb _ _ _ Hk Hbd). lia.
Qed.

Lemma bound_same l l' : height_bound l → blocks_of l' = blocks_of l →
  currentHeight l ≤ currentHeight l' → height_bound l'.
Proof. intros Hb He Hh k d h Hd Hbd. rewrite He in Hd. pose proof (Hb _ _ _ Hd Hbd). lia. Qed.

Lemma ledger_step_inv decode_nested l l' : nested_is_bson decode_nested →
  ledger_wf l ∧ height_bound l → ledger_step decode_nested l l' → ledger_wf l' ∧ height_bound l'.
Proof.
  intros Ha [Hw Hb].
  destruct 1 as [ac l|ac l|id x l|tx l|ss block l|ms now h l|sc l|id l|order h l|block l].
  9: by rewrite RestoreSnapshot_refused.
  - destruct (CreateAccount decode_account ac l) as [l' r] eqn:Hop; cbn [fst].
    destruct (CreateAccount_spec _ _ _ _ Hw Hop) as (? & _ & Hbl & Hh).
    split; [done|]. eapply bound_same; [done|by rewrite Hbl|lia].
  - destruct (UpdateAccount ac l) as [l' r] eqn:Hop; cbn [fst].
    destruct (UpdateAccount_spec _ _ _ _ Hw Hop) as (? & Hbl & Hh).
    split; [done|]. eapply bound_same; [done|by rewrite Hbl|lia].
  - destruct (UpdateAccountBalance id x l) as [l' r] eqn:Hop; cbn [fst].
    split; [by eapply UpdateAccountBalance_spec|]. unfold UpdateAccountBalance in Hop.
    destruct (UpdateOne _ _ _). by injection Hop as <- _.
  - destruct (AddTransaction decode_tx tx l) as [l' r] eqn:Hop; cbn [fst].
    split; [by eapply AddTransaction_doc|]. unfold AddTransaction in Hop.
    destruct (Decode _ _) as [|[]]; try (by injection Hop as <- _).
    destruct (InsertOne _ _ _ _). by injection Hop as <- _.
  - destruct (CommitBlock ss block l) as [l' r] eqn:Hop; cbn [fst].
    destruct (CommitBlock_spec _ _ _ _ _ Hw Hop) as (? & _ & _ & Hcase & _ & _ & Hle & Hmax).
    split; [done|]. destruct Hcase as [Hd|[He _]].
    + by eapply block_done_bound; auto.
    + eapply bound_same; [done|by rewrite He|done].
  - unfold CreateSnapshot. destruct (FindAll _); [|done].
    destruct (InsertOne _ _ _ _) as [c r] eqn:Hi.
    eapply (insert_keyed sd_blockHeight) in Hi as [Hk _]; [|apply Hw|done].
    split; [destruct Hw; by split|done].
  - unfold DeploySmartContract. destruct (InsertOne _ _ _ _) as [c r] eqn:Hi.
    eapply (insert_keyed sc_ID) in Hi as [Hk _]; [|apply Hw|done].
    split; [destruct Hw; by split|done].
  - unfold RemoveSmartContract. destruct (DeleteOne _ _) as [c r] eqn:Hd.
    split; [|done]. destruct Hw. split; try done. intros k d Hk.
    apply DeleteOne_docs in Hd as [[He _]|(k' & _ & _ & _ & He)]; cbn in Hk; rewrite He in Hk;
      [by eapply lw_contracts0|]. apply lookup_delete_Some in Hk as [_ Hk]. by eapply lw_contracts0.
  - unfold SaveBlock. destruct (InsertOne _ _ _ _) as [c r] eqn:Hi.
    pose proof (InsertOne_docs _ _ _ _ _ Hi) as Hr.
    eapply (insert_keyed bd_blockHeight) in Hi as [Hk _]; [|apply Hw|done].
    split; [destruct Hw; by split|]. intros k d h Hd Hh. cbn in Hd |- *.
    assert (docs c = docs (blocksColl l) ∨
      docs c = <[None := StoreBlock block]> (docs (blocksColl l))) as [He|He]
      by (destruct r; naive_solver); rewrite He in Hd; [by eapply Hb|].
    apply lookup_insert_Some in Hd as [[_ <-]|[_ Hd]]; [done|by eapply Hb].
Qed.
End facts.

(** ** Settlement *)

Section settlement.
Context {Coll : Type → Type → Type} {E T : Type} `{DriverLaws Coll E, NonceTrackerLaws T}.
Variable decode_tx : TxDoc → option Transaction.
#[local] Instance api_here : LedgerAPI (MongoLedger Coll) (LedgerError E) := mongo_ledger_api decode_tx.
Implicit Types tm : TransactionManager T (MongoLedger Coll).

Abbreviation accts l := (docs (accountsColl l)).
Abbreviation txs_of l := (docs (transactionsColl l)).

Definition debited (tx : Transaction) : gmap string AccountDoc → gmap string AccountDoc :=
  alter (inc_balance (f_neg (f_add (tx_Amount tx) (tx_Fee tx)))) (tx_Sender tx).
Definition credited (tx : Transaction) : gmap string AccountDoc → gmap string AccountDoc :=
  alter (inc_balance (tx_Amount tx)) (tx_Receiver tx).

(** What a settlement leaves of the accounts [A] and the transactions [X]. *)
Definition settlement (tx : Transaction) (l l' : MongoLedger Coll) (ok : bool) : Prop :=
  let A := accts l in let A' := accts l' in let X := txs_of l in let X' := txs_of l' in
  (ok = true → X !! tx_ID tx = None ∧ X' = <[tx_ID tx := tx_doc tx]> X ∧
     is_Some (A !! tx_Sender tx) ∧ is_Some (A !! tx_Receiver tx) ∧
     A' = credited tx (debited tx A)) ∧
  (ok = false → (A' = A ∨ A' = debited tx A ∨ A' = credited tx (debited tx A)) ∧
     (X' = X ∨ X !! tx_ID tx = None ∧ X' = <[tx_ID tx := tx_doc tx]> X)) ∧
  (A !! tx_Sender tx = None → ok = false ∧ A' = A) ∧
  (A !! tx_Receiver tx = None → ok = false ∧ (A' = A ∨ A' = debited tx A)).

Lemma commit_on_mongo clk tx tm : ledger_wf (ledger tm) →
  ledger_wf (ledger (commit_tx (LE := LedgerError E) clk tx tm).1) ∧
  settlement tx (ledger tm) (ledger (commit_tx (LE := LedgerError E) clk tx tm).1)
    (is_Ok (commit_tx (LE := LedgerError E) clk tx tm).2).
Proof.
  intros Hw. unfold commit_tx. cbn [ledger_AddTransaction ledger_UpdateAccountBalance api_here mongo_ledger_api].
  destruct (AddTransaction decode_tx (set_Status "committed" tx) (ledger tm)) as [l1 r1] eqn:H1'.
  destruct (AddTransaction_doc _ _ _ _ _ Hw H1') as (Hw1 & HA1 & HX1).
  destruct r1 as [[]|e1]; cbn [fst snd ledger set_ledger is_Ok].
  2:{ split; [done|]. unfold settlement. rewrite HA1. split_and!; try done; [|by auto..].
      intros _. split; [by left|exact HX1]. }
  unfold updateBalances.
  cbn [ledger_UpdateAccountBalance api_here mongo_ledger_api tx_Sender tx_Receiver tx_Amount tx_Fee set_Status].
  destruct (UpdateAccountBalance (tx_Sender tx) _ l1) as [l2 r2] eqn:H2'.
  destruct (UpdateAccountBalance_spec _ _ _ _ _ Hw1 H2') as (Hw2 & HX2 & HA2 & Hn2).
  rewrite HA1 in HA2, Hn2.
  change (tx_ID (set_Status "committed" tx)) with (tx_ID tx) in HX1.
  change (tx_doc (set_Status "committed" tx)) with (tx_doc tx) in HX1.
  destruct r2 as [[]|e2]; cbn [fst snd ledger set_ledger is_Ok].
  2:{ split; [done|]. unfold settlement. rewrite HX2. split_and!; try done.
      - intros _. split; [destruct HA2 as [->| ->]; auto|by right].
      - by auto. }
  destruct HA2 as [Hs HA2].
  destruct (UpdateAccountBalance (tx_Receiver tx) (tx_Amount tx) l2) as [l3 r3] eqn:H3'.
  destruct (UpdateAccountBalance_spec _ _ _ _ _ Hw2 H3') as (Hw3 & HX3 & HA3 & Hn3).
  fold (debited tx) in HA2. rewrite HA2 in HA3, Hn3.
  assert (∀ i, is_Some (debited tx (accts (ledger tm)) !! i) ↔ is_Some (accts (ledger tm) !! i)) as Hdom.
  { intros i. unfold debited. destruct (decide (i = tx_Sender tx)) as [->|];
      [rewrite lookup_alter_eq; apply fmap_is_Some|by rewrite lookup_alter_ne]. }
  destruct r3 as [[]|e3]; cbn [fst snd ledger set_ledger set_stats is_Ok]; (split; [done|]);
    unfold settlement; rewrite HX3, HX2.
  - destruct HA3 as [Hr HA3]. apply Hdom in Hr. split_and!; try done.
    + intros _. destruct HX1. by split_and!.
    + intros Hn. rewrite Hn in Hs. by destruct Hs.
    + intros Hn. rewrite Hn in Hr. by destruct Hr.
  - split_and!; try done.
    + intros _. split; [|by right]. destruct HA3 as [->| ->]; auto.
    + intros Hn. rewrite Hn in Hs. by destruct Hs.
    + intros Hn. split; [done|]. right. apply Hn3.
      destruct (debited tx _ !! tx_Receiver tx) eqn:Hd; [|done].
      destruct (proj1 (Hdom (tx_Receiver tx))) as [? Hx]; [by eexists|]. by rewrite Hn in Hx.
Qed.

(** The transaction the replay check lets through is handed to the commit
    steps, out of the pool. *)
Lemma process_commits clk txID tm tx : pool_wf (tm_pool tm) → passes txID tm = Some tx →
  ∃ p t, ProcessTransaction (LE := LedgerError E) clk txID tm
      = Some (commit_tx clk tx (set_pool p (set_tracker t tm))) ∧
    lookup_tx p txID = None.
Proof.
  intros Hp Hpass. pose proof (passes_spec _ _ _ Hpass) as [Hl Hn].
  unfold ProcessTransaction, GetTransaction. rewrite Hl.
  destruct (ReplayProtection_spec tx tm) as (t & r & -> & Hr). rewrite decide_True in Hr by done.
  destruct Hr as [-> _]. rewrite (lookup_tx_id _ _ _ Hp Hl).
  pose proof (RemoveTransaction_spec txID (tm_pool tm) Hp) as Hs.
  destruct (RemoveTransaction txID (tm_pool tm)) as [[p [[]|e]]|]; [| |done].
  - destruct Hs as (_ & Hrem & _). apply removed_other in Hrem as [Hgone _].
    exists p, t. split; [done|exact Hgone].
  - destruct Hs as (_ & _ & Hh). by rewrite (lookup_has _ _ _ Hl) in Hh.
Qed.

(** C9: settlement in the database, every outcome of every operation of the
    driver included.  Processing a transaction with the next nonce takes it
    out of the pool whatever happens.  If it succeeds, the transaction is a
    new document, marked pending, and exactly the two accounts changed, by
    the amount and by the amount and fee.  If it fails, the accounts may have
    been left as they were, debited only, or changed as for a success.  A
    sender unknown to the database makes it fail with no balance changed; a
    receiver unknown to it makes it fail too, and then the sender may have
    paid. *)
Theorem settlement_outcomes clk txID tm tx : pool_wf (tm_pool tm) → ledger_wf (ledger tm) →
  passes txID tm = Some tx →
  ∃ tm' r, ProcessTransaction (LE := LedgerError E) clk txID tm = Some (tm', r) ∧
    lookup_tx (tm_pool tm') txID = None ∧ ledger_wf (ledger tm') ∧
    settlement tx (ledger tm) (ledger tm') (is_Ok r).
Proof.
  intros Hp Hw Hpass. destruct (process_commits clk _ _ _ Hp Hpass) as (p & t & -> & Hgone).
  destruct (commit_on_mongo clk tx (set_pool p (set_tracker t tm)) Hw) as [Hw' Hs].
  pose proof (commit_tx_spec clk tx (set_pool p (set_tracker t tm))) as (tm' & r & Heq & _ & Hpool & _).
  rewrite Heq in *. cbn [fst snd] in Hw', Hs. exists tm', r. split_and!; try done. by rewrite Hpool.
Qed.
End settlement.

(** ** Blocks, heights, snapshots *)

Section properties.
Context {Coll : Type → Type → Type} {E : Type} `{DriverLaws Coll E}.
Variable decode_account : AccountDoc → option Account.
Variable decode_tx : TxDoc → option Transaction.
Implicit Types l : MongoLedger Coll.

(** C16: committing a block is atomic.  A commit that answers success stored
    the block, under a number that was free, and marked those of its
    transactions the database has, and no others, as committed in it; a
    failure whose commit did not land left blocks and transactions alone.
    Whatever happened, one of the two is the case, accounts and snapshots are
    untouched, and the height does not go down. *)
Theorem CommitBlock_atomic ss block l : ledger_wf l →
  let l' := (CommitBlock ss block l).1 in let r := (CommitBlock ss block l).2 in
  ledger_wf l' ∧ accountsColl l' = accountsColl l ∧ snapshotsColl l' = snapshotsColl l ∧
  (block_done block l l' ∨ (blocksColl l' = blocksColl l ∧ transactionsColl l' = transactionsColl l)) ∧
  (r = Ok () → block_done block l l') ∧
  (ss_landed ss = false → r ≠ Ok () →
    blocksColl l' = blocksColl l ∧ transactionsColl l' = transactionsColl l) ∧
  currentHeight l ≤ currentHeight l'.
Proof.
  intros Hw. cbv zeta. destruct (CommitBlock ss block l) as [l' r] eqn:Hc. cbn [fst snd].
  destruct (CommitBlock_spec _ _ _ _ _ Hw Hc) as (? & ? & ? & ? & ? & ? & ? & _). by split_and!.
Qed.

(** C37: a ledger opened on any database knows a height that no stored block
    exceeds, and keeps knowing one through every sequence of its writes and
    of the store's, whatever of them fails.  RestoreSnapshot would set the
    height back, but never gets there with the driver as documented. *)
Theorem heights_bounded decode_nested connect indexes l0 l l' : nested_is_bson decode_nested →
  ledger_wf l0 → NewMongoLedger connect indexes l0 = Ok l →
  star (ledger_step decode_account decode_tx decode_nested) l l' →
  ledger_wf l' ∧ height_bound l'.
Proof.
  intros Ha Hw Hnew Hst. destruct (NewMongoLedger_bound _ _ _ _ Hnew) as [Hb Hbl].
  assert (ledger_wf l) as Hwl.
  { unfold NewMongoLedger in Hnew. destruct connect; [done|]. destruct indexes; [done|].
    destruct (getCurrentHeightFromDB l0); [|done]. injection Hnew as <-. destruct Hw. by split. }
  apply (star_invariant (ledger_step decode_account decode_tx decode_nested)
    (λ l, ledger_wf l ∧ height_bound l)) with l; [|by split|done].
  intros l1 l2 H1. by apply ledger_step_inv.
Qed.

End properties.

(** ** A database in memory *)

Record mem (K D : Type) := mkMem { mem_list : list (K * D); mem_nodup : NoDup mem_list.*1 }.
Arguments mkMem {K D}.
Arguments mem_list {K D} m.
Arguments mem_nodup {K D} m.

Fixpoint update_first {K D} (p : D → bool) (f : D → D) (l : list (K * D)) : list (K * D) * bool :=
  match l with
  | [] => ([], false)
  | (k, d) :: l => if p d then ((k, f d) :: l, true)
                   else let '(l, b) := update_first p f l in ((k, d) :: l, b)
  end.
Fixpoint delete_first {K D} (p : D → bool) (l : list (K * D)) : list (K * D) :=
  match l with
  | [] => []
  | (k, d) :: l => if p d then l else (k, d) :: delete_first p l
  end.
Fixpoint put {K D} `{EqDecision K} (k : K) (d : D) (l : list (K * D)) : list (K * D) :=
  match l with
  | [] => [(k, d)]
  | (j, x) :: l => if decide (k = j) then (k, d) :: l else (j, x) :: put k d l
  end.
Fixpoint max_first {D} (f : D → option Z) (best : D) (l : list D) : D :=
  match l with
  | [] => best
  | d :: l => max_first f (match f best, f d with
                           | Some b, Some z => if b <? z then d else best
                           | None, Some _ => d
                           | _, None => best
                           end) l
  end.

Lemma update_first_keys {K D} p f (l : list (K * D)) : (update_first p f l).1.*1 = l.*1.
Proof.
  induction l as [|[k d] l IH]; [done|]. cbn. destruct (p d); [done|].
  destruct (update_first p f l). cbn in *. by f_equal.
Qed.
Lemma delete_first_sub {K D} p (l : list (K * D)) k : k ∈ (delete_first p l).*1 → k ∈ l.*1.
Proof.
  induction l as [|[j d] l IH]; [done|]. cbn. destruct (p d); [by right|].
  intros [->|Hj]%elem_of_cons; [left|right; auto].
Qed.
Lemma delete_first_keys {K D} p (l : list (K * D)) : NoDup l.*1 → NoDup (delete_first p l).*1.
Proof.
  induction l as [|[k d] l IH]; [done|]. cbn. intros [Hk Hn]%NoDup_cons.
  destruct (p d); [done|]. cbn. constructor; [|auto]. by intros ?%delete_first_sub.
Qed.
Lemma put_keys {K D} `{EqDecision K} k (d : D) (l : list (K * D)) j :
  j ∈ (put k d l).*1 ↔ j = k ∨ j ∈ l.*1.
Proof.
  induction l as [|[i x] l IH]; cbn; [rewrite list_elem_of_singleton; set_solver|].
  destruct (decide (k = i)) as [->|]; cbn; rewrite !elem_of_cons; [naive_solver|].
  rewrite IH. naive_solver.
Qed.
Lemma put_nodup {K D} `{EqDecision K} k (d : D) (l : list (K * D)) : NoDup l.*1 → NoDup (put k d l).*1.
Proof.
  induction l as [|[i x] l IH]; cbn; [intros _; apply NoDup_singleton|].
  intros [Hi Hn]%NoDup_cons. destruct (decide (k = i)) as [->|]; cbn; constructor; auto.
  rewrite put_keys. naive_solver.
Qed.

Definition mem_put {K D} `{EqDecision K} (k : K) (d : D) (c : mem K D) : mem K D :=
  mkMem (put k d (mem_list c)) (put_nodup k d _ (mem_nodup c)).
Definition mem_update {K D} p (f : D → D) (c : mem K D) : mem K D :=
  mkMem (update_first p f (mem_list c)).1 (eq_ind_r NoDup (mem_nodup c) (update_first_keys p f _)).
Definition mem_delete {K D} p (c : mem K D) : mem K D :=
  mkMem (delete_first p (mem_list c)) (delete_first_keys p _ (mem_nodup c)).

#[export] Instance mem_driver : Driver mem () := {
  FindOne K D p c := match find p (mem_list c).*2 with Some d => Found d | None => NoDocuments end;
  FindMax K D f c := match (mem_list c).*2 with [] => NoDocuments | d :: l => Found (max_first f d l) end;
  FindAll K D c := Ok (mem_list c).*2;
  CountDocuments K D c := Ok (Z.of_nat (length (mem_list c)));
  InsertOne K D _ k d c :=
    if decide (k ∈ (mem_list c).*1) then (c, Err ()) else (mem_put k d c, Ok ());
  UpdateOne K D p f c := (mem_update p f c, Ok (update_first p f (mem_list c)).2);
  DeleteOne K D p c := (mem_delete p c, Ok ());
  BulkReplace K D _ l c := (foldl (λ c kd, mem_put kd.1 kd.2 c) c l, Ok ()) }.

Definition mem_docs {K D} `{Countable K} (c : mem K D) : gmap K D := list_to_map (mem_list c).

Lemma mem_docs_Some {K D} `{Countable K} (c : mem K D) k d :
  mem_docs c !! k = Some d ↔ (k, d) ∈ mem_list c.
Proof. symmetry. apply elem_of_list_to_map, mem_nodup. Qed.

Lemma elem_of_values {K D} (l : list (K * D)) d : d ∈ l.*2 ↔ ∃ k, (k, d) ∈ l.
Proof.
  rewrite list_elem_of_fmap. split; [intros ([k x] & -> & Hin); by exists k|].
  intros [k Hin]. by exists (k, d).
Qed.

Lemma put_map {K D} `{Countable K} k (d : D) (l : list (K * D)) :
  list_to_map (put k d l) = <[k := d]> (list_to_map l : gmap K D).
Proof.
  induction l as [|[j x] l IH]; [done|]. cbn [put]. destruct (decide (k = j)) as [->|Hne].
  - cbn. by rewrite insert_insert_eq.
  - cbn. rewrite IH. by apply insert_insert_ne.
Qed.

Lemma update_first_map {K D} `{Countable K} p (f : D → D) (l : list (K * D)) : NoDup l.*1 →
  if (update_first p f l).2
  then ∃ k d, (k, d) ∈ l ∧ p d = true ∧
    list_to_map (update_first p f l).1 = <[k := f d]> (list_to_map l : gmap K D)
  else (update_first p f l).1 = l ∧ ∀ k d, (k, d) ∈ l → p d = false.
Proof.
  induction l as [|[k d] l IH]; intros Hn.
  { split; [done|]. intros k d Hin. by apply elem_of_nil in Hin. }
  cbn in Hn. apply NoDup_cons in Hn as [Hk Hn]. specialize (IH Hn). cbn [update_first].
  destruct (p d) eqn:Hp; cbn [fst snd].
  - exists k, d. split; [left|]. split; [done|]. cbn. by rewrite insert_insert_eq.
  - destruct (update_first p f l) as [l' b]. cbn [fst snd] in *. destruct b.
    + destruct IH as (j & x & Hin & Hx & He). exists j, x. split; [by right|]. split; [done|].
      cbn. rewrite He. apply insert_insert_ne. intros Heq. apply Hk.
      apply list_elem_of_fmap. exists (j, x). by subst.
    + destruct IH as [-> Hno]. split; [done|]. intros j x [Hj|Hj]%elem_of_cons; [congruence|eauto].
Qed.

Lemma delete_first_map {K D} `{Countable K} p (l : list (K * D)) : NoDup l.*1 →
  (∃ k d, (k, d) ∈ l ∧ p d = true ∧
    list_to_map (delete_first p l) = delete k (list_to_map l : gmap K D)) ∨
  (delete_first p l = l ∧ ∀ k d, (k, d) ∈ l → p d = false).
Proof.
  induction l as [|[k d] l IH]; intros Hn.
  { right. split; [done|]. intros k d Hin. by apply elem_of_nil in Hin. }
  cbn in Hn. apply NoDup_cons in Hn as [Hk Hn]. cbn [delete_first].
  destruct (p d) eqn:Hp.
  - left. exists k, d. split; [left|]. split; [done|]. cbn.
    rewrite delete_insert_eq, delete_id; [done|]. by apply not_elem_of_list_to_map_1.
  - destruct (IH Hn) as [(j & x & Hin & Hx & He)|[-> Hno]].
    + left. exists j, x. split; [by right|]. split; [done|]. cbn. rewrite He.
      symmetry. apply delete_insert_ne. intros Heq. apply Hk.
      apply list_elem_of_fmap. exists (j, x). by subst.
    + right. split; [done|]. intros j x [Hj|Hj]%elem_of_cons; [congruence|eauto].
Qed.

Lemma max_first_in {D} (f : D → option Z) l : ∀ b, max_first f b l = b ∨ max_first f b l ∈ l.
Proof.
  induction l as [|d l IH]; intros b; [by left|]. cbn [max_first].
  match goal with |- context [max_first f ?x l] => destruct (IH x) as [->|Hin] end; [|right; by right].
  destruct (f b) as [m|], (f d) as [z|]; try (by left); [|right; left].
  destruct (m <? z); [right; left|by left].
Qed.

Lemma max_first_ge {D} (f : D → option Z) l : ∀ b d z, d ∈ b :: l → f d = Some z →
  ∃ m, f (max_first f b l) = Some m ∧ z ≤ m.
Proof.
  induction l as [|y l IH]; intros b d z Hin Hd; cbn [max_first].
  { apply list_elem_of_singleton in Hin as ->. exists z. split; [done|lia]. }
  assert (∃ m, f (match f b, f y with
      | Some b', Some z' => if b' <? z' then y else b | None, Some _ => y | _, None => b end) = Some m
      ∧ z ≤ m ∨ d ∈ l) as [m Hm].
  { exists (default 0 (f (match f b, f y with
      | Some b', Some z' => if b' <? z' then y else b | None, Some _ => y | _, None => b end))).
    apply elem_of_cons in Hin as [->|[->|Hin]%elem_of_cons]; [left|left|by right]; rewrite Hd.
    - destruct (f y) as [w|] eqn:Hy; [|rewrite Hd; split; [done|cbn; lia]].
      destruct (Z.ltb_spec z w); rewrite ?Hy, ?Hd; (split; [done|cbn; lia]).
    - destruct (f b) as [w|] eqn:Hb; [|rewrite Hd; split; [done|cbn; lia]].
      destruct (Z.ltb_spec w z); rewrite ?Hb, ?Hd; (split; [done|cbn; lia]). }
  destruct Hm as [[Hm Hle]|Hl]; [|eapply IH; [by right|done]].
  destruct (IH _ _ m (list_elem_of_here _ _) Hm) as (m' & ? & ?). exists m'. split; [done|lia].
Qed.

Lemma bulk_docs {K D} `{Countable K} (l : list (K * D)) : ∀ c : mem K D, NoDup l.*1 →
  mem_docs (foldl (λ c kd, mem_put kd.1 kd.2 c) c l) = list_to_map l ∪ mem_docs c.
Proof.
  induction l as [|[k d] l IH]; intros c Hn; [cbn; by rewrite (left_id_L ∅ (∪))|].
  cbn [fmap list_fmap fst snd foldl] in *. apply NoDup_cons in Hn as [Hk Hn]. rewrite IH by done.
  unfold mem_docs at 1. cbn [mem_put mem_list]. rewrite put_map.
  change (list_to_map ((k, d) :: l)) with (<[k := d]> (list_to_map l : gmap K D)).
  rewrite <- insert_union_l. rewrite <- insert_union_r; [done|]. by apply not_elem_of_list_to_map_1.
Qed.

#[export] Instance mem_driver_laws : DriverLaws mem ().
Proof.
  refine {| docs K D _ _ := mem_docs |}; intros K D ? ?.
  - intros p c d. cbn. destruct (find p (mem_list c).*2) eqn:Hf; [|done]. intros [= <-].
    apply find_some in Hf as [Hin%list_elem_of_In Hp]. apply elem_of_values in Hin as [k Hin].
    exists k. by rewrite mem_docs_Some.
  - intros p c k d. cbn. destruct (find p (mem_list c).*2) eqn:Hf; [done|]. intros _.
    rewrite mem_docs_Some. intros Hin. apply (find_none p _ Hf), list_elem_of_In, elem_of_values. by exists k.
  - intros f c d. cbn. destruct (mem_list c).*2 as [|b l] eqn:Hl; [done|]. intros [= <-]. split.
    + destruct (max_first_in f l b) as [He|Hin];
        [assert (max_first f b l ∈ (mem_list c).*2) as Hin by (rewrite Hl, He; left)
        |assert (max_first f b l ∈ (mem_list c).*2) as Hin' by (rewrite Hl; by right); clear Hin; rename Hin' into Hin];
        apply elem_of_values in Hin as [k Hin]; exists k; by rewrite mem_docs_Some.
    + intros k d' z. rewrite mem_docs_Some. intros Hin Hz. apply max_first_ge with d'; [|done].
      rewrite <- Hl. apply elem_of_values. by exists k.
  - intros f c. cbn. destruct (mem_list c) as [|[k d] l] eqn:Hl; [|done]. intros _.
    unfold mem_docs. by rewrite Hl.
  - intros c l. cbn. intros [= <-]. exists (mem_list c). split; [apply mem_nodup|done].
  - intros c n. cbn. intros [= <-]. unfold mem_docs. f_equal.
    rewrite map_size_list_to_map by apply mem_nodup. done.
  - intros k d c c' r. cbn. case_decide as Hk; intros [= <- <-]; [by left|]. split.
    + apply not_elem_of_list_to_map_1. done.
    + unfold mem_docs. cbn [mem_put mem_list]. apply put_map.
  - intros p f c c' r. cbn. intros [= <- <-].
    pose proof (update_first_map p f (mem_list c) (mem_nodup c)) as Hu.
    destruct (update_first p f (mem_list c)) as [l b] eqn:Hl. unfold mem_docs. cbn [mem_update mem_list].
    rewrite Hl. cbn [fst snd] in *. destruct b.
    + right. destruct Hu as (k & d & Hin & Hp & He). split; [done|]. exists k, d.
      split; [by apply mem_docs_Some|]. by split.
    + left. destruct Hu as [-> Hno]. split; [done|]. split; [done|]. intros _ k d Hd.
      apply mem_docs_Some in Hd. by eapply Hno.
  - intros p c c' r. cbn. intros [= <- <-]. unfold mem_docs at 1 3. cbn [mem_delete mem_list].
    destruct (delete_first_map p (mem_list c) (mem_nodup c)) as [(k & d & Hin & Hp & He)|[He Hno]].
    + right. exists k, d. split; [by apply mem_docs_Some|]. split; [done|exact He].
    + left. rewrite He. split; [done|]. intros _ k d Hd. apply mem_docs_Some in Hd. by eapply Hno.
  - intros l c c' r. cbn. intros [= <- <-] Hn. by apply bulk_docs.
Defined.

(** ** Concrete ledgers *)

Definition mem_empty {K D} : mem K D := mkMem [] (NoDup_nil_2).
Definition ledger_empty : MongoLedger mem :=
  mkLedger mem_empty mem_empty mem_empty mem_empty mem_empty 0.
Definition decode_account0 (d : AccountDoc) : option Account :=
  Some (blank_account (ad_address d) (ad_publicKey d) (ad_balance d) 0 0).
Definition decode_tx0 (d : TxDoc) : option Transaction :=
  Some (mkTx (td_txHash d) (td_from d) (td_to d) (td_amount d) (td_timestamp d) (td_signature d) 0
          f_zero 0 "" [] (td_nonce d) "" (td_blockHeight d) (td_status d)).
Definition open_account (id : string) (balance : Z) (l : MongoLedger mem) : MongoLedger mem :=
  (CreateAccount decode_account0 (blank_account id [x01] (f_of_Z balance) 0 0) l).1.

(** Alice is known to the database, Bob is not. *)
Definition ledger_alice : MongoLedger mem := open_account "alice" 100 ledger_empty.

Lemma ledger_empty_wf : ledger_wf ledger_empty.
Proof. split; intros k d Hd; by rewrite mem_docs_Some in Hd; apply elem_of_nil in Hd. Qed.
Lemma open_account_wf id z l : ledger_wf l → ledger_wf (open_account id z l).
Proof.
  intros Hw. unfold open_account.
  destruct (CreateAccount decode_account0 (blank_account id [x01] (f_of_Z z) 0 0) l) as [l' r] eqn:Hc.
  by destruct (CreateAccount_spec _ _ _ _ _ Hw Hc).
Qed.
Lemma ledger_alice_wf : ledger_wf ledger_alice.
Proof. apply open_account_wf, ledger_empty_wf. Qed.

Definition manager_mongo : TransactionManager DefaultNonceTracker (MongoLedger mem) :=
  set_pool pool_sample (NewTransactionManager pool_empty f_zero true ledger_alice).
Definition tx_t1 : Transaction := pool_tx_sample "t1" 1 1 900.
Definition settled0 : option (TransactionManager DefaultNonceTracker (MongoLedger mem) *
    result (ManagerError (LedgerError ())) ()) :=
  ProcessTransaction (H0 := mongo_ledger_api decode_tx0) sample_clock "t1" manager_mongo.

(** Bob being unknown, Alice pays six and nobody receives; a second attempt
    finds nothing in the pool, and the transaction counts as committed. *)
Example receiver_unknown :
  (λ p, (is_Ok p.2, GetBalance decode_account0 "alice" (ledger p.1),
         IsTransactionCommitted decode_tx0 "t1" (ledger p.1))) <$> settled0
  = Some (false, Ok (f_of_Z 94), true).
Proof. vm_compute. reflexivity. Qed.

Lemma settlement_outcomes_witness :
  passes "t1" manager_mongo = Some tx_t1 ∧
  ∃ tm' r, settled0 = Some (tm', r) ∧
    lookup_tx (tm_pool tm') "t1" = None ∧ ledger_wf (ledger tm') ∧
    settlement tx_t1 (ledger manager_mongo) (ledger tm') (is_Ok r).
Proof.
  split; [by vm_compute|].
  apply (settlement_outcomes decode_tx0 sample_clock "t1" manager_mongo tx_t1).
  - apply pool_sample_wf.
  - apply ledger_alice_wf.
  - by vm_compute.
Defined.

Definition block0 : Block := mkBlock 3 "" "h3" [tx_t1] 1000 "" "" "" "" [] [] [] [].
Definition session0 : Session () := mkSession None None None false.
(** A session whose commit fails. *)
Definition session1 : Session () := mkSession None None (Some ()) false.

Lemma CommitBlock_atomic_witness :
  let l' := (CommitBlock session0 block0 ledger_alice).1 in
  let r := (CommitBlock session0 block0 ledger_alice).2 in
  ledger_wf l' ∧ accountsColl l' = accountsColl ledger_alice ∧
  snapshotsColl l' = snapshotsColl ledger_alice ∧
  (block_done block0 ledger_alice l' ∨ (blocksColl l' = blocksColl ledger_alice ∧
    transactionsColl l' = transactionsColl ledger_alice)) ∧
  (r = Ok () → block_done block0 ledger_alice l') ∧
  (ss_landed session0 = false → r ≠ Ok () →
    blocksColl l' = blocksColl ledger_alice ∧ transactionsColl l' = transactionsColl ledger_alice) ∧
  currentHeight ledger_alice ≤ currentHeight l'.
Proof. apply (CommitBlock_atomic session0 block0 ledger_alice), ledger_alice_wf. Defined.

(** A commit that fails has raised the height all the same. *)
Example height_of_failed_commit :
  let '(l', r) := CommitBlock session1 block0 ledger_alice in
  is_Ok r = false ∧ currentHeight l' = 3 ∧ IntegrityCheck l' = Err LErrNoBlocks.
Proof. by vm_compute. Qed.

(** The store's blocks share the collection but not the field: a ledger that
    finds only such a block does not start. *)
Example store_block_stops_ledger :
  let l := (SaveBlock block0 ledger_empty).1 in
  NewMongoLedger None None l = Err LErrBlockHeight ∧ IntegrityCheck l = Ok () ∧
  (SaveBlock (mkBlock 4 "" "h4" [] 1000 "" "" "" "" [] [] [] []) l).2 = Err (LErrDriver ()).
Proof. by vm_compute. Qed.

Lemma heights_bounded_witness :
  let l' := (CommitBlock session1 block0 ledger_empty).1 in ledger_wf l' ∧ height_bound l'.
Proof.
  apply (heights_bounded decode_account0 decode_tx0 BsonM None None ledger_empty ledger_empty).
  - done.
  - apply ledger_empty_wf.
  - reflexivity.
  - eapply star_snoc; [constructor|apply ls_block].
Defined.

Definition ledger_shot : MongoLedger mem := (CreateSnapshot (λ _, None) 5 2 ledger_alice).1.


(** What the restoration means to do, were the assertion to succeed: the
    accounts are back, those opened since stay, and the height goes back. *)
Example restoration_meant :
  let later := (UpdateAccountBalance "alice" (f_of_Z (-60)) (open_account "bob" 1 ledger_shot)).1 in
  let l := (RestoreSnapshot GoMap ["alice"] 2 later).1 in
  (docs (accountsColl l) !! "alice" = docs (accountsColl ledger_alice) !! "alice") ∧
  (docs (accountsColl l) !! "bob" = docs (accountsColl later) !! "bob") ∧ currentHeight l = 2.
Proof. by vm_compute. Qed.
