(* ===== verification/Light.v ===== *)
(** * The light node: src/mobile/sqlite_lightnode.go

    Four tables in SQLite.  The database is a parameter: a table is any type
    with the statements the code runs ([Sql]) and their documented meaning
    ([SqlLaws]); a statement may fail.  Rows are records with the columns of
    the schema, where a column of reals is NULL for a NaN, as SQLite stores
    it.  Everything the scans read is typed, so that only a NULL read into a
    float is an error of a scan. *)
From Stdlib Require Import ZArith Lia SpecFloat.
From Stdlib Require Import Strings.Byte Strings.Ascii Strings.String.
From stdpp Require Import numbers prelude gmap strings sorting.
From S2P Require Import Prelude GoFloat Common Accounts Ledger.
Open Scope Z_scope.

(** ** The database *)

(** A table of rows [R] with a primary key in [K]. *)
Class Sql (Table : Type → Type → Type) (E : Type) := {
  CreateTable {K R} : Table K R → Table K R * result E ();
  (** INSERT OR REPLACE *)
  Replace {K R} : EqDecision K → K → R → Table K R → Table K R * result E ();
  (** SELECT ... WHERE, the first row *)
  SelectRow {K R} : (R → bool) → Table K R → found E R;
  (** SELECT ... ORDER BY ... DESC LIMIT 1 *)
  SelectTop {K R} : (R → Z) → Table K R → found E R;
  (** SELECT ... WHERE ... ORDER BY ... DESC: the rows the iteration gives,
      and the error that ended it, if one did. *)
  SelectRows {K R} : (R → bool) → (R → Z) → Table K R → result E (list R * option E);
  (** A float bound to a column of reals. *)
  sql_real : f64 → option f64 }.

Class SqlLaws (Table : Type → Type → Type) (E : Type) `{Sql Table E} := {
  rows {K R} `{Countable K} : Table K R → gmap K R;
  CreateTable_rows {K R} `{Countable K} (t : Table K R) : rows (CreateTable t).1 = rows t;
  Replace_rows {K R} `{Countable K} k r (t t' : Table K R) res :
    Replace _ k r t = (t', res) →
    rows t' = <[k := r]> (rows t) ∨ res ≠ Ok () ∧ rows t' = rows t;
  SelectRow_found {K R} `{Countable K} p (t : Table K R) r :
    SelectRow p t = Found r → ∃ k, rows t !! k = Some r ∧ p r = true;
  SelectRow_none {K R} `{Countable K} p (t : Table K R) k r :
    SelectRow p t = NoDocuments → rows t !! k = Some r → p r = false;
  SelectTop_found {K R} `{Countable K} f (t : Table K R) r :
    SelectTop f t = Found r →
    (∃ k, rows t !! k = Some r) ∧ ∀ k r', rows t !! k = Some r' → f r' ≤ f r;
  SelectTop_none {K R} `{Countable K} f (t : Table K R) :
    SelectTop f t = NoDocuments → rows t = ∅;
  (** An iteration that breaks off has given the beginning of the answer. *)
  SelectRows_rows {K R} `{Countable K} p f (t : Table K R) l err :
    SelectRows p f t = Ok (l, err) → ∃ kl rest, kl.*2 = l ++ rest ∧ NoDup kl.*1 ∧
      (∀ k r, (k, r) ∈ kl ↔ rows t !! k = Some r ∧ p r = true) ∧
      StronglySorted (λ a b, f b ≤ f a) kl.*2 ∧ (err = None → rest = []);
  (** NaN is stored as NULL; the sign of a zero may be lost. *)
  sql_real_nan x : sql_real x = None ↔ f_is_nan x = true;
  sql_real_same x y : sql_real x = Some y → y = x ∨ f_eq x f_zero = true ∧ f_eq y f_zero = true }.

(** ** The schema *)

Record HeaderRow := mkHeaderRow {
  hr_block_number : Z; hr_hash : string; hr_previous_hash : string; hr_timestamp : Z;
  hr_merkle_root : string }.
Record AccountRow := mkAccountRow {
  ar_id : string; ar_public_key : list byte; ar_balance : option f64; ar_nonce : Z }.
Record TxRow := mkTxRow {
  tr_tx_id : string; tr_sender : string; tr_receiver : string; tr_amount : option f64;
  tr_fee : option f64; tr_timestamp : Z; tr_signature : list byte; tr_nonce : Z;
  tr_status : string }.
Record MetaRow := mkMetaRow { mr_key : string; mr_value : string }.

Inductive LightError (E : Type) :=
| QErrDriver (e : E)
| QErrNoRows
| QErrScan
| QErrOpen (e : E)
| QErrSchema (e : E).
Arguments QErrDriver {E} e.
Arguments QErrNoRows {E}.
Arguments QErrScan {E}.
Arguments QErrOpen {E} e.
Arguments QErrSchema {E} e.

(** ** The node *)

Section light.
Context {Table : Type → Type → Type} {E : Type} `{!Sql Table E}.

Record SQLiteLightNode := mkLight {
  block_headers : Table Z HeaderRow;
  accounts : Table string AccountRow;
  transactions : Table string TxRow;
  sync_metadata : Table string MetaRow }.

Definition migrateSchema (s : SQLiteLightNode) : SQLiteLightNode * result E () :=
  let '(h, r1) := CreateTable (block_headers s) in
  let s1 := mkLight h (accounts s) (transactions s) (sync_metadata s) in
  match r1 with
  | Err e => (s1, Err e)
  | Ok _ =>
      let '(a, r2) := CreateTable (accounts s1) in
      let s2 := mkLight h a (transactions s1) (sync_metadata s1) in
      match r2 with
      | Err e => (s2, Err e)
      | Ok _ =>
          let '(t, r3) := CreateTable (transactions s2) in
          let s3 := mkLight h a t (sync_metadata s2) in
          match r3 with
          | Err e => (s3, Err e)
          | Ok _ =>
              let '(m, r4) := CreateTable (sync_metadata s3) in
              (mkLight h a t m, r4)
          end
      end
  end.

(** [open]: the answer of [sql.Open]; [db]: what the file holds. *)
Definition NewSQLiteLightNode (open : option E) (db : SQLiteLightNode) :
    SQLiteLightNode * result (LightError E) () :=
  match open with
  | Some e => (db, Err (QErrOpen e))
  | None =>
      let '(s, r) := migrateSchema db in
      (s, match r with Ok _ => Ok () | Err e => Err (QErrSchema e) end)
  end.

(** What the file holds stays; a statement after it fails. *)
Definition Close (answer : result E ()) (s : SQLiteLightNode) : SQLiteLightNode * result E () :=
  (s, answer).

Definition header_row (header : Block) : HeaderRow :=
  mkHeaderRow (bk_Number header) (bk_Hash header) (bk_PreviousHash header) (bk_Timestamp header)
    (bk_MerkleRoot header).
Definition SaveBlockHeader (header : Block) (s : SQLiteLightNode) : SQLiteLightNode * result E () :=
  let '(t, r) := Replace _ (bk_Number header) (header_row header) (block_headers s) in
  (mkLight t (accounts s) (transactions s) (sync_metadata s), r).

Definition scan_header (r : HeaderRow) : Block :=
  mkBlock (hr_block_number r) (hr_previous_hash r) (hr_hash r) [] (hr_timestamp r)
    EmptyString EmptyString EmptyString (hr_merkle_root r) [] [] [] [].
Definition GetLatestBlockHeader (s : SQLiteLightNode) : result (LightError E) Block :=
  match SelectTop hr_block_number (block_headers s) with
  | Found r => Ok (scan_header r)
  | NoDocuments => Err QErrNoRows
  | Failed e => Err (QErrDriver e)
  end.

Definition account_row (ac : Account) : AccountRow :=
  mkAccountRow (acc_ID ac) (acc_PublicKey ac) (sql_real (acc_Balance ac)) (acc_Nonce ac).
Definition SaveAccount (ac : Account) (s : SQLiteLightNode) : SQLiteLightNode * result E () :=
  let '(t, r) := Replace _ (acc_ID ac) (account_row ac) (accounts s) in
  (mkLight (block_headers s) t (transactions s) (sync_metadata s), r).

Definition scan_account (r : AccountRow) : result (LightError E) Account :=
  match ar_balance r with
  | None => Err QErrScan
  | Some balance =>
      Ok (mkAccount (ar_id r) (ar_public_key r) [] balance false EmptyString EmptyString false 0
            (ar_nonce r) 0 0 f_zero EmptyString)
  end.
Definition GetAccount (accountID : string) (s : SQLiteLightNode) : result (LightError E) Account :=
  match SelectRow (λ r, bool_decide (ar_id r = accountID)) (accounts s) with
  | Found r => scan_account r
  | NoDocuments => Err QErrNoRows
  | Failed e => Err (QErrDriver e)
  end.

(** Whatever the status of the transaction, the row says pending. *)
Definition tx_row (tx : Transaction) : TxRow :=
  mkTxRow (tx_ID tx) (tx_Sender tx) (tx_Receiver tx) (sql_real (tx_Amount tx))
    (sql_real (tx_Fee tx)) (tx_Timestamp tx) (tx_Signature tx) (tx_Nonce tx) "pending".
Definition SaveTransaction (tx : Transaction) (s : SQLiteLightNode) : SQLiteLightNode * result E () :=
  let '(t, r) := Replace _ (tx_ID tx) (tx_row tx) (transactions s) in
  (mkLight (block_headers s) (accounts s) t (sync_metadata s), r).

Definition scan_tx (r : TxRow) : result (LightError E) Transaction :=
  match tr_amount r, tr_fee r with
  | Some amount, Some fee =>
      Ok (mkTx (tr_tx_id r) (tr_sender r) (tr_receiver r) amount (tr_timestamp r) (tr_signature r)
            0 fee 0 EmptyString [] (tr_nonce r) EmptyString 0 (tr_status r))
  | _, _ => Err QErrScan
  end.
Fixpoint scan_all (rs : list TxRow) : result (LightError E) (list Transaction) :=
  match rs with
  | [] => Ok []
  | r :: rs' =>
      match scan_tx r with
      | Err e => Err e
      | Ok tx => match scan_all rs' with Ok txs => Ok (tx :: txs) | Err e => Err e end
      end
  end.
Definition of_account (id : string) (r : TxRow) : bool :=
  bool_decide (tr_sender r = id) || bool_decide (tr_receiver r = id).
(** The error that ended the iteration is not asked for. *)
Definition GetTransactionsForAccount (accountID : string) (s : SQLiteLightNode) :
    result (LightError E) (list Transaction) :=
  match SelectRows (of_account accountID) tr_timestamp (transactions s) with
  | Err e => Err (QErrDriver e)
  | Ok (rs, _) => scan_all rs
  end.

Definition SaveSyncMetadata (key value : string) (s : SQLiteLightNode) : SQLiteLightNode * result E () :=
  let '(t, r) := Replace _ key (mkMetaRow key value) (sync_metadata s) in
  (mkLight (block_headers s) (accounts s) (transactions s) t, r).
Definition GetSyncMetadata (key : string) (s : SQLiteLightNode) : result (LightError E) string :=
  match SelectRow (λ r, bool_decide (mr_key r = key)) (sync_metadata s) with
  | Found r => Ok (mr_value r)
  | NoDocuments => Err QErrNoRows
  | Failed e => Err (QErrDriver e)
  end.

(** The writes, as the calls of a client. *)
Inductive light_op :=
| OpHeader (header : Block)
| OpAccount (ac : Account)
| OpTransaction (tx : Transaction)
| OpMetadata (key value : string).
Definition light_step (op : light_op) : SQLiteLightNode → SQLiteLightNode * result E () :=
  match op with
  | OpHeader b => SaveBlockHeader b
  | OpAccount ac => SaveAccount ac
  | OpTransaction tx => SaveTransaction tx
  | OpMetadata k v => SaveSyncMetadata k v
  end.
Fixpoint light_run (ops : list light_op) (s : SQLiteLightNode) : SQLiteLightNode * list (result E ()) :=
  match ops with
  | [] => (s, [])
  | op :: ops' =>
      let '(s1, r) := light_step op s in
      let '(s2, rs) := light_run ops' s1 in (s2, r :: rs)
  end.
End light.
Arguments SQLiteLightNode Table : clear implicits.

(** * What the node stores *)

(** The specification: the last value saved under each key. *)
Record LightStore := mkStore {
  st_headers : gmap Z Block;
  st_accounts : gmap string Account;
  st_transactions : gmap string Transaction;
  st_metadata : gmap string string }.
Definition spec_step (op : light_op) (m : LightStore) : LightStore :=
  match op with
  | OpHeader b => mkStore (<[bk_Number b := b]> (st_headers m)) (st_accounts m) (st_transactions m) (st_metadata m)
  | OpAccount ac => mkStore (st_headers m) (<[acc_ID ac := ac]> (st_accounts m)) (st_transactions m) (st_metadata m)
  | OpTransaction tx => mkStore (st_headers m) (st_accounts m) (<[tx_ID tx := tx]> (st_transactions m)) (st_metadata m)
  | OpMetadata k v => mkStore (st_headers m) (st_accounts m) (st_transactions m) (<[k := v]> (st_metadata m))
  end.
Definition spec_empty : LightStore := mkStore ∅ ∅ ∅ ∅.

(** The columns of the schema, as the specification fills them. *)
Section stored.
Context {Table : Type → Type → Type} {E : Type} `{!Sql Table E}.
Definition stored_header (b : Block) : HeaderRow :=
  {| hr_block_number := bk_Number b; hr_hash := bk_Hash b; hr_previous_hash := bk_PreviousHash b;
     hr_timestamp := bk_Timestamp b; hr_merkle_root := bk_MerkleRoot b |}.
Definition stored_account (ac : Account) : AccountRow :=
  {| ar_id := acc_ID ac; ar_public_key := acc_PublicKey ac; ar_balance := sql_real (acc_Balance ac);
     ar_nonce := acc_Nonce ac |}.
Definition stored_tx (tx : Transaction) : TxRow :=
  {| tr_tx_id := tx_ID tx; tr_sender := tx_Sender tx; tr_receiver := tx_Receiver tx;
     tr_amount := sql_real (tx_Amount tx); tr_fee := sql_real (tx_Fee tx);
     tr_timestamp := tx_Timestamp tx; tr_signature := tx_Signature tx; tr_nonce := tx_Nonce tx;
     tr_status := "pending" |}.
End stored.

(** What comes back of a saved value: the columns of the schema. *)
Definition pruned_header (b : Block) : Block :=
  mkBlock (bk_Number b) (bk_PreviousHash b) (bk_Hash b) [] (bk_Timestamp b)
    EmptyString EmptyString EmptyString (bk_MerkleRoot b) [] [] [] [].
Definition same_float (x y : f64) : Prop := y = x ∨ f_eq x f_zero = true ∧ f_eq y f_zero = true.
Definition pruned_account (ac ac' : Account) : Prop :=
  ∃ balance, same_float (acc_Balance ac) balance ∧
    ac' = mkAccount (acc_ID ac) (acc_PublicKey ac) [] balance false EmptyString EmptyString false 0
            (acc_Nonce ac) 0 0 f_zero EmptyString.
Definition pruned_tx (tx tx' : Transaction) : Prop :=
  ∃ amount fee, same_float (tx_Amount tx) amount ∧ same_float (tx_Fee tx) fee ∧
    tx' = mkTx (tx_ID tx) (tx_Sender tx) (tx_Receiver tx) amount (tx_Timestamp tx)
            (tx_Signature tx) 0 fee 0 EmptyString [] (tx_Nonce tx) EmptyString 0 "pending".

Definition nan_tx (tx : Transaction) : bool := f_is_nan (tx_Amount tx) || f_is_nan (tx_Fee tx).

Section facts.
Context {Table : Type → Type → Type} {E : Type} `{SqlLaws Table E}.
Implicit Types (s : SQLiteLightNode Table) (m : LightStore).

(** The rows of the tables are those of the values saved under their keys. *)
Record light_rel s m : Prop := {
  lr_headers : rows (block_headers s) = stored_header <$> st_headers m;
  lr_accounts : rows (accounts s) = stored_account <$> st_accounts m;
  lr_transactions : rows (transactions s) = stored_tx <$> st_transactions m;
  lr_metadata : ∀ k, rows (sync_metadata s) !! k = mkMetaRow k <$> st_metadata m !! k }.

(** Every value is saved under its own key. *)
Record store_keyed m : Prop := {
  sk_headers k b : st_headers m !! k = Some b → bk_Number b = k;
  sk_accounts k a : st_accounts m !! k = Some a → acc_ID a = k;
  sk_transactions k t : st_transactions m !! k = Some t → tx_ID t = k }.

Lemma spec_step_keyed op m : store_keyed m → store_keyed (spec_step op m).
Proof.
  intros [Hh Ha Ht]. destruct op; split; cbn; intros j x; rewrite ?lookup_insert_Some; naive_solver.
Qed.

Lemma spec_run_keyed ops : ∀ m, store_keyed m → store_keyed (foldl (flip spec_step) m ops).
Proof. induction ops as [|op ops IH]; intros m Hm; [done|]. by apply IH, spec_step_keyed. Qed.

(** A statement is carried out, or it fails and leaves the rows alone. *)
Lemma light_step_rel op s s' r m : light_rel s m → light_step op s = (s', r) →
  light_rel s' (spec_step op m) ∨ r ≠ Ok () ∧ light_rel s' m.
Proof.
  intros [Hh Ha Ht Hm]. destruct op as [b|ac|tx|k v]; cbn [light_step];
    unfold SaveBlockHeader, SaveAccount, SaveTransaction, SaveSyncMetadata;
    destruct (Replace _ _ _ _) as [t r'] eqn:Hr; intros [= <- <-];
    apply Replace_rows in Hr as [Hr|[Hn Hr]]; (try by right; split; [|split; cbn; rewrite ?Hr]);
    left; split; cbn; rewrite ?Hr, ?fmap_insert, ?Hh, ?Ha, ?Ht; try done.
  intros j. destruct (decide (j = k)) as [->|Hne]; [by rewrite !lookup_insert_eq|].
  by rewrite !lookup_insert_ne.
Qed.

(** The calls of a run that were carried out. *)
Fixpoint carried_out (flags : list bool) (ops : list light_op) : list light_op :=
  match flags, ops with
  | true :: flags', op :: ops' => op :: carried_out flags' ops'
  | false :: flags', _ :: ops' => carried_out flags' ops'
  | _, _ => []
  end.

Lemma light_run_rel ops : ∀ s s' rs m, light_rel s m → light_run ops s = (s', rs) →
  ∃ flags, length flags = length ops ∧
    (∀ i, rs !! i = Some (Ok ()) → flags !! i = Some true) ∧
    light_rel s' (foldl (flip spec_step) m (carried_out flags ops)).
Proof.
  induction ops as [|op ops IH]; intros s s' rs m Hs; cbn [light_run].
  { intros [= <- <-]. by exists []. }
  destruct (light_step op s) as [s1 r] eqn:Hop. destruct (light_run ops s1) as [s2 rs'] eqn:Hrun.
  intros [= <- <-]. destruct (light_step_rel _ _ _ _ _ Hs Hop) as [Hs1|[Hr Hs1]];
    destruct (IH _ _ _ _ Hs1 Hrun) as (flags & Hl & Hok & Hs2).
  - exists (true :: flags). split_and!; [by cbn; rewrite Hl| |done]. by intros [|i]; [|apply Hok].
  - exists (false :: flags). split_and!; [by cbn; rewrite Hl| |done].
    intros [|i]; [|apply Hok]. cbn. congruence.
Qed.

Lemma real_same x y : sql_real x = Some y → same_float x y.
Proof. apply sql_real_same. Qed.

Lemma nan_stored x : f_is_nan x = match sql_real x with None => true | Some _ => false end.
Proof.
  destruct (sql_real x) eqn:Hx; [|by apply sql_real_nan].
  apply not_true_iff_false. rewrite <- sql_real_nan. congruence.
Qed.

Lemma scan_account_row ac :
  match scan_account (E := E) (stored_account ac) with
  | Ok ac' => pruned_account ac ac'
  | Err e => e = QErrScan ∧ f_is_nan (acc_Balance ac) = true
  end.
Proof.
  unfold scan_account, stored_account. cbn. destruct (sql_real (acc_Balance ac)) eqn:Hb.
  - eexists. split; [by apply real_same|done].
  - split; [done|]. by apply sql_real_nan.
Qed.

Lemma scan_tx_row tx :
  match scan_tx (E := E) (stored_tx tx) with
  | Ok tx' => pruned_tx tx tx' ∧ nan_tx tx = false
  | Err e => e = QErrScan ∧ nan_tx tx = true
  end.
Proof.
  unfold scan_tx, stored_tx, nan_tx. cbn. rewrite !nan_stored.
  destruct (sql_real (tx_Amount tx)) eqn:Ha, (sql_real (tx_Fee tx)) eqn:Hf; try done.
  split; [|done]. do 2 eexists. split_and!; [by apply real_same..|done].
Qed.

Lemma scan_all_rows txs :
  match scan_all (E := E) (stored_tx <$> txs) with
  | Ok txs' => Forall2 pruned_tx txs txs' ∧ Forall (λ tx, nan_tx tx = false) txs
  | Err e => e = QErrScan ∧ Exists (λ tx, nan_tx tx = true) txs
  end.
Proof.
  induction txs as [|tx txs IH]; cbn; [by split; constructor|].
  pose proof (scan_tx_row tx) as Hs. destruct (scan_tx (stored_tx tx)) as [tx'|e].
  - destruct (scan_all _) as [txs'|e']; [by split; constructor; destruct IH, Hs|].
    destruct IH as [-> IH]. split; [done|by right].
  - destruct Hs as [-> Hs]. split; [done|by left].
Qed.

(** Every read, on a node that holds the values of [m]. *)
Definition latest_read s m : Prop :=
  match GetLatestBlockHeader s with
  | Ok b => ∃ n b0, st_headers m !! n = Some b0 ∧ b = pruned_header b0 ∧
      ∀ k b', st_headers m !! k = Some b' → k ≤ n
  | Err QErrNoRows => st_headers m = ∅
  | Err e => ∃ d, e = QErrDriver d ∧ SelectTop hr_block_number (block_headers s) = Failed d
  end.
Definition account_read s m id : Prop :=
  match GetAccount id s with
  | Ok a => ∃ a0, st_accounts m !! id = Some a0 ∧ pruned_account a0 a
  | Err QErrNoRows => st_accounts m !! id = None
  | Err QErrScan => ∃ a0, st_accounts m !! id = Some a0 ∧ f_is_nan (acc_Balance a0) = true
  | Err e => ∃ d, e = QErrDriver d ∧
      SelectRow (λ r, bool_decide (ar_id r = id)) (accounts s) = Failed d
  end.
Definition metadata_read s m key : Prop :=
  match GetSyncMetadata key s with
  | Ok v => st_metadata m !! key = Some v
  | Err QErrNoRows => st_metadata m !! key = None
  | Err e => ∃ d, e = QErrDriver d ∧
      SelectRow (λ r, bool_decide (mr_key r = key)) (sync_metadata s) = Failed d
  end.
Definition is_party (id : string) (tx : Transaction) : Prop := tx_Sender tx = id ∨ tx_Receiver tx = id.
(** The rows the database gave are a beginning of the account's transactions,
    newest first; all of them, unless it broke the iteration off. *)
Definition transactions_read s m id : Prop :=
  match SelectRows (of_account id) tr_timestamp (transactions s) with
  | Err d => GetTransactionsForAccount id s = Err (QErrDriver d)
  | Ok (_, err) => ∃ given rest, NoDup (tx_ID <$> given ++ rest) ∧
      (∀ tx, tx ∈ given ++ rest ↔ st_transactions m !! tx_ID tx = Some tx ∧ is_party id tx) ∧
      StronglySorted (λ a b, tx_Timestamp b ≤ tx_Timestamp a) (given ++ rest) ∧
      (err = None → rest = []) ∧
      match GetTransactionsForAccount id s with
      | Ok txs => Forall2 pruned_tx given txs ∧ Forall (λ tx, nan_tx tx = false) given
      | Err e => e = QErrScan ∧ Exists (λ tx, nan_tx tx = true) given
      end
  end.

Lemma latest_read_ok s m : light_rel s m → store_keyed m → latest_read s m.
Proof.
  intros Hs Hm. unfold latest_read, GetLatestBlockHeader.
  destruct (SelectTop _ _) as [r| |e] eqn:Hf; [| |by exists e].
  - apply SelectTop_found in Hf as [[k Hk] Hmax]. rewrite (lr_headers _ _ Hs) in Hk, Hmax.
    rewrite lookup_fmap in Hk. destruct (st_headers m !! k) as [b0|] eqn:Hb; [|done].
    cbn in Hk. injection Hk as <-. exists k, b0. split_and!; [done..|].
    intros j b' Hj. specialize (Hmax j (stored_header b')). rewrite lookup_fmap, Hj in Hmax.
    specialize (Hmax eq_refl). cbn in Hmax.
    by rewrite (sk_headers _ Hm _ _ Hj), (sk_headers _ Hm _ _ Hb) in Hmax.
  - apply SelectTop_none in Hf. rewrite (lr_headers _ _ Hs) in Hf. by apply fmap_empty_inv in Hf.
Qed.

Lemma account_read_ok s m id : light_rel s m → store_keyed m → account_read s m id.
Proof.
  intros Hs Hm. unfold account_read, GetAccount.
  destruct (SelectRow _ _) as [r| |e] eqn:Hf; [| |by exists e].
  - apply SelectRow_found in Hf as (k & Hk & Hp). rewrite (lr_accounts _ _ Hs), lookup_fmap in Hk.
    destruct (st_accounts m !! k) as [a0|] eqn:Ha; [|done]. cbn in Hk. injection Hk as <-.
    apply bool_decide_eq_true in Hp. cbn in Hp. rewrite (sk_accounts _ Hm _ _ Ha) in Hp. subst k.
    pose proof (scan_account_row a0) as Hscan. destruct (scan_account _) as [a|e]; [by eauto|].
    destruct Hscan as [-> Hn]. by eauto.
  - destruct (st_accounts m !! id) as [a0|] eqn:Ha; [|done].
    assert (rows (accounts s) !! id = Some (stored_account a0)) as Hr
      by (by rewrite (lr_accounts _ _ Hs), lookup_fmap, Ha).
    apply (SelectRow_none _ _ _ _ Hf), bool_decide_eq_false in Hr.
    destruct Hr. by apply (sk_accounts _ Hm).
Qed.

Lemma metadata_read_ok s m key : light_rel s m → metadata_read s m key.
Proof.
  intros Hs. unfold metadata_read, GetSyncMetadata.
  destruct (SelectRow _ _) as [r| |e] eqn:Hf; [| |by exists e].
  - apply SelectRow_found in Hf as (k & Hk & Hp). rewrite (lr_metadata _ _ Hs) in Hk.
    destruct (st_metadata m !! k) as [v|] eqn:Hv; [|done]. cbn in Hk. injection Hk as <-.
    apply bool_decide_eq_true in Hp. cbn in Hp. by subst.
  - destruct (st_metadata m !! key) as [v|] eqn:Hv; [|done].
    pose proof (lr_metadata _ _ Hs key) as Hr. rewrite Hv in Hr.
    by apply (SelectRow_none _ _ _ _ Hf), bool_decide_eq_false in Hr.
Qed.

(** The rows of a query, as the transactions they were saved from. *)
Lemma rows_saved s m id (kl : list (string * TxRow)) : light_rel s m → store_keyed m →
  (∀ k r, (k, r) ∈ kl → rows (transactions s) !! k = Some r ∧ of_account id r = true) →
  ∃ txs : list Transaction, kl = (λ tx, (tx_ID tx, stored_tx tx)) <$> txs ∧
    ∀ tx, tx ∈ txs → st_transactions m !! tx_ID tx = Some tx ∧ is_party id tx.
Proof.
  intros Hs Hm Hin. induction kl as [|[k r] kl IH]; [by exists []; split; [|intros tx ?%elem_of_nil]|].
  destruct IH as (txs & -> & Htxs); [intros; apply Hin; by right|].
  destruct (Hin k r) as [Hr Hp]; [by left|]. rewrite (lr_transactions _ _ Hs), lookup_fmap in Hr.
  destruct (st_transactions m !! k) as [tx|] eqn:Htx; [|done]. cbn in Hr. injection Hr as <-.
  pose proof (sk_transactions _ Hm _ _ Htx) as <-. exists (tx :: txs). split; [done|].
  intros tx' [->|Htx']%elem_of_cons; [|by apply Htxs]. split; [done|].
  apply orb_true_iff in Hp as [Hp|Hp]; apply bool_decide_eq_true in Hp; [by left|by right].
Qed.

Lemma account_rows s m id l err : light_rel s m → store_keyed m →
  SelectRows (of_account id) tr_timestamp (transactions s) = Ok (l, err) →
  ∃ saved rest, l = stored_tx <$> saved ∧ NoDup (tx_ID <$> saved ++ rest) ∧
    (∀ tx, tx ∈ saved ++ rest ↔ st_transactions m !! tx_ID tx = Some tx ∧ is_party id tx) ∧
    StronglySorted (λ a b, tx_Timestamp b ≤ tx_Timestamp a) (saved ++ rest) ∧
    (err = None → rest = []).
Proof.
  intros Hs Hm (kl & rest & Hl & Hnd & Hin & Hsort & Hrest)%SelectRows_rows.
  destruct (rows_saved s m id kl Hs Hm) as (txs & -> & Htxs); [intros; by apply Hin|].
  rewrite <- !list_fmap_compose in *. change (snd ∘ _) with stored_tx in Hl, Hsort.
  change (fst ∘ _) with tx_ID in Hnd.
  apply fmap_app_inv in Hl as (saved & more & -> & -> & ->). rewrite fmap_app in Hsort.
  exists saved, more. split; [done|]. split; [done|]. split; [|split].
  - intros tx. split; [apply Htxs|]. intros [Htx Hp].
    assert ((tx_ID tx, stored_tx tx) ∈ (λ tx, (tx_ID tx, stored_tx tx)) <$> saved ++ more) as Htx'.
    { apply Hin. rewrite (lr_transactions _ _ Hs), lookup_fmap, Htx. split; [done|].
      apply orb_true_iff. destruct Hp as [Hp|Hp]; [left|right]; by apply bool_decide_eq_true. }
    apply list_elem_of_fmap in Htx' as (tx0 & He & Htx0). injection He as Hid _.
    destruct (Htxs _ Htx0) as [Hm0 _]. rewrite <- Hid, Htx in Hm0. by injection Hm0 as ->.
  - rewrite <- fmap_app in Hsort. clear -Hsort. induction (saved ++ more) as [|tx l IH]; [constructor|].
    cbn in Hsort. apply StronglySorted_inv in Hsort as [Hsort Hall]. constructor; [by apply IH|].
    by rewrite Forall_fmap in Hall.
  - intros He. apply Hrest in He. by destruct more.
Qed.

Lemma transactions_read_ok s m id : light_rel s m → store_keyed m → transactions_read s m id.
Proof.
  intros Hs Hm. unfold transactions_read, GetTransactionsForAccount.
  destruct (SelectRows (of_account id) tr_timestamp (transactions s)) as [[l err]|d] eqn:Hq; [|done].
  destruct (account_rows _ _ _ _ _ Hs Hm Hq) as (given & rest & -> & Hn & Hin & Hso & He).
  exists given, rest. split_and!; [done..|]. apply scan_all_rows.
Qed.

Lemma New_rel open db s r m : light_rel db m → NewSQLiteLightNode open db = (s, r) → light_rel s m.
Proof.
  intros [Hh Ha Ht Hm]. unfold NewSQLiteLightNode, migrateSchema.
  destruct open; [by intros [= <- _]|].
  destruct (CreateTable (block_headers db)) as [t1 r1] eqn:H1.
  apply (f_equal (rows ∘ fst)) in H1. cbn in H1. rewrite CreateTable_rows in H1.
  destruct r1; [|by intros [= <- _]; split; cbn; rewrite <- ?H1].
  destruct (CreateTable (accounts _)) as [t2 r2] eqn:H2.
  apply (f_equal (rows ∘ fst)) in H2. cbn in H2. rewrite CreateTable_rows in H2.
  destruct r2; [|by intros [= <- _]; split; cbn; rewrite <- ?H1, <- ?H2].
  destruct (CreateTable (transactions _)) as [t3 r3] eqn:H3.
  apply (f_equal (rows ∘ fst)) in H3. cbn in H3. rewrite CreateTable_rows in H3.
  destruct r3; [|by intros [= <- _]; split; cbn; rewrite <- ?H1, <- ?H2, <- ?H3].
  destruct (CreateTable (sync_metadata _)) as [t4 r4] eqn:H4.
  apply (f_equal (rows ∘ fst)) in H4. cbn in H4. rewrite CreateTable_rows in H4.
  intros [= <- _]; split; cbn; rewrite <- ?H1, <- ?H2, <- ?H3; try done.
  intros k. by rewrite <- H4.
Qed.
End facts.

(** * Properties *)

Section properties.
Context {Table : Type → Type → Type} {E : Type} `{SqlLaws Table E}.
Implicit Types (s : SQLiteLightNode Table) (m : LightStore).

(** C33: On a file that holds the values [m], a node opened by
    NewSQLiteLightNode and driven by any calls holds, whichever of them
    fail, what the specification holds after a part of the calls that
    includes every call that answered without an error.  Every read then
    agrees with the specification: the latest header is the one with the
    highest number that was saved, an account and a sync value are the last
    ones saved under their key, and the listing of an account is the
    transactions it takes part in, newest first, all as far as the schema has
    columns for them and every transaction with the status pending.  What is
    saved with a NaN in a column of reals is an error when it is read back,
    and a listing that the database breaks off is answered in part, without
    an error. *)
Theorem light_refines (open : option E) (db s s' : SQLiteLightNode Table) (r : result (LightError E) ())
    (ops : list light_op) (rs : list (result E ())) m :
  light_rel db m → store_keyed m →
  NewSQLiteLightNode open db = (s, r) → light_run ops s = (s', rs) →
  ∃ flags, length flags = length ops ∧ (∀ i, rs !! i = Some (Ok ()) → flags !! i = Some true) ∧
    let m' := foldl (flip spec_step) m (carried_out flags ops) in
    light_rel s' m' ∧ latest_read s' m' ∧ (∀ id, account_read s' m' id) ∧
    (∀ key, metadata_read s' m' key) ∧ (∀ id, transactions_read s' m' id).
Proof.
  intros Hs Hm Hnew Hrun. eapply New_rel in Hnew; [|done].
  destruct (light_run_rel _ _ _ _ _ Hnew Hrun) as (flags & Hl & Hok & Hs').
  exists flags. split; [done|]. split; [done|]. cbv zeta.
  assert (store_keyed (foldl (flip spec_step) m (carried_out flags ops))) as Hm' by by apply spec_run_keyed.
  split; [done|]. split; [by apply latest_read_ok|]. split; [intros; by apply account_read_ok|].
  split; [intros; by apply metadata_read_ok|]. intros. by apply transactions_read_ok.
Qed.
End properties.

(** ** A database in memory *)

Definition real_stored (x : f64) : option f64 := if f_is_nan x then None else Some x.

#[export] Instance newer_dec {R} (f : R → Z) : RelDecision (λ a b, f b ≤ f a) := λ a b, decide (f b ≤ f a).
#[export] Instance newer_total {R} (f : R → Z) : Total (λ a b, f b ≤ f a).
Proof. intros a b. lia. Qed.
#[export] Instance newer_trans {R} (f : R → Z) : Transitive (λ a b, f b ≤ f a).
Proof. intros a b c. lia. Qed.

Definition select {K R} (p : R → bool) (f : R → Z) (t : mem K R) : list (K * R) :=
  merge_sort (λ a b, f b.2 ≤ f a.2) (filter (λ kr, p kr.2 = true) (mem_list t)).

#[export] Instance mem_sql : Sql mem () := {
  CreateTable K R t := (t, Ok ());
  Replace K R _ k r t := (mem_put k r t, Ok ());
  SelectRow K R p t := FindOne p t;
  SelectTop K R f t := FindMax (λ r, Some (f r)) t;
  SelectRows K R p f t := Ok ((select p f t).*2, None);
  sql_real := real_stored }.

Lemma select_sorted {K R} p f (t : mem K R) : StronglySorted (λ a b, f b ≤ f a) (select p f t).*2.
Proof.
  apply (StronglySorted_fmap snd (λ a b, f b.2 ≤ f a.2)); [done|].
  apply (StronglySorted_merge_sort (λ a b : K * R, f b.2 ≤ f a.2)).
Qed.

Lemma select_perm {K R} p f (t : mem K R) :
  select p f t ≡ₚ filter (λ kr, p kr.2 = true) (mem_list t).
Proof. apply merge_sort_Permutation. Qed.

#[export] Instance mem_sql_laws : SqlLaws mem ().
Proof.
  refine {| rows K R _ _ := mem_docs |}; try (intros K R ? ?).
  - done.
  - intros k r t t' res [= <- <-]. left. unfold mem_docs. cbn. apply put_map.
  - intros p t r. exact (FindOne_found (Coll := mem) (E := ()) p t r).
  - intros p t k r. exact (FindOne_none (Coll := mem) (E := ()) p t k r).
  - intros f t r Hf. destruct (FindMax_found (Coll := mem) (E := ()) (λ r, Some (f r)) t r Hf) as [Hk Hmax].
    split; [done|].
    intros k r' Hr. destruct (Hmax k r' _ Hr eq_refl) as (z & [= <-] & Hz). done.
  - intros f t. exact (FindMax_none (Coll := mem) (E := ()) (λ r, Some (f r)) t).
  - intros p f t l err [= <- <-]. exists (select p f t), []. rewrite app_nil_r. split_and!; try done.
    + rewrite select_perm. eapply sublist_NoDup; [apply (mem_nodup t)|]. apply fmap_sublist, sublist_filter.
    + intros k r. rewrite select_perm, list_elem_of_filter, mem_docs_Some. naive_solver.
    + apply select_sorted.
  - intros x. cbn. unfold real_stored. by destruct (f_is_nan x).
  - intros x y. cbn. unfold real_stored. destruct (f_is_nan x); [done|]. intros [= <-]. by left.
Defined.

Definition mem_light : SQLiteLightNode mem := mkLight mem_empty mem_empty mem_empty mem_empty.
Lemma mem_light_rel : light_rel mem_light spec_empty.
Proof. split; [vm_compute; reflexivity..|]. intros k. cbn. unfold mem_docs. cbn. by rewrite !lookup_empty. Qed.
Lemma spec_empty_keyed : store_keyed spec_empty.
Proof. by split. Qed.

Definition light_header (n : Z) (hash : string) : Block :=
  mkBlock n "prev" hash [tx_sample "alice" "bob"] n "v" "" "" "root" [] [] [] [].
Definition light_tx (id sender receiver : string) (t : Z) : Transaction :=
  mkTx id sender receiver f_one t [] 1 f_zero 0 "" [] 1 "" 7 "committed".
Definition light_calls : list light_op :=
  [OpHeader (light_header 2 "b"); OpHeader (light_header 1 "a"); OpTransaction (light_tx "t1" "alice" "bob" 5);
   OpTransaction (light_tx "t2" "carol" "alice" 9); OpTransaction (light_tx "t3" "carol" "bob" 7);
   OpMetadata "height" "2"].
Definition light_sample : SQLiteLightNode mem := (light_run light_calls mem_light).1.

Example light_sample_reads :
  GetLatestBlockHeader light_sample = Ok (pruned_header (light_header 2 "b")) ∧
  GetSyncMetadata "height" light_sample = Ok "2" ∧
  ∃ txs, GetTransactionsForAccount "alice" light_sample = Ok txs ∧
    (λ tx, (tx_ID tx, tx_Status tx, tx_BlockHeight tx)) <$> txs = [("t2", "pending", 0); ("t1", "pending", 0)].
Proof. split_and!; [vm_compute; reflexivity..|]. eexists. split; vm_compute; reflexivity. Qed.

Lemma light_refines_witness :
  ∃ flags, length flags = 6%nat ∧
    (∀ i, (light_run light_calls mem_light).2 !! i = Some (Ok ()) → flags !! i = Some true) ∧
    let m' := foldl (flip spec_step) spec_empty (carried_out flags light_calls) in
    light_rel light_sample m' ∧ latest_read light_sample m' ∧
    (∀ id, account_read light_sample m' id) ∧ (∀ key, metadata_read light_sample m' key) ∧
    (∀ id, transactions_read light_sample m' id).
Proof.
  exact (light_refines None mem_light mem_light light_sample (Ok ()) light_calls _ spec_empty
           mem_light_rel spec_empty_keyed eq_refl eq_refl).
Defined.

(** A database that breaks an iteration off after one row: half of the
    listing, and no error. *)
#[local] Instance broken_sql : Sql mem () := {
  CreateTable K R t := (t, Ok ());
  Replace K R _ k r t := (mem_put k r t, Ok ());
  SelectRow K R p t := FindOne p t;
  SelectTop K R f t := FindMax (λ r, Some (f r)) t;
  SelectRows K R p f t := Ok (take 1 (select p f t).*2, Some ());
  sql_real := real_stored }.
Example half_a_listing :
  match GetTransactionsForAccount (Table := mem) (E := ()) (Sql0 := broken_sql) "alice" light_sample with
  | Ok txs => tx_ID <$> txs = ["t2"%string]
  | Err _ => False
  end.
Proof. vm_compute. reflexivity. Qed.
