(* ===== verification/Network.v ===== *)
(** * Network: src/network

    peer.go, network_manager.go, discovery.go, p2p_node.go and message.go.
    A peer is an object on a heap, which the manager's map knows under an
    address; several connections to one address are several objects.  Sockets
    are left out: that a dial succeeds, that an encoding fails or that a
    connection ends are arguments.  An operation finishes, panics, or waits
    for ever for a lock; taking the manager's lock is explicit ([locked]), and
    a call that waits for it while its caller holds it leaves it taken. *)
From Stdlib Require Import ZArith Lia.
From stdpp Require Import numbers prelude gmap strings.
From S2P Require Import Prelude Maps.
Open Scope Z_scope.

Section network.
Context {P : Type}.

Record Message := mkMessage { msg_Type : string; msg_Payload : P }.

(** [pr_writing]: the write loop is running. *)
Record Peer := mkPeer {
  pr_Addr : string;
  pr_incoming : list Message;
  pr_quit : bool;
  pr_writing : bool }.

Record BasicDiscovery := mkDiscovery {
  knownPeers : list string;
  bd_stopped : bool;
  bd_nm : bool }.

Record NetworkManager := mkNetwork {
  localAddr : string;
  nm_heap : gmap nat Peer;
  nm_next : nat;
  nm_peers : gmap string nat;
  discovery : BasicDiscovery;
  nm_running : bool;
  nm_stopped : bool; (* stopChan is closed *)
  health : Z;
  nm_locked : bool }. (* mu is held *)

Inductive NetError := ErrNetRunning | ErrNetNotRunning | ErrDialNotRunning | ErrDial.

Inductive net_outcome (A : Type) :=
| NDone (s : NetworkManager) (a : A)
| NPanic
| NHang (s : NetworkManager).
Arguments NDone {A} s a.
Arguments NPanic {A}.
Arguments NHang {A} s.

Definition NewBasicDiscovery (seeds : list string) (nm : bool) : BasicDiscovery :=
  mkDiscovery seeds false nm.
Definition GetKnownPeers (d : BasicDiscovery) : list string := knownPeers d.
Definition SetNetworkManager (nm : bool) (d : BasicDiscovery) : BasicDiscovery :=
  mkDiscovery (knownPeers d) (bd_stopped d) nm.

Definition NewNetworkManager (addr : string) (d : BasicDiscovery) : NetworkManager :=
  mkNetwork addr ∅ 0 ∅ d false false 0 false.

(** ** Field updates *)

Definition with_heap (h : gmap nat Peer) (s : NetworkManager) : NetworkManager :=
  mkNetwork (localAddr s) h (nm_next s) (nm_peers s) (discovery s) (nm_running s) (nm_stopped s)
    (health s) (nm_locked s).
Definition with_peers (m : gmap string nat) (s : NetworkManager) : NetworkManager :=
  mkNetwork (localAddr s) (nm_heap s) (nm_next s) m (discovery s) (nm_running s) (nm_stopped s)
    (health s) (nm_locked s).
Definition with_discovery (d : BasicDiscovery) (s : NetworkManager) : NetworkManager :=
  mkNetwork (localAddr s) (nm_heap s) (nm_next s) (nm_peers s) d (nm_running s) (nm_stopped s)
    (health s) (nm_locked s).
Definition with_running (r stopped : bool) (s : NetworkManager) : NetworkManager :=
  mkNetwork (localAddr s) (nm_heap s) (nm_next s) (nm_peers s) (discovery s) r stopped
    (health s) (nm_locked s).
Definition with_health (h : Z) (s : NetworkManager) : NetworkManager :=
  mkNetwork (localAddr s) (nm_heap s) (nm_next s) (nm_peers s) (discovery s) (nm_running s)
    (nm_stopped s) h (nm_locked s).
Definition with_lock (held : bool) (s : NetworkManager) : NetworkManager :=
  mkNetwork (localAddr s) (nm_heap s) (nm_next s) (nm_peers s) (discovery s) (nm_running s)
    (nm_stopped s) (health s) held.

(** [nm.mu.Lock()]: waits as long as the lock is held -- for ever when the
    holder is the caller itself. *)
Definition Lock (s : NetworkManager) : net_outcome () :=
  if nm_locked s then NHang s else NDone (with_lock true s) ().
Definition Unlock (s : NetworkManager) : NetworkManager := with_lock false s.

(** Lock, the body, and the deferred Unlock when the body returns. *)
Definition locked {A} (f : NetworkManager → net_outcome A) (s : NetworkManager) : net_outcome A :=
  match Lock s with
  | NDone s _ =>
      match f s with
      | NDone s a => NDone (Unlock s) a
      | NPanic => NPanic
      | NHang s => NHang s
      end
  | NPanic => NPanic
  | NHang s => NHang s
  end.

(** ** Peers *)

Definition queue_size : nat := 32.

(** [NewPeer], [addPeer] and [Run]: the three always come together. *)
Definition connect (addr : string) (s : NetworkManager) : NetworkManager :=
  mkNetwork (localAddr s) (<[nm_next s := mkPeer addr [] false true]> (nm_heap s)) (S (nm_next s))
    (<[addr := nm_next s]> (nm_peers s)) (discovery s) (nm_running s) (nm_stopped s) (health s)
    (nm_locked s).
Definition handleInbound (addr : string) : NetworkManager → net_outcome () :=
  locked (λ s, NDone (connect addr s) ()).

Definition Send (msg : Message) (p : Peer) : Peer :=
  if (length (pr_incoming p) <? queue_size)%nat
  then mkPeer (pr_Addr p) (pr_incoming p ++ [msg]) (pr_quit p) (pr_writing p)
  else p.

(** One turn of the write loop with a message waiting; an encoding error ends
    the loop, and only the loop. *)
Definition write_turn (fails : bool) (p : Peer) : Peer :=
  if negb (pr_writing p) then p
  else if pr_quit p then mkPeer (pr_Addr p) (pr_incoming p) true false
  else match pr_incoming p with
       | [] => mkPeer (pr_Addr p) [] false (negb fails) (* keepalive *)
       | _ :: rest => mkPeer (pr_Addr p) rest false (negb fails)
       end.

Definition RemovePeer (addr : string) : NetworkManager → net_outcome () :=
  locked (λ s, NDone (with_peers (delete addr (nm_peers s)) s) ()).

Definition quit_peer (p : Peer) : Peer := mkPeer (pr_Addr p) (pr_incoming p) true (pr_writing p).

(** [Close]: the read loop ends with it.  The peer's own lock is not
    modelled: who holds it for ever waits for the manager's. *)
Definition Close (i : nat) (s : NetworkManager) : net_outcome () :=
  match nm_heap s !! i with
  | None => NDone s ()
  | Some p =>
      if pr_quit p then NDone s ()
      else RemovePeer (pr_Addr p) (with_heap (<[i := quit_peer p]> (nm_heap s)) s)
  end.

(** ** The manager *)

Definition Start : NetworkManager → net_outcome (result NetError ()) := locked (λ s,
  if nm_running s then NDone s (Err ErrNetRunning)
  else NDone (with_running true (nm_stopped s) s) (Ok ())).

(** The loop over the peers. *)
Fixpoint close_all (ids : list nat) (s : NetworkManager) : net_outcome () :=
  match ids with
  | [] => NDone s ()
  | i :: ids =>
      match Close i s with
      | NDone s _ => close_all ids s
      | NPanic => NPanic
      | NHang s => NHang s
      end
  end.

(** [order] is the iteration over the map; closing a closed channel panics. *)
Definition Stop (order : list string) : NetworkManager → net_outcome (result NetError ()) :=
  locked (λ s,
    if negb (nm_running s) then NDone s (Err ErrNetNotRunning)
    else if nm_stopped s || bd_stopped (discovery s) then NPanic
    else
      let d := discovery s in
      let s := with_discovery (mkDiscovery (knownPeers d) true (bd_nm d)) (with_running false true s) in
      match close_all (omap (λ a, nm_peers s !! a) order) s with
      | NDone s _ => NDone (with_peers ∅ s) (Ok ())
      | NPanic => NPanic
      | NHang s => NHang s
      end).

Definition DialPeer (succeeds : bool) (addr : string) :
    NetworkManager → net_outcome (result NetError ()) := locked (λ s,
  if negb (nm_running s) then NDone s (Err ErrDialNotRunning)
  else if succeeds then NDone (connect addr s) (Ok ()) else NDone s (Err ErrDial)).

Definition Broadcast (msg : Message) : NetworkManager → net_outcome () := locked (λ s,
  NDone (with_heap (map_imap (λ i p,
    Some (if decide (nm_peers s !! pr_Addr p = Some i) then Send msg p else p)) (nm_heap s)) s) ()).

Definition GetNetworkHealth : NetworkManager → net_outcome Z := locked (λ s, NDone s (health s)).

(** One tick of [periodicHealthCheck], which ends when [stopChan] is closed. *)
Definition health_tick : NetworkManager → net_outcome () := locked (λ s,
  if nm_stopped s then NDone s ()
  else NDone (with_health (Z.rem (health s + 5) 100) s) ()).

(** ** Discovery *)

(** [discoverPeers]; [reachable] tells which seeds answer. *)
Fixpoint dial_all (reachable : string → bool) (seeds : list string) (s : NetworkManager) :
    net_outcome () :=
  match seeds with
  | [] => NDone s ()
  | seed :: seeds =>
      if negb (bd_nm (discovery s)) || bool_decide (seed = localAddr s)
      then dial_all reachable seeds s
      else match DialPeer (reachable seed) seed s with
           | NDone s _ => dial_all reachable seeds s
           | NPanic => NPanic
           | NHang s => NHang s
           end
  end.
Definition discoverPeers (reachable : string → bool) (s : NetworkManager) : net_outcome () :=
  dial_all reachable (knownPeers (discovery s)) s.

(** The ticker of [runDiscovery], until its channel is closed. *)
Definition runDiscovery (reachable : string → bool) (s : NetworkManager) : net_outcome () :=
  if bd_stopped (discovery s) then NDone s () else discoverPeers reachable s.
End network.

Arguments Message P : clear implicits.
Arguments Peer P : clear implicits.
Arguments NetworkManager P : clear implicits.
Arguments net_outcome P A : clear implicits.
Arguments NDone {P A} s a.
Arguments NPanic {P A}.
Arguments NHang {P A} s.

(** ** The node: p2p_node.go *)

Section node.
Context {P : Type}.

(** The error of the dial is only logged. *)
Definition ConnectToPeer (succeeds : bool) (addr : string) (s : NetworkManager P) :
    net_outcome P () :=
  match DialPeer succeeds addr s with
  | NDone s _ => NDone s ()
  | NPanic => NPanic
  | NHang s => NHang s
  end.
Definition BroadcastMsg (msgType : string) (payload : P) : NetworkManager P → net_outcome P () :=
  Broadcast (mkMessage msgType payload).
Definition BroadcastTransaction (tx : P) : NetworkManager P → net_outcome P () :=
  Broadcast (mkMessage "TransactionBroadcast" tx).

(** ** Histories *)

Inductive net_op :=
| OpInbound (addr : string)
| OpClose (i : nat)
| OpWrite (i : nat) (fails : bool)
| OpStart
| OpStop (order : list string)
| OpDial (succeeds : bool) (addr : string)
| OpBroadcast (msg : Message P)
| OpHealth
| OpDiscover (reachable : string → bool).

Definition ignore {A} (o : net_outcome P A) : net_outcome P () :=
  match o with NDone s _ => NDone s () | NPanic => NPanic | NHang s => NHang s end.

Definition perform (op : net_op) (s : NetworkManager P) : net_outcome P () :=
  match op with
  | OpInbound addr => handleInbound addr s
  | OpClose i => Close i s
  | OpWrite i fails => NDone (with_heap (alter (write_turn fails) i (nm_heap s)) s) ()
  | OpStart => ignore (Start s)
  | OpStop order => ignore (Stop order s)
  | OpDial succeeds addr => ignore (DialPeer succeeds addr s)
  | OpBroadcast msg => Broadcast msg s
  | OpHealth => health_tick s
  | OpDiscover reachable => runDiscovery reachable s
  end.

Inductive net_step : NetworkManager P → NetworkManager P → Prop :=
| ns_done op s s' : perform op s = NDone s' () → net_step s s'
| ns_hang op s s' : perform op s = NHang s' → net_step s s'.

(** * Facts *)

(** A registered peer is open and registered under its own address. *)
Record net_ok (s : NetworkManager P) : Prop := {
  no_peers a i : nm_peers s !! a = Some i → ∃ p, nm_heap s !! i = Some p ∧ pr_Addr p = a ∧
    (nm_locked s = false → pr_quit p = false);
  no_next i p : nm_heap s !! i = Some p →
    (i < nm_next s)%nat ∧ (length (pr_incoming p) ≤ queue_size)%nat;
  no_health : 0 ≤ health s < 100;
  no_stopped : bd_stopped (discovery s) = nm_stopped s }.

(** Some peers changed, keeping their addresses and their being open. *)
Lemma ok_heap s h : net_ok s →
  (∀ i p', h !! i = Some p' → ∃ p, nm_heap s !! i = Some p ∧ pr_Addr p' = pr_Addr p ∧
     (pr_quit p' = pr_quit p) ∧ (length (pr_incoming p') ≤ queue_size)%nat) →
  (∀ i p, nm_heap s !! i = Some p → is_Some (h !! i)) →
  net_ok (with_heap h s).
Proof.
  intros [Hp Hn Hh Hs] Hsub Hdom. split; cbn; [| |done|done].
  - intros a i Hi. destruct (Hp a i Hi) as (p & Hpi & Ha & Hq).
    destruct (Hdom i p Hpi) as [p' Hp']. destruct (Hsub i p' Hp') as (p0 & Hp0 & Ha' & Hq' & _).
    assert (p0 = p) as -> by congruence. exists p'. split_and!; [done|congruence|].
    intros Hl. rewrite Hq'. by apply Hq.
  - intros i p' Hp'. destruct (Hsub i p' Hp') as (p & Hpi & _ & _ & Hlen). split; [|done].
    apply (Hn i p Hpi).
Qed.

Lemma connect_ok addr s : net_ok s → net_ok (connect addr s).
Proof.
  intros [Hp Hn Hh Hs]. split; cbn; [| |done|done].
  - intros a i Hi. destruct (decide (a = addr)) as [->|Hne].
    + rewrite lookup_insert_eq in Hi. injection Hi as <-.
      exists (mkPeer addr [] false true). by rewrite lookup_insert_eq.
    + rewrite lookup_insert_ne in Hi by done. destruct (Hp a i Hi) as (p & Hpi & Ha & Hq).
      exists p. rewrite lookup_insert_ne; [done|]. pose proof (proj1 (Hn i p Hpi)). lia.
  - intros i p. destruct (decide (i = nm_next s)) as [->|Hne].
    + rewrite lookup_insert_eq. intros [= <-]. cbn. unfold queue_size. lia.
    + rewrite lookup_insert_ne by done. intros Hpi. pose proof (Hn i p Hpi). lia.
Qed.

Lemma quit_next s i p : net_ok s → nm_heap s !! i = Some p → ∀ j q,
  <[i := quit_peer p]> (nm_heap s) !! j = Some q →
  (j < nm_next s)%nat ∧ (length (pr_incoming q) ≤ queue_size)%nat.
Proof.
  intros Hok Hi j q. destruct (decide (j = i)) as [->|Hne].
  - rewrite lookup_insert_eq. intros [= <-]. cbn. apply (no_next s Hok i p Hi).
  - rewrite lookup_insert_ne by done. apply (no_next s Hok).
Qed.

(** ** The operations with the lock free, and with it held *)

Implicit Types s : NetworkManager P.

Lemma locked_held {A} (f : NetworkManager P → net_outcome P A) s :
  nm_locked s = true → locked f s = NHang s.
Proof. intros Hl. unfold locked, Lock. by rewrite Hl. Qed.

Lemma locked_free {A} (f : NetworkManager P → net_outcome P A) s : nm_locked s = false →
  locked f s = match f (with_lock true s) with
               | NDone s a => NDone (Unlock s) a
               | NPanic => NPanic
               | NHang s => NHang s
               end.
Proof. intros Hl. unfold locked, Lock. by rewrite Hl. Qed.

(** A body that ignores the lock runs as on the state itself. *)
Ltac lock_free s := destruct s as [la hp nx ps d r st hl lk]; cbn in *; intros; subst; rewrite locked_free by done; cbn; try done.

Lemma handleInbound_free addr s : nm_locked s = false → handleInbound addr s = NDone (connect addr s) ().
Proof. unfold handleInbound. lock_free s. Qed.
Lemma RemovePeer_free addr s : nm_locked s = false →
  RemovePeer addr s = NDone (with_peers (delete addr (nm_peers s)) s) ().
Proof. unfold RemovePeer. lock_free s. Qed.
Lemma Start_free s : nm_locked s = false →
  Start s = if nm_running s then NDone s (Err ErrNetRunning)
            else NDone (with_running true (nm_stopped s) s) (Ok ()).
Proof. unfold Start. lock_free s. by destruct r. Qed.
Lemma DialPeer_free ok addr s : nm_locked s = false →
  DialPeer ok addr s = if negb (nm_running s) then NDone s (Err ErrDialNotRunning)
    else if ok then NDone (connect addr s) (Ok ()) else NDone s (Err ErrDial).
Proof. unfold DialPeer. lock_free s. by destruct r, ok. Qed.
Lemma Broadcast_free msg s : nm_locked s = false →
  Broadcast msg s = NDone (with_heap (map_imap (λ i p,
    Some (if decide (nm_peers s !! pr_Addr p = Some i) then Send msg p else p)) (nm_heap s)) s) ().
Proof. unfold Broadcast. lock_free s. Qed.
Lemma health_free s : nm_locked s = false →
  health_tick s = if nm_stopped s then NDone s ()
                  else NDone (with_health (Z.rem (health s + 5) 100) s) ().
Proof. unfold health_tick. lock_free s. by destruct st. Qed.

(** The state in which [Stop] closes the peers: its own lock is held. *)
Definition stopping (s : NetworkManager P) : NetworkManager P :=
  with_discovery (mkDiscovery (knownPeers (discovery s)) true (bd_nm (discovery s)))
    (with_running false true (with_lock true s)).

Lemma Stop_free order s : nm_locked s = false →
  Stop order s = if negb (nm_running s) then NDone s (Err ErrNetNotRunning)
    else if nm_stopped s || bd_stopped (discovery s) then NPanic
    else match close_all (omap (λ a, nm_peers s !! a) order) (stopping s) with
         | NDone s _ => NDone (Unlock (with_peers ∅ s)) (Ok ())
         | NPanic => NPanic
         | NHang s => NHang s
         end.
Proof.
  intros Hl. unfold Stop. rewrite locked_free by done. cbn [nm_running nm_stopped discovery with_lock].
  destruct (nm_running s) eqn:Hr; cbn [negb].
  2: { destruct s; cbn in *; by subst. }
  destruct (nm_stopped s || bd_stopped (discovery s)); [done|].
  change (with_discovery _ _) with (stopping s). change (nm_peers (stopping s)) with (nm_peers s).
  by destruct (close_all _ _).
Qed.

(** Closing an open peer while the lock is held waits for it. *)
Lemma Close_held i p s : nm_locked s = true → nm_heap s !! i = Some p → pr_quit p = false →
  Close i s = NHang (with_heap (<[i := quit_peer p]> (nm_heap s)) s).
Proof. intros Hl Hi Hq. unfold Close. rewrite Hi, Hq. by apply locked_held. Qed.

Lemma Close_free i p s : nm_locked s = false → nm_heap s !! i = Some p → pr_quit p = false →
  Close i s = NDone (with_peers (delete (pr_Addr p) (nm_peers s))
                       (with_heap (<[i := quit_peer p]> (nm_heap s)) s)) ().
Proof. intros Hl Hi Hq. unfold Close. rewrite Hi, Hq. by rewrite RemovePeer_free. Qed.

Lemma Close_ended i s : (∀ p, nm_heap s !! i = Some p → pr_quit p = true) → Close i s = NDone s ().
Proof. intros Hq. unfold Close. destruct (nm_heap s !! i) as [p|]; [|done]. by rewrite (Hq p). Qed.

Lemma held_quit_ok s i p : net_ok s → nm_locked s = true → nm_heap s !! i = Some p →
  net_ok (with_heap (<[i := quit_peer p]> (nm_heap s)) s).
Proof.
  intros Hok Hl Hi. split; cbn; [|by apply quit_next|apply (no_health s Hok)|apply (no_stopped s Hok)].
  intros a j Hj. destruct (no_peers s Hok a j Hj) as (q & Hq & Ha & _).
  destruct (decide (j = i)) as [->|Hne].
  - exists (quit_peer p). rewrite lookup_insert_eq. split_and!; [done|cbn; congruence|congruence].
  - exists q. rewrite lookup_insert_ne by done. split_and!; [done|done|congruence].
Qed.

Lemma close_ok i s s' : net_ok s → Close i s = NDone s' () ∨ Close i s = NHang s' → net_ok s'.
Proof.
  intros Hok. destruct (nm_heap s !! i) as [p|] eqn:Hi.
  2: { rewrite Close_ended by (intros p Hp; congruence). by intros [[= <-]|?]. }
  destruct (pr_quit p) eqn:Hq.
  { rewrite Close_ended by (intros q Hp; congruence). by intros [[= <-]|?]. }
  destruct (nm_locked s) eqn:Hl.
  - rewrite (Close_held i p) by done. intros [?|[= <-]]; [done|]. by apply held_quit_ok.
  - rewrite (Close_free i p) by done. intros [[= <-]|?]; [|done].
    split; cbn; [|by apply quit_next|apply (no_health s Hok)|apply (no_stopped s Hok)].
    intros a j Hj. apply lookup_delete_Some in Hj as [Hne Hj].
    destruct (no_peers s Hok a j Hj) as (q & Hqj & Ha & Ho). exists q.
    rewrite lookup_insert_ne; [done|]. intros <-. congruence.
Qed.

Lemma close_all_ok ids : ∀ s s', net_ok s → close_all ids s = NDone s' () ∨ close_all ids s = NHang s' →
  net_ok s'.
Proof.
  induction ids as [|i ids IH]; intros s s' Hok; cbn [close_all]; [by intros [[= <-]|?]|].
  destruct (Close i s) as [s1 []| |s1] eqn:Hc; [|by intros [?|?]|].
  - apply IH. apply (close_ok i s); auto.
  - intros [?|[= <-]]; [done|]. apply (close_ok i s); auto.
Qed.

Definition ends (Q : NetworkManager P → Prop) (o : net_outcome P ()) : Prop :=
  match o with NDone s _ => Q s | NPanic => True | NHang s => Q s end.

Lemma ends_ignore {A} Q (o : net_outcome P A) :
  ends Q (ignore o) ↔ match o with NDone s _ => Q s | NPanic => True | NHang s => Q s end.
Proof. by destruct o. Qed.

Lemma dial_all_ok reachable seeds : ∀ s, net_ok s → ends net_ok (dial_all reachable seeds s).
Proof.
  induction seeds as [|a seeds IH]; intros s Hok; [done|]. cbn [dial_all].
  destruct (_ || _); [by apply IH|]. destruct (nm_locked s) eqn:Hl.
  { unfold DialPeer. by rewrite locked_held. }
  rewrite DialPeer_free by done. destruct (negb _); [by apply IH|].
  destruct (reachable a); apply IH; [by apply connect_ok|done].
Qed.

Lemma Stop_ok order s : net_ok s → ends net_ok (ignore (Stop order s)).
Proof.
  intros Hok. destruct (nm_locked s) eqn:Hl; [unfold Stop; by rewrite locked_held|].
  rewrite Stop_free by done. destruct (negb (nm_running s)); [done|]. destruct (_ || _); [done|].
  assert (net_ok (stopping s)) as Hs1.
  { destruct Hok as [H1 H2 H3 H4]. split; [|done..]. intros a i Hi.
    destruct (H1 a i Hi) as (p & ? & ? & _). by exists p. }
  set (ids := omap _ order).
  destruct (close_all ids (stopping s)) as [s2 []| |s2] eqn:Hc; cbn; [|done|].
  - pose proof (close_all_ok ids _ s2 Hs1 (or_introl Hc)) as [_ H2 H3 H4]. split; cbn; [|done..].
    intros a i. by rewrite lookup_empty.
  - apply (close_all_ok ids _ s2 Hs1). by right.
Qed.

Lemma write_turn_ok i fails s : net_ok s →
  net_ok (with_heap (alter (write_turn fails) i (nm_heap s)) s).
Proof.
  intros Hok. apply ok_heap; [done| |].
  - intros j p'. destruct (decide (j = i)) as [->|Hne].
    + rewrite lookup_alter_eq, fmap_Some. intros (p & Hp & ->). exists p. split; [done|].
      pose proof (proj2 (no_next s Hok i p Hp)) as Hlen. unfold write_turn.
      destruct (negb _); [done|]. destruct (pr_quit p) eqn:Hq; [done|].
      destruct (pr_incoming p); cbn in *; split_and!; try done; lia.
    + rewrite lookup_alter_ne by done. intros Hp. exists p'. split_and!; [done..|].
      apply (no_next s Hok j p' Hp).
  - intros j p Hp. apply lookup_alter_is_Some. by exists p.
Qed.

Lemma broadcast_ok msg s : net_ok s →
  net_ok (with_heap (map_imap (λ i p,
    Some (if decide (nm_peers s !! pr_Addr p = Some i) then Send msg p else p)) (nm_heap s)) s).
Proof.
  intros Hok. apply ok_heap; [done| |].
  - intros j p'. rewrite map_lookup_imap, bind_Some. intros (p & Hp & [= <-]). exists p.
    pose proof (proj2 (no_next s Hok j p Hp)) as Hlen. split; [done|].
    case_decide; [|done]. unfold Send. destruct (length (pr_incoming p) <? queue_size)%nat eqn:Hb;
      [|done]. apply Nat.ltb_lt in Hb. cbn. rewrite length_app. cbn. split_and!; [done..|lia].
  - intros j p Hp. rewrite map_lookup_imap, Hp. by eexists.
Qed.

Lemma net_perform_ok op s : net_ok s → ends net_ok (perform op s).
Proof.
  intros Hok. destruct op as [addr|i|i fails| |order|b addr|msg| |reachable]; cbn [perform].
  2: { destruct (Close i s) as [s' []| |s'] eqn:Hc; cbn; [|done|]; apply (close_ok i s); auto. }
  2: by apply write_turn_ok.
  3: by apply Stop_ok.
  6: { unfold runDiscovery. destruct (bd_stopped _); [done|]. by apply dial_all_ok. }
  all: destruct (nm_locked s) eqn:Hl;
    [unfold handleInbound, Start, DialPeer, Broadcast, health_tick; by rewrite locked_held|].
  - rewrite handleInbound_free by done. by apply connect_ok.
  - rewrite Start_free by done. destruct (nm_running s); [done|]. destruct Hok. by split.
  - rewrite DialPeer_free by done. destruct (negb _); [done|]. destruct b; [by apply connect_ok|done].
  - rewrite Broadcast_free by done. by apply broadcast_ok.
  - rewrite health_free by done. destruct (nm_stopped s); [done|].
    destruct Hok as [H1 H2 H3 H4]. split; cbn; [done..| |done].
    rewrite Z.rem_mod_nonneg by lia. by apply Z.mod_pos_bound.
Qed.

Lemma net_run_ok addr seeds b s :
  star net_step (NewNetworkManager addr (NewBasicDiscovery seeds b)) s → net_ok s.
Proof.
  intros Hrun. eapply (star_invariant _ net_ok); [| |exact Hrun].
  - intros s1 s2 Hok Hst. pose proof (λ op, net_perform_ok op s1 Hok) as Hp.
    destruct Hst as [op ? ? He|op ? ? He]; specialize (Hp op); by rewrite He in Hp.
  - split; cbn; [|by intros i p; rewrite lookup_empty|lia|done].
    intros a i. by rewrite lookup_empty.
Qed.

(** ** Stopping *)

(** Once the lock is lost it stays lost. *)
Lemma net_perform_locked op s : nm_locked s = true → ends (λ s', nm_locked s' = true) (perform op s).
Proof.
  intros Hl. destruct op as [addr|i|i fails| |order|b addr|msg| |reachable]; cbn [perform];
    try (unfold handleInbound, Start, Stop, DialPeer, Broadcast, health_tick;
         rewrite locked_held by done; done); [|done|].
  - unfold Close. destruct (nm_heap s !! i) as [p|]; [|done]. destruct (pr_quit p); [done|].
    unfold RemovePeer. by rewrite locked_held.
  - unfold runDiscovery, discoverPeers. destruct (bd_stopped _); [done|].
    induction (knownPeers (discovery s)) as [|a l IH]; [done|]. cbn [dial_all].
    destruct (_ || _); [done|]. unfold DialPeer. by rewrite locked_held.
Qed.

Lemma stays_locked s s' : star net_step s s' → nm_locked s = true → nm_locked s' = true.
Proof.
  intros Hrun Hl. eapply (star_invariant _ (λ s, nm_locked s = true)); [| |exact Hrun]; [|done].
  intros s1 s2 Hok Hst. pose proof (λ op, net_perform_locked op s1 Hok) as Hp.
  destruct Hst as [op ? ? He|op ? ? He]; specialize (Hp op); by rewrite He in Hp.
Qed.

(** Closing open peers with the lock held. *)
Lemma close_all_hangs ids s : nm_locked s = true →
  (∀ i, i ∈ ids → ∃ p, nm_heap s !! i = Some p ∧ pr_quit p = false) → ids ≠ [] →
  ∃ i p, close_all ids s = NHang (with_heap (<[i := quit_peer p]> (nm_heap s)) s).
Proof.
  intros Hl Hopen Hne. destruct ids as [|i ids]; [done|].
  destruct (Hopen i ltac:(apply list_elem_of_here)) as (p & Hp & Hq). exists i, p. cbn [close_all].
  by rewrite (Close_held i p).
Qed.

(** C17: [Stop] cannot stop a manager that has peers.  On a running manager,
    whatever happened before, it panics if the manager was stopped before
    and restarted; it succeeds if no peer is registered; and otherwise it
    waits for ever: closing the first peer asks for the lock [Stop] holds.
    From then on the lock is lost: in every later state the health query, a
    broadcast, a dial and another [Stop] wait for ever too. *)
Theorem stop_outcomes addr seeds b s order :
  star net_step (NewNetworkManager addr (NewBasicDiscovery seeds b)) s →
  nm_running s = true → nm_locked s = false → iter_order (nm_peers s) order →
  if nm_stopped s then Stop order s = NPanic
  else if decide (nm_peers s = ∅)
  then ∃ s', Stop order s = NDone s' (Ok ()) ∧ nm_running s' = false ∧ nm_locked s' = false
  else ∃ s', Stop order s = NHang s' ∧ nm_peers s' = nm_peers s ∧
    ∀ s2, star net_step s' s2 → GetNetworkHealth s2 = NHang s2 ∧
      (∀ msg, Broadcast msg s2 = NHang s2) ∧ (∀ ok a, DialPeer ok a s2 = NHang s2) ∧
      (∀ order', Stop order' s2 = NHang s2).
Proof.
  intros Hrun Hr Hl Ho. pose proof (net_run_ok _ _ _ _ Hrun) as Hok.
  rewrite Stop_free, Hr, (no_stopped s Hok) by done. cbn [negb].
  destruct (nm_stopped s) eqn:Hst; [done|]. cbn [orb].
  case_decide as He.
  - rewrite He in Ho. assert (order = []) as ->.
    { destruct order as [|a l]; [done|]. destruct Ho as [_ Ho].
      destruct (proj1 (Ho a)) as [x Hx]; [apply list_elem_of_here|]. by rewrite lookup_empty in Hx. }
    cbn. eexists. by split_and!.
  - assert (omap (λ a, nm_peers s !! a) order ≠ []) as Hne.
    { apply map_choose in He as (a & i & Ha). intros Hnil. destruct Ho as [_ Ho].
      assert (a ∈ order) as Hin by (apply Ho; by exists i).
      assert (i ∈ omap (λ a, nm_peers s !! a) order) as Hi by (apply list_elem_of_omap; by exists a).
      rewrite Hnil in Hi. by apply not_elem_of_nil in Hi. }
    destruct (close_all_hangs (omap (λ a, nm_peers s !! a) order) (stopping s)) as (i & p & Hc);
      [done| |exact Hne|].
    { intros j Hj. apply list_elem_of_omap in Hj as (a & _ & Ha).
      destruct (no_peers s Hok a j Ha) as (p & Hp & _ & Hq). exists p. auto. }
    rewrite Hc. eexists. split; [done|].
    split; [done|]. intros s2 Hs2. assert (nm_locked s2 = true) as Hl2 by (by apply (stays_locked _ _ Hs2)).
    unfold GetNetworkHealth, Broadcast, DialPeer, Stop. by split_and!; intros; apply locked_held.
Qed.

(** ** Dialling again *)

(** The open connections to an address. *)
Definition open_to (a : string) (s : NetworkManager P) : nat :=
  size (filter (λ ip, pr_Addr ip.2 = a ∧ pr_quit ip.2 = false) (nm_heap s)).

Definition times (a : string) (l : list string) : nat := length (filter (λ x, x = a) l).

(** What discovery needs to dial. *)
Record dialling (s : NetworkManager P) : Prop := {
  dl_ok : net_ok s;
  dl_running : nm_running s = true;
  dl_unlocked : nm_locked s = false;
  dl_stopped : nm_stopped s = false;
  dl_nm : bd_nm (discovery s) = true }.

Lemma open_connect a b s : net_ok s →
  open_to a (connect b s) = (open_to a s + if decide (b = a) then 1 else 0)%nat.
Proof.
  intros Hok. unfold open_to. cbn [nm_heap connect].
  assert (nm_heap s !! nm_next s = None) as Hnew.
  { destruct (nm_heap s !! nm_next s) eqn:He; [|done]. apply (no_next s Hok) in He. lia. }
  case_decide as Hb.
  - rewrite map_filter_insert_True by done. rewrite map_size_insert_None; [lia|].
    by rewrite map_lookup_filter, Hnew.
  - rewrite map_filter_insert_not'; [lia|by intros [? _]|].
    intros y Hy. by rewrite Hnew in Hy.
Qed.

Lemma connect_dialling b s : dialling s → dialling (connect b s).
Proof. intros [H1 H2 H3 H4 H5]. split; [by apply connect_ok|done..]. Qed.

Lemma dial_all_open seeds : ∀ s, dialling s → localAddr s ∉ seeds →
  ∃ s', dial_all (λ _, true) seeds s = NDone s' () ∧ dialling s' ∧
    localAddr s' = localAddr s ∧ discovery s' = discovery s ∧
    (∀ a, open_to a s' = (open_to a s + times a seeds)%nat) ∧
    ∀ a, is_Some (nm_peers s' !! a) → is_Some (nm_peers s !! a) ∨ a ∈ seeds.
Proof.
  induction seeds as [|b seeds IH]; intros s Hd Hloc.
  { exists s. split_and!; [done..| |by left]. intros a. cbn. lia. }
  apply not_elem_of_cons in Hloc as [Hb Hloc].
  destruct (IH (connect b s) (connect_dialling b s Hd) Hloc) as (s' & Hr & Hd' & Hl & Hdi & Ho & Hp).
  exists s'. cbn [dial_all]. rewrite (dl_nm s Hd), bool_decide_eq_false_2 by congruence. cbn [negb orb].
  rewrite DialPeer_free, (dl_running s Hd) by apply (dl_unlocked s Hd). cbn [negb].
  split_and!; [done..| |].
  - intros a. rewrite Ho, (open_connect a b s (dl_ok s Hd)). unfold times. rewrite filter_cons.
    repeat case_decide; cbn [length]; lia.
  - intros a Ha. rewrite elem_of_cons. destruct (Hp a Ha) as [Hc|]; [|by auto]. cbn in Hc.
    destruct (decide (b = a)) as [->|Hne]; [by auto|].
    rewrite lookup_insert_ne in Hc by done. by left.
Qed.

(** [k] ticks of the discovery. *)
Fixpoint polls (k : nat) (s : NetworkManager P) : net_outcome P () :=
  match k with
  | O => NDone s ()
  | S k => match runDiscovery (λ _, true) s with
           | NDone s _ => polls k s
           | o => o
           end
  end.

(** discovery never stops dialling: it does not look whether a seed is
    connected.  On a running manager whose seeds answer, [k] ticks open [k]
    more connections to every seed (once per occurrence in the list), while
    the manager registers no address but the ones it had and the seeds, one
    connection each: the others stay open, receive no broadcast and are not
    closed by [Stop]. *)
Theorem discovery_leaks_connections k s : net_ok s → nm_running s = true → nm_locked s = false →
  nm_stopped s = false → bd_nm (discovery s) = true → localAddr s ∉ knownPeers (discovery s) →
  ∃ s', polls k s = NDone s' () ∧
    (∀ a, open_to a s' = (open_to a s + k * times a (knownPeers (discovery s)))%nat) ∧
    ∀ a, is_Some (nm_peers s' !! a) →
      is_Some (nm_peers s !! a) ∨ a ∈ knownPeers (discovery s).
Proof.
  intros Hok Hr Hl Hst Hnm Hloc. assert (dialling s) as Hd by done.
  clear Hok Hr Hl Hst Hnm. revert s Hloc Hd.
  induction k as [|k IH]; intros s Hloc Hd; [exists s; split_and!; [done|intros a; cbn; lia|by left]|].
  destruct (dial_all_open _ s Hd Hloc) as (s1 & Hr1 & Hd1 & Hl1 & Hdi1 & Ho1 & Hp1).
  destruct (IH s1) as (s2 & Hr2 & Ho2 & Hp2); [congruence|done|]. exists s2. cbn [polls].
  unfold runDiscovery. rewrite (no_stopped s (dl_ok s Hd)), (dl_stopped s Hd). unfold discoverPeers.
  rewrite Hr1. split_and!; [done|intros a; rewrite Ho2, Ho1, Hdi1; lia|].
  intros a Ha. destruct (Hp2 a Ha) as [Hs|Hs]; [by apply Hp1|right; congruence].
Qed.
End node.

(** ** A concrete network *)

Definition net0 : NetworkManager string :=
  NewNetworkManager "me" (NewBasicDiscovery ["a"; "b"]%string true).
Definition net1 : NetworkManager string := with_running true false net0.
Definition net2 : NetworkManager string := connect "x" net1.

Lemma net1_run : star net_step net0 net1.
Proof. eapply star_snoc; [apply star_refl|]. by apply (ns_done OpStart). Qed.
Lemma net2_run : star net_step net0 net2.
Proof. eapply star_snoc; [exact net1_run|]. by apply (ns_done (OpInbound "x")). Qed.

Lemma stop_outcomes_witness : nm_peers net2 ≠ ∅ ∧
  if nm_stopped net2 then Stop ["x"%string] net2 = NPanic
  else if decide (nm_peers net2 = ∅)
  then ∃ s', Stop ["x"%string] net2 = NDone s' (Ok ()) ∧ nm_running s' = false ∧ nm_locked s' = false
  else ∃ s', Stop ["x"%string] net2 = NHang s' ∧ nm_peers s' = nm_peers net2 ∧
    ∀ s2, star net_step s' s2 → GetNetworkHealth s2 = NHang s2 ∧
      (∀ msg, Broadcast msg s2 = NHang s2) ∧ (∀ ok a, DialPeer ok a s2 = NHang s2) ∧
      (∀ order', Stop order' s2 = NHang s2).
Proof.
  split; [by vm_compute|].
  apply (stop_outcomes "me" ["a"; "b"]%string true net2 ["x"%string]).
  - exact net2_run.
  - reflexivity.
  - reflexivity.
  - split; [apply NoDup_singleton|]. intros k. rewrite list_elem_of_singleton. cbn. split.
    + intros ->. by exists 0%nat.
    + intros [i Hi]. by apply lookup_singleton_Some in Hi as [? _].
Defined.

Lemma discovery_leaks_connections_witness : ∃ s', polls 5 net1 = NDone s' () ∧
  (∀ a, open_to a s' = (open_to a net1 + 5 * times a ["a"; "b"]%string)%nat) ∧
  ∀ a, is_Some (nm_peers s' !! a) → is_Some (nm_peers net1 !! a) ∨ a ∈ ["a"; "b"]%string.
Proof.
  apply (discovery_leaks_connections 5 net1).
  - exact (net_run_ok "me" ["a"; "b"]%string true net1 net1_run).
  - reflexivity.
  - reflexivity.
  - reflexivity.
  - reflexivity.
  - intros Hin. by apply (bool_decide_eq_true_2 _) in Hin.
Defined.

(** The end of an older connection unregisters the newer one to the same
    address, which stays open. *)
Example stale_close :
  match Close 0 (connect "a" (connect "a" net1)) with
  | NDone s _ => (nm_peers s !! "a"%string, open_to "a" s)
  | _ => (Some 0%nat, 0%nat)
  end = (None, 1%nat).
Proof. vm_compute. reflexivity. Qed.
