(* ===== verification/LockWatch.v ===== *)
(** * Deadlock detector: src/consensus/deadlock_detector.go

    The detector keeps, under the name of a lock, when and where it was last
    taken, and a monitor reports at every tick what has been held too long.
    [MutexWithDeadlockDetection] and [RWMutexWithDeadlockDetection] tell it
    of every call.  Between the mutex and the detector a goroutine can be
    interrupted, so a call of [Lock] is two steps, [enter] and [announce],
    and a call of [Unlock] two more, [withdraw] and [leave]; the step
    relation interleaves those of any number of goroutines with the ticks.
    The mutexes of package sync are modelled by who may enter; a waiting
    writer does not keep new readers out here, which only adds behaviours. *)
From Stdlib Require Import ZArith Lia.
From stdpp Require Import numbers prelude gmap strings.
From S2P Require Import Prelude GoFloat Maps.
Open Scope Z_scope.

Record lockInfo := mkLockInfo {
  lockName : string;
  acquiredAt : Z;
  goroutineID : Z;
  stackTrace : string;
  warningLogged : bool;
  errorLogged : bool }.

Inductive level := LevelWarn | LevelError.
#[export] Instance level_eq_dec : EqDecision level.
Proof. solve_decision. Defined.

(** What the monitor logs; a warning has no stack trace. *)
Record LogLine := mkLine {
  lg_level : level;
  lg_lock : string;
  lg_heldFor : Z;
  lg_goroutine : Z;
  lg_stack : option string }.

Record DeadlockDetector := mkDetector {
  dd_enabled : bool;
  warningThreshold : Z;
  errorThreshold : Z;
  activeLocks : gmap string lockInfo }.

Definition set_active (m : gmap string lockInfo) (dd : DeadlockDetector) : DeadlockDetector :=
  mkDetector (dd_enabled dd) (warningThreshold dd) (errorThreshold dd) m.

(** The monitor runs exactly when the detector is enabled. *)
Definition NewDeadlockDetector (enabled : bool) (warning error : Z) : DeadlockDetector :=
  mkDetector enabled warning error ∅.

Definition LockAcquired (now g : Z) (trace : string) (name : string) (dd : DeadlockDetector) :
    DeadlockDetector :=
  if dd_enabled dd
  then set_active (<[name := mkLockInfo name now g trace false false]> (activeLocks dd)) dd
  else dd.

Definition LockReleased (name : string) (dd : DeadlockDetector) : DeadlockDetector :=
  if dd_enabled dd then set_active (delete name (activeLocks dd)) dd else dd.

(** One lock of the loop of [checkLocks]. *)
Definition check_lock (dd : DeadlockDetector) (now : Z) (li : lockInfo) :
    lockInfo * list LogLine :=
  let held := time_sub now (acquiredAt li) in
  if (errorThreshold dd <? held) && negb (errorLogged li) then
    (mkLockInfo (lockName li) (acquiredAt li) (goroutineID li) (stackTrace li)
       (warningLogged li) true,
     [mkLine LevelError (lockName li) held (goroutineID li) (Some (stackTrace li))])
  else if (warningThreshold dd <? held) && negb (warningLogged li) then
    (mkLockInfo (lockName li) (acquiredAt li) (goroutineID li) (stackTrace li)
       true (errorLogged li),
     [mkLine LevelWarn (lockName li) held (goroutineID li) None])
  else (li, []).

Definition check_step (dd : DeadlockDetector) (now : Z)
    (st : gmap string lockInfo * list LogLine) (name : string) :
    gmap string lockInfo * list LogLine :=
  match st.1 !! name with
  | Some li => let '(li, lines) := check_lock dd now li in (<[name := li]> st.1, st.2 ++ lines)
  | None => st
  end.

Definition checkLocks (now : Z) (order : list string) (dd : DeadlockDetector) :
    DeadlockDetector * list LogLine :=
  let '(m, lines) := foldl (check_step dd now) (activeLocks dd, []) order in
  (set_active m dd, lines).

(** ** The wrapped mutexes *)

(** A lock knows its name and perhaps a detector; [wr_rw]: an RWMutex. *)
Record Wrapped := mkWrapped { wr_name : string; wr_rw : bool; wr_detector : bool }.

Definition NewMutexWithDeadlockDetection (name : string) (detector : bool) : Wrapped :=
  mkWrapped name false detector.
Definition NewRWMutexWithDeadlockDetection (name : string) (detector : bool) : Wrapped :=
  mkWrapped name true detector.

Inductive mode := Exclusive | Shared.
#[export] Instance mode_eq_dec : EqDecision mode.
Proof. solve_decision. Defined.

(** The name under which the detector knows a hold. *)
Definition lock_key (l : Wrapped) (m : mode) : string :=
  if wr_rw l then wr_name l +:+ match m with Exclusive => ".write" | Shared => ".read" end
  else wr_name l.

Inductive phase := Entered | Announced (since : Z) | Leaving.
#[export] Instance phase_eq_dec : EqDecision phase.
Proof. solve_decision. Defined.

(** A call of [Lock] or [RLock] on lock number [cl_lock], from the moment the
    mutex lets it in until it gives the mutex back. *)
Record call := mkCall { cl_lock : nat; cl_mode : mode; cl_gid : Z; cl_phase : phase }.
#[export] Instance call_eq_dec : EqDecision call.
Proof. solve_decision. Defined.

Record World := mkWorld { w_dd : DeadlockDetector; w_calls : gmap nat call; w_log : list LogLine }.

Section world.
Variable locks : list Wrapped.

Definition with_phase (p : phase) (c : call) : call :=
  mkCall (cl_lock c) (cl_mode c) (cl_gid c) p.

(** Package sync: a writer enters alone, a reader beside readers. *)
Definition may_enter (i : nat) (m : mode) (w : World) : bool :=
  bool_decide (map_Forall (λ _ c, cl_lock c = i → m = Shared ∧ cl_mode c = Shared) (w_calls w)).

(** [mu.Lock()], [mu.RLock()]: [None] while the call has to wait. *)
Definition enter (i : nat) (m : mode) (c : nat) (g : Z) (w : World) : option World :=
  if may_enter i m w
  then Some (mkWorld (w_dd w) (<[c := mkCall i m g Entered]> (w_calls w)) (w_log w))
  else None.

(** [m.detector.LockAcquired], if there is a detector. *)
Definition announce (now : Z) (trace : string) (c : nat) (k : call) (w : World) : World :=
  match locks !! cl_lock k with
  | Some l =>
      mkWorld (if wr_detector l then LockAcquired now (cl_gid k) trace (lock_key l (cl_mode k)) (w_dd w)
               else w_dd w)
        (<[c := with_phase (Announced now) k]> (w_calls w)) (w_log w)
  | None => w
  end.

Definition withdraw (c : nat) (k : call) (w : World) : World :=
  match locks !! cl_lock k with
  | Some l =>
      mkWorld (if wr_detector l then LockReleased (lock_key l (cl_mode k)) (w_dd w) else w_dd w)
        (<[c := with_phase Leaving k]> (w_calls w)) (w_log w)
  | None => w
  end.

(** [mu.Unlock()], [mu.RUnlock()]. *)
Definition leave (c : nat) (w : World) : World :=
  mkWorld (w_dd w) (delete c (w_calls w)) (w_log w).

(** The four methods, run without interruption. *)
Definition acquire (m : mode) (i : nat) (c : nat) (g now : Z) (trace : string) (w : World) :
    option World :=
  w ← enter i m c g w; Some (announce now trace c (mkCall i m g Entered) w).
Definition Lock := acquire Exclusive.
Definition RLock := acquire Shared.
Definition Unlock (c : nat) (k : call) (w : World) : World := leave c (withdraw c k w).
Definition RUnlock := Unlock.

(** One tick of [monitor]. *)
Definition monitor_tick (now : Z) (order : list string) (w : World) : World :=
  if dd_enabled (w_dd w)
  then let '(dd, lines) := checkLocks now order (w_dd w) in mkWorld dd (w_calls w) (w_log w ++ lines)
  else w.

Inductive lock_step (w : World) : World → Prop :=
| step_enter i l m c g w' : locks !! i = Some l → (m = Shared → wr_rw l = true) →
    w_calls w !! c = None → enter i m c g w = Some w' → lock_step w w'
| step_announce now trace c k : w_calls w !! c = Some k → cl_phase k = Entered →
    lock_step w (announce now trace c k w)
| step_withdraw c k now : w_calls w !! c = Some k → cl_phase k = Announced now →
    lock_step w (withdraw c k w)
| step_leave c k : w_calls w !! c = Some k → cl_phase k = Leaving → lock_step w (leave c w)
| step_tick now order : iter_order (activeLocks (w_dd w)) order →
    lock_step w (monitor_tick now order w).

Definition start (dd : DeadlockDetector) : World := mkWorld dd ∅ [].
End world.

(** The locks of a node, as its constructor makes them. *)
Definition node_locks : list Wrapped :=
  [NewRWMutexWithDeadlockDetection "stateMu" true;
   NewRWMutexWithDeadlockDetection "blockHeightMu" true;
   NewRWMutexWithDeadlockDetection "lastBlockHashMu" true;
   NewRWMutexWithDeadlockDetection "finalizedEventsMu" true;
   NewRWMutexWithDeadlockDetection "pendingEventsMu" true;
   NewRWMutexWithDeadlockDetection "checkpointsMu" true;
   NewRWMutexWithDeadlockDetection "errorCountMu" true;
   NewMutexWithDeadlockDetection "eventProcessingMu" true].
Definition node_detector : DeadlockDetector :=
  NewDeadlockDetector true 500000000 (2 * second).

(** ** One check *)

Definition errors (n : string) (lines : list LogLine) : nat :=
  length (filter (λ x, lg_lock x = n ∧ lg_level x = LevelError) lines).

Lemma errors_app n a b : errors n (a ++ b) = (errors n a + errors n b)%nat.
Proof. unfold errors. by rewrite filter_app, length_app. Qed.

Lemma check_lock_keeps dd now li :
  lockName (check_lock dd now li).1 = lockName li
  ∧ acquiredAt (check_lock dd now li).1 = acquiredAt li
  ∧ goroutineID (check_lock dd now li).1 = goroutineID li.
Proof. unfold check_lock. destruct (_ && _); [|destruct (_ && _)]; done. Qed.

(** The first overrun of the error threshold is logged, and no other. *)
Lemma check_lock_errors dd now li n : lockName li = n →
  (errors n (check_lock dd now li).2
   + (if errorLogged li then 1 else 0) = if errorLogged (check_lock dd now li).1 then 1 else 0)%nat
  ∧ errorLogged (check_lock dd now li).1
    = errorLogged li || (errorThreshold dd <? time_sub now (acquiredAt li)).
Proof.
  intros Hn. unfold check_lock, errors.
  destruct (errorThreshold dd <? _), (errorLogged li) eqn:Hl,
    (warningThreshold dd <? _), (warningLogged li); cbn [andb negb orb fst snd errorLogged];
    rewrite ?Hl, ?filter_cons, ?filter_nil; cbn [lg_lock lg_level];
    repeat case_decide; cbn [length]; naive_solver.
Qed.

Lemma check_lock_other dd now li n : lockName li ≠ n → errors n (check_lock dd now li).2 = 0%nat.
Proof.
  intros Hn. unfold check_lock, errors.
  destruct (_ && _); [|destruct (_ && _)]; cbn [snd]; rewrite ?filter_cons, ?filter_nil;
    cbn [lg_lock lg_level]; repeat case_decide; naive_solver.
Qed.

Lemma check_lock_lines dd now li x : x ∈ (check_lock dd now li).2 →
  lg_lock x = lockName li ∧ lg_heldFor x = time_sub now (acquiredAt li)
  ∧ lg_goroutine x = goroutineID li
  ∧ match lg_level x with LevelWarn => warningThreshold dd | LevelError => errorThreshold dd end
    < lg_heldFor x.
Proof.
  unfold check_lock.
  destruct (errorThreshold dd <? _) eqn:He, (errorLogged li),
    (warningThreshold dd <? _) eqn:Hw, (warningLogged li); cbn [andb negb snd]; intros Hx;
    try (by apply elem_of_nil in Hx); apply list_elem_of_singleton in Hx as ->; bool_to_prop; done.
Qed.

Lemma check_fold_map dd now order : ∀ m acc,
  (foldl (check_step dd now) (m, acc) order).1
  = foldl (λ m i, match m !! i with Some v => <[i := (check_lock dd now v).1]> m | None => m end)
      m order.
Proof.
  induction order as [|n order IH]; intros m acc; cbn [foldl]; [done|].
  unfold check_step at 2. cbn [fst snd]. destruct (m !! n) as [li|] eqn:Hm; [|apply IH].
  destruct (check_lock dd now li) as [li' ls]. apply IH.
Qed.

Lemma checkLocks_lookup now order dd n : iter_order (activeLocks dd) order →
  activeLocks (checkLocks now order dd).1 !! n
  = (λ li, (check_lock dd now li).1) <$> activeLocks dd !! n.
Proof.
  intros Ho. unfold checkLocks.
  pose proof (check_fold_map dd now order (activeLocks dd) []) as Hm.
  destruct (foldl (check_step dd now) _ order) as [m ls]. simpl in *. subst m.
  apply (foldl_update_order (λ _ li, (check_lock dd now li).1) _ _ _ Ho).
Qed.

Lemma check_fold_lines dd now order x : ∀ m acc, NoDup order →
  x ∈ (foldl (check_step dd now) (m, acc) order).2 →
  x ∈ acc ∨ ∃ n li, m !! n = Some li ∧ x ∈ (check_lock dd now li).2.
Proof.
  induction order as [|n order IH]; intros m acc Hnd Hx; cbn [foldl] in Hx; [by left|].
  apply NoDup_cons in Hnd as [Hn Hnd]. unfold check_step at 2 in Hx. cbn [fst snd] in Hx.
  destruct (m !! n) as [li|] eqn:Hm; [|by apply IH in Hx].
  destruct (check_lock dd now li) as [li' ls] eqn:Hc.
  assert (Hp : (foldl (check_step dd now) (<[n := li']> m, acc ++ ls) order).2
             = (foldl (check_step dd now) (m, acc ++ ls) order).2).
  { clear -Hn. revert m acc ls. induction order as [|j order IH]; intros m acc ls; cbn [foldl]; [done|].
    apply not_elem_of_cons in Hn as [Hj Hn]. unfold check_step at 2 4. cbn [fst snd].
    rewrite lookup_insert_ne by done. destruct (m !! j) as [lj|]; [|by apply IH].
    destruct (check_lock dd now lj) as [lj' k]. rewrite insert_insert_ne by done.
    rewrite <- !app_assoc. by apply IH. }
  rewrite Hp in Hx. apply IH in Hx as [Hx|Hx]; [|by right|done].
  apply elem_of_app in Hx as [Hx|Hx]; [by left|right]. exists n, li. by rewrite Hc.
Qed.

Lemma checkLocks_lines now order dd x : iter_order (activeLocks dd) order →
  x ∈ (checkLocks now order dd).2 →
  ∃ n li, activeLocks dd !! n = Some li ∧ x ∈ (check_lock dd now li).2.
Proof.
  intros [Hnd _]. unfold checkLocks.
  pose proof (check_fold_lines dd now order x (activeLocks dd) [] Hnd) as Hl.
  destruct (foldl (check_step dd now) _ order) as [m ls]. simpl in *. intros Hx.
  destruct (Hl Hx) as [Hx'|Hx']; [by apply elem_of_nil in Hx'|done].
Qed.

Definition names_ok (m : gmap string lockInfo) : Prop := map_Forall (λ n li, lockName li = n) m.

Lemma check_fold_errors dd now order n : ∀ m acc, NoDup order → names_ok m →
  errors n (foldl (check_step dd now) (m, acc) order).2
  = (errors n acc + if decide (n ∈ order)
     then match m !! n with Some li => errors n (check_lock dd now li).2 | None => 0 end else 0)%nat.
Proof.
  induction order as [|j order IH]; intros m acc Hnd Hm; cbn [foldl snd].
  { rewrite decide_False by (by intros ?%elem_of_nil). lia. }
  apply NoDup_cons in Hnd as [Hj Hnd]. unfold check_step at 2. cbn [fst snd].
  destruct (m !! j) as [li|] eqn:Hmj.
  - pose proof (check_lock_keeps dd now li) as (Hk & _ & _). pose proof (Hm _ _ Hmj) as Hli.
    destruct (check_lock dd now li) as [li' ls] eqn:Hc. cbn [fst] in Hk.
    rewrite IH; [|done|by apply map_Forall_insert_2; [congruence|]].
    rewrite errors_app. destruct (decide (n = j)) as [->|Hne].
    + rewrite (decide_False (P := j ∈ order)), (decide_True (P := j ∈ j :: order)) by (done || by left).
      rewrite Hmj, Hc. cbn [snd]. lia.
    + rewrite lookup_insert_ne by done.
      assert (errors n ls = 0%nat) as ->.
      { pose proof (check_lock_other dd now li n) as H0. rewrite Hc in H0. apply H0. congruence. }
      destruct (decide (n ∈ order)), (decide (n ∈ j :: order)); try lia; set_solver.
  - rewrite IH by done. destruct (decide (n = j)) as [->|Hne].
    + rewrite (decide_False (P := j ∈ order)), (decide_True (P := j ∈ j :: order)) by (done || by left).
      rewrite Hmj. lia.
    + destruct (decide (n ∈ order)), (decide (n ∈ j :: order)); try lia; set_solver.
Qed.

Lemma checkLocks_errors now order dd n : iter_order (activeLocks dd) order →
  names_ok (activeLocks dd) →
  errors n (checkLocks now order dd).2
  = match activeLocks dd !! n with Some li => errors n (check_lock dd now li).2 | None => 0%nat end.
Proof.
  intros [Hnd Ho] Hm. unfold checkLocks.
  pose proof (check_fold_errors dd now order n (activeLocks dd) [] Hnd Hm) as He.
  destruct (foldl (check_step dd now) _ order) as [m ls]. cbn [snd] in *. rewrite He.
  case_decide as Hin; [done|]. destruct (activeLocks dd !! n) eqn:Hn; [|done].
  destruct Hin. apply Ho. by eexists.
Qed.

(** ** The detector against the mutexes *)

Section facts.
Variable locks : list Wrapped.

Definition offered (l : Wrapped) (m : mode) : Prop := m = Shared → wr_rw l = true.

(** Every lock has the detector, and no two holds share a name. *)
Definition watched : Prop :=
  Forall (λ l, wr_detector l = true) locks ∧
  ∀ i j l l' m m', locks !! i = Some l → locks !! j = Some l' → offered l m → offered l' m' →
    lock_key l m = lock_key l' m' → i = j ∧ m = m'.

(** A call that holds lock [l] under the name [n]. *)
Definition holds (w : World) (n : string) (c : nat) (k : call) (l : Wrapped) : Prop :=
  w_calls w !! c = Some k ∧ locks !! cl_lock k = Some l ∧ lock_key l (cl_mode k) = n.

Record watch_inv (dd0 : DeadlockDetector) (w : World) : Prop := {
  wi_config : set_active ∅ (w_dd w) = set_active ∅ dd0;
  wi_calls : ∀ c k, w_calls w !! c = Some k →
    ∃ l, locks !! cl_lock k = Some l ∧ offered l (cl_mode k);
  wi_excl : ∀ c c' k k', w_calls w !! c = Some k → w_calls w !! c' = Some k' →
    cl_lock k = cl_lock k' → c = c' ∨ cl_mode k = Shared ∧ cl_mode k' = Shared;
  wi_names : names_ok (activeLocks (w_dd w));
  wi_sound : ∀ n li, activeLocks (w_dd w) !! n = Some li → ∃ c k l, holds w n c k l
    ∧ cl_phase k = Announced (acquiredAt li) ∧ cl_gid k = goroutineID li;
  wi_seen : ∀ n c k l t, holds w n c k l → cl_mode k = Exclusive → cl_phase k = Announced t →
    ∃ li, activeLocks (w_dd w) !! n = Some li ∧ acquiredAt li = t ∧ goroutineID li = cl_gid k }.

Context (dd0 : DeadlockDetector) (Hon : dd_enabled dd0 = true) (Hw : watched).

Lemma detector_of i l : locks !! i = Some l → wr_detector l = true.
Proof using Hw. intros Hl. destruct Hw as [H _]. rewrite Forall_lookup in H. by eapply H. Qed.

Lemma enabled_inv w : watch_inv dd0 w → dd_enabled (w_dd w) = true.
Proof using Hon. intros Hi. pose proof (f_equal dd_enabled (wi_config _ _ Hi)) as He. simpl in He. congruence. Qed.

(** An exclusive hold is the only one of its name. *)
Lemma sole_holder w n c k l c' k' l' : watch_inv dd0 w → holds w n c k l → holds w n c' k' l' →
  cl_mode k = Exclusive → c = c' ∧ k = k'.
Proof using Hw.
  intros Hi (Hc & Hl & Hn) (Hc' & Hl' & Hn') Hm.
  destruct (wi_calls _ _ Hi _ _ Hc) as (? & ? & Ho), (wi_calls _ _ Hi _ _ Hc') as (? & ? & Ho').
  simplify_eq. destruct Hw as [_ Hinj].
  destruct (Hinj _ _ _ _ _ _ Hl Hl' Ho Ho' (eq_sym Hn')) as [Hij Hmm].
  destruct (wi_excl _ _ Hi _ _ _ _ Hc Hc' Hij) as [->|[Hs _]]; [by simplify_eq|congruence].
Qed.

Lemma start_inv : activeLocks dd0 = ∅ → watch_inv dd0 (start dd0).
Proof.
  intros He. split; cbn [start w_dd w_calls]; try setoid_rewrite lookup_empty; try done.
  - rewrite He. apply map_Forall_empty.
  - rewrite He. intros ? ?. by rewrite lookup_empty.
  - by intros ????? (? & _).
Qed.

Lemma enter_inv i l m c g w w' : watch_inv dd0 w → locks !! i = Some l → offered l m →
  w_calls w !! c = None → enter i m c g w = Some w' → watch_inv dd0 w'.
Proof.
  intros [Hcf Hcl Hex Hnm Hso Hse] Hl Ho Hc. unfold enter, may_enter.
  case_bool_decide as Hf; [|done]. intros [= <-].
  split; cbn [w_dd w_calls]; [done| |  |done| |].
  - intros c' k [[<- <-]|[_ Hk]]%lookup_insert_Some; [by exists l|by eapply Hcl].
  - intros c1 c2 k1 k2 [[<- <-]|[? H1]]%lookup_insert_Some [[<- <-]|[? H2]]%lookup_insert_Some He;
      [by left| | |by eapply Hex]; right; cbn [cl_lock cl_mode] in *.
    + by apply (Hf _ _ H2).
    + destruct (Hf _ _ H1 He). done.
  - intros n li Hn. destruct (Hso _ _ Hn) as (c' & k & l' & (? & ? & ?) & ?).
    exists c', k, l'. split; [split; [|done]|done]. cbn. rewrite lookup_insert_ne by congruence. done.
  - intros n c' k l' t (Hk & ? & ?) ? Hp. cbn in Hk.
    apply lookup_insert_Some in Hk as [[_ <-]|[_ Hk]]; [done|]. by eapply Hse.
Qed.

Lemma leave_inv c k w : watch_inv dd0 w → w_calls w !! c = Some k → cl_phase k = Leaving →
  watch_inv dd0 (leave c w).
Proof.
  intros [Hcf Hcl Hex Hnm Hso Hse] Hk Hp. split; cbn [leave w_dd w_calls]; [done| | |done| |].
  - intros c' k' [_ ?]%lookup_delete_Some. by eapply Hcl.
  - intros c1 c2 k1 k2 [_ ?]%lookup_delete_Some [_ ?]%lookup_delete_Some. by apply Hex.
  - intros n li Hn. destruct (Hso _ _ Hn) as (c' & k' & l' & (Hk' & ? & ?) & Hp' & ?).
    exists c', k', l'. split; [split; [|done]|done]. cbn.
    rewrite lookup_delete_ne; [done|]. intros <-. simplify_eq. congruence.
  - intros n c' k' l' t (Hk' & ? & ?) ? Hp'. cbn in Hk'.
    apply lookup_delete_Some in Hk' as [_ Hk']. by eapply Hse.
Qed.

(** A change of phase keeps who holds what. *)
Lemma phase_calls (w : World) c k p : watch_inv dd0 w → w_calls w !! c = Some k →
  (∀ c' k', <[c := with_phase p k]> (w_calls w) !! c' = Some k' →
     ∃ l, locks !! cl_lock k' = Some l ∧ offered l (cl_mode k'))
  ∧ (∀ c1 c2 k1 k2, <[c := with_phase p k]> (w_calls w) !! c1 = Some k1 →
       <[c := with_phase p k]> (w_calls w) !! c2 = Some k2 → cl_lock k1 = cl_lock k2 →
       c1 = c2 ∨ cl_mode k1 = Shared ∧ cl_mode k2 = Shared).
Proof.
  intros Hi Hk. split.
  - intros c' k' [[_ <-]|[_ Hk']]%lookup_insert_Some;
      [exact (wi_calls _ _ Hi _ _ Hk)|exact (wi_calls _ _ Hi _ _ Hk')].
  - intros c1 c2 k1 k2 [[<- <-]|[? H1]]%lookup_insert_Some [[<- <-]|[? H2]]%lookup_insert_Some He.
    + by left.
    + exact (wi_excl _ _ Hi _ _ _ _ Hk H2 He).
    + exact (wi_excl _ _ Hi _ _ _ _ H1 Hk He).
    + exact (wi_excl _ _ Hi _ _ _ _ H1 H2 He).
Qed.

Lemma announce_inv now trace c k w : watch_inv dd0 w → w_calls w !! c = Some k →
  cl_phase k = Entered → watch_inv dd0 (announce locks now trace c k w).
Proof using Hon Hw.
  intros Hi Hk Hp. destruct (wi_calls _ _ Hi _ _ Hk) as (l & Hl & Ho).
  destruct (phase_calls w c k (Announced now) Hi Hk) as [Hcl Hex].
  assert (Hh : holds w (lock_key l (cl_mode k)) c k l) by done.
  unfold announce. rewrite Hl, (detector_of _ _ Hl). unfold LockAcquired.
  rewrite (enabled_inv _ Hi).
  split; cbn [w_dd w_calls set_active activeLocks dd_enabled]; [exact (wi_config _ _ Hi)|done|done| | |].
  - apply map_Forall_insert_2; [done|apply Hi].
  - intros n li [[<- <-]|[Hne Hn]]%lookup_insert_Some.
    + exists c, (with_phase (Announced now) k), l. split; [|done]. split; [|done].
      cbn. apply lookup_insert_eq.
    + destruct (wi_sound _ _ Hi _ _ Hn) as (c' & k' & l' & (? & ? & ?) & ? & ?).
      exists c', k', l'. split; [split; [|done]|done]. cbn. rewrite lookup_insert_ne; [done|].
      by intros <-; simplify_eq.
  - intros n c' k' l' t (Hk' & Hl' & Hn) Hm Ht. cbn in Hk'.
    apply lookup_insert_Some in Hk' as [[<- <-]|[Hne Hk']].
    + cbn in Hl', Hn, Ht. simplify_eq. eexists. by rewrite lookup_insert_eq.
    + destruct (wi_seen _ _ Hi n c' k' l' t) as (li & Hli & ?); [done..|].
      exists li. split; [|done]. rewrite lookup_insert_ne; [done|]. intros <-.
      destruct (sole_holder w _ c' k' l' c k l Hi (conj Hk' (conj Hl' eq_refl))) as [? _]; [|done|done].
      done.
Qed.

Lemma withdraw_inv t c k w : watch_inv dd0 w → w_calls w !! c = Some k →
  cl_phase k = Announced t → watch_inv dd0 (withdraw locks c k w).
Proof using Hon Hw.
  intros Hi Hk Hp. destruct (wi_calls _ _ Hi _ _ Hk) as (l & Hl & Ho).
  destruct (phase_calls w c k Leaving Hi Hk) as [Hcl Hex].
  assert (Hh : holds w (lock_key l (cl_mode k)) c k l) by done.
  unfold withdraw. rewrite Hl, (detector_of _ _ Hl). unfold LockReleased.
  rewrite (enabled_inv _ Hi).
  split; cbn [w_dd w_calls set_active activeLocks dd_enabled]; [exact (wi_config _ _ Hi)|done|done| | |].
  - apply map_Forall_delete, Hi.
  - intros n li [Hne Hn]%lookup_delete_Some.
    destruct (wi_sound _ _ Hi _ _ Hn) as (c' & k' & l' & (? & ? & ?) & ? & ?).
    exists c', k', l'. split; [split; [|done]|done]. cbn. rewrite lookup_insert_ne; [done|].
    by intros <-; simplify_eq.
  - intros n c' k' l' s (Hk' & Hl' & Hn) Hm Ht. cbn in Hk'.
    apply lookup_insert_Some in Hk' as [[<- <-]|[Hne Hk']]; [done|].
    destruct (wi_seen _ _ Hi n c' k' l' s) as (li & Hli & ?); [done..|].
    exists li. split; [|done]. rewrite lookup_delete_ne; [done|]. intros <-.
    destruct (sole_holder w _ c' k' l' c k l Hi (conj Hk' (conj Hl' eq_refl))) as [? _]; [|done|done].
    done.
Qed.

Lemma tick_dd now order w : dd_enabled (w_dd w) = true →
  monitor_tick now order w = mkWorld (checkLocks now order (w_dd w)).1 (w_calls w)
    (w_log w ++ (checkLocks now order (w_dd w)).2).
Proof. intros He. unfold monitor_tick. rewrite He. by destruct (checkLocks _ _ _). Qed.

Lemma check_config now order dd : set_active ∅ (checkLocks now order dd).1 = set_active ∅ dd.
Proof. unfold checkLocks. by destruct (foldl _ _ _). Qed.

Lemma tick_inv now order w : watch_inv dd0 w → iter_order (activeLocks (w_dd w)) order →
  watch_inv dd0 (monitor_tick now order w).
Proof using Hon.
  intros Hi Ho. rewrite (tick_dd _ _ _ (enabled_inv _ Hi)).
  destruct Hi as [Hcf Hcl Hex Hnm Hso Hse].
  split; cbn [w_dd w_calls]; [by rewrite check_config|done|done| | |].
  - intros n li'. rewrite (checkLocks_lookup _ _ _ _ Ho), fmap_Some. intros (li & Hn & ->).
    rewrite (proj1 (check_lock_keeps _ _ _)). by apply Hnm.
  - intros n li'. rewrite (checkLocks_lookup _ _ _ _ Ho), fmap_Some. intros (li & Hn & ->).
    destruct (check_lock_keeps (w_dd w) now li) as (_ & -> & ->). by apply Hso.
  - intros n c k l t Hh Hm Ht. destruct (Hse n c k l t Hh Hm Ht) as (li & Hn & Hat & Hg).
    exists (check_lock (w_dd w) now li).1. rewrite (checkLocks_lookup _ _ _ _ Ho), Hn.
    destruct (check_lock_keeps (w_dd w) now li) as (_ & -> & ->). done.
Qed.

Lemma step_inv w w' : watch_inv dd0 w → lock_step locks w w' → watch_inv dd0 w'.
Proof using Hon Hw.
  intros Hi Hs. destruct Hs.
  - by eapply enter_inv.
  - by apply announce_inv.
  - by eapply withdraw_inv.
  - by eapply leave_inv.
  - by apply tick_inv.
Qed.

Lemma world_run_inv w w' : watch_inv dd0 w → star (lock_step locks) w w' → watch_inv dd0 w'.
Proof using Hon Hw. intros Hi. apply star_invariant; [apply step_inv|done]. Qed.

(** While call [c] stays as it is. *)
Definition held_run (c : nat) (k : call) : World → World → Prop :=
  star (λ a b, lock_step locks a b ∧ w_calls b !! c = Some k).

Lemma held_run_star c k w w' : held_run c k w w' → star (lock_step locks) w w'.
Proof. induction 1; [apply star_refl|]. by eapply star_snoc; [|apply H0]. Qed.

Lemma held_run_calls c k w w' : w_calls w !! c = Some k → held_run c k w w' →
  w_calls w' !! c = Some k.
Proof. intros Hk H. by destruct H as [|??? _ [_ ?]]. Qed.

(** Nobody enters beside an exclusive hold. *)
Lemma excluded c k w m : w_calls w !! c = Some k → cl_mode k = Exclusive →
  may_enter (cl_lock k) m w = false.
Proof.
  intros Hk Hm. apply bool_decide_eq_false. intros Hf. destruct (Hf c k Hk eq_refl). congruence.
Qed.

(** The entry of an exclusive hold, and how often it was reported. *)
Definition reported (n : string) (t : Z) (base : nat) (w : World) : Prop :=
  ∃ li, activeLocks (w_dd w) !! n = Some li ∧ acquiredAt li = t
    ∧ errors n (w_log w) = (base + if errorLogged li then 1 else 0)%nat.

Lemma reported_frame n t base w w' : reported n t base w → w_log w' = w_log w →
  activeLocks (w_dd w') !! n = activeLocks (w_dd w) !! n → reported n t base w'.
Proof. intros (li & ? & ? & ?) Hl Ha. exists li. by rewrite Hl, Ha. Qed.

Lemma reported_tick n t base now order w : watch_inv dd0 w →
  iter_order (activeLocks (w_dd w)) order → reported n t base w →
  reported n t base (monitor_tick now order w)
  ∧ (errorThreshold dd0 < time_sub now t →
     errors n (w_log (monitor_tick now order w)) = S base).
Proof using Hon.
  intros Hi Ho (li & Hn & <- & He). rewrite (tick_dd _ _ _ (enabled_inv _ Hi)).
  pose proof (checkLocks_errors now order (w_dd w) n Ho (wi_names _ _ Hi)) as Hc.
  rewrite Hn in Hc.
  destruct (check_lock_errors (w_dd w) now li n (wi_names _ _ Hi _ _ Hn)) as [Hcount Hflag].
  destruct (check_lock_keeps (w_dd w) now li) as (_ & Hat & _).
  pose proof (f_equal errorThreshold (wi_config _ _ Hi)) as Hth. cbn in Hth.
  cbn [w_log]. rewrite errors_app, He, Hc. split.
  - exists (check_lock (w_dd w) now li).1. cbn [w_dd w_log].
    rewrite (checkLocks_lookup _ _ _ _ Ho), Hn. split; [done|]. split; [done|].
    rewrite errors_app, He, Hc. destruct (errorLogged li), (errorLogged (check_lock _ _ _).1); lia.
  - intros Hlt. rewrite Hth in Hflag.
    apply Z.ltb_lt in Hlt. rewrite Hlt, orb_true_r in Hflag. rewrite Hflag in Hcount.
    destruct (errorLogged li); lia.
Qed.

Lemma reported_step n t base c k l w w' : watch_inv dd0 w → holds w n c k l →
  cl_mode k = Exclusive → reported n t base w → lock_step locks w w' → w_calls w' !! c = Some k →
  cl_phase k = Announced t → reported n t base w'.
Proof using Hon Hw.
  intros Hi Hh Hm Hr Hs Hk' Hp. destruct Hs as [i l' m c' g w' Hl' Ho Hc' He| | | |].
  - unfold enter in He. case_match; simplify_eq. by eapply reported_frame.
  - destruct (wi_calls _ _ Hi _ _ H) as (l' & Hl' & _). unfold announce in *.
    rewrite Hl', (detector_of _ _ Hl') in *. unfold LockAcquired in *.
    rewrite (enabled_inv _ Hi) in *. eapply reported_frame; [done|done|]. cbn.
    apply lookup_insert_ne. intros Hkey.
    destruct (sole_holder w n c k l c0 k0 l' Hi Hh) as [-> ->]; [done|done|congruence].
  - destruct (wi_calls _ _ Hi _ _ H) as (l' & Hl' & _). unfold withdraw in *.
    rewrite Hl', (detector_of _ _ Hl') in *. unfold LockReleased in *.
    rewrite (enabled_inv _ Hi) in *. eapply reported_frame; [done|done|]. cbn.
    apply lookup_delete_ne. intros Hkey.
    destruct (sole_holder w n c k l c0 k0 l' Hi Hh) as [-> ->]; [done|done|].
    cbn in Hk'. rewrite lookup_insert_eq in Hk'. simplify_eq. by rewrite <- Hk' in Hp.
  - by eapply reported_frame.
  - by apply reported_tick.
Qed.

Lemma reported_run n t base c k l w w' : watch_inv dd0 w → holds w n c k l →
  cl_mode k = Exclusive → cl_phase k = Announced t → reported n t base w → held_run c k w w' →
  reported n t base w' ∧ watch_inv dd0 w' ∧ holds w' n c k l.
Proof using Hon Hw.
  intros Hi Hh Hm Hp Hr Hrun. induction Hrun as [|w w1 w2 _ IH [Hs Hk]]; [done|].
  destruct (IH Hi Hh Hr) as (Hr1 & Hi1 & Hh1). split_and!.
  - by eapply reported_step.
  - by eapply step_inv.
  - by destruct Hh1 as (_ & ? & ?).
Qed.

(** What the monitor reports is true, for writers and readers, in every
    interleaving: each line names a call that has told the detector of its
    acquisition and not of its release, the goroutine that made it, and for
    how long, which is more than the threshold of the line's level. *)
Theorem alarms_are_true w now order x : activeLocks dd0 = ∅ →
  star (lock_step locks) (start dd0) w → iter_order (activeLocks (w_dd w)) order →
  x ∈ (checkLocks now order (w_dd w)).2 →
  ∃ c k l t, holds w (lg_lock x) c k l ∧ cl_phase k = Announced t
    ∧ cl_gid k = lg_goroutine x ∧ lg_heldFor x = time_sub now t
    ∧ match lg_level x with LevelWarn => warningThreshold dd0 | LevelError => errorThreshold dd0 end
      < lg_heldFor x.
Proof using Hon Hw.
  intros He Hr Ho Hx. pose proof (world_run_inv _ _ (start_inv He) Hr) as Hi.
  destruct (checkLocks_lines _ _ _ _ Ho Hx) as (n & li & Hn & Hli).
  destruct (check_lock_lines _ _ _ _ Hli) as (Hname & Hheld & Hg & Hlt).
  destruct (wi_sound _ _ Hi _ _ Hn) as (c & k & l & Hh & Hp & Hgid).
  exists c, k, l, (acquiredAt li). rewrite Hname, (wi_names _ _ Hi _ _ Hn).
  pose proof (f_equal warningThreshold (wi_config _ _ Hi)) as H1.
  pose proof (f_equal errorThreshold (wi_config _ _ Hi)) as H2. cbn in H1, H2.
  rewrite <- H1, <- H2. split_and!; (done || congruence).
Qed.

(** C18: A lock that is held exclusively and never given back, as in a
    deadlock: nobody else ever enters, reading or writing, and the monitor
    reports it as an error at the first tick past the threshold, once, however
    many ticks and other calls there are before and after. *)
Theorem deadlock_reported w c k l t trace w' : activeLocks dd0 = ∅ →
  star (lock_step locks) (start dd0) w →
  w_calls w !! c = Some k → cl_phase k = Entered → cl_mode k = Exclusive →
  locks !! cl_lock k = Some l →
  held_run c (with_phase (Announced t) k) (announce locks t trace c k w) w' →
  (∀ m, may_enter (cl_lock k) m w' = false)
  ∧ ∀ now order, iter_order (activeLocks (w_dd w')) order → errorThreshold dd0 < time_sub now t →
    errors (lock_key l Exclusive) (w_log (monitor_tick now order w'))
    = S (errors (lock_key l Exclusive) (w_log w)).
Proof using Hon Hw.
  intros He Hr Hk Hp Hm Hl Hrun. pose proof (world_run_inv _ _ (start_inv He) Hr) as Hi.
  pose proof (announce_inv t trace c k w Hi Hk Hp) as Hi1.
  destruct (reported_run (lock_key l Exclusive) t (errors (lock_key l Exclusive) (w_log w))
    c (with_phase (Announced t) k) l (announce locks t trace c k w) w') as (Hr' & Hi' & Hh');
    [done| |done|done| |done|].
  - unfold announce. rewrite Hl. split; [apply lookup_insert_eq|]. cbn. by rewrite Hm.
  - unfold announce. rewrite Hl, (detector_of _ _ Hl), Hm. unfold LockAcquired.
    rewrite (enabled_inv _ Hi). exists (mkLockInfo (lock_key l Exclusive) t (cl_gid k) trace false false).
    cbn [w_dd w_log set_active activeLocks errorLogged]. rewrite lookup_insert_eq. split_and!; [done..|lia].
  - split.
    + intros m. destruct Hh' as (Hk' & _). by apply (excluded c _ w' m Hk').
    + intros now order Ho Hlt.
      exact (proj2 (reported_tick _ _ _ now order w' Hi' Ho Hr') Hlt).
Qed.

(** The monitor ticking at the given times. *)
Definition ticking : World → list Z → World :=
  foldl (λ w now, monitor_tick now (map_to_list (activeLocks (w_dd w))).*1 w).

(** Ticks say nothing of a name that has no entry. *)
Lemma ticks_silent n ticks : ∀ w, watch_inv dd0 w → activeLocks (w_dd w) !! n = None →
  w_calls (ticking w ticks) = w_calls w
  ∧ ∀ x, x ∈ w_log (ticking w ticks) → lg_lock x = n → x ∈ w_log w.
Proof using Hon.
  unfold ticking. induction ticks as [|now ticks IH]; intros w Hi Hn; cbn [foldl]; [done|].
  pose proof (iter_order_default (activeLocks (w_dd w))) as Ho.
  destruct (IH (monitor_tick now (map_to_list (activeLocks (w_dd w))).*1 w)) as (H1 & H2).
  { by apply tick_inv. }
  { rewrite (tick_dd _ _ _ (enabled_inv _ Hi)). cbn. by rewrite (checkLocks_lookup _ _ _ _ Ho), Hn. }
  rewrite H1. rewrite (tick_dd _ _ _ (enabled_inv _ Hi)) at 1. split; [done|].
  intros x Hx Hname. apply H2 in Hx; [|done].
  rewrite (tick_dd _ _ _ (enabled_inv _ Hi)) in Hx. cbn [w_log] in Hx.
  apply elem_of_app in Hx as [Hx|Hx]; [done|].
  destruct (checkLocks_lines _ _ _ _ Ho Hx) as (n' & li & Hli & Hl).
  destruct (check_lock_lines _ _ _ _ Hl) as (Hx' & _). rewrite (wi_names _ _ Hi _ _ Hli) in Hx'.
  congruence.
Qed.

(** Readers share one entry: when one of two readers of a lock gives it
    back, the other still holds it, keeps every writer out, and is unknown to
    the detector, which says nothing about that lock however long it is held. *)
Theorem readers_unseen w c c' k k' l t t' ticks : activeLocks dd0 = ∅ →
  star (lock_step locks) (start dd0) w → c ≠ c' →
  holds w (lock_key l Shared) c k l → cl_mode k = Shared → cl_phase k = Announced t →
  holds w (lock_key l Shared) c' k' l → cl_mode k' = Shared → cl_phase k' = Announced t' →
  let w1 := withdraw locks c k w in
  activeLocks (w_dd w1) !! lock_key l Shared = None
  ∧ w_calls (ticking w1 ticks) !! c' = Some k'
  ∧ may_enter (cl_lock k') Exclusive (ticking w1 ticks) = false
  ∧ ∀ x, x ∈ w_log (ticking w1 ticks) → lg_lock x = lock_key l Shared → x ∈ w_log w.
Proof using Hon Hw.
  intros He Hr Hne (Hk & Hl & _) Hm Hp (Hk' & Hl' & _) Hm' Hp' w1.
  pose proof (world_run_inv _ _ (start_inv He) Hr) as Hi.
  assert (Hw1 : watch_inv dd0 w1) by (by eapply withdraw_inv).
  assert (activeLocks (w_dd w1) !! lock_key l Shared = None ∧ w_calls w1 !! c' = Some k'
               ∧ w_log w1 = w_log w) as (Hn & Hc & Hlog).
  { unfold w1, withdraw. rewrite Hl, (detector_of _ _ Hl), Hm. unfold LockReleased.
    rewrite (enabled_inv _ Hi). cbn. by rewrite lookup_delete_eq, lookup_insert_ne. }
  destruct (ticks_silent _ ticks w1 Hw1 Hn) as [Hcalls Hsilent]. rewrite Hcalls, <- Hlog.
  split_and!; [done|done| |done].
  apply bool_decide_eq_false. intros Hf. rewrite Hcalls in Hf.
  by destruct (Hf c' k' Hc eq_refl).
Qed.
End facts.

(** ** The locks of a node *)

Lemma node_watched : watched node_locks.
Proof.
  split; [by repeat constructor|]. intros i j l l' m m' Hi Hj Ho Ho' He.
  destruct i as [|[|[|[|[|[|[|[|i]]]]]]]], j as [|[|[|[|[|[|[|[|j]]]]]]]];
  simpl in Hi, Hj; rewrite ?lookup_nil in *; simplify_eq; destruct m, m';
  first [done | by specialize (Ho eq_refl) | by specialize (Ho' eq_refl)].
Qed.

(** Calls 0 and 1 take checkpointsMu (lock 5) for reading, call 2 takes
    stateMu (lock 0) for writing. *)
Definition reader (g : Z) (p : phase) : call := mkCall 5 Shared g p.
Definition writer (p : phase) : call := mkCall 0 Exclusive 3 p.
Definition entered : World :=
  default (start node_detector) (enter 0 Exclusive 2 3 (start node_detector)).
Definition two_readers : World :=
  default (start node_detector)
    (w ← RLock node_locks 5 0 1 0 "a" (start node_detector); RLock node_locks 5 1 2 second "b" w).

Lemma entered_run : star (lock_step node_locks) (start node_detector) entered.
Proof.
  eapply star_snoc; [apply star_refl|].
  eapply (step_enter _ _ 0 _ Exclusive 2 3); [reflexivity|done|reflexivity|vm_compute; reflexivity].
Qed.

Lemma two_readers_run : star (lock_step node_locks) (start node_detector) two_readers.
Proof.
  eapply star_trans with (announce node_locks 0 "a" 0 (reader 1 Entered)
    (default (start node_detector) (enter 5 Shared 0 1 (start node_detector)))).
  - eapply star_snoc; [eapply star_snoc; [apply star_refl|]|].
    + eapply (step_enter _ _ 5 _ Shared 0 1); [reflexivity|done|reflexivity|vm_compute; reflexivity].
    + apply step_announce; [vm_compute; reflexivity|reflexivity].
  - eapply star_snoc; [eapply star_snoc; [apply star_refl|]|].
    + eapply (step_enter _ _ 5 _ Shared 1 2); [reflexivity|done|vm_compute; reflexivity|vm_compute; reflexivity].
    + eapply (step_announce _ _ second "b" 1 (reader 2 Entered)); [vm_compute; reflexivity|reflexivity].
Qed.

(** A node whose stateMu is written for ten seconds: the tick after three
    seconds reports it. *)
Definition stuck : World := announce node_locks 0 "stack" 2 (writer Entered) entered.

Lemma alarms_are_true_witness : ∃ x,
  x ∈ (checkLocks (3 * second) ["stateMu.write"%string] (w_dd stuck)).2
  ∧ lg_level x = LevelError ∧ 2 * second < lg_heldFor x.
Proof.
  eexists. split; [by left|]. split; [reflexivity|].
  destruct (alarms_are_true node_locks node_detector eq_refl node_watched stuck (3 * second)
    ["stateMu.write"%string]
    (mkLine LevelError "stateMu.write" (3 * second) 3 (Some "stack"%string)) eq_refl)
    as (c & k & l & t & _ & _ & _ & _ & Hlt).
  - eapply star_snoc; [apply entered_run|]. apply step_announce; reflexivity.
  - solve_order.
  - by left.
  - exact Hlt.
Defined.

Lemma deadlock_reported_witness :
  may_enter 0 Shared stuck = false
  ∧ errors "stateMu.write" (w_log (monitor_tick (3 * second) ["stateMu.write"%string] stuck)) = 1%nat.
Proof.
  destruct (deadlock_reported node_locks node_detector eq_refl node_watched entered 2
    (writer Entered) (NewRWMutexWithDeadlockDetection "stateMu" true) 0 "stack" stuck eq_refl
    entered_run) as [H1 H2]; [vm_compute; reflexivity|reflexivity|reflexivity|reflexivity|apply star_refl|].
  split; [apply (H1 Shared)|]. apply (H2 (3 * second) ["stateMu.write"%string]); [solve_order|].
  vm_compute. reflexivity.
Defined.

Lemma readers_unseen_witness :
  let w1 := withdraw node_locks 0 (reader 1 (Announced 0)) two_readers in
  activeLocks (w_dd w1) !! "checkpointsMu.read"%string = None
  ∧ may_enter 5 Exclusive (ticking w1 [10 * second; 60 * second]) = false.
Proof.
  destruct (readers_unseen node_locks node_detector eq_refl node_watched two_readers 0 1
    (reader 1 (Announced 0)) (reader 2 (Announced second))
    (NewRWMutexWithDeadlockDetection "checkpointsMu" true) 0 second [10 * second; 60 * second]
    eq_refl two_readers_run) as (H1 & _ & H3 & _);
    [done|split_and!; vm_compute; reflexivity|reflexivity|reflexivity
    |split_and!; vm_compute; reflexivity|reflexivity|reflexivity|].
  split; [exact H1|exact H3].
Defined.
