(* ===== verification/Profiler.v ===== *)
(** * Performance profiler: src/consensus/performance_profiler.go

    Statistics per kind of operation over all durations and over a window of
    the last ones, and the life cycle of the profiler.  Go's CPU profiler is
    one per process ([cpu_running]); whether a file can be created and
    whether the runtime accepts to start are arguments.  [None] is a panic. *)
From Stdlib Require Import ZArith Lia.
From stdpp Require Import numbers prelude gmap strings sorting.
From S2P Require Import Prelude GoFloat FloatBounds Maps.
Open Scope Z_scope.

Section profiler.
(** The platform's value of a conversion that is out of range. *)
Variable wild : f64 → Z.

Record OperationMetrics := mkMetrics {
  Count : Z;
  TotalDuration : Z;
  MinDuration : Z;
  MaxDuration : Z;
  AvgDuration : Z;
  P50Duration : Z;
  P90Duration : Z;
  P99Duration : Z;
  RecentDurations : list Z;
  LastUpdated : Z }.

Record PerformanceProfiler := mkProfiler {
  p_enabled : bool;
  cpuProfilingEnabled : bool;
  memProfilingEnabled : bool;
  sampleSize : Z;
  logFrequency : Z;
  metrics : gmap string OperationMetrics;
  cpuProfileFile : bool; (* not nil *)
  bottleneckThreshold : Z;
  stopClosed : bool; (* stopChan is closed *)
  logging : bool }. (* the logging goroutine runs *)

Definition NewPerformanceProfiler : PerformanceProfiler :=
  mkProfiler true false false 100 (30 * second) ∅ false 100000000 false false.

Definition set_metrics (m : gmap string OperationMetrics) (p : PerformanceProfiler) :
    PerformanceProfiler :=
  mkProfiler (p_enabled p) (cpuProfilingEnabled p) (memProfilingEnabled p) (sampleSize p)
    (logFrequency p) m (cpuProfileFile p) (bottleneckThreshold p) (stopClosed p) (logging p).
Definition set_cpu (enabled file : bool) (p : PerformanceProfiler) : PerformanceProfiler :=
  mkProfiler (p_enabled p) enabled (memProfilingEnabled p) (sampleSize p)
    (logFrequency p) (metrics p) file (bottleneckThreshold p) (stopClosed p) (logging p).
Definition set_run (closed running : bool) (p : PerformanceProfiler) : PerformanceProfiler :=
  mkProfiler (p_enabled p) (cpuProfilingEnabled p) (memProfilingEnabled p) (sampleSize p)
    (logFrequency p) (metrics p) (cpuProfileFile p) (bottleneckThreshold p) closed running.

Definition EnableMemoryProfiling (b : bool) (p : PerformanceProfiler) : PerformanceProfiler :=
  mkProfiler (p_enabled p) (cpuProfilingEnabled p) b (sampleSize p)
    (logFrequency p) (metrics p) (cpuProfileFile p) (bottleneckThreshold p) (stopClosed p) (logging p).
Definition SetBottleneckThreshold (d : Z) (p : PerformanceProfiler) : PerformanceProfiler :=
  mkProfiler (p_enabled p) (cpuProfilingEnabled p) (memProfilingEnabled p) (sampleSize p)
    (logFrequency p) (metrics p) (cpuProfileFile p) d (stopClosed p) (logging p).
Definition SetLogFrequency (d : Z) (p : PerformanceProfiler) : PerformanceProfiler :=
  mkProfiler (p_enabled p) (cpuProfilingEnabled p) (memProfilingEnabled p) (sampleSize p)
    d (metrics p) (cpuProfileFile p) (bottleneckThreshold p) (stopClosed p) (logging p).
Definition SetSampleSize (n : Z) (p : PerformanceProfiler) : PerformanceProfiler :=
  mkProfiler (p_enabled p) (cpuProfilingEnabled p) (memProfilingEnabled p) n
    (logFrequency p) (metrics p) (cpuProfileFile p) (bottleneckThreshold p) (stopClosed p) (logging p).
Definition ResetMetrics : PerformanceProfiler → PerformanceProfiler := set_metrics ∅.

(** ** Recording *)

(** The three fractions, and the index [int(float64(n) * c)]. *)
Definition p50 : f64 := f_lit 5 1.
Definition p90 : f64 := f_lit 9 1.
Definition p99 : f64 := f_lit 99 2.
Definition rank (c : f64) (n : nat) : Z := to_int wild (f_mul (f_of_Z (Z.of_nat n)) c).

(** [durations[idx]] if the index is in range, else the old value; a negative
    index panics. *)
Definition percentile (c : f64) (sorted : list Z) (old : Z) : option Z :=
  let i := rank c (length sorted) in
  if Z.of_nat (length sorted) <=? i then Some old
  else if i <? 0 then None
  else sorted !! Z.to_nat i.

(** [RecentDurations] with its oldest dropped when full: slicing an empty
    slice from one panics. *)
Definition shift_window (size : Z) (l : list Z) : option (list Z) :=
  if size <=? Z.of_nat (length l)
  then match l with [] => None | _ :: l => Some l end
  else Some l.

Definition set_percentiles (now : Z) (m : OperationMetrics) : option OperationMetrics :=
  let sorted := sort_slice Z.ltb (RecentDurations m) in
  a ← percentile p50 sorted (P50Duration m);
  b ← percentile p90 sorted (P90Duration m);
  c ← percentile p99 sorted (P99Duration m);
  Some (mkMetrics (Count m) (TotalDuration m) (MinDuration m) (MaxDuration m) (AvgDuration m)
          a b c (RecentDurations m) now).

Definition update_metrics (now size duration : Z) (m : OperationMetrics) :
    option OperationMetrics :=
  let count := i64 (Count m + 1) in
  let total := i64 (TotalDuration m + duration) in
  recent ← shift_window size (RecentDurations m);
  avg ← (if count =? 0 then None else Some (i64 (Z.quot total count)));
  set_percentiles now (mkMetrics count total
    (if duration <? MinDuration m then duration else MinDuration m)
    (if MaxDuration m <? duration then duration else MaxDuration m)
    avg (P50Duration m) (P90Duration m) (P99Duration m) (recent ++ [duration]) (LastUpdated m)).

Definition new_metrics (now duration : Z) : OperationMetrics :=
  mkMetrics 0 0 duration duration 0 0 0 0 [] now.

Definition RecordOperation (now : Z) (op : string) (duration : Z) (p : PerformanceProfiler) :
    option PerformanceProfiler :=
  if negb (p_enabled p) then Some p
  else
    m ← match metrics p !! op with
        | Some m => Some m
        | None => if sampleSize p <? 0 then None else Some (new_metrics now duration)
        end;
    m ← update_metrics now (sampleSize p) duration m;
    Some (set_metrics (<[op := m]> (metrics p)) p).

(** The function [StartOperation] returns, called at [stopped]. *)
Definition StartOperation (op : string) (started stopped : Z) (p : PerformanceProfiler) :
    option PerformanceProfiler :=
  RecordOperation stopped op (time_sub stopped started) p.

Definition GetMetrics (p : PerformanceProfiler) : option (gmap string OperationMetrics) :=
  if p_enabled p then Some (metrics p) else None.
Definition GetOperationCount (op : string) (p : PerformanceProfiler) : Z :=
  match metrics p !! op with Some m => Count m | None => 0 end.
Definition GetOperationAvgDuration (op : string) (p : PerformanceProfiler) : Z :=
  match metrics p !! op with Some m => AvgDuration m | None => 0 end.
Definition GetOperationP90Duration (op : string) (p : PerformanceProfiler) : Z :=
  match metrics p !! op with Some m => P90Duration m | None => 0 end.

(** The operations [detectBottlenecks] names, in the order of the map. *)
Definition detectBottlenecks (order : list string) (p : PerformanceProfiler) : list string :=
  List.filter (λ op, match metrics p !! op with
                     | Some m => bottleneckThreshold p <? P90Duration m
                     | None => false
                     end) order.

(** ** Life cycle *)

Inductive ProfilerError := ErrCreateProfile | ErrStartProfile.

(** [created], [started]: what [os.Create] answers, and what the runtime would
    answer if no CPU profile is running.  Returns the process-wide flag. *)
Definition Start (created started cpu_running : bool) (p : PerformanceProfiler) :
    PerformanceProfiler * bool * result ProfilerError () :=
  if negb (p_enabled p) then (p, cpu_running, Ok ())
  else if cpuProfilingEnabled p then
    if negb created then (set_cpu true false p, cpu_running, Err ErrCreateProfile)
    else if cpu_running || negb started
    then (set_cpu true true p, cpu_running, Err ErrStartProfile) (* closed, not nil *)
    else (set_run (stopClosed p) (negb (stopClosed p)) (set_cpu true true p), true, Ok ())
  else (set_run (stopClosed p) (negb (stopClosed p)) p, cpu_running, Ok ()).

(** [None]: closes a closed channel. *)
Definition Stop (cpu_running : bool) (p : PerformanceProfiler) :
    option (PerformanceProfiler * bool) :=
  if negb (p_enabled p) then Some (p, cpu_running)
  else if stopClosed p then None
  else
    let p := set_run true false p in
    Some (if cpuProfilingEnabled p && cpuProfileFile p then (set_cpu true false p, false)
          else (p, cpu_running)).

Definition EnableCPUProfiling (enable created started cpu_running : bool)
    (p : PerformanceProfiler) : PerformanceProfiler * bool :=
  let file := cpuProfileFile p in
  let p := set_cpu enable file p in
  if enable && negb file && p_enabled p then
    if negb created then (p, cpu_running)
    else if cpu_running || negb started then (p, cpu_running)
    else (set_cpu true true p, true)
  else if negb enable && file then (set_cpu false false p, false)
  else (p, cpu_running).

(** ** The indices *)

Lemma rank_between c n lo hi : fin c → exact_int (Z.of_nat n) →
  0 ≤ lo → lo < 2 ^ 53 → 0 ≤ hi < 2 ^ 53 →
  lo * 2 ^ 1073 ≤ Z.of_nat n * fval c ≤ hi * 2 ^ 1073 →
  lo / 2 ≤ rank c n ≤ hi / 2.
Proof.
  intros Hc Hn Hlo Hlo' Hhi Hv. destruct (f_of_Z_fval _ Hn) as [Hf Hfv].
  assert (Hrep : ∀ z, 0 ≤ z < 2 ^ 53 → rep (z * 2 ^ 1073)).
  { intros z Hz. exists z, 1073. split_and!; [rewrite Z.abs_eq; lia|lia..]. }
  destruct (f_mul_bounds (f_of_Z (Z.of_nat n)) c (lo * 2 ^ 1073) (hi * 2 ^ 1073)) as [Hm Hb];
    [done|done|by apply Hrep|by apply Hrep| |].
  { rewrite Hfv. pose proof (pow_pos 1074 ltac:(lia)) as Hp. revert Hp Hv.
    generalize (2 ^ 1073), (2 ^ 1074). intros. nia. }
  unfold rank, to_int. rewrite (f_trunc_fval _ Hm).
  assert (Hq : lo / 2 ≤ Z.quot (fval (f_mul (f_of_Z (Z.of_nat n)) c)) (2 ^ 1074) ≤ hi / 2).
  { pose proof (pow_pos 1073 ltac:(lia)) as Hp.
    rewrite Z.quot_div_nonneg by nia. replace 1074 with (1073 + 1) by lia.
    rewrite Z.pow_add_r, <- Z.div_div by lia.
    split; apply Z.div_le_mono; try lia;
      [apply Z.div_le_lower_bound|apply Z.div_le_upper_bound]; nia. }
  rewrite decide_True; [done|]. unfold is_i64.
  assert (hi / 2 < 2 ^ 53) by (apply Z.div_lt_upper_bound; lia).
  assert (0 ≤ lo / 2) by (apply Z.div_pos; lia). lia.
Qed.

Lemma p50_fin : fin p50 ∧ fval p50 = 2 ^ 1073.
Proof. split; vm_compute; done. Qed.
Lemma p90_fin : fin p90 ∧ 899999 * 2 ^ 1074 ≤ 1000000 * fval p90 ≤ 900001 * 2 ^ 1074.
Proof. split; [vm_compute; done|]. split; apply Z.leb_le; vm_compute; done. Qed.
Lemma p99_fin : fin p99 ∧ 989999 * 2 ^ 1074 ≤ 1000000 * fval p99 ≤ 990001 * 2 ^ 1074.
Proof. split; [vm_compute; done|]. split; apply Z.leb_le; vm_compute; done. Qed.

(** Up to a hundred durations, the indices are those of exact arithmetic. *)
Definition exact_ranks (n : nat) : bool :=
  bool_decide (f_trunc (f_mul (f_of_Z (Z.of_nat n)) p50) = Some (Z.of_nat n / 2))
  && bool_decide (f_trunc (f_mul (f_of_Z (Z.of_nat n)) p90) = Some (Z.of_nat n * 9 / 10))
  && bool_decide (f_trunc (f_mul (f_of_Z (Z.of_nat n)) p99) = Some (Z.of_nat n * 99 / 100)).
Lemma small_ranks_ok : forallb exact_ranks (seq 1 100) = true.
Proof. vm_compute. reflexivity. Qed.

Lemma small_ranks n : (1 ≤ n ≤ 100)%nat →
  rank p50 n = Z.of_nat n / 2 ∧ rank p90 n = Z.of_nat n * 9 / 10
  ∧ rank p99 n = Z.of_nat n * 99 / 100.
Proof.
  intros Hn. pose proof small_ranks_ok as H. rewrite forallb_forall in H.
  specialize (H n). rewrite in_seq in H. specialize (H ltac:(lia)).
  apply andb_true_iff in H as [H H3]. apply andb_true_iff in H as [H1 H2].
  apply bool_decide_eq_true in H1, H2, H3. unfold rank, to_int. rewrite H1, H2, H3.
  rewrite !decide_True; [done|..]; unfold is_i64; split;
    try (apply Z.div_lt_upper_bound; lia);
    apply Z.le_trans with 0; [lia|apply Z.div_pos; lia|lia|apply Z.div_pos; lia|lia|apply Z.div_pos; lia].
Qed.

Lemma rank_margins N P V2 V3 q : 0 < P → 100 < N → 10 * q ≤ N < 10 * q + 10 →
  899999 * (2 * P) ≤ 1000000 * V2 ≤ 900001 * (2 * P) →
  989999 * (2 * P) ≤ 1000000 * V3 ≤ 990001 * (2 * P) →
  (N + 2) * P ≤ N * V2 ∧ N * V2 ≤ (2 * N - q) * P
  ∧ (2 * N - q) * P ≤ N * V3 ∧ N * V3 ≤ (2 * N - 1) * P.
Proof.
  intros HP HN Hq H2 H3.
  assert (X1 : 1799998 * (N * P) ≤ 1000000 * (N * V2) ≤ 1800002 * (N * P)) by nia.
  assert (X2 : 1979998 * (N * P) ≤ 1000000 * (N * V3) ≤ 1980002 * (N * P)) by nia.
  assert (X3 : 101 * P ≤ N * P) by nia.
  assert (X4 : 10 * (q * P) ≤ N * P ≤ 10 * (q * P) + 9 * P) by nia.
  rewrite Z.mul_add_distr_r, !Z.mul_sub_distr_r, <- !Z.mul_assoc. lia.
Qed.

(** On a window of any size the three indices are in range and in order. *)
Lemma ranks_ok n : (1 ≤ n)%nat → Z.of_nat n < 2 ^ 50 →
  0 ≤ rank p50 n ∧ rank p50 n ≤ rank p90 n ∧ rank p90 n ≤ rank p99 n ∧ rank p99 n < Z.of_nat n.
Proof.
  intros H1 Hb. destruct (decide (n ≤ 100)%nat) as [Hs|Hs].
  - destruct (small_ranks n) as (-> & -> & ->); [lia|]. Z.to_euclidean_division_equations. lia.
  - assert (He : exact_int (Z.of_nat n)) by (unfold exact_int; lia).
    destruct p50_fin as [Hf1 Hv1], p90_fin as [Hf2 Hv2], p99_fin as [Hf3 Hv3].
    pose proof (pow_pos 1073 ltac:(lia)) as Hp.
    replace (2 ^ 1074) with (2 * 2 ^ 1073) in Hv2, Hv3 by (rewrite <- Z.pow_succ_r; [done|lia]).
    pose proof (λ lo hi, rank_between p50 n lo hi Hf1 He) as G1.
    pose proof (λ lo hi, rank_between p90 n lo hi Hf2 He) as G2.
    pose proof (λ lo hi, rank_between p99 n lo hi Hf3 He) as G3.
    assert (HN : 100 < Z.of_nat n) by lia. clear He Hs H1 Hf1 Hf2 Hf3.
    revert Hp HN Hb Hv1 Hv2 Hv3 G1 G2 G3. generalize (2 ^ 1073) as P, (Z.of_nat n) as N.
    generalize (fval p50) as V1, (fval p90) as V2, (fval p99) as V3.
    intros V1 V2 V3 P N Hp HN Hb Hv1 Hv2 Hv3 G1 G2 G3.
    pose proof (Z.mod_pos_bound N 10 ltac:(lia)) as Hr.
    pose proof (Z.div_mod N 10 ltac:(lia)) as Hd.
    destruct (rank_margins N P V2 V3 (N / 10)) as (? & ? & ? & ?); [lia..|].
    destruct (G1 0 N) as [? ?]; [lia|lia|lia|subst V1; nia|].
    destruct (G2 (N + 2) (2 * N - N / 10)) as [? ?]; [lia|lia|lia|lia|].
    destruct (G3 (2 * N - N / 10) (2 * N - 1)) as [? ?]; [lia|lia|lia|lia|].
    Z.to_euclidean_division_equations. lia.
Qed.

(** ** What the statistics are *)

(** The last [size] of the durations. *)
Definition window (size : Z) (ds : list Z) : list Z := drop (length ds - Z.to_nat size) ds.

Lemma window_length size ds : length (window size ds) = Nat.min (length ds) (Z.to_nat size).
Proof. unfold window. rewrite length_drop. lia. Qed.

Lemma window_snoc size ds d : 0 < size →
  ∃ l, shift_window size (window size ds) = Some l ∧ l ++ [d] = window size (ds ++ [d]).
Proof.
  intros Hs. unfold shift_window. rewrite window_length.
  destruct (size <=? _) eqn:Hf; bool_to_prop.
  - pose proof (window_length size ds) as Hl. destruct (window size ds) as [|x l] eqn:Hw.
    { simpl in Hl. lia. }
    exists l. split; [done|]. unfold window in *. rewrite length_app. cbn [length] in *.
    replace (length ds + 1 - Z.to_nat size)%nat with (S (length ds - Z.to_nat size)) by lia.
    rewrite drop_app_le by lia. f_equal.
    rewrite <- Nat.add_1_r, <- drop_drop, Hw. done.
  - exists (window size ds). split; [done|]. unfold window. rewrite length_app. cbn [length].
    replace (length ds - Z.to_nat size)%nat with 0%nat by lia.
    by replace (length ds + 1 - Z.to_nat size)%nat with 0%nat by lia.
Qed.

(** The percentiles are the durations of these ranks. *)
Definition ranked (m : OperationMetrics) : Prop :=
  let l := sort_slice Z.ltb (RecentDurations m) in
  l !! Z.to_nat (rank p50 (length l)) = Some (P50Duration m)
  ∧ l !! Z.to_nat (rank p90 (length l)) = Some (P90Duration m)
  ∧ l !! Z.to_nat (rank p99 (length l)) = Some (P99Duration m).

Lemma percentile_lookup c l old : 0 ≤ rank c (length l) < Z.of_nat (length l) →
  ∃ x, percentile c l old = Some x ∧ l !! Z.to_nat (rank c (length l)) = Some x.
Proof.
  intros Hr. unfold percentile. destruct (_ <=? _) eqn:H1; bool_to_prop; [lia|].
  destruct (_ <? _) eqn:H2; bool_to_prop; [lia|].
  destruct (lookup_lt_is_Some_2 l (Z.to_nat (rank c (length l)))) as [x Hx]; [lia|].
  rewrite Hx. by exists x.
Qed.

Lemma set_percentiles_spec now m : RecentDurations m ≠ [] →
  Z.of_nat (length (RecentDurations m)) < 2 ^ 50 →
  ∃ a b c, set_percentiles now m
    = Some (mkMetrics (Count m) (TotalDuration m) (MinDuration m) (MaxDuration m) (AvgDuration m)
              a b c (RecentDurations m) now)
    ∧ ranked (mkMetrics (Count m) (TotalDuration m) (MinDuration m) (MaxDuration m) (AvgDuration m)
              a b c (RecentDurations m) now).
Proof.
  intros Hne Hlen. unfold set_percentiles, ranked. cbn [RecentDurations P50Duration P90Duration P99Duration].
  pose proof (Permutation_length (sort_slice_perm Z.ltb (RecentDurations m))) as Hl.
  assert (1 ≤ length (RecentDurations m))%nat by (destruct (RecentDurations m); [done|simpl; lia]).
  destruct (ranks_ok (length (sort_slice Z.ltb (RecentDurations m)))) as (? & ? & ? & ?); [lia..|].
  destruct (percentile_lookup p50 (sort_slice Z.ltb (RecentDurations m)) (P50Duration m)) as (a & -> & Ha); [lia|].
  destruct (percentile_lookup p90 (sort_slice Z.ltb (RecentDurations m)) (P90Duration m)) as (b & -> & Hb); [lia|].
  destruct (percentile_lookup p99 (sort_slice Z.ltb (RecentDurations m)) (P99Duration m)) as (c & -> & Hc); [lia|].
  by exists a, b, c.
Qed.

(** The state of the statistics after the durations [ds]. *)
Record stats_of (size : Z) (ds : list Z) (m : OperationMetrics) : Prop := {
  so_count : Count m = Z.of_nat (length ds);
  so_total : TotalDuration m = zsum ds;
  so_min : MinDuration m ∈ ds ∧ Forall (λ d, MinDuration m ≤ d) ds;
  so_max : MaxDuration m ∈ ds ∧ Forall (λ d, d ≤ MaxDuration m) ds;
  so_avg : AvgDuration m = zsum ds / Z.of_nat (length ds);
  so_recent : RecentDurations m = window size ds;
  so_ranked : ranked m }.

Lemma update_extremes now size d ds m : m = new_metrics now d ∧ ds = [] ∨ stats_of size ds m →
  let lo := if d <? MinDuration m then d else MinDuration m in
  let hi := if MaxDuration m <? d then d else MaxDuration m in
  (lo ∈ ds ++ [d] ∧ Forall (λ y, lo ≤ y) (ds ++ [d]))
  ∧ (hi ∈ ds ++ [d] ∧ Forall (λ y, y ≤ hi) (ds ++ [d])).
Proof.
  intros [[-> ->]|[_ _ [Hmin Hlo] [Hmax Hhi] _ _ _]]; cbn [new_metrics MinDuration MaxDuration].
  { rewrite Z.ltb_irrefl. split; (split; [by left|by repeat constructor]). }
  destruct (d <? MinDuration m) eqn:H1, (MaxDuration m <? d) eqn:H2; bool_to_prop;
    (split; (split; [set_solver|])); apply Forall_app;
    (split; [first [apply (Forall_impl _ _ _ Hlo); intros; simpl in *; lia
      | apply (Forall_impl _ _ _ Hhi); intros; simpl in *; lia] | apply Forall_singleton; lia]).
Qed.

Lemma update_spec now size d ds m : 0 < size < 2 ^ 50 →
  Forall (λ d, 0 ≤ d) (ds ++ [d]) → zsum (ds ++ [d]) < 2 ^ 63 → Z.of_nat (length ds) < 2 ^ 50 →
  m = new_metrics now d ∧ ds = [] ∨ stats_of size ds m →
  ∃ m', update_metrics now size d m = Some m' ∧ stats_of size (ds ++ [d]) m'.
Proof.
  intros Hs Hpos Hsum Hlen Hm.
  pose proof (zsum_nonneg _ Hpos) as Hz.
  assert (Count m = Z.of_nat (length ds) ∧ TotalDuration m = zsum ds
                    ∧ RecentDurations m = window size ds) as (Hc & Ht & Hr).
  { destruct Hm as [[-> ->]|[? ? _ _ _ ? _]]; done. }
  destruct (update_extremes now size d ds m Hm) as [Hmin Hmax].
  unfold update_metrics. rewrite Hc, Ht, Hr.
  assert (Hcount : i64 (Z.of_nat (length ds) + 1) = Z.of_nat (length (ds ++ [d]))).
  { rewrite length_app, i64_small; [simpl; lia|]. unfold is_i64. lia. }
  assert (Htotal : i64 (zsum ds + d) = zsum (ds ++ [d])).
  { rewrite zsum_app in *. simpl in *. rewrite i64_small; [lia|]. unfold is_i64. lia. }
  rewrite Hcount, Htotal. destruct (window_snoc size ds d) as (l & -> & Hw); [lia|].
  assert (Hpos' : 0 < Z.of_nat (length (ds ++ [d]))) by (rewrite length_app; simpl; lia).
  rewrite (proj2 (Z.eqb_neq _ 0)) by lia. cbn [mbind option_bind]. rewrite Hw.
  assert (Havg : i64 (Z.quot (zsum (ds ++ [d])) (Z.of_nat (length (ds ++ [d]))))
                 = zsum (ds ++ [d]) / Z.of_nat (length (ds ++ [d]))).
  { rewrite Z.quot_div_nonneg by lia. apply i64_small. unfold is_i64.
    split; [apply Z.le_trans with 0; [lia|apply Z.div_pos; lia]|].
    apply Z.div_lt_upper_bound; nia. }
  rewrite Havg.
  edestruct (set_percentiles_spec now) as (a & b & c & Heq & Hrk);
    [| |rewrite Heq; eexists; split; [reflexivity|split; cbn; done]]; cbn [RecentDurations].
  - intros H0. apply (f_equal length) in H0. rewrite window_length in H0. simpl in H0. lia.
  - rewrite window_length. lia.
Qed.

Lemma stats_percentiles size ds m : stats_of size ds m → ds ≠ [] → 0 < size →
  Z.of_nat (length ds) < 2 ^ 50 →
  MinDuration m ≤ P50Duration m ≤ P90Duration m ∧ P90Duration m ≤ P99Duration m ≤ MaxDuration m.
Proof.
  intros [_ _ [_ Hmin] [_ Hmax] _ Hr (H50 & H90 & H99)] Hne Hs Hlen. rewrite Hr in *.
  assert (1 ≤ length ds)%nat by (destruct ds; [done|simpl; lia]).
  set (l := sort_slice Z.ltb (window size ds)) in *.
  assert (Hl : length l = length (window size ds))
    by apply Permutation_length, sort_slice_perm.
  pose proof (window_length size ds) as Hw.
  destruct (ranks_ok (length l)) as (? & ? & ? & ?); [lia..|].
  assert (Hso : ordered Z.ltb l).
  { apply (sort_slice_ordered Z.ltb (λ _, True)); [lia|lia|by apply Forall_true]. }
  assert (Hmono : ∀ i j x y, (i ≤ j)%nat → l !! i = Some x → l !! j = Some y → x ≤ y).
  { intros i j x y Hij Hx Hy. destruct (decide (i = j)) as [->|]; [simplify_eq; lia|].
    apply Z.ltb_ge, (ordered_take_drop Z.ltb j l); [done| |].
    - apply (list_elem_of_lookup_2 _ i). rewrite lookup_take_lt by lia. done.
    - apply (list_elem_of_lookup_2 _ 0). by rewrite lookup_drop, Nat.add_0_r. }
  assert (Hin : ∀ i x, l !! i = Some x → MinDuration m ≤ x ≤ MaxDuration m).
  { intros i x Hx%list_elem_of_lookup_2. unfold l in Hx. rewrite sort_slice_perm in Hx.
    unfold window in Hx. apply list_elem_of_lookup in Hx as [k Hk]. rewrite lookup_drop in Hk.
    apply list_elem_of_lookup_2 in Hk. rewrite Forall_forall in Hmin, Hmax. auto. }
  pose proof (Hin _ _ H50). pose proof (Hin _ _ H99).
  assert (P50Duration m ≤ P90Duration m) by (refine (Hmono _ _ _ _ _ H50 H90); lia).
  assert (P90Duration m ≤ P99Duration m) by (refine (Hmono _ _ _ _ _ H90 H99); lia). lia.
Qed.

(** Recording the pairs (time, duration) of a list in order. *)
Definition record_all (op : string) (p : PerformanceProfiler) (l : list (Z * Z)) :
    option PerformanceProfiler :=
  foldl (λ o td, p ← o; RecordOperation td.1 op td.2 p) (Some p) l.

Lemma record_all_snoc op p l td :
  record_all op p (l ++ [td]) = p ← record_all op p l; RecordOperation td.1 op td.2 p.
Proof. unfold record_all. by rewrite foldl_app. Qed.

Lemma record_all_stats op p l : p_enabled p = true → metrics p !! op = None →
  0 < sampleSize p < 2 ^ 50 → l ≠ [] → Forall (λ d, 0 ≤ d) l.*2 → zsum l.*2 < 2 ^ 63 →
  Z.of_nat (length l) < 2 ^ 50 →
  ∃ m, record_all op p l = Some (set_metrics (<[op := m]> (metrics p)) p)
    ∧ stats_of (sampleSize p) l.*2 m.
Proof.
  intros He Hnew Hs. induction l as [|[t d] l IH] using rev_ind; [done|]. intros _ Hpos Hsum Hlen.
  rewrite fmap_app in *. cbn [fmap list_fmap snd] in *. rewrite length_app in Hlen. simpl in Hlen.
  pose proof Hpos as [Hpos' _]%Forall_app. rewrite record_all_snoc.
  assert (zsum l.*2 < 2 ^ 63).
  { rewrite zsum_app in Hsum. apply Forall_app in Hpos as [_ Hd].
    pose proof (zsum_nonneg _ Hd). lia. }
  destruct (decide (l = [])) as [->|Hne].
  - cbn [record_all foldl mbind option_bind fst snd]. unfold RecordOperation.
    rewrite He, Hnew, (proj2 (Z.ltb_ge _ 0)) by lia. cbn [negb mbind option_bind].
    destruct (update_spec t (sampleSize p) d [] (new_metrics t d)) as (m & -> & Hm);
      [done|done|done|simpl; lia|by left|]. by exists m.
  - destruct IH as (m & -> & Hm); [done..|lia|]. cbn [mbind option_bind fst snd].
    unfold RecordOperation. cbn [set_metrics p_enabled metrics sampleSize].
    rewrite He, lookup_insert_eq. cbn [negb mbind option_bind].
    destruct (update_spec t (sampleSize p) d l.*2 m) as (m' & -> & Hm');
      [done|done|done|rewrite length_fmap; lia|by right|].
    exists m'. split; [|done]. cbn [mbind option_bind]. by rewrite insert_insert_eq.
Qed.

(** Recording durations of one operation keeps exactly their statistics:
    the number, the sum, the mean rounded down, the extremes, and the last
    [sampleSize] of them; the three percentiles are durations of that window
    at the indices 50, 90 and 99 percent of its length, rounded down, when it
    has up to a hundred elements, and are in order whatever its size. *)
Theorem statistics_correct op p l : p_enabled p = true → metrics p !! op = None →
  0 < sampleSize p < 2 ^ 50 → l ≠ [] → Forall (λ d, 0 ≤ d) l.*2 → zsum l.*2 < 2 ^ 63 →
  Z.of_nat (length l) < 2 ^ 50 →
  ∃ m, record_all op p l = Some (set_metrics (<[op := m]> (metrics p)) p)
    ∧ stats_of (sampleSize p) l.*2 m
    ∧ MinDuration m ≤ P50Duration m ≤ P90Duration m ∧ P90Duration m ≤ P99Duration m ≤ MaxDuration m
    ∧ let sorted := sort_slice Z.ltb (window (sampleSize p) l.*2) in
      let n := Z.of_nat (length sorted) in
      (sampleSize p ≤ 100 → sorted !! Z.to_nat (n / 2) = Some (P50Duration m)
        ∧ sorted !! Z.to_nat (n * 9 / 10) = Some (P90Duration m)
        ∧ sorted !! Z.to_nat (n * 99 / 100) = Some (P99Duration m)).
Proof.
  intros He Hnew Hs Hne Hpos Hsum Hlen.
  destruct (record_all_stats op p l) as (m & Hm & Hst); [done..|].
  assert (Hne' : l.*2 ≠ []) by (by destruct l).
  destruct (stats_percentiles (sampleSize p) l.*2 m) as [? ?]; [done|done|lia|by rewrite length_fmap|].
  exists m. split_and!; try (done || lia). intros sorted n H100.
  destruct (so_ranked _ _ _ Hst) as (H50 & H90 & H99). rewrite (so_recent _ _ _ Hst) in *.
  fold sorted in H50, H90, H99. subst n.
  destruct (small_ranks (length sorted)) as (E1 & E2 & E3); [|by rewrite <- E1, <- E2, <- E3].
  unfold sorted. rewrite (Permutation_length (sort_slice_perm _ _)), window_length, length_fmap.
  assert (1 ≤ length l)%nat by (destruct l; [done|simpl; lia]). lia.
Qed.

(** Statistics as the profiler leaves them. *)
Definition metrics_wf (m : OperationMetrics) : Prop :=
  RecentDurations m ≠ [] ∧ Z.of_nat (length (RecentDurations m)) < 2 ^ 49
  ∧ 0 ≤ Count m < 2 ^ 63 - 1.

Lemma update_total now size d m : Z.of_nat (length (RecentDurations m)) < 2 ^ 49 →
  0 ≤ Count m < 2 ^ 63 - 1 →
  is_Some (update_metrics now size d m) ↔ RecentDurations m ≠ [] ∨ 0 < size.
Proof.
  intros Hlen Hc. unfold update_metrics. rewrite i64_small by (unfold is_i64; lia).
  rewrite (proj2 (Z.eqb_neq _ 0)) by lia. unfold shift_window.
  destruct (RecentDurations m) as [|x r] eqn:Hr.
  - simpl length. destruct (size <=? Z.of_nat 0) eqn:Hs; bool_to_prop; cbn [mbind option_bind].
    + split; [by intros [? ?]|]. intros [?|?]; [done|lia].
    + split; [by right|]. intros _.
      edestruct (set_percentiles_spec now) as (a & b & c & -> & _); [..|by eexists]; simpl; [done|lia].
  - split; [by left|]. intros _. destruct (size <=? _); cbn [mbind option_bind];
      edestruct (set_percentiles_spec now) as (a & b & c & -> & _);
      try (by eexists); cbn [RecentDurations]; try (rewrite length_app; simpl in *; lia);
      by destruct r.
Qed.

(** Recording panics, holding the lock, exactly when the operation is new
    and the sample size is not positive; [SetSampleSize] accepts any number. *)
Theorem record_panics_iff now op d p : map_Forall (λ _ m, metrics_wf m) (metrics p) →
  RecordOperation now op d p = None
  ↔ p_enabled p = true ∧ metrics p !! op = None ∧ sampleSize p ≤ 0.
Proof.
  intros Hwf. unfold RecordOperation. destruct (p_enabled p) eqn:He; cbn [negb]; [|naive_solver].
  assert (Hnone : ∀ m (k : OperationMetrics → PerformanceProfiler),
    Z.of_nat (length (RecentDurations m)) < 2 ^ 49 → 0 ≤ Count m < 2 ^ 63 - 1 →
    (m ← update_metrics now (sampleSize p) d m; Some (k m)) = None ↔
      ¬ (RecentDurations m ≠ [] ∨ 0 < sampleSize p)).
  { intros m k H1 H2. rewrite <- (update_total now (sampleSize p) d m H1 H2).
    destruct (update_metrics _ _ _ m); cbn.
    - split; [done|]. intros []. by eexists.
    - split; [|done]. by intros _ [? ?]. }
  destruct (metrics p !! op) as [m|] eqn:Hop; cbn [mbind option_bind].
  - destruct (Hwf _ _ Hop) as (Hr & Hlen & Hc). rewrite Hnone by done. naive_solver.
  - destruct (sampleSize p <? 0) eqn:Hs; bool_to_prop; cbn [mbind option_bind].
    + split; [|done]. intros _. split_and!; [done|done|lia].
    + rewrite Hnone by (simpl; lia). simpl. naive_solver lia.
Qed.

(** A smaller sample size does not shrink a window that is full. *)
Lemma full_window_stays size l l' : size ≤ Z.of_nat (length l) → shift_window size l = Some l' →
  length l = S (length l').
Proof.
  unfold shift_window. intros Hs%Z.leb_le. rewrite Hs. destruct l; [done|]. by intros [= ->].
Qed.

(** CPU profiling is turned on before the start or the profiler runs, not
    both: when [EnableCPUProfiling] succeeds on a fresh profiler, every later
    [Start] fails and the metrics are never logged. *)
Theorem cpu_profiling_prevents_start p p1 run created started p2 run' r :
  p_enabled p = true → cpuProfileFile p = false → logging p = false →
  EnableCPUProfiling true true true false p = (p1, run) →
  Start created started run p1 = (p2, run', r) → r ≠ Ok () ∧ logging p2 = false.
Proof.
  intros He Hf Hl. unfold EnableCPUProfiling. cbn. rewrite He, Hf. cbn. intros [= <- <-].
  unfold Start. cbn. rewrite He. destruct created; cbn; by intros [= <- <- <-].
Qed.
End profiler.

(** ** On concrete values *)

Definition wild0 (x : f64) : Z := 0.

Lemma statistics_correct_witness : ∃ m,
  record_all wild0 "poh_tick" NewPerformanceProfiler [(1, 30); (2, 10); (3, 20)]
    = Some (set_metrics {["poh_tick"%string := m]} NewPerformanceProfiler)
  ∧ AvgDuration m = 20 ∧ P50Duration m = 20 ∧ P99Duration m = 30.
Proof.
  destruct (statistics_correct wild0 "poh_tick" NewPerformanceProfiler [(1, 30); (2, 10); (3, 20)])
    as (m & Hm & Hst & _ & _ & Hp); [reflexivity|reflexivity|simpl; lia|done|by apply (bool_decide_unpack _); vm_compute
    |simpl; lia|simpl; lia|].
  destruct Hp as (H50 & _ & H99); [simpl; lia|].
  exists m. split; [exact Hm|]. split; [exact (so_avg _ _ _ _ Hst)|].
  change (Some 20 = Some (P50Duration m)) in H50. change (Some 30 = Some (P99Duration m)) in H99.
  split; congruence.
Defined.

Lemma record_panics_iff_witness :
  RecordOperation wild0 0 "poh_tick" 5 (SetSampleSize 0 NewPerformanceProfiler) = None.
Proof.
  apply (record_panics_iff wild0); [apply map_Forall_empty|].
  split_and!; [reflexivity|reflexivity|simpl; lia].
Defined.

Lemma cpu_profiling_prevents_start_witness :
  (Start true true true (EnableCPUProfiling true true true false NewPerformanceProfiler).1).2
  ≠ Ok ().
Proof.
  set (q := EnableCPUProfiling true true true false NewPerformanceProfiler).
  destruct (Start true true true q.1) as [[p2 run'] r] eqn:Hs.
  by apply (cpu_profiling_prevents_start NewPerformanceProfiler q.1 true true true p2 run' r).
Defined.
