(* ===== verification/Config.v ===== *)
(** * Configuration: src/config/config.go

    The records of the configuration, its own validation rules, and the
    manager that loads the file and watches it.  Reading and decoding the
    file (viper) and the rules in the field tags (validator) are parameters.
    A configuration is shared by pointer: it lives on a heap and keeps the
    change handlers registered with it; the watcher loads and notifies in two
    steps, between which other goroutines run. *)
From Stdlib Require Import ZArith Lia.
From stdpp Require Import numbers prelude gmap strings.
From S2P Require Import Prelude GoFloat.
Open Scope Z_scope.

Record CryptoConfig := mkCrypto {
  DefaultAlgorithm : string;
  KeyExpirationTime : Z;
  KeyExchangeAlgorithm : string;
  SignatureAlgorithm : string;
  KyberSecurityLevel : Z;
  DilithiumSecurityLevel : Z;
  EnableKeyRotation : bool;
  KeyRotationInterval : Z;
  MinKeyGenerationTime : Z;
  MaxKeyGenerationRetry : Z }.

Definition NewDefaultCryptoConfig : CryptoConfig :=
  mkCrypto "Dilithium" (24 * hour) "Kyber1024" "Dilithium3" 1024 3 true (6 * hour) 100000000 3.

Record CouchDBConfig := mkCouch {
  cd_URL : string; cd_Database : string; cd_Username : string; cd_Password : string;
  cd_MaxConnections : Z; cd_Timeout : Z; cd_RetryLimit : Z; cd_RetryDelay : Z }.
Record PostgresConfig := mkPostgres {
  pg_Host : string; pg_Port : Z; pg_Database : string; pg_Username : string; pg_Password : string;
  pg_MaxConnections : Z; pg_MaxIdleConns : Z; pg_ConnMaxLifetime : Z; pg_SSLMode : string }.
Record DatabaseConfig := mkDatabase { CouchDB : CouchDBConfig; Postgres : PostgresConfig }.

Record SyncConfig := mkSync {
  sc_BatchSize : Z; sc_SyncInterval : Z; sc_WorkerCount : Z; sc_RetryLimit : Z; sc_RetryDelay : Z;
  sc_ArchivalAge : Z; sc_CheckpointSize : Z; sc_CompressionLevel : Z }.

Record CacheConfig := mkCache {
  cc_Enabled : bool; cc_Type : string; cc_Size : Z; cc_TTL : Z; cc_RedisURL : string; cc_RedisDB : Z;
  cc_MaxRetries : Z; cc_DialTimeout : Z; cc_ReadTimeout : Z; cc_WriteTimeout : Z }.

Record OptimizerConfig := mkOptimizerConfig {
  oc_Enabled : bool;
  IOPS_MaxRead : Z; IOPS_MaxWrite : Z; IOPS_TargetUtil : f64;
  RateLimiter_Enabled : bool; RateLimiter_InitialLimit : Z; RateLimiter_BurstLimit : Z;
  RateLimiter_ScaleFactor : f64;
  Sharding_Enabled : bool; Sharding_ShardCount : Z; Sharding_ReplicaSet : Z; Sharding_ShardSize : Z;
  Sharding_LoadFactor : f64;
  HA_Enabled : bool; HA_HeartbeatInterval : Z; HA_FailoverTimeout : Z; HA_MinReplicas : Z;
  Learning_Interval : Z; Learning_WindowSize : Z; Learning_Threshold : f64; Learning_MaxAdjust : f64 }.

(** The decoded fields; [Config] adds the handlers, which no file sets. *)
Record Settings := mkSettings {
  st_Environment : string;
  st_Database : DatabaseConfig;
  st_Sync : SyncConfig;
  st_Cache : CacheConfig;
  st_Optimizer : OptimizerConfig;
  st_Crypto : CryptoConfig }.

(** A handler is known by a number. *)
Record Config := mkConfig { settings : Settings; changeHandlers : list nat }.

Inductive ConfigError :=
| ErrReadFile | ErrUnmarshal | ErrTags
| ErrBatchSize | ErrRedisURL
| ErrTargetUtil | ErrRateLimiter | ErrLoadFactor | ErrReplicas.
#[export] Instance ConfigError_eq_dec : EqDecision ConfigError.
Proof. solve_decision. Defined.

(** ** Validation *)

Definition validateURL (url : string) : bool := (0 <? Z.of_nat (String.length url)).

Definition validateOptimizer (opt : OptimizerConfig) : option ConfigError :=
  if f_le (IOPS_TargetUtil opt) f_zero || f_gt (IOPS_TargetUtil opt) f_one then Some ErrTargetUtil
  else if RateLimiter_Enabled opt && (RateLimiter_BurstLimit opt <=? RateLimiter_InitialLimit opt)
  then Some ErrRateLimiter
  else if Sharding_Enabled opt && f_le (Sharding_LoadFactor opt) f_zero then Some ErrLoadFactor
  else if HA_Enabled opt && (HA_MinReplicas opt <? 2) then Some ErrReplicas
  else None.

Definition performCustomValidations (s : Settings) : option ConfigError :=
  if 10000 <? sc_BatchSize (st_Sync s) then Some ErrBatchSize
  else if cc_Enabled (st_Cache s) && bool_decide (cc_Type (st_Cache s) = "redis"%string)
          && bool_decide (cc_RedisURL (st_Cache s) = ""%string) then Some ErrRedisURL
  else if oc_Enabled (st_Optimizer s) then validateOptimizer (st_Optimizer s)
  else None.

(** ** Crypto settings *)

Definition GetKyberSecurityLevel (c : CryptoConfig) : Z :=
  if bool_decide (KeyExchangeAlgorithm c = ""%string) then KyberSecurityLevel c
  else if bool_decide (KeyExchangeAlgorithm c = "Kyber512"%string) then 512
  else if bool_decide (KeyExchangeAlgorithm c = "Kyber768"%string) then 768
  else 1024.

Definition GetDilithiumSecurityLevel (c : CryptoConfig) : Z :=
  if bool_decide (SignatureAlgorithm c = ""%string) then DilithiumSecurityLevel c
  else if bool_decide (SignatureAlgorithm c = "Dilithium2"%string) then 2
  else if bool_decide (SignatureAlgorithm c = "Dilithium3"%string) then 3
  else if bool_decide (SignatureAlgorithm c = "Dilithium5"%string) then 5
  else 3.

Definition GetKeyExpiration (c : CryptoConfig) : Z := KeyExpirationTime c.
Definition IsKeyRotationDue (now lastRotation : Z) (c : CryptoConfig) : bool :=
  EnableKeyRotation c && (KeyRotationInterval c <=? time_sub now lastRotation).

(** ** The manager *)

(** What the file holds at a load: it cannot be read, cannot be decoded, or
    holds these settings. *)
Inductive file := Unreadable | Undecodable | Holds (s : Settings).

Section manager.
(** The rules in the field tags. *)
Variable validate_tags : Settings → bool.

Definition validateConfig (s : Settings) : option ConfigError :=
  if negb (validate_tags s) then Some ErrTags else performCustomValidations s.

(** [mg_heap]: the configurations loaded so far, by pointer; [mg_pending]: the
    watcher has loaded and will notify; [mg_called]: the handlers started,
    with the pointer they get. *)
Record Manager := mkManager {
  mg_heap : list Config;
  mg_config : nat;
  mg_pending : bool;
  mg_called : list (nat * nat) }.

Definition read_settings (f : file) : result ConfigError Settings :=
  match f with
  | Unreadable => Err ErrReadFile
  | Undecodable => Err ErrUnmarshal
  | Holds s => match validateConfig s with Some e => Err e | None => Ok s end
  end.

Definition load (f : file) (m : Manager) : Manager * result ConfigError () :=
  match read_settings f with
  | Err e => (m, Err e)
  | Ok s =>
      (mkManager (mg_heap m ++ [mkConfig s []]) (length (mg_heap m)) (mg_pending m) (mg_called m),
       Ok ())
  end.

Definition NewManager (f : file) : result ConfigError Manager :=
  match load f (mkManager [] 0 false []) with
  | (m, Ok _) => Ok m
  | (_, Err e) => Err e
  end.

Definition GetConfig (m : Manager) : option Config := mg_heap m !! mg_config m.

Definition RegisterChangeHandler (h : nat) (m : Manager) : Manager :=
  mkManager
    (alter (λ c, mkConfig (settings c) (changeHandlers c ++ [h])) (mg_config m) (mg_heap m))
    (mg_config m) (mg_pending m) (mg_called m).

(** Each handler runs in a goroutine of its own. *)
Definition notifyChangeHandlers (m : Manager) : Manager :=
  mkManager (mg_heap m) (mg_config m) false
    (mg_called m ++ match GetConfig m with
                    | Some c => (λ h, (h, mg_config m)) <$> changeHandlers c
                    | None => []
                    end).

(** The watcher on a write event: the load, then, if it succeeded, the
    notification. *)
Definition watch_load (f : file) (m : Manager) : Manager :=
  match load f m with
  | (m, Ok _) => mkManager (mg_heap m) (mg_config m) true (mg_called m)
  | (m, Err _) => m
  end.

Definition GetDatabaseConfig (m : Manager) : option DatabaseConfig :=
  st_Database ∘ settings <$> GetConfig m.
Definition GetSyncConfig (m : Manager) : option SyncConfig := st_Sync ∘ settings <$> GetConfig m.
Definition GetCacheConfig (m : Manager) : option CacheConfig := st_Cache ∘ settings <$> GetConfig m.
Definition GetOptimizerConfig (m : Manager) : option OptimizerConfig :=
  st_Optimizer ∘ settings <$> GetConfig m.
Definition GetEnvironment (m : Manager) : option string := st_Environment ∘ settings <$> GetConfig m.

(** [racing = false]: no handler is registered between a load and its
    notification. *)
Inductive manager_step (racing : bool) (m : Manager) : Manager → Prop :=
| ms_register h : (mg_pending m = true → racing = true) →
    manager_step racing m (RegisterChangeHandler h m)
| ms_load f : mg_pending m = false → manager_step racing m (watch_load f m)
| ms_notify : mg_pending m = true → manager_step racing m (notifyChangeHandlers m).

(** ** Properties *)

Definition valid (s : Settings) : Prop := validateConfig s = None.

(** The current pointer is valid, everything on the heap passed validation,
    and a pending notification is about a configuration loaded later than the
    first. *)
Record manager_ok (m : Manager) : Prop := {
  mo_current : (S (mg_config m) = length (mg_heap m))%nat;
  mo_valid : Forall (λ c, valid (settings c)) (mg_heap m);
  mo_later : mg_pending m = true → mg_config m ≠ 0%nat;
  mo_called : ∀ h p, (h, p) ∈ mg_called m → p ≠ 0%nat }.

Lemma read_valid f s : read_settings f = Ok s → valid s.
Proof. destruct f; cbn; [done..|]. destruct (validateConfig s0) eqn:Hv; [done|]. by intros [= <-]. Qed.

Lemma config_load_ok f m m' : load f m = (m', Ok ()) →
  ∃ s, f = Holds s ∧ valid s ∧ mg_heap m' = mg_heap m ++ [mkConfig s []]
    ∧ mg_config m' = length (mg_heap m) ∧ mg_pending m' = mg_pending m ∧ mg_called m' = mg_called m.
Proof.
  unfold load. destruct (read_settings f) as [s|e] eqn:Hr; [|done]. intros [= <-].
  exists s. split; [|by split; [apply (read_valid f)|]].
  destruct f; cbn in Hr; [done..|]. destruct (validateConfig s0); [done|]. by injection Hr as ->.
Qed.

Lemma config_new_ok f m : NewManager f = Ok m →
  manager_ok m ∧ mg_pending m = false ∧ mg_called m = [] ∧ mg_config m = 0%nat.
Proof.
  unfold NewManager. destruct (load f _) as [m1 [[]|e]] eqn:Hl; [|done]. intros [= <-].
  destruct (config_load_ok _ _ _ Hl) as (s & -> & Hv & Hh & Hc & Hp & Hn). simpl in *.
  split; [split|done].
  - by rewrite Hh, Hc.
  - rewrite Hh. by repeat constructor.
  - congruence.
  - rewrite Hn. intros ?? Hx. by apply elem_of_nil in Hx.
Qed.

Lemma watch_load_ok f m : manager_ok m → manager_ok (watch_load f m).
Proof.
  intros Hm. unfold watch_load. destruct (load f m) as [m1 [[]|e]] eqn:Hl.
  - destruct (config_load_ok _ _ _ Hl) as (s & -> & Hv & Hh & Hc & Hp & Hn).
    pose proof (mo_current _ Hm). split; cbn.
    + rewrite Hh, Hc, length_app. simpl. lia.
    + rewrite Hh. apply Forall_app. split; [apply Hm|by repeat constructor].
    + intros _. lia.
    + rewrite Hn. apply Hm.
  - unfold load in Hl. by destruct (read_settings f); simplify_eq.
Qed.

Lemma register_ok h m : manager_ok m → manager_ok (RegisterChangeHandler h m).
Proof.
  intros [Hc Hv Hl Hn]. split; cbn; [by rewrite length_alter| |done|done].
  apply Forall_lookup. intros i c. rewrite list_lookup_alter. case_match.
  - subst. rewrite fmap_Some. intros (c0 & Hc0 & ->). cbn. rewrite Forall_lookup in Hv. by eapply Hv.
  - rewrite Forall_lookup in Hv. apply Hv.
Qed.

Lemma notify_ok m : manager_ok m → mg_pending m = true → manager_ok (notifyChangeHandlers m).
Proof.
  intros [Hc Hv Hl Hn] Hp. split; cbn; [done|done|done|].
  intros h p [Hin|Hin]%elem_of_app; [by eapply Hn|].
  destruct (GetConfig m); [|by apply elem_of_nil in Hin].
  apply list_elem_of_fmap in Hin as (h' & [= _ ->] & _). by apply Hl.
Qed.

Lemma step_ok racing m m' : manager_ok m → manager_step racing m m' → manager_ok m'.
Proof.
  intros Hm []; [by apply register_ok|by apply watch_load_ok|by apply notify_ok].
Qed.

(** Whatever is written to the file, and however registrations and reloads
    interleave, there is a current configuration and it has passed validation;
    a load that fails changes nothing. *)
Theorem config_always_valid f m0 racing m : NewManager f = Ok m0 →
  star (manager_step racing) m0 m →
  (∃ c, GetConfig m = Some c ∧ validate_tags (settings c) = true
        ∧ performCustomValidations (settings c) = None)
  ∧ ∀ g e, read_settings g = Err e → watch_load g m = m.
Proof.
  intros Hnew Hrun. destruct (config_new_ok _ _ Hnew) as (Hm0 & _).
  assert (Hm : manager_ok m) by (eapply star_invariant; [|exact Hm0|exact Hrun]; apply step_ok).
  split.
  - destruct (lookup_lt_is_Some_2 (mg_heap m) (mg_config m)) as [c Hc];
      [pose proof (mo_current _ Hm); lia|].
    exists c. split; [exact Hc|]. pose proof (mo_valid _ Hm) as Hv. rewrite Forall_lookup in Hv.
    specialize (Hv _ _ Hc). unfold valid, validateConfig in Hv. by destruct (validate_tags _).
  - intros g e He. unfold watch_load, load. by rewrite He.
Qed.

(** A load forgets the handlers: the one just loaded has none. *)
Definition fresh (m : Manager) : Prop :=
  mg_pending m = true → ∃ c, GetConfig m = Some c ∧ changeHandlers c = [].

Lemma step_fresh m m' : fresh m ∧ mg_called m = [] → manager_step false m m' →
  fresh m' ∧ mg_called m' = [].
Proof.
  intros [Hf Hn] []; cbn.
  - split; [|done]. intros Hp. cbn in Hp. by discriminate H.
  - unfold watch_load. destruct (load f m) as [m1 [[]|e]] eqn:Hl.
    + destruct (config_load_ok _ _ _ Hl) as (s & -> & _ & Hh & Hc & _ & Hcl). cbn. rewrite Hcl.
      split; [|done]. intros _. exists (mkConfig s []). unfold GetConfig. cbn.
      by rewrite Hh, Hc, lookup_app_r, Nat.sub_diag by lia.
    + unfold load in Hl. destruct (read_settings f); simplify_eq. by split; [intros ?; congruence|].
  - split; [done|]. destruct (Hf H) as (c & -> & ->). by rewrite Hn.
Qed.

(** Change handlers are never called: a reload replaces the configuration
    that holds them before it looks for them.  This is so for every sequence
    of registrations and reloads in which no handler is registered in the
    instant between a load and its notification; and in any interleaving, the
    handlers registered before the first reload are never called. *)
Theorem handlers_never_called f m0 m : NewManager f = Ok m0 →
  (star (manager_step false) m0 m → mg_called m = [])
  ∧ (star (manager_step true) m0 m → ∀ h p, (h, p) ∈ mg_called m → p ≠ mg_config m0).
Proof.
  intros Hnew. destruct (config_new_ok _ _ Hnew) as (Hm0 & Hp0 & Hn0 & Hc0). split; intros Hrun.
  - eapply (star_invariant (manager_step false) (λ m, fresh m ∧ mg_called m = []) m0 m);
      [apply step_fresh| |exact Hrun].
    split; [|exact Hn0]. intros Hp. congruence.
  - rewrite Hc0.
    assert (Hm : manager_ok m) by (eapply star_invariant; [|exact Hm0|exact Hrun]; apply step_ok).
    apply Hm.
Qed.
End manager.

(** ** Security levels *)

Definition with_levels (k d : Z) (c : CryptoConfig) : CryptoConfig :=
  mkCrypto (DefaultAlgorithm c) (KeyExpirationTime c) (KeyExchangeAlgorithm c) (SignatureAlgorithm c)
    k d (EnableKeyRotation c) (KeyRotationInterval c) (MinKeyGenerationTime c)
    (MaxKeyGenerationRetry c).

Section levels.
Variable validate_tags : Settings → bool.
(** What the [oneof] tags of the two algorithms mean. *)
Hypothesis oneof_tags : ∀ s, validate_tags s = true →
  KeyExchangeAlgorithm (st_Crypto s) ∈ ["Kyber512"; "Kyber768"; "Kyber1024"]%string
  ∧ SignatureAlgorithm (st_Crypto s) ∈ ["Dilithium2"; "Dilithium3"; "Dilithium5"]%string.

(** Under a configuration that was loaded, the levels are those in the
    names of the algorithms, never a default, and the two level fields of the
    file have no effect. *)
Theorem levels_follow_names s k d : validateConfig validate_tags s = None →
  let c := st_Crypto s in
  (KeyExchangeAlgorithm c, GetKyberSecurityLevel c)
    ∈ [("Kyber512", 512); ("Kyber768", 768); ("Kyber1024", 1024)]%string
  ∧ (SignatureAlgorithm c, GetDilithiumSecurityLevel c)
    ∈ [("Dilithium2", 2); ("Dilithium3", 3); ("Dilithium5", 5)]%string
  ∧ GetKyberSecurityLevel (with_levels k d c) = GetKyberSecurityLevel c
  ∧ GetDilithiumSecurityLevel (with_levels k d c) = GetDilithiumSecurityLevel c.
Proof using oneof_tags.
  intros Hv c. unfold validateConfig in Hv. destruct (validate_tags s) eqn:Ht; [|done].
  destruct (oneof_tags s Ht) as [H1 H2]. fold c in H1, H2.
  unfold GetKyberSecurityLevel, GetDilithiumSecurityLevel. cbn [with_levels KeyExchangeAlgorithm SignatureAlgorithm].
  repeat (apply elem_of_cons in H1 as [H1|H1]); try (by apply elem_of_nil in H1);
  repeat (apply elem_of_cons in H2 as [H2|H2]); try (by apply elem_of_nil in H2);
  rewrite H1, H2; repeat (rewrite bool_decide_false by done); rewrite ?bool_decide_true by done;
  repeat (rewrite bool_decide_false by done); rewrite ?bool_decide_true by done;
  (split_and!; [set_solver|set_solver|done|done]).
Qed.
End levels.

(** ** On concrete values *)

Definition couch0 : CouchDBConfig := mkCouch "u" "d" "n" "p" 1 second 1 second.
Definition postgres0 : PostgresConfig := mkPostgres "h" 5432 "d" "n" "p" 1 1 second "disable".
Definition sync0 (batch : Z) : SyncConfig := mkSync batch second 1 1 second 1 1 0.
Definition cache0 : CacheConfig := mkCache true "memory" 1 second "" 0 1 second second second.
Definition optimizer0 : OptimizerConfig :=
  mkOptimizerConfig true 1 1 (f_lit 5 1) true 10 20 f_one true 1 1 1 (f_lit 5 1) true second second 2
    second 1 (f_lit 5 1) (f_lit 5 1).
Definition settings0 (batch : Z) : Settings :=
  mkSettings "production" (mkDatabase couch0 postgres0) (sync0 batch) cache0 optimizer0
    NewDefaultCryptoConfig.
(** The two tags of [oneof_tags]. *)
Definition tags0 (s : Settings) : bool :=
  bool_decide (KeyExchangeAlgorithm (st_Crypto s) ∈ ["Kyber512"; "Kyber768"; "Kyber1024"]%string)
  && bool_decide (SignatureAlgorithm (st_Crypto s) ∈ ["Dilithium2"; "Dilithium3"; "Dilithium5"]%string).

Definition manager0 : Manager := mkManager [mkConfig (settings0 100) []] 0 false [].
Lemma manager0_new : NewManager tags0 (Holds (settings0 100)) = Ok manager0.
Proof. vm_compute. reflexivity. Qed.

(** Handler 7 is registered, then the file changes twice. *)
Definition reload (f : file) (m : Manager) : Manager := notifyChangeHandlers (watch_load tags0 f m).
Definition reloaded : Manager := reload (Holds (settings0 200)) (RegisterChangeHandler 7 manager0).

Lemma reloaded_run : star (manager_step tags0 false) manager0 reloaded.
Proof.
  eapply star_snoc; [eapply star_snoc; [eapply star_snoc; [apply star_refl|]|]|].
  - by apply (ms_register _ _ _ 7).
  - by apply (ms_load _ _ _ (Holds (settings0 200))).
  - by apply ms_notify.
Qed.

Lemma handlers_never_called_witness : mg_called reloaded = [] ∧ mg_config reloaded = 1%nat.
Proof.
  split; [|reflexivity].
  apply (handlers_never_called tags0 (Holds (settings0 100)) manager0 reloaded manager0_new).
  exact reloaded_run.
Defined.

Lemma config_always_valid_witness :
  (∃ c, GetConfig reloaded = Some c ∧ performCustomValidations (settings c) = None)
  ∧ watch_load tags0 (Holds (settings0 20000)) reloaded = reloaded.
Proof.
  destruct (config_always_valid tags0 (Holds (settings0 100)) manager0 false reloaded manager0_new
    reloaded_run) as [(c & Hc & _ & Hv) Hbad].
  split; [by exists c|]. apply (Hbad _ ErrBatchSize). vm_compute. reflexivity.
Defined.

Lemma levels_follow_names_witness :
  GetKyberSecurityLevel (with_levels 512 2 NewDefaultCryptoConfig) = 1024.
Proof.
  destruct (levels_follow_names tags0) with (s := settings0 100) (k := 512) (d := 2)
    as (_ & _ & H & _).
  - intros s Hs. unfold tags0 in Hs. by bool_to_prop.
  - vm_compute. reflexivity.
  - exact H.
Defined.
