(* ===== verification/Bfs.v ===== *)
(** * Breadth-first traversal with a visited set

    The loop of [VirtualVoting.HasSeen] in general form: nodes with a key,
    parents named by keys that a lookup resolves (or not), a test on nodes.
    The loop marks a node when it leaves the queue, so a node may be queued
    several times.  [bfs_correct] gives a fuel bound that always suffices,
    on any graph, cyclic ones included, and says what the answer means. *)
From Stdlib Require Import ZArith Lia.
From stdpp Require Import numbers prelude gmap relations.

(** [naive_solver] clears hypotheses that are already gone. *)
Set Warnings "-clear-no-such-hyp".
Open Scope nat_scope.

Section bfs.
Context {K E : Type} `{Countable K}.
Variable key : E → K.
Variable parents : E → list K.
Variable look : K → option E.
Variable hit : E → bool.

(** [None] when the fuel runs out. *)
Fixpoint bfs (fuel : nat) (seen : gset K) (queue : list E) : option bool :=
  match fuel with
  | O => None
  | S fuel =>
      match queue with
      | [] => Some false
      | e :: queue =>
          if decide (key e ∈ seen) then bfs fuel seen queue
          else if hit e then Some true
          else bfs fuel ({[key e]} ∪ seen) (queue ++ omap look (parents e))
      end
  end.

Definition edge (a b : E) : Prop := ∃ k, k ∈ parents a ∧ look k = Some b.

(** ** Fuel *)

Definition weight (k : K) : nat :=
  match look k with Some e => length (parents e) | None => 0 end.
Definition total (univ : list K) (seen : gset K) : nat :=
  foldr (λ k n, (if decide (k ∈ seen) then 0 else weight k) + n) 0 univ.
Definition bfs_fuel (univ : list K) (s : E) : nat :=
  2 + length (parents s) + total univ ∅.

Variable s : E.
Variable univ : list K.
Hypothesis look_key : ∀ k e, look k = Some e → key e = k.
Hypothesis look_univ : ∀ k e, look k = Some e → k ∈ univ.
Hypothesis start_key : ∀ e, look (key s) = Some e → e = s.

Definition member (e : E) : Prop := e = s ∨ ∃ k, look k = Some e.

Lemma member_key e e' : member e → member e' → key e = key e' → e = e'.
Proof.
  assert (∀ a, member a → a = s ∨ look (key a) = Some a) as Hm.
  { intros a [->|[k Hk]]; [by left|right]. by rewrite (look_key _ _ Hk). }
  intros [->|He]%Hm [->|He']%Hm Hk; [done| | |congruence].
  - symmetry. apply start_key. by rewrite Hk.
  - apply start_key. by rewrite <- Hk.
Qed.

Lemma total_mono l seen k : total l ({[k]} ∪ seen) ≤ total l seen.
Proof. induction l; simpl; [lia|]. repeat case_decide; set_solver by lia. Qed.

Lemma total_drop l seen k : k ∈ l → k ∉ seen →
  weight k + total l ({[k]} ∪ seen) ≤ total l seen.
Proof.
  intros Hk Hs. induction l as [|j l IH]; [by apply elem_of_nil in Hk|]. simpl.
  destruct (decide (j = k)) as [->|Hjk].
  - rewrite (decide_True (P := k ∈ {[k]} ∪ seen)) by set_solver.
    rewrite decide_False by done. pose proof (total_mono l seen k). lia.
  - apply elem_of_cons in Hk as [?|Hk]; [congruence|]. specialize (IH Hk).
    repeat case_decide; try lia. set_solver.
Qed.

Definition budget (seen : gset K) : nat :=
  (if decide (key s ∈ seen) then 0 else length (parents s)) + total univ seen.

Lemma budget_drop seen e : member e → key e ∉ seen →
  length (parents e) + budget ({[key e]} ∪ seen) ≤ budget seen.
Proof.
  intros He Hs. unfold budget. destruct (decide (key e = key s)) as [Hks|Hks].
  - rewrite (decide_True (P := key s ∈ {[key e]} ∪ seen)) by set_solver.
    rewrite decide_False by congruence.
    assert (e = s) as -> by (by apply member_key; [|left|]).
    pose proof (total_mono univ seen (key s)). lia.
  - destruct He as [->|[k Hk]]; [done|]. pose proof (look_key _ _ Hk) as <-.
    pose proof (total_drop univ seen (key e) (look_univ _ _ Hk) Hs) as Hd.
    unfold weight in Hd. rewrite Hk in Hd.
    assert (key s ∈ {[key e]} ∪ seen ↔ key s ∈ seen) as Hiff by set_solver.
    rewrite (decide_ext _ _ _ _ Hiff). lia.
Qed.

(** ** The loop's invariant *)

Record bfs_inv (seen : gset K) (queue : list E) : Prop := {
  bi_member : ∀ e, e ∈ queue → member e ∧ rtc edge s e;
  bi_start : key s ∈ seen ∨ s ∈ queue;
  bi_seen : ∀ k, k ∈ seen → ∃ e, member e ∧ key e = k ∧ hit e = false ∧
    ∀ b, edge e b → key b ∈ seen ∨ b ∈ queue }.

Lemma bfs_inv_skip seen e queue : key e ∈ seen → bfs_inv seen (e :: queue) → bfs_inv seen queue.
Proof.
  intros He [Hm Hs Hc]. split.
  - intros a Ha. apply Hm. by right.
  - destruct Hs as [Hs|[->|Hs]%elem_of_cons]; auto.
  - intros k Hk. destruct (Hc k Hk) as (a & Ha & Hka & Hh & Hb). exists a. split_and!; try done.
    intros b [Hbs|[->|Hbq]%elem_of_cons]%Hb; auto.
Qed.

Lemma bfs_inv_visit seen e queue : hit e = false → bfs_inv seen (e :: queue) →
  bfs_inv ({[key e]} ∪ seen) (queue ++ omap look (parents e)).
Proof.
  intros He [Hm Hs Hc]. destruct (Hm e) as [Hme Hre]; [by left|].
  assert (∀ b, edge e b ↔ b ∈ omap look (parents e)) as Hedge.
  { intros b. rewrite list_elem_of_omap. unfold edge. naive_solver. }
  split.
  - intros a [Ha|Ha]%elem_of_app; [apply Hm; by right|]. apply Hedge in Ha. split.
    + destruct Ha as (k & _ & Hk). right. eauto.
    + by eapply rtc_r.
  - destruct Hs as [Hs|[->|Hs]%elem_of_cons]; [left|left|right]; set_solver.
  - intros k Hk. destruct (decide (k = key e)) as [->|Hne].
    + exists e. split_and!; try done. intros b Hb%Hedge. right. set_solver.
    + destruct (Hc k) as (a & Ha & Hka & Hh & Hb); [set_solver|]. exists a. split_and!; try done.
      intros b [Hbs|[->|Hbq]%elem_of_cons]%Hb; [left|left|right]; set_solver.
Qed.

Lemma bfs_inv_end seen a : bfs_inv seen [] → rtc edge s a → hit a = false.
Proof.
  intros [_ Hs Hc] Hr.
  assert (key a ∈ seen ∧ member a) as [Ha Hma].
  { revert a Hr. apply (rtc_ind_r (λ a, key a ∈ seen ∧ member a)).
    - split; [destruct Hs as [?|?%elem_of_nil]; done|by left].
    - intros a b _ Hab [Ha Hma]. destruct (Hc _ Ha) as (a' & Hma' & Hk & _ & Hb).
      pose proof (member_key _ _ Hma' Hma Hk) as ->.
      destruct (Hb b Hab) as [?|?%elem_of_nil]; [|done]. split; [done|].
      destruct Hab as (k & _ & Hl). right. eauto. }
  destruct (Hc _ Ha) as (a' & Hma' & Hk & Hh & _). by rewrite <- (member_key _ _ Hma' Hma Hk).
Qed.

Lemma bfs_spec fuel : ∀ seen queue, bfs_inv seen queue →
  1 + length queue + budget seen ≤ fuel →
  ∃ b, bfs fuel seen queue = Some b ∧ (b = true ↔ ∃ a, rtc edge s a ∧ hit a = true).
Proof.
  induction fuel as [|fuel IH]; intros seen queue Hi Hf; [lia|]. cbn [bfs].
  destruct queue as [|e queue].
  { exists false. split; [done|]. split; [done|]. intros (a & Ha & Hh).
    rewrite (bfs_inv_end _ _ Hi Ha) in Hh. done. }
  cbn [length] in Hf. case_decide as Hseen.
  { apply IH; [by eapply bfs_inv_skip|lia]. }
  destruct (bi_member _ _ Hi e) as [Hme Hre]; [by left|].
  destruct (hit e) eqn:Hh.
  { exists true. split; [done|]. split; [|done]. eauto. }
  apply IH; [by apply bfs_inv_visit|].
  pose proof (budget_drop seen e Hme Hseen). rewrite length_app.
  assert (length (omap look (parents e)) ≤ length (parents e)) as Hl.
  { generalize (parents e). intros l. induction l as [|k l IHl]; [done|].
    change (omap look (k :: l)) with (match look k with Some b => b :: omap look l
      | None => omap look l end). destruct (look k); cbn [length]; lia. }
  lia.
Qed.

Lemma bfs_correct : ∃ b, bfs (bfs_fuel univ s) ∅ [s] = Some b ∧
  (b = true ↔ ∃ a, rtc edge s a ∧ hit a = true).
Proof.
  apply bfs_spec.
  - split.
    + intros e ->%list_elem_of_singleton. split; [by left|done].
    + right. by left.
    + set_solver.
  - unfold bfs_fuel, budget. rewrite decide_False by set_solver. simpl. lia.
Qed.
End bfs.
