(* ===== verification/Dag.v ===== *)
(** * The event DAG: src/consensus/diamantefinality/dag.go

    Events are shared objects: the DAG, the nodes, the pending and finalized
    lists point to the same [types.Event], whose [Finalized] flag is changed
    in place.  They live in a store ([heap]) and are referred to by location;
    the store is kept in the DAG record.  Node identifiers and event
    identifiers are [32]byte arrays; map iteration orders are arguments, the
    clock too (nanoseconds).  JSON encoding is a pair of parameters. *)
From Stdlib Require Import ZArith Lia.
From Stdlib Require Import Strings.Byte Strings.Ascii Strings.String.
From stdpp Require Import numbers prelude gmap strings.
From S2P Require Import Prelude Bytes Sha256 Maps Common.
Open Scope Z_scope.

Record Event := mkEvent {
  ev_ID : bytes32;
  ev_Creator : bytes32;
  ev_ParentIDs : list bytes32;
  ev_Data : list byte;
  ev_Timestamp : Z;
  ev_Height : Z;
  ev_Finalized : bool;
  ev_PoHState : bytes32;
  ev_PoHCount : Z;
  ev_PoHProof : bytes32 }.

#[export] Instance Event_eq_dec : EqDecision Event.
Proof. solve_decision. Defined.

Abbreviation loc := positive.

(** The store of events and the next free location. *)
Record heap := mkHeap { objs : gmap loc Event; next : loc }.
Definition alloc (e : Event) (h : heap) : loc * heap :=
  (next h, mkHeap (<[next h := e]> (objs h)) (Pos.succ (next h))).

Record Node := mkNode {
  nd_ID : bytes32;
  nd_Events : list loc;
  nd_Stake : Z;
  nd_Active : bool }.

Record DAG := mkDAG {
  Nodes : gmap bytes32 Node;
  Events : gmap bytes32 loc;
  MaxHeight : Z;
  store : heap }.

Inductive DagError :=
| ErrNodeDoesNotExist
| ErrCreatorUnknown
| ErrCreatorInactive
| ErrEventNotFound
| ErrNodeNotFound
| ErrUnmarshal
| ErrParseNodeID (s : string)
| ErrParseEventID (s : string)
| ErrEventCreator (id creator : bytes32)
| ErrEventParent (id parent : bytes32)
| ErrHeightZero (id : bytes32)
| ErrHeightNotAboveParents (id : bytes32)
| ErrMaxHeight (recorded actual : Z).

Definition NewDAG : DAG := mkDAG ∅ ∅ 0 (mkHeap ∅ 1).

Definition with_Nodes (n : gmap bytes32 Node) (d : DAG) : DAG :=
  mkDAG n (Events d) (MaxHeight d) (store d).

(** [d.Events[id]], through the pointer. *)
Definition event_at (d : DAG) (l : loc) : option Event := objs (store d) !! l.
Definition find_event (d : DAG) (id : bytes32) : option Event :=
  l ← Events d !! id; event_at d l.

(** ** Nodes *)

Definition set_stake_active (stake : Z) (active : bool) (n : Node) : Node :=
  mkNode (nd_ID n) (nd_Events n) stake active.

Definition AddNode (nodeID : bytes32) (stake : Z) (d : DAG) : DAG :=
  match Nodes d !! nodeID with
  | Some node => with_Nodes (<[nodeID := set_stake_active stake true node]> (Nodes d)) d
  | None => with_Nodes (<[nodeID := mkNode nodeID [] stake true]> (Nodes d)) d
  end.

Definition UpdateNodeStake (nodeID : bytes32) (newStake : Z) (d : DAG) :
    DAG * result DagError () :=
  match Nodes d !! nodeID with
  | None => (d, Err ErrNodeDoesNotExist)
  | Some node =>
      (with_Nodes (<[nodeID := set_stake_active newStake (nd_Active node) node]> (Nodes d)) d,
       Ok ())
  end.

Definition RemoveNode (nodeID : bytes32) (d : DAG) : DAG * result DagError () :=
  match Nodes d !! nodeID with
  | None => (d, Err ErrNodeDoesNotExist)
  | Some node =>
      (with_Nodes (<[nodeID := set_stake_active (nd_Stake node) false node]> (Nodes d)) d, Ok ())
  end.

Definition GetActiveNodes (order : list bytes32) (d : DAG) : list bytes32 :=
  List.filter (λ id, match Nodes d !! id with Some n => nd_Active n | None => false end) order.

Definition GetNodeStake (nodeID : bytes32) (d : DAG) : result DagError Z :=
  match Nodes d !! nodeID with
  | None => Err ErrNodeNotFound
  | Some node => Ok (nd_Stake node)
  end.

Definition active_stake (n : Node) : Z := if nd_Active n then nd_Stake n else 0.

(** [total += node.Stake] on the active nodes, wrapping. *)
Definition GetTotalStake (order : list bytes32) (d : DAG) : Z :=
  foldl (λ total n, if nd_Active n then uadd total (nd_Stake n) else total) 0
    (visit (Nodes d) order).

Definition IsActiveValidator (nodeID : bytes32) (d : DAG) : bool :=
  match Nodes d !! nodeID with Some node => nd_Active node | None => false end.

(** ** Events *)

(** The loop over the parents: the highest known parent height, at least 1. *)
Definition max_parent (d : DAG) (parentIDs : list bytes32) : Z :=
  foldl (λ height pid,
    match find_event d pid with
    | Some p => if height <=? ev_Height p then ev_Height p else height
    | None => height
    end) 1 parentIDs.

Definition new_height (d : DAG) (parentIDs : list bytes32) : Z :=
  match parentIDs with
  | [] => 1
  | _ => uadd (max_parent d parentIDs) 1
  end.

(** The SHA-256 input: time, creator, number of the event, data. *)
Definition event_id (now : Z) (creator : bytes32) (count : Z) (data : list byte) : bytes32 :=
  sha256 (be64 (u64 now) ++ b32 creator ++ be64 count ++ data).

Definition build_event (now : Z) (creator : bytes32) (parentIDs : list bytes32)
    (data : list byte) (d : DAG) : Event :=
  mkEvent (event_id now creator (Z.of_nat (size (Events d)) + 1) data) creator parentIDs data
    now (new_height d parentIDs) false zero32 0 zero32.

Definition add_event (e : Event) (node : Node) (d : DAG) : DAG * loc :=
  let '(l, h) := alloc e (store d) in
  let node := mkNode (nd_ID node) (nd_Events node ++ [l]) (nd_Stake node) (nd_Active node) in
  (mkDAG (<[ev_Creator e := node]> (Nodes d)) (<[ev_ID e := l]> (Events d))
     (if MaxHeight d <? ev_Height e then ev_Height e else MaxHeight d) h, l).

Definition NewEvent (now : Z) (creator : bytes32) (parentIDs : list bytes32)
    (data : list byte) (d : DAG) : DAG * result DagError loc :=
  match Nodes d !! creator with
  | None => (d, Err ErrCreatorUnknown)
  | Some creatorNode =>
      if negb (nd_Active creatorNode) then (d, Err ErrCreatorInactive)
      else
        let '(d', l) := add_event (build_event now creator parentIDs data d) creatorNode d in
        (d', Ok l)
  end.

Definition GetEvent (id : bytes32) (d : DAG) : result DagError loc :=
  match Events d !! id with None => Err ErrEventNotFound | Some l => Ok l end.

Definition GetEvents (d : DAG) : gmap bytes32 loc := Events d.

Definition GetUnfinalizedEvents (order : list bytes32) (d : DAG) : list loc :=
  List.filter (λ l, match event_at d l with
                    | Some e => negb (ev_Finalized e)
                    | None => false
                    end) (visit (Events d) order).

(** [event.Finalized = true]. *)
Definition set_Finalized (e : Event) : Event :=
  mkEvent (ev_ID e) (ev_Creator e) (ev_ParentIDs e) (ev_Data e) (ev_Timestamp e) (ev_Height e)
    true (ev_PoHState e) (ev_PoHCount e) (ev_PoHProof e).
Definition mark_finalized (l : loc) (d : DAG) : DAG :=
  mkDAG (Nodes d) (Events d) (MaxHeight d)
    (mkHeap (alter set_Finalized l (objs (store d))) (next (store d))).

(** ** Consistency *)

(** The first failure in a loop over the events in the given order. *)
Fixpoint first_error {A} (check : A → option DagError) (l : list A) : option DagError :=
  match l with
  | [] => None
  | a :: l => match check a with Some e => Some e | None => first_error check l end
  end.

Definition check_creator (d : DAG) (id : bytes32) : option DagError :=
  e ← find_event d id;
  match Nodes d !! ev_Creator e with
  | None => Some (ErrEventCreator id (ev_Creator e))
  | Some _ => None
  end.

Definition check_parents (d : DAG) (id : bytes32) : option DagError :=
  e ← find_event d id;
  first_error (λ p, match Events d !! p with
                    | None => Some (ErrEventParent id p)
                    | Some _ => None
                    end) (ev_ParentIDs e).

(** The maximum of heights, from 0. *)
Definition max_heights (hs : list Z) : Z :=
  foldl (λ m h, if m <? h then h else m) 0 hs.

(** A missing parent would be dereferenced as nil here; step 2 has ruled it
    out. *)
Definition check_height (d : DAG) (id : bytes32) : option DagError :=
  e ← find_event d id;
  if ev_Height e =? 0 then Some (ErrHeightZero id)
  else if (0 <? length (ev_ParentIDs e))%nat
          && (ev_Height e <=? max_heights (omap (λ p, ev_Height <$> find_event d p) (ev_ParentIDs e)))
  then Some (ErrHeightNotAboveParents id)
  else None.

Definition actual_max (d : DAG) (order : list bytes32) : Z :=
  max_heights (omap (λ id, ev_Height <$> find_event d id) order).

(** [ord k] is the order of the [k]-th iteration over [d.Events]. *)
Definition VerifyConsistency (ord : nat → list bytes32) (d : DAG) : result DagError () :=
  match first_error (check_creator d) (ord 0%nat) with
  | Some e => Err e
  | None =>
      match first_error (check_parents d) (ord 1%nat) with
      | Some e => Err e
      | None =>
          match first_error (check_height d) (ord 2%nat) with
          | Some e => Err e
          | None =>
              let actualMaxHeight := actual_max d (ord 3%nat) in
              if negb (MaxHeight d =? actualMaxHeight)
              then Err (ErrMaxHeight (MaxHeight d) actualMaxHeight) else Ok ()
          end
      end
  end.

Definition delete_events (ids : list bytes32) (d : DAG) : DAG :=
  mkDAG (Nodes d) (foldl (λ m id, delete id m) (Events d) ids) (MaxHeight d) (store d).

Definition bad_creator (d : DAG) (id : bytes32) : bool :=
  match check_creator d id with Some _ => true | None => false end.
Definition bad_parent (d : DAG) (id : bytes32) : bool :=
  match check_parents d id with Some _ => true | None => false end.

(** [ord k m] is the order of the [k]-th iteration, over the map [m]. *)
Definition RepairConsistency (ord : nat → gmap bytes32 loc → list bytes32) (d : DAG) :
    DAG * bool :=
  let rm1 := List.filter (bad_creator d) (ord 0%nat (Events d)) in
  let d1 := delete_events rm1 d in
  let rm2 := List.filter (bad_parent d1) (ord 1%nat (Events d1)) in
  let d2 := delete_events rm2 d1 in
  let actualMaxHeight := actual_max d2 (ord 2%nat (Events d2)) in
  let changed := negb (length rm1 =? 0)%nat || negb (length rm2 =? 0)%nat in
  if negb (MaxHeight d2 =? actualMaxHeight)
  then (mkDAG (Nodes d2) (Events d2) actualMaxHeight (store d2), true)
  else (d2, changed).

(** ** Serialised state *)

Definition byteArrayToString (b : bytes32) : string := hex_string (b32 b).
Definition stringToByteArray (s : string) : option bytes32 :=
  match hex_decode (list_byte_of_string s) with
  | None => None
  | Some data => if negb (length data =? 32)%nat then None else Some (copy32 data)
  end.

(** What is marshalled: values, not pointers. *)
Record node_state := mkNodeState {
  ns_ID : bytes32; ns_Events : list Event; ns_Stake : Z; ns_Active : bool }.
Record dag_state := mkDagState {
  ds_nodes : gmap string node_state;
  ds_events : gmap string Event;
  ds_max_height : Z }.

Definition node_value (h : heap) (n : Node) : node_state :=
  mkNodeState (nd_ID n) (omap (λ l, objs h !! l) (nd_Events n)) (nd_Stake n) (nd_Active n).

Definition state_of (d : DAG) : dag_state :=
  mkDagState (kmap byteArrayToString (node_value (store d) <$> Nodes d))
    (kmap byteArrayToString (omap (event_at d) (Events d))) (MaxHeight d).

(** The objects [json.Unmarshal] allocates. *)
Fixpoint alloc_list (es : list Event) (h : heap) : list loc * heap :=
  match es with
  | [] => ([], h)
  | e :: es =>
      let '(l, h) := alloc e h in
      let '(ls, h) := alloc_list es h in (l :: ls, h)
  end.

Fixpoint restore_nodes (keys : list string) (s : dag_state) (d : DAG) :
    DAG * result DagError () :=
  match keys with
  | [] => (d, Ok ())
  | k :: keys =>
      match ds_nodes s !! k with
      | None => restore_nodes keys s d
      | Some ns =>
          match stringToByteArray k with
          | None => (d, Err (ErrParseNodeID k))
          | Some id =>
              let '(ls, h) := alloc_list (ns_Events ns) (store d) in
              restore_nodes keys s
                (mkDAG (<[id := mkNode (ns_ID ns) ls (ns_Stake ns) (ns_Active ns)]> (Nodes d))
                   (Events d) (MaxHeight d) h)
          end
      end
  end.

Fixpoint restore_events (keys : list string) (s : dag_state) (d : DAG) :
    DAG * result DagError () :=
  match keys with
  | [] => (d, Ok ())
  | k :: keys =>
      match ds_events s !! k with
      | None => restore_events keys s d
      | Some e =>
          match stringToByteArray k with
          | None => (d, Err (ErrParseEventID k))
          | Some id =>
              let '(l, h) := alloc e (store d) in
              restore_events keys s (mkDAG (Nodes d) (<[id := l]> (Events d)) (MaxHeight d) h)
          end
      end
  end.

Section json.
(** [json.Marshal] and [json.Unmarshal] at the type of the state. *)
Variable marshal : dag_state → list byte.
Variable unmarshal : list byte → option dag_state.

Definition GetState (d : DAG) : list byte := marshal (state_of d).

(** [okeys] and [ekeys]: the iterations over the two decoded maps.  An error
    leaves what was already rebuilt. *)
Definition RestoreState (okeys ekeys : list string) (stateData : list byte) (d : DAG) :
    DAG * result DagError () :=
  match unmarshal stateData with
  | None => (d, Err ErrUnmarshal)
  | Some s =>
      match restore_nodes okeys s (mkDAG ∅ (Events d) (MaxHeight d) (store d)) with
      | (d, Err e) => (d, Err e)
      | (d, Ok _) =>
          match restore_events ekeys s (mkDAG (Nodes d) ∅ (MaxHeight d) (store d)) with
          | (d, Err e) => (d, Err e)
          | (d, Ok _) => (mkDAG (Nodes d) (Events d) (ds_max_height s) (store d), Ok ())
          end
      end
  end.
End json.

(** * Facts *)

Lemma max_heights_spec hs : Forall (λ h, 0 ≤ h) hs →
  Forall (λ h, h ≤ max_heights hs) hs ∧ (max_heights hs = 0 ∨ max_heights hs ∈ hs) ∧
  0 ≤ max_heights hs.
Proof.
  unfold max_heights. assert (∀ l a, 0 ≤ a →
    a ≤ foldl (λ m h, if m <? h then h else m) a l ∧
    Forall (λ h, h ≤ foldl (λ m h, if m <? h then h else m) a l) l ∧
    (foldl (λ m h, if m <? h then h else m) a l = a ∨
     foldl (λ m h, if m <? h then h else m) a l ∈ l)) as Hgen.
  { induction l as [|h l IH]; intros a Ha; cbn [foldl]; [split_and!; [lia|constructor|by left]|].
    destruct (Z.ltb_spec a h).
    - destruct (IH h) as (H1 & H2 & H3); [lia|]. split_and!; [lia|by constructor|].
      right. destruct H3 as [->|]; [by left|by right].
    - destruct (IH a) as (H1 & H2 & H3); [lia|]. split_and!; [lia|constructor; [lia|done]|].
      destruct H3 as [->|]; [by left|right; by right]. }
  intros _. destruct (Hgen hs 0) as (? & ? & ?); [lia|done].
Qed.

Lemma max_parent_spec d ps : (∀ p e, p ∈ ps → find_event d p = Some e → 0 ≤ ev_Height e) →
  1 ≤ max_parent d ps ∧
  (∀ p e, p ∈ ps → find_event d p = Some e → ev_Height e ≤ max_parent d ps) ∧
  (max_parent d ps = 1 ∨
   ∃ p e, p ∈ ps ∧ find_event d p = Some e ∧ ev_Height e = max_parent d ps).
Proof.
  unfold max_parent. set (f := λ height pid, match find_event d pid with
    | Some p => if height <=? ev_Height p then ev_Height p else height | None => height end).
  intros _. assert (∀ l a, a ≤ foldl f a l ∧
    (∀ p e, p ∈ l → find_event d p = Some e → ev_Height e ≤ foldl f a l) ∧
    (foldl f a l = a ∨ ∃ p e, p ∈ l ∧ find_event d p = Some e ∧ ev_Height e = foldl f a l)) as Hgen.
  { induction l as [|q l IH]; intros a; cbn [foldl].
    { split_and!; [lia|by intros ? ? ?%elem_of_nil|by left]. }
    destruct (IH (f a q)) as (H1 & H2 & H3).
    assert (a ≤ f a q ∧ (f a q = a ∨ ∃ e, find_event d q = Some e ∧ f a q = ev_Height e) ∧
      ∀ e, find_event d q = Some e → ev_Height e ≤ f a q) as (Ha & Hq & Hqe).
    { unfold f. destruct (find_event d q) as [e|]; [|by split_and!; [lia|left|]].
      destruct (Z.leb_spec a (ev_Height e)); split_and!; try lia; try naive_solver lia. }
    split_and!; [lia| |].
    - intros p e [->|Hp]%elem_of_cons He; [|by eauto]. specialize (Hqe e He). lia.
    - destruct H3 as [->|(p & e & Hp & He & <-)].
      + destruct Hq as [->|(e & He & ->)]; [by left|]. right. exists q, e. split; [by left|done].
      + right. exists p, e. split; [by right|done]. }
  destruct (Hgen ps 1) as (? & ? & ?). by split_and!.
Qed.

Lemma first_error_None {A} (check : A → option DagError) l :
  first_error check l = None ↔ Forall (λ a, check a = None) l.
Proof.
  induction l as [|a l IH]; simpl; [by split|]. rewrite Forall_cons, <- IH.
  destruct (check a); naive_solver.
Qed.

(** ** Pointers *)

Record dag_wf (d : DAG) : Prop := {
  dw_event : ∀ id l, Events d !! id = Some l → ∃ e, event_at d l = Some e ∧ ev_ID e = id ∧
    is_u64 (ev_Height e);
  dw_fresh : ∀ l, is_Some (event_at d l) → (l < next (store d))%positive;
  dw_node : ∀ id n, Nodes d !! id = Some n → nd_ID n = id ∧
    Forall (λ l, is_Some (event_at d l)) (nd_Events n) }.

Lemma find_event_id d id e : dag_wf d → find_event d id = Some e →
  ev_ID e = id ∧ is_u64 (ev_Height e).
Proof.
  intros Hw. unfold find_event. destruct (Events d !! id) as [l|] eqn:Hl; [|done].
  destruct (dw_event d Hw _ _ Hl) as (e' & He & <- & Hh). cbn. rewrite He. by intros [= ->].
Qed.

Lemma find_event_some d id : dag_wf d → is_Some (find_event d id) ↔ is_Some (Events d !! id).
Proof.
  intros Hw. unfold find_event. destruct (Events d !! id) as [l|] eqn:Hl;
    [|by split; intros [? ?]].
  destruct (dw_event d Hw _ _ Hl) as (e' & He & _). cbn. rewrite He. by split; eauto.
Qed.

(** ** Consistency *)

Definition parent_of (d : DAG) (e p : Event) : Prop :=
  ∃ id, id ∈ ev_ParentIDs e ∧ find_event d id = Some p.

Record dag_consistent (d : DAG) : Prop := {
  dc_event : ∀ id e, find_event d id = Some e →
    is_Some (Nodes d !! ev_Creator e) ∧ 1 ≤ ev_Height e ≤ MaxHeight d ∧
    ∀ p, p ∈ ev_ParentIDs e → ∃ pe, find_event d p = Some pe ∧ ev_Height pe < ev_Height e;
  dc_max : MaxHeight d = 0 ∨ ∃ id e, find_event d id = Some e ∧ ev_Height e = MaxHeight d }.

Section orders.
Variable d : DAG.
Hypothesis Hw : dag_wf d.

Lemma order_events o : iter_order (Events d) o → ∀ id, id ∈ o ↔ is_Some (find_event d id).
Proof. intros [_ Ho] id. by rewrite Ho, find_event_some. Qed.

Lemma creators_ok o : iter_order (Events d) o →
  first_error (check_creator d) o = None ↔
  ∀ id e, find_event d id = Some e → is_Some (Nodes d !! ev_Creator e).
Proof.
  intros Ho. rewrite first_error_None, Forall_forall. unfold check_creator. split.
  - intros Hall id e He. specialize (Hall id). rewrite (order_events o Ho), He in Hall.
    cbn in Hall. destruct (Nodes d !! _); [by eexists|]. by discriminate (Hall (mk_is_Some _ _ eq_refl)).
  - intros Hall id [e He]%(order_events o Ho). rewrite He. cbn.
    by destruct (Hall id e He) as [n ->].
Qed.

Lemma parents_ok o : iter_order (Events d) o →
  first_error (check_parents d) o = None ↔
  ∀ id e, find_event d id = Some e → ∀ p, p ∈ ev_ParentIDs e → is_Some (find_event d p).
Proof.
  intros Ho. rewrite first_error_None, Forall_forall. unfold check_parents. split.
  - intros Hall id e He p Hp. rewrite find_event_some by done. specialize (Hall id).
    rewrite (order_events o Ho), He in Hall. specialize (Hall (mk_is_Some _ _ eq_refl)).
    cbn in Hall. rewrite first_error_None, Forall_forall in Hall. specialize (Hall p Hp).
    destruct (Events d !! p); [by eexists|done].
  - intros Hall id [e He]%(order_events o Ho). rewrite He. cbn.
    apply first_error_None, Forall_forall. intros p Hp.
    specialize (Hall id e He p Hp). rewrite find_event_some in Hall by done.
    by destruct Hall as [l ->].
Qed.

Lemma heights_ok o : iter_order (Events d) o →
  (∀ id e, find_event d id = Some e → ∀ p, p ∈ ev_ParentIDs e → is_Some (find_event d p)) →
  first_error (check_height d) o = None ↔
  ∀ id e, find_event d id = Some e → 1 ≤ ev_Height e ∧
    ∀ p, p ∈ ev_ParentIDs e → ∃ pe, find_event d p = Some pe ∧ ev_Height pe < ev_Height e.
Proof.
  intros Ho Hpar. rewrite first_error_None, Forall_forall.
  assert (∀ id e, find_event d id = Some e → check_height d id = None ↔
    1 ≤ ev_Height e ∧ ∀ p, p ∈ ev_ParentIDs e →
      ∃ pe, find_event d p = Some pe ∧ ev_Height pe < ev_Height e) as Hone.
  { intros id e He. unfold check_height. rewrite He. cbn [mbind option_bind].
    destruct (find_event_id d id e Hw He) as [_ Hh]. unfold is_u64 in Hh.
    set (hs := omap _ (ev_ParentIDs e)).
    assert (∀ p pe, p ∈ ev_ParentIDs e → find_event d p = Some pe → ev_Height pe ∈ hs) as Hin.
    { intros p pe Hp Hpe. apply list_elem_of_omap. exists p. by rewrite Hpe. }
    assert (∀ h, h ∈ hs → ∃ p pe, p ∈ ev_ParentIDs e ∧ find_event d p = Some pe ∧ h = ev_Height pe)
      as Hout.
    { intros h (p & Hp & Hpe)%list_elem_of_omap. destruct (find_event d p) as [pe|] eqn:Hf; [|done].
      simplify_eq/=. eauto. }
    destruct (max_heights_spec hs) as (Hle & Hmem & H0).
    { apply Forall_forall. intros h (p & pe & _ & Hpe & ->)%Hout.
      by destruct (find_event_id d p pe Hw Hpe) as [_ [? _]]. }
    rewrite Forall_forall in Hle.
    destruct (Z.eqb_spec (ev_Height e) 0); [naive_solver lia|].
    destruct (Nat.ltb_spec 0 (length (ev_ParentIDs e))) as [Hlen|Hlen].
    - destruct (Z.leb_spec (ev_Height e) (max_heights hs)) as [Hm|Hm]; cbn [andb].
      + split; [done|]. intros [_ Hall]. destruct Hmem as [Hm0|Hmem]; [lia|].
        destruct (Hout _ Hmem) as (p & pe & Hp & Hpe & Heq).
        destruct (Hall p Hp) as (pe' & Hpe' & Hlt). simplify_eq. lia.
      + split; [|done]. intros _. split; [lia|]. intros p Hp.
        destruct (Hpar id e He p Hp) as [pe Hpe]. exists pe. split; [done|].
        specialize (Hle _ (Hin p pe Hp Hpe)). simpl in Hle. lia.
    - cbn [andb]. split; [|done]. intros _. split; [lia|]. intros p Hp.
      destruct (ev_ParentIDs e); [by apply elem_of_nil in Hp|simpl in Hlen; lia]. }
  split.
  - intros Hall id e He. apply Hone in He as Hc. apply Hc, Hall, (order_events o Ho). eauto.
  - intros Hall id [e He]%(order_events o Ho). apply (Hone id e He). eauto.
Qed.

Lemma max_ok o : iter_order (Events d) o →
  (∀ id e, find_event d id = Some e → ev_Height e ≤ actual_max d o) ∧
  (actual_max d o = 0 ∨ ∃ id e, find_event d id = Some e ∧ ev_Height e = actual_max d o).
Proof.
  intros Ho. unfold actual_max.
  destruct (max_heights_spec (omap (λ id, ev_Height <$> find_event d id) o)) as (Hle & Hmem & _).
  { apply Forall_forall. intros h (id & _ & Hh)%list_elem_of_omap.
    destruct (find_event d id) as [e|] eqn:He; [|done]. simplify_eq/=.
    by destruct (find_event_id d id e Hw He) as [_ [? _]]. }
  rewrite Forall_forall in Hle. split.
  - intros id e He. apply Hle, list_elem_of_omap. exists id. rewrite He.
    split; [|done]. apply (order_events o Ho). eauto.
  - destruct Hmem as [|(id & _ & Hid)%list_elem_of_omap]; [by left|right].
    destruct (find_event d id) as [e|] eqn:He; [|done]. injection Hid as Hid. eauto.
Qed.

Lemma max_unique m m' :
  (∀ id e, find_event d id = Some e → ev_Height e ≤ m) →
  (m = 0 ∨ ∃ id e, find_event d id = Some e ∧ ev_Height e = m) →
  (∀ id e, find_event d id = Some e → ev_Height e ≤ m') →
  (m' = 0 ∨ ∃ id e, find_event d id = Some e ∧ ev_Height e = m') → m = m'.
Proof.
  intros H1 H2 H3 H4.
  assert (∀ id e, find_event d id = Some e → 0 ≤ ev_Height e) as H0.
  { intros id e He. by destruct (find_event_id d id e Hw He) as [_ [? _]]. }
  destruct H2 as [->|(id & e & He & <-)], H4 as [->|(id' & e' & He' & <-)]; try done.
  - pose proof (H1 _ _ He'). pose proof (H0 _ _ He'). lia.
  - pose proof (H3 _ _ He). pose proof (H0 _ _ He). lia.
  - pose proof (H1 _ _ He'). pose proof (H3 _ _ He). lia.
Qed.

Lemma VerifyConsistency_spec ord : (∀ k, iter_order (Events d) (ord k)) →
  VerifyConsistency ord d = Ok () ↔ dag_consistent d.
Proof.
  intros Hord. unfold VerifyConsistency. split.
  - destruct (first_error (check_creator d) _) eqn:H0; [done|].
    rewrite creators_ok in H0 by done.
    destruct (first_error (check_parents d) _) eqn:H1; [done|].
    rewrite parents_ok in H1 by done.
    destruct (first_error (check_height d) _) eqn:H2; [done|].
    rewrite heights_ok in H2 by done.
    destruct (max_ok _ (Hord 3%nat)) as [Hle Hmem].
    destruct (Z.eqb_spec (MaxHeight d) (actual_max d (ord 3%nat))) as [Hm|]; [|done]. intros _.
    rewrite <- Hm in *. split; [|done]. intros id e He.
    destruct (H2 id e He) as [? ?]. specialize (Hle id e He). split_and!; eauto.
  - intros [He Hm].
    assert (∀ id e, find_event d id = Some e → ∀ p, p ∈ ev_ParentIDs e →
      is_Some (find_event d p)) as Hpar.
    { intros id e Hid p Hp. destruct (He id e Hid) as (_ & _ & Hp').
      destruct (Hp' p Hp) as (pe & -> & _). by eexists. }
    rewrite (proj2 (creators_ok _ (Hord 0%nat))) by (by intros id e [? _]%He).
    rewrite (proj2 (parents_ok _ (Hord 1%nat))) by done.
    rewrite (proj2 (heights_ok _ (Hord 2%nat) Hpar)).
    2:{ intros id e Hid. destruct (He id e Hid) as (_ & ? & Hp'). split; [lia|done]. }
    destruct (max_ok _ (Hord 3%nat)) as [Hle Hmem].
    rewrite (max_unique (MaxHeight d) (actual_max d (ord 3%nat))); [by rewrite Z.eqb_refl| |done..].
    intros id e Hid. destruct (He id e Hid) as (_ & ? & _). lia.
Qed.
End orders.

(** ** Growing a consistent DAG *)

Lemma find_event_ext d d' : Events d' = Events d → store d' = store d →
  ∀ id, find_event d' id = find_event d id.
Proof. intros He Hs id. unfold find_event, event_at. by rewrite He, Hs. Qed.

(** Replacing a node's stake and flag. *)
Definition updates_node (d d' : DAG) : Prop :=
  ∃ id n, Nodes d' = <[id := n]> (Nodes d) ∧ Events d' = Events d ∧ store d' = store d ∧
    MaxHeight d' = MaxHeight d ∧ nd_ID n = id ∧
    (nd_Events n = [] ∨ ∃ n0, Nodes d !! id = Some n0 ∧ nd_Events n = nd_Events n0).

Lemma updates_node_wf d d' : updates_node d d' → dag_wf d → dag_wf d'.
Proof.
  intros (id & n & Hn & He & Hs & Hm & Hid & Hev) Hw. split.
  - intros i l. unfold event_at. rewrite He, Hs. apply (dw_event d Hw).
  - intros l. unfold event_at. rewrite Hs. apply (dw_fresh d Hw).
  - intros i m. unfold event_at. rewrite Hn, Hs, lookup_insert_Some.
    intros [[<- <-]|[_ Hi]]; [|by apply (dw_node d Hw)]. split; [done|].
    destruct Hev as [->|(n0 & Hn0 & ->)]; [constructor|]. by apply (dw_node d Hw _ _ Hn0).
Qed.

Lemma AddNode_updates id stake d : dag_wf d → updates_node d (AddNode id stake d).
Proof.
  intros Hw. unfold AddNode. destruct (Nodes d !! id) as [n|] eqn:Hn.
  - exists id, (set_stake_active stake true n). split_and!; try done.
    + by destruct (dw_node d Hw _ _ Hn).
    + right. by exists n.
  - exists id, (mkNode id [] stake true). split_and!; try done. by left.
Qed.

Lemma UpdateNodeStake_updates id stake d : dag_wf d →
  updates_node d (UpdateNodeStake id stake d).1 ∨ (UpdateNodeStake id stake d).1 = d.
Proof.
  intros Hw. unfold UpdateNodeStake. destruct (Nodes d !! id) as [n|] eqn:Hn; [left|by right].
  exists id, (set_stake_active stake (nd_Active n) n). split_and!; try done.
  - by destruct (dw_node d Hw _ _ Hn).
  - right. by exists n.
Qed.

Lemma RemoveNode_updates id d : dag_wf d →
  updates_node d (RemoveNode id d).1 ∨ (RemoveNode id d).1 = d.
Proof.
  intros Hw. unfold RemoveNode. destruct (Nodes d !! id) as [n|] eqn:Hn; [left|by right].
  exists id, (set_stake_active (nd_Stake n) false n). split_and!; try done.
  - by destruct (dw_node d Hw _ _ Hn).
  - right. by exists n.
Qed.

Lemma add_event_find e n d d' l : dag_wf d → add_event e n d = (d', l) → ∀ id,
  find_event d' id = if decide (id = ev_ID e) then Some e else find_event d id.
Proof.
  intros Hw Ha. unfold add_event, alloc in Ha. injection Ha as <- <-.
  intros id. unfold find_event, event_at. cbn.
  destruct (decide (id = ev_ID e)) as [->|Hne].
  - rewrite lookup_insert_eq. cbn. by rewrite lookup_insert_eq.
  - rewrite lookup_insert_ne by done. destruct (Events d !! id) as [k|] eqn:Hk; [|done]. cbn.
    destruct (dw_event d Hw _ _ Hk) as (ek & Hek & _).
    pose proof (dw_fresh d Hw k (mk_is_Some _ _ Hek)).
    by rewrite lookup_insert_ne by (intros <-; lia).
Qed.

Lemma add_event_wf e n d d' l : dag_wf d → Nodes d !! ev_Creator e = Some n →
  is_u64 (ev_Height e) → add_event e n d = (d', l) → dag_wf d'.
Proof.
  intros Hw Hn Hh Ha. unfold add_event, alloc in Ha. injection Ha as <- <-.
  assert (∀ k, (k < next (store d))%positive →
    <[next (store d) := e]> (objs (store d)) !! k = event_at d k) as Hold.
  { intros k Hk. by rewrite lookup_insert_ne by (intros <-; lia). }
  split; unfold event_at; cbn.
  - intros id k. rewrite lookup_insert_Some. intros [[<- <-]|[_ Hk]].
    + rewrite lookup_insert_eq. by exists e.
    + destruct (dw_event d Hw _ _ Hk) as (ek & Hek & Hid).
      rewrite Hold by (apply (dw_fresh d Hw); by eexists). by exists ek.
  - intros k. destruct (decide (k = next (store d))) as [->|Hne]; [lia|].
    rewrite lookup_insert_ne by done. intros Hk. pose proof (dw_fresh d Hw k Hk). lia.
  - intros id m. rewrite lookup_insert_Some.
    assert (∀ ls, Forall (λ k, is_Some (event_at d k)) ls →
      Forall (λ k, is_Some (<[next (store d) := e]> (objs (store d)) !! k)) ls) as Hls.
    { intros ls Hl. eapply Forall_impl; [done|]. intros k Hk.
      by rewrite Hold by apply (dw_fresh d Hw k Hk). }
    intros [[<- <-]|[_ Hm]]; cbn.
    + destruct (dw_node d Hw _ _ Hn) as [? Hl]. split; [done|]. apply Forall_app.
      split; [by apply Hls|]. repeat constructor. rewrite lookup_insert_eq. by eexists.
    + destruct (dw_node d Hw _ _ Hm) as [? Hl]. split; [done|by apply Hls].
Qed.

Lemma add_event_fields e n d d' l : add_event e n d = (d', l) →
  MaxHeight d' = Z.max (MaxHeight d) (ev_Height e) ∧
  ∀ id, is_Some (Nodes d !! id) → is_Some (Nodes d' !! id).
Proof.
  unfold add_event, alloc. intros [= <- <-]. cbn. split.
  - destruct (Z.ltb_spec (MaxHeight d) (ev_Height e)); lia.
  - intros id Hid. destruct (decide (id = ev_Creator e)) as [->|];
      [rewrite lookup_insert_eq; by eexists|by rewrite lookup_insert_ne].
Qed.

Lemma new_height_spec d ps : dag_wf d → dag_consistent d → MaxHeight d < u64_max →
  (∀ p, p ∈ ps → is_Some (find_event d p)) →
  1 ≤ new_height d ps ≤ Z.max 1 (MaxHeight d + 1) ∧
  (∀ p pe, p ∈ ps → find_event d p = Some pe → ev_Height pe < new_height d ps) ∧
  (ps = [] → new_height d ps = 1) ∧
  (ps ≠ [] → ∃ p pe, p ∈ ps ∧ find_event d p = Some pe ∧ new_height d ps = ev_Height pe + 1).
Proof.
  intros Hw [Hev _] Hmax Hps. unfold new_height, u64_max in *. destruct ps as [|q ps].
  { split_and!; try done; try lia. by intros ? ? ?%elem_of_nil. }
  destruct (max_parent_spec d (q :: ps)) as (H1 & Hle & Hmem).
  { intros p e _ He. destruct (Hev p e He) as (_ & ? & _). lia. }
  assert (∃ p pe, p ∈ q :: ps ∧ find_event d p = Some pe ∧ max_parent d (q :: ps) = ev_Height pe)
    as (p0 & pe0 & Hp0 & Hpe0 & Heq).
  { destruct Hmem as [H|(p & e & Hp & He & Hh)]; [|by exists p, e].
    destruct (Hps q) as [e He]; [by left|]. exists q, e. split_and!; [by left|done|].
    specialize (Hle q e ltac:(by left) He). destruct (Hev q e He) as (_ & ? & _). lia. }
  destruct (Hev p0 pe0 Hpe0) as (_ & ? & _).
  assert (uadd (max_parent d (q :: ps)) 1 = max_parent d (q :: ps) + 1) as ->.
  { unfold uadd. apply u64_small. unfold is_u64. lia. }
  split_and!; [lia|lia| |done|].
  - intros p pe Hp Hpe. specialize (Hle p pe Hp Hpe). lia.
  - intros _. exists p0, pe0. split_and!; [done..|lia].
Qed.

Lemma NewEvent_ok now creator ps data d d' l : dag_wf d → dag_consistent d →
  MaxHeight d < u64_max → (∀ p, p ∈ ps → is_Some (find_event d p)) →
  find_event d (ev_ID (build_event now creator ps data d)) = None →
  NewEvent now creator ps data d = (d', Ok l) → dag_wf d' ∧ dag_consistent d'.
Proof.
  intros Hw Hc Hmax Hps Hfresh. unfold NewEvent.
  destruct (Nodes d !! creator) as [n|] eqn:Hn; [|done].
  destruct (nd_Active n); [|done]. cbn [negb].
  set (e := build_event now creator ps data d) in *.
  destruct (add_event e n d) as [d1 l1] eqn:Ha. intros [= <- <-].
  destruct (new_height_spec d ps Hw Hc Hmax Hps) as (Hh & Hlt & _).
  change (new_height d ps) with (ev_Height e) in Hh, Hlt.
  assert (is_u64 (ev_Height e)) as Hu by (unfold is_u64, u64_max in *; lia).
  pose proof (add_event_find e n d d1 l1 Hw Ha) as Hf. split; [by apply (add_event_wf e n d d1 l1)|].
  destruct (add_event_fields e n d d1 l1 Ha) as [Hm Hnodes].
  destruct Hc as [Hev Hmx].
  assert (∀ p pe, find_event d p = Some pe → find_event d1 p = Some pe) as Hold.
  { intros p x Hx. rewrite Hf, decide_False; [done|]. intros Heq. subst p. congruence. }
  split.
  - intros id x. rewrite Hf. case_decide as Hid.
    + intros [= <-]. split_and!; [apply Hnodes; by eexists|lia|lia|].
      intros p Hp. destruct (Hps p Hp) as [pe Hpe]. exists pe. eauto.
    + intros Hx. destruct (Hev id x Hx) as (? & ? & Hpp). split_and!; [auto|lia|lia|].
      intros p Hp. destruct (Hpp p Hp) as (pe & ? & ?). eauto.
  - right. rewrite Hm. destruct (Z.max_spec (MaxHeight d) (ev_Height e)) as [[? ->]|[? ->]].
    + exists (ev_ID e), e. by rewrite Hf, decide_True.
    + destruct Hmx as [|(id & x & Hx & Hxh)]; [lia|]. exists id, x. eauto.
Qed.

(** ** No cycles *)

Lemma parent_height d e p : dag_consistent d → (∃ id, find_event d id = Some e) →
  parent_of d e p → ev_Height p < ev_Height e ∧ 1 ≤ ev_Height p ∧ ∃ id, find_event d id = Some p.
Proof.
  intros [Hev _] [id He] (pid & Hp & Hpe). destruct (Hev id e He) as (_ & _ & Hpp).
  destruct (Hpp pid Hp) as (pe & Hpe' & ?). simplify_eq.
  destruct (Hev pid _ Hpe) as (_ & ? & _). split_and!; [done|lia|eauto].
Qed.

Lemma ancestor_height d e a n : dag_consistent d → (∃ id, find_event d id = Some e) →
  nsteps (parent_of d) n e a → ev_Height a + Z.of_nat n ≤ ev_Height e.
Proof.
  intros Hc. intros He Hn. revert He. induction Hn as [e|n e p a Hp _ IH]; intros He; [lia|].
  destruct (parent_height d e p Hc He Hp) as (? & _ & Hid). specialize (IH Hid). lia.
Qed.

(** ** Repair *)

Definition creators_known (d : DAG) : Prop :=
  ∀ id e, find_event d id = Some e → is_Some (Nodes d !! ev_Creator e).
Definition parents_known (d : DAG) : Prop :=
  ∀ id e, find_event d id = Some e → ∀ p, p ∈ ev_ParentIDs e → is_Some (find_event d p).
Definition max_exact (d : DAG) : Prop :=
  (∀ id e, find_event d id = Some e → ev_Height e ≤ MaxHeight d) ∧
  (MaxHeight d = 0 ∨ ∃ id e, find_event d id = Some e ∧ ev_Height e = MaxHeight d).

Lemma delete_events_lookup ids d id :
  Events (delete_events ids d) !! id = if decide (id ∈ ids) then None else Events d !! id.
Proof.
  unfold delete_events. cbn [Events]. generalize (Events d). intros m. revert m.
  induction ids as [|j ids IH]; intros m; cbn [foldl]; [done|]. rewrite IH.
  destruct (decide (id = j)) as [->|Hne].
  - rewrite lookup_delete_eq, (decide_True (P := j ∈ j :: ids)) by left. by case_decide.
  - rewrite lookup_delete_ne by done. apply decide_ext. set_solver.
Qed.

Lemma delete_events_find ids d id :
  find_event (delete_events ids d) id = if decide (id ∈ ids) then None else find_event d id.
Proof.
  unfold find_event. rewrite delete_events_lookup. by case_decide.
Qed.

Lemma delete_events_wf ids d : dag_wf d → dag_wf (delete_events ids d).
Proof.
  intros [He Hf Hn]. split; [|apply Hf|apply Hn].
  intros id l. rewrite delete_events_lookup. case_decide; [done|]. apply He.
Qed.

Lemma delete_events_nil d : delete_events [] d = d.
Proof. by destruct d. Qed.

Lemma delete_events_size ids d : dag_wf d → NoDup ids → (∀ id, id ∈ ids → is_Some (Events d !! id)) →
  (size (Events (delete_events ids d)) + length ids)%nat = size (Events d).
Proof.
  intros _. unfold delete_events. cbn [Events]. generalize (Events d). intros m. revert m.
  induction ids as [|j ids IH]; intros m Hnd Hin; cbn [foldl length]; [lia|].
  apply NoDup_cons in Hnd as [Hj Hnd]. pose proof (IH (delete j m)) as H.
  rewrite map_size_delete_Some in H by (apply Hin; by left).
  assert (0 < size m)%nat.
  { apply Nat.neq_0_lt_0. intros Hz%map_size_empty_inv. destruct (Hin j) as [l Hl]; [by left|].
    by rewrite Hz, lookup_empty in Hl. }
  rewrite <- (Nat.succ_pred_pos (size m)) by done. rewrite <- H; [lia|done|].
  intros id Hid. rewrite lookup_delete_ne by (intros ->; done). apply Hin. by right.
Qed.

Lemma filter_nil_iff {A} (f : A → bool) l : List.filter f l = [] ↔ Forall (λ a, f a = false) l.
Proof.
  induction l as [|a l IH]; simpl; [by split|]. rewrite Forall_cons, <- IH.
  destruct (f a); naive_solver.
Qed.

Lemma bad_creator_nil d o : dag_wf d → iter_order (Events d) o →
  List.filter (bad_creator d) o = [] ↔ creators_known d.
Proof.
  intros Hw Ho. rewrite filter_nil_iff. unfold creators_known.
  rewrite <- (creators_ok d Hw o Ho), first_error_None. unfold bad_creator.
  split; intros HF; (eapply Forall_impl; [exact HF|]); intros id; simpl; by destruct (check_creator d id).
Qed.

Lemma bad_parent_nil d o : dag_wf d → iter_order (Events d) o →
  List.filter (bad_parent d) o = [] ↔ parents_known d.
Proof.
  intros Hw Ho. rewrite filter_nil_iff. unfold parents_known.
  rewrite <- (parents_ok d Hw o Ho), first_error_None. unfold bad_parent.
  split; intros HF; (eapply Forall_impl; [exact HF|]); intros id; simpl; by destruct (check_parents d id).
Qed.

Lemma filter_events f d o : iter_order (Events d) o →
  NoDup (List.filter f o) ∧ ∀ id, id ∈ List.filter f o → is_Some (Events d !! id).
Proof.
  intros [Hn Ho]. split.
  - apply NoDup_ListNoDup, List.NoDup_filter, NoDup_ListNoDup, Hn.
  - intros id Hid. apply Ho. apply list_elem_of_In, filter_In in Hid as [Hid _].
    by apply list_elem_of_In.
Qed.

Lemma actual_max_exact d o : dag_wf d → iter_order (Events d) o →
  MaxHeight d = actual_max d o ↔ max_exact d.
Proof.
  intros Hw Ho. destruct (max_ok d Hw o Ho) as [Hle Hmem]. split.
  - intros He. unfold max_exact. by rewrite He.
  - intros [H1 H2]. by apply (max_unique d Hw).
Qed.

(** One pass: nothing to do on a repaired DAG, and otherwise either an event
    disappears or one more pass finds nothing to do. *)
Lemma Repair_pass ord d : (∀ k m, iter_order m (ord k m)) → dag_wf d →
  let '(d', changed) := RepairConsistency ord d in
  dag_wf d' ∧ Events d' ⊆ Events d ∧ Nodes d' = Nodes d ∧
  (changed = false ↔ creators_known d ∧ parents_known d ∧ max_exact d) ∧
  (changed = false → d' = d) ∧
  ((size (Events d') < size (Events d))%nat ∨
   creators_known d' ∧ parents_known d' ∧ max_exact d').
Proof.
  intros Hord Hw. unfold RepairConsistency.
  set (rm1 := List.filter (bad_creator d) _). set (d1 := delete_events rm1 d).
  set (rm2 := List.filter (bad_parent d1) _). set (d2 := delete_events rm2 d1).
  assert (dag_wf d1) as Hw1 by (by apply delete_events_wf).
  assert (dag_wf d2) as Hw2 by (by apply delete_events_wf).
  pose proof (bad_creator_nil d _ Hw (Hord 0%nat (Events d))) as Hc. fold rm1 in Hc.
  pose proof (bad_parent_nil d1 _ Hw1 (Hord 1%nat (Events d1))) as Hp. fold rm2 in Hp.
  destruct (filter_events (bad_creator d) d _ (Hord 0%nat (Events d))) as [Hnd1 Hin1].
  destruct (filter_events (bad_parent d1) d1 _ (Hord 1%nat (Events d1))) as [Hnd2 Hin2].
  pose proof (delete_events_size rm1 d Hw Hnd1 Hin1) as Hs1. fold d1 in Hs1.
  pose proof (delete_events_size rm2 d1 Hw1 Hnd2 Hin2) as Hs2. fold d2 in Hs2.
  assert (Events d2 ⊆ Events d) as Hsub.
  { apply map_subseteq_spec. intros id l. unfold d2, d1. rewrite !delete_events_lookup.
    destruct (decide (id ∈ rm2)); [done|]. by destruct (decide (id ∈ rm1)). }
  pose proof (actual_max_exact d2 _ Hw2 (Hord 2%nat (Events d2))) as Hmx.
  destruct (decide (rm1 = [] ∧ rm2 = [])) as [[E1 E2]|Hne].
  - assert (d2 = d) as Hd by (unfold d2; rewrite E2, delete_events_nil; unfold d1; by rewrite E1, delete_events_nil).
    assert (d1 = d) as Hd1 by (unfold d1; by rewrite E1, delete_events_nil).
    rewrite Hd1 in Hp. apply Hc in E1 as Hck. apply Hp in E2 as Hpk.
    rewrite E1, E2. cbn [length Nat.eqb negb orb]. rewrite Hd in *.
    destruct (Z.eqb_spec (MaxHeight d) (actual_max d (ord 2%nat (Events d)))) as [Heq|Hneq]; cbn [negb].
    + apply Hmx in Heq. split_and!; try done. by right.
    + set (d' := mkDAG _ _ _ _).
      assert (dag_wf d') as Hw' by (destruct Hw; by split). split_and!; try done.
      * split; [done|]. intros (_ & _ & Hmx'). by apply Hmx in Hmx'.
      * right. split_and!; [done..|].
        apply (actual_max_exact d' (ord 2%nat (Events d)) Hw' (Hord _ _)). done.
  - assert (size (Events d2) < size (Events d))%nat as Hlt.
    { destruct rm1 as [|? ?], rm2 as [|? ?]; cbn [length] in *; [|lia..]. by destruct Hne. }
    assert (¬ (creators_known d ∧ parents_known d)) as Hbad.
    { intros [Hck Hpk]. apply Hne. apply Hc in Hck as E1. split; [done|].
      apply Hp. unfold d1. by rewrite E1, delete_events_nil. }
    assert (negb (length rm1 =? 0)%nat || negb (length rm2 =? 0)%nat = true) as Hch.
    { destruct rm1, rm2; try done. by destruct Hne. }
    assert (∀ d', Events d' = Events d2 → store d' = store d2 → Nodes d' = Nodes d → dag_wf d' ∧
      Events d' ⊆ Events d ∧ Nodes d' = Nodes d ∧
      (true = false ↔ creators_known d ∧ parents_known d ∧ max_exact d) ∧
      (true = false → d' = d) ∧ ((size (Events d') < size (Events d))%nat ∨
        creators_known d' ∧ parents_known d' ∧ max_exact d')) as Hfin.
    { intros d' He Hst Hnn. rewrite He. split_and!; try done; [|naive_solver|by left].
      destruct Hw2 as [H1 H2 H3]. split; unfold event_at; rewrite ?He, ?Hst, ?Hnn; done. }
    destruct (negb (MaxHeight d2 =? _)); [by apply Hfin|]. rewrite Hch. by apply Hfin.
Qed.

Fixpoint repair_passes (ord : nat → gmap bytes32 loc → list bytes32) (n : nat) (d : DAG) : DAG :=
  match n with
  | O => d
  | S n => repair_passes ord n (RepairConsistency ord d).1
  end.

Lemma repair_passes_stable ord n d : (∀ k m, iter_order m (ord k m)) → dag_wf d →
  creators_known d → parents_known d → max_exact d → repair_passes ord n d = d.
Proof.
  intros Hord Hw Hc Hp Hm. induction n as [|n IH]; [done|]. simpl.
  pose proof (Repair_pass ord d Hord Hw) as Hpass.
  destruct (RepairConsistency ord d) as [d' ch]. destruct Hpass as (_ & _ & _ & Hch & Heq & _).
  simpl. rewrite Heq; [done|]. by apply Hch.
Qed.

Lemma repair_converges ord n : (∀ k m, iter_order m (ord k m)) → ∀ d, dag_wf d →
  (size (Events d) ≤ n)%nat →
  let d' := repair_passes ord (S n) d in
  dag_wf d' ∧ Events d' ⊆ Events d ∧ creators_known d' ∧ parents_known d' ∧ max_exact d'.
Proof.
  intros Hord. induction n as [|n IH]; intros d Hw Hs d';
    pose proof (Repair_pass ord d Hord Hw) as Hpass; unfold d'; cbn [repair_passes];
    destruct (RepairConsistency ord d) as [d1 ch];
    destruct Hpass as (Hw1 & Hsub & _ & _ & _ & [Hlt|(Hc & Hp & Hm)]); cbn [fst].
  - lia.
  - by split_and!.
  - destruct (IH d1 Hw1 ltac:(lia)) as (? & Hs1 & ? & ? & ?). split_and!; try done.
    by etrans.
  - change (repair_passes ord n (RepairConsistency ord d1).1) with (repair_passes ord (S n) d1).
    by rewrite repair_passes_stable.
Qed.

(** ** The serialised state *)

Lemma stringToByteArray_toString b : stringToByteArray (byteArrayToString b) = Some b.
Proof.
  unfold stringToByteArray, byteArrayToString, hex_string.
  rewrite list_byte_of_string_of_list_byte, hex_decode_encode, b32_length. simpl.
  by rewrite copy32_b32.
Qed.

#[export] Instance byteArrayToString_inj : Inj (=) (=) byteArrayToString.
Proof.
  intros a b H. apply (f_equal stringToByteArray) in H.
  rewrite !stringToByteArray_toString in H. congruence.
Qed.

(** Growing stores. *)
Definition heap_fresh (h : heap) : Prop := ∀ l, is_Some (objs h !! l) → (l < next h)%positive.
Definition heap_le (h h' : heap) : Prop := objs h ⊆ objs h'.
#[export] Instance heap_le_preorder : PreOrder heap_le.
Proof.
  unfold heap_le. split; [intros h|intros h1 h2 h3 ??]; [reflexivity|by etrans].
Qed.

Definition heap_has (h : heap) (ls : list loc) : Prop := Forall (λ l, is_Some (objs h !! l)) ls.
Definition deref (h : heap) (ls : list loc) : list Event := omap (λ l, objs h !! l) ls.

Lemma heap_le_has h h' ls : heap_le h h' → heap_has h ls → heap_has h' ls ∧ deref h' ls = deref h ls.
Proof.
  intros Hle. unfold deref, heap_has. induction 1 as [|l ls [e He] _ [IH1 IH2]]; [by split; [constructor|]|].
  pose proof (lookup_weaken _ _ _ _ He Hle) as He'. split; [constructor; [by eexists|done]|].
  cbn. rewrite He, He'. cbn in IH2. by rewrite IH2.
Qed.

Lemma alloc_spec e h l h' : heap_fresh h → alloc e h = (l, h') →
  heap_fresh h' ∧ heap_le h h' ∧ objs h' !! l = Some e.
Proof.
  unfold alloc. intros Hf [= <- <-]. split_and!.
  - intros k. cbn. destruct (decide (k = next h)) as [->|Hne]; [lia|].
    rewrite lookup_insert_ne by done. intros Hk. specialize (Hf k Hk). lia.
  - apply insert_subseteq. destruct (objs h !! next h) eqn:Hl; [|done].
    specialize (Hf (next h) (mk_is_Some _ _ Hl)). lia.
  - cbn. by rewrite lookup_insert_eq.
Qed.

Lemma alloc_list_spec es : ∀ h ls h', heap_fresh h → alloc_list es h = (ls, h') →
  heap_fresh h' ∧ heap_le h h' ∧ heap_has h' ls ∧ deref h' ls = es.
Proof.
  induction es as [|e es IH]; intros h ls h' Hf; cbn [alloc_list].
  { intros [= <- <-]. split_and!; [done|unfold heap_le; reflexivity|unfold heap_has; constructor|done]. }
  destruct (alloc e h) as [l h1] eqn:Ha. destruct (alloc_spec _ _ _ _ Hf Ha) as (Hf1 & Hle1 & Hl).
  destruct (alloc_list es h1) as [ls1 h2] eqn:Hal. intros [= <- <-].
  destruct (IH h1 ls1 h2 Hf1 Hal) as (Hf2 & Hle2 & Hhas & Hd).
  pose proof (lookup_weaken _ _ _ _ Hl Hle2) as Hl2. split_and!; [done|by etrans| |].
  - unfold heap_has. constructor; [by eexists|done].
  - unfold deref. cbn. rewrite Hl2. by f_equal.
Qed.

Section restore.
Variable s : dag_state.
Variable M : gmap bytes32 node_state.
Variable N : gmap bytes32 Event.
Hypothesis s_nodes : ds_nodes s = kmap byteArrayToString M.
Hypothesis s_events : ds_events s = kmap byteArrayToString N.

Definition nodes_have (d : DAG) : Prop :=
  ∀ id n, Nodes d !! id = Some n → heap_has (store d) (nd_Events n).
Definition node_at (d : DAG) (id : bytes32) : option node_state :=
  node_value (store d) <$> Nodes d !! id.

Lemma node_at_grow d d' id : Nodes d' = Nodes d → heap_le (store d) (store d') → nodes_have d →
  nodes_have d' ∧ node_at d' id = node_at d id.
Proof.
  intros Hn Hle Hh. split.
  - intros i n. rewrite Hn. intros Hi. by apply (heap_le_has _ _ _ Hle), (Hh i n).
  - unfold node_at. rewrite Hn. destruct (Nodes d !! id) as [n|] eqn:Hi; [|done]. cbn.
    unfold node_value. f_equal. destruct (heap_le_has _ _ (nd_Events n) Hle) as [_ He];
      [by apply (Hh id n)|]. unfold deref in He. by rewrite He.
Qed.

Lemma restore_nodes_spec keys : ∀ d, heap_fresh (store d) → nodes_have d → NoDup keys →
  (∀ k, k ∈ keys → is_Some (ds_nodes s !! k)) →
  ∃ d', restore_nodes keys s d = (d', Ok ()) ∧ heap_fresh (store d') ∧ nodes_have d' ∧
    Events d' = Events d ∧ heap_le (store d) (store d') ∧
    ∀ id, node_at d' id = if decide (byteArrayToString id ∈ keys) then M !! id else node_at d id.
Proof.
  induction keys as [|k keys IH]; intros d Hf Hh Hnd Hin; cbn [restore_nodes].
  { exists d. by split_and!. }
  apply NoDup_cons in Hnd as [Hk Hnd].
  destruct (Hin k) as [ns Hns]; [by left|]. rewrite Hns.
  rewrite s_nodes in Hns. apply lookup_kmap_Some in Hns as (id & -> & Hid); [|apply _].
  rewrite stringToByteArray_toString.
  destruct (alloc_list (ns_Events ns) (store d)) as [ls h] eqn:Ha.
  destruct (alloc_list_spec _ _ _ _ Hf Ha) as (Hf' & Hle & Hhas & Hd).
  set (d1 := mkDAG _ _ _ h).
  assert (nodes_have d1) as Hh1.
  { intros i n. cbn. rewrite lookup_insert_Some. intros [[_ <-]|[_ Hi]]; [done|].
    apply (heap_le_has _ _ _ Hle), (Hh i n Hi). }
  destruct (IH d1 Hf' Hh1 Hnd) as (d' & Hr & Hf2 & Hh2 & He & Hle2 & Hat).
  { intros j Hj. apply Hin. by right. }
  exists d'. split_and!; try done; [by etrans|].
  intros i. rewrite Hat. destruct (decide (i = id)) as [->|Hne].
  - rewrite decide_False by done. rewrite decide_True by by left. rewrite Hid.
    unfold node_at. cbn. rewrite lookup_insert_eq. cbn. unfold node_value. cbn.
    unfold deref in Hd. rewrite Hd. by destruct ns.
  - assert (byteArrayToString i ∈ byteArrayToString id :: keys ↔ byteArrayToString i ∈ keys) as Hiff.
    { rewrite elem_of_cons. split; [|by right]. intros [Heq%(inj _)|]; done. }
    rewrite (decide_ext _ _ _ _ Hiff). case_decide; [done|].
    unfold node_at. cbn. rewrite lookup_insert_ne by done.
    destruct (Nodes d !! i) as [n|] eqn:Hi; [|done]. cbn. unfold node_value. do 2 f_equal.
    destruct (heap_le_has _ _ (nd_Events n) Hle) as [_ Hde]; [by apply (Hh i n)|].
    unfold deref in Hde. by rewrite Hde.
Qed.

Lemma restore_events_spec keys : ∀ d, heap_fresh (store d) → NoDup keys →
  (∀ k, k ∈ keys → is_Some (ds_events s !! k)) →
  (∀ id l, Events d !! id = Some l → is_Some (event_at d l)) →
  ∃ d', restore_events keys s d = (d', Ok ()) ∧ heap_fresh (store d') ∧
    Nodes d' = Nodes d ∧ heap_le (store d) (store d') ∧
    (∀ id l, Events d' !! id = Some l → is_Some (event_at d' l)) ∧
    ∀ id, find_event d' id =
      if decide (byteArrayToString id ∈ keys) then N !! id else find_event d id.
Proof.
  induction keys as [|k keys IH]; intros d Hf Hnd Hin Hev; cbn [restore_events].
  { exists d. by split_and!. }
  apply NoDup_cons in Hnd as [Hk Hnd].
  destruct (Hin k) as [e He]; [by left|]. rewrite He.
  rewrite s_events in He. apply lookup_kmap_Some in He as (id & -> & Hid); [|apply _].
  rewrite stringToByteArray_toString.
  destruct (alloc e (store d)) as [l h] eqn:Ha.
  destruct (alloc_spec _ _ _ _ Hf Ha) as (Hf' & Hle & Hl).
  set (d1 := mkDAG _ _ _ h).
  destruct (IH d1 Hf' Hnd) as (d' & Hr & Hf2 & Hn & Hle2 & Hev2 & Hat).
  { intros j Hj. apply Hin. by right. }
  { intros i m. cbn. rewrite lookup_insert_Some. unfold event_at. cbn.
    intros [[_ <-]|[_ Hi]]; [by eexists|]. destruct (Hev i m Hi) as [x Hx].
    exists x. by apply (lookup_weaken _ _ _ _ Hx). }
  exists d'. split_and!; try done; [by etrans|].
  intros i. rewrite Hat. destruct (decide (i = id)) as [->|Hne].
  - rewrite decide_False by done. rewrite decide_True by by left. rewrite Hid.
    unfold find_event, event_at. cbn. by rewrite lookup_insert_eq.
  - assert (byteArrayToString i ∈ byteArrayToString id :: keys ↔ byteArrayToString i ∈ keys) as Hiff.
    { rewrite elem_of_cons. split; [|by right]. intros [Heq%(inj _)|]; done. }
    rewrite (decide_ext _ _ _ _ Hiff). case_decide; [done|].
    unfold find_event, event_at. cbn. rewrite lookup_insert_ne by done.
    destruct (Events d !! i) as [m|] eqn:Hi; [|done]. cbn.
    destruct (Hev i m Hi) as [x Hx]. unfold event_at in Hx. rewrite Hx.
    by apply (lookup_weaken _ _ _ _ Hx).
Qed.
End restore.

Lemma kmap_order {V} (m : gmap bytes32 V) (keys : list string) :
  iter_order (kmap byteArrayToString m : gmap string V) keys →
  ∀ id, (if decide (byteArrayToString id ∈ keys) then m !! id else None) = m !! id.
Proof.
  intros [_ Ho] id. case_decide as Hd; [done|]. destruct (m !! id) as [v|] eqn:Hv; [|done].
  destruct Hd. apply Ho. exists v. apply lookup_kmap_Some; [apply _|]. by exists id.
Qed.

Lemma RestoreState_spec marshal unmarshal okeys ekeys d d0 : dag_wf d → heap_fresh (store d0) →
  unmarshal (marshal (state_of d)) = Some (state_of d) →
  iter_order (ds_nodes (state_of d)) okeys → iter_order (ds_events (state_of d)) ekeys →
  ∃ d', RestoreState unmarshal okeys ekeys (GetState marshal d) d0 = (d', Ok ()) ∧
    (∀ id, find_event d' id = find_event d id) ∧
    (∀ id, node_at d' id = node_at d id) ∧ MaxHeight d' = MaxHeight d ∧
    state_of d' = state_of d ∧ dag_wf d'.
Proof.
  intros Hw Hf Hjson Hok Hek. unfold RestoreState, GetState. rewrite Hjson.
  set (s := state_of d) in *.
  destruct (restore_nodes_spec s _ eq_refl okeys (mkDAG ∅ (Events d0) (MaxHeight d0) (store d0)))
    as (d1 & -> & Hf1 & Hh1 & _ & _ & Hn1); [done| |apply Hok|apply Hok|].
  { intros id n. cbn. by rewrite lookup_empty. }
  destruct (restore_events_spec s (omap (event_at d) (Events d)) eq_refl ekeys
    (mkDAG (Nodes d1) ∅ (MaxHeight d1) (store d1))) as (d2 & -> & Hf2 & HN2 & Hle2 & Hev2 & He2);
    [done|apply Hek|apply Hek| |].
  { intros id l. cbn. by rewrite lookup_empty. }
  assert (∀ id, find_event d2 id = find_event d id) as Hfe.
  { intros id. rewrite He2. transitivity ((omap (event_at d) (Events d) : gmap _ _) !! id).
    - rewrite <- (kmap_order _ _ Hek id). case_decide; [done|].
      unfold find_event. cbn. by rewrite lookup_empty.
    - rewrite lookup_omap. done. }
  assert (∀ id, node_at d2 id = node_at d id) as Hne.
  { intros id. destruct (node_at_grow d1 d2 id HN2 Hle2 Hh1) as [_ ->]. rewrite Hn1.
    transitivity ((node_value (store d) <$> Nodes d) !! id).
    - rewrite <- (kmap_order _ _ Hok id). case_decide; [done|].
      unfold node_at. cbn. by rewrite lookup_empty.
    - by rewrite lookup_fmap. }
  eexists. do 4 (split; [done|]).
  assert (node_value (store d2) <$> Nodes d2 = node_value (store d) <$> Nodes d) as Hnn.
  { apply map_eq. intros id. rewrite !lookup_fmap. apply Hne. }
  assert (omap (event_at d2) (Events d2) = omap (event_at d) (Events d)) as Hee.
  { apply map_eq. intros id. rewrite !lookup_omap. apply Hfe. }
  split; [unfold s, state_of; rewrite <- Hnn, <- Hee; done|]. split.
  - intros id l Hl. destruct (Hev2 id l Hl) as [e He]. exists e. split; [exact He|].
    apply (find_event_id d id e Hw). rewrite <- Hfe. unfold find_event.
    change (Events d2 !! id = Some l) in Hl. by rewrite Hl.
  - exact Hf2.
  - intros id n Hn. destruct (node_at_grow d1 d2 id HN2 Hle2 Hh1) as [Hh2 _].
    split; [|exact (Hh2 id n Hn)]. specialize (Hne id). unfold node_at in Hne.
    change (Nodes d2 !! id = Some n) in Hn. rewrite Hn in Hne.
    destruct (Nodes d !! id) as [n0|] eqn:Hn0; [|done]. injection Hne as Hid _ _ _.
    rewrite Hid. by apply (dw_node d Hw).
Qed.

(** ** Sound DAGs *)

(** What holds of every DAG: known creators, and heights from 1 to
    [MaxHeight], which is attained. *)
Record dag_sound (d : DAG) : Prop := {
  so_event : ∀ id e, find_event d id = Some e →
    is_Some (Nodes d !! ev_Creator e) ∧ 1 ≤ ev_Height e ≤ MaxHeight d;
  so_max : MaxHeight d = 0 ∨ ∃ id e, find_event d id = Some e ∧ ev_Height e = MaxHeight d }.

(** Every parent that is named is in the DAG, below its child. *)
Definition parents_below (d : DAG) : Prop :=
  ∀ id e p, find_event d id = Some e → p ∈ ev_ParentIDs e →
    ∃ pe, find_event d p = Some pe ∧ ev_Height pe < ev_Height e.

Lemma consistent_split d : dag_consistent d ↔ dag_sound d ∧ parents_below d.
Proof.
  split.
  - intros [He Hm]. split; [split; [|done]|].
    + intros id e Hid. by destruct (He id e Hid) as (? & ? & _).
    + intros id e p Hid. destruct (He id e Hid) as (_ & _ & Hp). apply Hp.
  - intros [[He Hm] Hp]. split; [|done]. intros id e Hid. destruct (He id e Hid).
    split_and!; [done|lia..|]. intros p. exact (Hp id e p Hid).
Qed.

(** What these look at in an event. *)
Definition shape (e : Event) : bytes32 * Z * list bytes32 :=
  (ev_Creator e, ev_Height e, ev_ParentIDs e).

Lemma shapes_ok d d' : (∀ id, shape <$> find_event d' id = shape <$> find_event d id) →
  MaxHeight d' = MaxHeight d → (∀ id, is_Some (Nodes d !! id) → is_Some (Nodes d' !! id)) →
  (dag_sound d → dag_sound d') ∧ (parents_below d → parents_below d').
Proof.
  intros Hf Hm Hn.
  assert (∀ id e', find_event d' id = Some e' → ∃ e, find_event d id = Some e ∧ shape e' = shape e)
    as Hback.
  { intros id e' He'. specialize (Hf id). rewrite He' in Hf.
    destruct (find_event d id) as [e|]; [|done]. injection Hf as Hc Hh Hp. exists e.
    unfold shape. by rewrite Hc, Hh, Hp. }
  assert (∀ id e, find_event d id = Some e → ∃ e', find_event d' id = Some e' ∧ shape e' = shape e)
    as Hforth.
  { intros id e He. specialize (Hf id). rewrite He in Hf.
    destruct (find_event d' id) as [e'|]; [|done]. injection Hf as Hc Hh Hp. exists e'.
    unfold shape. by rewrite Hc, Hh, Hp. }
  split; [intros [He Hx]; split; rewrite Hm|intros Hb].
  - intros id e' He'. destruct (Hback id e' He') as (e & Hid & [= Hc Hh _]). rewrite Hc, Hh.
    destruct (He id e Hid). split; [auto|done].
  - destruct Hx as [|(id & e & Hid & Hh)]; [by left|right].
    destruct (Hforth id e Hid) as (e' & He' & [= _ Hh' _]). exists id, e'. split; [done|congruence].
  - intros id e' p He' Hp. destruct (Hback id e' He') as (e & Hid & [= _ Hh Hps]). rewrite Hps in Hp.
    destruct (Hb id e p Hid Hp) as (pe & Hpe & Hlt).
    destruct (Hforth p pe Hpe) as (pe' & Hpe' & [= _ Hh' _]). exists pe'. split; [done|lia].
Qed.

Lemma updates_shapes d d' : updates_node d d' →
  (dag_sound d → dag_sound d') ∧ (parents_below d → parents_below d').
Proof.
  intros (id & n & Hn & He & Hs & Hm & _). apply shapes_ok; [|done|].
  - intros i. by rewrite (find_event_ext d d').
  - intros i Hi. rewrite Hn. destruct (decide (i = id)) as [->|Hne];
      [rewrite lookup_insert_eq; by eexists|by rewrite lookup_insert_ne].
Qed.

Lemma mark_shapes l d :
  (dag_sound d → dag_sound (mark_finalized l d)) ∧
  (parents_below d → parents_below (mark_finalized l d)).
Proof.
  apply shapes_ok; [|done|done]. intros id. unfold find_event, event_at, mark_finalized. cbn.
  destruct (Events d !! id) as [k|]; [|done]. cbn.
  destruct (decide (k = l)) as [->|Hne]; [|by rewrite lookup_alter_ne].
  rewrite lookup_alter_eq. by destruct (objs (store d) !! l).
Qed.

Lemma mark_wf l d : dag_wf d → dag_wf (mark_finalized l d).
Proof.
  intros Hw. assert (∀ k, is_Some (event_at (mark_finalized l d) k) ↔ is_Some (event_at d k)) as Hat
    by (intros k; unfold event_at, mark_finalized; cbn; apply lookup_alter_is_Some).
  split.
  - intros id k Hk. destruct (dw_event d Hw id k Hk) as (e & He & Hid & Hh).
    unfold event_at, mark_finalized in *. cbn. destruct (decide (k = l)) as [->|Hne].
    + rewrite lookup_alter_eq, He. by exists (set_Finalized e).
    + rewrite lookup_alter_ne by done. by exists e.
  - intros k. rewrite Hat. apply (dw_fresh d Hw).
  - intros id n Hn. destruct (dw_node d Hw id n Hn) as [? Hall]. split; [done|].
    eapply Forall_impl; [exact Hall|]. intros k. by rewrite Hat.
Qed.

(** Named parents may be unknown: the height starts from 2 then. *)
Lemma NewEvent_sound now creator ps data d d' l : dag_wf d → dag_sound d →
  MaxHeight d < u64_max → find_event d (ev_ID (build_event now creator ps data d)) = None →
  NewEvent now creator ps data d = (d', Ok l) → dag_wf d' ∧ dag_sound d'.
Proof.
  intros Hw [Hev Hmx] Hmax Hfresh. unfold NewEvent.
  destruct (Nodes d !! creator) as [n|] eqn:Hn; [|done]. destruct (nd_Active n); [|done]. cbn [negb].
  set (e := build_event now creator ps data d) in *.
  destruct (add_event e n d) as [d1 l1] eqn:Ha. intros [= <- <-].
  assert (1 ≤ ev_Height e ∧ is_u64 (ev_Height e)) as [Hh Hu].
  { change (ev_Height e) with (new_height d ps). unfold new_height. destruct ps as [|q ps]; [done|].
    destruct (max_parent_spec d (q :: ps)) as (H1 & _ & Hmem).
    { intros p x _ Hx. destruct (Hev p x Hx) as [_ ?]. lia. }
    assert (max_parent d (q :: ps) ≤ Z.max 1 (MaxHeight d)) as Hle.
    { destruct Hmem as [|(p & x & _ & Hx & Hpx)]; [lia|]. destruct (Hev p x Hx) as [_ ?]. lia. }
    unfold uadd, u64_max in *. rewrite u64_small; unfold is_u64; lia. }
  pose proof (add_event_find e n d d1 l1 Hw Ha) as Hf. split; [by apply (add_event_wf e n d d1 l1)|].
  destruct (add_event_fields e n d d1 l1 Ha) as [Hm Hnodes]. split.
  - intros id x. rewrite Hf. case_decide as Hid.
    + intros [= <-]. split; [apply Hnodes; by eexists|lia].
    + intros Hx. destruct (Hev id x Hx) as [? ?]. split; [auto|lia].
  - right. rewrite Hm. destruct (Z.max_spec (MaxHeight d) (ev_Height e)) as [[? ->]|[? ->]].
    + exists (ev_ID e), e. by rewrite Hf, decide_True.
    + destruct Hmx as [|(id & x & Hx & Hxh)]; [lia|]. exists id, x.
      rewrite Hf, decide_False; [done|]. intros Heq. subst id. congruence.
Qed.

(** A pass of the repair deletes events and recomputes the maximum. *)
Lemma Repair_sound ord d : (∀ k m, iter_order m (ord k m)) → dag_wf d → dag_sound d →
  dag_wf (RepairConsistency ord d).1 ∧ dag_sound (RepairConsistency ord d).1.
Proof.
  intros Hord Hw [Hev Hmx]. pose proof (Repair_pass ord d Hord Hw) as Hpass.
  assert (max_exact (RepairConsistency ord d).1 ∧ store (RepairConsistency ord d).1 = store d) as [[H1 H2] Hs].
  { unfold RepairConsistency. cbn zeta. set (d2 := delete_events _ (delete_events _ d)).
    assert (dag_wf d2) as Hw2 by by apply delete_events_wf, delete_events_wf.
    destruct (max_ok d2 Hw2 _ (Hord 2%nat (Events d2))) as [Hle Hmem].
    destruct (Z.eqb_spec (MaxHeight d2) (actual_max d2 (ord 2%nat (Events d2)))) as [Heq|]; cbn [negb fst].
    - split; [|done]. by split; rewrite Heq.
    - by split; [split|]. }
  destruct (RepairConsistency ord d) as [d' ch]. cbn [fst] in *.
  destruct Hpass as (Hw' & Hsub & Hn & _). split; [done|]. split; [|done].
  intros id e He. split; [|split; [|by eapply H1]].
  - rewrite Hn. unfold find_event, event_at in He. rewrite Hs in He.
    destruct (Events d' !! id) as [k|] eqn:Hk; [|done].
    apply (Hev id e). unfold find_event, event_at. by rewrite (lookup_weaken _ _ _ _ Hk Hsub).
  - unfold find_event, event_at in He. rewrite Hs in He.
    destruct (Events d' !! id) as [k|] eqn:Hk; [|done].
    apply (Hev id e). unfold find_event, event_at. by rewrite (lookup_weaken _ _ _ _ Hk Hsub).
Qed.

Lemma Repair_consistent ord d : (∀ k m, iter_order m (ord k m)) → dag_wf d → dag_consistent d →
  (RepairConsistency ord d).1 = d.
Proof.
  intros Hord Hw Hc. pose proof (Repair_pass ord d Hord Hw) as Hpass.
  destruct (RepairConsistency ord d) as [d' ch]. destruct Hpass as (_ & _ & _ & Hch & Heq & _).
  cbn [fst]. apply Heq, Hch. destruct Hc as [He Hm]. split_and!; [| |split; [|done]].
  - intros id e Hid. by destruct (He id e Hid) as (? & _).
  - intros id e Hid p Hp. destruct (He id e Hid) as (_ & _ & Hpp).
    destruct (Hpp p Hp) as (pe & -> & _). by eexists.
  - intros id e Hid. destruct (He id e Hid) as (_ & ? & _). lia.
Qed.

(** Restoring a saved state. *)
Lemma restored_ok unmarshal okeys ekeys data d s : dag_wf d → dag_wf s →
  unmarshal data = Some (state_of s) →
  iter_order (ds_nodes (state_of s)) okeys → iter_order (ds_events (state_of s)) ekeys →
  let d' := (RestoreState unmarshal okeys ekeys data d).1 in
  dag_wf d' ∧ (dag_sound s → dag_sound d') ∧ (parents_below s → parents_below d').
Proof.
  intros Hwd Hw Hdata Ho He.
  destruct (RestoreState_spec (λ _, data) unmarshal okeys ekeys s d Hw (dw_fresh d Hwd) Hdata Ho He)
    as (d' & Hr & Hf & Hn & Hm & _ & Hw'). unfold GetState in Hr. rewrite Hr. cbn [fst].
  split; [done|]. apply shapes_ok; [|done|].
  - intros id. by rewrite Hf.
  - intros id Hid. specialize (Hn id). unfold node_at in Hn.
    destruct Hid as [n Hid]. rewrite Hid in Hn. destruct (Nodes d' !! id); [by eexists|done].
Qed.

(** ** What [VerifyConsistency] complains of *)

Lemma first_error_Some {A} (check : A → option DagError) l e :
  first_error check l = Some e → ∃ a, a ∈ l ∧ check a = Some e.
Proof.
  induction l as [|a l IH]; [done|]. cbn. destruct (check a) as [x|] eqn:Hx.
  - intros [= ->]. exists a. split; [by left|done].
  - intros (b & Hb & ?)%IH. exists b. split; [by right|done].
Qed.

Lemma Verify_errors ord d : dag_wf d → dag_sound d → (∀ k, iter_order (Events d) (ord k)) →
  ∀ err, VerifyConsistency ord d = Err err →
    (∃ id p, err = ErrEventParent id p) ∨ ∃ id, err = ErrHeightNotAboveParents id.
Proof.
  intros Hw [Hev Hmx] Hord err. unfold VerifyConsistency.
  rewrite (proj2 (creators_ok d Hw _ (Hord 0%nat))) by (intros id e He; by apply (Hev id e He)).
  destruct (first_error (check_parents d) _) as [e|] eqn:Hp.
  { intros [= <-]. left. apply first_error_Some in Hp as (id & _ & Hc). unfold check_parents in Hc.
    destruct (find_event d id) as [x|]; [|done]. cbn in Hc.
    apply first_error_Some in Hc as (p & _ & Hc). destruct (Events d !! p); [done|].
    injection Hc as <-. by exists id, p. }
  destruct (first_error (check_height d) _) as [e|] eqn:Hh.
  { intros [= <-]. right. apply first_error_Some in Hh as (id & _ & Hc). unfold check_height in Hc.
    destruct (find_event d id) as [x|] eqn:Hx; [|done]. cbn in Hc. destruct (Hev id x Hx) as [_ ?].
    rewrite (proj2 (Z.eqb_neq _ _)) in Hc by lia. destruct (_ && _); [|done].
    injection Hc as <-. by exists id. }
  destruct (max_ok d Hw _ (Hord 3%nat)) as [Hle Hmem].
  rewrite (max_unique d Hw (MaxHeight d) (actual_max d (ord 3%nat))); [by rewrite Z.eqb_refl| |done..].
  intros id e He. apply Hev in He as [_ ?]. lia.
Qed.

(** ** Reachable DAGs *)

Lemma NewDAG_ok : dag_wf NewDAG ∧ dag_consistent NewDAG.
Proof.
  split; split.
  - intros id l. cbn. by rewrite lookup_empty.
  - intros l. unfold event_at. cbn. rewrite lookup_empty. by intros [? ?].
  - intros id n. cbn. by rewrite lookup_empty.
  - intros id e. unfold find_event. cbn. by rewrite lookup_empty.
  - by left.
Qed.

Section reach.
(** Whether events may name parents the DAG does not have. *)
Variable any : Prop.

(** The operations of the DAG.  The identifier of a new event is new (SHA-256
    of time, creator, count and data), and heights stay below 2^64. *)
Inductive dag_step : DAG → DAG → Prop :=
| ds_AddNode id stake d : dag_step d (AddNode id stake d)
| ds_UpdateNodeStake id stake d : dag_step d (UpdateNodeStake id stake d).1
| ds_RemoveNode id d : dag_step d (RemoveNode id d).1
| ds_NewEvent now creator ps data d d' l :
    NewEvent now creator ps data d = (d', Ok l) →
    any ∨ (∀ p, p ∈ ps → is_Some (find_event d p)) →
    find_event d (ev_ID (build_event now creator ps data d)) = None →
    MaxHeight d < u64_max → dag_step d d'
| ds_Finalize l d : dag_step d (mark_finalized l d)
| ds_Repair ord d : (∀ k m, iter_order m (ord k m)) → dag_step d (RepairConsistency ord d).1.

(** Restored are saved states of DAGs that were reached before, here or in
    another run, and bytes that do not decode. *)
Inductive dag_reachable : DAG → Prop :=
| dr_New : dag_reachable NewDAG
| dr_step d d' : dag_reachable d → dag_step d d' → dag_reachable d'
| dr_Restore unmarshal okeys ekeys data d s : dag_reachable d → dag_reachable s →
    unmarshal data = Some (state_of s) →
    iter_order (ds_nodes (state_of s)) okeys → iter_order (ds_events (state_of s)) ekeys →
    dag_reachable (RestoreState unmarshal okeys ekeys data d).1
| dr_garbled unmarshal okeys ekeys data d : dag_reachable d → unmarshal data = None →
    dag_reachable (RestoreState unmarshal okeys ekeys data d).1.

Lemma dag_step_ok d d' : dag_step d d' → dag_wf d → dag_sound d →
  dag_wf d' ∧ dag_sound d' ∧ (¬ any → parents_below d → parents_below d').
Proof.
  destruct 1 as [id st d|id st d|id d|now cr ps data d d' l Hn Hp Hf Hm|l d|ord d Hord];
    intros Hw Hs.
  - pose proof (AddNode_updates id st d Hw) as Hu. destruct (updates_shapes _ _ Hu).
    split_and!; [by eapply updates_node_wf|auto|auto].
  - destruct (UpdateNodeStake_updates id st d Hw) as [Hu| ->]; [|done].
    destruct (updates_shapes _ _ Hu). split_and!; [by eapply updates_node_wf|auto|auto].
  - destruct (RemoveNode_updates id d Hw) as [Hu| ->]; [|done].
    destruct (updates_shapes _ _ Hu). split_and!; [by eapply updates_node_wf|auto|auto].
  - destruct (NewEvent_sound now cr ps data d d' l) as [Hw' Hs']; [done..|].
    split_and!; [done|done|]. intros Hany Hb. destruct Hp as [|Hp]; [done|].
    refine (proj2 (proj1 (consistent_split d') (proj2 (NewEvent_ok now cr ps data d d' l _ _ _ _ _ _))));
      try done. by apply consistent_split.
  - destruct (mark_shapes l d). split_and!; [by apply mark_wf|auto|auto].
  - destruct (Repair_sound ord d Hord Hw Hs). split_and!; [done|done|]. intros _ Hb.
    rewrite Repair_consistent; [done..|]. by apply consistent_split.
Qed.

Lemma dag_reachable_ok d : dag_reachable d →
  dag_wf d ∧ dag_sound d ∧ (¬ any → parents_below d).
Proof.
  induction 1 as [|d d' _ (Hw & Hs & Hb) Hst|um ok ek data d s _ (Hw & _ & _) _ (Hw' & Hs & Hb) Hd Ho He
    |um ok ek data d _ IH Hd].
  - destruct NewDAG_ok as [Hw Hc]. apply consistent_split in Hc as [??]. by split_and!.
  - destruct (dag_step_ok d d' Hst Hw Hs) as (? & ? & ?). split_and!; auto.
  - destruct (restored_ok um ok ek data d s Hw Hw' Hd Ho He) as (? & ? & ?). split_and!; auto.
  - unfold RestoreState. by rewrite Hd.
Qed.
End reach.

(** * Properties *)

(** C28: every reachable DAG is sound, and consistent but for parents.  After any sequence of node
    operations, event creations with any parents, finalizations, repairs and restores of saved
    states, every event has a known creator and a height from 1 to [MaxHeight], which is the highest;
    [VerifyConsistency], whatever the iteration orders, succeeds exactly when every named parent is
    in the DAG below its child, and complains of nothing else.  As long as events only name parents
    the DAG has ([¬ any]), it succeeds, and no event is its own ancestor: a chain of [n] parents
    below an event descends at least [n] in height.  [named_ahead] shows the cycle that is possible
    otherwise. *)
Theorem dag_reachable_consistent any d ord : dag_reachable any d →
  (∀ k, iter_order (Events d) (ord k)) →
  (∀ id e, find_event d id = Some e →
     is_Some (Nodes d !! ev_Creator e) ∧ 1 ≤ ev_Height e ≤ MaxHeight d) ∧
  (MaxHeight d = 0 ∨ ∃ id e, find_event d id = Some e ∧ ev_Height e = MaxHeight d) ∧
  (VerifyConsistency ord d = Ok () ↔
     ∀ id e p, find_event d id = Some e → p ∈ ev_ParentIDs e →
       ∃ pe, find_event d p = Some pe ∧ ev_Height pe < ev_Height e) ∧
  (∀ err, VerifyConsistency ord d = Err err →
     (∃ id p, err = ErrEventParent id p) ∨ ∃ id, err = ErrHeightNotAboveParents id) ∧
  (¬ any → VerifyConsistency ord d = Ok () ∧
     ∀ id e a n, find_event d id = Some e → nsteps (parent_of d) n e a →
       ev_Height a + Z.of_nat n ≤ ev_Height e).
Proof.
  intros Hr Hord. destruct (dag_reachable_ok any d Hr) as (Hw & Hs & Hb).
  pose proof (VerifyConsistency_spec d Hw ord Hord) as Hv. rewrite consistent_split in Hv.
  split; [apply Hs|]. split; [apply Hs|]. split; [|split].
  - split; [by intros [_ H]%Hv|]. intros H. by apply Hv.
  - by apply Verify_errors.
  - intros Hany. specialize (Hb Hany). split; [by apply Hv|]. intros id e a n He Hn.
    apply (ancestor_height d e a n); [by apply consistent_split|by exists id|done].
Qed.

(** [VerifyConsistency] decides consistency: it returns no error
    exactly when every creator and parent is known, heights are positive and
    above the parents' and [MaxHeight] is the maximum, in every iteration
    order. *)
Theorem VerifyConsistency_decides d ord : dag_wf d → (∀ k, iter_order (Events d) (ord k)) →
  VerifyConsistency ord d = Ok () ↔ dag_consistent d.
Proof. intros Hw Hord. by apply VerifyConsistency_spec. Qed.

(** a new event sits one above its highest parent.  With known parents
    and a fresh identifier, an active creator's [NewEvent] succeeds, stores
    the event under its identifier and at the end of the creator's list,
    changes no other event, and gives it height 1, or 1 more than the highest
    of its parents. *)
Theorem NewEvent_height now creator ps data d n : dag_wf d → dag_consistent d →
  MaxHeight d < u64_max → (∀ p, p ∈ ps → is_Some (find_event d p)) →
  let e := build_event now creator ps data d in
  find_event d (ev_ID e) = None → Nodes d !! creator = Some n → nd_Active n = true →
  ∃ d' l, NewEvent now creator ps data d = (d', Ok l) ∧ event_at d' l = Some e ∧
    (∀ id, find_event d' id = if decide (id = ev_ID e) then Some e else find_event d id) ∧
    nd_Events <$> Nodes d' !! creator = Some (nd_Events n ++ [l]) ∧
    (∀ p pe, p ∈ ps → find_event d p = Some pe → ev_Height pe < ev_Height e) ∧
    (ps = [] → ev_Height e = 1) ∧
    (ps ≠ [] → ∃ p pe, p ∈ ps ∧ find_event d p = Some pe ∧ ev_Height e = ev_Height pe + 1).
Proof.
  intros Hw Hc Hm Hps e Hfresh Hn Ha. unfold NewEvent. rewrite Hn, Ha. cbn [negb]. fold e.
  destruct (new_height_spec d ps Hw Hc Hm Hps) as (_ & Hlt & H0 & H1).
  destruct (add_event e n d) as [d' l] eqn:Hadd. exists d', l.
  pose proof (add_event_find e n d d' l Hw Hadd) as Hf.
  split; [done|]. unfold add_event, alloc in Hadd. injection Hadd as <- <-.
  split; [unfold event_at; cbn; by rewrite lookup_insert_eq|]. split; [done|].
  split; [cbn; by rewrite lookup_insert_eq|]. done.
Qed.

(** repeated repair converges.  On any DAG, however inconsistent, as
    many passes of [RepairConsistency] as it has events, plus one, reach a
    state with known creators, known parents and the right [MaxHeight];
    passes only delete events. *)
Theorem RepairConsistency_converges ord d :
  (∀ k m, iter_order m (ord k m)) → dag_wf d →
  let d' := repair_passes ord (S (size (Events d))) d in
  Events d' ⊆ Events d ∧ creators_known d' ∧ parents_known d' ∧ max_exact d' ∧
  RepairConsistency ord d' = (d', false).
Proof.
  intros Hord Hw d'. destruct (repair_converges ord (size (Events d)) Hord d Hw (le_n _))
    as (Hw' & Hsub & Hc & Hp & Hm). fold d' in Hw', Hsub, Hc, Hp, Hm. split_and!; try done.
  pose proof (Repair_pass ord d' Hord Hw') as Hpass.
  destruct (RepairConsistency ord d') as [d2 ch].
  destruct Hpass as (_ & _ & _ & Hch & Heq & _).
  assert (ch = false) as -> by (by apply Hch). by rewrite Heq.
Qed.

(** saving and restoring loses nothing.  Restoring a saved state into
    any DAG, in any iteration orders, succeeds and yields the same events
    and nodes, by value, the same height, and the same saved state.  The
    encoder and decoder are only assumed to be inverse. *)
Theorem dag_state_roundtrip marshal unmarshal okeys ekeys d d0 : dag_wf d → heap_fresh (store d0) →
  (∀ s, unmarshal (marshal s) = Some s) →
  iter_order (ds_nodes (state_of d)) okeys → iter_order (ds_events (state_of d)) ekeys →
  ∃ d', RestoreState unmarshal okeys ekeys (GetState marshal d) d0 = (d', Ok ()) ∧
    (∀ id, find_event d' id = find_event d id) ∧
    (∀ id, node_at d' id = node_at d id) ∧ MaxHeight d' = MaxHeight d ∧
    GetState marshal d' = GetState marshal d.
Proof.
  intros Hw Hf Hj Ho He.
  destruct (RestoreState_spec marshal unmarshal okeys ekeys d d0 Hw Hf (Hj _) Ho He)
    as (d' & ? & ? & ? & ? & Hs & _).
  exists d'. split_and!; try done. unfold GetState. by rewrite Hs.
Qed.

(** ** A concrete DAG *)

Definition node_a : bytes32 := copy32 [x61].
Definition node_b : bytes32 := copy32 [x62].

Definition new_event (now : Z) (creator : bytes32) (ps : list bytes32) (d : DAG) : DAG :=
  (NewEvent now creator ps [x01] d).1.
(** The identifier the next event would get. *)
Definition next_id (now : Z) (creator : bytes32) (d : DAG) : bytes32 :=
  event_id now creator (Z.of_nat (size (Events d)) + 1) [x01].

Definition dag0 : DAG := AddNode node_b 30 (AddNode node_a 70 NewDAG).
Definition id1 : bytes32 := next_id 5 node_a dag0.
Definition dag1 : DAG := new_event 5 node_a [] dag0.
Definition id2 : bytes32 := next_id 6 node_b dag1.
Definition dag2 : DAG := new_event 6 node_b [id1] dag1.

Lemma new_event_step any now creator ps d :
  is_Ok (NewEvent now creator ps [x01] d).2 = true →
  any ∨ forallb (λ p, bool_decide (is_Some (find_event d p))) ps = true →
  find_event d (next_id now creator d) = None → MaxHeight d < u64_max →
  dag_step any d (new_event now creator ps d).
Proof.
  intros Hok Hps Hf Hm. unfold new_event.
  destruct (NewEvent now creator ps [x01] d) as [d' [l|e]] eqn:Hn; [|done].
  eapply ds_NewEvent; [exact Hn| |exact Hf|exact Hm]. destruct Hps as [|Hps]; [by left|right].
  intros p Hp. rewrite forallb_forall in Hps. eapply bool_decide_eq_true, Hps.
  by apply list_elem_of_In.
Qed.

Lemma dag0_reach any : dag_reachable any dag0.
Proof. repeat (eapply dr_step; [|apply ds_AddNode]). constructor. Qed.

Lemma dag2_reach any : dag_reachable any dag2.
Proof.
  eapply dr_step; [eapply dr_step; [apply dag0_reach|]|];
    (apply new_event_step; [|right| |]; by vm_compute).
Qed.

Lemma dag2_ok : dag_wf dag2 ∧ dag_consistent dag2.
Proof.
  destruct (dag_reachable_ok False dag2 (dag2_reach False)) as (Hw & Hs & Hb). split; [done|].
  apply consistent_split. split; [done|]. exact (Hb (λ f, f)).
Qed.

(** The children of a parent that does not exist yet: [id1] names the
    identifier the next event will get, which does not depend on its parents,
    and the next event names [id1]. *)
Definition ahead : DAG := new_event 5 node_a [id2] dag0.
Definition cyclic : DAG := new_event 6 node_b [id1] ahead.

(** The saved state of [dag2], restored into the cyclic DAG. *)
Definition back : DAG :=
  (RestoreState (λ _, Some (state_of dag2)) (map_to_list (ds_nodes (state_of dag2))).*1
     (map_to_list (ds_events (state_of dag2))).*1 [] cyclic).1.

Lemma cyclic_reach : dag_reachable True cyclic.
Proof.
  eapply dr_step; [eapply dr_step; [apply dag0_reach|]|];
    (apply new_event_step; [|by left| |]; by vm_compute).
Qed.

Lemma back_reach : dag_reachable True back.
Proof.
  apply (dr_Restore _ _ _ _ _ _ dag2); [apply cyclic_reach|apply dag2_reach|done| |];
    apply iter_order_default.
Qed.

(** Two events are each other's parents, and [VerifyConsistency] says so. *)
Example named_ahead :
  (∃ a b, find_event cyclic id1 = Some a ∧ find_event cyclic id2 = Some b ∧
     parent_of cyclic a b ∧ parent_of cyclic b a) ∧
  VerifyConsistency (λ _, [id2; id1]) cyclic = Err (ErrHeightNotAboveParents id1).
Proof.
  split; [|by vm_compute].
  destruct (find_event cyclic id1) as [a|] eqn:Ha; [|by vm_compute in Ha].
  destruct (find_event cyclic id2) as [b|] eqn:Hb; [|by vm_compute in Hb].
  exists a, b. split; [done|]. split; [done|].
  assert (ev_ParentIDs <$> find_event cyclic id1 = Some [id2]) as Hpa by by vm_compute.
  assert (ev_ParentIDs <$> find_event cyclic id2 = Some [id1]) as Hpb by by vm_compute.
  rewrite Ha in Hpa. rewrite Hb in Hpb. injection Hpa as Hpa. injection Hpb as Hpb. split.
  - exists id2. rewrite Hpa. split; [by left|done].
  - exists id1. rewrite Hpb. split; [by left|done].
Qed.

(** [RestoreState] checks nothing: bytes that name another [MaxHeight] leave
    a DAG that is not sound. *)
Example restored_unsound :
  VerifyConsistency (λ _, []) (RestoreState (λ _, Some (mkDagState ∅ ∅ 9)) [] [] [] dag2).1
    = Err (ErrMaxHeight 9 0).
Proof. by vm_compute. Qed.

Lemma dag_reachable_consistent_witness :
  VerifyConsistency (λ _, (map_to_list (Events back)).*1) back = Ok () ∧
  ¬ (∀ id e p, find_event cyclic id = Some e → p ∈ ev_ParentIDs e →
       ∃ pe, find_event cyclic p = Some pe ∧ ev_Height pe < ev_Height e) ∧
  ∀ id e a n, find_event dag2 id = Some e → nsteps (parent_of dag2) n e a →
    ev_Height a + Z.of_nat n ≤ ev_Height e.
Proof.
  split; [by vm_compute|]. split.
  - destruct (dag_reachable_consistent True cyclic (λ _, (map_to_list (Events cyclic)).*1)
      cyclic_reach) as (_ & _ & Hv & _); [intros _; apply iter_order_default|].
    intros H. apply Hv in H. assert (is_Ok (VerifyConsistency
      (λ _, (map_to_list (Events cyclic)).*1) cyclic) = false) as He by by vm_compute.
    rewrite H in He. discriminate He.
  - destruct (dag_reachable_consistent False dag2 (λ _, (map_to_list (Events dag2)).*1)
      (dag2_reach False)) as (_ & _ & _ & _ & Hn); [intros _; apply iter_order_default|].
    apply (proj2 (Hn (λ f, f))).
Defined.

Lemma VerifyConsistency_decides_witness :
  VerifyConsistency (λ _, [id1; id2]) dag2 = Ok () ↔ dag_consistent dag2.
Proof.
  apply (VerifyConsistency_decides dag2 (λ _, [id1; id2])); [apply dag2_ok|].
  intros _. solve_order.
Defined.

Lemma NewEvent_height_witness :
  let e := build_event 7 node_a [id1; id2] [x01] dag2 in
  ∃ d' l, NewEvent 7 node_a [id1; id2] [x01] dag2 = (d', Ok l) ∧ event_at d' l = Some e ∧
    (∀ id, find_event d' id = if decide (id = ev_ID e) then Some e else find_event dag2 id) ∧
    nd_Events <$> Nodes d' !! node_a = Some ([1%positive] ++ [l]) ∧
    (∀ p pe, p ∈ [id1; id2] → find_event dag2 p = Some pe → ev_Height pe < ev_Height e) ∧
    ([id1; id2] = [] → ev_Height e = 1) ∧
    ([id1; id2] ≠ [] → ∃ p pe, p ∈ [id1; id2] ∧ find_event dag2 p = Some pe ∧
       ev_Height e = ev_Height pe + 1).
Proof.
  apply (NewEvent_height 7 node_a [id1; id2] [x01] dag2 (mkNode node_a [1%positive] 70 true));
    [apply dag2_ok|apply dag2_ok|by vm_compute| |by vm_compute|by vm_compute|done].
  intros p Hp. apply (bool_decide_eq_true (is_Some (find_event dag2 p))).
  repeat (apply elem_of_cons in Hp as [->|Hp]; [by vm_compute|]). by apply elem_of_nil in Hp.
Defined.

(** A DAG that lost the node of its first event: the first pass deletes
    [id1], and its child [id2], but a third generation is left dangling. *)
Definition id3 : bytes32 := next_id 7 node_b dag2.
Definition dag3 : DAG := new_event 7 node_b [id2] dag2.
Definition dag_broken : DAG := with_Nodes (delete node_a (Nodes dag3)) dag3.
Definition default_orders (_ : nat) (m : gmap bytes32 loc) : list bytes32 := (map_to_list m).*1.

Lemma dag3_ok : dag_wf dag3.
Proof.
  apply (dag_reachable_ok False). eapply dr_step; [apply dag2_reach|].
  apply new_event_step; [|right| |]; by vm_compute.
Qed.

Lemma dag_broken_wf : dag_wf dag_broken.
Proof.
  destruct dag3_ok as [H1 H2 H3]. split; [apply H1|apply H2|].
  intros id n. cbn [dag_broken with_Nodes Nodes]. rewrite lookup_delete_Some. intros [_ Hn].
  by apply (H3 id n).
Qed.

Example one_pass_is_not_enough :
  let '(d, changed) := RepairConsistency default_orders dag_broken in
  changed = true ∧ size (Events d) = 1%nat ∧
  VerifyConsistency (λ k, default_orders k (Events d)) d = Err (ErrEventParent id3 id2).
Proof. by vm_compute. Qed.

Lemma RepairConsistency_converges_witness :
  let d' := repair_passes default_orders (S (size (Events dag_broken))) dag_broken in
  Events d' ⊆ Events dag_broken ∧ creators_known d' ∧ parents_known d' ∧ max_exact d' ∧
  RepairConsistency default_orders d' = (d', false).
Proof.
  apply (RepairConsistency_converges default_orders dag_broken); [|apply dag_broken_wf].
  intros k m. apply iter_order_default.
Defined.

(** An encoder with its decoder, through an enumeration of the states. *)
Definition event_tuple (e : Event) :=
  (ev_ID e, ev_Creator e, ev_ParentIDs e, ev_Data e, ev_Timestamp e, ev_Height e, ev_Finalized e,
   ev_PoHState e, ev_PoHCount e, ev_PoHProof e).
#[export] Program Instance Event_countable : Countable Event :=
  inj_countable' event_tuple
    (λ '(a, b, c, d, e, f, g, h, i, j), mkEvent a b c d e f g h i j) _.
Next Obligation. intros y. by destruct y. Qed.
#[export] Instance node_state_eq_dec : EqDecision node_state.
Proof. solve_decision. Defined.
#[export] Program Instance node_state_countable : Countable node_state :=
  inj_countable' (λ n, (ns_ID n, ns_Events n, ns_Stake n, ns_Active n))
    (λ '(a, b, c, d), mkNodeState a b c d) _.
Next Obligation. intros y. by destruct y. Qed.
#[export] Instance dag_state_eq_dec : EqDecision dag_state.
Proof. solve_decision. Defined.
#[export] Program Instance dag_state_countable : Countable dag_state :=
  inj_countable' (λ s, (ds_nodes s, ds_events s, ds_max_height s))
    (λ '(a, b, c), mkDagState a b c) _.
Next Obligation. intros y. by destruct y. Qed.

Definition sample_marshal (s : dag_state) : list byte := bits (encode s).
Definition sample_unmarshal (l : list byte) : option dag_state := decode (unbits l).

Lemma sample_codec s : sample_unmarshal (sample_marshal s) = Some s.
Proof. unfold sample_unmarshal, sample_marshal. by rewrite unbits_bits, decode_encode. Qed.

Lemma dag_state_roundtrip_witness :
  ∃ d', RestoreState sample_unmarshal (map_to_list (ds_nodes (state_of dag2))).*1
      (map_to_list (ds_events (state_of dag2))).*1 (GetState sample_marshal dag2) NewDAG
    = (d', Ok ()) ∧
    (∀ id, find_event d' id = find_event dag2 id) ∧
    (∀ id, node_at d' id = node_at dag2 id) ∧ MaxHeight d' = MaxHeight dag2 ∧
    GetState sample_marshal d' = GetState sample_marshal dag2.
Proof.
  apply (dag_state_roundtrip sample_marshal sample_unmarshal _ _ dag2 NewDAG);
    [apply dag2_ok|exact (dw_fresh NewDAG (proj1 NewDAG_ok))|apply sample_codec|
     apply iter_order_default|apply iter_order_default].
Defined.

(** After a restore the creator's list holds copies: finalizing an event of
    the DAG no longer shows through the node. *)
Example restore_splits_pointers :
  let d := (RestoreState (λ _, Some (state_of dag1)) (map_to_list (ds_nodes (state_of dag1))).*1
    (map_to_list (ds_events (state_of dag1))).*1 [] NewDAG).1 in
  (∃ l, Events dag1 !! id1 = Some l ∧ nd_Events <$> Nodes dag1 !! node_a = Some [l]) ∧
  (∃ l k, Events d !! id1 = Some l ∧ nd_Events <$> Nodes d !! node_a = Some [k] ∧ l ≠ k).
Proof.
  split; [exists 1%positive; by vm_compute|]. exists 2%positive, 1%positive. by vm_compute.
Qed.

(** A parent that is not in the DAG still raises the height, to 2. *)
Example unknown_parent_height : new_height NewDAG [node_a] = 2.
Proof. by vm_compute. Qed.
