(* ===== verification/DPoSState.v ===== *)
(** * Serialised state of delegated proof of stake:
    [GetState] and [RestoreState] of src/consensus/diamantepos/diamantepos.go

    The JSON codec is a pair of parameters.  Times are stored in whole
    seconds, the slashing log is not stored.  A restore that fails at an
    active validator leaves an active list of pointers to validators that are
    no longer in the map; of these the model keeps the identifiers only.  The
    states reached with RestoreState among the operations are here too. *)
From Stdlib Require Import ZArith Lia SpecFloat.
From Stdlib Require Import Strings.Byte Strings.String.
From stdpp Require Import numbers prelude gmap strings.
From S2P Require Import Prelude GoFloat Bytes Sha256 Maps Common DPoS Dag.
Open Scope Z_scope.

Record ser_validator := mkSer {
  sv_id : string;
  sv_stake : Z;
  sv_performance : f64;
  sv_last_update_time : Z;
  sv_blocks_produced : Z;
  sv_misbehavior_count : Z }.

Record dpos_state := mkDPoSState {
  st_validators : gmap string ser_validator;
  st_active : list string;
  st_last_block_height : Z;
  st_epoch_duration : Z;
  st_current_epoch : Z;
  st_max_set_size : Z }.

Inductive DPoSStateError :=
| ErrDPoSUnmarshal
| ErrDecodeValidator (s : string)
| ErrValidatorLength (s : string)
| ErrDecodeActive (s : string)
| ErrActiveLength (s : string)
| ErrActiveUnknown (s : string).

(** [time.Time.Unix] of an instant in nanoseconds. *)
Definition unix (t : Z) : Z := t / second.

Definition ser_of (v : Validator) : ser_validator :=
  mkSer (byteArrayToString (ID v)) (Stake v) (Performance v) (unix (LastUpdateTime v))
    (BlocksProduced v) (MisbehaviorCount v).

(** [Active]: the pointers are the identifiers of the validators. *)
Definition dpos_state_of (d : DPoS.DPoS) : dpos_state :=
  mkDPoSState (kmap byteArrayToString (ser_of <$> validators d))
    (byteArrayToString <$> activeValidators d) (lastBlockHeight d) (epochDuration d)
    (currentEpoch d) (maxSetSize d).

Definition restored (id : bytes32) (s : ser_validator) : Validator :=
  mkVal id (sv_stake s) (sv_performance s) (sv_last_update_time s * second)
    (sv_blocks_produced s) (sv_misbehavior_count s) false.

(** The loop over the decoded validators: the new map and the total. *)
Fixpoint restore_validators (keys : list string) (s : gmap string ser_validator)
    (m : gmap bytes32 Validator) (total : Z) :
    result DPoSStateError (gmap bytes32 Validator * Z) :=
  match keys with
  | [] => Ok (m, total)
  | k :: keys =>
      match s !! k with
      | None => restore_validators keys s m total
      | Some v =>
          match hex_decode (list_byte_of_string k) with
          | None => Err (ErrDecodeValidator k)
          | Some data =>
              if negb (length data =? 32)%nat then Err (ErrValidatorLength k)
              else
                let id := copy32 data in
                restore_validators keys s (<[id := restored id v]> m) (uadd total (sv_stake v))
          end
      end
  end.

(** The loop over the active validators. *)
Fixpoint restore_actives (ids : list string) (m : gmap bytes32 Validator)
    (actives : list bytes32) (total : Z) :
    gmap bytes32 Validator * result DPoSStateError (list bytes32 * Z) :=
  match ids with
  | [] => (m, Ok (actives, total))
  | k :: ids =>
      match hex_decode (list_byte_of_string k) with
      | None => (m, Err (ErrDecodeActive k))
      | Some data =>
          if negb (length data =? 32)%nat then (m, Err (ErrActiveLength k))
          else
            let id := copy32 data in
            match m !! id with
            | None => (m, Err (ErrActiveUnknown k))
            | Some v =>
                restore_actives ids (<[id := set_IsActive true v]> m) (actives ++ [id])
                  (uadd total (Stake v))
            end
      end
  end.

Section json.
Variable marshal : dpos_state → list byte.
Variable unmarshal : list byte → option dpos_state.

Definition GetState (d : DPoS.DPoS) : list byte := marshal (dpos_state_of d).

(** [keys]: the iteration over the decoded validators.  An unknown active
    validator fails after the validators and the epoch were replaced. *)
Definition RestoreState (keys : list string) (stateData : list byte) (d : DPoS.DPoS) :
    DPoS.DPoS * result DPoSStateError () :=
  match unmarshal stateData with
  | None => (d, Err ErrDPoSUnmarshal)
  | Some s =>
      match restore_validators keys (st_validators s) ∅ 0 with
      | Err e => (d, Err e)
      | Ok (newVals, total) =>
          let '(m, r) := restore_actives (st_active s) newVals [] 0 in
          let d' := mkDPoS m (activeValidators d) (totalStake d) (activeTotalStake d)
                      (st_last_block_height s) (st_epoch_duration s) (st_current_epoch s)
                      (st_max_set_size s) (slashLog d) in
          match r with
          | Err e => (d', Err e)
          | Ok (actives, activeTotal) =>
              (with_total total (with_active actives activeTotal d'), Ok ())
          end
      end
  end.
End json.

(** * Facts *)

(** The orders of a map keyed by identifiers in text form. *)
Lemma kmap_iter {V} (m : gmap bytes32 V) (keys : list string) :
  iter_order (kmap byteArrayToString m : gmap string V) keys →
  ∃ ids, keys = byteArrayToString <$> ids ∧ iter_order m ids.
Proof.
  intros [Hnd Hk].
  assert (∃ ids, keys = byteArrayToString <$> ids) as [ids ->].
  { assert (Forall (λ k, ∃ id, k = byteArrayToString id) keys) as Hf.
    { apply Forall_forall. intros k Hin. apply Hk in Hin as [v Hv].
      apply lookup_kmap_Some in Hv as (id & -> & _); [|apply _]. by exists id. }
    clear Hnd Hk. induction Hf as [|k keys [id ->] _ [ids ->]]; [by exists []|].
    by exists (id :: ids). }
  exists ids. split; [done|]. split; [by apply NoDup_fmap_1 in Hnd|].
  intros id. rewrite <- (list_elem_of_fmap_inj byteArrayToString), Hk.
  by rewrite lookup_kmap by apply _.
Qed.

(** What survives a round trip. *)
Definition truncate (m : bool) (v : Validator) : Validator :=
  mkVal (ID v) (Stake v) (Performance v) (unix (LastUpdateTime v) * second) (BlocksProduced v)
    (MisbehaviorCount v) m.

Lemma decode_id id :
  hex_decode (list_byte_of_string (byteArrayToString id)) = Some (b32 id).
Proof.
  unfold byteArrayToString, hex_string. rewrite list_byte_of_string_of_list_byte.
  apply hex_decode_encode.
Qed.

Lemma restore_validators_spec (s : gmap string ser_validator) (M : gmap bytes32 ser_validator) :
  s = kmap byteArrayToString M → ∀ ids m t, NoDup ids → (∀ id, id ∈ ids → is_Some (M !! id)) →
  ∃ m', restore_validators (byteArrayToString <$> ids) s m t =
      Ok (m', foldl uadd t (sv_stake <$> visit M ids)) ∧
    ∀ id, m' !! id = if decide (id ∈ ids) then restored id <$> M !! id else m !! id.
Proof.
  intros ->. induction ids as [|id ids IH]; intros m t Hnd Hin; [by exists m|].
  apply NoDup_cons in Hnd as [Hni Hnd]. destruct (Hin id) as [v Hv]; [by left|].
  cbn [fmap list_fmap restore_validators]. rewrite lookup_kmap by apply _. rewrite Hv.
  rewrite decode_id, b32_length, copy32_b32. cbn [Nat.eqb negb].
  destruct (IH (<[id := restored id v]> m) (uadd t (sv_stake v)) Hnd) as (m' & -> & Hm').
  { intros k Hk. apply Hin. by right. }
  exists m'. rewrite visit_cons, Hv. split; [done|]. intros k. rewrite Hm'.
  destruct (decide (k = id)) as [->|Hne].
  - rewrite decide_False, decide_True by set_solver. by rewrite lookup_insert_eq, Hv.
  - rewrite (decide_ext (k ∈ ids) (k ∈ id :: ids)) by set_solver. by rewrite lookup_insert_ne.
Qed.

Lemma restore_actives_spec ids : ∀ m acc t, NoDup ids → (∀ id, id ∈ ids → is_Some (m !! id)) →
  ∃ m', restore_actives (byteArrayToString <$> ids) m acc t =
      (m', Ok (acc ++ ids, foldl uadd t (Stake <$> visit m ids))) ∧
    ∀ id, m' !! id = if decide (id ∈ ids) then set_IsActive true <$> m !! id else m !! id.
Proof.
  induction ids as [|id ids IH]; intros m acc t Hnd Hin.
  { exists m. by rewrite app_nil_r. }
  apply NoDup_cons in Hnd as [Hni Hnd]. destruct (Hin id) as [v Hv]; [by left|].
  cbn [fmap list_fmap restore_actives]. rewrite decode_id, b32_length, copy32_b32.
  cbn [Nat.eqb negb]. rewrite Hv.
  destruct (IH (<[id := set_IsActive true v]> m) (acc ++ [id]) (uadd t (Stake v)) Hnd)
    as (m' & -> & Hm').
  { intros k Hk. destruct (decide (k = id)) as [->|Hne]; [rewrite lookup_insert_eq; eauto|].
    rewrite lookup_insert_ne by done. apply Hin. by right. }
  exists m'. rewrite visit_cons, Hv, <- (assoc_L app). split.
  - assert (visit (<[id := set_IsActive true v]> m) ids = visit m ids) as ->; [|done].
    apply visit_ext. intros k Hk. apply lookup_insert_ne. by intros ->.
  - intros k. rewrite Hm'. destruct (decide (k = id)) as [->|Hne].
    + rewrite decide_False, decide_True by set_solver. by rewrite lookup_insert_eq, Hv.
    + rewrite (decide_ext (k ∈ ids) (k ∈ id :: ids)) by set_solver. by rewrite lookup_insert_ne.
Qed.

Lemma unix_truncate t : unix (unix t * second) = unix t.
Proof. unfold unix, second. by rewrite Z.div_mul. Qed.

Lemma visit_map {A B} (g : A → B) (m : gmap bytes32 A) (m' : gmap bytes32 B) l :
  (∀ i, m' !! i = g <$> m !! i) → visit m' l = g <$> visit m l.
Proof.
  intros Hm. induction l as [|i l IH]; [done|]. rewrite !visit_cons, Hm.
  destruct (m !! i); cbn; by rewrite IH.
Qed.

(** What a restored state is. *)
Definition restores (d d0 d' : DPoS.DPoS) : Prop :=
  d' = mkDPoS ((λ v, truncate (IsActive v) v) <$> validators d) (activeValidators d)
         (totalStake d) (activeTotalStake d) (lastBlockHeight d) (epochDuration d)
         (currentEpoch d) (maxSetSize d) (slashLog d0).

Lemma restores_wf d d0 d' : wf d → restores d d0 d' → wf d'.
Proof.
  intros [[Hv Ht Hz] Hnd Hf Hd Ha Hb] ->.
  assert (∀ i v, (λ v, truncate (IsActive v) v) <$> validators d !! i = Some v →
    ∃ w, validators d !! i = Some w ∧ v = truncate (IsActive w) w) as Hl.
  { intros i v Hi. destruct (validators d !! i) as [w|]; [|done]. exists w. by simplify_eq/=. }
  split; [split|..]; cbn; try done.
  - intros i v. rewrite lookup_fmap. intros (w & Hw & ->)%Hl. exact (Hv i w Hw).
  - rewrite msum_fmap by done. done.
  - intros i v. rewrite lookup_fmap. intros (w & Hw & ->)%Hl. cbn. by apply Hf.
  - intros i Hi. rewrite lookup_fmap. destruct (Hd i Hi) as [v ->]. by eexists.
  - rewrite Ha. unfold active_sum. cbn [validators activeValidators]. f_equal. f_equal.
    symmetry. etrans; [apply (f_equal (fmap Stake)), (visit_map (λ v, truncate (IsActive v) v)
      (validators d) _ _ (λ k, lookup_fmap _ _ _))|]. by rewrite <- list_fmap_compose.
Qed.

Lemma dpos_RestoreState_spec marshal unmarshal keys d d0 : wf d →
  unmarshal (marshal (dpos_state_of d)) = Some (dpos_state_of d) →
  iter_order (st_validators (dpos_state_of d)) keys →
  ∃ d', RestoreState unmarshal keys (GetState marshal d) d0 = (d', Ok ()) ∧ restores d d0 d'.
Proof.
  intros [[Hv Ht _] Hnd Hf Hd Ha _] Hj Ho.
  destruct (kmap_iter _ _ Ho) as (ids & -> & Hids).
  unfold RestoreState, GetState. rewrite Hj. cbn [dpos_state_of st_validators st_active].
  destruct (restore_validators_spec _ (ser_of <$> validators d) eq_refl ids ∅ 0)
    as (m & -> & Hm); [apply Hids|intros id Hid; by apply Hids|].
  assert (∀ id, m !! id = truncate false <$> validators d !! id) as Hm'.
  { intros id. rewrite Hm. case_decide as Hin.
    - rewrite !lookup_fmap. destruct (validators d !! id) as [v|] eqn:Hi; [|done]. cbn.
      destruct (Hv id v Hi) as [<- _]. done.
    - rewrite lookup_empty. destruct (validators d !! id) eqn:Hi; [|done]. exfalso. apply Hin, Hids.
      rewrite lookup_fmap, Hi. by eexists. }
  destruct (restore_actives_spec (activeValidators d) m [] 0 Hnd) as (m' & -> & Hm2).
  { intros id Hid. rewrite Hm'. destruct (Hd id Hid) as [v ->]. by eexists. }
  cbn [app]. eexists. split; [done|]. unfold restores, with_total, with_active. cbn.
  assert (m' = (λ v, truncate (IsActive v) v) <$> validators d) as ->.
  { apply map_eq. intros id. rewrite Hm2, Hm', lookup_fmap.
    destruct (validators d !! id) as [v|] eqn:Hi; cbn; [|by case_decide].
    rewrite (Hf id v Hi). case_decide; [by rewrite bool_decide_true|by rewrite bool_decide_false]. }
  change (foldl uadd 0 ?l) with (usum l). rewrite !usum_zsum.
  rewrite (visit_map ser_of (validators d) (ser_of <$> validators d)) by (intros k; apply lookup_fmap).
  rewrite (visit_map (truncate false) (validators d) m) by apply Hm'.
  rewrite <- !list_fmap_compose. rewrite Ht, Ha. f_equal. f_equal.
  rewrite <- (msum_order Stake (validators d) ids); [done|].
  split; [apply Hids|]. intros k. rewrite (proj2 Hids k), lookup_fmap. by rewrite fmap_is_Some.
Qed.

(** ** Reachable states *)

Section reach.
Variable pow : f64 → f64 → f64.

(** The exported operations, RestoreState among them: of the saved state of a
    DPoS that was reached, here or in another run, and of bytes it refuses
    before it stores anything. *)
Inductive dpos_reachable : DPoS.DPoS → Prop :=
| dq_New size dur : 0 ≤ size → dpos_reachable (NewDPoS size dur)
| dq_step d d' : dpos_reachable d → dpos_step pow d d' → dpos_reachable d'
| dq_Restore unmarshal keys data d s : dpos_reachable d → dpos_reachable s →
    unmarshal data = Some (dpos_state_of s) →
    iter_order (st_validators (dpos_state_of s)) keys →
    dpos_reachable (RestoreState unmarshal keys data d).1
| dq_refused unmarshal keys data d : dpos_reachable d →
    (∀ st, unmarshal data = Some st →
       ∃ e, restore_validators keys (st_validators st) ∅ 0 = Err e) →
    dpos_reachable (RestoreState unmarshal keys data d).1.

Lemma dpos_reachable_ok d : dpos_reachable d → wf d.
Proof.
  induction 1 as [size dur Hs|d d' _ IH Hst|um keys data d s _ _ _ IH Hd Ho|um keys data d _ IH Hd].
  - by apply wf_NewDPoS.
  - exact (dpos_step_wf pow d d' IH Hst).
  - destruct (dpos_RestoreState_spec (λ _, data) um keys s d IH Hd Ho) as (d' & Hr & Hd').
    unfold GetState in Hr. rewrite Hr. exact (restores_wf s d d' IH Hd').
  - unfold RestoreState. destruct (um data) as [st|]; [|done].
    by destruct (Hd st eq_refl) as [e ->].
Qed.
End reach.

(** * Properties *)

(** C36: every state reachable from [NewDPoS] through the exported operations is consistent, where
    RestoreState is given a state that was saved from such a DPoS or bytes it refuses before it
    stores anything: stored totals equal the sums over the validators and over the active ones
    modulo 2^64, [IsActive] flags agree with the active list, which has no duplicate, no unknown
    validator and at most [maxSetSize] entries.  RestoreState checks little of other bytes:
    [half_restored] and [twice_restored] are not consistent. *)
Theorem dpos_reachable_wf pow d : dpos_reachable pow d →
  DPoS.GetTotalStake d = u64 (msum Stake (validators d)) ∧
  activeTotalStake d = u64 (zsum (Stake <$> visit (validators d) (activeValidators d))) ∧
  NoDup (activeValidators d) ∧ Z.of_nat (length (activeValidators d)) ≤ maxSetSize d ∧
  (∀ i, i ∈ activeValidators d → is_Some (validators d !! i)) ∧
  (∀ i, DPoS.IsActiveValidator i d = true ↔ i ∈ activeValidators d).
Proof.
  intros Hr. pose proof (dpos_reachable_ok pow d Hr) as Hd. split_and!; [apply Hd..|].
  intros i. unfold DPoS.IsActiveValidator. destruct (validators d !! i) as [v|] eqn:Hv.
  - rewrite (wf_flag d Hd i v Hv). apply bool_decide_eq_true.
  - split; [done|]. intros Hi. destruct (wf_dom d Hd i Hi). congruence.
Qed.

(** round trip.  Serialising a consistent state and restoring it, into any state and for any
    iteration of the decoded map, succeeds and yields the state back, except that update times are
    cut to whole seconds and that the slashing log is the one of the state restored into; the
    restored state is consistent and serialises to the same bytes. *)
Theorem dpos_state_roundtrip marshal unmarshal keys d d0 : wf d →
  (∀ s, unmarshal (marshal s) = Some s) →
  iter_order (st_validators (dpos_state_of d)) keys →
  ∃ d', RestoreState unmarshal keys (GetState marshal d) d0 = (d', Ok ()) ∧
    d' = mkDPoS ((λ v, truncate (IsActive v) v) <$> validators d) (activeValidators d)
           (totalStake d) (activeTotalStake d) (lastBlockHeight d) (epochDuration d)
           (currentEpoch d) (maxSetSize d) (slashLog d0) ∧
    wf d' ∧ GetState marshal d' = GetState marshal d.
Proof.
  intros Hw Hj Ho. destruct (dpos_RestoreState_spec marshal unmarshal keys d d0 Hw (Hj _) Ho)
    as (d' & Hr & Hd'). exists d'. pose proof (restores_wf d d0 d' Hw Hd') as Hw'.
  split_and!; [done|done|done|]. rewrite Hd'. unfold GetState, dpos_state_of. cbn. f_equal. f_equal.
  f_equal. rewrite <- map_fmap_compose. apply map_fmap_ext. intros i v _.
  unfold ser_of. cbn. by rewrite unix_truncate.
Qed.

(** * Examples *)

(** An encoder with its decoder, through an enumeration of the states. *)
Definition f64_code (x : f64) : bool * (positive * Z) + (bool + bool + ()) :=
  match x with
  | S754_finite s m e => inl (s, (m, e))
  | S754_infinity s => inr (inl (inl s))
  | S754_zero s => inr (inl (inr s))
  | S754_nan => inr (inr ())
  end.
Definition code_f64 (c : bool * (positive * Z) + (bool + bool + ())) : f64 :=
  match c with
  | inl (s, (m, e)) => S754_finite s m e
  | inr (inl (inl s)) => S754_infinity s
  | inr (inl (inr s)) => S754_zero s
  | inr (inr _) => S754_nan
  end.
#[export] Program Instance f64_countable : Countable f64 := inj_countable' f64_code code_f64 _.
Next Obligation. by intros []. Qed.
#[export] Instance ser_validator_eq_dec : EqDecision ser_validator.
Proof. solve_decision. Defined.
#[export] Program Instance ser_validator_countable : Countable ser_validator :=
  inj_countable' (λ v, (sv_id v, sv_stake v, sv_performance v, sv_last_update_time v,
      sv_blocks_produced v, sv_misbehavior_count v))
    (λ '(a, b, c, d, e, f), mkSer a b c d e f) _.
Next Obligation. by intros []. Qed.
#[export] Instance dpos_state_eq_dec : EqDecision dpos_state.
Proof. solve_decision. Defined.
#[export] Program Instance dpos_state_countable : Countable dpos_state :=
  inj_countable' (λ s, (st_validators s, st_active s, st_last_block_height s, st_epoch_duration s,
      st_current_epoch s, st_max_set_size s))
    (λ '(a, b, c, d, e, f), mkDPoSState a b c d e f) _.
Next Obligation. by intros []. Qed.

Definition dpos_marshal (s : dpos_state) : list byte := bits (encode s).
Definition dpos_unmarshal (l : list byte) : option dpos_state := decode (unbits l).

Lemma dpos_codec s : dpos_unmarshal (dpos_marshal s) = Some s.
Proof. unfold dpos_unmarshal, dpos_marshal. by rewrite unbits_bits, decode_encode. Qed.

Lemma dpos_state_roundtrip_witness :
  ∃ d', RestoreState dpos_unmarshal (map_to_list (st_validators (dpos_state_of dpos_sample))).*1
      (GetState dpos_marshal dpos_sample) (NewDPoS 1 1) = (d', Ok ()) ∧
    d' = mkDPoS ((λ v, truncate (IsActive v) v) <$> validators dpos_sample)
           (activeValidators dpos_sample) (totalStake dpos_sample) (activeTotalStake dpos_sample)
           (lastBlockHeight dpos_sample) (epochDuration dpos_sample) (currentEpoch dpos_sample)
           (maxSetSize dpos_sample) [] ∧
    wf d' ∧ GetState dpos_marshal d' = GetState dpos_marshal dpos_sample.
Proof.
  apply (dpos_state_roundtrip dpos_marshal dpos_unmarshal _ dpos_sample (NewDPoS 1 1));
    [apply dpos_sample_wf|apply dpos_codec|apply iter_order_default].
Defined.

(** The sample, saved and restored into a new DPoS. *)
Definition reloaded : DPoS.DPoS :=
  (RestoreState dpos_unmarshal (map_to_list (st_validators (dpos_state_of dpos_sample))).*1
     (GetState dpos_marshal dpos_sample) (NewDPoS 1 1)).1.

Lemma reloaded_reach : dpos_reachable (λ x _, x) reloaded.
Proof.
  assert (dpos_reachable (λ x _, x) dpos_sample) as Hs.
  { assert (∀ d id s, is_u64 s → dpos_reachable (λ x _, x) d →
      dpos_reachable (λ x _, x) (add_sample d id s)) as Hadd.
    { intros d id s Hs Hd. pose proof (dpos_reachable_ok _ _ Hd) as Hw.
      assert (star (dpos_step (λ x _, x)) d (add_sample d id s)) as Hst by by apply add_sample_reach.
      apply (star_invariant (dpos_step (λ x _, x)) (dpos_reachable (λ x _, x)) d); [|done..].
      intros a b Ha Hab. by eapply dq_step. }
    unfold dpos_sample. repeat (apply Hadd; [by vm_compute|]). by apply dq_New. }
  exact (dq_Restore (λ x _, x) dpos_unmarshal _ (GetState dpos_marshal dpos_sample) (NewDPoS 1 1)
    dpos_sample (dq_New _ 1 1 ltac:(done)) Hs (dpos_codec _) (iter_order_default _)).
Qed.

Lemma dpos_reachable_wf_witness :
  DPoS.GetTotalStake reloaded = 120 ∧ activeTotalStake reloaded = 100 ∧
  (∀ i, DPoS.IsActiveValidator i reloaded = true ↔ i ∈ activeValidators reloaded).
Proof.
  split; [by vm_compute|]. split; [by vm_compute|].
  apply (dpos_reachable_wf (λ x _, x) reloaded reloaded_reach).
Defined.

(** A validator that is listed twice is active twice, beyond the set size. *)
Example twice_restored :
  let k := byteArrayToString val_a in
  let s := mkDPoSState {[ k := mkSer k 5 f_one 0 0 0 ]} [k; k] 7 10 0 1 in
  let '(d', r) := RestoreState (λ _, Some s) [k] [] (NewDPoS 2 10) in
  r = Ok () ∧ activeValidators d' = [val_a; val_a] ∧ totalStake d' = 5 ∧
  activeTotalStake d' = 10 ∧ maxSetSize d' = 1.
Proof. by vm_compute. Qed.

(** An unknown active validator fails after the registry was replaced. *)
Example half_restored :
  let s := mkDPoSState ∅ [byteArrayToString val_a] 7 10 0 2 in
  let d := with_active [val_b] 5 (NewDPoS 2 10) in
  let '(d', r) := RestoreState (λ _, Some s) [] [] d in
  r = Err (ErrActiveUnknown (byteArrayToString val_a)) ∧ lastBlockHeight d' = 7 ∧
  activeValidators d' = [val_b].
Proof. by vm_compute. Qed.
