(* ===== verification/Voting.v ===== *)
(** * Virtual voting: src/consensus/diamantefinality/voting.go

    A validator has seen an event when it created the event or one of its
    ancestors; an event passes the vote when the stake of the creator and of
    the active validators that have seen it reaches the threshold.  Stakes
    are added as float64, in the iteration order of the node map.  A nil DAG
    or event pointer is [None].  Logging is not modelled; the suspicious-vote
    detector, whose answer is only logged, is modelled on its own. *)
From Stdlib Require Import ZArith Lia SpecFloat.
From Stdlib Require Import Strings.Byte.
From stdpp Require Import numbers prelude gmap strings relations.
From S2P Require Import Prelude GoFloat Bytes Maps Common Bfs Dag.
Open Scope Z_scope.

Record VirtualVoting := mkVoting { threshold : f64 }.

Inductive VotingError :=
| ErrInvalidThreshold
| ErrNilDAG
| ErrEmptyState
| ErrVotingUnmarshal.

Definition NewVirtualVoting : VirtualVoting := mkVoting (f_lit 66 2).

(** An invalid threshold is ignored. *)
Definition invalid_threshold (t : f64) : bool := f_le t f_zero || f_gt t f_one.

Definition SetThreshold (t : f64) (v : VirtualVoting) : VirtualVoting :=
  if invalid_threshold t then v else mkVoting t.

Definition GetThreshold (v : VirtualVoting) : f64 := threshold v.

(** ** Who has seen an event *)

(** The breadth-first loop; the fuel bounds the number of queue entries. *)
Definition has_seen_loop (validatorID : bytes32) (d : DAG) (e : Event) : option bool :=
  bfs ev_ID ev_ParentIDs (find_event d) (λ x, bool_decide (ev_Creator x = validatorID))
    (bfs_fuel ev_ParentIDs (find_event d) (map_to_list (Events d)).*1 e) ∅ [e].

Definition HasSeen (validatorID : bytes32) (d : DAG) (event : option Event) : bool :=
  match event with
  | None => false
  | Some e =>
      if bool_decide (ev_Creator e = validatorID) then true
      else default false (has_seen_loop validatorID d e)
  end.

(** ** The vote *)

Fixpoint vote_loop (d : DAG) (e : Event) (requiredStake accumulated : f64)
    (nodes : list bytes32) : bool :=
  match nodes with
  | [] => false
  | nodeID :: nodes =>
      if bool_decide (nodeID = ev_Creator e) then vote_loop d e requiredStake accumulated nodes
      else if HasSeen nodeID d (Some e) then
        match GetNodeStake nodeID d with
        | Err _ => vote_loop d e requiredStake accumulated nodes
        | Ok stake =>
            let accumulated := f_add accumulated (f_of_Z stake) in
            if f_ge accumulated requiredStake then true
            else vote_loop d e requiredStake accumulated nodes
        end
      else vote_loop d e requiredStake accumulated nodes
  end.

(** [oT] and [oA]: the iterations of [GetTotalStake] and
    [GetActiveNodes]. *)
Definition Vote (oT oA : list bytes32) (v : VirtualVoting) (dag : option DAG)
    (event : option Event) : bool :=
  match event, dag with
  | None, _ => false
  | _, None => false
  | Some e, Some d =>
      let totalStake := GetTotalStake oT d in
      if totalStake =? 0 then false
      else
        let requiredStake := f_mul (f_of_Z totalStake) (threshold v) in
        if f_le (threshold v) f_zero then true
        else
          let activeNodes := GetActiveNodes oA d in
          if (length activeNodes =? 0)%nat then false
          else match GetNodeStake (ev_Creator e) d with
               | Ok creatorStake =>
                   let accumulated := f_add f_zero (f_of_Z creatorStake) in
                   if f_ge accumulated requiredStake then true
                   else vote_loop d e requiredStake accumulated activeNodes
               | Err _ => vote_loop d e requiredStake f_zero activeNodes
               end
  end.

(** ** The suspicious-vote detector *)

(** [float64(sumAbsDiff) / (2 * float64(n*n) * mean)]; the sums wrap. *)
Definition calculateGiniCoefficient (values : list Z) : f64 :=
  let n := Z.of_nat (length values) in
  if n <=? 1 then f_zero
  else
    let sumAbsDiff := foldl (λ s a, foldl (λ s b,
      if b <? a then uadd s (usub a b) else uadd s (usub b a)) s values) 0 values in
    let mean := f_div (f_of_Z (usum values)) (f_of_Z n) in
    f_div (f_of_Z sumAbsDiff) (f_mul (f_mul (f_of_Z 2) (f_of_Z (i64 (n * n)))) mean).

(** [o]: the iteration over the stakes before they are sorted. *)
Definition detectSuspiciousVoting (o : list bytes32) (votes : gmap bytes32 bool)
    (stakes : gmap bytes32 Z) : bool :=
  if (size votes <? 4)%nat then false
  else
    let samples : gset bool := list_to_set (map_to_list votes).*2 in
    if (size samples =? 1)%nat && (10 <? size votes)%nat then true
    else f_gt (calculateGiniCoefficient (sort_slice Z.ltb (visit stakes o))) (f_lit 9 1).

(** ** Queries and state *)

Definition GetConsensusEvents (height : Z) (oE : list bytes32)
    (oT oA : bytes32 → list bytes32) (v : VirtualVoting) (dag : option DAG) : list loc :=
  match dag with
  | None => []
  | Some d =>
      omap (λ id,
        l ← GetEvents d !! id; ev ← event_at d l;
        if (ev_Height ev =? height) && Vote (oT id) (oA id) v (Some d) (Some ev)
        then Some l else None) oE
  end.

Definition Validate (v : VirtualVoting) (dag : option DAG) : result VotingError () :=
  match dag with
  | None => Err ErrNilDAG
  | Some _ => if invalid_threshold (threshold v) then Err ErrInvalidThreshold else Ok ()
  end.

Section json.
Variable marshal : f64 → list byte.
Variable unmarshal : list byte → option f64.

Definition GetState (v : VirtualVoting) : list byte := marshal (threshold v).

Definition RestoreState (stateData : list byte) (v : VirtualVoting) :
    VirtualVoting * result VotingError () :=
  if (length stateData =? 0)%nat then (v, Err ErrEmptyState)
  else match unmarshal stateData with
       | None => (v, Err ErrVotingUnmarshal)
       | Some t =>
           if invalid_threshold t then (v, Err ErrInvalidThreshold) else (mkVoting t, Ok ())
       end.
End json.

(** * Facts *)

(** [a] is [e] or an ancestor of it in the DAG. *)
Definition ancestor (d : DAG) (e a : Event) : Prop := rtc (parent_of d) e a.

(** The event is in the DAG, or its identifier is not. *)
Definition known_or_new (d : DAG) (e : Event) : Prop :=
  ∀ e', find_event d (ev_ID e) = Some e' → e' = e.

Lemma edge_parent d e p : edge ev_ParentIDs (find_event d) e p ↔ parent_of d e p.
Proof. done. Qed.

Lemma HasSeen_spec v d e : dag_wf d → known_or_new d e →
  HasSeen v d (Some e) = true ↔ ∃ a, ancestor d e a ∧ ev_Creator a = v.
Proof.
  intros Hw Hk. unfold HasSeen. case_bool_decide as Hc; [split; [intros _|done]; exists e; split; [apply rtc_refl|done]|].
  unfold has_seen_loop.
  destruct (bfs_correct ev_ID ev_ParentIDs (find_event d)
    (λ x, bool_decide (ev_Creator x = v)) e (map_to_list (Events d)).*1) as (b & -> & Hb).
  - intros k x Hx. by apply (find_event_id d k x Hw).
  - intros k x Hx. apply (iter_order_default (Events d)), (find_event_some d k Hw). eauto.
  - exact Hk.
  - cbn [default]. rewrite Hb. apply exist_proper. intros a. rewrite bool_decide_eq_true. done.
Qed.

(** ** Floats *)

Lemma f_ge_mono a b r : exact_int a → exact_int b → a ≤ b → f_is_nan r = false →
  f_ge (f_of_Z a) r = true → f_ge (f_of_Z b) r = true.
Proof.
  intros Ha Hb Hab Hr. unfold f_ge. rewrite !f_le_total by (done || apply f_of_Z_nan).
  rewrite !negb_true_iff. intros Hlt.
  apply (f_nlt_trans (f_of_Z b) (f_of_Z a) r); [apply f_of_Z_nan|apply f_of_Z_nan|done| |done].
  rewrite f_lt_exact by done. lia.
Qed.

Lemma f_ge_zero r : f_lt f_zero r = true → f_ge f_zero r = false.
Proof.
  intros H. assert (f_is_nan r = false) as Hr by (by destruct r).
  unfold f_ge. rewrite f_le_total by done. by rewrite H.
Qed.

(** ** Sums of stakes *)

Lemma zsum_fmap_ext {A} (f g : A → Z) l : (∀ a, a ∈ l → f a = g a) → zsum (f <$> l) = zsum (g <$> l).
Proof.
  induction l as [|a l IH]; intros H; [done|]. rewrite !fmap_cons, !zsum_cons.
  rewrite (H a) by (by left). rewrite IH; [done|]. intros b Hb. apply H. by right.
Qed.

Definition stake_ok (d : DAG) : Prop :=
  (∀ id n, Nodes d !! id = Some n → 0 ≤ nd_Stake n) ∧ msum nd_Stake (Nodes d) < 9007199254740992.

Lemma GetTotalStake_spec d o : stake_ok d → iter_order (Nodes d) o →
  GetTotalStake o d = msum active_stake (Nodes d).
Proof.
  intros [H0 Hb] Ho. unfold GetTotalStake.
  transitivity (usum (active_stake <$> visit (Nodes d) o)).
  - unfold usum. generalize (visit (Nodes d) o). intros l. rewrite <- (u64_small 0) at 1 2 by done.
    assert (∀ a, is_u64 a → foldl (λ total n, if nd_Active n then uadd total (nd_Stake n) else total) a l
      = foldl uadd a (active_stake <$> l)) as Hf; [|by apply Hf].
    induction l as [|n l IH]; intros a Ha; [done|]. cbn. unfold active_stake at 1.
    destruct (nd_Active n); [apply IH, u64_range|].
    rewrite IH by done. f_equal. unfold uadd. rewrite Z.add_0_r. symmetry. by apply u64_small.
  - rewrite <- (msum_order _ _ _ Ho). apply usum_exact.
    + apply Forall_forall. intros x (n & -> & Hn)%list_elem_of_fmap.
      apply list_elem_of_omap in Hn as (k & _ & Hk). specialize (H0 k n Hk).
      unfold active_stake. by destruct (nd_Active n).
    + rewrite (msum_order _ _ _ Ho).
      assert (msum active_stake (Nodes d) ≤ msum nd_Stake (Nodes d)) as Hle; [|lia].
      rewrite <- !(msum_order _ _ _ Ho).
      assert (∀ l, (∀ n, n ∈ l → 0 ≤ nd_Stake n) →
        zsum (active_stake <$> l) ≤ zsum (nd_Stake <$> l)) as Hl.
      { intros l. induction l as [|n l IH]; intros Hpos; [done|].
        rewrite !fmap_cons, !zsum_cons. specialize (IH ltac:(intros m Hm; apply Hpos; by right)).
        specialize (Hpos n ltac:(by left)). unfold active_stake at 1. destruct (nd_Active n); lia. }
      apply Hl. intros n (k & _ & Hk)%list_elem_of_omap. eauto.
Qed.

(** The creator's stake, active or not, and that of the other active
    validators that have seen the event. *)
Definition creator_stake (d : DAG) (e : Event) : Z :=
  match Nodes d !! ev_Creator e with Some n => nd_Stake n | None => 0 end.
Definition voter_stake (d : DAG) (e : Event) (n : Node) : Z :=
  if nd_Active n && negb (bool_decide (nd_ID n = ev_Creator e)) && HasSeen (nd_ID n) d (Some e)
  then nd_Stake n else 0.
Definition support (d : DAG) (e : Event) : Z :=
  creator_stake d e + msum (voter_stake d e) (Nodes d).

(** The sum of [f] over the nodes named by a list. *)
Definition lsum (d : DAG) (f : Node → Z) (l : list bytes32) : Z := zsum (f <$> visit (Nodes d) l).

Lemma lsum_cons d f id n l : Nodes d !! id = Some n → lsum d f (id :: l) = f n + lsum d f l.
Proof. intros Hn. unfold lsum. rewrite visit_cons, Hn, fmap_cons, zsum_cons. done. Qed.

Lemma lsum_active d f o : (∀ id n, Nodes d !! id = Some n → nd_Active n = false → f n = 0) →
  lsum d f (GetActiveNodes o d) = lsum d f o.
Proof.
  intros Hf. induction o as [|id o IH]; [done|]. unfold GetActiveNodes. cbn [List.filter].
  fold (GetActiveNodes o d). destruct (Nodes d !! id) as [n|] eqn:Hn.
  - rewrite (lsum_cons _ _ _ _ _ Hn). destruct (nd_Active n) eqn:Ha.
    + by rewrite (lsum_cons _ _ _ _ _ Hn), IH.
    + rewrite IH, (Hf _ _ Hn Ha). lia.
  - rewrite IH. unfold lsum. by rewrite visit_cons, Hn.
Qed.

Lemma active_nodes_in d o id : id ∈ GetActiveNodes o d →
  ∃ n, Nodes d !! id = Some n ∧ nd_Active n = true.
Proof.
  unfold GetActiveNodes. intros [_ Hin]%list_elem_of_In%filter_In.
  destruct (Nodes d !! id) as [n|]; [by exists n|done].
Qed.

Section loops.
Variable d : DAG.
Variable e : Event.
Hypothesis Hw : dag_wf d.
Hypothesis Hs : stake_ok d.

Lemma voter_stake_pos id n : Nodes d !! id = Some n → 0 ≤ voter_stake d e n ≤ nd_Stake n.
Proof.
  intros Hn. destruct Hs as [H0 _]. specialize (H0 id n Hn). unfold voter_stake.
  destruct (_ && _ && _); lia.
Qed.

Lemma support_bound : 0 ≤ creator_stake d e ∧ support d e ≤ msum nd_Stake (Nodes d) ∧
  0 ≤ msum (voter_stake d e) (Nodes d).
Proof.
  destruct Hs as [H0 _]. unfold support, creator_stake.
  assert (0 ≤ msum (voter_stake d e) (Nodes d)) as Hp.
  { apply msum_nonneg. intros k n Hn. by apply (voter_stake_pos k n). }
  assert (∀ m : gmap bytes32 Node, m ⊆ Nodes d →
    msum (voter_stake d e) m ≤ msum nd_Stake m) as Hle.
  { intros m. induction m as [|k n m Hk IH] using map_ind; intros Hsub; [done|].
    rewrite !msum_insert_new by done.
    assert (Nodes d !! k = Some n) as Hn.
    { eapply lookup_weaken; [|done]. apply lookup_insert_eq. }
    pose proof (voter_stake_pos k n Hn). specialize (IH ltac:(etrans; [by apply insert_subseteq|done])).
    lia. }
  destruct (Nodes d !! ev_Creator e) as [n|] eqn:Hn; [|split_and!; [lia| |done]; by apply Hle].
  split_and!; [by apply (H0 _ _ Hn)| |done].
  pose proof (Hle (delete (ev_Creator e) (Nodes d)) (delete_subseteq _ _)) as Hd.
  rewrite !(msum_delete _ _ _ _ Hn) in Hd.
  assert (voter_stake d e n = 0) as H1.
  { unfold voter_stake. destruct (dw_node d Hw _ _ Hn) as [-> _].
    rewrite bool_decide_eq_true_2 by done. by rewrite andb_false_r. }
  lia.
Qed.

(** The early exits of the two loops over the active nodes do not change
    the answer. *)
Lemma vote_loop_spec r l : f_is_nan r = false →
  (∀ id, id ∈ l → ∃ n, Nodes d !! id = Some n ∧ nd_Active n = true) → ∀ w, 0 ≤ w →
  w + lsum d (voter_stake d e) l < 9007199254740992 → f_ge (f_of_Z w) r = false →
  vote_loop d e r (f_of_Z w) l = f_ge (f_of_Z (w + lsum d (voter_stake d e) l)) r.
Proof.
  intros Hr. induction l as [|id l IH]; intros Hin w Hw0 Hb Hlt.
  { unfold lsum. cbn. by rewrite Z.add_0_r, Hlt. }
  destruct (Hin id) as (n & Hn & Ha); [by left|].
  assert (0 ≤ lsum d (voter_stake d e) l) as Hl0.
  { apply zsum_nonneg, Forall_fmap, Forall_forall. intros m (k & _ & Hk)%list_elem_of_omap.
    by apply (voter_stake_pos k m). }
  destruct (voter_stake_pos id n Hn) as [Hv0 _].
  rewrite (lsum_cons _ _ _ _ _ Hn) in *. cbn [vote_loop].
  assert (∀ id, id ∈ l → ∃ n, Nodes d !! id = Some n ∧ nd_Active n = true) as Hin'.
  { intros j Hj. apply Hin. by right. }
  destruct (dw_node d Hw _ _ Hn) as [Hid _].
  assert (voter_stake d e n = if negb (bool_decide (id = ev_Creator e)) && HasSeen id d (Some e)
    then nd_Stake n else 0) as Hvn by (unfold voter_stake; by rewrite Hid, Ha).
  rewrite Hvn in *.
  cbn [andb] in *. case_bool_decide as Hc; cbn [negb andb] in *.
  { rewrite IH; [f_equal; f_equal; lia|done|lia|lia|done]. }
  destruct (HasSeen id d (Some e)) eqn:Hseen; [|rewrite IH; [f_equal; f_equal; lia|done|lia|lia|done]].
  unfold GetNodeStake. rewrite Hn.
  rewrite f_add_exact by (unfold exact_int; lia).
  destruct (f_ge (f_of_Z (w + nd_Stake n)) r) eqn:Hge.
  - symmetry. apply (f_ge_mono (w + nd_Stake n)); (done || unfold exact_int; lia).
  - rewrite IH by (done || lia). f_equal. f_equal. lia.
Qed.
End loops.

Lemma Vote_spec oT oA v d e : dag_wf d → stake_ok d →
  iter_order (Nodes d) oT → iter_order (Nodes d) oA →
  let total := msum active_stake (Nodes d) in
  let required := f_mul (f_of_Z total) (threshold v) in
  f_lt f_zero required = true → f_le (threshold v) f_zero = false →
  Vote oT oA v (Some d) (Some e) = negb (total =? 0) && f_ge (f_of_Z (support d e)) required.
Proof.
  intros Hw Hs HoT HoA total required Hpos Hth. unfold Vote.
  rewrite (GetTotalStake_spec d oT Hs HoT). fold total.
  destruct (Z.eqb_spec total 0) as [H0|H0]; [done|]. fold required. rewrite Hth. cbn [negb andb].
  assert (f_is_nan required = false) as Hr by (by destruct required).
  pose proof (support_bound d e Hw Hs) as (Hc0 & Hsup & Hv0). destruct Hs as [Hs0 Hs1].
  assert (lsum d (voter_stake d e) (GetActiveNodes oA d) = msum (voter_stake d e) (Nodes d)) as Hl.
  { rewrite lsum_active.
    - unfold lsum. by apply msum_order.
    - intros id n _ Ha. unfold voter_stake. by rewrite Ha. }
  destruct (GetActiveNodes oA d) as [|id0 l] eqn:Hact.
  { exfalso. apply H0. unfold total. rewrite <- (msum_order _ _ _ HoA).
    change (lsum d active_stake oA = 0). rewrite <- (lsum_active d), Hact; [done|].
    intros id n _ Ha. unfold active_stake. by rewrite Ha. }
  cbn [length Nat.eqb]. rewrite <- Hact in *.
  assert (∀ w, 0 ≤ w → w + msum (voter_stake d e) (Nodes d) = support d e →
    f_ge (f_of_Z w) required = false →
    vote_loop d e required (f_of_Z w) (GetActiveNodes oA d) = f_ge (f_of_Z (support d e)) required)
    as Hloop.
  { intros w Hw0 Heq Hlt. rewrite (vote_loop_spec d e Hw (conj Hs0 Hs1)); try done.
    - by rewrite Hl, Heq.
    - apply active_nodes_in.
    - rewrite Hl, Heq. lia. }
  unfold GetNodeStake, support, creator_stake in *.
  destruct (Nodes d !! ev_Creator e) as [n|] eqn:Hn.
  - rewrite <- f_of_Z_0, f_add_exact by (unfold exact_int; lia). rewrite Z.add_0_l.
    destruct (f_ge (f_of_Z (nd_Stake n)) required) eqn:Hge; [|by apply Hloop].
    symmetry. apply (f_ge_mono (nd_Stake n)); (done || unfold exact_int; lia).
  - rewrite <- f_of_Z_0. rewrite Hloop; [done|lia|lia|]. rewrite f_of_Z_0. by apply f_ge_zero.
Qed.

(** * Properties *)

(** C29: [HasSeen] decides ancestry and always terminates.  On any
    well-formed DAG, cycles and missing parents included, the breadth-first
    loop ends within its fuel, and the answer is yes exactly when the
    validator created the event or one of its ancestors in the DAG. *)
Theorem HasSeen_decides v d e : dag_wf d → known_or_new d e →
  (∃ b, has_seen_loop v d e = Some b) ∧
  (HasSeen v d (Some e) = true ↔ ∃ a, ancestor d e a ∧ ev_Creator a = v).
Proof.
  intros Hw Hk. split; [|by apply HasSeen_spec]. unfold has_seen_loop.
  destruct (bfs_correct ev_ID ev_ParentIDs (find_event d)
    (λ x, bool_decide (ev_Creator x = v)) e (map_to_list (Events d)).*1) as (b & -> & _);
    [| |done|by exists b].
  - intros k x Hx. by apply (find_event_id d k x Hw).
  - intros k x Hx. apply (iter_order_default (Events d)), (find_event_some d k Hw). eauto.
Qed.

(** C40: the vote counts stake.  With stakes below 2^53 in total, a positive
    threshold and any iteration orders, an event passes exactly when the
    active stake is not zero and the creator's stake plus the stake of the
    other active validators that have seen it reaches [total * threshold];
    the early exits and the order of the additions do not matter. *)
Theorem Vote_counts_stake oT oA v d e : dag_wf d → stake_ok d →
  iter_order (Nodes d) oT → iter_order (Nodes d) oA →
  let total := msum active_stake (Nodes d) in
  let required := f_mul (f_of_Z total) (threshold v) in
  f_lt f_zero required = true → f_le (threshold v) f_zero = false →
  Vote oT oA v (Some d) (Some e) = negb (total =? 0) && f_ge (f_of_Z (support d e)) required.
Proof. apply Vote_spec. Qed.

(** ** A concrete vote *)

Lemma find_known d id e : dag_wf d → find_event d id = Some e → known_or_new d e.
Proof.
  intros Hw He e' He'. destruct (find_event_id d id e Hw He) as [Hid _]. rewrite Hid in He'.
  congruence.
Qed.

Definition event2 : Event := default (build_event 0 node_a [] [] NewDAG) (find_event dag2 id2).

Lemma event2_found : find_event dag2 id2 = Some event2.
Proof. by vm_compute. Qed.

Lemma HasSeen_decides_witness :
  HasSeen node_a dag2 (Some event2) = true ∧
  (∃ b, has_seen_loop node_a dag2 event2 = Some b) ∧
  (HasSeen node_a dag2 (Some event2) = true ↔
    ∃ a, ancestor dag2 event2 a ∧ ev_Creator a = node_a).
Proof.
  split; [by vm_compute|].
  apply (HasSeen_decides node_a dag2 event2 (proj1 dag2_ok)).
  by apply (find_known dag2 id2 _ (proj1 dag2_ok)), event2_found.
Defined.

Definition stake_okb (d : DAG) : bool :=
  forallb (λ p, 0 <=? nd_Stake p.2) (map_to_list (Nodes d))
  && (msum nd_Stake (Nodes d) <? 9007199254740992).

Lemma stake_okb_true d : stake_okb d = true → stake_ok d.
Proof.
  intros [Hf Hb%Z.ltb_lt]%andb_true_iff. split; [|done]. intros id n Hn.
  rewrite forallb_forall in Hf. apply Z.leb_le, (Hf (id, n)), list_elem_of_In.
  by apply elem_of_map_to_list.
Qed.

Lemma dag2_stakes : stake_ok dag2.
Proof. apply stake_okb_true. by vm_compute. Qed.

Lemma Vote_counts_stake_witness :
  Vote [node_b; node_a] [node_a; node_b] NewVirtualVoting (Some dag2) (Some event2) = true ∧
  Vote [node_b; node_a] [node_a; node_b] NewVirtualVoting (Some dag2) (Some event2)
    = negb (msum active_stake (Nodes dag2) =? 0)
      && f_ge (f_of_Z (support dag2 event2))
           (f_mul (f_of_Z (msum active_stake (Nodes dag2))) (threshold NewVirtualVoting)).
Proof.
  split; [by vm_compute|].
  apply (Vote_counts_stake [node_b; node_a] [node_a; node_b] NewVirtualVoting dag2 event2);
    [apply dag2_ok|apply dag2_stakes|solve_order|solve_order|by vm_compute|by vm_compute].
Defined.

(** The creator's stake counts even when the creator is inactive, although
    the total only has the active stake: here 70 inactive against 30 active
    pass the vote alone. *)
Example inactive_creator_decides :
  let d := (RemoveNode node_a dag1).1 in
  IsActiveValidator node_a d = false ∧
  Vote [node_b; node_a] [node_a; node_b] NewVirtualVoting (Some d) (find_event d id1) = true.
Proof. by vm_compute. Qed.

(** A NaN passes the guard of [SetThreshold], and no event passes after. *)
Example nan_threshold :
  threshold (SetThreshold S754_nan NewVirtualVoting) = S754_nan ∧
  Vote [node_b; node_a] [node_a; node_b] (SetThreshold S754_nan NewVirtualVoting)
    (Some dag2) (Some event2) = false.
Proof. by vm_compute. Qed.
