(* ===== verification/Finalizer.v ===== *)
(** * Finalization: src/consensus/diamantefinality/finalize.go

    The finalizer marks the events that pass the vote.  It knows the voting
    algorithm only through an interface, the class [Voting]; its laws say
    that finalizing events does not change votes, and [VirtualVoting] is an
    instance.  [FinalizeEvents] runs one goroutine per event: the section on
    schedules models their interleavings, each goroutine being the sequence
    check, vote, commit of [Finalize] with the lock held for the commit. *)
From Stdlib Require Import ZArith Lia SpecFloat.
From Stdlib Require Import Strings.Byte Strings.String.
From stdpp Require Import numbers prelude gmap strings relations.
From S2P Require Import Prelude GoFloat Bytes Maps Common Bfs Dag Voting.
Open Scope Z_scope.

(** ** The voting interface *)

Class Voting (V : Type) := {
  vote : V → DAG → Event → bool;
  has_seen : V → bytes32 → DAG → Event → bool;
  set_threshold : f64 → V → V }.

(** [l] holds an event that the DAG stores at [l], or does not store. *)
Definition pointed (d : DAG) (l : loc) : Prop :=
  ∃ e, event_at d l = Some e ∧ (Events d !! ev_ID e = Some l ∨ Events d !! ev_ID e = None).

Class VotingLaws (V : Type) `{Voting V} := {
  vote_mark v d k l e : dag_wf d → pointed d l → event_at d l = Some e →
    ∃ e', event_at (mark_finalized k d) l = Some e' ∧
      vote v (mark_finalized k d) e' = vote v d e }.

(** ** State *)

Record Finalizer := mkFinalizer {
  finalized : gmap bytes32 bool;
  checkpoints : gmap Z loc }.

Inductive FinalizerError :=
| ErrVoteFailed
| ErrFinalizerUnmarshal
| ErrInvalidID (s : string).

Definition NewFinalizer : Finalizer := mkFinalizer ∅ ∅.

Definition IsFinalized (id : bytes32) (f : Finalizer) : bool := default false (finalized f !! id).

Definition checkpointInterval : Z := 1000.

Definition updateCheckpoints (l : loc) (e : Event) (f : Finalizer) : Finalizer :=
  if ev_Height e mod checkpointInterval =? 0
  then mkFinalizer (finalized f) (<[ev_Height e := l]> (checkpoints f))
  else f.

(** The critical section of [Finalize]. *)
Definition commit (l : loc) (e : Event) (f : Finalizer) (d : DAG) : Finalizer * DAG :=
  if IsFinalized (ev_ID e) f then (f, d)
  else (updateCheckpoints l e (mkFinalizer (<[ev_ID e := true]> (finalized f)) (checkpoints f)),
        mark_finalized l d).

Section finalizer.
Context {V : Type} `{Voting V}.
Variable v : V.

(** [None]: a nil or dangling event pointer, a panic. *)
Definition Finalize (l : loc) (f : Finalizer) (d : DAG) :
    option (Finalizer * DAG * result FinalizerError bool) :=
  e ← event_at d l;
  if IsFinalized (ev_ID e) f then Some (f, d, Ok true)
  else if vote v d e then
    let '(f, d) := commit l e f d in Some (f, d, Ok true)
  else Some (f, d, Err ErrVoteFailed).
End finalizer.

(** The loop over the checkpoints in the order [o]. *)
Definition GetLatestCheckpoint (o : list Z) (f : Finalizer) : option loc :=
  (foldl (λ best h,
    match checkpoints f !! h with
    | Some l => if best.1 <? h then (h, Some l) else best
    | None => best
    end) (0, None) o).2.

(** ** Serialised state *)

Record finalizer_state := mkFinState {
  fs_finalized : gmap string bool;
  fs_checkpoints : gmap Z Event }.

Definition finalizer_state_of (f : Finalizer) (d : DAG) : finalizer_state :=
  mkFinState (kmap byteArrayToString (finalized f)) (omap (event_at d) (checkpoints f)).

(** Rebuilding the set of identifiers, in the order given. *)
Fixpoint restore_finalized (keys : list string) (s : gmap string bool) (m : gmap bytes32 bool) :
    result FinalizerError (gmap bytes32 bool) :=
  match keys with
  | [] => Ok m
  | k :: keys =>
      match s !! k with
      | None => restore_finalized keys s m
      | Some b =>
          match stringToByteArray k with
          | None => Err (ErrInvalidID k)
          | Some id => restore_finalized keys s (<[id := b]> m)
          end
      end
  end.

(** The decoded checkpoints are new objects. *)
Fixpoint restore_checkpoints (keys : list Z) (s : gmap Z Event) (m : gmap Z loc) (h : heap) :
    gmap Z loc * heap :=
  match keys with
  | [] => (m, h)
  | k :: keys =>
      match s !! k with
      | None => restore_checkpoints keys s m h
      | Some e => let '(l, h) := alloc e h in restore_checkpoints keys s (<[k := l]> m) h
      end
  end.

Section json.
Variable marshal : finalizer_state → list byte.
Variable unmarshal : list byte → option finalizer_state.

Definition GetState (f : Finalizer) (d : DAG) : list byte := marshal (finalizer_state_of f d).

(** [fkeys], [ckeys]: the iterations over the two decoded maps. *)
Definition RestoreState (fkeys : list string) (ckeys : list Z) (data : list byte)
    (f : Finalizer) (d : DAG) : Finalizer * DAG * result FinalizerError () :=
  match unmarshal data with
  | None => (f, d, Err ErrFinalizerUnmarshal)
  | Some s =>
      match restore_finalized fkeys (fs_finalized s) ∅ with
      | Err e => (f, d, Err e)
      | Ok fin =>
          let '(cp, h) := restore_checkpoints ckeys (fs_checkpoints s) ∅ (store d) in
          (mkFinalizer fin cp, mkDAG (Nodes d) (Events d) (MaxHeight d) h, Ok ())
      end
  end.
End json.

(** ** Goroutines *)

(** Where a goroutine of [FinalizeEvents] stands in [Finalize]. *)
Inductive phase :=
| Start
| Checked (* past the read-locked test *)
| Voted (* the vote passed, the write lock not yet taken *)
| Done (r : result FinalizerError bool).

Section schedules.
Context {V : Type} `{Voting V}.
Variable v : V.

Definition world : Type := (Finalizer * DAG * list (loc * phase))%type.

(** One goroutine moves. *)
Inductive thread_step : Finalizer → DAG → loc → phase → Finalizer → DAG → phase → Prop :=
| ts_found f d l e : event_at d l = Some e → IsFinalized (ev_ID e) f = true →
    thread_step f d l Start f d (Done (Ok true))
| ts_checked f d l e : event_at d l = Some e → IsFinalized (ev_ID e) f = false →
    thread_step f d l Start f d Checked
| ts_refused f d l e : event_at d l = Some e → vote v d e = false →
    thread_step f d l Checked f d (Done (Err ErrVoteFailed))
| ts_voted f d l e : event_at d l = Some e → vote v d e = true →
    thread_step f d l Checked f d Voted
| ts_commit f d l e f' d' : event_at d l = Some e → commit l e f d = (f', d') →
    thread_step f d l Voted f' d' (Done (Ok true)).

Inductive world_step : world → world → Prop :=
| ws_thread f d ts i l ph f' d' ph' :
    ts !! i = Some (l, ph) → thread_step f d l ph f' d' ph' →
    world_step (f, d, ts) (f', d', <[i := (l, ph')]> ts).

Definition spawn (events : list loc) : list (loc * phase) := (λ l, (l, Start)) <$> events.

(** The result of [wg.Wait]: the errors in the order of the channel, which
    is some order of the goroutines. *)
Definition thread_error (t : loc * phase) : option FinalizerError :=
  match t.2 with Done (Err e) => Some e | _ => None end.
Definition all_done (ts : list (loc * phase)) : Prop :=
  Forall (λ t, ∃ r, t.2 = Done r) ts.
Definition FinalizeEvents_result (ts : list (loc * phase)) : result (list FinalizerError) () :=
  match omap thread_error ts with
  | [] => Ok ()
  | errs => Err errs
  end.
End schedules.

(** * Facts *)

(** ** Marking changes nothing a vote looks at *)

Definition same_event (x y : Event) : Prop := y = x ∨ y = set_Finalized x.

Lemma mark_event_at k d l : event_at (mark_finalized k d) l =
  (if decide (l = k) then set_Finalized <$> event_at d l else event_at d l).
Proof.
  unfold event_at, mark_finalized. cbn. case_decide as Hk.
  - subst k. by rewrite lookup_alter_eq.
  - by rewrite lookup_alter_ne.
Qed.

Lemma mark_find k d id : 
  match find_event d id, find_event (mark_finalized k d) id with
  | Some x, Some y => same_event x y
  | None, None => True
  | _, _ => False
  end.
Proof.
  unfold find_event. change (Events (mark_finalized k d)) with (Events d).
  destruct (Events d !! id) as [l|]; [|done]. cbn [mbind option_bind]. rewrite mark_event_at.
  case_decide; destruct (event_at d l); cbn; unfold same_event; auto.
Qed.

Lemma same_event_core x y : same_event x y →
  ev_ID y = ev_ID x ∧ ev_Creator y = ev_Creator x ∧ ev_ParentIDs y = ev_ParentIDs x.
Proof. by intros [->| ->]. Qed.

Lemma mark_parent k d x y p : same_event x y → parent_of d x p →
  ∃ q, parent_of (mark_finalized k d) y q ∧ same_event p q.
Proof.
  intros (_ & _ & Hp)%same_event_core (id & Hid & Hf). pose proof (mark_find k d id) as Hm.
  rewrite Hf in Hm. destruct (find_event (mark_finalized k d) id) as [q|] eqn:Hq; [|done].
  exists q. split; [|done]. exists id. by rewrite Hp.
Qed.

Lemma mark_parent_back k d x y q : same_event x y → parent_of (mark_finalized k d) y q →
  ∃ p, parent_of d x p ∧ same_event p q.
Proof.
  intros (_ & _ & Hp)%same_event_core (id & Hid & Hf). pose proof (mark_find k d id) as Hm.
  rewrite Hf in Hm. destruct (find_event d id) as [p|] eqn:Hq; [|done].
  exists p. split; [|done]. exists id. by rewrite <- Hp.
Qed.

Lemma mark_ancestor k d x y : same_event x y →
  (∀ a, ancestor d x a → ∃ b, ancestor (mark_finalized k d) y b ∧ same_event a b) ∧
  (∀ b, ancestor (mark_finalized k d) y b → ∃ a, ancestor d x a ∧ same_event a b).
Proof.
  intros Hxy. split; intros z Hr; revert Hxy; [revert y|revert x]; induction Hr as [|x1 x2 x3 Hp _ IH].
  - intros y Hxy. exists y. split; [apply rtc_refl|done].
  - intros y Hxy. destruct (mark_parent k d x1 y x2 Hxy Hp) as (q & Hq & Hs).
    destruct (IH q Hs) as (b & Hb & ?). exists b. split; [by eapply rtc_l|done].
  - intros w Hxy. exists w. split; [apply rtc_refl|done].
  - intros w Hxy. destruct (mark_parent_back k d w x1 x2 Hxy Hp) as (q & Hq & Hs).
    destruct (IH q Hs) as (b & Hb & ?). exists b. split; [by eapply rtc_l|done].
Qed.

Lemma mark_pointed k d l e : pointed d l → event_at d l = Some e →
  ∃ e', event_at (mark_finalized k d) l = Some e' ∧ same_event e e' ∧
    pointed (mark_finalized k d) l.
Proof.
  intros (e0 & He0 & Hp) He. assert (e0 = e) as -> by congruence.
  exists (if decide (l = k) then set_Finalized e else e). rewrite mark_event_at, He.
  split_and!; [by case_decide|unfold same_event; case_decide; auto|].
  exists (if decide (l = k) then set_Finalized e else e). rewrite mark_event_at, He.
  split; [by case_decide|]. by case_decide.
Qed.

Lemma pointed_known d l e : pointed d l → event_at d l = Some e → known_or_new d e.
Proof.
  intros (e0 & He0 & Hp) He. assert (e0 = e) as -> by congruence. intros e' He'. unfold find_event in He'.
  destruct Hp as [Hp|Hp]; rewrite Hp in He'; [|done]. cbn in He'. congruence.
Qed.

Lemma mark_HasSeen v k d l e e' : dag_wf d → pointed d l → event_at d l = Some e →
  event_at (mark_finalized k d) l = Some e' →
  HasSeen v (mark_finalized k d) (Some e') = HasSeen v d (Some e).
Proof.
  intros Hw Hp He He'. destruct (mark_pointed k d l e Hp He) as (e1 & He1 & Hs & Hp').
  assert (e' = e1) as -> by congruence. apply eq_true_iff_eq.
  rewrite (HasSeen_spec v d e Hw (pointed_known d l e Hp He)).
  rewrite (HasSeen_spec v _ e1 (mark_wf k d Hw) (pointed_known _ l e1 Hp' He1)).
  destruct (mark_ancestor k d e e1 Hs) as [H1 H2]. split.
  - intros (b & Hb & Hc). destruct (H2 b Hb) as (a & Ha & Hab). exists a. split; [done|].
    destruct (same_event_core _ _ Hab) as (_ & ? & _). congruence.
  - intros (a & Ha & Hc). destruct (H1 a Ha) as (b & Hb & Hab). exists b. split; [done|].
    destruct (same_event_core _ _ Hab) as (_ & ? & _). congruence.
Qed.

(** Virtual voting with the iteration orders its two loops over the node map
    take, functions of that map. *)
Record OrderedVoting := mkOrdered {
  ov_voting : VirtualVoting;
  ov_total : gmap bytes32 Node → list bytes32;
  ov_active : gmap bytes32 Node → list bytes32 }.

#[export] Instance virtual_voting : Voting OrderedVoting := {
  vote v d e := Vote (ov_total v (Nodes d)) (ov_active v (Nodes d)) (ov_voting v) (Some d) (Some e);
  has_seen _ id d e := HasSeen id d (Some e);
  set_threshold t v := mkOrdered (SetThreshold t (ov_voting v)) (ov_total v) (ov_active v) }.

#[export] Instance virtual_voting_laws : VotingLaws OrderedVoting.
Proof.
  split. intros v d k l e Hw Hp He.
  destruct (mark_pointed k d l e Hp He) as (e' & He' & Hs & _). exists e'. split; [done|].
  cbn [vote virtual_voting]. change (Nodes (mark_finalized k d)) with (Nodes d).
  destruct (same_event_core _ _ Hs) as (_ & Hc & _).
  assert (∀ r l acc, vote_loop (mark_finalized k d) e' r acc l = vote_loop d e r acc l) as Hloop.
  { intros r ns. induction ns as [|n ns IH]; intros acc; [done|]. cbn [vote_loop].
    rewrite Hc, (mark_HasSeen n k d l e e' Hw Hp He He').
    change (GetNodeStake n (mark_finalized k d)) with (GetNodeStake n d).
    repeat case_match; auto. }
  unfold Vote. rewrite Hc.
  change (GetTotalStake (ov_total v (Nodes d)) (mark_finalized k d))
    with (GetTotalStake (ov_total v (Nodes d)) d).
  change (GetActiveNodes (ov_active v (Nodes d)) (mark_finalized k d))
    with (GetActiveNodes (ov_active v (Nodes d)) d).
  change (GetNodeStake (ev_Creator e) (mark_finalized k d)) with (GetNodeStake (ev_Creator e) d).
  destruct (GetTotalStake _ d =? 0); [done|].
  destruct (f_le (threshold (ov_voting v)) f_zero); [done|].
  destruct (length _ =? 0)%nat; [done|].
  destruct (GetNodeStake (ev_Creator e) d); rewrite ?Hloop; done.
Qed.

(** ** Any schedule *)

Section any_schedule.
Context {V : Type} `{VotingLaws V}.
Variable v : V.
Variable f0 : Finalizer.
Variable d0 : DAG.
Variable events : list loc.
Hypothesis Hw0 : dag_wf d0.
Hypothesis Hp0 : ∀ l, l ∈ events → pointed d0 l.

(** The DAG after some events have been marked. *)
Definition marked (d : DAG) : Prop := rtc (λ a b, ∃ k, b = mark_finalized k a) d0 d.

Lemma marked_event d l e : marked d → l ∈ events → event_at d0 l = Some e →
  dag_wf d ∧ pointed d l ∧ ∃ e', event_at d l = Some e' ∧ ev_ID e' = ev_ID e ∧
    vote v d e' = vote v d0 e.
Proof.
  intros Hm Hl He. revert d Hm.
  apply (rtc_ind_r (λ d, dag_wf d ∧ pointed d l ∧ ∃ e', event_at d l = Some e' ∧
    ev_ID e' = ev_ID e ∧ vote v d e' = vote v d0 e)).
  - split_and!; [done|by apply Hp0|by exists e].
  - intros a b _ [k ->] (Hw & Hp & e1 & He1 & Hid & Hv).
    destruct (vote_mark v a k l e1 Hw Hp He1) as (e2 & He2 & Hv2).
    destruct (mark_pointed k a l e1 Hp He1) as (e3 & He3 & Hs & Hp3).
    assert (e3 = e2) as -> by congruence.
    split_and!; [by apply mark_wf|done|]. exists e2. split_and!; [done| |congruence].
    destruct (same_event_core _ _ Hs) as (-> & _). done.
Qed.

Definition passes (l : loc) : Prop := ∃ e, event_at d0 l = Some e ∧ vote v d0 e = true.
Definition was_final (l : loc) : Prop :=
  ∃ e, event_at d0 l = Some e ∧ IsFinalized (ev_ID e) f0 = true.
Definition is_final (f : Finalizer) (l : loc) : Prop :=
  ∃ e, event_at d0 l = Some e ∧ IsFinalized (ev_ID e) f = true.

(** What is known of a goroutine in each phase. *)
Definition phase_ok (f : Finalizer) (t : loc * phase) : Prop :=
  t.1 ∈ events ∧
  match t.2 with
  | Start => True
  | Checked => ¬ was_final t.1
  | Voted => ¬ was_final t.1 ∧ passes t.1
  | Done (Ok b) => b = true ∧ is_final f t.1
  | Done (Err e) => e = ErrVoteFailed ∧ ¬ was_final t.1 ∧ ¬ passes t.1
  end.

Record schedule_inv (w : Finalizer * DAG * list (loc * phase)) : Prop := {
  si_marked : marked w.1.2;
  si_mono : ∀ id, IsFinalized id f0 = true → IsFinalized id w.1.1 = true;
  si_sound : ∀ id, IsFinalized id w.1.1 = true → IsFinalized id f0 = true ∨
    ∃ l e, l ∈ events ∧ event_at d0 l = Some e ∧ ev_ID e = id ∧ vote v d0 e = true;
  si_phases : Forall (phase_ok w.1.1) w.2;
  si_locs : w.2.*1 = events }.

Lemma event_exists l : l ∈ events → ∃ e, event_at d0 l = Some e.
Proof. intros Hl. destruct (Hp0 l Hl) as (e & He & _). by exists e. Qed.

Lemma commit_finalized l e f d f' d' : commit l e f d = (f', d') →
  ∀ id, IsFinalized id f' = if decide (id = ev_ID e) then true else IsFinalized id f.
Proof.
  unfold commit. destruct (IsFinalized (ev_ID e) f) eqn:Hf.
  - intros [= <- <-] id. case_decide; [by subst|done].
  - intros [= <- <-] id. unfold IsFinalized, updateCheckpoints.
    assert (finalized (if ev_Height e mod checkpointInterval =? 0 then
      mkFinalizer (<[ev_ID e := true]> (finalized f)) (<[ev_Height e := l]> (checkpoints f))
      else mkFinalizer (<[ev_ID e := true]> (finalized f)) (checkpoints f))
      = <[ev_ID e := true]> (finalized f)) as Hfin by (by case_match).
    cbn [finalized checkpoints] in *. rewrite Hfin.
    case_decide as Hd; [subst; by rewrite lookup_insert_eq|by rewrite lookup_insert_ne].
Qed.

Lemma commit_marked l e f d f' d' : commit l e f d = (f', d') → marked d → marked d'.
Proof.
  unfold commit. case_match; intros [= <- <-] Hm; [done|]. eapply rtc_r; [done|]. by exists l.
Qed.

Lemma phase_ok_mono f f' t : (∀ id, IsFinalized id f = true → IsFinalized id f' = true) →
  phase_ok f t → phase_ok f' t.
Proof.
  intros Hm [Hin Ht]. split; [done|]. destruct t as [l [| | |[b|e]]]; simpl in *; try done.
  destruct Ht as [-> (x & Hx & Hf)]. split; [done|]. exists x. auto.
Qed.

Lemma thread_step_inv f d ts i l ph f' d' ph' : schedule_inv (f, d, ts) →
  ts !! i = Some (l, ph) → thread_step v f d l ph f' d' ph' →
  schedule_inv (f', d', <[i := (l, ph')]> ts).
Proof.
  intros [Hm Hmono Hsound Hph Hlocs] Hi Hst. cbn [fst snd] in *.
  pose proof (Forall_lookup_1 _ _ _ _ Hph Hi) as [Hin Hphase]. cbn [fst snd] in Hin, Hphase.
  destruct (event_exists l Hin) as [e0 He0].
  destruct (marked_event d l e0 Hm Hin He0) as (_ & _ & e & He & Hid & Hv).
  assert (∀ ph2, (<[i := (l, ph2)]> ts).*1 = events) as Hlocs'.
  { intros ph2. rewrite list_fmap_insert. cbn. rewrite list_insert_id; [done|].
    by rewrite list_lookup_fmap, Hi. }
  destruct Hst as [f d l e1 He1 Hf|f d l e1 He1 Hf|f d l e1 He1 Hno|f d l e1 He1 Hyes
    |f d l e1 f1 d1 He1 Hc]; assert (e1 = e) as -> by congruence.
  - split; cbn [fst snd]; try done. apply Forall_insert; [done|]. split; [done|].
    split; [done|]. exists e0. by rewrite <- Hid.
  - split; cbn [fst snd]; try done. apply Forall_insert; [done|]. split; [done|].
    intros (x & Hx & Hxf). cbn [fst] in Hx; assert (x = e0) as -> by congruence. apply Hmono in Hxf. rewrite <- Hid in Hxf. congruence.
  - split; cbn [fst snd]; try done. apply Forall_insert; [done|]. split; [done|].
    split_and!; try done. intros (x & Hx & Hxv). cbn [fst] in Hx; assert (x = e0) as -> by congruence. congruence.
  - split; cbn [fst snd]; try done. apply Forall_insert; [done|]. split; [done|].
    split; [done|]. exists e0. split; [done|congruence].
  - pose proof (commit_finalized _ _ _ _ _ _ Hc) as Hfin.
    assert (∀ id, IsFinalized id f = true → IsFinalized id f1 = true) as Hgrow.
    { intros id Hf. rewrite Hfin. by case_decide. }
    split; cbn [fst snd]; [by eapply commit_marked|by auto| | |done].
    + intros id. rewrite Hfin. case_decide as Hd; [|apply Hsound]. intros _. right.
      destruct Hphase as [_ (x & Hx & Hxv)]. cbn [fst] in Hx; assert (x = e0) as -> by congruence.
      exists l, e0. split_and!; congruence.
    + apply Forall_insert; [eapply Forall_impl; [exact Hph|by intros; eapply phase_ok_mono]|].
      split; [done|]. split; [done|]. exists e0. split; [done|]. rewrite Hfin, <- Hid.
      by rewrite decide_True.
Qed.

Lemma schedule_inv_start : schedule_inv (f0, d0, spawn events).
Proof.
  split; cbn [fst snd]; [apply rtc_refl|done|by left| |].
  - unfold spawn. apply Forall_fmap, Forall_forall. intros l Hl. by split.
  - unfold spawn. by rewrite <- list_fmap_compose, list_fmap_id.
Qed.

Lemma world_step_inv w w' : schedule_inv w → world_step v w w' → schedule_inv w'.
Proof. intros Hi Hs. destruct Hs. by eapply thread_step_inv. Qed.

(** Each goroutine takes at most three steps. *)
Definition phase_rank (ph : phase) : nat :=
  match ph with Start => 3 | Checked => 2 | Voted => 1 | Done _ => 0 end.
Definition world_rank (w : Finalizer * DAG * list (loc * phase)) : nat :=
  sum_list (phase_rank <$> w.2.*2).

Lemma sum_list_insert (l : list nat) i x y : l !! i = Some x →
  (sum_list (<[i := y]> l) + x = sum_list l + y)%nat.
Proof.
  revert i. induction l as [|z l IH]; intros [|i] Hi; simplify_eq/=; [lia|].
  specialize (IH i Hi). lia.
Qed.

Lemma world_step_rank w w' : world_step v w w' → (world_rank w' < world_rank w)%nat.
Proof.
  intros Hs. destruct Hs as [f d ts i l ph f' d' ph' Hi Hst]. unfold world_rank. cbn [snd].
  rewrite !list_fmap_insert. cbn [snd].
  assert ((phase_rank <$> ts.*2) !! i = Some (phase_rank ph)) as Hr.
  { by rewrite !list_lookup_fmap, Hi. }
  pose proof (sum_list_insert _ i _ (phase_rank ph') Hr).
  assert (phase_rank ph' < phase_rank ph)%nat by (destruct Hst; simpl; lia). lia.
Qed.

Lemma world_progress f d ts : schedule_inv (f, d, ts) →
  all_done ts ∨ ∃ w', world_step v (f, d, ts) w'.
Proof.
  intros Hi. destruct (decide (Forall (λ t, phase_rank t.2 = 0%nat) ts)) as [Hall|Hno].
  - left. eapply Forall_impl; [exact Hall|]. intros [l [| | |r]] Hr; try done. by exists r.
  - right. apply not_Forall_Exists, Exists_exists in Hno as ([l ph] & Hin & Hr); [|apply _].
    apply list_elem_of_lookup in Hin as [i Hi'].
    destruct Hi as [Hm _ _ Hph _]. cbn [fst snd] in *.
    pose proof (Forall_lookup_1 _ _ _ _ Hph Hi') as [Hl _]. cbn in Hl.
    destruct (event_exists l Hl) as [e0 He0].
    destruct (marked_event d l e0 Hm Hl He0) as (_ & _ & e & He & _ & _).
    destruct ph as [| | |r]; [| | |by destruct Hr].
    + destruct (IsFinalized (ev_ID e) f) eqn:Hf; eexists; eapply ws_thread; try done;
        [by eapply ts_found|by eapply ts_checked].
    + destruct (vote v d e) eqn:Hv; eexists; eapply ws_thread; try done;
        [by eapply ts_voted|by eapply ts_refused].
    + destruct (commit l e f d) as [f' d'] eqn:Hc. eexists. eapply ws_thread; [done|].
      by eapply ts_commit.
Qed.

Lemma schedule_bound n w : nsteps (world_step v) n (f0, d0, spawn events) w →
  (n + world_rank w ≤ 3 * length events)%nat ∧ schedule_inv w.
Proof.
  assert (world_rank (f0, d0, spawn events) = 3 * length events)%nat as <-.
  { unfold world_rank, spawn. cbn [snd]. induction events as [|l ls IH]; [done|].
    cbn. rewrite IH; [lia|]. intros k Hk. apply Hp0. by right. }
  pose proof schedule_inv_start as Hi. revert Hi. generalize (f0, d0, spawn events).
  intros w0 Hi Hn. induction Hn as [w1|n w1 w2 w3 Hs _ IH]; [by split; [lia|]|].
  pose proof (world_step_rank _ _ Hs). destruct IH as [Hb ?]; [by eapply world_step_inv|].
  split; [lia|done].
Qed.
End any_schedule.

(** ** Checkpoints *)

Lemma latest_fold f o : ∀ best : Z * option loc, 0 ≤ best.1 →
  let r := foldl (λ best h,
    match checkpoints f !! h with
    | Some l => if best.1 <? h then (h, Some l) else best
    | None => best
    end) best o in
  best.1 ≤ r.1 ∧ (r = best ∨ ∃ l, r.1 ∈ o ∧ best.1 < r.1 ∧ checkpoints f !! r.1 = Some l ∧ r.2 = Some l) ∧
  ∀ h l, h ∈ o → checkpoints f !! h = Some l → h ≤ r.1.
Proof.
  induction o as [|h o IH]; intros best H0 r; subst r; cbn [foldl].
  { split_and!; [lia|by left|by intros ? ? ?%elem_of_nil]. }
  destruct (checkpoints f !! h) as [l|] eqn:Hl.
  - destruct (Z.ltb_spec best.1 h) as [Hlt|Hge].
    + destruct (IH (h, Some l)) as (H1 & H2 & H3); [simpl; lia|]. cbn [fst snd] in *.
      split_and!; [lia| |].
      * right. destruct H2 as [->|(l' & Hin & ? & Hc & ?)]; cbn [fst snd].
        -- exists l. split_and!; [by left|done..].
        -- exists l'. split_and!; [by right|lia|done..].
      * intros k m [->|Hk]%elem_of_cons Hm; [done|by eapply H3].
    + destruct (IH best H0) as (H1 & H2 & H3). split_and!; [done| |].
      * destruct H2 as [?|(l' & Hin & ?)]; [by left|right; exists l'; split; [by right|done]].
      * intros k m [->|Hk]%elem_of_cons Hm; [lia|by eapply H3].
  - destruct (IH best H0) as (H1 & H2 & H3). split_and!; [done| |].
    + destruct H2 as [?|(l' & Hin & ?)]; [by left|right; exists l'; split; [by right|done]].
    + intros k m [->|Hk]%elem_of_cons Hm; [congruence|by eapply H3].
Qed.

(** * Properties *)

(** C30: concurrent finalization ends, and its outcome does not depend on
    the schedule.  For any lawful voting algorithm and any interleaving of
    the goroutines of [FinalizeEvents], at most three steps per event are
    taken and some goroutine can always move until all are done; then the
    finalized identifiers are exactly those that were final before and those
    of the events that pass the vote on the initial DAG, and an error is
    reported only for an event that was not final and fails the vote. *)
Theorem FinalizeEvents_any_schedule {V} `{VotingLaws V} v f0 d0 events n f d ts :
  dag_wf d0 → (∀ l, l ∈ events → pointed d0 l) →
  nsteps (world_step v) n (f0, d0, spawn events) (f, d, ts) →
  (n ≤ 3 * length events)%nat ∧
  (all_done ts ∨ ∃ w, world_step v (f, d, ts) w) ∧
  (all_done ts →
    (∀ id, IsFinalized id f = true ↔ IsFinalized id f0 = true ∨
       ∃ l e, l ∈ events ∧ event_at d0 l = Some e ∧ ev_ID e = id ∧ vote v d0 e = true) ∧
    match FinalizeEvents_result ts with
    | Ok _ => ∀ l e, l ∈ events → event_at d0 l = Some e → IsFinalized (ev_ID e) f = true
    | Err _ => ∃ l e, l ∈ events ∧ event_at d0 l = Some e ∧
        IsFinalized (ev_ID e) f0 = false ∧ vote v d0 e = false
    end).
Proof.
  intros Hw Hp Hn. destruct (schedule_bound v f0 d0 events Hw Hp n _ Hn) as [Hb Hi].
  split; [lia|]. split; [by apply (world_progress v f0 d0 events Hw Hp)|].
  intros Hdone. destruct Hi as [_ Hmono Hsound Hph Hlocs]. cbn [fst snd] in *.
  assert (∀ l, l ∈ events → ∃ ph, (l, ph) ∈ ts) as Hthread.
  { intros l Hl. rewrite <- Hlocs in Hl. apply list_elem_of_fmap in Hl as ([l' ph] & -> & ?).
    by exists ph. }
  assert (∀ l ph, (l, ph) ∈ ts → ∃ r, ph = Done r ∧ phase_ok v f0 d0 events f (l, ph)) as Hph'.
  { intros l ph Hin. unfold all_done in Hdone. rewrite Forall_forall in Hdone, Hph.
    destruct (Hdone _ Hin) as [r Hr]. exists r. split; [done|by apply Hph]. }
  split.
  - intros id. split; [apply Hsound|]. intros [Hf|(l & e & Hl & He & <- & Hv)]; [by apply Hmono|].
    destruct (Hthread l Hl) as [ph Hin]. destruct (Hph' l ph Hin) as (r & -> & _ & Hok).
    destruct r as [b|err]; cbn in Hok.
    + destruct Hok as [_ (x & Hx & Hf)]. congruence.
    + destruct Hok as (_ & _ & Hnp). destruct Hnp. by exists e.
  - unfold FinalizeEvents_result. destruct (omap thread_error ts) as [|err errs] eqn:Herr.
    + intros l e Hl He. destruct (Hthread l Hl) as [ph Hin].
      destruct (Hph' l ph Hin) as (r & -> & _ & Hok). destruct r as [b|err]; cbn in Hok.
      * destruct Hok as [_ (x & Hx & Hf)]. congruence.
      * exfalso. assert (err ∈ omap thread_error ts) as Hin'.
        { apply list_elem_of_omap. by exists (l, Done (Err err)). }
        rewrite Herr in Hin'. by apply elem_of_nil in Hin'.
    + assert (err ∈ omap thread_error ts) as ([l ph] & Hin & Hte)%list_elem_of_omap
        by (rewrite Herr; by left).
      destruct (Hph' l ph Hin) as (r & -> & Hl & Hok). destruct r as [b|e']; [done|].
      cbn in Hok, Hl. destruct Hok as (_ & Hnf & Hnp). destruct (Hp l Hl) as (e & He & _).
      exists l, e. split_and!; [done|done| |].
      * apply not_true_is_false. intros Hf. apply Hnf. by exists e.
      * apply not_true_is_false. intros Hv. apply Hnp. by exists e.
Qed.

(** finalizing one event.  [Finalize] answers yes without a vote when
    the identifier is final, and otherwise follows the vote; on yes the
    identifier is final, a second call is a yes that changes nothing, and
    every other identifier is as before; on no nothing changed. *)
Theorem Finalize_correct {V} `{VotingLaws V} v l e f d : dag_wf d → pointed d l →
  event_at d l = Some e →
  ∃ f' d', Finalize v l f d = Some (f', d',
      if IsFinalized (ev_ID e) f || vote v d e then Ok true else Err ErrVoteFailed) ∧
    (∀ id, IsFinalized id f' = IsFinalized id f ||
       (vote v d e && bool_decide (id = ev_ID e))) ∧
    (IsFinalized (ev_ID e) f || vote v d e = false → f' = f ∧ d' = d) ∧
    (IsFinalized (ev_ID e) f || vote v d e = true → Finalize v l f' d' = Some (f', d', Ok true)).
Proof.
  intros Hw Hp He. unfold Finalize. rewrite He. cbn [mbind option_bind].
  destruct (IsFinalized (ev_ID e) f) eqn:Hf; cbn [orb].
  { exists f, d. split_and!; try done.
    - intros id. case_bool_decide; [subst; by rewrite Hf|by rewrite andb_false_r, orb_false_r].
    - intros _. rewrite He. cbn. by rewrite Hf. }
  destruct (vote v d e) eqn:Hv.
  - destruct (commit l e f d) as [f' d'] eqn:Hc. exists f', d'.
    pose proof (commit_finalized _ _ _ _ _ _ Hc) as Hfin. split_and!; try done.
    + intros id. rewrite Hfin. case_decide; [subst; by rewrite bool_decide_eq_true_2, orb_true_r|].
      by rewrite bool_decide_eq_false_2, orb_false_r.
    + intros _. unfold commit in Hc. rewrite Hf in Hc. injection Hc as _ <-.
      destruct (mark_pointed l d l e Hp He) as (e' & He' & Hs & _). rewrite He'. cbn.
      destruct (same_event_core _ _ Hs) as (-> & _). by rewrite Hfin, decide_True.
  - exists f, d. split_and!; try done. intros id. by rewrite orb_false_r.
Qed.

(** the latest checkpoint is the highest one, whatever the order of
    the map; a checkpoint at height 0 is never returned. *)
Theorem GetLatestCheckpoint_highest o f : iter_order (checkpoints f) o →
  match GetLatestCheckpoint o f with
  | Some l => ∃ h, 0 < h ∧ checkpoints f !! h = Some l ∧
      ∀ h' l', checkpoints f !! h' = Some l' → h' ≤ h
  | None => ∀ h l, checkpoints f !! h = Some l → h ≤ 0
  end.
Proof.
  intros [_ Ho]. unfold GetLatestCheckpoint.
  destruct (latest_fold f o (0, None)) as (_ & Hr & Hmax); [simpl; lia|].
  assert (∀ h l, checkpoints f !! h = Some l → h ∈ o) as Hin.
  { intros h l Hl. apply Ho. by eexists. }
  destruct Hr as [Heq|(l & _ & Hpos & Hc & ->)].
  - rewrite Heq in *. cbn [fst snd] in *. intros h l Hl. by eapply Hmax; [eapply Hin|].
  - cbn [fst] in Hpos. eexists. split_and!; [exact Hpos|exact Hc|].
    intros h' l' Hl'. by eapply Hmax; [eapply Hin|].
Qed.

(** ** A concrete run *)

Definition node_order (m : gmap bytes32 Node) : list bytes32 := (map_to_list m).*1.
Definition sample_voting : OrderedVoting := mkOrdered NewVirtualVoting node_order node_order.

Lemma dag2_pointed l : l ∈ [1%positive; 2%positive] → pointed dag2 l.
Proof.
  intros Hl. repeat (apply elem_of_cons in Hl as [->|Hl]); [| |by apply elem_of_nil in Hl].
  - exists (default event2 (event_at dag2 1)). split; [by vm_compute|left; by vm_compute].
  - exists event2. split; [by vm_compute|left; by vm_compute].
Qed.

Definition event1 : Event := default event2 (event_at dag2 1).

(** Both goroutines pass their checks before either commits. *)
Definition both_checked : list (loc * phase) := [(1%positive, Checked); (2%positive, Checked)].
Definition after1 : Finalizer * DAG := commit 1%positive event1 NewFinalizer dag2.
Definition after2 : Finalizer * DAG := commit 2%positive event2 after1.1 after1.2.

Lemma step_at f d ts i l ph f' d' ph' ts' : ts !! i = Some (l, ph) →
  thread_step sample_voting f d l ph f' d' ph' → <[i := (l, ph')]> ts = ts' →
  world_step sample_voting (f, d, ts) (f', d', ts').
Proof. intros ? ? <-. by eapply ws_thread. Qed.

Lemma both_finalized :
  nsteps (world_step sample_voting) 6 (NewFinalizer, dag2, spawn [1%positive; 2%positive])
    (after2.1, after2.2, [(1%positive, Done (Ok true)); (2%positive, Done (Ok true))]).
Proof.
  eapply nsteps_l; [eapply (step_at _ _ _ 0 1 Start _ _ Checked _);
    [done|by apply (ts_checked _ _ _ _ event1); vm_compute|reflexivity]|].
  eapply nsteps_l; [eapply (step_at _ _ _ 1 2 Start _ _ Checked _);
    [done|by apply (ts_checked _ _ _ _ event2); vm_compute|reflexivity]|].
  eapply nsteps_l; [eapply (step_at _ _ _ 1 2 Checked _ _ Voted _);
    [done|by apply (ts_voted _ _ _ _ event2); vm_compute|reflexivity]|].
  eapply nsteps_l; [eapply (step_at _ _ _ 0 1 Checked _ _ Voted _);
    [done|by apply (ts_voted _ _ _ _ event1); vm_compute|reflexivity]|].
  eapply nsteps_l; [eapply (step_at _ _ _ 0 1 Voted after1.1 after1.2 (Done (Ok true)) _);
    [done|apply (ts_commit _ _ _ _ event1); [by vm_compute|exact (surjective_pairing after1)]|reflexivity]|].
  eapply nsteps_l; [eapply (step_at _ _ _ 1 2 Voted after2.1 after2.2 (Done (Ok true)) _);
    [done|apply (ts_commit _ _ _ _ event2); [by vm_compute|exact (surjective_pairing after2)]|reflexivity]|].
  apply nsteps_O.
Qed.

Lemma FinalizeEvents_any_schedule_witness :
  let ts := [(1%positive, Done (Ok true)); (2%positive, Done (Ok true))] in
  all_done ts ∧
  ((6 ≤ 3 * length [1%positive; 2%positive])%nat ∧
  (all_done ts ∨ ∃ w, world_step sample_voting (after2.1, after2.2, ts) w) ∧
  (all_done ts →
    (∀ id, IsFinalized id after2.1 = true ↔ IsFinalized id NewFinalizer = true ∨
       ∃ l e, l ∈ [1%positive; 2%positive] ∧ event_at dag2 l = Some e ∧ ev_ID e = id ∧
         vote sample_voting dag2 e = true) ∧
    match FinalizeEvents_result ts with
    | Ok _ => ∀ l e, l ∈ [1%positive; 2%positive] → event_at dag2 l = Some e →
        IsFinalized (ev_ID e) after2.1 = true
    | Err _ => ∃ l e, l ∈ [1%positive; 2%positive] ∧ event_at dag2 l = Some e ∧
        IsFinalized (ev_ID e) NewFinalizer = false ∧ vote sample_voting dag2 e = false
    end)).
Proof.
  intros ts. split; [repeat constructor; by eexists|].
  apply (FinalizeEvents_any_schedule sample_voting NewFinalizer dag2
    [1%positive; 2%positive] 6 after2.1 after2.2 ts); [apply dag2_ok|apply dag2_pointed|].
  apply both_finalized.
Defined.

Lemma Finalize_correct_witness :
  vote sample_voting dag2 event2 = true ∧
  ∃ f' d', Finalize sample_voting 2%positive NewFinalizer dag2 = Some (f', d',
      if IsFinalized (ev_ID event2) NewFinalizer || vote sample_voting dag2 event2
      then Ok true else Err ErrVoteFailed) ∧
    (∀ id, IsFinalized id f' = IsFinalized id NewFinalizer ||
       (vote sample_voting dag2 event2 && bool_decide (id = ev_ID event2))) ∧
    (IsFinalized (ev_ID event2) NewFinalizer || vote sample_voting dag2 event2 = false →
       f' = NewFinalizer ∧ d' = dag2) ∧
    (IsFinalized (ev_ID event2) NewFinalizer || vote sample_voting dag2 event2 = true →
       Finalize sample_voting 2%positive f' d' = Some (f', d', Ok true)).
Proof.
  split; [by vm_compute|].
  apply (Finalize_correct sample_voting 2%positive event2 NewFinalizer dag2);
    [apply dag2_ok|apply dag2_pointed; set_solver|by vm_compute].
Defined.

Definition two_checkpoints : Finalizer :=
  mkFinalizer ∅ (<[1000 := 5%positive]> (<[3000 := 7%positive]> ∅)).

Lemma GetLatestCheckpoint_highest_witness :
  GetLatestCheckpoint [3000; 1000] two_checkpoints = Some 7%positive ∧
  match GetLatestCheckpoint [3000; 1000] two_checkpoints with
  | Some l => ∃ h, 0 < h ∧ checkpoints two_checkpoints !! h = Some l ∧
      ∀ h' l', checkpoints two_checkpoints !! h' = Some l' → h' ≤ h
  | None => ∀ h l, checkpoints two_checkpoints !! h = Some l → h ≤ 0
  end.
Proof.
  split; [by vm_compute|]. apply (GetLatestCheckpoint_highest [3000; 1000] two_checkpoints).
  solve_order.
Defined.
