(* ===== verification/Gossip.v ===== *)
(** * Gossip: src/consensus/diamantefinality/gossip.go

    Each peer has a buffered channel of events (1000 slots) and a stop
    channel.  A channel is the list of the locations it holds, oldest first;
    a send to a full channel drops the event, as the code's [select] does.
    The goroutine of a peer is modelled by one turn of its loop. *)
From Stdlib Require Import ZArith Lia SpecFloat.
From Stdlib Require Import Strings.Byte Strings.String.
From stdpp Require Import numbers prelude gmap strings.
From S2P Require Import Prelude GoFloat Bytes Maps Common Dag.
Open Scope Z_scope.

Record GossipProtocol := mkGossip {
  peers : gmap bytes32 (list loc);
  baseDelay : Z;
  currentDelay : Z;
  stopChannels : gset bytes32; (* the open ones *)
  networkLoad : f64;
  cancelled : bool (* the context *) }.

Inductive GossipError :=
| ErrGossipUnmarshal
| ErrParsePeerID (s : string).

Definition capacity : nat := 1000.

Definition NewGossipProtocol (delay : Z) : GossipProtocol :=
  mkGossip ∅ delay delay ∅ f_zero false.

Definition with_peers (p : gmap bytes32 (list loc)) (g : GossipProtocol) : GossipProtocol :=
  mkGossip p (baseDelay g) (currentDelay g) (stopChannels g) (networkLoad g) (cancelled g).

Definition AddPeer (nodeID : bytes32) (g : GossipProtocol) : GossipProtocol :=
  match peers g !! nodeID with
  | Some _ => g
  | None => mkGossip (<[nodeID := []]> (peers g)) (baseDelay g) (currentDelay g)
              ({[nodeID]} ∪ stopChannels g) (networkLoad g) (cancelled g)
  end.

Definition RemovePeer (nodeID : bytes32) (g : GossipProtocol) : GossipProtocol :=
  mkGossip (delete nodeID (peers g)) (baseDelay g) (currentDelay g)
    (stopChannels g ∖ {[nodeID]}) (networkLoad g) (cancelled g).

(** One non-blocking send. *)
Definition try_send (l : loc) (ch : list loc) : list loc :=
  if (length ch <? capacity)%nat then ch ++ [l] else ch.

(** The loop over the peers in the order given. *)
Fixpoint broadcast_loop (l : loc) (exclude : bytes32) (order : list bytes32)
    (ps : gmap bytes32 (list loc)) : gmap bytes32 (list loc) :=
  match order with
  | [] => ps
  | p :: order =>
      if bool_decide (p = exclude) then broadcast_loop l exclude order ps
      else match ps !! p with
           | None => broadcast_loop l exclude order ps
           | Some ch => broadcast_loop l exclude order (<[p := try_send l ch]> ps)
           end
  end.

Definition BroadcastEvent (order : list bytes32) (l : loc) (exclude : bytes32)
    (g : GossipProtocol) : GossipProtocol :=
  with_peers (broadcast_loop l exclude order (peers g)) g.

Definition GetNetworkLoad (g : GossipProtocol) : f64 := networkLoad g.
Definition GetCurrentDelay (g : GossipProtocol) : Z := currentDelay g.
Definition GetPeers (order : list bytes32) (g : GossipProtocol) : list bytes32 :=
  List.filter (λ p, bool_decide (is_Some (peers g !! p))) order.

Section delays.
Variable wild_int : f64 → Z.

Definition adjustGossipRateLocked (g : GossipProtocol) : GossipProtocol :=
  let loadFactor := f_add f_one (networkLoad g) in
  mkGossip (peers g) (baseDelay g) (to_int wild_int (f_mul (f_of_Z (baseDelay g)) loadFactor))
    (stopChannels g) (networkLoad g) (cancelled g).

Definition UpdateNetworkLoad (load : f64) (g : GossipProtocol) : GossipProtocol :=
  adjustGossipRateLocked
    (mkGossip (peers g) (baseDelay g) (currentDelay g) (stopChannels g)
       (f_max f_zero (f_min f_one load)) (cancelled g)).

Definition SetBaseDelay (delay : Z) (g : GossipProtocol) : GossipProtocol :=
  adjustGossipRateLocked
    (mkGossip (peers g) delay (currentDelay g) (stopChannels g) (networkLoad g) (cancelled g)).

(** ** Receiving *)

(** [order]: the iteration of the re-broadcast; [now] the clock of
    [NewEvent]. *)
Definition processReceivedEvent (now : Z) (order : list bytes32) (nodeID : bytes32) (l : loc)
    (g : GossipProtocol) (d : DAG) : GossipProtocol * DAG :=
  match event_at d l with
  | None => (g, d)
  | Some ev =>
      match GetEvent (ev_ID ev) d with
      | Ok _ => (g, d)
      | Err _ =>
          let d := if negb (IsActiveValidator nodeID d) then AddNode nodeID 1 d else d in
          match NewEvent now nodeID (ev_ParentIDs ev) (ev_Data ev) d with
          | (d, Err _) => (g, d)
          | (d, Ok _) =>
              let g := BroadcastEvent order l nodeID g in
              (UpdateNetworkLoad (f_add (GetNetworkLoad g) (f_lit 1 2)) g, d)
          end
      end
  end.

(** How a turn of the loop of [StartGossiping] ends. *)
Inductive turn :=
| Exits (* the goroutine returns *)
| Idles (* nothing to read *)
| Received.

Definition gossip_turn (now : Z) (order : list bytes32) (nodeID : bytes32)
    (g : GossipProtocol) (d : DAG) : turn * GossipProtocol * DAG :=
  if cancelled g then (Exits, g, d)
  else match peers g !! nodeID with
       | None => (Exits, g, d)
       | Some ch =>
           if negb (bool_decide (nodeID ∈ stopChannels g)) then (Exits, g, d)
           else match ch with
                | [] => (Idles, g, d)
                | l :: ch =>
                    let '(g, d) := processReceivedEvent now order nodeID l
                      (with_peers (<[nodeID := ch]> (peers g)) g) d in
                    (Received, g, d)
                end
       end.
End delays.

Fixpoint sync_loop (order : bytes32 → list bytes32) (ids : list bytes32) (d : DAG)
    (g : GossipProtocol) : GossipProtocol :=
  match ids with
  | [] => g
  | id :: ids =>
      match GetEvents d !! id with
      | None => sync_loop order ids d g
      | Some l => sync_loop order ids d (BroadcastEvent (order id) l zero32 g)
      end
  end.

(** [ids]: the iteration over the events, [order id] the one over the peers
    for that event. *)
Definition ForceSyncAll (ids : list bytes32) (order : bytes32 → list bytes32) (d : DAG)
    (g : GossipProtocol) : GossipProtocol := sync_loop order ids d g.

(** [Stop] closes and forgets the stop channels and cancels the context. *)
Definition Stop (g : GossipProtocol) : GossipProtocol :=
  mkGossip (peers g) (baseDelay g) (currentDelay g) ∅ (networkLoad g) true.

(** ** Serialised state *)

Record gossip_state := mkGossipState {
  gs_peers : gmap string bool;
  gs_base_delay : Z;
  gs_current_delay : Z;
  gs_network_load : f64 }.

Definition gossip_state_of (g : GossipProtocol) : gossip_state :=
  mkGossipState (kmap byteArrayToString ((λ _, true) <$> peers g)) (baseDelay g)
    (currentDelay g) (networkLoad g).

Fixpoint restore_peers (keys : list string) (ps : gmap bytes32 (list loc)) :
    result GossipError (gmap bytes32 (list loc)) :=
  match keys with
  | [] => Ok ps
  | k :: keys =>
      match stringToByteArray k with
      | None => Err (ErrParsePeerID k)
      | Some id => restore_peers keys (<[id := []]> ps)
      end
  end.

Section json.
Variable marshal : gossip_state → list byte.
Variable unmarshal : list byte → option gossip_state.

Definition GetState (g : GossipProtocol) : list byte := marshal (gossip_state_of g).

(** [keys]: the iteration over the decoded peers. *)
Definition RestoreState (keys : list string) (stateData : list byte) (g : GossipProtocol) :
    GossipProtocol * result GossipError () :=
  match unmarshal stateData with
  | None => (g, Err ErrGossipUnmarshal)
  | Some s =>
      match restore_peers keys ∅ with
      | Err e => (g, Err e)
      | Ok ps => (mkGossip ps (gs_base_delay s) (gs_current_delay s) (dom ps)
                    (gs_network_load s) (cancelled g), Ok ())
      end
  end.
End json.

(** * Facts *)

Definition channels_ok (g : GossipProtocol) : Prop :=
  ∀ p ch, peers g !! p = Some ch → (length ch ≤ capacity)%nat.

Lemma try_send_length l ch : (length ch ≤ capacity)%nat → (length (try_send l ch) ≤ capacity)%nat.
Proof.
  unfold try_send. intros Hl. destruct (Nat.ltb_spec (length ch) capacity); [|done].
  rewrite length_app. simpl. lia.
Qed.

Lemma broadcast_lookup l exclude order ps p : NoDup order →
  broadcast_loop l exclude order ps !! p =
  (if decide (p ∈ order ∧ p ≠ exclude) then try_send l <$> ps !! p else ps !! p).
Proof.
  revert ps. induction order as [|q order IH]; intros ps Hnd; cbn [broadcast_loop].
  { rewrite decide_False; [done|]. intros [?%elem_of_nil _]. done. }
  apply NoDup_cons in Hnd as [Hq Hnd].
  assert (∀ ps' : gmap bytes32 (list loc), (ps' !! p = if decide (p = q) then (if decide (q = exclude) then ps !! p
      else try_send l <$> ps !! p) else ps !! p) →
    (if decide (p ∈ order ∧ p ≠ exclude) then try_send l <$> ps' !! p else ps' !! p) =
    (if decide (p ∈ q :: order ∧ p ≠ exclude) then try_send l <$> ps !! p else ps !! p)) as Hstep.
  { intros ps' ->. destruct (decide (p = q)) as [->|Hne].
    - rewrite decide_False by (by intros [? _]).
      destruct (decide (q = exclude)) as [->|Hex].
      + rewrite decide_False; [done|]. by intros [_ ?].
      + rewrite decide_True; [done|]. split; [by left|done].
    - apply decide_ext. rewrite elem_of_cons. naive_solver. }
  case_bool_decide as Hex.
  - rewrite IH by done. apply Hstep. repeat case_decide; congruence.
  - destruct (ps !! q) as [ch|] eqn:Hch; rewrite IH by done; apply Hstep.
    + case_decide as Hp; [subst; by rewrite lookup_insert_eq, decide_False, Hch|].
      by rewrite lookup_insert_ne.
    + case_decide as Hp; [subst; by rewrite decide_False, Hch|done].
Qed.

(** * Properties *)

(** a broadcast reaches exactly the other peers that have room.  In
    any order of the peer map, every peer but the excluded one gets the event
    at the end of its channel if the channel holds fewer than 1000 events
    and otherwise drops it; channels never exceed their capacity. *)
Theorem BroadcastEvent_exact order l exclude g : iter_order (peers g) order → channels_ok g →
  let g' := BroadcastEvent order l exclude g in
  channels_ok g' ∧
  ∀ p, peers g' !! p =
    match peers g !! p with
    | Some ch => if decide (p = exclude) then Some ch
                 else if (length ch <? capacity)%nat then Some (ch ++ [l]) else Some ch
    | None => None
    end.
Proof.
  intros [Hnd Ho] Hok g'.
  assert (∀ p, peers g' !! p = match peers g !! p with
    | Some ch => if decide (p = exclude) then Some ch else Some (try_send l ch)
    | None => None end) as Hl.
  { intros p. unfold g', BroadcastEvent. cbn [with_peers peers]. rewrite broadcast_lookup by done.
    destruct (peers g !! p) as [ch|] eqn:Hp.
    - assert (p ∈ order) as Hin by (apply Ho; by eexists).
      destruct (decide (p = exclude)) as [->|Hne]; [rewrite decide_False by (by intros [_ ?])|
        rewrite decide_True by done]; done.
    - by case_decide. }
  split.
  - intros p ch. rewrite Hl. destruct (peers g !! p) as [c|] eqn:Hp; [|done].
    specialize (Hok p c Hp). case_decide; intros [= <-]; [done|by apply try_send_length].
  - intros p. rewrite Hl. destruct (peers g !! p) as [c|]; [|done]. case_decide; [done|].
    unfold try_send. by case_match.
Qed.

(** a received event is not recorded.  Processing an event whose
    identifier the DAG does not know stores a new event of the receiving
    peer, with the same parents and data but another identifier; unless
    SHA-256 collides, the received identifier stays unknown, so the same
    event is processed, stored and re-broadcast again on every delivery. *)
Theorem received_event_not_recorded wild_int now order nodeID l ev g d : dag_wf d →
  event_at d l = Some ev → find_event d (ev_ID ev) = None →
  let d1 := if negb (IsActiveValidator nodeID d) then AddNode nodeID 1 d else d in
  let e := build_event now nodeID (ev_ParentIDs ev) (ev_Data ev) d1 in
  ev_ID e ≠ ev_ID ev →
  let '(g', d') := processReceivedEvent wild_int now order nodeID l g d in
  find_event d' (ev_ID e) = Some e ∧ ev_Creator e = nodeID ∧
  find_event d' (ev_ID ev) = None ∧
  peers g' = broadcast_loop l nodeID order (peers g).
Proof.
  intros Hw Hev Hnone d1 e Hne. unfold processReceivedEvent. rewrite Hev.
  assert (Events d !! ev_ID ev = None) as Hno.
  { apply eq_None_not_Some. intros Hs. apply (find_event_some d _ Hw) in Hs as [x Hx]. congruence. }
  unfold GetEvent. rewrite Hno.
  assert (∃ n, Nodes d1 !! nodeID = Some n ∧ nd_Active n = true) as (n & Hn & Ha).
  { unfold d1, IsActiveValidator, AddNode.
    destruct (Nodes d !! nodeID) as [n|] eqn:Hn; [destruct (nd_Active n) eqn:Ha|]; cbn.
    - by exists n.
    - eexists. by rewrite lookup_insert_eq.
    - eexists. by rewrite lookup_insert_eq. }
  assert (dag_wf d1 ∧ ∀ id, find_event d1 id = find_event d id) as [Hw1 Hf1].
  { unfold d1. destruct (IsActiveValidator nodeID d); cbn [negb]; [done|]. split.
    - destruct Hw as [H1 H2 H3]. unfold AddNode.
      destruct (Nodes d !! nodeID) as [m|] eqn:Hm; (split; [apply H1|apply H2|]);
        intros i k; cbn [with_Nodes Nodes]; rewrite lookup_insert_Some;
        intros [[<- <-]|[_ Hi]]; try by apply (H3 i k).
      + apply (H3 _ _ Hm).
      + by split; [|constructor].
    - intros id. unfold AddNode. by destruct (Nodes d !! nodeID). }
  fold d1. unfold NewEvent. rewrite Hn, Ha. cbn [negb]. fold e.
  destruct (add_event e n d1) as [d' l'] eqn:Hadd.
  pose proof (add_event_find e n d1 d' l' Hw1 Hadd) as Hf.
  split_and!; [by rewrite Hf, decide_True|done| |done].
  rewrite Hf, decide_False by congruence. by rewrite Hf1.
Qed.

(** ** Concrete gossip *)

Definition gossip2 : GossipProtocol := AddPeer node_b (AddPeer node_a (NewGossipProtocol 100)).

Lemma gossip2_ok : channels_ok gossip2.
Proof.
  intros p ch. change (peers gossip2) with (<[node_b := []]> (<[node_a := []]>
    (∅ : gmap bytes32 (list loc)))).
  rewrite !lookup_insert_Some, lookup_empty. intros [[_ <-]|[_ [[_ <-]|[_ ?]]]]; [| |done];
    simpl; lia.
Qed.

Lemma BroadcastEvent_exact_witness :
  let g' := BroadcastEvent [node_b; node_a] 7%positive node_a gossip2 in
  channels_ok g' ∧
  ∀ p, peers g' !! p =
    match peers gossip2 !! p with
    | Some ch => if decide (p = node_a) then Some ch
                 else if (length ch <? capacity)%nat then Some (ch ++ [7%positive]) else Some ch
    | None => None
    end.
Proof.
  apply (BroadcastEvent_exact [node_b; node_a] 7%positive node_a gossip2);
    [solve_order|apply gossip2_ok].
Defined.

(** An event object that arrived from the network. *)
Definition deliver (e : Event) (d : DAG) : DAG :=
  mkDAG (Nodes d) (Events d) (MaxHeight d) (alloc e (store d)).2.

Lemma deliver_wf e d : dag_wf d → dag_wf (deliver e d).
Proof.
  intros [H1 H2 H3].
  assert (∀ l, is_Some (event_at d l) → event_at (deliver e d) l = event_at d l) as Hold.
  { intros l Hl. pose proof (H2 l Hl). unfold event_at, deliver, alloc. cbn.
    by rewrite lookup_insert_ne by (intros <-; lia). }
  split.
  - intros id l Hl. destruct (H1 id l Hl) as (x & Hx & Hid). exists x.
    by rewrite Hold by (by eexists).
  - intros l. unfold event_at, deliver, alloc. cbn.
    destruct (decide (l = next (store d))) as [->|Hne]; [lia|].
    rewrite lookup_insert_ne by done. intros Hl. pose proof (H2 l Hl). lia.
  - intros id n Hn. destruct (H3 id n Hn) as [? Hall]. split; [done|].
    eapply Forall_impl; [exact Hall|]. intros l Hl. by rewrite Hold.
Qed.

Definition remote_event : Event := build_event 99 node_b [id1] [x07] dag2.
Definition dag_net : DAG := deliver remote_event dag2.
Definition wild0 (_ : f64) : Z := 0.

Lemma received_event_not_recorded_witness :
  let e := build_event 100 node_a (ev_ParentIDs remote_event) (ev_Data remote_event) dag_net in
  let '(g', d') := processReceivedEvent wild0 100 [node_a; node_b] node_a
    (next (store dag2)) gossip2 dag_net in
  find_event d' (ev_ID e) = Some e ∧ ev_Creator e = node_a ∧
  find_event d' (ev_ID remote_event) = None ∧
  peers g' = broadcast_loop (next (store dag2)) node_a [node_a; node_b] (peers gossip2).
Proof.
  apply (received_event_not_recorded wild0 100 [node_a; node_b] node_a (next (store dag2))
    remote_event gossip2 dag_net).
  - by apply deliver_wf, dag2_ok.
  - unfold event_at, dag_net, deliver, alloc. cbn [store objs snd]. by rewrite lookup_insert_eq.
  - by vm_compute.
  - intros Heq. apply (f_equal (λ b, bool_decide (b = ev_ID remote_event))) in Heq.
    by vm_compute in Heq.
Defined.

(** [Stop] cancels the context for good: every loop started later ends at
    its first turn, for old and new peers. *)
Example no_restart wild now order p q g d :
  gossip_turn wild now order p (AddPeer q (Stop g)) d = (Exits, AddPeer q (Stop g), d).
Proof.
  unfold gossip_turn, AddPeer. cbn [Stop peers]. by destruct (peers g !! q).
Qed.
