(* ===== verification/Lachesis.v ===== *)
(** * Lachesis: src/consensus/diamantefinality/lachesis.go

    The coordinator of the DAG, gossip, voting and finalization.  Finality is
    decided in two places: [ProcessEvent] asks the vote and the finalizer,
    the periodic [processEvents] uses [detectFinality].  Goroutines are
    modelled by the call they make; map iteration orders are arguments. *)
From Stdlib Require Import ZArith Lia SpecFloat.
From Stdlib Require Import Strings.Byte Strings.String.
From stdpp Require Import numbers prelude gmap strings relations.
From S2P Require Import Prelude GoFloat Bytes Maps Common Bfs Dag Voting Finalizer Gossip.
Open Scope Z_scope.

Record Lachesis := mkLachesis {
  lc_dag : DAG;
  lc_gossip : GossipProtocol;
  lc_voting : VirtualVoting;
  lc_finalizer : Finalizer;
  gossipDelay : Z;
  votingThreshold : f64;
  lc_networkLoad : f64;
  pendingEvents : list loc;
  finalizedEvents : gmap Z (list loc);
  running : bool;
  activeProposals : gmap bytes32 string }.

Inductive LachesisError :=
| ErrInvalidTransition (current new : string)
| ErrAlreadyRunning
| ErrNotRunning
| ErrLachesisUnmarshal
| ErrRestoreDAG (e : DagError)
| ErrRestoreGossip (e : GossipError)
| ErrRestoreVoting (e : VotingError)
| ErrRestoreFinalizer (e : FinalizerError)
| ErrInvalidEventID (s : string)
| ErrMissingEvent (s : string).

Definition NewLachesis (delay : Z) : Lachesis :=
  mkLachesis NewDAG (NewGossipProtocol delay) NewVirtualVoting NewFinalizer delay (f_lit 66 2)
    f_zero [] ∅ false ∅.

Definition with_dag (d : DAG) (l : Lachesis) : Lachesis :=
  mkLachesis d (lc_gossip l) (lc_voting l) (lc_finalizer l) (gossipDelay l) (votingThreshold l)
    (lc_networkLoad l) (pendingEvents l) (finalizedEvents l) (running l) (activeProposals l).
Definition with_gossip (g : GossipProtocol) (l : Lachesis) : Lachesis :=
  mkLachesis (lc_dag l) g (lc_voting l) (lc_finalizer l) (gossipDelay l) (votingThreshold l)
    (lc_networkLoad l) (pendingEvents l) (finalizedEvents l) (running l) (activeProposals l).
Definition with_finalizer (f : Finalizer) (l : Lachesis) : Lachesis :=
  mkLachesis (lc_dag l) (lc_gossip l) (lc_voting l) f (gossipDelay l) (votingThreshold l)
    (lc_networkLoad l) (pendingEvents l) (finalizedEvents l) (running l) (activeProposals l).
Definition with_pending (p : list loc) (l : Lachesis) : Lachesis :=
  mkLachesis (lc_dag l) (lc_gossip l) (lc_voting l) (lc_finalizer l) (gossipDelay l)
    (votingThreshold l) (lc_networkLoad l) p (finalizedEvents l) (running l) (activeProposals l).
Definition with_finalized (m : gmap Z (list loc)) (l : Lachesis) : Lachesis :=
  mkLachesis (lc_dag l) (lc_gossip l) (lc_voting l) (lc_finalizer l) (gossipDelay l)
    (votingThreshold l) (lc_networkLoad l) (pendingEvents l) m (running l) (activeProposals l).
Definition with_running (b : bool) (ps : gmap bytes32 string) (l : Lachesis) : Lachesis :=
  mkLachesis (lc_dag l) (lc_gossip l) (lc_voting l) (lc_finalizer l) (gossipDelay l)
    (votingThreshold l) (lc_networkLoad l) (pendingEvents l) (finalizedEvents l) b ps.

(** ** Configuration *)

Section config.
Variable wild_int : f64 → Z.

Definition SetGossipDelay (delay : Z) (l : Lachesis) : Lachesis :=
  mkLachesis (lc_dag l) (SetBaseDelay wild_int delay (lc_gossip l)) (lc_voting l)
    (lc_finalizer l) delay (votingThreshold l) (lc_networkLoad l) (pendingEvents l)
    (finalizedEvents l) (running l) (activeProposals l).

Definition AdjustNetworkLoad (adjustment : f64) (l : Lachesis) : Lachesis :=
  let newLoad := f_max f_zero (f_min f_one (f_add (lc_networkLoad l) adjustment)) in
  mkLachesis (lc_dag l) (UpdateNetworkLoad wild_int newLoad (lc_gossip l)) (lc_voting l)
    (lc_finalizer l) (gossipDelay l) (votingThreshold l) newLoad (pendingEvents l)
    (finalizedEvents l) (running l) (activeProposals l).
End config.

Definition GetGossipDelay (l : Lachesis) : Z := gossipDelay l.
Definition GetNetworkLoad (l : Lachesis) : f64 := lc_networkLoad l.
Definition GetVotingThreshold (l : Lachesis) : f64 := votingThreshold l.

(** The threshold is recorded even when [VirtualVoting] refuses it. *)
Definition SetVotingThreshold (t : f64) (l : Lachesis) : Lachesis :=
  mkLachesis (lc_dag l) (lc_gossip l) (SetThreshold t (lc_voting l)) (lc_finalizer l)
    (gossipDelay l) t (lc_networkLoad l) (pendingEvents l) (finalizedEvents l) (running l)
    (activeProposals l).

(** ** Nodes *)

Definition AddNode (nodeID : bytes32) (stake : Z) (l : Lachesis) : Lachesis :=
  with_gossip (AddPeer nodeID (lc_gossip l)) (with_dag (Dag.AddNode nodeID stake (lc_dag l)) l).

(** The error of the DAG is dropped; [RecalculateWeights] does nothing. *)
Definition UpdateNodeStake (nodeID : bytes32) (newStake : Z) (l : Lachesis) : Lachesis :=
  with_dag (Dag.UpdateNodeStake nodeID newStake (lc_dag l)).1 l.

Definition GetDAGState (l : Lachesis) : gmap bytes32 loc := GetEvents (lc_dag l).
Definition GetActiveNodes (order : list bytes32) (l : Lachesis) : list bytes32 :=
  Dag.GetActiveNodes order (lc_dag l).

(** ** Events *)

(** [None] is the nil event.  The goroutine it spawns calls
    [ProcessEvent]. *)
Definition CreateEvent (now : Z) (creator : bytes32) (parentIDs : list bytes32)
    (data : list byte) (l : Lachesis) : Lachesis * option loc :=
  match NewEvent now creator parentIDs data (lc_dag l) with
  | (_, Err _) => (l, None)
  | (d, Ok e) => (with_pending (pendingEvents l ++ [e]) (with_dag d l), Some e)
  end.

Definition addFinalizedEvent (e : loc) (height : Z) (l : Lachesis) : Lachesis :=
  with_finalized (<[height := default [] (finalizedEvents l !! height) ++ [e]]>
    (finalizedEvents l)) l.

(** [o1], [o2]: the iteration orders of the vote here and of the one in the
    finalizer.  [None]: a nil event. *)
Definition ProcessEvent (oT1 oA1 oT2 oA2 : gmap bytes32 Node → list bytes32) (ev : loc)
    (l : Lachesis) : option (Lachesis * bool) :=
  e ← event_at (lc_dag l) ev;
  if negb (IsActiveValidator (ev_Creator e) (lc_dag l)) then Some (l, false)
  else if negb (vote (mkOrdered (lc_voting l) oT1 oA1) (lc_dag l) e) then Some (l, false)
  else
    '(f, d, r) ← Finalize (mkOrdered (lc_voting l) oT2 oA2) ev (lc_finalizer l) (lc_dag l);
    let l := with_finalizer f (with_dag d l) in
    match r with
    | Ok true => Some (addFinalizedEvent ev (ev_Height e) l, true)
    | _ => Some (l, false)
    end.

Definition AddPendingEvent (e : loc) (l : Lachesis) : Lachesis :=
  with_pending (pendingEvents l ++ [e]) l.
Definition GetPendingEvents (l : Lachesis) : list loc := pendingEvents l.
Definition ClearPendingEvents (l : Lachesis) : Lachesis := with_pending [] l.

(** The loop [for h := from; h <= to; h++]; [None] when the fuel runs
    out. *)
Fixpoint collect (fuel : nat) (h to : Z) (m : gmap Z (list loc)) (acc : list loc) :
    option (list loc) :=
  match fuel with
  | O => None
  | S fuel =>
      if to <? h then Some acc
      else collect fuel (uadd h 1) to m (acc ++ default [] (m !! h))
  end.
Definition GetFinalizedEvents (fuel : nat) (fromHeight toHeight : Z) (l : Lachesis) :
    option (list loc) := collect fuel fromHeight toHeight (finalizedEvents l) [].

(** ** The second finality test *)

Fixpoint detect_loop (d : DAG) (e : Event) (required totalWeight remaining : f64)
    (nodes : list bytes32) : bool :=
  match nodes with
  | [] => false
  | nid :: nodes =>
      match Nodes d !! nid with
      | None => detect_loop d e required totalWeight remaining nodes
      | Some node =>
          if negb (nd_Active node) then detect_loop d e required totalWeight remaining nodes
          else
            let stk := f_of_Z (nd_Stake node) in
            let remaining := f_sub remaining stk in
            let seen := HasSeen nid d (Some e) in
            let weight := if seen then f_add totalWeight stk else totalWeight in
            if seen && f_ge weight required then true
            else if f_lt (f_add weight remaining) required then false
            else detect_loop d e required weight remaining nodes
      end
  end.

Definition detectFinality (oA oT : list bytes32) (e : Event) (l : Lachesis) : bool :=
  let activeNodes := Dag.GetActiveNodes oA (lc_dag l) in
  let totalStake := GetTotalStake oT (lc_dag l) in
  let requiredWeight := f_mul (f_of_Z totalStake) (votingThreshold l) in
  detect_loop (lc_dag l) e requiredWeight f_zero (f_of_Z totalStake) activeNodes.

Fixpoint process_loop (oA oT : loc → list bytes32) (evs : list loc) (l : Lachesis) : Lachesis :=
  match evs with
  | [] => l
  | ev :: evs =>
      match event_at (lc_dag l) ev with
      | None => process_loop oA oT evs l
      | Some e =>
          if detectFinality (oA ev) (oT ev) e l
          then process_loop oA oT evs
                 (with_dag (mark_finalized ev (lc_dag l)) (addFinalizedEvent ev (ev_Height e) l))
          else process_loop oA oT evs l
      end
  end.

(** One tick of [runConsensus]. *)
Definition processEvents (order : list bytes32) (oA oT : loc → list bytes32) (l : Lachesis) :
    Lachesis := process_loop oA oT (GetUnfinalizedEvents order (lc_dag l)) l.

(** ** Proposals *)

Definition isValidStateTransition (current new : string) : bool :=
  if bool_decide (current = "pending"%string) then bool_decide (new = "active"%string)
  else if bool_decide (current = "active"%string)
  then bool_decide (new = "passed"%string) || bool_decide (new = "rejected"%string)
  else if bool_decide (current = "passed"%string) then bool_decide (new = "executed"%string)
  else false.

Definition UpdateProposalState (proposalID : bytes32) (current new : string) (l : Lachesis) :
    Lachesis * result LachesisError () :=
  if negb (isValidStateTransition current new) then (l, Err (ErrInvalidTransition current new))
  else (with_running (running l) (<[proposalID := new]> (activeProposals l)) l, Ok ()).

(** ** Lifecycle *)

Definition Start (l : Lachesis) : Lachesis * result LachesisError () :=
  if running l then (l, Err ErrAlreadyRunning) else (with_running true ∅ l, Ok ()).

Definition Stop (l : Lachesis) : Lachesis * result LachesisError () :=
  if negb (running l) then (l, Err ErrNotRunning)
  else (with_gossip (Gossip.Stop (lc_gossip l)) (with_running false (activeProposals l) l), Ok ()).

Definition ForceSync (ids : list bytes32) (order : bytes32 → list bytes32) (l : Lachesis) :
    Lachesis := with_gossip (ForceSyncAll ids order (lc_dag l) (lc_gossip l)) l.

(** ** Serialised state *)

Record lachesis_state := mkLachesisState {
  ls_dag : list byte;
  ls_gossip : list byte;
  ls_voting : list byte;
  ls_finalizer : list byte;
  ls_finalized : gmap Z (list string) }.

(** The identifiers of the events in a list; a dangling pointer panics in
    the code and is skipped here, no reachable list holds one. *)
Definition ids_of (d : DAG) (ls : list loc) : list string :=
  omap (λ k, e ← event_at d k; Some (byteArrayToString (ev_ID e))) ls.

(** The inner loop of the restore, over the identifiers of one height. *)
Fixpoint restore_ids (d : DAG) (ids : list string) (acc : list loc) :
    list loc * result LachesisError () :=
  match ids with
  | [] => (acc, Ok ())
  | s :: ids =>
      match stringToByteArray s with
      | None => (acc, Err (ErrInvalidEventID s))
      | Some id =>
          match GetEvent id d with
          | Err _ => (acc, Err (ErrMissingEvent s))
          | Ok k => restore_ids d ids (acc ++ [k])
          end
      end
  end.

Fixpoint restore_heights (d : DAG) (hs : list Z) (s : gmap Z (list string))
    (m : gmap Z (list loc)) : gmap Z (list loc) * result LachesisError () :=
  match hs with
  | [] => (m, Ok ())
  | h :: hs =>
      match s !! h with
      | None => restore_heights d hs s m
      | Some ids =>
          let '(acc, r) := restore_ids d ids (default [] (m !! h)) in
          let m := match acc with [] => m | _ => <[h := acc]> m end in
          match r with
          | Err e => (m, Err e)
          | Ok _ => restore_heights d hs s m
          end
      end
  end.

(** The codecs of the five JSON documents. *)
Record codecs := mkCodecs {
  enc_dag : dag_state → list byte; dec_dag : list byte → option dag_state;
  enc_gossip : gossip_state → list byte; dec_gossip : list byte → option gossip_state;
  enc_voting : f64 → list byte; dec_voting : list byte → option f64;
  enc_finalizer : finalizer_state → list byte;
  dec_finalizer : list byte → option finalizer_state;
  enc_lachesis : lachesis_state → list byte;
  dec_lachesis : list byte → option lachesis_state }.

Definition GetState (c : codecs) (l : Lachesis) : list byte :=
  enc_lachesis c
    (mkLachesisState (Dag.GetState (enc_dag c) (lc_dag l))
       (Gossip.GetState (enc_gossip c) (lc_gossip l))
       (Voting.GetState (enc_voting c) (lc_voting l))
       (Finalizer.GetState (enc_finalizer c) (lc_finalizer l) (lc_dag l))
       (ids_of (lc_dag l) <$> finalizedEvents l)).

(** The iterations over the decoded maps. *)
Record restore_orders := mkOrders {
  ro_nodes : list string; ro_events : list string; ro_peers : list string;
  ro_final : list string; ro_checkpoints : list Z; ro_heights : list Z }.

Definition with_voting (v : VirtualVoting) (l : Lachesis) : Lachesis :=
  mkLachesis (lc_dag l) (lc_gossip l) v (lc_finalizer l) (gossipDelay l) (votingThreshold l)
    (lc_networkLoad l) (pendingEvents l) (finalizedEvents l) (running l) (activeProposals l).

(** An error leaves the parts restored before it. *)
Definition RestoreState (c : codecs) (o : restore_orders) (stateData : list byte)
    (l : Lachesis) : Lachesis * result LachesisError () :=
  match dec_lachesis c stateData with
  | None => (l, Err ErrLachesisUnmarshal)
  | Some s =>
      match Dag.RestoreState (dec_dag c) (ro_nodes o) (ro_events o) (ls_dag s) (lc_dag l) with
      | (d, Err e) => (with_dag d l, Err (ErrRestoreDAG e))
      | (d, Ok _) =>
          let l := with_dag d l in
          match Gossip.RestoreState (dec_gossip c) (ro_peers o) (ls_gossip s) (lc_gossip l) with
          | (g, Err e) => (with_gossip g l, Err (ErrRestoreGossip e))
          | (g, Ok _) =>
              let l := with_gossip g l in
              match Voting.RestoreState (dec_voting c) (ls_voting s) (lc_voting l) with
              | (v, Err e) => (with_voting v l, Err (ErrRestoreVoting e))
              | (v, Ok _) =>
                  let l := with_voting v l in
                  match Finalizer.RestoreState (dec_finalizer c) (ro_final o) (ro_checkpoints o)
                          (ls_finalizer s) (lc_finalizer l) (lc_dag l) with
                  | (f, d, Err e) => (with_finalizer f (with_dag d l), Err (ErrRestoreFinalizer e))
                  | (f, d, Ok _) =>
                      let l := with_finalizer f (with_dag d l) in
                      let '(m, r) := restore_heights d (ro_heights o) (ls_finalized s) ∅ in
                      (with_finalized m l, r)
                  end
              end
          end
      end
  end.

(** * Facts *)

(** ** The two finality tests *)

Section detection.
Variable d : DAG.
Variable e : Event.
Hypothesis Hw : dag_wf d.
Hypothesis Hs : stake_ok d.

(** The stake of the active nodes that have seen the event. *)
Definition seer_stake (n : Node) : Z :=
  if nd_Active n && HasSeen (nd_ID n) d (Some e) then nd_Stake n else 0.

Lemma seer_stake_pos id n : Nodes d !! id = Some n → 0 ≤ seer_stake n ≤ active_stake n.
Proof.
  intros Hn. destruct Hs as [H0 _]. specialize (H0 id n Hn). unfold seer_stake, active_stake.
  destruct (nd_Active n); cbn [andb]; [destruct (HasSeen _ _ _)|]; lia.
Qed.

Lemma lsum_le (f g : Node → Z) l : (∀ id n, Nodes d !! id = Some n → 0 ≤ f n ≤ g n) →
  0 ≤ lsum d f l ≤ lsum d g l.
Proof.
  intros Hfg. induction l as [|id l IH]; [done|]. destruct (Nodes d !! id) as [n|] eqn:Hn.
  - rewrite !(lsum_cons _ _ _ _ _ Hn). specialize (Hfg id n Hn). lia.
  - unfold lsum in *. by rewrite !visit_cons, Hn.
Qed.

Lemma detect_loop_spec r l : f_is_nan r = false →
  (∀ id, id ∈ l → ∃ n, Nodes d !! id = Some n ∧ nd_Active n = true) → ∀ w rem, 0 ≤ w →
  w + rem < 9007199254740992 → lsum d active_stake l ≤ rem →
  f_ge (f_of_Z w) r = false →
  detect_loop d e r (f_of_Z w) (f_of_Z rem) l = f_ge (f_of_Z (w + lsum d seer_stake l)) r.
Proof.
  intros Hr. induction l as [|id l IH]; intros Hin w rem Hw0 Hb Hrem Hlt.
  { unfold lsum. cbn. by rewrite Z.add_0_r, Hlt. }
  destruct (Hin id) as (n & Hn & Ha); [by left|].
  pose proof (lsum_le seer_stake active_stake l seer_stake_pos) as Hl.
  destruct (seer_stake_pos id n Hn) as [Hv0 Hv1].
  rewrite !(lsum_cons _ _ _ _ _ Hn) in *. cbn [detect_loop]. rewrite Hn, Ha. cbn [negb].
  destruct (dw_node d Hw _ _ Hn) as [Hid _].
  assert (active_stake n = nd_Stake n) as Has by (unfold active_stake; by rewrite Ha).
  assert (seer_stake n = if HasSeen id d (Some e) then nd_Stake n else 0) as Hss
    by (unfold seer_stake; by rewrite Ha, Hid).
  assert (∀ id, id ∈ l → ∃ n, Nodes d !! id = Some n ∧ nd_Active n = true) as Hin'.
  { intros j Hj. apply Hin. by right. }
  rewrite f_sub_exact by (unfold exact_int; lia).
  assert (∀ w', w' = w + seer_stake n → f_ge (f_of_Z w') r = false →
    (if f_lt (f_add (f_of_Z w') (f_of_Z (rem - nd_Stake n))) r then false
     else detect_loop d e r (f_of_Z w') (f_of_Z (rem - nd_Stake n)) l)
    = f_ge (f_of_Z (w + (seer_stake n + lsum d seer_stake l))) r) as Hrest.
  { intros w' -> Hge. rewrite f_add_exact by (unfold exact_int; lia).
    destruct (f_lt (f_of_Z (w + seer_stake n + (rem - nd_Stake n))) r) eqn:Hcut.
    - symmetry. apply not_true_is_false. intros Hge2.
      assert (f_ge (f_of_Z (w + seer_stake n + (rem - nd_Stake n))) r = true) as Hge3.
      { apply (f_ge_mono (w + (seer_stake n + lsum d seer_stake l)));
          (done || unfold exact_int; lia). }
      apply f_ge_not_lt in Hge3. congruence.
    - rewrite IH; [f_equal; f_equal; lia|done|lia|lia|lia|done]. }
  destruct (HasSeen id d (Some e)); cbn [andb].
  - rewrite f_add_exact by (unfold exact_int; lia).
    destruct (f_ge (f_of_Z (w + nd_Stake n)) r) eqn:Hge.
    + symmetry. apply (f_ge_mono (w + nd_Stake n)); (done || unfold exact_int; lia).
    + apply Hrest; [lia|done].
  - apply Hrest; [lia|done].
Qed.

Lemma seer_support : IsActiveValidator (ev_Creator e) d = true →
  msum seer_stake (Nodes d) = support d e.
Proof.
  unfold IsActiveValidator, support, creator_stake.
  destruct (Nodes d !! ev_Creator e) as [n|] eqn:Hn; [|done]. intros Ha.
  rewrite <- (insert_delete_id _ _ _ Hn) at 1.
  rewrite <- (insert_delete_id (Nodes d) _ _ Hn) at 2.
  rewrite !msum_insert_new by apply lookup_delete_eq.
  destruct (dw_node d Hw _ _ Hn) as [Hid _].
  assert (seer_stake n = nd_Stake n) as ->.
  { unfold seer_stake, HasSeen. rewrite Ha, Hid. by rewrite bool_decide_eq_true_2. }
  assert (voter_stake d e n = 0) as ->.
  { unfold voter_stake. rewrite Ha, Hid. by rewrite bool_decide_eq_true_2. }
  f_equal. rewrite Z.add_0_l.
  rewrite <- !(msum_order _ _ _ (iter_order_default _)), !visit_default.
  apply zsum_fmap_ext. intros m ([k m'] & -> & Hm)%list_elem_of_fmap.
  apply elem_of_map_to_list, lookup_delete_Some in Hm as [Hne Hm]. cbn [snd].
  destruct (dw_node d Hw _ _ Hm) as [Hmid _]. unfold seer_stake, voter_stake. rewrite Hmid.
  rewrite bool_decide_eq_false_2 by done. by rewrite andb_true_r.
Qed.
End detection.

Lemma detectFinality_spec oA oT e l : dag_wf (lc_dag l) → stake_ok (lc_dag l) →
  iter_order (Nodes (lc_dag l)) oA → iter_order (Nodes (lc_dag l)) oT →
  let required := f_mul (f_of_Z (msum active_stake (Nodes (lc_dag l)))) (votingThreshold l) in
  f_lt f_zero required = true →
  detectFinality oA oT e l
    = f_ge (f_of_Z (msum (seer_stake (lc_dag l) e) (Nodes (lc_dag l)))) required.
Proof.
  intros Hw Hs HoA HoT required Hpos. unfold detectFinality.
  rewrite (GetTotalStake_spec _ oT Hs HoT). fold required.
  set (d := lc_dag l) in *.
  assert (f_is_nan required = false) as Hr by (by destruct required).
  assert (∀ f, (∀ id n, Nodes d !! id = Some n → nd_Active n = false → f n = 0) →
    lsum d f (Dag.GetActiveNodes oA d) = msum f (Nodes d)) as Hl.
  { intros f Hf. rewrite lsum_active by done. unfold lsum. by apply msum_order. }
  assert (0 ≤ msum active_stake (Nodes d) ≤ msum nd_Stake (Nodes d)) as Hb.
  { rewrite <- !(msum_order _ _ _ HoA).
    apply (lsum_le d active_stake nd_Stake). intros id n Hn. destruct Hs as [H0 _].
    specialize (H0 id n Hn). unfold active_stake. destruct (nd_Active n); lia. }
  rewrite <- f_of_Z_0. rewrite (detect_loop_spec d e Hw Hs required).
  - rewrite Z.add_0_l, Hl; [done|]. intros id n _ Ha. unfold seer_stake. by rewrite Ha.
  - done.
  - apply active_nodes_in.
  - lia.
  - destruct Hs. lia.
  - rewrite Hl; [lia|]. intros id n _ Ha. unfold active_stake. by rewrite Ha.
  - rewrite f_of_Z_0. by apply f_ge_zero.
Qed.

(** ** Events only grow *)

(** The event objects of [d] are still there, at most marked. *)
Definition grows (d d' : DAG) : Prop :=
  ∀ k e, event_at d k = Some e → ∃ e', event_at d' k = Some e' ∧ same_event e e'.

#[export] Instance grows_preorder : PreOrder grows.
Proof.
  split.
  - intros d k e He. exists e. split; [done|by left].
  - intros a b c Hab Hbc k e He. destruct (Hab k e He) as (x & Hx & Hex).
    destruct (Hbc k x Hx) as (y & Hy & Hxy). exists y. split; [done|].
    unfold same_event in *. destruct Hex as [->| ->], Hxy as [->| ->]; auto.
Qed.

(** A well-formed DAG that extends another. *)
Definition extends (d d' : DAG) : Prop := dag_wf d' ∧ grows d d'.

Lemma extends_store d d' : dag_wf d' → store d' = store d → extends d d'.
Proof.
  intros Hw Hs. split; [done|]. intros k e He. exists e. split; [|by left].
  by unfold event_at; rewrite Hs.
Qed.

Lemma AddNode_extends id stake d : dag_wf d → extends d (Dag.AddNode id stake d).
Proof.
  intros Hw. pose proof (AddNode_updates id stake d Hw) as Hu. apply extends_store.
  - by eapply updates_node_wf.
  - by destruct Hu as (? & ? & _ & _ & ? & _).
Qed.

Lemma UpdateNodeStake_extends id stake d : dag_wf d →
  extends d (Dag.UpdateNodeStake id stake d).1.
Proof.
  intros Hw. destruct (UpdateNodeStake_updates id stake d Hw) as [Hu| ->]; [|by apply extends_store].
  apply extends_store; [by eapply updates_node_wf|]. by destruct Hu as (? & ? & _ & _ & ? & _).
Qed.

Lemma new_height_u64 d ps : is_u64 (new_height d ps).
Proof. destruct ps; [done|apply u64_range]. Qed.

Lemma NewEvent_extends now creator ps data d : dag_wf d →
  extends d (NewEvent now creator ps data d).1.
Proof.
  intros Hw. unfold NewEvent. destruct (Nodes d !! creator) as [n|] eqn:Hn; [|by apply extends_store].
  destruct (nd_Active n); cbn [negb]; [|by apply extends_store].
  destruct (add_event _ n d) as [d' l] eqn:Ha. split.
  - apply (add_event_wf _ n _ _ _ Hw) in Ha; [done|done|]. apply new_height_u64.
  - unfold add_event, alloc in Ha. injection Ha as <- <-. intros k e He. exists e.
    split; [|by left]. unfold event_at. cbn. pose proof (dw_fresh d Hw k (mk_is_Some _ _ He)).
    by rewrite lookup_insert_ne by (intros <-; lia).
Qed.

Lemma mark_extends k d : dag_wf d → extends d (mark_finalized k d).
Proof.
  intros Hw. split; [by apply mark_wf|]. intros j e He. rewrite mark_event_at, He.
  case_decide; eexists; (split; [done|]); [by right|by left].
Qed.

Lemma deliver_extends e d : dag_wf d → extends d (deliver e d).
Proof.
  intros Hw. split; [by apply deliver_wf|]. intros k x Hx. exists x. split; [|by left].
  unfold event_at, deliver, alloc. cbn. pose proof (dw_fresh d Hw k (mk_is_Some _ _ Hx)).
  by rewrite lookup_insert_ne by (intros <-; lia).
Qed.

Lemma extends_trans a b c : extends a b → extends b c → extends a c.
Proof. intros [_ ?] [? ?]. split; [done|by etrans]. Qed.

Lemma gossip_turn_extends wild now order id g d t g' d' : dag_wf d →
  gossip_turn wild now order id g d = (t, g', d') → extends d d'.
Proof.
  intros Hw. assert (extends d d) as Hr by by apply extends_store. unfold gossip_turn.
  repeat case_match; intros [= <- <- <-]; try done.
  match goal with H : processReceivedEvent _ _ _ _ _ _ _ = _ |- _ => revert H end.
  unfold processReceivedEvent. destruct (event_at d _) as [ev|]; [|by intros [= <- <-]].
  destruct (GetEvent (ev_ID ev) d); [by intros [= <- <-]|].
  set (d1 := if negb _ then _ else _).
  assert (extends d d1) as Hx by (unfold d1; case_match; [by apply AddNode_extends|done]).
  pose proof (NewEvent_extends now id (ev_ParentIDs ev) (ev_Data ev) d1 (proj1 Hx)) as Hy.
  destruct (NewEvent _ _ _ _ d1) as [d2 [?|?]]; intros [= <- <-]; by eapply extends_trans.
Qed.

(** ** The store alone *)

(** Objects are added with fresh pointers and marked, whatever the DAG says
    of them: what every operation does, [RestoreState] of any bytes too. *)
Definition heap_grows (d d' : DAG) : Prop :=
  heap_fresh (store d) → heap_fresh (store d') ∧ grows d d'.

#[export] Instance heap_grows_preorder : PreOrder heap_grows.
Proof.
  split; [intros d Hf; by split|]. intros a b c Hab Hbc Ha. destruct (Hab Ha) as [Hb Gab].
  destruct (Hbc Hb) as [Hc Gbc]. split; [done|by etrans].
Qed.

Lemma heap_grows_store d d' : store d' = store d → heap_grows d d'.
Proof.
  intros Hs Hf. rewrite Hs. split; [done|]. intros k e He. exists e. split; [|by left].
  by unfold event_at; rewrite Hs.
Qed.

Lemma heap_grows_le d d' : (heap_fresh (store d) → heap_fresh (store d') ∧ heap_le (store d) (store d')) →
  heap_grows d d'.
Proof.
  intros H Hf. destruct (H Hf) as [Hf' Hle]. split; [done|]. intros k e He. exists e.
  split; [|by left]. exact (lookup_weaken _ _ _ _ He Hle).
Qed.

Lemma alloc_grows e h d d' : store d = h → store d' = (alloc e h).2 → heap_grows d d'.
Proof.
  intros <- Hs. apply heap_grows_le. intros Hf. rewrite Hs.
  destruct (alloc e (store d)) as [l h] eqn:Ha. by destruct (alloc_spec _ _ _ _ Hf Ha) as (? & ? & _).
Qed.

Lemma alloc_list_grows es d d' : store d' = (alloc_list es (store d)).2 → heap_grows d d'.
Proof.
  intros Hs. apply heap_grows_le. intros Hf. rewrite Hs.
  destruct (alloc_list es (store d)) as [l h] eqn:Ha.
  by destruct (alloc_list_spec _ _ _ _ Hf Ha) as (? & ? & _).
Qed.

Lemma mark_grows k d : heap_grows d (mark_finalized k d).
Proof.
  intros Hf. split.
  - intros l. cbn. rewrite lookup_alter_is_Some. apply Hf.
  - intros j e He. rewrite mark_event_at, He. case_decide; eexists; (split; [done|]); [by right|by left].
Qed.

Lemma AddNode_grows id stake d : heap_grows d (Dag.AddNode id stake d).
Proof. apply heap_grows_store. unfold Dag.AddNode. by case_match. Qed.

Lemma NewEvent_grows now creator ps data d : heap_grows d (NewEvent now creator ps data d).1.
Proof.
  unfold NewEvent. destruct (Nodes d !! creator) as [n|]; [|done]. destruct (negb _); [done|].
  by eapply alloc_grows.
Qed.

Lemma gossip_turn_grows wild now order id g d t g' d' :
  gossip_turn wild now order id g d = (t, g', d') → heap_grows d d'.
Proof.
  unfold gossip_turn. repeat case_match; intros [= <- <- <-]; try done.
  match goal with H : processReceivedEvent _ _ _ _ _ _ _ = _ |- _ => revert H end.
  unfold processReceivedEvent. destruct (event_at d _) as [ev|]; [|by intros [= <- <-]].
  destruct (GetEvent (ev_ID ev) d); [by intros [= <- <-]|].
  set (d1 := if negb _ then _ else _).
  assert (heap_grows d d1) as Hx by (unfold d1; case_match; [apply AddNode_grows|done]).
  pose proof (NewEvent_grows now id (ev_ParentIDs ev) (ev_Data ev) d1) as Hy.
  destruct (NewEvent _ _ _ _ d1) as [d2 [?|?]]; intros [= <- <-]; by etrans.
Qed.

Lemma restore_nodes_grows keys s : ∀ d, heap_grows d (restore_nodes keys s d).1.
Proof.
  induction keys as [|k keys IH]; intros d; [done|]. cbn [restore_nodes].
  destruct (ds_nodes s !! k) as [ns|]; [|apply IH]. destruct (stringToByteArray k); [|done].
  destruct (alloc_list (ns_Events ns) (store d)) as [ls h] eqn:Ha.
  etrans; [|apply IH]. apply (alloc_list_grows (ns_Events ns)). by rewrite Ha.
Qed.

Lemma restore_events_grows keys s : ∀ d, heap_grows d (restore_events keys s d).1.
Proof.
  induction keys as [|k keys IH]; intros d; [done|]. cbn [restore_events].
  destruct (ds_events s !! k) as [e|]; [|apply IH]. destruct (stringToByteArray k); [|done].
  destruct (alloc e (store d)) as [l h] eqn:Ha. etrans; [|apply IH].
  apply (alloc_grows e (store d)); [done|]. by rewrite Ha.
Qed.

Lemma restore_checkpoints_grows keys s : ∀ m d d',
  store d' = (restore_checkpoints keys s m (store d)).2 → heap_grows d d'.
Proof.
  induction keys as [|k keys IH]; intros m d d'; cbn [restore_checkpoints].
  { by apply heap_grows_store. }
  destruct (s !! k) as [e|]; [|by apply IH].
  destruct (alloc e (store d)) as [l h] eqn:Ha. intros Hd'.
  transitivity (mkDAG (Nodes d) (Dag.Events d) (MaxHeight d) h).
  - apply (alloc_grows e (store d)); [done|]. by rewrite Ha.
  - by eapply IH.
Qed.

Lemma Dag_RestoreState_grows dec o1 o2 data d : heap_grows d (Dag.RestoreState dec o1 o2 data d).1.
Proof.
  unfold Dag.RestoreState. destruct (dec data) as [s|]; [|done].
  set (d0 := mkDAG ∅ _ _ _). pose proof (restore_nodes_grows o1 s d0) as H1.
  destruct (restore_nodes o1 s d0) as [d1 [[]|]]; cbn [fst] in H1.
  2: { etrans; [by apply (heap_grows_store d d0)|exact H1]. }
  set (d2 := mkDAG (Nodes d1) ∅ _ _). pose proof (restore_events_grows o2 s d2) as H2.
  assert (heap_grows d d2) as Hd2 by (by etrans; [apply (heap_grows_store d d0)|
    etrans; [exact H1|apply heap_grows_store]]).
  destruct (restore_events o2 s d2) as [d3 [[]|]]; cbn [fst] in *; [|by etrans].
  etrans; [exact Hd2|]. etrans; [exact H2|by apply heap_grows_store].
Qed.

Lemma RestoreState_grows c o data l : heap_grows (lc_dag l) (lc_dag (RestoreState c o data l).1).
Proof.
  unfold RestoreState. destruct (dec_lachesis c data) as [s|]; [|done].
  pose proof (Dag_RestoreState_grows (dec_dag c) (ro_nodes o) (ro_events o) (ls_dag s) (lc_dag l)) as H1.
  destruct (Dag.RestoreState _ _ _ _ _) as [d [[]|]]; cbn [fst] in H1; [|exact H1].
  cbn zeta. destruct (Gossip.RestoreState _ _ _ _) as [g [[]|]]; [|exact H1].
  destruct (Voting.RestoreState _ _ _) as [v [[]|]]; [|exact H1].
  unfold Finalizer.RestoreState. destruct (dec_finalizer c _) as [fs|]; [|exact H1].
  destruct (restore_finalized _ _ _) as [fin|]; [|exact H1].
  destruct (restore_checkpoints _ _ _ _) as [cp h] eqn:Hc.
  destruct (restore_heights _ _ _ _) as [m r]. etrans; [exact H1|].
  apply (restore_checkpoints_grows (ro_checkpoints o) (fs_checkpoints fs) ∅).
  cbn in Hc |- *. by rewrite Hc.
Qed.

(** ** The list of finalized events *)

(** Every event listed under a height has that height and is final: marked,
    or known to the finalizer. *)
Definition listed_final (l : Lachesis) : Prop :=
  ∀ h ks k, finalizedEvents l !! h = Some ks → k ∈ ks →
    ∃ e, event_at (lc_dag l) k = Some e ∧ ev_Height e = h ∧
      (ev_Finalized e = true ∨ IsFinalized (ev_ID e) (lc_finalizer l) = true).

Definition lachesis_inv (l : Lachesis) : Prop := dag_wf (lc_dag l) ∧ listed_final l.

(** A change of the state that keeps the list. *)
Definition keeps (l l' : Lachesis) : Prop :=
  extends (lc_dag l) (lc_dag l') ∧ finalizedEvents l' = finalizedEvents l ∧
  ∀ id, IsFinalized id (lc_finalizer l) = true → IsFinalized id (lc_finalizer l') = true.

Lemma keeps_inv l l' : keeps l l' → lachesis_inv l → lachesis_inv l'.
Proof.
  intros ([Hw Hg] & Hf & Hm) [_ Hl]. split; [done|]. intros h ks k. rewrite Hf. intros Hks Hk.
  destruct (Hl h ks k Hks Hk) as (e & He & Hh & Hfin). destruct (Hg k e He) as (e' & He' & Hs).
  exists e'. split; [done|]. destruct (same_event_core _ _ Hs) as (Hid & _).
  destruct Hs as [->| ->]; split; auto. destruct Hfin; auto.
Qed.

Lemma keeps_dag d l : extends (lc_dag l) d → keeps l (with_dag d l).
Proof. done. Qed.

Lemma addFinalizedEvent_inv k e l : event_at (lc_dag l) k = Some e →
  ev_Finalized e = true ∨ IsFinalized (ev_ID e) (lc_finalizer l) = true →
  lachesis_inv l → lachesis_inv (addFinalizedEvent k (ev_Height e) l).
Proof.
  intros He Hfin [Hw Hl]. split; [done|]. intros h ks j. unfold addFinalizedEvent. cbn.
  rewrite lookup_insert_Some. intros [[<- <-]|[_ Hks]] Hj; [|by eapply Hl].
  apply elem_of_app in Hj as [Hj|Hj].
  - destruct (finalizedEvents l !! ev_Height e) as [ks|] eqn:Hks;
      [by eapply Hl|by apply elem_of_nil in Hj].
  - apply list_elem_of_singleton in Hj as ->. by exists e.
Qed.

Lemma ProcessEvent_inv oT1 oA1 oT2 oA2 ev l l' b : 
  ProcessEvent oT1 oA1 oT2 oA2 ev l = Some (l', b) → lachesis_inv l → lachesis_inv l'.
Proof.
  unfold ProcessEvent. destruct (event_at (lc_dag l) ev) as [e|] eqn:He; [|done].
  cbn [mbind option_bind]. intros Hp Hi.
  destruct (IsActiveValidator _ _); cbn [negb] in Hp; [|by injection Hp as <- _].
  destruct (vote _ _ _); cbn [negb] in Hp; [|by injection Hp as <- _].
  unfold Finalize in Hp. rewrite He in Hp. cbn [mbind option_bind] in Hp.
  destruct (IsFinalized (ev_ID e) (lc_finalizer l)) eqn:Hfin; cbn [mbind option_bind] in Hp.
  { injection Hp as <- _.
    apply (addFinalizedEvent_inv ev e (with_finalizer _ (with_dag _ l))); [done|by right|].
    destruct Hi. by split. }
  destruct (vote _ _ _).
  - destruct (commit ev e (lc_finalizer l) (lc_dag l)) as [f d] eqn:Hc.
    cbn [mbind option_bind] in Hp. injection Hp as <- _.
    pose proof (commit_finalized _ _ _ _ _ _ Hc) as Hall. unfold commit in Hc.
    rewrite Hfin in Hc. injection Hc as <- <-.
    change (ev_Height e) with (ev_Height (set_Finalized e)).
    apply addFinalizedEvent_inv; [cbn; by rewrite mark_event_at, decide_True, He|by left|].
    eapply keeps_inv; [|exact Hi]. split_and!; [by apply mark_extends, Hi|done|].
    intros id Hid. cbn [lc_finalizer with_finalizer with_dag]. rewrite Hall. by case_decide.
  - cbn [mbind option_bind] in Hp. injection Hp as <- _. destruct Hi. by split.
Qed.

Lemma process_loop_inv oA oT evs : ∀ l, lachesis_inv l → lachesis_inv (process_loop oA oT evs l).
Proof.
  induction evs as [|ev evs IH]; intros l Hi; [done|]. cbn [process_loop].
  destruct (event_at (lc_dag l) ev) as [e|] eqn:He; [|by apply IH].
  destruct (detectFinality _ _ e l); [|by apply IH]. apply IH.
  change (lachesis_inv (addFinalizedEvent ev (ev_Height (set_Finalized e))
    (with_dag (mark_finalized ev (lc_dag l)) l))).
  apply addFinalizedEvent_inv; [by cbn; rewrite mark_event_at, decide_True, He|by left|].
  eapply keeps_inv; [|exact Hi]. apply keeps_dag, mark_extends, Hi.
Qed.

(** ** Runs *)

(** What the exported methods and the background loops do. *)
Inductive lachesis_step (wild : f64 → Z) : Lachesis → Lachesis → Prop :=
| lr_SetGossipDelay delay l : lachesis_step wild l (SetGossipDelay wild delay l)
| lr_AdjustNetworkLoad x l : lachesis_step wild l (AdjustNetworkLoad wild x l)
| lr_SetVotingThreshold t l : lachesis_step wild l (SetVotingThreshold t l)
| lr_AddNode id stake l : lachesis_step wild l (AddNode id stake l)
| lr_UpdateNodeStake id stake l : lachesis_step wild l (UpdateNodeStake id stake l)
| lr_CreateEvent now creator ps data l :
    lachesis_step wild l (CreateEvent now creator ps data l).1
| lr_ProcessEvent oT1 oA1 oT2 oA2 ev l l' b :
    ProcessEvent oT1 oA1 oT2 oA2 ev l = Some (l', b) → lachesis_step wild l l'
| lr_AddPendingEvent ev l : lachesis_step wild l (AddPendingEvent ev l)
| lr_ClearPendingEvents l : lachesis_step wild l (ClearPendingEvents l)
| lr_processEvents order oA oT l : lachesis_step wild l (processEvents order oA oT l)
| lr_UpdateProposalState id current new l :
    lachesis_step wild l (UpdateProposalState id current new l).1
| lr_Start l : lachesis_step wild l (Start l).1
| lr_Stop l : lachesis_step wild l (Stop l).1
| lr_ForceSync ids order l : lachesis_step wild l (ForceSync ids order l)
| lr_gossip now order id l t g d :
    gossip_turn wild now order id (lc_gossip l) (lc_dag l) = (t, g, d) →
    lachesis_step wild l (with_gossip g (with_dag d l))
| lr_deliver e l : lachesis_step wild l (with_dag (deliver e (lc_dag l)) l).

Lemma lachesis_step_inv wild l l' : lachesis_step wild l l' → lachesis_inv l → lachesis_inv l'.
Proof.
  intros Hstep Hi. destruct (Hi) as [Hw _].
  assert (extends (lc_dag l) (lc_dag l)) as Hr by by apply extends_store.
  destruct Hstep as [| | | | |now creator ps data l| | | | |id cur new l|l|l| |now order id l t g d Ht|];
    try (eapply keeps_inv; [|exact Hi]; by split_and!).
  - eapply keeps_inv; [|exact Hi]. by split_and!; [apply AddNode_extends|..].
  - eapply keeps_inv; [|exact Hi]. by split_and!; [apply UpdateNodeStake_extends|..].
  - eapply keeps_inv; [|exact Hi]. pose proof (NewEvent_extends now creator ps data _ Hw) as He.
    unfold CreateEvent. by destruct (NewEvent _ _ _ _ _) as [d [k|e]]; split_and!.
  - by eapply ProcessEvent_inv.
  - by apply process_loop_inv.
  - eapply keeps_inv; [|exact Hi]. unfold UpdateProposalState. by case_match; split_and!.
  - eapply keeps_inv; [|exact Hi]. unfold Start. by case_match; split_and!.
  - eapply keeps_inv; [|exact Hi]. unfold Stop. by case_match; split_and!.
  - eapply keeps_inv; [|exact Hi]. split_and!; [|done..]. by eapply gossip_turn_extends.
  - eapply keeps_inv; [|exact Hi]. by split_and!; [apply deliver_extends|..].
Qed.

Lemma NewLachesis_inv delay : lachesis_inv (NewLachesis delay).
Proof. split; [apply NewDAG_ok|]. intros h ks k. cbn. by rewrite lookup_empty. Qed.

(** ** Collecting a range of heights *)

Lemma collect_spec to m : 0 ≤ to < u64_max → ∀ fuel h acc, 0 ≤ h →
  (Z.to_nat (to + 2 - h) ≤ fuel)%nat → (0 < fuel)%nat →
  collect fuel h to m acc
    = Some (acc ++ concat ((λ i, default [] (m !! i)) <$> seqZ h (to + 1 - h))).
Proof.
  intros Hto fuel. induction fuel as [|fuel IH]; intros h acc Hh Hf Hpos; [lia|].
  cbn [collect]. destruct (Z.ltb_spec to h) as [Hlt|Hge].
  { rewrite seqZ_nil by lia. by rewrite app_nil_r. }
  assert (uadd h 1 = h + 1) as -> by (unfold uadd, u64_max in *; apply u64_small; unfold is_u64; lia).
  rewrite IH; [|lia..|]. 2: { destruct (Z.to_nat (to + 2 - h)) eqn:Hn; lia. }
  rewrite (seqZ_cons h) by lia. cbn [fmap list_fmap concat].
  rewrite <- app_assoc. replace (Z.succ h) with (h + 1) by lia.
  by replace (Z.pred (to + 1 - h)) with (to + 1 - (h + 1)) by lia.
Qed.

Lemma collect_diverges m fuel : ∀ h acc, is_u64 h → collect fuel h u64_max m acc = None.
Proof.
  induction fuel as [|fuel IH]; intros h acc Hh; [done|]. cbn [collect].
  destruct (Z.ltb_spec u64_max h) as [Hlt|Hge]; [unfold u64_max, is_u64 in *; lia|].
  apply IH. apply u64_range.
Qed.

(** * The properties *)

(** the periodic finality test and the vote agree on events of active
    creators, whatever the iteration orders of their loops. *)
Theorem detectFinality_agrees_with_Vote oA oT oA' oT' e l :
  dag_wf (lc_dag l) → stake_ok (lc_dag l) →
  iter_order (Nodes (lc_dag l)) oA → iter_order (Nodes (lc_dag l)) oT →
  iter_order (Nodes (lc_dag l)) oA' → iter_order (Nodes (lc_dag l)) oT' →
  IsActiveValidator (ev_Creator e) (lc_dag l) = true →
  votingThreshold l = threshold (lc_voting l) →
  f_le (votingThreshold l) f_zero = false →
  f_lt f_zero (f_mul (f_of_Z (msum active_stake (Nodes (lc_dag l)))) (votingThreshold l)) = true →
  detectFinality oA oT e l = Vote oT' oA' (lc_voting l) (Some (lc_dag l)) (Some e).
Proof.
  intros Hw Hs HoA HoT HoA' HoT' Hact Hth Hle Hpos.
  rewrite detectFinality_spec by done. rewrite seer_support by done.
  rewrite (Vote_spec _ _ _ _ _ Hw Hs HoT' HoA'); rewrite <- ?Hth; [|done|done].
  destruct (Z.eqb_spec (msum active_stake (Nodes (lc_dag l))) 0) as [H0|_]; [|done].
  rewrite H0, f_of_Z_0 in Hpos. destruct (votingThreshold l) as [[]|[]| |[] m x]; done.
Qed.

(** in every reachable state each event listed as finalized under a
    height exists, has that height and is final. *)
Theorem lachesis_listed_final wild delay l : star (lachesis_step wild) (NewLachesis delay) l →
  ∀ h ks k, finalizedEvents l !! h = Some ks → k ∈ ks →
    ∃ e, event_at (lc_dag l) k = Some e ∧ ev_Height e = h ∧
      (ev_Finalized e = true ∨ IsFinalized (ev_ID e) (lc_finalizer l) = true).
Proof.
  intros Hrun. apply (star_invariant _ lachesis_inv _ _ (λ a b Ha Hs, lachesis_step_inv _ a b Hs Ha)
    (NewLachesis_inv delay) Hrun).
Qed.

(** [GetFinalizedEvents] terminates and returns the lists of the
    heights in the range, in order, unless the range ends at the largest
    [uint64]: then the counter wraps and it never returns. *)
Theorem GetFinalizedEvents_range fromHeight toHeight l : is_u64 fromHeight → is_u64 toHeight →
  if toHeight =? u64_max then ∀ fuel, GetFinalizedEvents fuel fromHeight toHeight l = None
  else ∀ fuel, (Z.to_nat (toHeight + 2 - fromHeight) ≤ fuel)%nat → (0 < fuel)%nat →
    GetFinalizedEvents fuel fromHeight toHeight l
      = Some (concat ((λ h, default [] (finalizedEvents l !! h))
                <$> seqZ fromHeight (toHeight + 1 - fromHeight))).
Proof.
  intros Hf Ht. destruct (Z.eqb_spec toHeight u64_max) as [->|Hne]; intros fuel.
  - by apply collect_diverges.
  - intros Hfuel Hpos. unfold GetFinalizedEvents, is_u64, u64_max in *.
    rewrite collect_spec by (unfold u64_max; lia). done.
Qed.

(** ** A concrete run *)

Definition two_nodes : Lachesis := AddNode node_b 30 (AddNode node_a 70 (NewLachesis 100)).
Definition two_events : Lachesis :=
  (CreateEvent 6 node_b [id1] [x01] (CreateEvent 5 node_a [] [x01] two_nodes).1).1.
Definition both_nodes (_ : loc) : list bytes32 := [node_a; node_b].
Definition ticked : Lachesis := processEvents [id1; id2] both_nodes both_nodes two_events.

Lemma two_events_dag : lc_dag two_events = dag2.
Proof. reflexivity. Qed.

Lemma ticked_reach : star (lachesis_step wild0) (NewLachesis 100) ticked.
Proof.
  apply (star_snoc _ _ two_events); [|apply lr_processEvents].
  apply (star_snoc _ _ (CreateEvent 5 node_a [] [x01] two_nodes).1); [|apply lr_CreateEvent].
  apply (star_snoc _ _ two_nodes); [|apply lr_CreateEvent].
  apply (star_snoc _ _ (AddNode node_a 70 (NewLachesis 100))); [|apply lr_AddNode].
  apply (star_snoc _ _ (NewLachesis 100)); [apply star_refl|apply lr_AddNode].
Qed.

Lemma detectFinality_agrees_with_Vote_witness :
  detectFinality [node_a; node_b] [node_b; node_a] event2 two_events = true ∧
  detectFinality [node_a; node_b] [node_b; node_a] event2 two_events
    = Vote [node_a; node_b] [node_b; node_a] (lc_voting two_events) (Some (lc_dag two_events))
        (Some event2).
Proof.
  split; [by vm_compute|].
  apply (detectFinality_agrees_with_Vote [node_a; node_b] [node_b; node_a] [node_b; node_a]
    [node_a; node_b] event2 two_events); rewrite ?two_events_dag; try solve_order.
  - apply dag2_ok.
  - apply dag2_stakes.
  - by vm_compute.
  - reflexivity.
  - by vm_compute.
  - by vm_compute.
Defined.

Lemma lachesis_listed_final_witness :
  finalizedEvents ticked !! 2 = Some [2%positive] ∧
  ∃ e, event_at (lc_dag ticked) 2%positive = Some e ∧ ev_Height e = 2 ∧
    (ev_Finalized e = true ∨ IsFinalized (ev_ID e) (lc_finalizer ticked) = true).
Proof.
  split; [by vm_compute|].
  apply (lachesis_listed_final wild0 100 ticked ticked_reach 2 [2%positive] 2%positive);
    [by vm_compute|by left].
Defined.

Lemma GetFinalizedEvents_range_witness :
  GetFinalizedEvents 5 0 2 ticked = Some [1%positive; 2%positive] ∧
  if 2 =? u64_max then ∀ fuel, GetFinalizedEvents fuel 0 2 ticked = None
  else ∀ fuel, (Z.to_nat (2 + 2 - 0) ≤ fuel)%nat → (0 < fuel)%nat →
    GetFinalizedEvents fuel 0 2 ticked
      = Some (concat ((λ h, default [] (finalizedEvents ticked !! h)) <$> seqZ 0 (2 + 1 - 0))).
Proof. split; [by vm_compute|]. by apply (GetFinalizedEvents_range 0 2 ticked). Defined.

(** ** What the two tests leave out *)

(** The periodic test finalizes events the finalizer never hears of. *)
Example tick_bypasses_finalizer :
  finalizedEvents ticked !! 1 = Some [1%positive] ∧
  IsFinalized id1 (lc_finalizer ticked) = false.
Proof. by vm_compute. Qed.

(** Processing a finalized event again lists it again. *)
Definition processed (l : Lachesis) : Lachesis :=
  match ProcessEvent node_order node_order node_order node_order 1%positive l with
  | Some (l, _) => l
  | None => l
  end.

Example processed_twice :
  finalizedEvents (processed (processed two_events)) !! 1 = Some [1%positive; 1%positive].
Proof. by vm_compute. Qed.

(** A refused threshold still governs [detectFinality]. *)
Example threshold_split :
  let l := SetVotingThreshold f_zero two_events in
  votingThreshold l = f_zero ∧ threshold (lc_voting l) = f_lit 66 2.
Proof. by vm_compute. Qed.
