(* ===== verification/Api.v ===== *)
(** * HTTP interface: src/api

    server.go, transactions.go, wallets.go and token_supply.go: every handler
    as a function from the request and the state to the new state and the
    response.  The transaction manager, the accounts, the token supply and
    the wallets are those of their own files; the router (gorilla/mux), the
    decoding of request bodies, the consensus and the block stores are
    parameters.  A response body is a tree of values; encoding one fails, as
    in encoding/json, when a number in it is not finite. *)
From Stdlib Require Import ZArith Lia SpecFloat.
From Stdlib Require Import Strings.Byte Strings.Ascii Strings.String.
From stdpp Require Import numbers prelude gmap strings pretty.
From S2P Require Import Prelude GoFloat Maps Bytes Sha256 Common Accounts Crypto TokenSupply.
From S2P Require Import TxQueue TxPool TxUtils TxManager Wallet.
Open Scope Z_scope.

(** ** strconv.Atoi *)

Definition digit_val (a : ascii) : option Z :=
  let n := Z.of_N (N_of_ascii a) in
  if (48 <=? n) && (n <=? 57) then Some (n - 48) else None.
Fixpoint digits_val (s : string) (acc : Z) : option Z :=
  match s with
  | EmptyString => Some acc
  | String a s => d ← digit_val a; digits_val s (acc * 10 + d)
  end.
Definition Atoi (s : string) : option Z :=
  let '(negative, body) :=
    match s with
    | String a r => if bool_decide (a = "-"%char) then (true, r)
                    else if bool_decide (a = "+"%char) then (false, r) else (false, s)
    | EmptyString => (false, s)
    end in
  match body with
  | EmptyString => None
  | _ => z ← digits_val body 0;
         let z := if (negative : bool) then - z else z in
         if decide (is_i64 z) then Some z else None
  end.

(** ** Responses *)

Record TransactionResponse := mkTxResp {
  tr_ID : string; tr_Sender : string; tr_Receiver : string; tr_Amount : f64; tr_Fee : f64;
  tr_Timestamp : Z; tr_Status : string; tr_Nonce : Z; tr_Data : list byte }.

Record TransactionSubmitRequest := mkSubmit {
  rq_Sender : string; rq_Receiver : string; rq_Amount : f64; rq_Fee : f64; rq_Data : list byte }.

Record TransactionFeeEstimateResponse := mkFee {
  fe_Estimated : f64; fe_Minimum : f64; fe_Recommended : f64; fe_High : f64; fe_Load : f64 }.

Inductive body {B : Type} :=
| PError (message : string)
| PStatus (height : Z) (load : f64)
| PAccount (a : Account)
| PBlock (b : B)
| PMessage (message : string)
| PTx (t : TransactionResponse)
| PTxs (ts : list TransactionResponse)
| PTxStatus (id status : string)
| PFee (f : TransactionFeeEstimateResponse)
| PStats (poolSize : Z) (s : TransactionStats)
| PNonce (account : string) (nonce : Z)
| PSupply (total circulating treasury : f64) (treasuryID : string)
| PWallet (id publicKey : string) (balance : f64)
| PFunded (id : string) (balance : f64)
| PMarshalError.
Arguments body : clear implicits.

Record Response (B : Type) := mkResp { rs_code : Z; rs_body : body B }.
Arguments mkResp {B}.
Arguments rs_code {B} r.
Arguments rs_body {B} r.

Definition f_finite (x : f64) : bool :=
  match x with S754_zero _ | S754_finite _ _ _ => true | _ => false end.

(** The numbers of a body that JSON might not represent. *)
Definition body_floats {B} (p : body B) : list f64 :=
  match p with
  | PStatus _ x => [x]
  | PAccount a => [acc_Balance a; acc_StakedAmount a]
  | PTx t => [tr_Amount t; tr_Fee t]
  | PTxs ts => concat ((λ t, [tr_Amount t; tr_Fee t]) <$> ts)
  | PFee f => [fe_Estimated f; fe_Minimum f; fe_Recommended f; fe_High f; fe_Load f]
  | PSupply a b c _ => [a; b; c]
  | PWallet _ _ x | PFunded _ x => [x]
  | _ => []
  end.

Definition respondWithJSON {B} (code : Z) (payload : body B) : Response B :=
  if forallb f_finite (body_floats payload) then mkResp code payload
  else mkResp 500 PMarshalError.
Definition respondWithError {B} (code : Z) (message : string) : Response B :=
  respondWithJSON code (PError message).

Definition tx_response (status : string) (tx : Transaction) : TransactionResponse :=
  mkTxResp (tx_ID tx) (tx_Sender tx) (tx_Receiver tx) (tx_Amount tx) (tx_Fee tx)
    (tx_Timestamp tx) status (tx_Nonce tx) (tx_Data tx).

(** ** Routes, in the order of registration *)

Inductive handler :=
| HStatus | HGetAccount | HGetBlock
| HSubmitTransaction | HGetTransactionStatus | HGetTransaction | HGetPendingTransactions
| HGetAccountTransactions | HEstimateTransactionFee | HGetTransactionPoolStats
| HSuggestTransactionNonce
| HCreateWallet | HFundWallet | HGetTokenSupply | HCreateSnapshot | HRestoreSnapshot
| HStorageGetBlock.
#[export] Instance handler_eq_dec : EqDecision handler.
Proof. solve_decision. Defined.

Record route := mkRoute { rt_path : string; rt_method : string; rt_handler : handler }.

Definition RegisterTransactionRoutes : list route :=
  [mkRoute "/transactions" "POST" HSubmitTransaction;
   mkRoute "/transactions/{id}/status" "GET" HGetTransactionStatus;
   mkRoute "/transactions/{id}" "GET" HGetTransaction;
   mkRoute "/transactions/pending" "GET" HGetPendingTransactions;
   mkRoute "/accounts/{id}/transactions" "GET" HGetAccountTransactions;
   mkRoute "/transactions/fee/estimate" "GET" HEstimateTransactionFee;
   mkRoute "/transactions/pool/stats" "GET" HGetTransactionPoolStats;
   mkRoute "/accounts/{id}/nonce" "GET" HSuggestTransactionNonce].

Definition StartServer_routes : list route :=
  [mkRoute "/status" "GET" HStatus;
   mkRoute "/accounts/{id}" "GET" HGetAccount;
   mkRoute "/blocks/{number}" "GET" HGetBlock]
  ++ RegisterTransactionRoutes
  ++ [mkRoute "/wallets" "POST" HCreateWallet;
      mkRoute "/wallets/{id}/fund" "POST" HFundWallet;
      mkRoute "/token-supply" "GET" HGetTokenSupply;
      mkRoute "/ledger/snapshot/{height}" "GET" HCreateSnapshot;
      mkRoute "/ledger/restore/{height}" "POST" HRestoreSnapshot;
      mkRoute "/storage/block/{number}" "GET" HStorageGetBlock].

(** ** Handlers *)

Section api.
Context {T L LE B : Type} `{NonceTracker T, LedgerAPI L LE}.
(** Of the transaction manager and the wallets. *)
Variable VerifySignature : list byte → list byte → list byte → option bool.
Variable wild_int : f64 → Z.
Variable fmt8 : f64 → string.
Variable cryptoManager : option (list byte → list byte → option (list byte)).
Variable env_key : string.
Variable seal : list byte → list byte → list byte → list byte.
Variable open_ : list byte → list byte → list byte → option (list byte).
Variable SignDataWithDilithium : list byte → list byte → option (list byte).
Variable lib : Circl.

(** The consensus: its height, when it offers one, and its load. *)
Variable last_height : option Z.
Variable network_load : f64.
(** The ledger's blocks and snapshots, the block store, and -- when the
    ledger implements the whole of [common.LedgerAPI] -- the two queries. *)
Variable ledger_block : L → Z → option B.
Variable ledger_CreateSnapshot : Z → L → L * option string.
Variable ledger_RestoreSnapshot : Z → L → L * option string.
Variable storage_GetBlock : Z → option B.
Variable ledger_GetTransaction : option (L → string → result string Transaction).
Variable ledger_GetAccountTransactions :
  option (L → string → Z → Z → result string (list Transaction)).
(** The text of the manager's errors. *)
Variable manager_error : ManagerError LE → string.

(** The token supply holds the global account store. *)
Record ApiState := mkApi {
  api_TxManager : TransactionManager T L;
  api_supply : TokenSupply;
  api_stats : dilithiumStats }.
Definition set_manager (tm : TransactionManager T L) (s : ApiState) : ApiState :=
  mkApi tm (api_supply s) (api_stats s).
Definition set_supply (ts : TokenSupply) (s : ApiState) : ApiState :=
  mkApi (api_TxManager s) ts (api_stats s).

Definition handleStatus (s : ApiState) : Response B :=
  respondWithJSON 200 (PStatus (default 0 last_height) network_load).

Definition handleGetAccount (accountID : string) (s : ApiState) : Response B :=
  match GetAccount accountID (accts (api_supply s)) with
  | None => respondWithError 404 ("Account " +:+ accountID +:+ " not found")
  | Some account => respondWithJSON 200 (PAccount account)
  end.

Definition handleGetBlock (numStr : string) (s : ApiState) : Response B :=
  match Atoi numStr with
  | None => respondWithError 400 "Invalid block number"
  | Some num =>
      match ledger_block (ledger (api_TxManager s)) num with
      | None => respondWithError 404 ("Block " +:+ pretty num +:+ " not found")
      | Some block => respondWithJSON 200 (PBlock block)
      end
  end.

(** The two snapshot handlers differ in the call and the texts. *)
Definition snapshot (call : Z → L → L * option string) (failed done_ : string)
    (heightStr : string) (s : ApiState) : ApiState * Response B :=
  match Atoi heightStr with
  | None => (s, respondWithError 400 "Invalid snapshot height")
  | Some height =>
      let '(l, r) := call height (ledger (api_TxManager s)) in
      (set_manager (set_ledger l (api_TxManager s)) s,
       match r with
       | Some e => respondWithError 500 (failed +:+ e)
       | None => respondWithJSON 200 (PMessage (done_ +:+ pretty height))
       end)
  end.
Definition handleCreateSnapshot := snapshot ledger_CreateSnapshot "Snapshot creation failed: "
  "Snapshot created at height ".
Definition handleRestoreSnapshot := snapshot ledger_RestoreSnapshot "Snapshot restore failed: "
  "Ledger restored to snapshot at height ".

Definition handleStorageGetBlock (numStr : string) : Response B :=
  match Atoi numStr with
  | None => respondWithError 400 "Invalid block number"
  | Some num =>
      match storage_GetBlock (u64 num) with
      | None => respondWithError 404 ("Block " +:+ pretty num +:+ " not found in storage")
      | Some block => respondWithJSON 200 (PBlock block)
      end
  end.

Definition handleGetTokenSupply (s : ApiState) : Response B :=
  let ts := api_supply s in
  respondWithJSON 200 (PSupply (GetTotalSupply ts) (GetCirculatingSupply ts)
    (GetTreasuryBalance ts) (GetTreasuryID ts)).

(** [req]: the decoded body; [None] is a panic in the manager. *)
Definition handleSubmitTransaction (clk : nat → Z) (netLoad : Z)
    (req : option TransactionSubmitRequest) (s : ApiState) : option (ApiState * Response B) :=
  match req with
  | None => Some (s, respondWithError 400 "Invalid request payload")
  | Some req =>
      if bool_decide (rq_Sender req = EmptyString) || bool_decide (rq_Receiver req = EmptyString)
      then Some (s, respondWithError 400 "Sender and receiver are required")
      else if f_le (rq_Amount req) f_zero
      then Some (s, respondWithError 400 "Amount must be positive")
      else
        '(tm, r) ← TxManager.CreateTransaction VerifySignature wild_int fmt8 cryptoManager env_key
                     open_ SignDataWithDilithium clk netLoad (accts (api_supply s))
                     (rq_Sender req) (rq_Receiver req) (rq_Amount req) (rq_Fee req) (rq_Data req)
                     (api_TxManager s);
        Some (set_manager tm s,
              match r with
              | Err e => respondWithError 500 ("Transaction creation failed: " +:+ manager_error e)
              | Ok tx => respondWithJSON 201 (PTx (tx_response (tx_Status tx) tx))
              end)
  end.

Definition handleGetTransactionStatus (txID : string) (s : ApiState) : Response B :=
  if bool_decide (txID = EmptyString) then respondWithError 400 "Transaction ID is required"
  else match GetTransactionStatus txID (api_TxManager s) with
       | (_, Err e) => respondWithError 404 ("Transaction not found: " +:+ manager_error e)
       | (status, Ok _) => respondWithJSON 200 (PTxStatus txID status)
       end.

Definition handleGetTransaction (order : list string) (txID : string) (s : ApiState) : Response B :=
  if bool_decide (txID = EmptyString) then respondWithError 400 "Transaction ID is required"
  else match find (λ tx, bool_decide (tx_ID tx = txID))
               (GetPendingTransactions order (api_TxManager s)) with
       | Some tx => respondWithJSON 200 (PTx (tx_response "pending" tx))
       | None =>
           match ledger_GetTransaction with
           | None => respondWithError 500 "Ledger API not available"
           | Some get =>
               match get (ledger (api_TxManager s)) txID with
               | Err e => respondWithError 404 ("Transaction not found: " +:+ e)
               | Ok tx => respondWithJSON 200 (PTx (tx_response "committed" tx))
               end
           end
       end.

(** A query parameter that is absent, not a number or below [lo] is ignored. *)
Definition query_int (lo dflt : Z) (str : string) : Z :=
  match Atoi str with Some z => if lo <=? z then z else dflt | None => dflt end.

Definition handleGetPendingTransactions (order : list string) (limitStr accountID : string)
    (s : ApiState) : Response B :=
  let limit := query_int 1 50 limitStr in
  match (if bool_decide (accountID = EmptyString)
         then Ok (GetPendingTransactions order (api_TxManager s))
         else GetPendingTransactionsByAccount (LE := LE) accountID order (api_TxManager s)) with
  | Err e => respondWithError 500 ("Failed to retrieve pending transactions: " +:+ manager_error e)
  | Ok txs => respondWithJSON 200 (PTxs (tx_response "pending" <$> take (Z.to_nat limit) txs))
  end.

Definition handleGetAccountTransactions (order : list string) (accountID limitStr offsetStr : string)
    (s : ApiState) : Response B :=
  let limit := query_int 1 20 limitStr in
  let offset := query_int 0 0 offsetStr in
  if bool_decide (accountID = EmptyString) then respondWithError 400 "Account ID is required"
  else match ledger_GetAccountTransactions with
       | None => respondWithError 500 "Ledger API not available"
       | Some get =>
           match get (ledger (api_TxManager s)) accountID limit offset with
           | Err e => respondWithError 500 ("Failed to retrieve account transactions: " +:+ e)
           | Ok txs =>
               respondWithJSON 200 (PTxs ((tx_response "committed" <$> txs)
                 ++ (tx_response "pending" <$>
                       match GetPendingTransactionsByAccount (LE := LE) accountID order (api_TxManager s) with
                       | Ok txs => txs
                       | Err _ => []
                       end)))
           end
       end.

Definition handleEstimateTransactionFee (s : ApiState) : Response B :=
  let baseFee := EstimateFee (api_TxManager s) in
  respondWithJSON 200 (PFee (mkFee baseFee (f_mul baseFee (f_lit 8 1)) baseFee
    (f_mul baseFee (f_lit 15 1)) network_load)).

Definition handleGetTransactionPoolStats (s : ApiState) : Response B :=
  respondWithJSON 200 (PStats (GetPoolSize (api_TxManager s)) (GetStats (api_TxManager s))).

Definition handleSuggestTransactionNonce (accountID : string) (s : ApiState) :
    ApiState * Response B :=
  if bool_decide (accountID = EmptyString) then (s, respondWithError 400 "Account ID is required")
  else let '(tm, nonce) := SuggestNonce accountID (api_TxManager s) in
       (set_manager tm s, respondWithJSON 200 (PNonce accountID nonce)).

Definition encodeToHex (data : list byte) : string := hex_string data.

(** The random bytes of the key encryption are [nonce]. *)
Definition handleCreateWallet (env : wallet_env) (nonce : option (list byte)) (s : ApiState) :
    option (ApiState * Response B) :=
  '(ds, r) ← NewWallet lib env (api_stats s);
  let s := mkApi (api_TxManager s) (api_supply s) ds in
  Some match r with
  | Err _ => (s, mkResp 500 (PError "Failed to create wallet"))
  | Ok w =>
      match Wallet.RegisterAccount seal env_key nonce w (accts (api_supply s)) with
      | (m, Err _) => (set_supply (with_accts m (api_supply s)) s,
                       mkResp 500 (PError "Failed to register wallet account"))
      | (m, Ok _) =>
          let ts := (FundNewWallet (w_ID w) DefaultInitialFunding (with_accts m (api_supply s))).1 in
          let balance := match Wallet.GetBalance w (accts ts) with Ok b => b | Err _ => f_zero end in
          (set_supply ts s,
           respondWithJSON 201 (PWallet (w_ID w) (encodeToHex (dk_PublicKey (w_Sig w))) balance))
      end
  end.

Definition handleFundWallet (walletID : string) (req : option f64) (s : ApiState) :
    ApiState * Response B :=
  match GetAccount walletID (accts (api_supply s)) with
  | None => (s, respondWithError 404 ("Wallet " +:+ walletID +:+ " not found"))
  | Some _ =>
      match req with
      | None => (s, respondWithError 400 "Invalid request payload")
      | Some amount =>
          if f_le amount f_zero then (s, respondWithError 400 "Amount must be positive")
          else
            match FundNewWallet walletID amount (api_supply s) with
            | (ts, Err _) => (set_supply ts s, respondWithError 500 "Failed to fund wallet")
            | (ts, Ok _) =>
                (set_supply ts s,
                 match GetAccount walletID (accts ts) with
                 | None => respondWithError 500 "Failed to retrieve updated account"
                 | Some a => respondWithJSON 200 (PFunded walletID (acc_Balance a))
                 end)
            end
      end
  end.
End api.


(** ** Dispatch: the router serves the first route, in the order of their
    registration, whose template matches the path and whose method is the
    request's.  What it means to match is the router's. *)

Section router.
Variable matches : string → string → bool.

Definition dispatch (method path : string) : option handler :=
  rt_handler <$> find (λ r, matches (rt_path r) path && bool_decide (rt_method r = method))
                   StartServer_routes.
End router.

(** * Facts *)

Lemma f_finite_of_Z z : exact_int z → f_finite (f_of_Z z) = true.
Proof. intros Hz. destruct z; [done| |]; by rewrite ?f_of_Z_pos, ?f_of_Z_neg. Qed.

Lemma respond_finite {B} code (p : body B) : Forall (λ x, f_finite x = true) (body_floats p) →
  respondWithJSON code p = mkResp code p.
Proof.
  intros Hf. unfold respondWithJSON.
  assert (forallb f_finite (body_floats p) = true) as ->; [|done].
  apply forallb_forall. intros x Hx. rewrite Forall_forall in Hf.
  by apply Hf, list_elem_of_In.
Qed.

(** The search of [handleGetTransaction] finds what the pool's map holds,
    whatever the iteration order. *)
Lemma find_pending p order id : pool_wf p → iter_order (txMap p) order →
  find (λ tx, bool_decide (tx_ID tx = id)) (it_tx <$> GetAllTransactions order p) = lookup_tx p id.
Proof.
  intros Hp [_ Ho]. unfold GetAllTransactions.
  assert (id ∉ order → lookup_tx p id = None) as Hout.
  { intros Hid. unfold lookup_tx. destruct (txMap p !! id) eqn:Hl; [|done].
    exfalso. apply Hid, Ho. by eexists. }
  clear Ho. induction order as [|k order IH]; cbn [omap list_omap].
  { symmetry. apply Hout. apply not_elem_of_nil. }
  destruct (txMap p !! k) as [l|] eqn:Hk; cbn [mbind option_bind].
  2:{ apply IH. intros Hid. destruct (decide (id = k)) as [->|];
      [unfold lookup_tx; by rewrite Hk|apply Hout; set_solver]. }
  assert (∀ tx, lookup_tx p k = Some tx → tx_ID tx = k) as Hkid by (intros tx; by apply lookup_tx_id).
  unfold lookup_tx in Hkid. rewrite Hk in Hkid. cbn [mbind option_bind] in Hkid.
  destruct (item_at p l) as [it|] eqn:Hit; cbn [mbind option_bind] in Hkid.
  - specialize (Hkid _ eq_refl). cbn [fmap list_fmap find]. rewrite Hkid.
    case_bool_decide as Hi; [subst id; unfold lookup_tx; rewrite Hk; cbn; by rewrite Hit|].
    apply IH. intros Hid. apply Hout. set_solver.
  - apply IH. intros Hid. destruct (decide (id = k)) as [->|];
      [unfold lookup_tx; rewrite Hk; cbn; by rewrite Hit|apply Hout; set_solver].
Qed.

Section submission.
Context {T L LE B : Type} `{NonceTrackerLaws T, LedgerAPI L LE}.
Variable VerifySignature : list byte → list byte → list byte → option bool.
Variable wild_int : f64 → Z.
Variable fmt8 : f64 → string.
Variable cryptoManager : option (list byte → list byte → option (list byte)).
Variable env_key : string.
Variable open_ : list byte → list byte → list byte → option (list byte).
Variable SignDataWithDilithium : list byte → list byte → option (list byte).
Variable manager_error : ManagerError LE → string.
Variable ledger_GetTransaction : option (L → string → result string Transaction).

Abbreviation submit := (handleSubmitTransaction (B := B) VerifySignature wild_int fmt8
  cryptoManager env_key open_ SignDataWithDilithium manager_error).
Implicit Types s : ApiState (T := T) (L := L).

(** The state in which the manager's creation is specified. *)
Definition submit_ready (sender : string) (s : ApiState (T := T) (L := L)) : Prop :=
  is_i64 (nonce_at (api_TxManager s) sender) ∧ pool_wf (tm_pool (api_TxManager s)) ∧
  0 ≤ TotalTxs (poolMetrics (tm_pool (api_TxManager s))) < 9223372036854775807 ∧
  maxPoolSize (tm_pool (api_TxManager s)) < 9223372036854775807.

(** Nothing a client sees of the manager grew. *)
Definition nothing_added (s s' : ApiState (T := T) (L := L)) : Prop :=
  nonces (api_TxManager s') = nonces (api_TxManager s) ∧
  ∀ id tx, lookup_tx (tm_pool (api_TxManager s')) id = Some tx →
    lookup_tx (tm_pool (api_TxManager s)) id = Some tx.

(** A pooled transaction is served by its identifier. *)
Lemma pooled_served order tx s : pool_wf (tm_pool (api_TxManager s)) →
  tx_ID tx ≠ EmptyString → f_finite (tx_Amount tx) = true → f_finite (tx_Fee tx) = true →
  lookup_tx (tm_pool (api_TxManager s)) (tx_ID tx) = Some tx →
  handleGetTransactionStatus (LE := LE) manager_error (tx_ID tx) s
    = mkResp (B := B) 200 (PTxStatus (tx_ID tx) "Pending") ∧
  (iter_order (txMap (tm_pool (api_TxManager s))) order →
   handleGetTransaction ledger_GetTransaction order (tx_ID tx) s
    = mkResp (B := B) 200 (PTx (tx_response "pending" tx))).
Proof.
  intros Hp Hid Ha Hf Hl. split.
  - unfold handleGetTransactionStatus, GetTransactionStatus.
    rewrite bool_decide_eq_false_2, (lookup_has _ _ _ Hl) by done. by apply respond_finite.
  - intros Ho. unfold handleGetTransaction, GetPendingTransactions.
    rewrite bool_decide_eq_false_2, (find_pending _ _ _ Hp Ho), Hl by done.
    apply respond_finite. by repeat constructor.
Qed.

(** C39: submitting over HTTP.  For a decoded request, whose numbers are
    finite, [POST /transactions] never panics and never touches the ledger
    or the supply.  It answers 201 with the request's own fields and the
    nonce that [GET /accounts/{id}/nonce] suggested just before, and then
    the status query and [GET /transactions/{id}] serve that very response;
    or 400 with nothing changed; or 500 with no nonce used and no
    transaction added. *)
Theorem submit_served clk netLoad req s :
  submit_ready (rq_Sender req) s →
  f_finite (rq_Amount req) = true → f_finite (rq_Fee req) = true →
  ∃ s' r, submit clk netLoad (Some req) s = Some (s', r) ∧
    api_supply s' = api_supply s ∧ ledger (api_TxManager s') = ledger (api_TxManager s) ∧
    ((rs_code r = 400 ∧ s' = s) ∨ (rs_code r = 500 ∧ nothing_added s s') ∨
     (∃ t, r = mkResp 201 (PTx t) ∧
        tr_Sender t = rq_Sender req ∧ tr_Receiver t = rq_Receiver req ∧
        tr_Amount t = rq_Amount req ∧ tr_Fee t = rq_Fee req ∧ tr_Data t = rq_Data req ∧
        (handleSuggestTransactionNonce (rq_Sender req) s).2
          = mkResp (B := B) 200 (PNonce (rq_Sender req) (tr_Nonce t)) ∧
        handleGetTransactionStatus (LE := LE) manager_error (tr_ID t) s'
          = mkResp (B := B) 200 (PTxStatus (tr_ID t) "Pending") ∧
        ∀ order, iter_order (txMap (tm_pool (api_TxManager s'))) order →
          handleGetTransaction ledger_GetTransaction order (tr_ID t) s'
            = mkResp (B := B) 200 (PTx t))).
Proof.
  intros (Hi & Hp & Ht & Hmax) Ha Hf. unfold handleSubmitTransaction.
  destruct (bool_decide _ || bool_decide _) eqn:Hparty; [by eauto 10|].
  destruct (f_le _ _); [by eauto 10|].
  destruct (CreateTransaction_spec (LE := LE) VerifySignature wild_int fmt8 cryptoManager env_key
    open_ SignDataWithDilithium clk netLoad (accts (api_supply s)) (rq_Sender req) (rq_Receiver req)
    (rq_Amount req) (rq_Fee req) (rq_Data req) (api_TxManager s) Hi Hp Ht Hmax)
    as (tm & r & -> & Hp' & Hl & _ & Hr).
  cbn [mbind option_bind]. destruct r as [tx|e]; eexists _, _; (split; [reflexivity|]);
    (split; [done|]); (split; [done|]); right; [right|by left].
  destruct Hr as (Hc & Hin & _ & Hnew & _ & _ & Hlen & _).
  destruct Hc as (Hs & Hrc & Ham & Hfe & Hd & Hn & Hst).
  assert (tx_ID tx ≠ EmptyString) as Hid by (intros He; by rewrite He in Hlen).
  rewrite <- Ham in Ha. rewrite <- Hfe in Hf.
  pose proof (λ order, pooled_served order tx (set_manager tm s) Hp' Hid Ha Hf Hnew) as Hserved.
  exists (tx_response (tx_Status tx) tx). rewrite Hst.
  assert (respondWithJSON (B := B) 201 (PTx (tx_response "pending" tx))
    = mkResp 201 (PTx (tx_response "pending" tx))) as -> by (apply respond_finite; by repeat constructor).
  split_and!; try done.
  - unfold handleSuggestTransactionNonce, SuggestNonce.
    apply orb_false_iff in Hparty as [-> _].
    destruct (GetNonce_manager (rq_Sender req) (api_TxManager s)) as (t & -> & _).
    cbn. rewrite Hn in Hin. rewrite Hn. by rewrite i64_small.
  - apply (Hserved []).
  - intros order Ho. by apply Hserved.
Qed.
End submission.

(** ** Wallets over HTTP *)

(** Amounts of the ledger are exact and not negative. *)
Lemma balance_known ts l id a : refines ts l → accts ts !! id = Some a →
  ∃ b, l_bal l !! id = Some b ∧ acc_Balance a = f_of_Z b ∧ exact_int b.
Proof.
  intros [Hr Hok _ _ _] Ha. pose proof (bal_rel_lookup _ _ id Hr) as Hl. rewrite Ha in Hl.
  destruct (l_bal l !! id) as [b|] eqn:Hb; [|done]. exists b.
  split_and!; [done..|]. by apply (bal_ok_range _ id b Hok).
Qed.

Lemma balance_missing ts l id : refines ts l → accts ts !! id = None ↔ l_bal l !! id = None.
Proof.
  intros [Hr _ _ _ _]. pose proof (bal_rel_lookup _ _ id Hr) as Hl.
  by destruct (accts ts !! id), (l_bal l !! id).
Qed.

Lemma spec_mint_dom who x l i : is_Some (l_bal l !! i) → is_Some (l_bal (spec_mint who x l).1 !! i).
Proof.
  intros Hi. unfold spec_mint, transfer. case_decide; [done|].
  destruct (l_bal l !! l_treasury l) as [b|]; [|done]. case_decide; [done|]. cbn.
  destruct (<[_ := _]> (l_bal l) !! who); [|done]. cbn. by rewrite !lookup_insert_is_Some'; auto.
Qed.

(** The account endpoint, on a store that refines an integer ledger. *)
Lemma account_served {T L B} ts l id a (s : ApiState (T := T) (L := L)) :
  api_supply s = ts → refines ts l → accts ts !! id = Some a → f_finite (acc_StakedAmount a) = true →
  handleGetAccount id s = mkResp (B := B) 200 (PAccount a).
Proof.
  intros <- Hr Ha Hst. destruct (balance_known _ _ _ _ Hr Ha) as (b & _ & Hb & He).
  unfold handleGetAccount, GetAccount. rewrite Ha. apply respond_finite.
  repeat constructor; [|done]. rewrite Hb. by apply f_finite_of_Z.
Qed.

(** funding over HTTP refines the integer ledger's mint.  A request
    carries no credential: whoever knows a wallet's identifier moves any
    amount the treasury has into it.  An unknown wallet is answered 404 and
    an amount that is not positive 400, with nothing changed; otherwise the
    state is the one of the specification, a success is answered with the
    new balance and a failure of the mint with 500. *)
Theorem fund_refines {T L B} walletID x (s : ApiState (T := T) (L := L)) l :
  refines (api_supply s) l → exact_int x → headroom l →
  ∃ s' r, handleFundWallet (B := B) walletID (Some (f_of_Z x)) s = (s', r) ∧
    api_TxManager s' = api_TxManager s ∧
    match l_bal l !! walletID with
    | None => s' = s ∧ rs_code r = 404
    | Some _ =>
        refines (api_supply s') (spec_mint walletID x l).1 ∧
        match (spec_mint walletID x l).2 with
        | Ok _ => ∃ b, l_bal (spec_mint walletID x l).1 !! walletID = Some b ∧
            r = mkResp 200 (PFunded walletID (f_of_Z b))
        | Err _ => rs_code r = if decide (x ≤ 0) then 400 else 500
        end
    end.
Proof.
  intros Hr Hx Hh. unfold handleFundWallet, GetAccount.
  pose proof (balance_missing _ _ walletID Hr) as Hmiss.
  destruct (l_bal l !! walletID) as [b0|] eqn:Hb0.
  2:{ rewrite (proj2 Hmiss eq_refl). by eexists _, _. }
  destruct (accts (api_supply s) !! walletID) as [a|] eqn:Ha; [|by destruct Hmiss as [Hm _]; specialize (Hm eq_refl)].
  pose proof (mint_refines _ _ walletID x Hr Hx Hh) as [Href Hres].
  unfold FundNewWallet. rewrite f_le_exact_0 by done.
  destruct (Z.leb_spec x 0) as [Hle|Hgt].
  { eexists _, _. split; [done|]. split; [done|]. unfold spec_mint. by rewrite !decide_True by lia. }
  destruct (MintTokens _ _ _) as [ts r]. cbn [fst snd] in Href, Hres. rewrite <- Hres.
  destruct r as [[]|e]; eexists _, _; (split; [done|]); (split; [done|]); (split; [done|]).
  2:{ by rewrite decide_False by lia. }
  destruct (spec_mint_dom walletID x l walletID) as [b Hb]; [by rewrite Hb0|].
  exists b. split; [done|]. pose proof (balance_missing _ _ walletID Href) as Hmiss'.
  destruct (accts ts !! walletID) as [a'|] eqn:Ha'; [|by rewrite (proj1 Hmiss') in Hb].
  destruct (balance_known _ _ _ _ Href Ha') as (b' & Hb' & -> & He).
  assert (b' = b) as -> by congruence. apply respond_finite. repeat constructor. by apply f_finite_of_Z.
Qed.

(** Balance updates keep the keys of every account, and no account goes. *)
Lemma update_keeps_keys id x m i a : m !! i = Some a →
  ∃ a', (UpdateAccountBalance id x m).1 !! i = Some a' ∧ same_keys a a' ∧
    acc_StakedAmount a' = acc_StakedAmount a.
Proof.
  intros Ha. unfold UpdateAccountBalance. destruct (m !! id) as [acc|] eqn:Hid; [|by exists a].
  case_match; [by exists a|]. cbn. destruct (decide (i = id)) as [->|Hne].
  - rewrite lookup_insert_eq. eexists. split; [done|]. by simplify_eq.
  - rewrite lookup_insert_ne by done. by exists a.
Qed.

Lemma fund_keeps_keys id x ts i a : accts ts !! i = Some a →
  ∃ a', accts (FundNewWallet id x ts).1 !! i = Some a' ∧ same_keys a a' ∧
    acc_StakedAmount a' = acc_StakedAmount a.
Proof.
  intros Ha. unfold FundNewWallet, MintTokens, GetAccount.
  case_match; [by exists a|]. destruct (accts ts !! treasuryID ts); [|by exists a].
  case_match; [by exists a|].
  destruct (update_keeps_keys (treasuryID ts) (f_neg x) _ _ _ Ha) as (a1 & H1 & [Hp1 Hk1] & Hs1).
  destruct (UpdateAccountBalance (treasuryID ts) (f_neg x) (accts ts)) as [m1 [[]|e]]; [|by exists a1].
  destruct (update_keeps_keys id x _ _ _ H1) as (a2 & H2 & [Hp2 Hk2] & Hs2).
  cbn [fst] in *.
  destruct (UpdateAccountBalance id x m1) as [m2 [[]|e]]; cbn [fst accts with_circ with_accts] in *.
  { exists a2. unfold same_keys. split_and!; congruence. }
  destruct (update_keeps_keys (treasuryID ts) x _ _ _ H2) as (a3 & H3 & [Hp3 Hk3] & Hs3).
  exists a3. unfold same_keys. split_and!; [done|congruence..].
Qed.

(** What the registration of a wallet puts into the store. *)
Lemma RegisterAccount_insert seal env_key nonce w accs accs' :
  Wallet.RegisterAccount seal env_key nonce w accs = (accs', Ok ()) →
  ∃ a, accs !! w_ID w = None ∧ accs' = <[w_ID w := a]> accs ∧ acc_Balance a = f_zero ∧
    acc_StakedAmount a = f_zero.
Proof.
  unfold Wallet.RegisterAccount. case_bool_decide; [done|].
  destruct (hex_decode _) as [kb|] eqn:Hkb; [|done]. destruct (negb _); [done|].
  set (a0 := blank_account _ _ _ _ _).
  assert (∀ a r, SetPrivateKey seal nonce (dk_PrivateKey (w_Sig w)) env_key a0 = (a, r) →
    acc_ID a = acc_ID a0 ∧ acc_Balance a = acc_Balance a0 ∧ acc_StakedAmount a = acc_StakedAmount a0) as Hset.
  { unfold SetPrivateKey. intros a r. repeat (case_match; try (by intros [= <- _])). }
  destruct (SetPrivateKey _ _ _ _ _) as [a [[]|e]]; [|done].
  destruct (Hset _ _ eq_refl) as (Hid & Hb & Hs). unfold Accounts.RegisterAccount.
  case_bool_decide; [done|]. rewrite Hid. cbn [a0 blank_account acc_ID].
  destruct (accs !! w_ID w) eqn:Hl; [done|]. intros [= <-]. by exists a.
Qed.

(** An account with nothing joins the ledger. *)
Definition with_account (id : string) (l : Ledger) : Ledger :=
  mkLedger (<[id := 0]> (l_bal l)) (l_circ l) (l_treasury l).

Lemma refines_register ts l id a : refines ts l → accts ts !! id = None → acc_Balance a = f_zero →
  refines (with_accts (<[id := a]> (accts ts)) ts) (with_account id l) ∧
  (headroom l → headroom (with_account id l)).
Proof.
  intros Href Hid Ha. pose proof Href as [Hr [H0 He] Hc Hce Ht].
  apply (balance_missing _ _ id Href) in Hid.
  assert (msum Datatypes.id (<[id := 0]> (l_bal l)) = msum Datatypes.id (l_bal l)) as Hsum
    by (by rewrite msum_insert_new).
  split; [split; try done|]; cbn.
  - by apply bal_rel_insert.
  - split; [|by rewrite Hsum]. intros i b [[_ <-]|[_ Hb]]%lookup_insert_Some; [done|eauto].
  - unfold headroom. cbn. by rewrite Hsum.
Qed.

(** C27: creating a wallet over HTTP.  After a 201 the ledger is the old one
    with a fresh account, funded by the mint's rules -- when the mint refuses,
    the wallet stays and its balance is 0; the answer carries that balance
    and the account's public key, and [GET /accounts/{id}], which asks for no
    credential, serves the account with its encrypted private key: it
    decrypts, with the key of the environment that every wallet shares, to
    the private key of the wallet. *)
Theorem created_wallet_served {T L B} lib `{CirclLaws lib} seal open_ env_key env nonce
    (s s' : ApiState (T := T) (L := L)) l r :
  (∀ k n p, open_ k n (seal k n p) = Some p) → length nonce = NonceSize →
  refines (api_supply s) l → headroom l →
  handleCreateWallet (B := B) env_key seal lib env (Some nonce) s = Some (s', r) → rs_code r = 201 →
  ∃ id a b dk, let l' := (spec_mint id 100 (with_account id l)).1 in
    l_bal l !! id = None ∧ api_TxManager s' = api_TxManager s ∧
    refines (api_supply s') l' ∧ l_bal l' !! id = Some b ∧
    r = mkResp 201 (PWallet id (hex_string (acc_PublicKey a)) (f_of_Z b)) ∧
    handleGetAccount id s' = mkResp (B := B) 200 (PAccount a) ∧
    sign_pair lib DilithiumLevel3 dk ∧ acc_PublicKey a = dk_PublicKey dk ∧
    GetDecryptedPrivateKey open_ env_key a = Ok (dk_PrivateKey dk).
Proof.
  intros Hopen Hn Href Hh. unfold handleCreateWallet.
  destruct (NewWallet _ _ _) as [[ds [w|e]]|] eqn:Hnew; [|by intros [= <- <-]|done].
  cbn [mbind option_bind].
  destruct (Wallet.RegisterAccount _ _ _ _ _) as [m [[]|e]] eqn:Hreg; [|by intros [= <- <-]].
  destruct (NewWallet_fresh _ _ _ _ _ Hnew) as [_ Hsig _].
  destruct (RegisterAccount_stored seal open_ _ _ _ _ _ Hopen Hn Hreg) as (a0 & Ha0 & Hpub & _ & Hdec).
  destruct (RegisterAccount_insert _ _ _ _ _ _ Hreg) as (a1 & Hno & -> & Hb1 & Hst1).
  cbn [api_supply] in *. rewrite lookup_insert_eq in Ha0. injection Ha0 as ->.
  destruct (refines_register _ _ _ _ Href Hno Hb1) as [Href1 Hh1]. specialize (Hh1 Hh).
  set (ts1 := with_accts _ _) in *.
  pose proof (mint_refines _ _ (w_ID w) 100 Href1 ltac:(by vm_compute) Hh1) as [Href2 _].
  assert (FundNewWallet (w_ID w) DefaultInitialFunding ts1 = MintTokens (w_ID w) (f_of_Z 100) ts1)
    as Hfund by done.
  destruct (fund_keeps_keys (w_ID w) DefaultInitialFunding ts1 (w_ID w) a0) as (a & Ha & Hkeys & Hst);
    [apply lookup_insert_eq|].
  rewrite Hfund in *. set (ts2 := (MintTokens _ _ _).1) in *.
  destruct (balance_known _ _ _ _ Href2 Ha) as (b & Hb & Hba & Hbe).
  unfold Wallet.GetBalance, GetAccount. rewrite Ha, Hba.
  rewrite respond_finite by (repeat constructor; by apply f_finite_of_Z).
  intros [= <- <-] _. exists (w_ID w), a, b, (w_Sig w). destruct Hkeys as [Hp Hk].
  split_and!; try done.
  - by apply (balance_missing _ _ _ Href).
  - by rewrite Hp, Hpub.
  - eapply account_served; [done|exact Href2|done|]. by rewrite Hst, Hst1.
  - congruence.
  - by rewrite (decrypted_same_keys _ _ a0 a).
Qed.

(** ** Routes *)

(** the pending list has no address.  A template with a variable segment
    matches any segment in its place and a template without variables only
    itself; so, "/transactions/{id}" being registered first, no request,
    whatever its method and path, is dispatched to the handler of
    "/transactions/pending". *)
Theorem pending_unreachable matches method path :
  matches "/transactions/{id}" "/transactions/pending" = true →
  (∀ p, matches "/transactions/pending" p = true → p = "/transactions/pending"%string) →
  dispatch matches method path ≠ Some HGetPendingTransactions.
Proof.
  intros Hvar Hlit. unfold dispatch.
  destruct (decide (path = "/transactions/pending"%string)) as [->|Hne].
  - cbn [StartServer_routes RegisterTransactionRoutes app find rt_path rt_method].
    rewrite Hvar. destruct (bool_decide ("GET" = method)) eqn:Hm;
      repeat case_match; try discriminate; cbn in *; congruence || (rewrite andb_false_r in *; discriminate).
  - assert (matches "/transactions/pending" path = false) as Hno.
    { destruct (matches _ path) eqn:Hm; [|done]. by apply Hlit in Hm. }
    cbn [StartServer_routes RegisterTransactionRoutes app find rt_path rt_method].
    rewrite Hno. repeat case_match; discriminate.
Qed.

(** ** Concrete requests *)

Definition api0 : ApiState (T := DefaultNonceTracker) (L := mem_ledger) :=
  mkApi manager0 (with_accts (<["bob" := blank_account "bob" [x02] (f_of_Z 0) 0 0]> (accts supply_sample))
    supply_sample) no_stats.
Definition request0 : TransactionSubmitRequest := mkSubmit "alice" "bob" (f_of_Z 5) (f_of_Z 1) [x07].
Definition submit0 : option (ApiState (T := DefaultNonceTracker) (L := mem_ledger) * Response ()) :=
  handleSubmitTransaction sig_true wild0 fixed8 sample_signer "" no_open no_sign
    (λ _ : ManagerError CommonError, "refused"%string) sample_clock 50 (Some request0) api0.

Example submit0_created : (λ p, rs_code p.2) <$> submit0 = Some 201.
Proof. by vm_compute. Qed.

Lemma submit_served_witness :
  ∃ s' r, submit0 = Some (s', r) ∧
    api_supply s' = api_supply api0 ∧ ledger (api_TxManager s') = ledger (api_TxManager api0) ∧
    ((rs_code r = 400 ∧ s' = api0) ∨ (rs_code r = 500 ∧ nothing_added api0 s') ∨
     (∃ t, r = mkResp 201 (PTx t) ∧
        tr_Sender t = "alice"%string ∧ tr_Receiver t = "bob"%string ∧
        tr_Amount t = f_of_Z 5 ∧ tr_Fee t = f_of_Z 1 ∧ tr_Data t = [x07] ∧
        (handleSuggestTransactionNonce "alice" api0).2
          = mkResp (B := ()) 200 (PNonce "alice" (tr_Nonce t)) ∧
        handleGetTransactionStatus (LE := CommonError) (λ _, "refused"%string) (tr_ID t) s'
          = mkResp (B := ()) 200 (PTxStatus (tr_ID t) "Pending") ∧
        ∀ order, iter_order (txMap (tm_pool (api_TxManager s'))) order →
          handleGetTransaction None order (tr_ID t) s' = mkResp (B := ()) 200 (PTx t))).
Proof.
  apply (submit_served (B := ()) (LE := CommonError) sig_true wild0 fixed8 sample_signer ""
    no_open no_sign (λ _, "refused"%string) None sample_clock 50 request0 api0).
  - split; [by vm_compute|split; [apply pool_empty_wf|split; by vm_compute]].
  - by vm_compute.
  - by vm_compute.
Defined.

Definition api1 : ApiState (T := DefaultNonceTracker) (L := mem_ledger) :=
  mkApi manager0 supply_sample no_stats.

Lemma fund_refines_witness :
  ∃ s' r, handleFundWallet (B := ()) "alice" (Some (f_of_Z 990)) api1 = (s', r) ∧
    api_TxManager s' = api_TxManager api1 ∧
    match l_bal ledger_sample !! "alice"%string with
    | None => s' = api1 ∧ rs_code r = 404
    | Some _ =>
        refines (api_supply s') (spec_mint "alice" 990 ledger_sample).1 ∧
        match (spec_mint "alice" 990 ledger_sample).2 with
        | Ok _ => ∃ b, l_bal (spec_mint "alice" 990 ledger_sample).1 !! "alice"%string = Some b ∧
            r = mkResp 200 (PFunded "alice" (f_of_Z b))
        | Err _ => rs_code r = if decide (990 ≤ 0) then 400 else 500
        end
    end.
Proof.
  apply (fund_refines (B := ()) "alice" 990 api1 ledger_sample);
    [apply sample_refines|by vm_compute|by vm_compute].
Defined.

Definition wallet_request0 : option (ApiState (T := DefaultNonceTracker) (L := mem_ledger) * Response ()) :=
  handleCreateWallet key_hex toy_seal toy_lib wallet_env0 (Some nonce0) api1.
Definition api2 : ApiState (T := DefaultNonceTracker) (L := mem_ledger) :=
  match wallet_request0 with Some (s, _) => s | None => api1 end.
Definition created0 : Response () :=
  match wallet_request0 with Some (_, r) => r | None => mkResp 0 PMarshalError end.

Lemma wallet_request0_eq : wallet_request0 = Some (api2, created0) ∧ rs_code created0 = 201.
Proof.
  assert ((λ p, rs_code p.2) <$> wallet_request0 = Some 201) as Hc by (vm_compute; reflexivity).
  unfold api2, created0. destruct wallet_request0 as [[s r]|]; [|discriminate].
  injection Hc as Hc. by split.
Qed.

Lemma created_wallet_served_witness :
  ∃ id a b dk, let l' := (spec_mint id 100 (with_account id ledger_sample)).1 in
    l_bal ledger_sample !! id = None ∧ api_TxManager api2 = api_TxManager api1 ∧
    refines (api_supply api2) l' ∧ l_bal l' !! id = Some b ∧
    created0 = mkResp 201 (PWallet id (hex_string (acc_PublicKey a)) (f_of_Z b)) ∧
    handleGetAccount id api2 = mkResp (B := ()) 200 (PAccount a) ∧
    sign_pair toy_lib DilithiumLevel3 dk ∧ acc_PublicKey a = dk_PublicKey dk ∧
    GetDecryptedPrivateKey toy_open key_hex a = Ok (dk_PrivateKey dk).
Proof.
  destruct wallet_request0_eq as [Heq Hcode].
  apply (created_wallet_served (B := ()) toy_lib toy_seal toy_open key_hex wallet_env0 nonce0
    api1 api2 ledger_sample created0).
  - apply toy_open_seal.
  - reflexivity.
  - apply sample_refines.
  - by vm_compute.
  - exact Heq.
  - exact Hcode.
Defined.

(** A router that compares templates with paths; [var] says that the template
    is inside a variable, whose segment the path has yet to pass. *)
Fixpoint pass_segment (p : string) : string :=
  match p with
  | EmptyString => EmptyString
  | String b q => if bool_decide (b = "/"%char) then p else pass_segment q
  end.
Fixpoint mux_match (var : bool) (t p : string) : bool :=
  match t with
  | EmptyString => bool_decide (p = EmptyString)
  | String a t =>
      if var then if bool_decide (a = "}"%char) then mux_match false t (pass_segment p)
                  else mux_match true t p
      else if bool_decide (a = "{"%char)
      then negb (bool_decide (pass_segment p = p)) && mux_match true t p
      else match p with
           | EmptyString => false
           | String b p => bool_decide (a = b) && mux_match false t p
           end
  end.
Definition mux : string → string → bool := mux_match false.

Fixpoint literal (t : string) : bool :=
  match t with
  | EmptyString => true
  | String a t => negb (bool_decide (a = "{"%char)) && literal t
  end.

Lemma mux_literal t : literal t = true → ∀ p, mux t p = true → p = t.
Proof.
  unfold mux. induction t as [|a t IH]; intros Hl p Hp; cbn [mux_match literal] in *.
  { by apply bool_decide_eq_true in Hp. }
  apply andb_prop in Hl as [Ha Hl]. apply negb_true_iff in Ha. rewrite Ha in Hp.
  destruct p as [|b p]; [discriminate|]. apply andb_prop in Hp as [Hab Hp].
  apply bool_decide_eq_true in Hab as ->. by rewrite (IH Hl p Hp).
Qed.

Lemma pending_unreachable_witness :
  dispatch mux "GET" "/transactions/pending" ≠ Some HGetPendingTransactions ∧
  dispatch mux "GET" "/transactions/pending" = Some HGetTransaction ∧
  dispatch mux "GET" "/transactions/pool/stats" = Some HGetTransactionPoolStats ∧
  dispatch mux "GET" "/accounts/a/nonce" = Some HSuggestTransactionNonce.
Proof.
  split; [|by vm_compute].
  apply (pending_unreachable mux "GET" "/transactions/pending"); [by vm_compute|].
  apply mux_literal. reflexivity.
Defined.
