(* ===== verification/StartUp.v ===== *)
(** * The started node: src/main.go, src/logger_adapter.go

    The wrappers main.go puts around the ledger, the block store and the
    consensus, and what [main] builds from them: the network of Network.v,
    the pool and manager of TxPool.v and TxManager.v over the ledger of
    Ledger.v, the HTTP interface of Api.v, the Lachesis coordinator of
    Lachesis.v with the clock and the stake of PoH.v and DPoS.v, and the
    token supply.  [main] and the goroutine that runs the HTTP server are two
    processes that move in any order.  The environment file and the log lines
    are left out. *)
From Stdlib Require Import ZArith Lia SpecFloat.
From Stdlib Require Import Strings.Byte Strings.Ascii Strings.String.
From stdpp Require Import numbers prelude gmap strings pretty.
From S2P Require Import Prelude GoFloat Maps Bytes Sha256 PoH DPoS Common Accounts Crypto.
From S2P Require Import TxQueue TxPool TxUtils TxManager Wallet Ledger Network Dag Voting Finalizer.
From S2P Require Import Gossip Lachesis TokenSupply Api.
Open Scope Z_scope.

(** ** Log fields *)

(** Pairs whose first member is not a string are skipped, as is a last key
    without a value. *)
Fixpoint add_fields {V} (as_string : V → option string) (keyvals : list V) (fields : gmap string V) :
    gmap string V :=
  match keyvals with
  | k :: v :: rest =>
      add_fields as_string rest
        (match as_string k with Some key => <[key := v]> fields | None => fields end)
  | _ => fields
  end.
Definition convertToFields {V} (as_string : V → option string) (keyvals : list V) : gmap string V :=
  add_fields as_string keyvals ∅.

(** ** The consensus wrapper *)

Record ConsensusWrapper := mkWrapper {
  cw_lachesis : Lachesis; cw_dpos : DPoS; cw_poh : PoH }.
Definition NewConsensusWrapper (l : Lachesis) (d : DPoS) (p : PoH) : ConsensusWrapper := mkWrapper l d p.
Definition cw_with (l : Lachesis) (cw : ConsensusWrapper) : ConsensusWrapper :=
  mkWrapper l (cw_dpos cw) (cw_poh cw).

Definition cw_GetNetworkLoad (cw : ConsensusWrapper) : f64 := GetNetworkLoad (cw_lachesis cw).
Definition cw_Start (cw : ConsensusWrapper) : ConsensusWrapper * result LachesisError () :=
  let '(l, r) := Lachesis.Start (cw_lachesis cw) in (cw_with l cw, r).
Definition cw_Stop (cw : ConsensusWrapper) : ConsensusWrapper * result LachesisError () :=
  let '(l, r) := Lachesis.Stop (cw_lachesis cw) in (cw_with l cw, r).
(** Two stubs. *)
Definition cw_ProcessBlock (blockNumber : Z) (cw : ConsensusWrapper) : ConsensusWrapper := cw.
Definition cw_SynchronizeState (target : bytes32) (count : Z) (cw : ConsensusWrapper) : ConsensusWrapper := cw.
Definition cw_CreateEvent (now : Z) (creator : bytes32) (parentIDs : list bytes32) (data : list byte)
    (cw : ConsensusWrapper) : ConsensusWrapper * option loc :=
  let '(l, e) := CreateEvent now creator parentIDs data (cw_lachesis cw) in (cw_with l cw, e).
Definition cw_FinalizeEvent (oT1 oA1 oT2 oA2 : gmap bytes32 Node → list bytes32) (ev : loc)
    (cw : ConsensusWrapper) : option (ConsensusWrapper * result string bool) :=
  '(l, b) ← ProcessEvent oT1 oA1 oT2 oA2 ev (cw_lachesis cw);
  Some (cw_with l cw, if b : bool then Ok true else Err "failed to finalize event"%string).
Definition cw_GetValidators (order : list bytes32) (cw : ConsensusWrapper) : list (bytes32 * Z) :=
  GetValidators order (cw_dpos cw).
Definition cw_GetActiveValidators (cw : ConsensusWrapper) : list (bytes32 * Z) :=
  GetActiveValidators (cw_dpos cw).
Definition cw_GetPendingEvents (cw : ConsensusWrapper) : list loc := GetPendingEvents (cw_lachesis cw).
Definition cw_GetFinalizedEvents (fuel : nat) (fromHeight toHeight : Z) (cw : ConsensusWrapper) :=
  GetFinalizedEvents fuel fromHeight toHeight (cw_lachesis cw).
Definition cw_GetState (c : codecs) (cw : ConsensusWrapper) : list byte := GetState c (cw_lachesis cw).

(** ** The ledger wrapper: what the ledger does not implement *)

Section wrappers.
Context {Coll : Type → Type → Type} {E : Type} `{!Driver Coll E}.
Variable decode_block : BlockDoc → option Block.
Implicit Types l : MongoLedger Coll.

Definition mlw_Close l : result string () := Ok ().
Definition mlw_GetAccountTransactions l (accountID : string) (limit offset : Z) :
    result string (list Transaction) := Ok [].
Definition mlw_GetBlockHeight l : result string Z := Ok 0.
Definition mlw_GetBlocksByRange l (startNum endNum : Z) : result string (list Block) := Ok [].
Definition mlw_GetTransaction l (txID : string) : result string Transaction :=
  Err "transaction not found"%string.
Definition mlw_HealthCheck l : result string () := Ok ().
Definition mlw_GetLastBlockHash l : result string string :=
  Ok "0000000000000000000000000000000000000000000000000000000000000000"%string.

(** ** The store wrapper *)

(** [storage.Block]; the time in nanoseconds. *)
Record StorageBlock := mkStorageBlock {
  sb_Number : Z; sb_Timestamp : Z; sb_Transactions : list Transaction;
  sb_PrevBlockHash : string; sb_BlockHash : string }.

Definition sw_GetBlock (blockNumber : Z) l : result (LedgerError E) StorageBlock :=
  match GetBlock decode_block blockNumber l with
  | Err e => Err e
  | Ok b => Ok (mkStorageBlock blockNumber (bk_Timestamp b * second) [] (bk_PreviousHash b) (bk_Hash b))
  end.
Definition to_common (block : StorageBlock) : Block :=
  mkBlock (i64 (sb_Number block)) (sb_PrevBlockHash block) (sb_BlockHash block) []
    (unix (sb_Timestamp block)) "" "" "" "" [] [] [] [].
Definition sw_SaveBlock (block : StorageBlock) l : MongoLedger Coll * result (LedgerError E) () :=
  SaveBlock (to_common block) l.
End wrappers.

(** ** [main] *)

(** A handle on the collection of blocks, the one the ledger of the same
    database has, or on none at all. *)
Inductive MongoStore := BlocksStore | NewMockMongoStore.
Definition NewMongoStore {E} (connect : option E) : result E MongoStore :=
  match connect with Some e => Err e | None => Ok BlocksStore end.

(** What [ListenAndServe] on port 8080 comes to: it only returns an error. *)
Inductive listen_result := Serves | CannotListen (err : string) | FailsLater (err : string).

Section main.
Context {Coll : Type → Type → Type} {E P : Type} `{!Driver Coll E}.

(** A ledger of [None] is the mock: a structure whose collections are all
    nil, on which every call of the driver panics. *)
Record node := mkNode {
  nd_ledger : option (MongoLedger Coll);
  nd_store : MongoStore;
  nd_network : NetworkManager P;
  nd_consensus : ConsensusWrapper;
  nd_pool : TransactionPool;
  nd_tokens : TokenSupply }.
Definition with_consensus (cw : ConsensusWrapper) (n : node) : node :=
  mkNode (nd_ledger n) (nd_store n) (nd_network n) cw (nd_pool n) (nd_tokens n).
Definition with_tokens (ts : TokenSupply) (n : node) : node :=
  mkNode (nd_ledger n) (nd_store n) (nd_network n) (nd_consensus n) (nd_pool n) ts.

(** Where the goroutine of [main] stands, and the one it starts. *)
Inductive main_pc := AtGo | AtConsensus | AtSupply | AtSelect.
Inductive server := Unstarted | Spawned | Listening.

(** [Exited]: [logger.Fatalf] in either goroutine ends the process. *)
Inductive process :=
| Running (pc : main_pc) (srv : server) (n : node)
| Exited (message : string)
| Panicked.

(** [main] up to [api.NewAPI].  [clk]: the readings of the clock; [db]: the
    database as it is found. *)
Definition boot (clk : nat → Z) (connect indexes connect' : option E) (db : MongoLedger Coll) :
    process :=
  let mongoLedger :=
    match NewMongoLedger connect indexes db with Ok l => Some l | Err _ => None end in
  let mongoStore :=
    match NewMongoStore connect' with Ok st => st | Err _ => NewMockMongoStore end in
  let discovery := NewBasicDiscovery ["127.0.0.1:30303"%string] false in
  let nm := NewNetworkManager "0.0.0.0:30303" (SetNetworkManager true discovery) in
  match Network.Start nm with
  | NDone nm (Ok _) =>
      match NewTransactionPool (clk 0%nat) 100 (10 * second) f_one (f_of_Z 10) (60 * second) false false with
      | None => Panicked
      | Some txPool =>
          let cw := NewConsensusWrapper (NewLachesis (100 * 1000000)) (NewDPoS 21 1000)
                      (NewPoH (clk 1%nat) zero32 second) in
          Running AtGo Unstarted (mkNode mongoLedger mongoStore nm cw txPool (GetTokenSupply ∅))
      end
  | NDone _ (Err _) => Exited "Failed to start network manager"
  | _ => Panicked
  end.

(** The next statement of [main]; [select {}] blocks it for ever. *)
Definition main_next (clk : nat → Z) (p : process) : option process :=
  match p with
  | Running AtGo _ n => Some (Running AtConsensus Spawned n)
  | Running AtConsensus srv n =>
      Some (match cw_Start (nd_consensus n) with
            | (cw, Ok _) => Running AtSupply srv (with_consensus cw n)
            | (_, Err _) => Exited "Failed to start consensus"
            end)
  | Running AtSupply srv n =>
      let treasuryID := "treasury-" +:+ GenerateUniqueID (clk 2%nat) in
      Some (Running AtSelect srv
              (with_tokens (Initialize (clk 3%nat) DefaultTotalSupply treasuryID (nd_tokens n)).1 n))
  | _ => None
  end.

(** The other goroutine: [StartServer] until it returns, then [Fatalf]. *)
Definition server_next (listen : listen_result) (p : process) : option process :=
  match p, listen with
  | Running pc Spawned n, (Serves | FailsLater _) => Some (Running pc Listening n)
  | Running _ Spawned _, CannotListen err | Running _ Listening _, FailsLater err =>
      Some (Exited ("API server error: " +:+ err))
  | _, _ => None
  end.

(** Either goroutine moves. *)
Inductive proc_step (clk : nat → Z) (listen : listen_result) : process → process → Prop :=
| ps_main p p' : main_next clk p = Some p' → proc_step clk listen p p'
| ps_server p p' : server_next listen p = Some p' → proc_step clk listen p p'.

(** The HTTP interface of a node with a ledger. *)
Definition api_of (n : node) : option (ApiState (T := DefaultNonceTracker) (L := MongoLedger Coll)) :=
  l ← nd_ledger n;
  Some (mkApi (NewTransactionManager (nd_pool n) f_one false l) (nd_tokens n) no_stats).
End main.
Arguments node Coll P : clear implicits.
Arguments process Coll P : clear implicits.

(** * Properties *)

Lemma one_account_ok id n : 0 ≤ n → exact_int n → bal_ok (<[id := n]> ∅).
Proof.
  intros Hn He. split.
  - intros i b [[_ <-]|[_ Hb]]%lookup_insert_Some; [done|]. by rewrite lookup_empty in Hb.
  - rewrite msum_insert_new, msum_empty by apply lookup_empty. by rewrite Z.add_0_r.
Qed.

(** The integer ledger of a node that has just started. *)
Definition first_ledger (treasury : string) : TokenSupply.Ledger :=
  TokenSupply.mkLedger (<[treasury := 100000000]> ∅) 0 treasury.

Lemma treasury_initialized now treasury : treasury ≠ EmptyString →
  refines (Initialize now DefaultTotalSupply treasury (GetTokenSupply ∅)).1 (first_ledger treasury).
Proof.
  intros Hne.
  destruct (Initialize_refines now 100000000 treasury (GetTokenSupply ∅) ∅) as (ts' & Hi & Hr).
  - intros i. by rewrite !lookup_empty.
  - by apply one_account_ok.
  - lia.
  - by vm_compute.
  - done.
  - change DefaultTotalSupply with (f_of_Z 100000000). rewrite Hi. exact Hr.
Qed.

Section properties.
Context {Coll : Type → Type → Type} {E P B : Type} `{DriverLaws Coll E}.
Variable decode_tx : TxDoc → option Transaction.
Variable manager_error : ManagerError (LedgerError E) → string.
#[local] Instance api_here : LedgerAPI (MongoLedger Coll) (LedgerError E) := mongo_ledger_api decode_tx.
Implicit Types s : ApiState (T := DefaultNonceTracker) (L := MongoLedger Coll).

(** The node before the consensus starts, after it, and with its supply. *)
Definition node_at clk connect indexes connect' (db : MongoLedger Coll) (pc : main_pc) (n : node Coll P) :
    Prop :=
  ∃ n0, boot clk connect indexes connect' db = Running AtGo Unstarted n0 ∧
    let n1 := with_consensus (cw_Start (nd_consensus n0)).1 n0 in
    match pc with
    | AtGo | AtConsensus => n = n0
    | AtSupply => n = n1
    | AtSelect => n = with_tokens (Initialize (clk 3%nat) DefaultTotalSupply
                        ("treasury-" +:+ GenerateUniqueID (clk 2%nat)) (nd_tokens n1)).1 n1
    end.

(** The states of a run. *)
Definition startup_inv clk connect indexes connect' (db : MongoLedger Coll) (listen : listen_result)
    (p : process Coll P) : Prop :=
  match p with
  | Running pc srv n => node_at clk connect indexes connect' db pc n ∧
      (srv = Unstarted ↔ pc = AtGo) ∧ ∀ err, listen = CannotListen err → srv ≠ Listening
  | Exited m => ∃ err, (listen = CannotListen err ∨ listen = FailsLater err) ∧
      m = "API server error: " +:+ err
  | Panicked => False
  end.

Lemma boot_inv clk connect indexes connect' db listen :
  startup_inv clk connect indexes connect' db listen (boot clk connect indexes connect' db).
Proof.
  unfold startup_inv, node_at, boot. cbn [Network.Start locked nm_locked NewNetworkManager nm_running].
  destruct (NewTransactionPool (clk 0%nat) 100 (10 * second) f_one (f_of_Z 10) (60 * second) false false)
    eqn:Hpool; [|done]. cbn. split; [by eexists|]. split; [done|by intros].
Qed.

Lemma cw_Start_ok clk connect indexes connect' (db : MongoLedger Coll) (n : node Coll P) :
  node_at clk connect indexes connect' db AtConsensus n → (cw_Start (nd_consensus n)).2 = Ok ().
Proof.
  intros (n0 & Hb & ->). unfold boot in Hb.
  cbn [Network.Start locked nm_locked NewNetworkManager nm_running] in Hb.
  destruct (NewTransactionPool (clk 0%nat) 100 (10 * second) f_one (f_of_Z 10) (60 * second) false false);
    [|done]. by injection Hb as <-.
Qed.

Lemma proc_step_inv clk connect indexes connect' db listen p p' :
  startup_inv clk connect indexes connect' db listen p → proc_step clk listen p p' →
  startup_inv clk connect indexes connect' db listen p'.
Proof.
  intros Hi Hs. destruct Hs as [p p' Hs|p p' Hs]; destruct p as [pc srv n| |]; try done; cbn in Hi, Hs.
  - destruct Hi as (Hn & Hu & Hl). destruct pc; [injection Hs as <-|revert Hs|injection Hs as <-|done].
    + split; [exact Hn|]. by split.
    + pose proof (cw_Start_ok _ _ _ _ _ _ Hn) as Hok.
      destruct (cw_Start (nd_consensus n)) as [cw r] eqn:Hcw. cbn in Hok. subst r. intros [= <-].
      split; [|split; [|exact Hl]]; [|by rewrite Hu].
      destruct Hn as (n0 & Hb & Hn0). exists n0. split; [exact Hb|]. cbn in *. subst n. by rewrite Hcw.
    + split; [|split; [|exact Hl]]; [|by rewrite Hu].
      destruct Hn as (n0 & Hb & Hn0). exists n0. split; [exact Hb|]. cbn in *. by subst n.
  - destruct Hi as (Hn & Hu & Hl).
    destruct srv; [done|..]; destruct listen as [|err|err]; try done; injection Hs as <-.
    + split; [exact Hn|]. split; [|done]. by rewrite <- Hu.
    + exists err. by split; [left|].
    + split; [exact Hn|]. split; [|done]. by rewrite <- Hu.
    + exists err. by split; [right|].
Qed.

(** Steps to go at most. *)
Definition rank (p : process Coll P) : nat :=
  match p with
  | Running pc srv _ =>
      match pc with AtGo => 3 | AtConsensus => 2 | AtSupply => 1 | AtSelect => 0 end +
      match srv with Unstarted => 2 | Spawned => 2 | Listening => 1 end
  | _ => 0
  end.

Lemma proc_step_rank clk connect indexes connect' db listen p p' :
  startup_inv clk connect indexes connect' db listen p → proc_step clk listen p p' →
  (rank p' < rank p)%nat.
Proof.
  intros Hi Hs. destruct Hs as [p p' Hs|p p' Hs]; destruct p as [pc srv n| |]; try done; cbn in Hi, Hs.
  - destruct Hi as (_ & Hu & _). destruct pc; [|revert Hs|..]; try done.
    + injection Hs as <-. rewrite (proj2 Hu eq_refl). cbn. lia.
    + destruct (cw_Start _) as [cw [[]|]]; intros [= <-]; destruct srv; cbn; lia.
    + injection Hs as <-. destruct srv; cbn; lia.
  - destruct srv, listen; try done; injection Hs as <-; destruct pc; cbn; lia.
Qed.

Lemma run_rank clk connect indexes connect' db listen k : ∀ p p',
  startup_inv clk connect indexes connect' db listen p → nsteps (proc_step clk listen) k p p' →
  startup_inv clk connect indexes connect' db listen p' ∧ (k + rank p' ≤ rank p)%nat.
Proof.
  induction k as [|k IH]; intros p p' Hi Hr; inversion Hr as [|k' p1 p2 p3 Hs Hr']; subst; [done|].
  pose proof (proc_step_rank _ _ _ _ _ _ _ _ Hi Hs).
  destruct (IH p2 p' (proc_step_inv _ _ _ _ _ _ _ _ Hi Hs) Hr') as [Hi' ?]. split; [exact Hi'|lia].
Qed.

(** Where a process that can go no further has got to. *)
Lemma stopped_at clk connect indexes connect' db listen p :
  startup_inv clk connect indexes connect' db listen p → (∀ p', ¬ proc_step clk listen p p') →
  match listen with
  | Serves => ∃ n, p = Running AtSelect Listening n ∧ node_at clk connect indexes connect' db AtSelect n
  | CannotListen err | FailsLater err => p = Exited ("API server error: " +:+ err)
  end.
Proof.
  intros Hi Hno.
  assert (∀ p', main_next clk p ≠ Some p') as Hm by (intros p' Hs; apply (Hno p'); by apply ps_main).
  assert (∀ p', server_next listen p ≠ Some p') as Hv by (intros p' Hs; apply (Hno p'); by apply ps_server).
  destruct p as [pc srv n|m|]; [|by destruct Hi as (err & [-> | ->] & ->)|done].
  destruct Hi as (Hn & Hu & Hl). destruct pc; try (by edestruct Hm).
  destruct srv; [by pose proof (proj1 Hu eq_refl)|..]; destruct listen as [|err|err];
    try (by edestruct Hv).
  - by exists n.
  - by destruct (Hl err).
Qed.

Lemma boot_rank clk connect indexes connect' db :
  (rank (boot clk connect indexes connect' db) ≤ 5)%nat.
Proof.
  unfold boot. cbn [Network.Start locked nm_locked NewNetworkManager nm_running].
  by destruct (NewTransactionPool _ _ _ _ _ _ _ _); cbn; lia.
Qed.

(** The node that serves. *)
Lemma serving_node clk connect indexes connect' db n : ledger_wf db →
  node_at clk connect indexes connect' db AtSelect n →
  let treasury := "treasury-" +:+ GenerateUniqueID (clk 2%nat) in
  nm_running (nd_network n) = true ∧ running (cw_lachesis (nd_consensus n)) = true ∧
  refines (nd_tokens n) (first_ledger treasury) ∧ headroom (first_ledger treasury) ∧
  (nd_store n = BlocksStore ↔ connect' = None) ∧
  (is_Some (api_of n) ↔ is_Ok (NewMongoLedger connect indexes db) = true) ∧
  ∀ s, api_of n = Some s →
    (∀ sender, submit_ready sender s) ∧ height_bound (ledger (api_TxManager s)).
Proof.
  intros Hw (n0 & Hb & Hn). unfold boot in Hb.
  cbn [Network.Start locked nm_locked NewNetworkManager nm_running] in Hb.
  destruct (NewTransactionPool (clk 0%nat) 100 (10 * second) f_one (f_of_Z 10) (60 * second) false false)
    as [txPool|] eqn:Hpool; [|done]. injection Hb as <-. cbn zeta in Hn. subst n.
  split; [done|]. split; [done|]. split; [by apply treasury_initialized|]. split.
  { unfold headroom. cbn [first_ledger TokenSupply.l_circ TokenSupply.l_bal].
    rewrite msum_insert_new, msum_empty by apply lookup_empty. by vm_compute. }
  split; [by destruct connect'|].
  unfold api_of. cbn [nd_ledger nd_pool nd_tokens with_consensus with_tokens].
  destruct (NewMongoLedger connect indexes db) as [l|e] eqn:Hl; cbn [mbind option_bind is_Ok].
  2:{ split; [|done]. split; [by intros [? ?]|done]. }
  split; [split; [done|by eexists]|]. intros s [= <-].
  destruct (pool_wf_new _ _ _ _ _ _ _ _ _ Hpool) as [Hwf Hmax].
  split; [|by eapply NewMongoLedger_bound].
  intros sender. split; [by vm_compute|]. split; [exact Hwf|].
  split; [injection Hpool as <-; by vm_compute|].
  cbn [api_TxManager tm_pool NewTransactionManager]. by rewrite Hmax.
Qed.

(** C25: what [main] and the server goroutine it starts come to, in every
    interleaving.  Whatever the database answers, the process does not panic,
    every run ends after at most five steps, and the only way to exit is the
    server's: when port 8080 cannot be listened on, or stops being, every run
    ends there.  Otherwise every run ends serving: [main] blocked, the server
    listening, the network and the consensus running and a token supply that
    refines a ledger holding everything in one treasury, with room to fund
    wallets.  The HTTP interface has a working ledger exactly when the
    database could be opened -- otherwise its collections are nil -- and then
    submissions are specified for every sender and the ledger's height bounds
    its blocks. *)
Theorem started_node clk connect indexes connect' (db : MongoLedger Coll) listen k (p : process Coll P) :
  ledger_wf db → nsteps (proc_step clk listen) k (boot clk connect indexes connect' db) p →
  (k ≤ 5)%nat ∧ p ≠ Panicked ∧ (∀ m, p = Exited m → listen ≠ Serves) ∧
  ((∀ p', ¬ proc_step clk listen p p') →
   match listen with
   | CannotListen err | FailsLater err => p = Exited ("API server error: " +:+ err)
   | Serves => ∃ n treasury, p = Running AtSelect Listening n ∧
       nm_running (nd_network n) = true ∧ running (cw_lachesis (nd_consensus n)) = true ∧
       refines (nd_tokens n) (first_ledger treasury) ∧ headroom (first_ledger treasury) ∧
       (nd_store n = BlocksStore ↔ connect' = None) ∧
       (is_Some (api_of n) ↔ is_Ok (NewMongoLedger connect indexes db) = true) ∧
       ∀ s, api_of n = Some s →
         (∀ sender, submit_ready sender s) ∧ height_bound (ledger (api_TxManager s))
   end).
Proof.
  intros Hw Hrun.
  destruct (run_rank clk connect indexes connect' db listen k _ _ (boot_inv _ _ _ _ _ _) Hrun) as [Hi Hk].
  split. { pose proof (boot_rank clk connect indexes connect' db). lia. }
  split; [by intros ->|]. split; [by intros m -> ->; destruct Hi as (err & [? | ?] & _)|].
  intros Hno. pose proof (stopped_at _ _ _ _ _ _ _ Hi Hno) as Hp.
  destruct listen as [|err|err]; [|exact Hp|exact Hp]. destruct Hp as (n & -> & Hn).
  exists n, ("treasury-" +:+ GenerateUniqueID (clk 2%nat)). split; [done|].
  by apply serving_node.
Qed.

(** a transaction that has left the pool is never served again.  On the
    started node, whose ledger wrapper stubs the queries, a transaction the
    database knows and the pool does not is reported Committed by the status
    endpoint and not found by [GET /transactions/{id}], and the list of an
    account's transactions holds pending ones only. *)
Theorem committed_never_served order txID accountID limit offset s :
  pool_wf (tm_pool (api_TxManager s)) → iter_order (txMap (tm_pool (api_TxManager s))) order →
  txID ≠ EmptyString → HasTransaction txID (tm_pool (api_TxManager s)) = false →
  IsTransactionCommitted decode_tx txID (ledger (api_TxManager s)) = true →
  handleGetTransactionStatus manager_error txID s = mkResp (B := B) 200 (PTxStatus txID "Committed") ∧
  rs_code (handleGetTransaction (B := B) (Some mlw_GetTransaction) order txID s) = 404 ∧
  ∀ ts, handleGetAccountTransactions (LE := LedgerError E) (B := B)
      (Some mlw_GetAccountTransactions) order accountID limit offset s = mkResp 200 (PTxs ts) →
    Forall (λ t, tr_Status t = "pending"%string ∧
      ∃ tx, lookup_tx (tm_pool (api_TxManager s)) (tr_ID t) = Some tx ∧ t = tx_response "pending" tx) ts.
Proof.
  intros Hp Ho Hid Hno Hyes. split_and!.
  - unfold handleGetTransactionStatus, GetTransactionStatus. rewrite bool_decide_eq_false_2, Hno by done.
    cbn [ledger_IsTransactionCommitted api_here mongo_ledger_api]. rewrite Hyes. by apply respond_finite.
  - unfold handleGetTransaction, GetPendingTransactions.
    rewrite bool_decide_eq_false_2, (find_pending _ _ _ Hp Ho) by done.
    unfold HasTransaction in Hno. apply bool_decide_eq_false in Hno.
    unfold lookup_tx. destruct (txMap _ !! txID) eqn:Hl; [by destruct Hno; eexists|]. done.
  - intros ts. unfold handleGetAccountTransactions. destruct (bool_decide (accountID = _)) eqn:Ha; [done|].
    unfold GetPendingTransactionsByAccount. rewrite Ha. cbn [mlw_GetAccountTransactions fmap list_fmap app].
    unfold respondWithJSON. destruct (forallb _ _); [|done]. intros [= <-].
    apply Forall_forall. intros t (tx & -> & Hin)%list_elem_of_fmap.
    apply list_elem_of_In, filter_In in Hin as [Hin _].
    apply list_elem_of_In, list_elem_of_fmap in Hin as (it & -> & Hin).
    unfold GetAllTransactions in Hin. apply list_elem_of_omap in Hin as (k & _ & Hk).
    split; [done|]. exists (it_tx it). split; [|done]. cbn [tr_ID tx_response].
    assert (lookup_tx (tm_pool (api_TxManager s)) k = Some (it_tx it)) as Hl.
    { unfold lookup_tx. destruct (txMap _ !! k); [|done]. cbn in Hk |- *. by rewrite Hk. }
    by rewrite (lookup_tx_id _ _ _ Hp Hl).
Qed.

(** saving a block and reading it back.  The store wrapper loses the
    block's transactions and the fraction of its second; everything else
    comes back, when the number was free. *)
Theorem store_roundtrip decode_block (b : StorageBlock) (l l' : MongoLedger Coll) :
  (∀ c, decode_block (StoreBlock c) = Some c) → 0 ≤ sb_Number b < 9223372036854775808 →
  (∀ k d, docs (blocksColl l) !! k = Some d → bd_number d ≠ Some (sb_Number b)) →
  sw_SaveBlock b l = (l', Ok ()) →
  sw_GetBlock decode_block (sb_Number b) l'
    = Ok (mkStorageBlock (sb_Number b) (unix (sb_Timestamp b) * second) [] (sb_PrevBlockHash b)
        (sb_BlockHash b)) ∨
  ∃ e, sw_GetBlock decode_block (sb_Number b) l' = Err (LErrDriver e).
Proof.
  intros Hdec Hn Hfree. unfold sw_SaveBlock, SaveBlock.
  destruct (InsertOne _ _ _ _) as [c [[]|e]] eqn:Hi; [|done]. intros [= <-].
  apply InsertOne_docs in Hi as [_ Hd]. unfold sw_GetBlock, GetBlock. cbn [blocksColl set_blocks].
  assert (i64 (sb_Number b) = sb_Number b) as Hi64 by (apply i64_small; unfold is_i64; lia).
  destruct (FindOne _ c) as [d| |e] eqn:Hf; [left|exfalso|right; by exists e].
  - apply FindOne_found in Hf as (k & Hk & Hp). apply bool_decide_eq_true in Hp.
    rewrite Hd in Hk. apply lookup_insert_Some in Hk as [[_ <-]|[_ Hk]].
    + cbn [Decode]. rewrite Hdec. done.
    + by destruct (Hfree _ _ Hk).
  - apply (FindOne_none _ _ None (StoreBlock (to_common b))) in Hf; [|rewrite Hd; apply lookup_insert_eq].
    apply bool_decide_eq_false in Hf. apply Hf. cbn. by rewrite Hi64.
Qed.
End properties.

(** ** Concrete nodes *)

Definition clock0 (k : nat) : Z := Z.of_nat k * second.
Definition boot0 : process mem () := boot clock0 None None None ledger_alice.
(** The server comes first, and the statements of [main] after it. *)
Definition next_main (p : process mem ()) : process mem () := default Panicked (main_next clock0 p).
Definition serving0 : process mem () :=
  next_main (next_main (default Panicked (server_next Serves (next_main boot0)))).

Lemma step_some {A} (f : A → option A) a d : is_Some (f a) → f a = Some (default d (f a)).
Proof. by intros [x ->]. Qed.

Lemma serving0_run : nsteps (proc_step clock0 Serves) 4 boot0 serving0.
Proof.
  econstructor; [apply ps_main, (step_some _ _ Panicked); by eexists|].
  econstructor; [apply ps_server, (step_some _ _ Panicked); by eexists|].
  econstructor; [apply ps_main, (step_some _ _ Panicked); by eexists|].
  econstructor; [apply ps_main, (step_some _ _ Panicked); by eexists|]. constructor.
Qed.

Lemma serving0_stopped p' : ¬ proc_step clock0 Serves serving0 p'.
Proof. intros Hs. inversion Hs as [p q Hq|p q Hq]; subst; discriminate Hq. Qed.

Lemma started_node_witness :
  (∃ (n : node mem ()) treasury, serving0 = Running AtSelect Listening n ∧
    refines (nd_tokens n) (first_ledger treasury) ∧ headroom (first_ledger treasury)) ∧
  ∀ p' : process mem (), proc_step clock0 (CannotListen "in use") (next_main boot0) p' →
    (∀ p, ¬ proc_step clock0 (CannotListen "in use") p' p) → p' = Exited "API server error: in use".
Proof.
  split.
  - destruct (started_node clock0 None None None ledger_alice Serves 4 serving0 ledger_alice_wf
      serving0_run) as (_ & _ & _ & H).
    destruct (H serving0_stopped) as (n & t & Hn & _ & _ & Hr & Hh & _). by exists n, t.
  - intros p' Hs Hno.
    assert (nsteps (proc_step clock0 (CannotListen "in use")) 2 boot0 p') as Hrun.
    { econstructor; [apply ps_main, (step_some _ _ Panicked); by eexists|].
      econstructor; [exact Hs|constructor]. }
    destruct (started_node clock0 None None None ledger_alice (CannotListen "in use") 2 p'
      ledger_alice_wf Hrun) as (_ & _ & _ & H). exact (H Hno).
Defined.

(** The database knows t1, the pool is empty. *)
Definition api_t1 : ApiState (T := DefaultNonceTracker) (L := MongoLedger mem) :=
  mkApi (NewTransactionManager pool_empty f_one false (AddTransaction decode_tx0 tx_t1 ledger_alice).1)
    supply_sample no_stats.

Lemma committed_never_served_witness :
  handleGetTransactionStatus (H0 := mongo_ledger_api decode_tx0) (λ _, "no"%string) "t1" api_t1
    = mkResp (B := ()) 200 (PTxStatus "t1" "Committed") ∧
  rs_code (handleGetTransaction (B := ()) (Some mlw_GetTransaction) [] "t1" api_t1) = 404 ∧
  ∀ ts, handleGetAccountTransactions (LE := LedgerError ()) (B := ())
      (Some mlw_GetAccountTransactions) [] "alice" "" "" api_t1 = mkResp 200 (PTxs ts) →
    Forall (λ t, tr_Status t = "pending"%string ∧
      ∃ tx, lookup_tx (tm_pool (api_TxManager api_t1)) (tr_ID t) = Some tx ∧ t = tx_response "pending" tx) ts.
Proof.
  apply (committed_never_served decode_tx0 (λ _, "no"%string) [] "t1" "alice" "" "" api_t1).
  - apply pool_empty_wf.
  - apply iter_orderb_true. by vm_compute.
  - discriminate.
  - by vm_compute.
  - by vm_compute.
Defined.

Definition decode_block0 (d : BlockDoc) : option Block :=
  match d with
  | StoreBlock b => Some b
  | LedgerBlock _ h p t txs => Some (mkBlock 0 p h txs t "" "" "" "" [] [] [] [])
  end.
Definition stored0 : StorageBlock := mkStorageBlock 7 (2 * second + 5) [tx_t1] "prev" "hash".

Lemma store_roundtrip_witness :
  let l' := (sw_SaveBlock stored0 ledger_alice).1 in
  sw_GetBlock decode_block0 7 l' = Ok (mkStorageBlock 7 (2 * second) [] "prev" "hash") ∨
  ∃ e, sw_GetBlock decode_block0 7 l' = Err (LErrDriver e).
Proof.
  apply (store_roundtrip decode_block0 stored0 ledger_alice).
  - reflexivity.
  - cbn. lia.
  - intros k d Hd. rewrite mem_docs_Some in Hd. by apply elem_of_nil in Hd.
  - reflexivity.
Defined.

(** The server can be listening before the supply is initialised. *)
Example served_early : ∃ n : node mem (),
  nsteps (proc_step clock0 Serves) 2 boot0 (Running AtConsensus Listening n) ∧
  nd_tokens n = GetTokenSupply ∅.
Proof.
  eexists. split.
  - econstructor; [apply ps_main, (step_some _ _ Panicked); by eexists|].
    econstructor; [apply ps_server; reflexivity|constructor].
  - reflexivity.
Qed.

(** A wallet made between the start of the server and the initialisation of
    the supply is not funded, and the client is told so only by its balance. *)
Example early_wallet :
  (λ p : ApiState (T := DefaultNonceTracker) (L := MongoLedger mem) * Response (),
     match rs_body p.2 with PWallet _ _ b => (rs_code p.2, b) | _ => (0, f_one) end)
    <$> handleCreateWallet key_hex toy_seal toy_lib wallet_env0 (Some nonce0)
          (mkApi (NewTransactionManager pool_empty f_one false ledger_alice) (GetTokenSupply ∅) no_stats)
  = Some (201, f_zero).
Proof. vm_compute. reflexivity. Qed.
