(* ===== verification/Governance.v ===== *)
(** * Governance: src/consensus/governance/governance.go

    Proposals, votes weighted by the stake the consensus reports, and the
    execution of passed proposals.  The consensus is known through the
    interface [ConsensusAdapter], a class; the instance at the end plugs in
    the DPoS and Lachesis models.  The JSON decoders of the three kinds of
    data are arguments; times are in nanoseconds. *)
From Stdlib Require Import ZArith Lia SpecFloat.
From Stdlib Require Import Strings.Byte Strings.String.
From stdpp Require Import numbers prelude gmap strings relations.
From S2P Require Import Prelude GoFloat FloatBounds Bytes Maps Sha256 Common DPoS Lachesis.
Open Scope Z_scope.

(** ** Data *)

Inductive ProposalStatus := Pending | Active | Passed | Rejected | Executed.

#[export] Instance status_eq_dec : EqDecision ProposalStatus.
Proof. solve_decision. Defined.

(** [ProposalStatus.String]. *)
Definition status_String (s : ProposalStatus) : string :=
  match s with
  | Pending => "Pending" | Active => "Active" | Passed => "Passed"
  | Rejected => "Rejected" | Executed => "Executed"
  end.

Inductive ProposalType :=
| ConsensusChange
| ParameterChange
| UpgradeProposal
| OtherType (n : Z).

Record Proposal := mkProposal {
  pr_ID : bytes32;
  pr_Type : ProposalType;
  Description : list byte;
  StartTime : Z;
  EndTime : Z;
  Status : ProposalStatus;
  Votes : gmap bytes32 bool;
  Data : list byte;
  Creator : bytes32 }.

Definition set_Status (s : ProposalStatus) (p : Proposal) : Proposal :=
  mkProposal (pr_ID p) (pr_Type p) (Description p) (StartTime p) (EndTime p) s (Votes p) (Data p)
    (Creator p).
Definition set_Votes (vs : gmap bytes32 bool) (p : Proposal) : Proposal :=
  mkProposal (pr_ID p) (pr_Type p) (Description p) (StartTime p) (EndTime p) (Status p) vs (Data p)
    (Creator p).

Record ConsensusChangeData := mkConsensusChange {
  NewGossipDelay : Z; NewVotingThreshold : f64; NewMaxSetSize : Z }.
Record ParameterChangeData := mkParameterChange { NewEpochDuration : Z; NewMinStake : Z }.
Record UpgradeProposalData := mkUpgrade { NewVersion : string; UpgradeHeight : Z }.

Inductive GovError :=
| ErrProposalNotFound
| ErrCannotCancel
| ErrNotAuthorized
| ErrNotActive
| ErrVotingEnded
| ErrNotValidator
| ErrNotPassed
| ErrUnknownType
| ErrGovUnmarshal
| ErrMissingVersion
| ErrUpgradeHeight (height current : Z)
| ErrSchedule
| ErrInvalidDuration.

(** ** The consensus seen by governance *)

Class ConsensusAdapter (C : Type) := {
  ca_is_active : bytes32 → C → bool;
  ca_total_stake : C → Z;
  ca_validator_stake : bytes32 → C → Z;
  ca_current_height : C → Z;
  ca_set_gossip_delay : Z → C → C;
  ca_set_voting_threshold : f64 → C → C;
  ca_set_set_size : Z → C → option C; (* None: a panic *)
  ca_set_epoch_duration : Z → C → C;
  ca_schedule_upgrade : string → Z → C → C * bool }.

(** What governance relies on: a positive set size never panics. *)
Class AdapterLaws (C : Type) `{ConsensusAdapter C} := {
  ca_ok : C → Prop;
  ca_ok_gossip d c : ca_ok c → ca_ok (ca_set_gossip_delay d c);
  ca_ok_threshold t c : ca_ok c → ca_ok (ca_set_voting_threshold t c);
  ca_ok_epoch d c : ca_ok c → ca_ok (ca_set_epoch_duration d c);
  ca_ok_upgrade v h c : ca_ok c → ca_ok (ca_schedule_upgrade v h c).1;
  ca_ok_size n c : 0 < n → ca_ok c → ∃ c', ca_set_set_size n c = Some c' ∧ ca_ok c' }.

(** ** State *)

Record Governance := mkGov {
  proposals : gmap bytes32 Proposal;
  votingDuration : Z;
  superValidators : gmap bytes32 bool }.

Definition with_proposals (m : gmap bytes32 Proposal) (g : Governance) : Governance :=
  mkGov m (votingDuration g) (superValidators g).

Definition NewGovernance (duration : Z) : Governance := mkGov ∅ duration ∅.

Definition AddSuperValidator (id : bytes32) (g : Governance) : Governance :=
  mkGov (proposals g) (votingDuration g) (<[id := true]> (superValidators g)).
Definition RemoveSuperValidator (id : bytes32) (g : Governance) : Governance :=
  mkGov (proposals g) (votingDuration g) (delete id (superValidators g)).

(** ** Proposals and votes *)

Definition majorityFraction : f64 := f_lit 66 2.

(** The SHA-256 input: start time, description, data, creator. *)
Definition proposal_id (startTime : Z) (description data : list byte) (creator : bytes32) :
    bytes32 := sha256 (be64 (u64 startTime) ++ description ++ data ++ b32 creator).

Definition CreateProposal (now : Z) (type : ProposalType) (description data : list byte)
    (creatorID : bytes32) (g : Governance) : Governance * bytes32 :=
  let startTime := now - 10000000 in
  let endTime := startTime + votingDuration g in
  let id := proposal_id startTime description data creatorID in
  (with_proposals (<[id := mkProposal id type description startTime endTime Pending ∅ data
     creatorID]> (proposals g)) g, id).

Definition CancelProposal (proposalID cancelerID : bytes32) (g : Governance) :
    Governance * result GovError () :=
  match proposals g !! proposalID with
  | None => (g, Err ErrProposalNotFound)
  | Some prop =>
      if negb (bool_decide (Status prop = Pending)) && negb (bool_decide (Status prop = Active))
      then (g, Err ErrCannotCancel)
      else if negb (bool_decide (Creator prop = cancelerID))
              && negb (default false (superValidators g !! cancelerID))
      then (g, Err ErrNotAuthorized)
      else (with_proposals (delete proposalID (proposals g)) g, Ok ())
  end.

Section governance.
Context {C : Type} `{ConsensusAdapter C}.

Definition Vote (now : Z) (proposalID validatorID : bytes32) (vote : bool) (c : C)
    (g : Governance) : Governance * result GovError () :=
  match proposals g !! proposalID with
  | None => (g, Err ErrProposalNotFound)
  | Some prop =>
      if negb (bool_decide (Status prop = Active)) then (g, Err ErrNotActive)
      else if EndTime prop <? now then (g, Err ErrVotingEnded)
      else if negb (ca_is_active validatorID c) then (g, Err ErrNotValidator)
      else (with_proposals
              (<[proposalID := set_Votes (<[validatorID := vote]> (Votes prop)) prop]>
                 (proposals g)) g, Ok ())
  end.

(** The loop over the votes, in the order of the map. *)
Definition tally_step (c : C) (votes : gmap bytes32 bool) (acc : Z * Z) (vid : bytes32) : Z * Z :=
  match votes !! vid with
  | Some true => (uadd acc.1 (ca_validator_stake vid c), acc.2)
  | Some false => (acc.1, uadd acc.2 (ca_validator_stake vid c))
  | None => acc
  end.
Definition tally (c : C) (votes : gmap bytes32 bool) (vorder : list bytes32) : Z * Z :=
  foldl (tally_step c votes) (0, 0) vorder.

Definition finalizeProposal (c : C) (vorder : list bytes32) (prop : Proposal) : Proposal :=
  let totalStake := ca_total_stake c in
  let '(yesStake, _) := tally c (Votes prop) vorder in
  if f_ge (f_of_Z yesStake) (f_mul (f_of_Z totalStake) majorityFraction)
  then set_Status Passed prop else set_Status Rejected prop.

(** One iteration of the loop of [ProcessProposals]. *)
Definition process_one (now : Z) (c : C) (vorder : list bytes32) (prop : Proposal) : Proposal :=
  match Status prop with
  | Pending => if StartTime prop <? now then set_Status Active prop else prop
  | Active => if EndTime prop <? now then finalizeProposal c vorder prop else prop
  | _ => prop
  end.

(** [order]: the iteration over the proposals; [vorder id]: over the votes
    of the proposal [id]. *)
Definition ProcessProposals (now : Z) (c : C) (order : list bytes32)
    (vorder : bytes32 → list bytes32) (g : Governance) : Governance :=
  with_proposals
    (foldl (λ m id, match m !! id with
                    | Some prop => <[id := process_one now c (vorder id) prop]> m
                    | None => m
                    end) (proposals g) order) g.

(** ** Execution *)

Section execution.
Variable dec_consensus : list byte → option ConsensusChangeData.
Variable dec_parameter : list byte → option ParameterChangeData.
Variable dec_upgrade : list byte → option UpgradeProposalData.

Definition executeConsensusChange (prop : Proposal) (c : C) : option (C * result GovError ()) :=
  match dec_consensus (Data prop) with
  | None => Some (c, Err ErrGovUnmarshal)
  | Some d =>
      let c := if 0 <? NewGossipDelay d then ca_set_gossip_delay (NewGossipDelay d) c else c in
      let c := if f_gt (NewVotingThreshold d) f_zero && f_le (NewVotingThreshold d) f_one
               then ca_set_voting_threshold (NewVotingThreshold d) c else c in
      c ← (if 0 <? NewMaxSetSize d then ca_set_set_size (NewMaxSetSize d) c else Some c);
      Some (c, Ok ())
  end.

Definition executeParameterChange (prop : Proposal) (c : C) : option (C * result GovError ()) :=
  match dec_parameter (Data prop) with
  | None => Some (c, Err ErrGovUnmarshal)
  | Some d =>
      Some (if 0 <? NewEpochDuration d then ca_set_epoch_duration (NewEpochDuration d) c else c,
            Ok ())
  end.

Definition executeUpgradeProposal (prop : Proposal) (c : C) : option (C * result GovError ()) :=
  match dec_upgrade (Data prop) with
  | None => Some (c, Err ErrGovUnmarshal)
  | Some d =>
      if bool_decide (NewVersion d = ""%string) then Some (c, Err ErrMissingVersion)
      else if UpgradeHeight d <=? ca_current_height c
      then Some (c, Err (ErrUpgradeHeight (UpgradeHeight d) (ca_current_height c)))
      else let '(c, ok) := ca_schedule_upgrade (NewVersion d) (UpgradeHeight d) c in
           Some (c, if ok then Ok () else Err ErrSchedule)
  end.

Definition executeProposal (prop : Proposal) (c : C) : option (C * result GovError ()) :=
  match pr_Type prop with
  | ConsensusChange =>
      if (length (Data prop) =? 0)%nat then Some (c, Ok ()) else executeConsensusChange prop c
  | ParameterChange => executeParameterChange prop c
  | UpgradeProposal => executeUpgradeProposal prop c
  | OtherType _ => Some (c, Err ErrUnknownType)
  end.

Definition ExecuteProposal (proposalID : bytes32) (g : Governance) (c : C) :
    option (Governance * C * result GovError ()) :=
  match proposals g !! proposalID with
  | None => Some (g, c, Err ErrProposalNotFound)
  | Some prop =>
      if negb (bool_decide (Status prop = Passed)) then Some (g, c, Err ErrNotPassed)
      else
        '(c, r) ← executeProposal prop c;
        match r with
        | Err e => Some (g, c, Err e)
        | Ok _ => Some (with_proposals (<[proposalID := set_Status Executed prop]> (proposals g)) g,
                        c, Ok ())
        end
  end.

(** The loop of [ExecutePassedProposals]; with [force] the one of the test
    mode, which marks a proposal executed even when its execution fails. *)
Fixpoint execute_loop (force : bool) (order : list bytes32) (m : gmap bytes32 Proposal) (c : C)
    (errs : list GovError) : option (gmap bytes32 Proposal * C * list GovError) :=
  match order with
  | [] => Some (m, c, errs)
  | id :: order =>
      match m !! id with
      | None => execute_loop force order m c errs
      | Some prop =>
          if bool_decide (Status prop = Passed) then
            '(c, r) ← executeProposal prop c;
            match r with
            | Ok _ => execute_loop force order (<[id := set_Status Executed prop]> m) c errs
            | Err e =>
                execute_loop force order
                  (if force then <[id := set_Status Executed prop]> m else m) c (errs ++ [e])
            end
          else execute_loop force order m c errs
      end
  end.

Definition ExecutePassedProposals (order : list bytes32) (g : Governance) (c : C) :
    option (Governance * C * list GovError) :=
  '(m, c, errs) ← execute_loop false order (proposals g) c [];
  Some (with_proposals m g, c, errs).

(** The test-mode part of a tick: force-finalize what has votes. *)
Definition force_step (c : C) (vorder : bytes32 → list bytes32)
    (acc : gmap bytes32 Proposal * list bytes32) (id : bytes32) :
    gmap bytes32 Proposal * list bytes32 :=
  match acc.1 !! id with
  | Some prop =>
      if bool_decide (Status prop = Active) && (0 <? Z.of_nat (size (Votes prop)))
      then (<[id := finalizeProposal c (vorder id) prop]> acc.1, acc.2 ++ [id])
      else acc
  | None => acc
  end.

(** One tick of [Run]. *)
Definition run_tick (testMode : bool) (now : Z) (o1 o2 o3 : list bytes32)
    (vo1 vo2 : bytes32 → list bytes32) (g : Governance) (c : C) : option (Governance * C) :=
  let g := ProcessProposals now c o1 vo1 g in
  if negb testMode then Some (g, c)
  else
    let '(m, ids) := foldl (force_step c vo2) (proposals g, []) o2 in
    match ids with
    | [] => Some (with_proposals m g, c)
    | _ =>
        '(m, c, _) ← execute_loop true o3 m c [];
        Some (with_proposals m g, c)
    end.
End execution.

(** ** Queries and maintenance *)

Definition GetVotingResults (vorder : list bytes32) (proposalID : bytes32) (c : C)
    (g : Governance) : result GovError (Z * Z * Z) :=
  match proposals g !! proposalID with
  | None => Err ErrProposalNotFound
  | Some prop =>
      let '(yes, no) := tally c (Votes prop) vorder in Ok (yes, no, ca_total_stake c)
  end.
End governance.

Definition GetProposal (proposalID : bytes32) (g : Governance) : result GovError Proposal :=
  match proposals g !! proposalID with None => Err ErrProposalNotFound | Some p => Ok p end.

Definition GetProposalStats (order : list bytes32) (g : Governance) : gmap string Z :=
  foldl (λ m p, <[status_String (Status p) := default 0 (m !! status_String (Status p)) + 1]> m)
    ∅ (visit (proposals g) order).

Definition ChangeVotingDuration (newDuration : Z) (g : Governance) :
    Governance * result GovError () :=
  if (newDuration <? 30 * minute) || (7 * 24 * hour <=? newDuration)
  then (g, Err ErrInvalidDuration)
  else (mkGov (proposals g) newDuration (superValidators g), Ok ()).

Definition GetActiveProposals (order : list bytes32) (g : Governance) : list Proposal :=
  List.filter (λ p, bool_decide (Status p = Active)) (visit (proposals g) order).

(** Whether the validator voted, and how. *)
Definition HasVoted (proposalID validatorID : bytes32) (g : Governance) :
    result GovError (bool * bool) :=
  match proposals g !! proposalID with
  | None => Err ErrProposalNotFound
  | Some p => Ok (bool_decide (is_Some (Votes p !! validatorID)),
                  default false (Votes p !! validatorID))
  end.

Definition GetVoterCount (proposalID : bytes32) (g : Governance) : result GovError Z :=
  match proposals g !! proposalID with
  | None => Err ErrProposalNotFound
  | Some p => Ok (Z.of_nat (size (Votes p)))
  end.

Definition cleanup_step (now : Z) (acc : gmap bytes32 Proposal * Z) (id : bytes32) :
    gmap bytes32 Proposal * Z :=
  match acc.1 !! id with
  | Some p =>
      if (bool_decide (Status p = Rejected) || bool_decide (Status p = Executed))
         && (minute <=? time_sub now (EndTime p))
      then (delete id acc.1, acc.2 + 1) else acc
  | None => acc
  end.

Definition CleanupOldProposals (now age : Z) (order : list bytes32) (g : Governance) :
    Governance * Z :=
  if age <? minute then (g, 0)
  else let '(m, removed) := foldl (cleanup_step now) (proposals g, 0) order in
       (with_proposals m g, removed).

(** * Facts *)

(** ** The tally *)

(** ** What the threshold means

    The comparison is made on floats; below a total of 2^45 it never lets
    less than 66 in a hundred pass. *)

Lemma majorityFraction_value : fin majorityFraction ∧
  fval majorityFraction = 5944751508129055 * 2 ^ 1021.
Proof. split; by vm_compute. Qed.

Lemma split_1074 : 2 ^ 1074 = 2 ^ 53 * 2 ^ 1021.
Proof. rewrite <- Z.pow_add_r by lia. done. Qed.

(** The threshold as a float lies between the multiples [lo] and [hi] of
    1/128 that enclose the exact product. *)
Lemma threshold_value T lo hi : 0 ≤ T < 2 ^ 45 → 0 ≤ lo < 2 ^ 52 → 0 ≤ hi < 2 ^ 52 →
  lo * 2 ^ 46 ≤ T * 5944751508129055 ≤ hi * 2 ^ 46 →
  fin (f_mul (f_of_Z T) majorityFraction) ∧
  lo * 2 ^ 1067 ≤ fval (f_mul (f_of_Z T) majorityFraction) ≤ hi * 2 ^ 1067.
Proof.
  intros HT Hlo Hhi Hb. destruct majorityFraction_value as [Hf Hv].
  destruct (f_of_Z_fval T) as [HfT HvT]; [unfold exact_int; lia|].
  apply f_mul_bounds; [exact HfT|exact Hf|apply rep_scaled; [lia|done]..|].
  rewrite HvT, Hv.
  replace (2 ^ 1067) with (2 ^ 46 * 2 ^ 1021) by (rewrite <- Z.pow_add_r by lia; done).
  generalize (pow_pos 1074 ltac:(lia)) (pow_pos 1021 ltac:(lia)). 
  generalize (2 ^ 1074) (2 ^ 1021). intros a b Ha Hb'.
  revert Hb. generalize (2 ^ 46). intros c [H1 H2].
  replace (T * a * (5944751508129055 * b)) with (T * 5944751508129055 * (a * b)) by ring.
  replace (lo * (c * b) * a) with (lo * c * (a * b)) by ring.
  replace (hi * (c * b) * a) with (hi * c * (a * b)) by ring.
  split; apply Z.mul_le_mono_nonneg_r; lia.
Qed.
Lemma f_majority Y T : 0 ≤ T < 2 ^ 45 → 0 ≤ Y < 2 ^ 64 →
  f_ge (f_of_Z Y) (f_mul (f_of_Z T) majorityFraction) = true → 66 * T ≤ 100 * Y.
Proof.
  intros HT HY Hge. destruct (decide (66 * T ≤ 100 * Y)) as [|Hlt]; [done|].
  destruct (f_of_Z_fval Y) as [HfY HvY]; [unfold exact_int; lia|].
  destruct (threshold_value T (128 * Y + 1) (128 * T)) as [Hf [Hlo _]]; [lia..|].
  apply f_ge_fval in Hge; [|done..]. rewrite HvY in Hge.
  replace (2 ^ 1074) with (2 ^ 7 * 2 ^ 1067) in Hge by (rewrite <- Z.pow_add_r by lia; done).
  pose proof (pow_pos 1067 ltac:(lia)). revert Hge Hlo H. generalize (2 ^ 1067). lia.
Qed.

Section facts.
Context {C : Type} `{ConsensusAdapter C}.
Implicit Types (c : C) (g : Governance) (p : Proposal).

(** The stake of the votes equal to [b], over the map itself. *)
Definition vote_weight c (b : bool) (kv : bytes32 * bool) : Z :=
  if Bool.eqb kv.2 b then ca_validator_stake kv.1 c else 0.
Definition votes_stake c (b : bool) (votes : gmap bytes32 bool) : Z :=
  zsum (vote_weight c b <$> map_to_list votes).

Lemma tally_fold c votes o : ∀ y n, is_u64 y → is_u64 n →
  foldl (tally_step c votes) (y, n) o
    = (u64 (y + zsum (vote_weight c true <$> omap (λ k, b ← votes !! k; Some (k, b)) o)),
       u64 (n + zsum (vote_weight c false <$> omap (λ k, b ← votes !! k; Some (k, b)) o))).
Proof.
  induction o as [|k o IH]; intros y n Hy Hn; cbn [foldl].
  { cbn. by rewrite !Z.add_0_r, !u64_small. }
  unfold tally_step at 2. cbn [fst snd].
  destruct (votes !! k) as [[]|] eqn:Hk; cbn [omap list_omap]; rewrite Hk; cbn [mbind option_bind];
    rewrite IH by first [done|apply u64_range]; unfold vote_weight at 2 4; cbn [fmap list_fmap];
    rewrite ?zsum_cons; cbn [fst snd Bool.eqb]; unfold uadd; rewrite ?u64_add_l;
    by rewrite ?Z.add_assoc, ?Z.add_0_r.
Qed.

Lemma visited_pairs (votes : gmap bytes32 bool) o : iter_order votes o →
  omap (λ k, b ← votes !! k; Some (k, b)) o ≡ₚ map_to_list votes.
Proof.
  intros [Hnd Ho]. apply NoDup_Permutation.
  - clear Ho. induction o as [|k o IH]; [constructor|]. apply NoDup_cons in Hnd as [Hk Hnd].
    cbn [omap list_omap]. destruct (votes !! k) eqn:Hv; cbn [mbind option_bind]; [|by apply IH].
    apply NoDup_cons. split; [|by apply IH]. intros (j & Hj & Hjk)%list_elem_of_omap.
    destruct (votes !! j); [|done]. cbn in Hjk. by simplify_eq.
  - apply NoDup_map_to_list.
  - intros [k b]. rewrite elem_of_map_to_list, list_elem_of_omap. split.
    + intros (j & _ & Hj). destruct (votes !! j) eqn:Hv; [|done]. cbn in Hj. by simplify_eq.
    + intros Hk. exists k. rewrite Hk. split; [|done]. apply Ho. by eexists.
Qed.

Lemma tally_spec c votes o : iter_order votes o →
  tally c votes o = (u64 (votes_stake c true votes), u64 (votes_stake c false votes)).
Proof.
  intros Ho. unfold tally, votes_stake. rewrite tally_fold by done. rewrite !Z.add_0_l.
  by rewrite !(zsum_perm _ _ (fmap_Permutation _ _ _ (visited_pairs votes o Ho))).
Qed.

(** The votes carry the majority of the stake. *)
Definition majority c (votes : gmap bytes32 bool) : bool :=
  f_ge (f_of_Z (u64 (votes_stake c true votes))) (f_mul (f_of_Z (ca_total_stake c)) majorityFraction).

Lemma finalizeProposal_spec c o p : iter_order (Votes p) o →
  finalizeProposal c o p = set_Status (if majority c (Votes p) then Passed else Rejected) p.
Proof.
  intros Ho. unfold finalizeProposal, majority. rewrite tally_spec by done. by case_match.
Qed.

(** ** Processing *)

(** What one round does to a proposal. *)
Definition processed now c p : Proposal :=
  match Status p with
  | Pending => if StartTime p <? now then set_Status Active p else p
  | Active => if EndTime p <? now
              then set_Status (if majority c (Votes p) then Passed else Rejected) p else p
  | _ => p
  end.

(** Iteration orders of the votes of every proposal. *)
Definition vote_orders g (vo : bytes32 → list bytes32) : Prop :=
  ∀ id p, proposals g !! id = Some p → iter_order (Votes p) (vo id).

Lemma ProcessProposals_spec now c o vo g : iter_order (proposals g) o → vote_orders g vo →
  ∀ id, proposals (ProcessProposals now c o vo g) !! id
    = processed now c <$> proposals g !! id.
Proof.
  intros Ho Hvo id. unfold ProcessProposals. cbn [proposals with_proposals].
  rewrite (foldl_update_order (λ id, process_one now c (vo id))) by done.
  destruct (proposals g !! id) as [p|] eqn:Hp; [|done]. cbn. f_equal.
  unfold process_one, processed. destruct (Status p); try done.
  case_match; [|done]. apply finalizeProposal_spec. by apply (Hvo id).
Qed.
End facts.

(** ** The life of a proposal *)

(** The names [UpdateProposalState] of Lachesis knows the statuses by. *)
Definition status_name (s : ProposalStatus) : string :=
  match s with
  | Pending => "pending" | Active => "active" | Passed => "passed"
  | Rejected => "rejected" | Executed => "executed"
  end.

(** A transition the table of Lachesis allows. *)
Definition legal (s t : ProposalStatus) : Prop :=
  isValidStateTransition (status_name s) (status_name t) = true.

Section life.
Context {C : Type} `{ConsensusAdapter C}.

(** What happens to a stored proposal while the consensus is [c]. *)
Inductive advance (c : C) : Proposal → Proposal → Prop :=
| ad_activate p : Status p = Pending → advance c p (set_Status Active p)
| ad_vote p v b : Status p = Active → ca_is_active v c = true →
    advance c p (set_Votes (<[v := b]> (Votes p)) p)
| ad_pass p : Status p = Active → majority c (Votes p) = true → advance c p (set_Status Passed p)
| ad_reject p : Status p = Active → majority c (Votes p) = false →
    advance c p (set_Status Rejected p)
| ad_execute p : Status p = Passed → advance c p (set_Status Executed p).

Definition same_core (p p' : Proposal) : Prop :=
  pr_ID p' = pr_ID p ∧ pr_Type p' = pr_Type p ∧ Description p' = Description p ∧
  StartTime p' = StartTime p ∧ EndTime p' = EndTime p ∧ Data p' = Data p ∧
  Creator p' = Creator p.

Lemma advance_legal c p p' : rtc (advance c) p p' →
  same_core p p' ∧ rtc legal (Status p) (Status p').
Proof.
  induction 1 as [p|p1 p2 p3 Hs _ [IH1 IH2]]; [by split|]. unfold same_core in *.
  destruct Hs as [p Hp|p v b Hp _|p Hp _|p Hp _|p Hp]; cbn in *; (split; [done|]);
    try (eapply rtc_l; [|exact IH2]; by rewrite Hp). done.
Qed.

Definition carried (p : Proposal) : Prop := Status p = Passed ∨ Status p = Executed.

Lemma advance_carried c p p' : rtc (advance c) p p' → carried p' →
  (carried p ∧ Votes p' = Votes p) ∨ majority c (Votes p') = true.
Proof.
  unfold carried. induction 1 as [p|p1 p2 p3 Hs _ IH]; intros Hc; [by left|].
  destruct (IH Hc) as [[Hc2 Hv]|Hm]; [|by right].
  destruct Hs as [p Hp|p v b Hp _|p Hp Hmaj|p Hp _|p Hp]; cbn in *.
  - destruct Hc2; congruence.
  - destruct Hc2; congruence.
  - right. by rewrite Hv.
  - destruct Hc2; congruence.
  - left. by rewrite Hv; auto.
Qed.

(** What one call does to the proposal stored under [id]; [made] says which
    identifiers the call may create. *)
Definition effect (made : bytes32 → Prop) (c : C) (m m' : gmap bytes32 Proposal) (id : bytes32) :
    Prop :=
  m' !! id = None ∨
  (made id ∧ ∃ p', m' !! id = Some p' ∧ Status p' = Pending) ∨
  ∃ p p', m !! id = Some p ∧ m' !! id = Some p' ∧ rtc (advance c) p p'.

Lemma effect_same made c (m m' : gmap bytes32 Proposal) id : m' !! id = m !! id →
  effect made c m m' id.
Proof.
  intros Heq. destruct (m !! id) as [p|] eqn:Hp; [|by left]. right; right. by exists p, p.
Qed.

(** Effects that neither delete nor create. *)
Definition moves (c : C) (m m' : gmap bytes32 Proposal) : Prop :=
  ∀ id, match m !! id, m' !! id with
        | Some p, Some p' => rtc (advance c) p p'
        | None, None => True
        | _, _ => False
        end.

Lemma moves_refl c m : moves c m m.
Proof. intros id. by destruct (m !! id). Qed.

Lemma moves_trans c m1 m2 m3 : moves c m1 m2 → moves c m2 m3 → moves c m1 m3.
Proof.
  intros H1 H2 id. specialize (H1 id). specialize (H2 id).
  destruct (m1 !! id), (m2 !! id), (m3 !! id); try done. by etrans.
Qed.

Lemma moves_effect made c m m' id : moves c m m' → effect made c m m' id.
Proof.
  intros Hm. specialize (Hm id). destruct (m !! id) as [p|] eqn:Hp, (m' !! id) as [p'|] eqn:Hp';
    try done; [|by left]. right; right. by exists p, p'.
Qed.

Lemma moves_insert c m id p p' : m !! id = Some p → rtc (advance c) p p' →
  moves c m (<[id := p']> m).
Proof.
  intros Hp Hr j. destruct (decide (j = id)) as [->|Hne].
  - by rewrite Hp, lookup_insert_eq.
  - rewrite lookup_insert_ne by done. by destruct (m !! j).
Qed.

Lemma processed_advance now c p : rtc (advance c) p (processed now c p).
Proof.
  unfold processed. destruct (Status p) eqn:Hs; try done; case_match; try done.
  - by apply rtc_once, ad_activate.
  - destruct (majority c (Votes p)) eqn:Hm; apply rtc_once; [by apply ad_pass|by apply ad_reject].
Qed.

Lemma ProcessProposals_moves now c o vo g : iter_order (proposals g) o → vote_orders g vo →
  moves c (proposals g) (proposals (ProcessProposals now c o vo g)).
Proof.
  intros Ho Hvo id. rewrite ProcessProposals_spec by done.
  destruct (proposals g !! id); [|done]. apply processed_advance.
Qed.

Lemma processed_Votes now c p : Votes (processed now c p) = Votes p.
Proof. unfold processed. destruct (Status p); try done; by case_match. Qed.

Lemma force_fold_moves c vo o : ∀ m ids m' ids',
  (∀ id p, m !! id = Some p → iter_order (Votes p) (vo id)) →
  foldl (force_step c vo) (m, ids) o = (m', ids') → moves c m m'.
Proof.
  induction o as [|id o IH]; intros m ids m' ids' Hvo Hf; cbn [foldl] in Hf.
  { injection Hf as <- <-. apply moves_refl. }
  unfold force_step at 2 in Hf. cbn [fst snd] in Hf.
  destruct (m !! id) as [p|] eqn:Hp; [|by eapply IH].
  destruct (bool_decide (Status p = Active) && _) eqn:Hact; [|by eapply IH].
  apply andb_true_iff in Hact as [Hact%bool_decide_eq_true _].
  rewrite (finalizeProposal_spec c _ p) in Hf by by apply Hvo.
  eapply moves_trans; [|eapply IH; [|exact Hf]].
  - apply (moves_insert c m id p); [done|]. apply rtc_once.
    destruct (majority c (Votes p)) eqn:Hm; [by apply ad_pass|by apply ad_reject].
  - intros j q. rewrite lookup_insert_Some. intros [[<- <-]|[_ Hq]]; [|by apply Hvo].
    cbn. by apply Hvo.
Qed.

Variable dc : list byte → option ConsensusChangeData.
Variable dp : list byte → option ParameterChangeData.
Variable du : list byte → option UpgradeProposalData.

(** The execution loops only turn passed proposals into executed ones. *)
Lemma execute_loop_lookup force o : ∀ m c errs m' c' errs',
  execute_loop dc dp du force o m c errs = Some (m', c', errs') → ∀ id,
  m' !! id = m !! id ∨ id ∈ o ∧
    ∃ p, m !! id = Some p ∧ Status p = Passed ∧ m' !! id = Some (set_Status Executed p).
Proof.
  induction o as [|i o IH]; intros m c errs m' c' errs' Hl id; cbn [execute_loop] in Hl.
  { injection Hl as <- <- <-. by left. }
  assert (∀ m1 c1 errs1, execute_loop dc dp du force o m1 c1 errs1 = Some (m', c', errs') →
    m1 = m ∨ (∃ p, m !! i = Some p ∧ Status p = Passed ∧ m1 = <[i := set_Status Executed p]> m) →
    m' !! id = m !! id ∨ id ∈ i :: o ∧
      ∃ p, m !! id = Some p ∧ Status p = Passed ∧ m' !! id = Some (set_Status Executed p))
    as Hrec.
  { intros m1 c1 errs1 H1 Hm1. destruct (IH _ _ _ _ _ _ H1 id) as [Heq|(Hin & q & Hq & Hs & Hm')].
    - destruct Hm1 as [->|(p & Hp & Hs & ->)]; [by left|].
      destruct (decide (id = i)) as [->|Hne].
      + right. split; [by left|]. exists p. by rewrite Heq, lookup_insert_eq.
      + left. by rewrite Heq, lookup_insert_ne.
    - destruct Hm1 as [->|(p & Hp & Hs1 & ->)]; [right; split; [by right|by exists q]|].
      destruct (decide (id = i)) as [->|Hne].
      + rewrite lookup_insert_eq in Hq. injection Hq as <-. done.
      + rewrite lookup_insert_ne in Hq by done. right. split; [by right|by exists q]. }
  destruct (m !! i) as [p|] eqn:Hp; [|by eapply Hrec; eauto].
  destruct (bool_decide (Status p = Passed)) eqn:Hs; [|by eapply Hrec; eauto].
  apply bool_decide_eq_true in Hs.
  destruct (executeProposal dc dp du p c) as [[c1 [[]|e]]|]; [| |done]; cbn in Hl.
  - eapply Hrec; [exact Hl|right; eauto].
  - eapply Hrec; [exact Hl|]. destruct force; [right; eauto|by left].
Qed.

Lemma execute_loop_moves c0 force o m c errs m' c' errs' :
  execute_loop dc dp du force o m c errs = Some (m', c', errs') → moves c0 m m'.
Proof.
  intros Hl id. destruct (execute_loop_lookup _ _ _ _ _ _ _ _ Hl id) as [->|(_ & p & Hp & Hs & ->)].
  - by destruct (m !! id).
  - rewrite Hp. by apply rtc_once, ad_execute.
Qed.

(** What the exported methods and the loop of [Run] do.  [gv_consensus] is
    any change the rest of the system makes to the consensus. *)
Inductive gov_step (allowed : bytes32 → Prop) : Governance * C → Governance * C → Prop :=
| gv_AddSuperValidator id g c : gov_step allowed (g, c) (AddSuperValidator id g, c)
| gv_RemoveSuperValidator id g c : gov_step allowed (g, c) (RemoveSuperValidator id g, c)
| gv_CreateProposal now t desc data creator g c g' id :
    CreateProposal now t desc data creator g = (g', id) → allowed id →
    gov_step allowed (g, c) (g', c)
| gv_CancelProposal id canceler g c :
    gov_step allowed (g, c) ((CancelProposal id canceler g).1, c)
| gv_Vote now id v b g c : gov_step allowed (g, c) ((Vote now id v b c g).1, c)
| gv_tick testMode now o1 o2 o3 vo1 vo2 g c g' c' :
    iter_order (proposals g) o1 → vote_orders g vo1 → vote_orders g vo2 →
    run_tick dc dp du testMode now o1 o2 o3 vo1 vo2 g c = Some (g', c') →
    gov_step allowed (g, c) (g', c')
| gv_ExecuteProposal id g c g' c' r :
    ExecuteProposal dc dp du id g c = Some (g', c', r) → gov_step allowed (g, c) (g', c')
| gv_ExecutePassed o g c g' c' errs :
    ExecutePassedProposals dc dp du o g c = Some (g', c', errs) →
    gov_step allowed (g, c) (g', c')
| gv_ChangeVotingDuration d g c : gov_step allowed (g, c) ((ChangeVotingDuration d g).1, c)
| gv_Cleanup now age o g c : gov_step allowed (g, c) ((CleanupOldProposals now age o g).1, c)
| gv_consensus g c c' : gov_step allowed (g, c) (g, c').

(** A run with the states it goes through. *)
Inductive gov_run (allowed : bytes32 → Prop) (s0 : Governance * C) :
    list (Governance * C) → Governance * C → Prop :=
| run_start : gov_run allowed s0 [s0] s0
| run_step tr s s' : gov_run allowed s0 tr s → gov_step allowed s s' →
    gov_run allowed s0 (s' :: tr) s'.

Lemma cleanup_lookup now o : ∀ m n id,
  (foldl (cleanup_step now) (m, n) o).1 !! id = m !! id ∨
  (foldl (cleanup_step now) (m, n) o).1 !! id = None.
Proof.
  induction o as [|i o IH]; intros m n id; cbn [foldl]; [by left|].
  unfold cleanup_step at 2 4. cbn [fst snd]. destruct (m !! i) as [p|] eqn:Hp; [|apply IH].
  destruct (_ && _); [|apply IH]. destruct (IH (delete i m) (n + 1) id) as [->| ->]; [|by right].
  destruct (decide (id = i)) as [->|]; [right; by rewrite lookup_delete_eq|].
  left. by rewrite lookup_delete_ne.
Qed.

Lemma tick_moves testMode now o1 o2 o3 vo1 vo2 g c g' c' :
  iter_order (proposals g) o1 → vote_orders g vo1 → vote_orders g vo2 →
  run_tick dc dp du testMode now o1 o2 o3 vo1 vo2 g c = Some (g', c') →
  moves c (proposals g) (proposals g').
Proof.
  intros Ho Hvo1 Hvo2. unfold run_tick.
  pose proof (ProcessProposals_moves now c o1 vo1 g Ho Hvo1) as Hp.
  assert (∀ id p, proposals (ProcessProposals now c o1 vo1 g) !! id = Some p →
    iter_order (Votes p) (vo2 id)) as Hvo.
  { intros id p. rewrite ProcessProposals_spec by done.
    destruct (proposals g !! id) as [q|] eqn:Hq; [|done]. intros [= <-].
    rewrite processed_Votes. by apply Hvo2. }
  destruct testMode; cbn [negb]; [|by intros [= <- <-]].
  destruct (foldl _ _ o2) as [m ids] eqn:Hf.
  pose proof (force_fold_moves c vo2 o2 _ _ _ _ Hvo Hf) as Hm.
  destruct ids as [|i ids]; [intros [= <- <-]; by eapply moves_trans|].
  destruct (execute_loop _ _ _ _ _ _ _ _) as [[[m' c1] errs]|] eqn:He; [|done].
  intros [= <- <-]. cbn [proposals with_proposals].
  eapply moves_trans; [exact Hp|]. eapply moves_trans; [exact Hm|].
  by eapply execute_loop_moves.
Qed.

Lemma gov_step_effect allowed g c g' c' : gov_step allowed (g, c) (g', c') →
  ∀ id, effect allowed c (proposals g) (proposals g') id.
Proof.
  intros Hstep id. inversion Hstep; subst; try by apply effect_same.
  - (* create *)
    match goal with H : CreateProposal _ _ _ _ _ _ = _ |- _ => injection H as <- <- end.
    cbn [proposals with_proposals]. destruct (decide (id = proposal_id (now - 10000000) desc data creator))
      as [->|Hne].
    + right; left. split; [done|]. eexists. by rewrite lookup_insert_eq.
    + apply effect_same. by rewrite lookup_insert_ne.
  - (* cancel *)
    unfold CancelProposal. destruct (proposals g !! _) as [p|] eqn:Hp; [|by apply effect_same].
    case_match; [by apply effect_same|]. case_match; [by apply effect_same|].
    cbn [fst proposals with_proposals]. destruct (decide (id = id0)) as [->|Hne].
    + left. by rewrite lookup_delete_eq.
    + apply effect_same. by rewrite lookup_delete_ne.
  - (* vote *)
    unfold Vote. destruct (proposals g !! _) as [p|] eqn:Hp; [|by apply effect_same].
    destruct (bool_decide (Status p = Active)) eqn:Hs; cbn [negb]; [|by apply effect_same].
    apply bool_decide_eq_true in Hs. case_match; [by apply effect_same|].
    destruct (ca_is_active v c') eqn:Hv; cbn [negb]; [|by apply effect_same].
    apply moves_effect. cbn [fst proposals with_proposals].
    eapply moves_insert; [done|]. by apply rtc_once, ad_vote.
  - apply moves_effect. by apply (tick_moves testMode now o1 o2 o3 vo1 vo2 g c g' c').
  - (* execute one *)
    match goal with H : ExecuteProposal _ _ _ _ _ _ = _ |- _ => rename H into He end.
    unfold ExecuteProposal in He. destruct (proposals g !! _) as [p|] eqn:Hp;
      [|injection He as <- _ _; by apply effect_same].
    destruct (bool_decide (Status p = Passed)) eqn:Hs; cbn [negb] in He;
      [|injection He as <- _ _; by apply effect_same].
    apply bool_decide_eq_true in Hs.
    destruct (executeProposal dc dp du p c) as [[c1 [[]|e]]|]; [| |done]; cbn in He;
      injection He as <- _ _; [|by apply effect_same].
    apply moves_effect. eapply moves_insert; [done|]. by apply rtc_once, ad_execute.
  - (* execute all *)
    match goal with H : ExecutePassedProposals _ _ _ _ _ _ = _ |- _ => rename H into He end.
    unfold ExecutePassedProposals in He.
    destruct (execute_loop _ _ _ _ _ _ _ _) as [[[m' c1] errs']|] eqn:Hl; [|done].
    injection He as <- _ _. apply moves_effect. by eapply execute_loop_moves.
  - apply effect_same. unfold ChangeVotingDuration. by case_match.
  - unfold CleanupOldProposals. case_match; [by apply effect_same|].
    pose proof (cleanup_lookup now o (proposals g) 0 id) as Hl.
    destruct (foldl _ _ o) as [m n]. cbn [fst proposals with_proposals] in *.
    destruct Hl as [Hl|Hl]; [by apply effect_same|by left].
Qed.
End life.

(** ** Execution of everything that passed *)

Section executing.
Context {C : Type} `{AdapterLaws C}.
Variable dc : list byte → option ConsensusChangeData.
Variable dp : list byte → option ParameterChangeData.
Variable du : list byte → option UpgradeProposalData.

Lemma executeProposal_total p c : ca_ok c →
  ∃ c' r, executeProposal dc dp du p c = Some (c', r) ∧ ca_ok c'.
Proof.
  intros Hc. unfold executeProposal. destruct (pr_Type p).
  - case_match; [by eauto|]. unfold executeConsensusChange.
    destruct (dc (Data p)) as [d|]; [|by eauto].
    set (c1 := if 0 <? _ then _ else c). set (c2 := if _ && _ then _ else c1).
    assert (ca_ok c2) as H2.
    { unfold c2, c1. repeat case_match; auto using ca_ok_gossip, ca_ok_threshold. }
    destruct (Z.ltb_spec 0 (NewMaxSetSize d)) as [Hn|_]; [|by cbn; eauto].
    destruct (ca_ok_size (NewMaxSetSize d) c2 Hn H2) as (c' & -> & ?). cbn. by eauto.
  - unfold executeParameterChange. destruct (dp (Data p)); [|by eauto].
    case_match; eauto using ca_ok_epoch.
  - unfold executeUpgradeProposal. destruct (du (Data p)) as [d|]; [|by eauto].
    repeat (case_match; [by eauto|]).
    pose proof (ca_ok_upgrade (NewVersion d) (UpgradeHeight d) c Hc) as Hu.
    destruct (ca_schedule_upgrade _ _ c) as [c' b]. by eauto.
  - by eauto.
Qed.

Definition still_passed (m : gmap bytes32 Proposal) (id : bytes32) : bool :=
  match m !! id with Some p => bool_decide (Status p = Passed) | None => false end.

Lemma still_passed_cons m i o : List.filter (still_passed m) (i :: o) =
  if still_passed m i then i :: List.filter (still_passed m) o else List.filter (still_passed m) o.
Proof. done. Qed.

Lemma filter_still_ext m m' o : (∀ i, i ∈ o → m !! i = m' !! i) →
  List.filter (still_passed m) o = List.filter (still_passed m') o.
Proof.
  intros Heq. apply List.filter_ext_in. intros i Hi. unfold still_passed.
  by rewrite Heq by by apply list_elem_of_In.
Qed.

Lemma execute_loop_total o : NoDup o → ∀ m c errs, ca_ok c →
  ∃ m' c' errs', execute_loop dc dp du false o m c errs = Some (m', c', errs') ∧ ca_ok c' ∧
    (length errs' = length errs + length (List.filter (still_passed m') o))%nat.
Proof.
  induction o as [|i o IH]; intros Hnd m c errs Hc; cbn [execute_loop].
  { exists m, c, errs. split_and!; [done..|]. cbn. lia. }
  apply NoDup_cons in Hnd as [Hi Hnd].
  assert (∀ m1 c1 errs1, ca_ok c1 → (length errs1 = length errs +
      (if still_passed m1 i then 1 else 0))%nat →
    ∃ m' c' errs', execute_loop dc dp du false o m1 c1 errs1 = Some (m', c', errs') ∧ ca_ok c' ∧
      (length errs' = length errs + length (List.filter (still_passed m') (i :: o)))%nat) as Hrec.
  { intros m1 c1 errs1 Hc1 Hlen. destruct (IH Hnd m1 c1 errs1 Hc1) as (m' & c' & errs' & He & Hc' & Hl).
    exists m', c', errs'. split_and!; [done|done|]. rewrite still_passed_cons.
    assert (still_passed m' i = still_passed m1 i) as ->.
    { unfold still_passed. destruct (execute_loop_lookup dc dp du _ _ _ _ _ _ _ _ He i) as
        [->|(Hin & _)]; [done|by destruct Hi]. }
    destruct (still_passed m1 i); cbn [length] in *; lia. }
  destruct (m !! i) as [p|] eqn:Hp.
  2: { apply Hrec; [done|]. unfold still_passed. rewrite Hp. cbn. lia. }
  destruct (bool_decide (Status p = Passed)) eqn:Hs.
  2: { apply Hrec; [done|]. unfold still_passed. rewrite Hp, Hs. cbn. lia. }
  destruct (executeProposal_total p c Hc) as (c1 & r & -> & Hc1). cbn [mbind option_bind].
  destruct r as [[]|e]; apply Hrec; try done; unfold still_passed.
  - rewrite lookup_insert_eq, bool_decide_eq_false_2 by done. lia.
  - rewrite Hp, Hs, length_app. cbn. lia.
Qed.
End executing.

(** * The properties *)

(** C5: over any run that does not create the identifier again, a stored
    proposal keeps its fields and its status only follows transitions that
    the table of Lachesis allows; a removed proposal does not come back. *)
Theorem proposal_lifecycle {C} `{ConsensusAdapter C} dc dp du id g c g' c' :
  star (gov_step dc dp du (λ i, i ≠ id)) (g, c) (g', c') →
  match proposals g !! id, proposals g' !! id with
  | Some p, Some p' => same_core p p' ∧ rtc legal (Status p) (Status p')
  | None, Some _ => False
  | _, None => True
  end.
Proof.
  intros Hrun.
  apply (star_invariant _ (λ s, match proposals g !! id, proposals s.1 !! id with
    | Some p, Some p' => same_core p p' ∧ rtc legal (Status p) (Status p')
    | None, Some _ => False | _, None => True end)) in Hrun; [done| |].
  - intros [g1 c1] [g2 c2] Hi Hs. cbn [fst] in *.
    destruct (gov_step_effect dc dp du _ _ _ _ _ Hs id) as [->|[[Hne _]|(p & p' & Hp & -> & Ha)]];
      [by destruct (proposals g !! id)|done|].
    rewrite Hp in Hi. destruct (proposals g !! id) as [q|]; [|done].
    destruct (advance_legal c1 p p' Ha) as [Hc Hl]. destruct Hi as [Hc0 Hl0].
    split; [|by etrans]. unfold same_core in *. destruct Hc0 as (?&?&?&?&?&?&?), Hc as (?&?&?&?&?&?&?).
    repeat split; congruence.
  - cbn. by destruct (proposals g !! id).
Qed.

(** What passed or was executed had, with the votes it records, the
    majority as the code computes it, in a state of the run. *)
Lemma passed_was_carried {C} `{ConsensusAdapter C} dc dp du dur (c0 : C) tr g c id p :
  gov_run dc dp du (λ _, True) (NewGovernance dur, c0) tr (g, c) →
  proposals g !! id = Some p → Status p = Passed ∨ Status p = Executed →
  ∃ g1 c1, (g1, c1) ∈ tr ∧ is_Some (proposals g1 !! id) ∧ majority c1 (Votes p) = true.
Proof.
  intros Hrun. remember (NewGovernance dur, c0) as s0 eqn:Hs0. remember (g, c) as s eqn:Hs.
  revert g c p Hs. induction Hrun as [|tr [g1 c1] s2 Hr IH Hstep]; intros g c p -> Hp Hst.
  { injection Hs0 as -> ->. cbn in Hp. by rewrite lookup_empty in Hp. }
  destruct (gov_step_effect dc dp du _ _ _ _ _ Hstep id) as [Hn|[(_ & q & Hq & Hpend)|
    (p1 & p' & Hp1 & Hp' & Ha)]].
  - congruence.
  - assert (q = p) as -> by congruence. destruct Hst; congruence.
  - assert (p' = p) as -> by congruence.
    destruct (advance_carried c1 p1 p Ha Hst) as [[Hc Hv]|Hm].
    + destruct (IH g1 c1 p1 eq_refl Hp1 Hc) as (g3 & c3 & H1 & H2 & H3).
      exists g3, c3. rewrite Hv. split_and!; [by right|done|done].
    + exists g1, c1. split_and!; [|by eexists|done]. right. inversion Hr; subst; left.
Qed.

(** one round of processing treats every proposal alike, whatever the
    orders of the maps: a pending one whose start passed becomes active, an
    active one whose end passed is decided by the majority, nothing else
    changes. *)
Theorem ProcessProposals_correct {C} `{ConsensusAdapter C} now (c : C) o vo g :
  iter_order (proposals g) o → vote_orders g vo →
  ∀ id, proposals (ProcessProposals now c o vo g) !! id =
    (λ p, match Status p with
          | Pending => if StartTime p <? now then set_Status Active p else p
          | Active => if EndTime p <? now
                      then set_Status (if majority c (Votes p) then Passed else Rejected) p
                      else p
          | _ => p
          end) <$> proposals g !! id.
Proof. apply ProcessProposals_spec. Qed.

(** every proposal is decided: two rounds of processing after its end
    leave no proposal of the first round pending or active, whatever the
    consensus in between. *)
Theorem proposals_decided {C} `{ConsensusAdapter C} now1 now2 (c1 c2 : C) o1 o2 vo1 vo2 g id p :
  iter_order (proposals g) o1 → vote_orders g vo1 →
  let g1 := ProcessProposals now1 c1 o1 vo1 g in
  iter_order (proposals g1) o2 → vote_orders g1 vo2 →
  proposals g !! id = Some p → StartTime p < now1 → EndTime p < now2 →
  ∃ p', proposals (ProcessProposals now2 c2 o2 vo2 g1) !! id = Some p' ∧ same_core p p' ∧
    Votes p' = Votes p ∧ (Status p' = Passed ∨ Status p' = Rejected ∨ Status p' = Executed).
Proof.
  intros Ho1 Hvo1 g1 Ho2 Hvo2 Hp Hstart Hend.
  rewrite (ProcessProposals_spec now2 c2 o2 vo2 g1 Ho2 Hvo2 id).
  unfold g1. rewrite (ProcessProposals_spec now1 c1 o1 vo1 g Ho1 Hvo1 id), Hp. cbn.
  eexists. split; [done|]. apply Z.ltb_lt in Hstart, Hend.
  assert (∀ c q, Status q = Active → EndTime q = EndTime p →
    processed now2 c q = set_Status (if majority c (Votes q) then Passed else Rejected) q) as Hdec.
  { intros c q Hq He. unfold processed. by rewrite Hq, He, Hend. }
  assert (∀ c q, Status q = Passed ∨ Status q = Rejected ∨ Status q = Executed →
    processed now2 c q = q) as Hstay.
  { intros c q Hq. unfold processed. by destruct Hq as [->|[->| ->]]. }
  destruct (Status p) eqn:Hs; unfold processed at 2 4 6 8 10; rewrite Hs, ?Hstart;
    try (rewrite Hstay by (rewrite Hs; auto); split_and!; [done..|rewrite Hs; auto]).
  - rewrite Hdec by done. destruct (majority c2 _); cbn; split_and!; auto; done.
  - destruct (EndTime p <? now1).
    + destruct (majority c1 (Votes p)); rewrite Hstay by (cbn; auto); cbn; split_and!; auto; done.
    + rewrite Hdec by done. destruct (majority c2 _); cbn; split_and!; auto; done.
Qed.

(** executing the passed proposals always returns; a proposal changes
    only from passed to executed, and there is one error for each proposal
    whose execution failed and that therefore is still passed. *)
Theorem ExecutePassed_correct {C} `{AdapterLaws C} dc dp du o g (c : C) :
  iter_order (proposals g) o → ca_ok c →
  ∃ g' c' errs, ExecutePassedProposals dc dp du o g c = Some (g', c', errs) ∧ ca_ok c' ∧
    (∀ id, proposals g' !! id = proposals g !! id ∨
       ∃ p, proposals g !! id = Some p ∧ Status p = Passed ∧
         proposals g' !! id = Some (set_Status Executed p)) ∧
    length errs = length (List.filter (still_passed (proposals g')) o).
Proof.
  intros [Hnd _] Hc. unfold ExecutePassedProposals.
  destruct (execute_loop_total dc dp du o Hnd (proposals g) c [] Hc)
    as (m' & c' & errs & He & Hc' & Hlen). rewrite He. cbn [mbind option_bind].
  eexists _, _, _. split_and!; [done|done| |exact Hlen].
  intros id. destruct (execute_loop_lookup dc dp du _ _ _ _ _ _ _ _ He id) as [|(_ & ?)];
    [by left|by right].
Qed.

(** voting on every branch: exactly an active validator, on an active
    proposal that has not ended, records its vote, replacing its earlier
    one; every other call changes nothing and says why. *)
Theorem Vote_correct {C} `{ConsensusAdapter C} now id v b (c : C) g :
  let '(g', r) := Vote now id v b c g in
  match r with
  | Ok _ => ∃ p p', proposals g !! id = Some p ∧ proposals g' = <[id := p']> (proposals g) ∧
      Status p = Active ∧ now ≤ EndTime p ∧ ca_is_active v c = true ∧
      same_core p p' ∧ Status p' = Active ∧
      (∀ w, Votes p' !! w = if decide (w = v) then Some b else Votes p !! w)
  | Err e => g' = g ∧
      match proposals g !! id with
      | None => e = ErrProposalNotFound
      | Some p => (Status p ≠ Active ∧ e = ErrNotActive) ∨
          (Status p = Active ∧ EndTime p < now ∧ e = ErrVotingEnded) ∨
          (Status p = Active ∧ now ≤ EndTime p ∧ ca_is_active v c = false ∧ e = ErrNotValidator)
      end
  end.
Proof.
  unfold Vote. destruct (proposals g !! id) as [p|] eqn:Hp; [|done].
  destruct (bool_decide (Status p = Active)) eqn:Hs; cbn [negb].
  2: { split; [done|]. left. by apply bool_decide_eq_false in Hs. }
  apply bool_decide_eq_true in Hs. destruct (Z.ltb_spec (EndTime p) now) as [He|He].
  { split; [done|]. right; by left. }
  destruct (ca_is_active v c) eqn:Hv; cbn [negb].
  2: { split; [done|]. right; by right. }
  exists p, (set_Votes (<[v := b]> (Votes p)) p). split_and!; try done.
  intros w. cbn [Votes set_Votes]. case_decide as Hw; [subst; by rewrite lookup_insert_eq|].
  by rewrite lookup_insert_ne.
Qed.

(** ** The hybrid consensus as an adapter *)

(** The parts of the hybrid consensus governance works on; [hy_order] is the
    iteration over the validators that rebuilding the active set makes. *)
Record Hybrid := mkHybrid {
  hy_dpos : DPoS.DPoS;
  hy_lachesis : Lachesis.Lachesis;
  hy_height : Z;
  hy_order : gmap bytes32 Validator → list bytes32;
  hy_wild : f64 → Z }.

Definition with_dpos (d : DPoS.DPoS) (h : Hybrid) : Hybrid :=
  mkHybrid d (hy_lachesis h) (hy_height h) (hy_order h) (hy_wild h).
Definition with_lachesis (l : Lachesis.Lachesis) (h : Hybrid) : Hybrid :=
  mkHybrid (hy_dpos h) l (hy_height h) (hy_order h) (hy_wild h).

(** [ScheduleUpgrade] of the hybrid consensus only logs. *)
Definition ScheduleUpgrade (version : string) (height : Z) (h : Hybrid) : Hybrid * bool := (h, true).

#[export] Instance hybrid_adapter : ConsensusAdapter Hybrid := {
  ca_is_active id h := IsActiveValidator id (hy_dpos h);
  ca_total_stake h := GetTotalStake (hy_dpos h);
  ca_validator_stake id h := GetValidatorStake id (hy_dpos h);
  ca_current_height h := hy_height h;
  ca_set_gossip_delay d h := with_lachesis (SetGossipDelay (hy_wild h) d (hy_lachesis h)) h;
  ca_set_voting_threshold t h := with_lachesis (SetVotingThreshold t (hy_lachesis h)) h;
  ca_set_set_size n h :=
    d ← SetSetSize (hy_order h (validators (hy_dpos h))) n (hy_dpos h); Some (with_dpos d h);
  ca_set_epoch_duration d h := with_dpos (SetEpochDuration d (hy_dpos h)) h;
  ca_schedule_upgrade := ScheduleUpgrade }.

Definition hybrid_ok (h : Hybrid) : Prop :=
  wf (hy_dpos h) ∧ ∀ m, iter_order m (hy_order h m).

Lemma SetEpochDuration_wf n d : wf d → wf (SetEpochDuration n d).
Proof. unfold SetEpochDuration. case_match; [done|]. by intros [[? ? ?] ? ? ? ? ?]. Qed.

#[export] Instance hybrid_adapter_laws : AdapterLaws Hybrid.
Proof.
  refine {| ca_ok := hybrid_ok |}.
  - by intros d h [? ?].
  - by intros t h [? ?].
  - intros d h [Hw ?]. split; [by apply SetEpochDuration_wf|done].
  - by intros v ht h [? ?].
  - intros n h Hn [[[Hv Ht _] _ _ _ _ _] Ho]. cbn.
    assert (wf_base (with_maxSetSize n (hy_dpos h))) as Hb by (split; [done|done|cbn; lia]).
    destruct (updateActive_spec (hy_order h (validators (hy_dpos h))) _ Hb (Ho _))
      as (d' & Hd' & Hwf & _).
    unfold SetSetSize. rewrite Hd'. cbn. eexists. split; [done|]. by split.
Defined.

(** ** Stakes of the votes on the hybrid consensus *)

(** The number of votes [b] of validators that are active now. *)
Definition active_votes (h : Hybrid) (b : bool) (votes : gmap bytes32 bool) : Z :=
  Z.of_nat (length (List.filter (λ kv, Bool.eqb kv.2 b && IsActiveValidator kv.1 (hy_dpos h))
    (map_to_list votes))).

Definition mean_stake (d : DPoS.DPoS) : Z :=
  GetTotalStake d / Z.of_nat (length (activeValidators d)).

Lemma GetValidatorStake_mean id d : wf d →
  GetValidatorStake id d = if IsActiveValidator id d then mean_stake d else 0.
Proof.
  intros Hw. unfold GetValidatorStake, IsActiveValidator, mean_stake, GetTotalStake.
  destruct (validators d !! id) as [v|] eqn:Hv; [|done].
  destruct (IsActive v) eqn:Ha; cbn [negb]; [|done].
  destruct (Z.eqb_spec (Z.of_nat (length (activeValidators d))) 0) as [H0|]; [|done].
  rewrite (wf_flag d Hw id v Hv) in Ha. apply bool_decide_eq_true in Ha.
  destruct (activeValidators d); [by apply elem_of_nil in Ha|done].
Qed.

Lemma votes_stake_heads h b votes : wf (hy_dpos h) →
  votes_stake h b votes = active_votes h b votes * mean_stake (hy_dpos h).
Proof.
  intros Hw. unfold votes_stake, active_votes. generalize (map_to_list votes). intros l.
  induction l as [|[id v] l IH]; [done|]. cbn [fmap list_fmap]. rewrite zsum_cons, IH.
  unfold vote_weight. cbn [fst snd List.filter ca_validator_stake hybrid_adapter].
  rewrite GetValidatorStake_mean by done.
  destruct (Bool.eqb v b), (IsActiveValidator id (hy_dpos h)); cbn [andb length]; lia.
Qed.

(** on the hybrid consensus a vote weighs the mean stake of the active
    validators, not the voter's: whether a proposal has the majority depends
    only on how many active validators voted yes. *)
Theorem majority_counts_heads h votes votes' : wf (hy_dpos h) →
  active_votes h true votes = active_votes h true votes' →
  majority h votes = majority h votes'.
Proof. intros Hw Heq. unfold majority. by rewrite !votes_stake_heads, Heq. Qed.

Lemma total_nonneg d : wf d → 0 ≤ GetTotalStake d.
Proof. intros [[_ Ht _] _ _ _ _ _]. unfold GetTotalStake. rewrite Ht. apply u64_range. Qed.

(** Below the bound, a majority means 66 in a hundred of the total of the
    means, hence of the heads. *)
Lemma majority_heads h votes : wf (hy_dpos h) → GetTotalStake (hy_dpos h) < 2 ^ 45 →
  majority h votes = true →
  66 * GetTotalStake (hy_dpos h) ≤ 100 * (active_votes h true votes * mean_stake (hy_dpos h)) ∧
  (0 < GetTotalStake (hy_dpos h) →
   66 * Z.of_nat (length (activeValidators (hy_dpos h))) ≤ 100 * active_votes h true votes).
Proof.
  intros Hw HT Hm. unfold majority in Hm. rewrite votes_stake_heads in Hm by done.
  pose proof (total_nonneg _ Hw) as HT0.
  assert (0 ≤ mean_stake (hy_dpos h)) as Hmean.
  { unfold mean_stake. destruct (activeValidators (hy_dpos h)); [by rewrite Z.div_0_r|].
    cbn [length]. apply Z.div_pos; lia. }
  assert (0 ≤ active_votes h true votes) as Ha by (unfold active_votes; lia).
  apply f_majority in Hm; [|cbn [ca_total_stake hybrid_adapter]; lia|apply u64_range].
  cbn [ca_total_stake hybrid_adapter] in Hm.
  assert (0 ≤ active_votes h true votes * mean_stake (hy_dpos h)) as Hp by nia.
  assert (u64 (active_votes h true votes * mean_stake (hy_dpos h))
    ≤ active_votes h true votes * mean_stake (hy_dpos h)) as Hu
    by (unfold u64; apply Z.mod_le; lia).
  assert (66 * GetTotalStake (hy_dpos h)
    ≤ 100 * (active_votes h true votes * mean_stake (hy_dpos h))) as Hle by lia.
  split; [done|]. intros HTp. clear Hm Hu Hp. unfold mean_stake in Hle.
  destruct (activeValidators (hy_dpos h)) as [|i l]; [cbn [length]; lia|].
  assert (0 < Z.of_nat (length (i :: l))) as HA by (cbn [length]; lia).
  pose proof (Z.mul_div_le (GetTotalStake (hy_dpos h)) _ HA). nia.
Qed.

(** C6: a proposal that passed or was executed had, with the votes it
    records, at least 66 in a hundred of the stake in a state of the run,
    where a vote counts the mean stake of the active validators: at least 66
    in a hundred of the active validators, by heads, voted yes (for totals of
    stake below 2^45, where the float comparison is exact enough, and above
    0, where a proposal passes without votes). *)
Theorem passed_had_majority dc dp du dur (c0 : Hybrid) tr g c id p :
  gov_run dc dp du (λ _, True) (NewGovernance dur, c0) tr (g, c) →
  Forall (λ s, wf (hy_dpos s.2) ∧ GetTotalStake (hy_dpos s.2) < 2 ^ 45) tr →
  proposals g !! id = Some p → Status p = Passed ∨ Status p = Executed →
  ∃ g1 (c1 : Hybrid), (g1, c1) ∈ tr ∧ is_Some (proposals g1 !! id) ∧
    66 * GetTotalStake (hy_dpos c1)
      ≤ 100 * (active_votes c1 true (Votes p) * mean_stake (hy_dpos c1)) ∧
    (0 < GetTotalStake (hy_dpos c1) →
     66 * Z.of_nat (length (activeValidators (hy_dpos c1))) ≤ 100 * active_votes c1 true (Votes p)).
Proof.
  intros Hrun Hall Hp Hst.
  destruct (passed_was_carried dc dp du dur c0 tr g c id p Hrun Hp Hst) as (g1 & c1 & H1 & H2 & Hm).
  rewrite Forall_forall in Hall. destruct (Hall _ H1) as [Hw HT].
  exists g1, c1. split; [done|]. split; [done|]. by apply majority_heads.
Qed.

(** ** A concrete run *)

Definition all_ids (g : Governance) : list bytes32 := (map_to_list (proposals g)).*1.
Definition own_orders (g : Governance) (id : bytes32) : list bytes32 :=
  match proposals g !! id with Some p => (map_to_list (Votes p)).*1 | None => [] end.

Lemma all_ids_order g : iter_order (proposals g) (all_ids g).
Proof. apply iter_order_default. Qed.
Lemma own_orders_ok g : vote_orders g (own_orders g).
Proof. intros id p Hp. unfold own_orders. rewrite Hp. apply iter_order_default. Qed.

Definition hybrid0 : Hybrid :=
  mkHybrid dpos_sample (NewLachesis 100) 5 (λ m, (map_to_list m).*1) (λ _, 0).

Lemma hybrid0_ok : hybrid_ok hybrid0.
Proof. split; [apply dpos_sample_wf|intros m; apply iter_order_default]. Qed.

Definition gov1 : Governance :=
  (CreateProposal 20000000 ConsensusChange [x61] [] val_a (NewGovernance 1000)).1.
Definition prop1 : bytes32 := proposal_id 10000000 [x61] [] val_a.
Definition round (now : Z) (g : Governance) : Governance :=
  ProcessProposals now hybrid0 (all_ids g) (own_orders g) g.
Definition gov2 : Governance := round 10000500 gov1.
Definition gov3 : Governance :=
  (Vote 10000600 prop1 val_b true hybrid0 (Vote 10000600 prop1 val_a true hybrid0 gov2).1).1.
Definition gov4 : Governance := round 10002000 gov3.

Definition no_json {A} (_ : list byte) : option A := None.
Definition executed (g : Governance) : Governance :=
  match ExecutePassedProposals no_json no_json no_json (all_ids g) g hybrid0 with
  | Some (g, _, _) => g
  | None => g
  end.
Definition status_of (id : bytes32) (g : Governance) : option ProposalStatus :=
  Status <$> proposals g !! id.

Example gov_statuses :
  (status_of prop1 gov1, status_of prop1 gov2, status_of prop1 gov4, status_of prop1 (executed gov4))
  = (Some Pending, Some Active, Some Passed, Some Executed).
Proof. by vm_compute. Qed.

Lemma gov1_to_4 allowed :
  star (gov_step no_json no_json no_json allowed) (gov1, hybrid0) (gov4, hybrid0).
Proof.
  apply (star_snoc _ _ (gov3, hybrid0)).
  2: { eapply (gv_tick no_json no_json no_json _ false 10002000 (all_ids gov3) [] []
         (own_orders gov3) (own_orders gov3));
       [apply all_ids_order|apply own_orders_ok|apply own_orders_ok|reflexivity]. }
  apply (star_snoc _ _ ((Vote 10000600 prop1 val_a true hybrid0 gov2).1, hybrid0));
    [|apply gv_Vote].
  apply (star_snoc _ _ (gov2, hybrid0)); [|apply gv_Vote].
  apply (star_snoc _ _ (gov1, hybrid0)); [apply star_refl|].
  eapply (gv_tick no_json no_json no_json _ false 10000500 (all_ids gov1) [] []
    (own_orders gov1) (own_orders gov1));
    [apply all_ids_order|apply own_orders_ok|apply own_orders_ok|reflexivity].
Qed.

Definition decided1 : Proposal :=
  default (mkProposal prop1 UpgradeProposal [] 0 0 Pending ∅ [] val_a) (proposals gov4 !! prop1).
Definition opened1 : Proposal :=
  default (mkProposal prop1 UpgradeProposal [] 0 0 Executed ∅ [] val_a) (proposals gov1 !! prop1).

Lemma gov4_decided : proposals gov4 !! prop1 = Some decided1.
Proof. by vm_compute. Qed.
Lemma gov1_opened : proposals gov1 !! prop1 = Some opened1.
Proof. by vm_compute. Qed.

Lemma proposal_lifecycle_witness :
  status_of prop1 gov4 = Some Passed ∧
  match proposals gov1 !! prop1, proposals gov4 !! prop1 with
  | Some p, Some p' => same_core p p' ∧ rtc legal (Status p) (Status p')
  | None, Some _ => False
  | _, None => True
  end.
Proof.
  split; [by vm_compute|].
  apply (proposal_lifecycle no_json no_json no_json prop1 gov1 hybrid0 gov4 hybrid0).
  apply gov1_to_4.
Defined.

Definition trace4 : list (Governance * Hybrid) :=
  (λ g, (g, hybrid0)) <$> [gov4; gov3; (Vote 10000600 prop1 val_a true hybrid0 gov2).1; gov2; gov1;
    NewGovernance 1000].

Lemma gov4_run :
  gov_run no_json no_json no_json (λ _, True) (NewGovernance 1000, hybrid0) trace4 (gov4, hybrid0).
Proof.
  apply (run_step _ _ _ _ _ _ (gov3, hybrid0)).
  2: { eapply (gv_tick no_json no_json no_json _ false 10002000 (all_ids gov3) [] []
         (own_orders gov3) (own_orders gov3));
       [apply all_ids_order|apply own_orders_ok|apply own_orders_ok|reflexivity]. }
  apply (run_step _ _ _ _ _ _ ((Vote 10000600 prop1 val_a true hybrid0 gov2).1, hybrid0));
    [|apply gv_Vote].
  apply (run_step _ _ _ _ _ _ (gov2, hybrid0)); [|apply gv_Vote].
  apply (run_step _ _ _ _ _ _ (gov1, hybrid0)).
  2: { eapply (gv_tick no_json no_json no_json _ false 10000500 (all_ids gov1) [] []
         (own_orders gov1) (own_orders gov1));
       [apply all_ids_order|apply own_orders_ok|apply own_orders_ok|reflexivity]. }
  apply (run_step _ _ _ _ _ _ (NewGovernance 1000, hybrid0)); [apply run_start|].
  by eapply (gv_CreateProposal _ _ _ _ 20000000 ConsensusChange [x61] [] val_a).
Qed.

Lemma passed_had_majority_witness :
  Status decided1 = Passed ∧
  ∃ g1 (c1 : Hybrid), (g1, c1) ∈ trace4 ∧ is_Some (proposals g1 !! prop1) ∧
    66 * GetTotalStake (hy_dpos c1)
      ≤ 100 * (active_votes c1 true (Votes decided1) * mean_stake (hy_dpos c1)) ∧
    (0 < GetTotalStake (hy_dpos c1) →
     66 * Z.of_nat (length (activeValidators (hy_dpos c1)))
       ≤ 100 * active_votes c1 true (Votes decided1)).
Proof.
  split; [by vm_compute|].
  apply (passed_had_majority no_json no_json no_json 1000 hybrid0 trace4 gov4 hybrid0 prop1
    decided1); [apply gov4_run| |apply gov4_decided|left; by vm_compute].
  unfold trace4. apply Forall_fmap, Forall_true. intros g'. split; [apply hybrid0_ok|by vm_compute].
Defined.

Lemma ProcessProposals_correct_witness :
  let now := 10002000 in
  proposals (round now gov3) !! prop1 =
    (λ p, match Status p with
          | Pending => if StartTime p <? now then set_Status Active p else p
          | Active => if EndTime p <? now
                      then set_Status (if majority hybrid0 (Votes p) then Passed else Rejected) p
                      else p
          | _ => p
          end) <$> proposals gov3 !! prop1.
Proof.
  apply (ProcessProposals_correct 10002000 hybrid0 (all_ids gov3) (own_orders gov3) gov3);
    [apply all_ids_order|apply own_orders_ok].
Defined.

Lemma proposals_decided_witness :
  let g1 := round 10002000 gov1 in
  ∃ p', proposals (ProcessProposals 10003000 hybrid0 (all_ids g1) (own_orders g1) g1) !! prop1
      = Some p' ∧ same_core opened1 p' ∧
    Votes p' = Votes opened1 ∧ (Status p' = Passed ∨ Status p' = Rejected ∨ Status p' = Executed).
Proof.
  intros g1.
  refine (proposals_decided 10002000 10003000 hybrid0 hybrid0 (all_ids gov1)
    (all_ids g1) (own_orders gov1) (own_orders g1) gov1 prop1 opened1
    (all_ids_order gov1) (own_orders_ok gov1) (all_ids_order g1) (own_orders_ok g1)
    gov1_opened _ _).
  - by vm_compute.
  - by vm_compute.
Defined.

Lemma ExecutePassed_correct_witness :
  status_of prop1 (executed gov4) = Some Executed ∧
  ∃ g' c' errs, ExecutePassedProposals no_json no_json no_json (all_ids gov4) gov4 hybrid0
      = Some (g', c', errs) ∧ ca_ok c' ∧
    (∀ id, proposals g' !! id = proposals gov4 !! id ∨
       ∃ p, proposals gov4 !! id = Some p ∧ Status p = Passed ∧
         proposals g' !! id = Some (set_Status Executed p)) ∧
    length errs = length (List.filter (still_passed (proposals g')) (all_ids gov4)).
Proof.
  split; [by vm_compute|].
  apply (ExecutePassed_correct no_json no_json no_json (all_ids gov4) gov4 hybrid0);
    [apply all_ids_order|apply hybrid0_ok].
Defined.

(** Two votes with unequal stakes behind them. *)
Definition uneven : Hybrid :=
  with_dpos (add_sample (add_sample (NewDPoS 2 10) val_a 90) val_b 10) hybrid0.
Definition yes_by (id : bytes32) : gmap bytes32 bool := <[id := true]> ∅.

Lemma majority_counts_heads_witness :
  (GetValidatorStake val_a (hy_dpos uneven) = 50 ∧
   GetValidatorStake val_b (hy_dpos uneven) = 50) ∧
  majority uneven (yes_by val_a) = majority uneven (yes_by val_b).
Proof.
  split; [by vm_compute|]. apply (majority_counts_heads uneven (yes_by val_a) (yes_by val_b));
    [|by vm_compute].
  cbn. repeat (apply add_sample_wf; [by vm_compute|]). by apply wf_NewDPoS.
Defined.

(** ** What the code does not do *)

(** A validator with nine tenths of the stake cannot carry a proposal. *)
Example stake_is_not_counted : majority uneven (yes_by val_a) = false.
Proof. by vm_compute. Qed.

(** The age given to the cleanup is not used: a proposal that ended a minute
    ago goes, whatever the age asked for. *)
Example cleanup_ignores_age : 
  let g := executed gov4 in
  let now := 10001000 + minute in
  (CleanupOldProposals now minute (all_ids g) g).2 = 1 ∧
  (CleanupOldProposals now (1000 * hour) (all_ids g) g).2 = 1.
Proof. by vm_compute. Qed.

(** With no stake at all, a proposal without votes passes. *)
Example no_stake_passes : majority (with_dpos (NewDPoS 2 10) hybrid0) ∅ = true.
Proof. by vm_compute. Qed.

(** The test mode marks a proposal executed although its execution failed. *)
Definition broken : Proposal :=
  mkProposal prop1 (OtherType 7) [] 0 10 Passed ∅ [] val_a.
Example test_mode_hides_errors :
  (λ x, Status <$> x.1.1 !! prop1)
    <$> execute_loop no_json no_json no_json true [prop1] (<[prop1 := broken]> ∅) hybrid0 []
  = Some (Some Executed).
Proof. by vm_compute. Qed.

(** Two proposals of one creator at one time share an identifier when the
    description and the data only move their boundary. *)
Example proposal_id_ambiguous :
  proposal_id 5 [x61] [x62; x63] val_a = proposal_id 5 [x61; x62] [x63] val_a.
Proof. reflexivity. Qed.
