(* ===== verification/ValMgr.v ===== *)
(** * Validator manager: src/consensus/validator_manager.go

    The manager keeps its own registry of validators next to those of DPoS
    and of the event DAG and forwards registrations and stake changes to
    both.  The active list holds pointers into the registry; the model keeps
    identifiers, since validators are only removed by RestoreState, and then
    only the epoch reward and the queries read the list before it is rebuilt.  Map iteration orders and
    clock readings are arguments, [math.Pow] a parameter; [None] is a
    panic. *)
From Stdlib Require Import ZArith Lia SpecFloat Sorted.
From Stdlib Require Import Strings.Byte Strings.String.
From stdpp Require Import numbers prelude gmap strings relations.
From S2P Require Import Prelude GoFloat Bytes Maps Common Dag DPoS Lachesis Governance.
Open Scope Z_scope.

Inductive ValidatorStatus :=
| ValidatorStatusActive
| ValidatorStatusInactive
| ValidatorStatusSlashed
| ValidatorStatusJailed
| ValidatorStatusOther (n : Z).

#[export] Instance vstatus_eq_dec : EqDecision ValidatorStatus.
Proof. solve_decision. Defined.

Record ValidatorInfo := mkInfo {
  vi_ID : bytes32;
  vi_Stake : Z;
  vi_Status : ValidatorStatus;
  vi_Performance : f64;
  vi_BlocksProduced : Z;
  vi_EventsFinalized : Z;
  vi_LastRewardTime : Z;
  vi_JoinTime : Z;
  vi_MisbehaviorCount : Z }.

Definition vi_with_Stake (s : Z) (v : ValidatorInfo) : ValidatorInfo :=
  mkInfo (vi_ID v) s (vi_Status v) (vi_Performance v) (vi_BlocksProduced v) (vi_EventsFinalized v)
    (vi_LastRewardTime v) (vi_JoinTime v) (vi_MisbehaviorCount v).
Definition vi_with_Status (s : ValidatorStatus) (v : ValidatorInfo) : ValidatorInfo :=
  mkInfo (vi_ID v) (vi_Stake v) s (vi_Performance v) (vi_BlocksProduced v) (vi_EventsFinalized v)
    (vi_LastRewardTime v) (vi_JoinTime v) (vi_MisbehaviorCount v).
Definition vi_with_Performance (p : f64) (t : Z) (v : ValidatorInfo) : ValidatorInfo :=
  mkInfo (vi_ID v) (vi_Stake v) (vi_Status v) p (vi_BlocksProduced v) (vi_EventsFinalized v)
    t (vi_JoinTime v) (vi_MisbehaviorCount v).
Definition vi_with_counts (b e : Z) (v : ValidatorInfo) : ValidatorInfo :=
  mkInfo (vi_ID v) (vi_Stake v) (vi_Status v) (vi_Performance v) b e
    (vi_LastRewardTime v) (vi_JoinTime v) (vi_MisbehaviorCount v).
Definition vi_misbehaved (v : ValidatorInfo) : ValidatorInfo :=
  mkInfo (vi_ID v) (vi_Stake v) (vi_Status v) (vi_Performance v) (vi_BlocksProduced v)
    (vi_EventsFinalized v) (vi_LastRewardTime v) (vi_JoinTime v) (uadd (vi_MisbehaviorCount v) 1).

Record ValidatorManager := mkVM {
  vm_validators : gmap bytes32 ValidatorInfo;
  vm_active : list bytes32;
  vm_totalStake : Z;
  vm_activeTotalStake : Z;
  performanceDecayRate : f64;
  minPerformance : f64;
  maxPerformance : f64;
  blockRewardWeight : f64;
  eventRewardWeight : f64;
  lastRewardHeight : Z }.

Inductive VMError :=
| ErrInvalidValidator
| ErrInsufficientStake
| ErrValidatorNotFound
| ErrStateInconsistency.

Definition vm_with_validators (m : gmap bytes32 ValidatorInfo) (vm : ValidatorManager) :=
  mkVM m (vm_active vm) (vm_totalStake vm) (vm_activeTotalStake vm) (performanceDecayRate vm)
    (minPerformance vm) (maxPerformance vm) (blockRewardWeight vm) (eventRewardWeight vm)
    (lastRewardHeight vm).
Definition vm_with_active (l : list bytes32) (t : Z) (vm : ValidatorManager) :=
  mkVM (vm_validators vm) l (vm_totalStake vm) t (performanceDecayRate vm)
    (minPerformance vm) (maxPerformance vm) (blockRewardWeight vm) (eventRewardWeight vm)
    (lastRewardHeight vm).
Definition vm_with_totals (t a : Z) (vm : ValidatorManager) :=
  mkVM (vm_validators vm) (vm_active vm) t a (performanceDecayRate vm)
    (minPerformance vm) (maxPerformance vm) (blockRewardWeight vm) (eventRewardWeight vm)
    (lastRewardHeight vm).
Definition vm_with_height (h : Z) (vm : ValidatorManager) :=
  mkVM (vm_validators vm) (vm_active vm) (vm_totalStake vm) (vm_activeTotalStake vm)
    (performanceDecayRate vm) (minPerformance vm) (maxPerformance vm) (blockRewardWeight vm)
    (eventRewardWeight vm) h.

Definition NewValidatorManager : ValidatorManager :=
  mkVM ∅ [] 0 0 (f_lit 99 2) (f_lit 1 1) f_one (f_lit 6 1) (f_lit 4 1) 0.

(** ** The active set *)

(** The exchange sort: the inner loop carries the element at position [i]
    along the rest and swaps it with every strictly better one. *)
Section exchange.
Context {A : Type} (better : A → A → bool).

Fixpoint exchange_pass (x : A) (l : list A) : A * list A :=
  match l with
  | [] => (x, [])
  | y :: l =>
      if better y x then let '(m, r) := exchange_pass y l in (m, x :: r)
      else let '(m, r) := exchange_pass x l in (m, y :: r)
  end.

(** The outer loop; the fuel is the length. *)
Fixpoint exchange_loop (fuel : nat) (l : list A) : list A :=
  match fuel, l with
  | S fuel, x :: l => let '(m, r) := exchange_pass x l in m :: exchange_loop fuel r
  | _, _ => l
  end.
Definition exchange_sort (l : list A) : list A := exchange_loop (length l) l.
End exchange.

Definition vi_score (v : ValidatorInfo) : f64 := f_mul (f_of_Z (vi_Stake v)) (vi_Performance v).
Definition vi_score_of (m : gmap bytes32 ValidatorInfo) (i : bytes32) : f64 :=
  match m !! i with Some v => vi_score v | None => f_zero end.
Definition score_above (m : gmap bytes32 ValidatorInfo) (i j : bytes32) : bool :=
  f_gt (vi_score_of m i) (vi_score_of m j).

Definition sortValidatorsByScore (m : gmap bytes32 ValidatorInfo) (l : list bytes32) :
    list bytes32 := exchange_sort (score_above m) l.

Definition is_status (s : ValidatorStatus) (m : gmap bytes32 ValidatorInfo) (i : bytes32) : bool :=
  match m !! i with Some v => bool_decide (vi_Status v = s) | None => false end.

(** The sum of the stakes of a list, wrapping. *)
Definition stakes_of (m : gmap bytes32 ValidatorInfo) (l : list bytes32) : Z :=
  usum (vi_Stake <$> visit m l).

Definition updateActiveValidators (order : list bytes32) (maxSetSize : Z)
    (vm : ValidatorManager) : option ValidatorManager :=
  let m := vm_validators vm in
  let act := List.filter (is_status ValidatorStatusActive m) order in
  let sorted := sortValidatorsByScore m act in
  if maxSetSize <? Z.of_nat (length sorted) then
    if maxSetSize <? 0 then None (* activeValidators[:maxSetSize] *)
    else let top := take (Z.to_nat maxSetSize) sorted in
         Some (vm_with_active top (stakes_of m top) vm)
  else Some (vm_with_active sorted (stakes_of m act) vm).

(** ** Registration and status *)

(** The state of an operation: the manager and the consensus it forwards
    to. *)
Definition outcome : Type := option (ValidatorManager * Hybrid * result VMError ()).

(** The iteration over the registry that rebuilding the active list makes. *)
Definition orders : Type := gmap bytes32 ValidatorInfo → list bytes32.

Definition refresh (ord : orders) (vm : ValidatorManager) (h : Hybrid) : outcome :=
  vm ← updateActiveValidators (ord (vm_validators vm)) (GetSetSize (hy_dpos h)) vm;
  Some (vm, h, Ok ()).

(** [now1], [now2]: the clock for the two times, [now3] the one of DPoS. *)
Definition AddValidator (ord : orders) (now1 now2 now3 : Z) (id : bytes32) (stake : Z)
    (vm : ValidatorManager) (h : Hybrid) : outcome :=
  match vm_validators vm !! id with
  | Some _ => Some (vm, h, Err ErrInvalidValidator)
  | None =>
      if stake =? 0 then Some (vm, h, Err ErrInsufficientStake)
      else
        let v := mkInfo id stake ValidatorStatusInactive f_one 0 0 now1 now2 0 in
        let vm := vm_with_totals (uadd (vm_totalStake vm) stake) (vm_activeTotalStake vm)
                    (vm_with_validators (<[id := v]> (vm_validators vm)) vm) in
        let r := register now3 id stake (hy_dpos h) in
        d ← DPoS.AddValidator (hy_order h (validators r)) now3 id stake (hy_dpos h);
        let h := with_lachesis (Lachesis.AddNode id stake (hy_lachesis h)) (with_dpos d h) in
        refresh ord vm h
  end.

(** Setting the stake in DPoS and in the DAG. *)
Definition push_stake (id : bytes32) (stake : Z) (h : Hybrid) : option Hybrid :=
  d ← DPoS.UpdateStake (hy_order h (validators (hy_dpos h))) id stake (hy_dpos h);
  Some (with_lachesis (Lachesis.UpdateNodeStake id stake (hy_lachesis h)) (with_dpos d h)).

Definition UpdateStake (ord : orders) (id : bytes32) (newStake : Z)
    (vm : ValidatorManager) (h : Hybrid) : outcome :=
  match vm_validators vm !! id with
  | None => Some (vm, h, Err ErrValidatorNotFound)
  | Some v =>
      if newStake =? 0 then Some (vm, h, Err ErrInsufficientStake)
      else
        let total := uadd (usub (vm_totalStake vm) (vi_Stake v)) newStake in
        let active :=
          if bool_decide (vi_Status v = ValidatorStatusActive)
          then uadd (usub (vm_activeTotalStake vm) (vi_Stake v)) newStake
          else vm_activeTotalStake vm in
        let vm := vm_with_totals total active
                    (vm_with_validators (<[id := vi_with_Stake newStake v]> (vm_validators vm)) vm) in
        h ← push_stake id newStake h;
        refresh ord vm h
  end.

Definition put_validator (id : bytes32) (v : ValidatorInfo) (vm : ValidatorManager) :
    ValidatorManager := vm_with_validators (<[id := v]> (vm_validators vm)) vm.

Definition ActivateValidator (ord : orders) (id : bytes32) (vm : ValidatorManager)
    (h : Hybrid) : outcome :=
  match vm_validators vm !! id with
  | None => Some (vm, h, Err ErrValidatorNotFound)
  | Some v =>
      if bool_decide (vi_Status v = ValidatorStatusActive) then Some (vm, h, Ok ())
      else if bool_decide (vi_Status v = ValidatorStatusJailed)
      then Some (vm, h, Err ErrInvalidValidator)
      else if bool_decide (vi_Status v = ValidatorStatusSlashed)
      then Some (vm, h, Err ErrInvalidValidator)
      else refresh ord (put_validator id (vi_with_Status ValidatorStatusActive v) vm) h
  end.

Definition DeactivateValidator (ord : orders) (id : bytes32) (vm : ValidatorManager)
    (h : Hybrid) : outcome :=
  match vm_validators vm !! id with
  | None => Some (vm, h, Err ErrValidatorNotFound)
  | Some v =>
      if bool_decide (vi_Status v = ValidatorStatusInactive) then Some (vm, h, Ok ())
      else refresh ord (put_validator id (vi_with_Status ValidatorStatusInactive v) vm) h
  end.

(** The status is set before it is tested, so the active total is left to
    the rebuild. *)
Definition SlashValidator (ord : orders) (id : bytes32) (slashAmount : Z)
    (vm : ValidatorManager) (h : Hybrid) : outcome :=
  match vm_validators vm !! id with
  | None => Some (vm, h, Err ErrValidatorNotFound)
  | Some v =>
      let slashAmount := if vi_Stake v <? slashAmount then vi_Stake v else slashAmount in
      let v := vi_misbehaved (vi_with_Status ValidatorStatusSlashed
                 (vi_with_Stake (usub (vi_Stake v) slashAmount) v)) in
      let active :=
        if bool_decide (vi_Status v = ValidatorStatusActive)
        then usub (vm_activeTotalStake vm) slashAmount else vm_activeTotalStake vm in
      let vm := vm_with_totals (usub (vm_totalStake vm) slashAmount) active
                  (put_validator id v vm) in
      h ← push_stake id (vi_Stake v) h;
      refresh ord vm h
  end.

Definition JailValidator (ord : orders) (id : bytes32) (vm : ValidatorManager)
    (h : Hybrid) : outcome :=
  match vm_validators vm !! id with
  | None => Some (vm, h, Err ErrValidatorNotFound)
  | Some v =>
      if bool_decide (vi_Status v = ValidatorStatusJailed) then Some (vm, h, Ok ())
      else refresh ord
             (put_validator id (vi_misbehaved (vi_with_Status ValidatorStatusJailed v)) vm) h
  end.

Definition UnjailValidator (id : bytes32) (vm : ValidatorManager) :
    ValidatorManager * result VMError () :=
  match vm_validators vm !! id with
  | None => (vm, Err ErrValidatorNotFound)
  | Some v =>
      if negb (bool_decide (vi_Status v = ValidatorStatusJailed))
      then (vm, Err ErrInvalidValidator)
      else (put_validator id (vi_with_Status ValidatorStatusInactive v) vm, Ok ())
  end.

(** ** Performance and rewards *)

Section rewards.
Variable pow : f64 → f64 → f64.
Variable wild_uint : f64 → Z.

(** [uint64(x)]. *)
Definition to_uint (x : f64) : Z :=
  match f_trunc x with
  | Some z => if decide (is_u64 z) then z else wild_uint x
  | None => wild_uint x
  end.

Definition clamp_performance (vm : ValidatorManager) (p : f64) : f64 :=
  f_max (minPerformance vm) (f_min p (maxPerformance vm)).

Definition updateValidatorPerformance (now : Z) (vm : ValidatorManager) (v : ValidatorInfo) :
    ValidatorInfo :=
  let hours := dur_hours (time_sub now (vi_LastRewardTime v)) in
  let p := vi_Performance v in
  let p := if f_gt hours f_zero then f_mul p (pow (performanceDecayRate vm) hours) else p in
  let p := f_mul p (f_lit 101 2) in
  vi_with_Performance (clamp_performance vm p) now v.

Definition RewardBlockProduction (now now2 : Z) (id : bytes32) (vm : ValidatorManager)
    (h : Hybrid) : ValidatorManager * Hybrid * result VMError () :=
  match vm_validators vm !! id with
  | None => (vm, h, Err ErrValidatorNotFound)
  | Some v =>
      let v := vi_with_counts (uadd (vi_BlocksProduced v) 1) (vi_EventsFinalized v) v in
      (put_validator id (updateValidatorPerformance now vm v) vm,
       with_dpos (RewardValidator now2 id (hy_dpos h)) h, Ok ())
  end.

Definition RewardEventFinalization (now : Z) (id : bytes32) (vm : ValidatorManager) :
    ValidatorManager * result VMError () :=
  match vm_validators vm !! id with
  | None => (vm, Err ErrValidatorNotFound)
  | Some v =>
      let v := vi_with_counts (vi_BlocksProduced v) (uadd (vi_EventsFinalized v) 1) v in
      (put_validator id (updateValidatorPerformance now vm v) vm, Ok ())
  end.

Definition calculateEpochReward (epoch : Z) : Z :=
  let decayFactor := if 0 <? epoch then pow (f_lit 9999 4) (f_of_Z epoch) else f_one in
  to_uint (f_mul (f_of_Z 1000000) decayFactor).

(** The reward of one validator. *)
Definition epoch_reward (totalReward : Z) (vm : ValidatorManager) (v : ValidatorInfo) : Z :=
  let stakeRatio := f_div (f_of_Z (vi_Stake v)) (f_of_Z (vm_activeTotalStake vm)) in
  let blockComponent := f_mul (f_mul (blockRewardWeight vm) stakeRatio)
                          (f_of_Z (vi_BlocksProduced v)) in
  let eventComponent := f_mul (f_mul (eventRewardWeight vm) stakeRatio)
                          (f_of_Z (vi_EventsFinalized v)) in
  let ratio := f_div (f_add blockComponent eventComponent)
                 (f_of_Z (Z.of_nat (length (vm_active vm)))) in
  to_uint (f_mul (f_of_Z totalReward) ratio).

Definition reward_step (totalReward : Z) (vm : ValidatorManager) (id : bytes32) :
    ValidatorManager :=
  match vm_validators vm !! id with
  | None => vm
  | Some v =>
      let reward := epoch_reward totalReward vm v in
      vm_with_totals (uadd (vm_totalStake vm) reward) (uadd (vm_activeTotalStake vm) reward)
        (put_validator id (vi_with_counts 0 0 (vi_with_Stake (uadd (vi_Stake v) reward) v)) vm)
  end.

Definition distributeEpochRewards (epoch : Z) (vm : ValidatorManager) : ValidatorManager :=
  let totalReward := calculateEpochReward epoch in
  if vm_activeTotalStake vm =? 0 then vm
  else foldl (reward_step totalReward) vm (vm_active vm).

Definition decay_one (now : Z) (vm : ValidatorManager) (v : ValidatorInfo) : ValidatorInfo :=
  let hours := dur_hours (time_sub now (vi_LastRewardTime v)) in
  if f_gt hours f_zero
  then vi_with_Performance
         (clamp_performance vm (f_mul (vi_Performance v) (pow (performanceDecayRate vm) hours)))
         now v
  else v.

(** Every validator is treated alone, so the order of the map is left out. *)
Definition decayAllValidatorPerformance (now : Z) (vm : ValidatorManager) : ValidatorManager :=
  vm_with_validators (decay_one now vm <$> vm_validators vm) vm.

(** [None] also when the epoch duration is zero: the remainder panics. *)
Definition ProcessEpoch (ord : orders) (now blockHeight : Z) (vm : ValidatorManager)
    (h : Hybrid) : option ValidatorManager :=
  let dur := GetEpochDuration (hy_dpos h) in
  if dur =? 0 then None
  else if negb (blockHeight mod dur =? 0) then Some vm
  else
    let vm := decayAllValidatorPerformance now (distributeEpochRewards (blockHeight / dur) vm) in
    vm ← updateActiveValidators (ord (vm_validators vm)) (GetSetSize (hy_dpos h)) vm;
    Some (vm_with_height blockHeight vm).
End rewards.

(** ** Queries *)

Definition IsActiveValidator (id : bytes32) (vm : ValidatorManager) : bool :=
  match vm_validators vm !! id with
  | Some v => bool_decide (vi_Status v = ValidatorStatusActive)
  | None => false
  end.

Definition GetValidators (order : list bytes32) (vm : ValidatorManager) : list (bytes32 * Z) :=
  (λ v, (vi_ID v, vi_Stake v)) <$> visit (vm_validators vm) order.
Definition GetActiveValidators (vm : ValidatorManager) : list (bytes32 * Z) :=
  (λ v, (vi_ID v, vi_Stake v)) <$> visit (vm_validators vm) (vm_active vm).
Definition GetTotalStake (vm : ValidatorManager) : Z := vm_totalStake vm.
Definition GetActiveTotalStake (vm : ValidatorManager) : Z := vm_activeTotalStake vm.
Definition GetNextValidator (blockNumber : Z) (lastBlockHash : bytes32) (h : Hybrid) :
    option (bytes32 * Z) := DPoS.GetNextValidator blockNumber lastBlockHash (hy_dpos h).

(** ** Serialised state *)

Record validator_state := mkVState {
  vs_ID : string; vs_Stake : Z; vs_Status : Z; vs_Performance : f64; vs_BlocksProduced : Z;
  vs_EventsFinalized : Z; vs_LastRewardTime : Z; vs_JoinTime : Z; vs_MisbehaviorCount : Z }.

Record manager_state := mkMState {
  ms_Validators : gmap string validator_state;
  ms_ActiveValidators : list string;
  ms_TotalStake : Z; ms_ActiveTotalStake : Z;
  ms_PerformanceDecayRate : f64; ms_MinPerformance : f64; ms_MaxPerformance : f64;
  ms_BlockRewardWeight : f64; ms_EventRewardWeight : f64; ms_LastRewardHeight : Z }.

Definition status_number (s : ValidatorStatus) : Z :=
  match s with
  | ValidatorStatusActive => 0 | ValidatorStatusInactive => 1 | ValidatorStatusSlashed => 2
  | ValidatorStatusJailed => 3 | ValidatorStatusOther n => n
  end.
Definition number_status (n : Z) : ValidatorStatus :=
  if n =? 0 then ValidatorStatusActive else if n =? 1 then ValidatorStatusInactive
  else if n =? 2 then ValidatorStatusSlashed else if n =? 3 then ValidatorStatusJailed
  else ValidatorStatusOther n.

(** Times are stored in whole seconds. *)
Definition info_state (v : ValidatorInfo) : validator_state :=
  mkVState (hex_string (b32 (vi_ID v))) (vi_Stake v) (status_number (vi_Status v))
    (vi_Performance v) (vi_BlocksProduced v) (vi_EventsFinalized v)
    (vi_LastRewardTime v / second) (vi_JoinTime v / second) (vi_MisbehaviorCount v).
Definition state_info (id : bytes32) (s : validator_state) : ValidatorInfo :=
  mkInfo id (vs_Stake s) (number_status (vs_Status s)) (vs_Performance s) (vs_BlocksProduced s)
    (vs_EventsFinalized s) (vs_LastRewardTime s * second) (vs_JoinTime s * second)
    (vs_MisbehaviorCount s).

Definition manager_state_of (vm : ValidatorManager) : manager_state :=
  mkMState (kmap (λ id, hex_string (b32 id)) (info_state <$> vm_validators vm))
    ((λ v, hex_string (b32 (vi_ID v))) <$> visit (vm_validators vm) (vm_active vm))
    (vm_totalStake vm) (vm_activeTotalStake vm) (performanceDecayRate vm) (minPerformance vm)
    (maxPerformance vm) (blockRewardWeight vm) (eventRewardWeight vm) (lastRewardHeight vm).

(** [fmt.Sscanf(s, "%x", &id)] with [id] a [[32]byte]: the scanner accepts
    pointers to byte slices and strings but not to arrays, and answers "can't
    scan type" whatever the text is. *)
Definition Sscanf_array (s : string) : option bytes32 := None.

Fixpoint restore_validators (keys : list string) (s : gmap string validator_state)
    (m : gmap bytes32 ValidatorInfo) : gmap bytes32 ValidatorInfo * result VMError () :=
  match keys with
  | [] => (m, Ok ())
  | k :: keys =>
      match s !! k with
      | None => restore_validators keys s m
      | Some vs =>
          match Sscanf_array k with
          | None => (m, Err ErrStateInconsistency)
          | Some id => restore_validators keys s (<[id := state_info id vs]> m)
          end
      end
  end.

Fixpoint restore_active (ids : list string) (m : gmap bytes32 ValidatorInfo)
    (acc : list bytes32) : list bytes32 * result VMError () :=
  match ids with
  | [] => (acc, Ok ())
  | k :: ids =>
      match Sscanf_array k with
      | None => (acc, Err ErrStateInconsistency)
      | Some id => restore_active ids m (if decide (is_Some (m !! id)) then acc ++ [id] else acc)
      end
  end.

Section json.
Variable marshal : manager_state → list byte.
Variable unmarshal : list byte → option manager_state.

Definition GetState (vm : ValidatorManager) : list byte := marshal (manager_state_of vm).

(** [keys]: the iteration over the decoded map.  The registry is replaced
    before the identifiers are parsed; an error leaves what was built. *)
Definition RestoreState (keys : list string) (data : list byte) (vm : ValidatorManager) :
    ValidatorManager * result VMError () :=
  match unmarshal data with
  | None => (vm, Err ErrStateInconsistency)
  | Some s =>
      let '(m, r) := restore_validators keys (ms_Validators s) ∅ in
      let vm := vm_with_validators m vm in
      match r with
      | Err e => (vm, Err e)
      | Ok _ =>
          let '(act, r) := restore_active (ms_ActiveValidators s) m [] in
          let vm := vm_with_active act (vm_activeTotalStake vm) vm in
          match r with
          | Err e => (vm, Err e)
          | Ok _ =>
              (mkVM m act (ms_TotalStake s) (ms_ActiveTotalStake s) (ms_PerformanceDecayRate s)
                 (ms_MinPerformance s) (ms_MaxPerformance s) (ms_BlockRewardWeight s)
                 (ms_EventRewardWeight s) (ms_LastRewardHeight s), Ok ())
          end
      end
  end.
End json.

(** * Facts *)

(** ** The exchange sort *)

Section exchange_facts.
Context {A : Type} (better : A → A → bool) (P : A → Prop).
Hypothesis asym : ∀ a b, P a → P b → better a b = true → better b a = false.
Hypothesis ntrans : ∀ a b c, P a → P b → P c →
  better b a = false → better c b = false → better c a = false.

Lemma exchange_pass_perm x l m r : exchange_pass better x l = (m, r) → m :: r ≡ₚ x :: l.
Proof.
  revert x m r. induction l as [|y l IH]; intros x m r; cbn; [by intros [= <- <-]|].
  destruct (better y x).
  - destruct (exchange_pass better y l) as [m' r'] eqn:Hp. intros [= <- <-].
    rewrite (Permutation_swap x m' r'), (IH _ _ _ Hp). by rewrite Permutation_swap.
  - destruct (exchange_pass better x l) as [m' r'] eqn:Hp. intros [= <- <-].
    rewrite (Permutation_swap y m' r'), (IH _ _ _ Hp). by rewrite Permutation_swap.
Qed.

(** The pass leaves in front an element no other is better than. *)
Lemma exchange_pass_best x l m r : P x → Forall P l → exchange_pass better x l = (m, r) →
  P m ∧ better x m = false ∧ Forall (λ z, better z m = false) r.
Proof.
  revert x m r. induction l as [|y l IH]; intros x m r Hx Hl; cbn.
  { intros [= <- <-]. split_and!; [done| |constructor].
    destruct (better x x) eqn:Hb; [|done]. by rewrite (asym _ _ Hx Hx Hb) in Hb. }
  apply Forall_cons in Hl as [Hy Hl]. destruct (better y x) eqn:Hb.
  - destruct (exchange_pass better y l) as [m' r'] eqn:Hp. intros [= <- <-].
    destruct (IH _ _ _ Hy Hl Hp) as (Hm & Hym & Hr).
    assert (better x m' = false) as Hxm.
    { apply (ntrans m' y x); [done..|]. by apply asym. }
    split_and!; [done|done|]. by constructor.
  - destruct (exchange_pass better x l) as [m' r'] eqn:Hp. intros [= <- <-].
    destruct (IH _ _ _ Hx Hl Hp) as (Hm & Hxm & Hr). split_and!; [done|done|].
    constructor; [|done]. by apply (ntrans m' x y).
Qed.

Lemma exchange_loop_perm fuel : ∀ l, exchange_loop better fuel l ≡ₚ l.
Proof using.
  induction fuel as [|fuel IH]; intros [|x l]; try done. cbn [exchange_loop].
  destruct (exchange_pass better x l) as [m r] eqn:Hp. rewrite IH.
  by apply exchange_pass_perm in Hp.
Qed.

Lemma exchange_sort_perm l : exchange_sort better l ≡ₚ l.
Proof using. apply exchange_loop_perm. Qed.

Lemma exchange_loop_sorted fuel : ∀ l, (length l ≤ fuel)%nat → Forall P l →
  StronglySorted (λ a b, better b a = false) (exchange_loop better fuel l).
Proof using asym ntrans.
  induction fuel as [|fuel IH]; intros [|x l] Hl; cbn [exchange_loop length] in *;
    try (constructor; fail); [lia|].
  destruct (exchange_pass better x l) as [m r] eqn:Hp.
  pose proof (exchange_pass_perm _ _ _ _ Hp) as Hperm.
  pose proof (Permutation_length Hperm) as Hlen. cbn [length] in Hlen.
  intros [Hx HP]%Forall_cons. destruct (exchange_pass_best _ _ _ _ Hx HP Hp) as (Hm & _ & Hr).
  constructor.
  - apply IH; [lia|]. assert (Forall P (m :: r)) as [_ ?]%Forall_cons; [|done].
    rewrite Hperm. by constructor.
  - by rewrite exchange_loop_perm.
Qed.

Lemma exchange_sort_sorted l : Forall P l →
  StronglySorted (λ a b, better b a = false) (exchange_sort better l).
Proof using asym ntrans. by apply exchange_loop_sorted. Qed.
End exchange_facts.

(** ** The registry's invariant *)

Record vm_base (vm : ValidatorManager) : Prop := {
  vb_id : ∀ i v, vm_validators vm !! i = Some v → vi_ID v = i ∧ is_u64 (vi_Stake v);
  vb_total : vm_totalStake vm = u64 (msum vi_Stake (vm_validators vm)) }.

Record vm_wf (vm : ValidatorManager) : Prop := {
  vw_base :> vm_base vm;
  vw_nodup : NoDup (vm_active vm);
  vw_active : ∀ i, i ∈ vm_active vm →
    is_status ValidatorStatusActive (vm_validators vm) i = true;
  vw_active_total : vm_activeTotalStake vm = stakes_of (vm_validators vm) (vm_active vm) }.

Lemma stakes_of_perm m l k : l ≡ₚ k → stakes_of m l = stakes_of m k.
Proof. intros Hp. unfold stakes_of. by rewrite (visit_perm m l k Hp). Qed.

(** What the rebuild of the active list selects. *)
Definition vm_selection (order : list bytes32) (maxSetSize : Z) (vm : ValidatorManager) :
    list bytes32 :=
  take (Z.to_nat maxSetSize) (sortValidatorsByScore (vm_validators vm)
    (List.filter (is_status ValidatorStatusActive (vm_validators vm)) order)).

Lemma NoDup_listfilter {A} (f : A → bool) l : NoDup l → NoDup (List.filter f l).
Proof.
  induction 1 as [|x l Hx Hl IH]; [constructor|]. cbn. destruct (f x); [|done].
  constructor; [|done]. intros Hin. apply Hx. apply list_elem_of_In in Hin.
  apply filter_In in Hin as [Hin _]. by apply list_elem_of_In.
Qed.

Lemma elem_of_listfilter {A} (f : A → bool) l x : x ∈ List.filter f l ↔ x ∈ l ∧ f x = true.
Proof. by rewrite !list_elem_of_In, filter_In. Qed.

Lemma vm_rebuild order n vm : vm_base vm → iter_order (vm_validators vm) order → 0 ≤ n →
  ∃ vm', updateActiveValidators order n vm = Some vm' ∧ vm_wf vm' ∧
    vm' = vm_with_active (vm_selection order n vm)
            (stakes_of (vm_validators vm) (vm_selection order n vm)) vm ∧
    Z.of_nat (length (vm_active vm')) ≤ n.
Proof.
  intros Hb [Hnd Ho] Hn. set (act := List.filter (is_status ValidatorStatusActive (vm_validators vm)) order).
  set (sorted := sortValidatorsByScore (vm_validators vm) act).
  assert (sorted ≡ₚ act) as Hperm by apply exchange_sort_perm.
  assert (vm_selection order n vm = take (Z.to_nat n) sorted) as Hsel by done.
  assert (∀ l, l ≡ₚ take (Z.to_nat n) sorted → vm_wf (vm_with_active l
    (stakes_of (vm_validators vm) l) vm)) as Hwf.
  { intros l Hl. split; [by destruct Hb| | |done]; cbn [vm_active vm_with_active vm_validators].
    - rewrite Hl. assert (NoDup sorted) as Hs by (rewrite Hperm; by apply NoDup_listfilter).
      rewrite <- (take_drop (Z.to_nat n) sorted) in Hs. by apply NoDup_app in Hs as [? _].
    - intros i. rewrite Hl. intros Hi. assert (i ∈ sorted) as Hi2.
      { rewrite <- (take_drop (Z.to_nat n) sorted). apply elem_of_app. by left. }
      rewrite Hperm in Hi2. by apply elem_of_listfilter in Hi2 as [_ ?]. }
  unfold updateActiveValidators. fold act. fold sorted.
  destruct (Z.ltb_spec n (Z.of_nat (length sorted))) as [Hlt|Hge].
  - destruct (Z.ltb_spec n 0); [lia|]. eexists. split; [done|]. rewrite Hsel.
    split_and!; [by apply Hwf|done|]. cbn. rewrite length_take. lia.
  - assert (take (Z.to_nat n) sorted = sorted) as Hall by (apply take_ge; lia).
    assert (stakes_of (vm_validators vm) act = stakes_of (vm_validators vm) sorted) as ->
      by (by apply stakes_of_perm).
    eexists. split; [done|]. rewrite Hsel, Hall.
    split_and!; [apply Hwf; by rewrite ?Hall|done|]. cbn. lia.
Qed.

(** Changing one entry of the registry. *)
Lemma vm_base_put id v w t vm : vm_base vm → vm_validators vm !! id = Some v → vi_ID w = id →
  is_u64 (vi_Stake w) → t = u64 (vm_totalStake vm - vi_Stake v + vi_Stake w) → ∀ a,
  vm_base (vm_with_totals t a (put_validator id w vm)).
Proof.
  intros [Hid Ht] Hv Hw Hs -> a. split; cbn.
  - intros i x. rewrite lookup_insert_Some. intros [[<- <-]|[_ Hx]]; [done|by apply Hid].
  - rewrite (msum_insert _ _ _ _ _ Hv), Ht. unfold u64.
    rewrite <- Z.add_opp_l, <- Z.add_assoc, Z.add_comm, <- Z.add_assoc, Zplus_mod_idemp_l. f_equal. lia.
Qed.

Lemma vm_base_same id v w vm : vm_base vm → vm_validators vm !! id = Some v → vi_ID w = vi_ID v →
  vi_Stake w = vi_Stake v → vm_base (put_validator id w vm).
Proof.
  intros Hb Hv Hi Hs. destruct (vb_id vm Hb _ _ Hv) as [Hid Hu].
  apply (vm_base_put id v w (vm_totalStake vm) vm) with (a := vm_activeTotalStake vm) in Hv as Hg;
    [by destruct Hg; split|done|congruence|by rewrite Hs|].
  rewrite (vb_total vm Hb), Hs. unfold u64. by rewrite Z.sub_add, Z.mod_mod.
Qed.

(** An entry that keeps its stake and status keeps the whole invariant. *)
Lemma vm_wf_same id v w vm : vm_wf vm → vm_validators vm !! id = Some v → vi_ID w = vi_ID v →
  vi_Stake w = vi_Stake v →
  (vi_Status w = vi_Status v ∨ vi_Status v ≠ ValidatorStatusActive) →
  vm_wf (put_validator id w vm).
Proof.
  intros [Hb Hnd Ha Ht] Hv Hi Hs Hst. split; [by eapply vm_base_same|done| |].
  - intros i Hin. specialize (Ha i Hin). cbn. unfold is_status in *.
    destruct (decide (i = id)) as [->|Hne]; [|by rewrite lookup_insert_ne].
    rewrite lookup_insert_eq. rewrite Hv in Ha. apply bool_decide_eq_true in Ha.
    destruct Hst as [->|Hst]; [by apply bool_decide_eq_true_2|done].
  - cbn [vm_activeTotalStake put_validator vm_with_validators]. rewrite Ht. unfold stakes_of. f_equal.
    apply visit_fmap_ext. intros k _. cbn. destruct (decide (k = id)) as [->|Hne].
    + rewrite lookup_insert_eq, Hv. cbn. by rewrite Hs.
    + by rewrite lookup_insert_ne.
Qed.

(** ** The registries of DPoS and of the DAG *)

Definition dpos_stake (h : Hybrid) (id : bytes32) : option Z :=
  Stake <$> validators (hy_dpos h) !! id.
Definition node_stake (h : Hybrid) (id : bytes32) : option Z :=
  nd_Stake <$> Nodes (lc_dag (hy_lachesis h)) !! id.

(** What forwarding a stake does to the consensus. *)
Record forwarded (id : bytes32) (stake : Z) (h h' : Hybrid) : Prop := {
  fw_ok : hybrid_ok h';
  fw_epoch : epochDuration (hy_dpos h') = epochDuration (hy_dpos h);
  fw_dpos i : dpos_stake h' i = if decide (i = id) then Some stake else dpos_stake h i;
  fw_node i : node_stake h' i = if decide (i = id) then Some stake else node_stake h i }.

Lemma with_lachesis_ok l h : hybrid_ok h → hybrid_ok (with_lachesis l h).
Proof. done. Qed.

Lemma push_stake_spec id stake h : hybrid_ok h → is_u64 stake →
  is_Some (dpos_stake h id) → is_Some (node_stake h id) →
  ∃ h', push_stake id stake h = Some h' ∧ forwarded id stake h h'.
Proof.
  intros [Hw Ho] Hs [s0 Hd] [n0 Hn]. unfold dpos_stake in Hd.
  destruct (validators (hy_dpos h) !! id) as [v|] eqn:Hv; [|done].
  pose proof (UpdateStake_wf_base _ _ _ _ (wf_b _ Hw) Hs Hv) as Hb.
  destruct (updateActive_spec (hy_order h (validators (hy_dpos h))) _ Hb)
    as (d' & Hd' & Hwf & _ & _ & He & _ & _ & _ & _ & Hl).
  { cbn. eapply iter_order_dom; [|apply Ho]. intros k. destruct (decide (k = id)) as [->|Hne].
    - rewrite lookup_insert_eq, Hv. split; by eexists.
    - by rewrite lookup_insert_ne. }
  unfold push_stake, DPoS.UpdateStake. rewrite Hv, Hd'. cbn [mbind option_bind].
  eexists. split; [done|]. split.
  - split; [exact Hwf|exact Ho].
  - exact He.
  - intros i. unfold dpos_stake. cbn [hy_dpos with_lachesis with_dpos]. rewrite Hl. cbn.
    destruct (decide (i = id)) as [->|Hne].
    + by rewrite lookup_insert_eq.
    + rewrite lookup_insert_ne by done. by destruct (validators (hy_dpos h) !! i).
  - intros i. unfold node_stake in *. cbn. unfold Dag.UpdateNodeStake.
    destruct (Nodes (lc_dag (hy_lachesis h)) !! id) as [n|] eqn:Hid; [|done]. cbn.
    destruct (decide (i = id)) as [->|Hne]; [by rewrite lookup_insert_eq|].
    by rewrite lookup_insert_ne.
Qed.

Lemma add_stake_spec now id stake h : hybrid_ok h → is_u64 stake →
  dpos_stake h id = None →
  ∃ d, DPoS.AddValidator (hy_order h (validators (register now id stake (hy_dpos h)))) now id stake
         (hy_dpos h) = Some d ∧
    forwarded id stake h
      (with_lachesis (Lachesis.AddNode id stake (hy_lachesis h)) (with_dpos d h)).
Proof.
  intros [Hw Ho] Hs Hd. unfold dpos_stake in Hd.
  destruct (validators (hy_dpos h) !! id) as [v|] eqn:Hv; [done|].
  pose proof (register_wf_base now id stake _ (wf_b _ Hw) Hs) as Hb.
  destruct (updateActive_spec (hy_order h (validators (register now id stake (hy_dpos h)))) _ Hb
    (Ho _)) as (d' & Hd' & Hwf & _ & _ & He & _ & _ & _ & _ & Hl).
  unfold DPoS.AddValidator. exists d'. split; [done|]. split.
  - split; [exact Hwf|exact Ho].
  - cbn. rewrite He. unfold register. by rewrite Hv.
  - intros i. unfold dpos_stake. cbn [hy_dpos with_lachesis with_dpos]. rewrite Hl.
    unfold register. rewrite Hv. cbn. destruct (decide (i = id)) as [->|Hne].
    + by rewrite lookup_insert_eq.
    + rewrite lookup_insert_ne by done. by destruct (validators (hy_dpos h) !! i).
  - intros i. unfold node_stake. cbn. unfold Dag.AddNode.
    destruct (Nodes (lc_dag (hy_lachesis h)) !! id) as [n|]; cbn;
      (destruct (decide (i = id)) as [->|Hne]; [by rewrite lookup_insert_eq|]);
      by rewrite lookup_insert_ne.
Qed.

(** ** Runs *)

Inductive vm_op :=
| OpAdd (now1 now2 now3 : Z) (id : bytes32) (stake : Z)
| OpUpdateStake (id : bytes32) (stake : Z)
| OpActivate (id : bytes32)
| OpDeactivate (id : bytes32)
| OpSlash (id : bytes32) (amount : Z)
| OpJail (id : bytes32)
| OpUnjail (id : bytes32)
| OpRewardBlock (now now2 : Z) (id : bytes32)
| OpRewardEvent (now : Z) (id : bytes32)
| OpEpoch (now height : Z).

(** The numbers a caller passes are [uint64]s. *)
Definition op_u64 (op : vm_op) : Prop :=
  match op with
  | OpAdd _ _ _ _ s | OpUpdateStake _ s | OpSlash _ s => is_u64 s
  | _ => True
  end.
Definition is_epoch (op : vm_op) : bool := match op with OpEpoch _ _ => true | _ => false end.

Section runs.
Variable pow : f64 → f64 → f64.
Variable wild_uint : f64 → Z.
Variable ord : orders.
Hypothesis Hord : ∀ m, iter_order m (ord m).

Definition state_part (o : outcome) : option (ValidatorManager * Hybrid) := fst <$> o.

Definition run_op (op : vm_op) (vm : ValidatorManager) (h : Hybrid) :
    option (ValidatorManager * Hybrid) :=
  match op with
  | OpAdd now1 now2 now3 id stake => state_part (AddValidator ord now1 now2 now3 id stake vm h)
  | OpUpdateStake id stake => state_part (UpdateStake ord id stake vm h)
  | OpActivate id => state_part (ActivateValidator ord id vm h)
  | OpDeactivate id => state_part (DeactivateValidator ord id vm h)
  | OpSlash id amount => state_part (SlashValidator ord id amount vm h)
  | OpJail id => state_part (JailValidator ord id vm h)
  | OpUnjail id => Some ((UnjailValidator id vm).1, h)
  | OpRewardBlock now now2 id => Some (RewardBlockProduction pow now now2 id vm h).1
  | OpRewardEvent now id => Some ((RewardEventFinalization pow now id vm).1, h)
  | OpEpoch now height =>
      vm ← ProcessEpoch pow wild_uint ord now height vm h; Some (vm, h)
  end.

Fixpoint run_ops (ops : list vm_op) (vm : ValidatorManager) (h : Hybrid) :
    option (ValidatorManager * Hybrid) :=
  match ops with
  | [] => Some (vm, h)
  | op :: ops => '(vm, h) ← run_op op vm h; run_ops ops vm h
  end.

(** DPoS knows exactly the manager's validators, and the DAG knows them. *)
Definition linked (vm : ValidatorManager) (h : Hybrid) : Prop :=
  ∀ id, (is_Some (vm_validators vm !! id) ↔ is_Some (dpos_stake h id)) ∧
    (is_Some (vm_validators vm !! id) → is_Some (node_stake h id)).

Definition vm_inv (vm : ValidatorManager) (h : Hybrid) : Prop :=
  vm_wf vm ∧ hybrid_ok h ∧ epochDuration (hy_dpos h) ≠ 0 ∧ linked vm h.

(** The three registries record the same stakes. *)
Definition stakes_agree (vm : ValidatorManager) (h : Hybrid) : Prop :=
  ∀ id v, vm_validators vm !! id = Some v →
    dpos_stake h id = Some (vi_Stake v) ∧ node_stake h id = Some (vi_Stake v).

Definition good (agree : bool) (vm : ValidatorManager) (h : Hybrid) : Prop :=
  vm_inv vm h ∧ (agree = true → stakes_agree vm h).

Lemma refresh_good b vm h : vm_base vm → hybrid_ok h → epochDuration (hy_dpos h) ≠ 0 →
  linked vm h → (b = true → stakes_agree vm h) →
  ∃ vm', refresh ord vm h = Some (vm', h, Ok ()) ∧ good b vm' h.
Proof.
  intros Hb Hh He Hl Ha. unfold refresh.
  destruct (vm_rebuild (ord (vm_validators vm)) (GetSetSize (hy_dpos h)) vm Hb (Hord _))
    as (vm' & -> & Hw & Heq & _); [apply (wfb_size _ (proj1 Hh))|].
  cbn [mbind option_bind]. exists vm'. split; [done|]. subst vm'. by split.
Qed.

(** Replacing an entry keeps the links, and the agreement when the stake
    stays. *)
Lemma linked_put id v w vm h : vm_validators vm !! id = Some v → linked vm h →
  linked (put_validator id w vm) h.
Proof.
  intros Hv Hl i. cbn. destruct (decide (i = id)) as [->|Hne]; [|by rewrite lookup_insert_ne].
  rewrite lookup_insert_eq. destruct (Hl id) as [H1 H2]. rewrite Hv in H1, H2.
  split; [|intros _; by apply H2]. split; [intros _; by apply H1|intros _; by eexists].
Qed.

Lemma agree_put id v w vm h : vm_validators vm !! id = Some v → vi_Stake w = vi_Stake v →
  stakes_agree vm h → stakes_agree (put_validator id w vm) h.
Proof.
  intros Hv Hs Ha i x. cbn. rewrite lookup_insert_Some. intros [[<- <-]|[_ Hx]]; [|by apply Ha].
  rewrite Hs. by apply Ha.
Qed.

(** An operation that only replaces an entry of the same stake. *)
Lemma status_good b id v w vm h : good b vm h → vm_validators vm !! id = Some v →
  vi_ID w = vi_ID v → vi_Stake w = vi_Stake v →
  ∃ vm', refresh ord (put_validator id w vm) h = Some (vm', h, Ok ()) ∧ good b vm' h.
Proof.
  intros [(Hw & Hh & He & Hl) Ha] Hv Hi Hs. apply refresh_good; [|done|done| |].
  - by apply (vm_base_same id v); [apply Hw|..].
  - by eapply linked_put.
  - intros Hb. apply (agree_put id v); [done|done|]. by apply Ha.
Qed.

(** Setting a stake, in the registry and in the consensus. *)
Lemma forward_good b id v w t a vm h : good b vm h → vm_validators vm !! id = Some v →
  vi_ID w = id → is_u64 (vi_Stake w) →
  t = u64 (vm_totalStake vm - vi_Stake v + vi_Stake w) →
  ∃ h' vm', push_stake id (vi_Stake w) h = Some h' ∧
    refresh ord (vm_with_totals t a (put_validator id w vm)) h' = Some (vm', h', Ok ()) ∧
    good b vm' h'.
Proof.
  intros [(Hw & Hh & He & Hl) Ha] Hv Hi Hs Ht.
  destruct (Hl id) as [Hl1 Hl2]. rewrite Hv in Hl1, Hl2.
  destruct (push_stake_spec id (vi_Stake w) h Hh Hs) as (h' & Hp & [Fok Fep Fd Fn]);
    [apply Hl1; by eexists|apply Hl2; by eexists|].
  exists h'. destruct (refresh_good b (vm_with_totals t a (put_validator id w vm)) h')
    as (vm' & ? & ?); [|done|congruence| | |by exists vm'].
  - eapply vm_base_put; [apply Hw|done..].
  - intros i. rewrite Fd, Fn. cbn. destruct (decide (i = id)) as [->|Hne].
    + rewrite lookup_insert_eq. split; [split|]; by eexists.
    + rewrite lookup_insert_ne by done. apply Hl.
  - intros Hb i x. rewrite Fd, Fn. cbn. rewrite lookup_insert_Some.
    intros [[<- <-]|[Hne Hx]]; [by rewrite !decide_True|].
    rewrite !decide_False by done. by apply Ha.
Qed.

Lemma AddValidator_good b n1 n2 n3 id stake vm h : good b vm h → is_u64 stake →
  ∃ vm' h' r, AddValidator ord n1 n2 n3 id stake vm h = Some (vm', h', r) ∧ good b vm' h'.
Proof.
  intros Hg Hs. unfold AddValidator. destruct (vm_validators vm !! id) as [v|] eqn:Hv; [by eauto|].
  destruct (stake =? 0); [by eauto|]. destruct Hg as [(Hw & Hh & He & Hl) Ha].
  destruct (Hl id) as [Hl1 _]. rewrite Hv in Hl1.
  assert (dpos_stake h id = None) as Hd.
  { destruct (dpos_stake h id); [|done]. destruct (proj2 Hl1) as [? ?]; [by eexists|done]. }
  destruct (add_stake_spec n3 id stake h Hh Hs Hd) as (d & -> & [Fok Fep Fd Fn]).
  cbn [mbind option_bind]. set (h' := with_lachesis _ _) in *.
  edestruct (refresh_good b) as (vm' & Hr & Hg');
    [| |rewrite Fep; exact He| | |exists vm', h', (Ok ()); split; [exact Hr|done]]; [|done| |].
  - destruct Hw as [[Hid Ht] _ _ _]. split; cbn.
    + intros i x. rewrite lookup_insert_Some. intros [[<- <-]|[_ Hx]]; [done|by apply Hid].
    + rewrite msum_insert_new by done. cbn. rewrite Ht. unfold uadd. rewrite u64_add_l.
      f_equal. lia.
  - intros i. rewrite Fd, Fn. cbn. destruct (decide (i = id)) as [->|Hne].
    + rewrite lookup_insert_eq. split; [split|]; by eexists.
    + rewrite lookup_insert_ne by done. apply Hl.
  - intros Hb i x. rewrite Fd, Fn. cbn. rewrite lookup_insert_Some.
    intros [[<- <-]|[Hne Hx]]; [by rewrite !decide_True|].
    rewrite !decide_False by done. by apply Ha.
Qed.

Lemma UpdateStake_good b id stake vm h : good b vm h → is_u64 stake →
  ∃ vm' h' r, UpdateStake ord id stake vm h = Some (vm', h', r) ∧ good b vm' h'.
Proof.
  intros Hg Hs. unfold UpdateStake. destruct (vm_validators vm !! id) as [v|] eqn:Hv; [|by eauto].
  destruct (stake =? 0); [by eauto|]. set (a := if bool_decide _ then _ else _).
  destruct (forward_good b id v (vi_with_Stake stake v)
    (uadd (usub (vm_totalStake vm) (vi_Stake v)) stake) a vm h Hg Hv) as (h' & vm' & Hp & Hr & Hg').
  - by destruct (vb_id vm (proj1 (proj1 Hg)) _ _ Hv).
  - done.
  - unfold uadd, usub. by rewrite u64_add_l.
  - cbn [vi_Stake vi_with_Stake] in Hp. rewrite Hp. cbn [mbind option_bind].
    change (vm_with_validators _ vm) with (put_validator id (vi_with_Stake stake v) vm).
    rewrite Hr. by eauto.
Qed.

Lemma SlashValidator_good b id amount vm h : good b vm h → is_u64 amount →
  ∃ vm' h' r, SlashValidator ord id amount vm h = Some (vm', h', r) ∧ good b vm' h'.
Proof.
  intros Hg Hs. unfold SlashValidator. destruct (vm_validators vm !! id) as [v|] eqn:Hv; [|by eauto].
  destruct (vb_id vm (proj1 (proj1 Hg)) _ _ Hv) as [Hid Hst].
  set (amt := if vi_Stake v <? amount then vi_Stake v else amount).
  assert (0 ≤ amt ≤ vi_Stake v) as Hamt.
  { unfold amt. unfold is_u64 in *. destruct (Z.ltb_spec (vi_Stake v) amount); lia. }
  set (w := vi_misbehaved _). set (a := if bool_decide _ then _ else _).
  assert (vi_Stake w = vi_Stake v - amt) as Hw.
  { cbn. unfold usub. apply u64_small. unfold is_u64 in *. lia. }
  destruct (forward_good b id v w (usub (vm_totalStake vm) amt) a vm h Hg Hv)
    as (h' & vm' & Hp & Hr & Hg').
  - done.
  - rewrite Hw. unfold is_u64 in *. lia.
  - rewrite Hw. unfold usub. f_equal. lia.
  - rewrite Hp. cbn [mbind option_bind]. rewrite Hr. by eauto.
Qed.

(** Operations on the status alone. *)
Lemma status_ops_good b op vm h : good b vm h →
  match op with OpActivate _ | OpDeactivate _ | OpJail _ => True | _ => False end →
  ∃ s, run_op op vm h = Some s ∧ good b s.1 s.2.
Proof.
  intros Hg Hop.
  assert (∃ s, Some (vm, h) = Some s ∧ good b s.1 s.2) as Hsame by by eexists.
  assert (∀ id v w, vm_validators vm !! id = Some v → vi_ID w = vi_ID v → vi_Stake w = vi_Stake v →
    ∃ s, state_part (refresh ord (put_validator id w vm) h) = Some s ∧ good b s.1 s.2) as Hput.
  { intros id v w Hv Hi Hs. destruct (status_good b id v w vm h Hg Hv Hi Hs) as (vm' & -> & ?).
    by eexists. }
  destruct op; try done; cbn [run_op];
    unfold ActivateValidator, DeactivateValidator, JailValidator;
    destruct (vm_validators vm !! id) as [v|] eqn:Hv; try exact Hsame;
    repeat (case_match; try exact Hsame); by eapply Hput.
Qed.

(** Rewards keep the identifiers and the total in step with the stakes. *)
Lemma reward_step_base R id vm : vm_base vm → vm_base (reward_step wild_uint R vm id).
Proof.
  intros Hb. unfold reward_step. destruct (vm_validators vm !! id) as [v|] eqn:Hv; [|done].
  destruct (vb_id vm Hb _ _ Hv) as [Hid _]. eapply vm_base_put; [done|exact Hv|done| |].
  - apply u64_range.
  - cbn [vi_Stake vi_with_counts vi_with_Stake]. unfold uadd, u64. rewrite Zplus_mod_idemp_r.
    f_equal. lia.
Qed.

Lemma reward_step_keys R id vm i :
  is_Some (vm_validators (reward_step wild_uint R vm id) !! i) ↔ is_Some (vm_validators vm !! i).
Proof.
  unfold reward_step. destruct (vm_validators vm !! id) as [v|] eqn:Hv; [|done]. cbn.
  destruct (decide (i = id)) as [->|Hne]; [rewrite lookup_insert_eq, Hv|by rewrite lookup_insert_ne].
  split; by eexists.
Qed.

Lemma distribute_base epoch vm : vm_base vm →
  vm_base (distributeEpochRewards pow wild_uint epoch vm) ∧
  ∀ i, is_Some (vm_validators (distributeEpochRewards pow wild_uint epoch vm) !! i) ↔
    is_Some (vm_validators vm !! i).
Proof.
  intros Hb. unfold distributeEpochRewards. destruct (_ =? 0); [done|].
  generalize (calculateEpochReward pow wild_uint epoch). intros R.
  generalize (vm_active vm). intros l. revert vm Hb.
  induction l as [|id l IH]; intros vm Hb; [done|]. cbn [foldl].
  destruct (IH (reward_step wild_uint R vm id)) as [H1 H2]; [by apply reward_step_base|].
  split; [done|]. intros i. by rewrite H2, reward_step_keys.
Qed.

Lemma decay_base now vm : vm_base vm → vm_base (decayAllValidatorPerformance pow now vm).
Proof.
  intros [Hid Ht]. assert (∀ v, vi_ID (decay_one pow now vm v) = vi_ID v ∧
    vi_Stake (decay_one pow now vm v) = vi_Stake v) as Hd.
  { intros v. unfold decay_one. by case_match. }
  split; cbn.
  - intros i v. rewrite lookup_fmap. destruct (vm_validators vm !! i) as [w|] eqn:Hw; [|done].
    intros [= <-]. destruct (Hd w) as [-> ->]. by apply Hid.
  - rewrite msum_fmap; [done|]. intros v. apply Hd.
Qed.

Lemma ProcessEpoch_good now height vm h : vm_inv vm h →
  ∃ vm', ProcessEpoch pow wild_uint ord now height vm h = Some vm' ∧ vm_inv vm' h.
Proof.
  intros (Hw & Hh & He & Hl). unfold ProcessEpoch, GetEpochDuration.
  destruct (Z.eqb_spec (epochDuration (hy_dpos h)) 0) as [H0|_]; [done|].
  destruct (negb _); [by exists vm|].
  destruct (distribute_base (height / epochDuration (hy_dpos h)) vm (vw_base _ Hw)) as [Hb Hk].
  set (vm1 := distributeEpochRewards _ _ _ _) in *.
  pose proof (decay_base now vm1 Hb) as Hb2. set (vm2 := decayAllValidatorPerformance _ _ _) in *.
  destruct (vm_rebuild (ord (vm_validators vm2)) (GetSetSize (hy_dpos h)) vm2 Hb2 (Hord _))
    as (vm3 & -> & Hw3 & -> & _); [apply (wfb_size _ (proj1 Hh))|].
  cbn [mbind option_bind]. eexists. split; [done|]. split_and!; [|done|done|].
  - destruct Hw3 as [[? ?] ? ? ?]. by split.
  - intros id. cbn. rewrite lookup_fmap, fmap_is_Some, Hk. apply Hl.
Qed.

(** A reward changes an entry's counters and performance. *)
Lemma put_good b id v w vm h : good b vm h → vm_validators vm !! id = Some v →
  vi_ID w = vi_ID v → vi_Stake w = vi_Stake v →
  (vi_Status w = vi_Status v ∨ vi_Status v ≠ ValidatorStatusActive) →
  good b (put_validator id w vm) h.
Proof.
  intros [(Hw & Hh & He & Hl) Ha] Hv Hi Hs Hst. split; [split_and!|]; try done.
  - by apply (vm_wf_same id v).
  - by eapply linked_put.
  - intros Hb. apply (agree_put id v); [done|done|]. by apply Ha.
Qed.

Lemma RewardValidator_good b now id vm h : good b vm h →
  good b vm (with_dpos (RewardValidator now id (hy_dpos h)) h).
Proof.
  intros [(Hw & [Hd Ho] & He & Hl) Ha].
  assert (epochDuration (RewardValidator now id (hy_dpos h)) = epochDuration (hy_dpos h)) as Hep.
  { unfold RewardValidator. by repeat case_match. }
  assert (∀ i, dpos_stake (with_dpos (RewardValidator now id (hy_dpos h)) h) i = dpos_stake h i) as Hst.
  { intros i. unfold dpos_stake. cbn. unfold RewardValidator.
    destruct (validators (hy_dpos h) !! id) as [v|] eqn:Hv; [|done]. cbn.
    destruct (decide (i = id)) as [->|Hne]; [by rewrite lookup_insert_eq, Hv|].
    by rewrite lookup_insert_ne. }
  split; [split_and!|].
  - done.
  - split; [|done]. eapply (dpos_step_wf pow); [exact Hd|apply step_RewardValidator].
  - cbn. by rewrite Hep.
  - intros i. rewrite Hst. apply Hl.
  - intros Hb i v Hv. rewrite Hst. by apply Ha.
Qed.

Lemma run_op_good b op vm h : good b vm h → op_u64 op → (b = true → is_epoch op = false) →
  ∃ s, run_op op vm h = Some s ∧ good b s.1 s.2.
Proof.
  intros Hg Hu Hb. destruct op; cbn [run_op op_u64] in *.
  - destruct (AddValidator_good b now1 now2 now3 id stake vm h Hg Hu) as (vm' & h' & r & -> & ?).
    by eexists.
  - destruct (UpdateStake_good b id stake vm h Hg Hu) as (vm' & h' & r & -> & ?). by eexists.
  - by apply (status_ops_good b (OpActivate id)).
  - by apply (status_ops_good b (OpDeactivate id)).
  - destruct (SlashValidator_good b id amount vm h Hg Hu) as (vm' & h' & r & -> & ?). by eexists.
  - by apply (status_ops_good b (OpJail id)).
  - eexists. split; [done|]. unfold UnjailValidator.
    destruct (vm_validators vm !! id) as [v|] eqn:Hv; [|done].
    destruct (bool_decide _) eqn:Hs; [|done]. apply bool_decide_eq_true in Hs.
    apply (put_good b id v); [done..|]. right. by rewrite Hs.
  - eexists. split; [done|]. unfold RewardBlockProduction.
    destruct (vm_validators vm !! id) as [v|] eqn:Hv; [|done].
    apply RewardValidator_good, (put_good b id v); [done..|by left].
  - eexists. split; [done|]. unfold RewardEventFinalization.
    destruct (vm_validators vm !! id) as [v|] eqn:Hv; [|done].
    apply (put_good b id v); [done..|by left].
  - destruct (ProcessEpoch_good now height vm h (proj1 Hg)) as (vm' & -> & ?).
    cbn. eexists. split; [done|]. split; [done|]. intros Ht. by specialize (Hb Ht).
Qed.

Lemma run_ops_good b ops : ∀ vm h, good b vm h → Forall op_u64 ops →
  (b = true → Forall (λ op, is_epoch op = false) ops) →
  ∃ s, run_ops ops vm h = Some s ∧ good b s.1 s.2.
Proof.
  induction ops as [|op ops IH]; intros vm h Hg Hu Hb; [by exists (vm, h)|].
  apply Forall_cons in Hu as [Hu1 Hu]. cbn [run_ops].
  destruct (run_op_good b op vm h Hg Hu1) as ([vm1 h1] & -> & Hg1).
  { intros Ht. by specialize (Hb Ht) as [? _]%Forall_cons. }
  cbn [mbind option_bind]. apply IH; [done|done|].
  intros Ht. by specialize (Hb Ht) as [_ ?]%Forall_cons.
Qed.
End runs.

(** ** Runs with RestoreState *)

Inductive vm_call :=
| Call (op : vm_op)
| CallRestore (keys : list string) (data : list byte).

Section restores.
Variable pow : f64 → f64 → f64.
Variable wild_uint : f64 → Z.
Variable ord : orders.
Variable unmarshal : list byte → option manager_state.

Definition run_call (c : vm_call) (vm : ValidatorManager) (h : Hybrid) :
    option (ValidatorManager * Hybrid) :=
  match c with
  | Call op => run_op pow wild_uint ord op vm h
  | CallRestore keys data => Some ((RestoreState unmarshal keys data vm).1, h)
  end.

Fixpoint run_calls (cs : list vm_call) (vm : ValidatorManager) (h : Hybrid) :
    option (ValidatorManager * Hybrid) :=
  match cs with
  | [] => Some (vm, h)
  | c :: cs => '(vm, h) ← run_call c vm h; run_calls cs vm h
  end.

(** The validators DPoS may have another stake for: those the manager added
    although DPoS knew them, until their stake is set or slashed. *)
Definition lag (c : vm_call) (vm : ValidatorManager) (h : Hybrid) (L : gset bytes32) : gset bytes32 :=
  match c with
  | Call (OpAdd _ _ _ id stake) =>
      if decide (is_Some (dpos_stake h id)) then
        match vm_validators vm !! id with
        | None => if stake =? 0 then L else {[id]} ∪ L
        | Some _ => L
        end
      else L
  | Call (OpUpdateStake id stake) => if stake =? 0 then L else L ∖ {[id]}
  | Call (OpSlash id _) => L ∖ {[id]}
  | _ => L
  end.
Fixpoint lagging (cs : list vm_call) (vm : ValidatorManager) (h : Hybrid) (L : gset bytes32) :
    gset bytes32 :=
  match cs with
  | [] => L
  | c :: cs =>
      match run_call c vm h with
      | Some (vm', h') => lagging cs vm' h' (lag c vm h L)
      | None => L
      end
  end.

Definition call_ok (c : vm_call) : Prop :=
  match c with Call op => op_u64 op ∧ is_epoch op = false | CallRestore _ _ => True end.
Definition is_restore (c : vm_call) : bool := match c with CallRestore _ _ => true | Call _ => false end.

Lemma restore_registry keys data vm :
  vm_validators (RestoreState unmarshal keys data vm).1 = vm_validators vm ∨
  vm_validators (RestoreState unmarshal keys data vm).1 = ∅.
Proof.
  unfold RestoreState. destruct (unmarshal data) as [st|]; [right|by left].
  assert (∀ ks m, (restore_validators ks (ms_Validators st) m).1 = m) as Hm.
  { induction ks as [|k ks IH]; intros m; [done|]. cbn [restore_validators].
    destruct (ms_Validators st !! k); [done|apply IH]. }
  specialize (Hm keys ∅). destruct (restore_validators keys (ms_Validators st) ∅) as [m [u|e]];
    cbn in Hm; subst m; [|done]. by destruct (restore_active _ _ _) as [act [|]].
Qed.

(** What the stakes of the three registries have in common, [L] apart. *)
Record shared (L : gset bytes32) (vm : ValidatorManager) (h : Hybrid) : Prop := {
  sh_ok : hybrid_ok h;
  sh_node id v : vm_validators vm !! id = Some v → node_stake h id = Some (vi_Stake v);
  sh_known id v : vm_validators vm !! id = Some v → is_Some (dpos_stake h id);
  sh_dpos id v : vm_validators vm !! id = Some v → id ∉ L → dpos_stake h id = Some (vi_Stake v) }.

Lemma shared_map L vm vm' h : shared L vm h → vm_validators vm' = vm_validators vm → shared L vm' h.
Proof. intros [H1 H2 H3 H4] Hv. split; [done|by rewrite Hv..]. Qed.

Lemma refresh_part vm h s : state_part (refresh ord vm h) = Some s →
  vm_validators s.1 = vm_validators vm ∧ s.2 = h.
Proof.
  unfold refresh, state_part, updateActiveValidators.
  repeat (case_match; try done); cbn; by intros [= <-].
Qed.

Lemma shared_refresh L vm h s : shared L vm h → state_part (refresh ord vm h) = Some s →
  shared L s.1 s.2.
Proof. intros Hs [Hv ->]%refresh_part. by apply (shared_map L vm). Qed.

Lemma shared_put L id v w vm h : shared L vm h → vm_validators vm !! id = Some v →
  vi_Stake w = vi_Stake v → shared L (put_validator id w vm) h.
Proof.
  intros [H1 H2 H3 H4] Hv Hs.
  split; [done|intros i x; cbn; rewrite lookup_insert_Some; intros [[<- <-]|[_ Hx]]..];
    rewrite ?Hs; eauto.
Qed.

(** A stake written to all three. *)
Lemma shared_forward (L : gset bytes32) id w vm vm1 h h' : shared L vm h → forwarded id (vi_Stake w) h h' →
  vm_validators vm1 = <[id := w]> (vm_validators vm) → shared (L ∖ {[id]}) vm1 h'.
Proof.
  intros [H1 H2 H3 H4] [Fok _ Fd Fn] Hv.
  split; [done|intros i x; rewrite Hv, ?Fd, ?Fn, lookup_insert_Some; intros [[<- <-]|[Hne Hx]]..].
  - by rewrite decide_True.
  - rewrite decide_False by done. eauto.
  - rewrite decide_True by done. by eexists.
  - rewrite decide_False by done. eauto.
  - by rewrite decide_True.
  - rewrite decide_False by done. intros Hi. apply (H4 i x Hx). set_solver.
Qed.

Lemma shared_weaken (L L' : gset bytes32) vm h : shared L vm h → L ⊆ L' → shared L' vm h.
Proof. intros [H1 H2 H3 H4] Hs. split; [done..|]. intros i v Hv Hi. apply (H4 i v Hv). set_solver. Qed.

(** Adding a validator DPoS knows leaves DPoS's stake. *)
Lemma readd_spec now id stake h d : hybrid_ok h → is_Some (dpos_stake h id) →
  DPoS.AddValidator (hy_order h (validators (register now id stake (hy_dpos h)))) now id stake
    (hy_dpos h) = Some d →
  let h' := with_lachesis (Lachesis.AddNode id stake (hy_lachesis h)) (with_dpos d h) in
  hybrid_ok h' ∧ (∀ i, dpos_stake h' i = dpos_stake h i) ∧
  ∀ i, node_stake h' i = if decide (i = id) then Some stake else node_stake h i.
Proof.
  intros [Hw Ho] [z Hz]. unfold dpos_stake in Hz.
  destruct (validators (hy_dpos h) !! id) as [v|] eqn:Hv; [|done].
  unfold DPoS.AddValidator. assert (register now id stake (hy_dpos h) = hy_dpos h) as ->
    by (unfold register; by rewrite Hv).
  destruct (updateActive_spec (hy_order h (validators (hy_dpos h))) _ (wf_b _ Hw) (Ho _))
    as (d' & Hd' & Hwf & _ & _ & _ & _ & _ & _ & _ & Hl).
  rewrite Hd'. intros [= <-]. cbn zeta. split_and!; [by split| |].
  - intros i. unfold dpos_stake. cbn [hy_dpos with_lachesis with_dpos]. rewrite Hl.
    by destruct (validators (hy_dpos h) !! i).
  - intros i. unfold node_stake. cbn. unfold Dag.AddNode.
    destruct (Nodes (lc_dag (hy_lachesis h)) !! id) as [n|]; cbn;
      (destruct (decide (i = id)) as [->|Hne]; [by rewrite lookup_insert_eq|]);
      by rewrite lookup_insert_ne.
Qed.

Lemma add_shared L n1 n2 n3 id stake vm h s : shared L vm h → is_u64 stake →
  state_part (AddValidator ord n1 n2 n3 id stake vm h) = Some s →
  shared (lag (Call (OpAdd n1 n2 n3 id stake)) vm h L) s.1 s.2.
Proof.
  intros Hsh Hu. unfold AddValidator. cbn [lag].
  destruct (vm_validators vm !! id) as [v|] eqn:Hv; [case_decide; by intros [= <-]|].
  destruct (stake =? 0); [case_decide; by intros [= <-]|].
  set (w := mkInfo _ _ _ _ _ _ _ _ _). set (vm1 := vm_with_totals _ _ _). unfold state_part.
  destruct (DPoS.AddValidator _ _ _ _ _) as [d|] eqn:Hd; [|done]. cbn [mbind option_bind].
  set (h1 := with_lachesis _ _). intros Hr. eapply shared_refresh; [|exact Hr].
  assert (vm_validators vm1 = <[id := w]> (vm_validators vm)) as Hm by done.
  assert (vi_Stake w = stake) as Hw by done. clearbody w vm1. subst stake.
  case_decide as Hk.
  - destruct (readd_spec n3 id (vi_Stake w) h d (sh_ok _ _ _ Hsh) Hk Hd) as (K1 & K2 & K3).
    fold h1 in K1, K2, K3. destruct Hsh as [H1 H2 H3 H4].
    split; [done|intros i x; rewrite Hm, ?K2, ?K3, lookup_insert_Some; intros [[<- <-]|[Hne Hx]]..].
    + by rewrite decide_True.
    + rewrite decide_False by done. eauto.
    + done.
    + eauto.
    + set_solver.
    + intros Hi. apply (H4 i x Hx). set_solver.
  - assert (dpos_stake h id = None) as Hn by (by apply eq_None_not_Some).
    destruct (add_stake_spec n3 id (vi_Stake w) h (sh_ok _ _ _ Hsh) Hu Hn) as (d' & Hd' & Hf).
    rewrite Hd in Hd'. injection Hd' as <-.
    eapply shared_weaken; [by apply (shared_forward L id _ vm vm1 h h1 Hsh Hf Hm)|set_solver].
Qed.

Lemma put_forward_shared L id v w t a vm h s : shared L vm h → vm_validators vm !! id = Some v →
  is_u64 (vi_Stake w) →
  state_part (h ← push_stake id (vi_Stake w) h;
    refresh ord (vm_with_totals t a (put_validator id w vm)) h) = Some s →
  shared (L ∖ {[id]}) s.1 s.2.
Proof.
  intros Hsh Hv Hu Hr.
  destruct (push_stake_spec id (vi_Stake w) h (sh_ok _ _ _ Hsh) Hu) as (h' & Hp & Hf).
  - by eapply (sh_known _ _ _ Hsh).
  - eexists. by apply (sh_node _ _ _ Hsh).
  - rewrite Hp in Hr. cbn [mbind option_bind] in Hr. eapply shared_refresh; [|exact Hr].
    by apply (shared_forward L id w vm _ h h' Hsh Hf).
Qed.

Lemma status_shared L op vm h s : shared L vm h →
  match op with OpActivate _ | OpDeactivate _ | OpJail _ => True | _ => False end →
  run_op pow wild_uint ord op vm h = Some s → shared L s.1 s.2.
Proof.
  intros Hs Hop. destruct op; try done; cbn [run_op];
    unfold ActivateValidator, DeactivateValidator, JailValidator;
    destruct (vm_validators vm !! id) as [v|] eqn:Hv; try (by intros [= <-]);
    repeat (case_match; try (by intros [= <-]));
    intros Hr; (eapply shared_refresh; [|exact Hr]); by apply (shared_put L id v).
Qed.

Lemma reward_shared L now id vm h : shared L vm h →
  shared L vm (with_dpos (RewardValidator now id (hy_dpos h)) h).
Proof.
  intros [[Hd Ho] H2 H3 H4].
  assert (∀ i, dpos_stake (with_dpos (RewardValidator now id (hy_dpos h)) h) i = dpos_stake h i) as Hst.
  { intros i. unfold dpos_stake. cbn. unfold RewardValidator.
    destruct (validators (hy_dpos h) !! id) as [v|] eqn:Hv; [|done]. cbn.
    destruct (decide (i = id)) as [->|Hne]; [by rewrite lookup_insert_eq, Hv|].
    by rewrite lookup_insert_ne. }
  split; [|exact H2|intros i v Hv; rewrite Hst; by eapply H3|intros i v Hv; rewrite Hst; by eapply H4].
  split; [|done]. eapply (dpos_step_wf pow); [exact Hd|apply step_RewardValidator].
Qed.

Lemma call_shared c L vm h s : shared L vm h → call_ok c →
  run_call c vm h = Some s → shared (lag c vm h L) s.1 s.2.
Proof.
  intros Hs Hc. destruct c as [op|keys data]; cbn [run_call].
  2: { intros [= <-]. cbn [fst snd lag]. destruct (restore_registry keys data vm) as [He|He].
    - by apply (shared_map L vm).
    - split; [apply (sh_ok _ _ _ Hs)|rewrite He; intros i v; by rewrite lookup_empty..]. }
  destruct Hc as [Hu He]. destruct op; cbn [run_op op_u64 is_epoch] in *.
  - by apply add_shared.
  - unfold UpdateStake. cbn [lag]. destruct (vm_validators vm !! id) as [v|] eqn:Hv.
    2: { intros [= <-]. cbn [fst snd]. case_match; [done|]. destruct Hs as [H1 H2 H3 H4].
      split; [done..|]. intros i x Hx Hi. apply (H4 i x Hx). intros Hl. apply Hi.
      apply elem_of_difference. split; [done|]. rewrite elem_of_singleton. intros ->. congruence. }
    destruct (stake =? 0); [by intros [= <-]|]. cbn zeta.
    change (vm_with_validators (<[id := ?w]> _) vm) with (put_validator id w vm).
    intros Hr. eapply (put_forward_shared L id v (vi_with_Stake stake v)); [done..|exact Hr].
  - by apply (status_shared L (OpActivate id)).
  - by apply (status_shared L (OpDeactivate id)).
  - unfold SlashValidator. cbn [lag]. destruct (vm_validators vm !! id) as [v|] eqn:Hv.
    2: { intros [= <-]. cbn [fst snd]. destruct Hs as [H1 H2 H3 H4].
      split; [done..|]. intros i x Hx Hi. apply (H4 i x Hx). intros Hl. apply Hi.
      apply elem_of_difference. split; [done|]. rewrite elem_of_singleton. intros ->. congruence. }
    cbn zeta. intros Hr. eapply (put_forward_shared L id v); [done|done| |exact Hr]. apply u64_range.
  - by apply (status_shared L (OpJail id)).
  - intros [= <-]. cbn [fst snd lag]. unfold UnjailValidator.
    destruct (vm_validators vm !! id) as [v|] eqn:Hv; [|done]. case_match; [done|].
    by apply (shared_put L id v).
  - intros [= <-]. unfold RewardBlockProduction.
    destruct (vm_validators vm !! id) as [v|] eqn:Hv; [|done]. cbn [fst snd lag].
    apply reward_shared. by apply (shared_put L id v).
  - intros [= <-]. unfold RewardEventFinalization. cbn [lag].
    destruct (vm_validators vm !! id) as [v|] eqn:Hv; [|done]. by apply (shared_put L id v).
  - done.
Qed.

Lemma calls_shared cs : ∀ L vm h s, shared L vm h → Forall call_ok cs →
  run_calls cs vm h = Some s → shared (lagging cs vm h L) s.1 s.2.
Proof.
  induction cs as [|c cs IH]; intros L vm h s Hs Hc; cbn [run_calls lagging]; [by intros [= <-]|].
  apply Forall_cons in Hc as [Hc1 Hc]. destruct (run_call c vm h) as [[vm1 h1]|] eqn:Hr; [|done].
  cbn [mbind option_bind]. apply IH; [|done]. by apply (call_shared c L vm h (vm1, h1)).
Qed.

(** Without restores nobody lags. *)
Lemma lagging_none cs : (∀ m, iter_order m (ord m)) → ∀ vm h, good true vm h → Forall call_ok cs →
  Forall (λ c, is_restore c = false) cs → lagging cs vm h ∅ = ∅.
Proof.
  intros Hord. induction cs as [|c cs IH]; intros vm h Hg Hc Hn; [done|].
  apply Forall_cons in Hc as [Hc1 Hc]. apply Forall_cons in Hn as [Hn1 Hn].
  destruct c as [op|]; [|done]. destruct Hc1 as [Hu He]. cbn [lagging run_call].
  destruct (run_op_good pow wild_uint ord Hord true op vm h Hg Hu (λ _, He)) as ([vm1 h1] & Hr & Hg1).
  rewrite Hr. assert (lag (Call op) vm h ∅ = ∅) as ->; [|by apply IH].
  destruct op; cbn [lag]; try done; [|case_match; set_solver|set_solver].
  case_decide as Hk; [|done]. destruct Hg as [(_ & _ & _ & Hl) _].
  apply Hl in Hk as [v Hv]. by rewrite Hv.
Qed.
End restores.

(** ** Performances *)

Section performance.
Variable pow : f64 → f64 → f64.
Variable wild_uint : f64 → Z.
Variable ord : orders.
Hypothesis pow_nan : ∀ h, f_is_nan h = false → f_is_nan (pow (f_lit 99 2) h) = false.

(** The bounds of a new manager, and performances within them. *)
Definition perf_all (vm : ValidatorManager) : Prop :=
  (∀ i v, vm_validators vm !! i = Some v → perf_in_range (vi_Performance v)) ∧
  performanceDecayRate vm = f_lit 99 2 ∧ minPerformance vm = f_lit 1 1 ∧
  maxPerformance vm = f_one.

Lemma clamp_in_range vm p : perf_all vm → f_is_nan p = false →
  perf_in_range (clamp_performance vm p).
Proof.
  intros (_ & _ & Hlo & Hhi) Hp. unfold clamp_performance. rewrite Hlo, Hhi.
  by apply f_clamp_range.
Qed.

Lemma decayed_nan vm now v : perf_all vm → perf_in_range (vi_Performance v) →
  f_is_nan (f_mul (vi_Performance v)
    (pow (performanceDecayRate vm) (dur_hours (time_sub now (vi_LastRewardTime v))))) = false ∨
  f_gt (dur_hours (time_sub now (vi_LastRewardTime v))) f_zero = false.
Proof.
  intros (_ & Hr & _) Hp. destruct (f_gt (dur_hours _) f_zero) eqn:Hgt; [left|by right].
  apply f_mul_nan_l; [by apply perf_finite|]. rewrite Hr. apply pow_nan. by destruct (dur_hours _).
Qed.

Lemma updated_in_range vm now v : perf_all vm → perf_in_range (vi_Performance v) →
  perf_in_range (vi_Performance (updateValidatorPerformance pow now vm v)).
Proof.
  intros Hvm Hp. apply clamp_in_range; [done|]. apply f_mul_nan; [|done].
  destruct (decayed_nan vm now v Hvm Hp) as [Hn|Hn]; [|by rewrite Hn; apply Hp].
  case_match; [done|apply Hp].
Qed.

Lemma decay_in_range vm now v : perf_all vm → perf_in_range (vi_Performance v) →
  perf_in_range (vi_Performance (decay_one pow now vm v)).
Proof.
  intros Hvm Hp. unfold decay_one.
  destruct (decayed_nan vm now v Hvm Hp) as [Hn|Hn]; [|by rewrite Hn].
  case_match; [by apply clamp_in_range|done].
Qed.

Lemma perf_put id w vm : perf_all vm → perf_in_range (vi_Performance w) →
  perf_all (put_validator id w vm).
Proof.
  intros [Hv Hc] Hw. split; [|done]. intros i x. cbn. rewrite lookup_insert_Some.
  intros [[_ <-]|[_ Hx]]; [done|by eapply Hv].
Qed.

Lemma perf_totals t a vm : perf_all vm → perf_all (vm_with_totals t a vm).
Proof. done. Qed.

Lemma perf_active order n vm vm' : updateActiveValidators order n vm = Some vm' →
  perf_all vm → perf_all vm'.
Proof. unfold updateActiveValidators. intros H ?. by repeat case_match; simplify_eq/=. Qed.

Lemma perf_refresh vm h s : state_part (refresh ord vm h) = Some s → perf_all vm → perf_all s.1.
Proof.
  unfold refresh, state_part. destruct (updateActiveValidators _ _ vm) as [vm'|] eqn:Hu; [|done].
  intros [= <-] Hp. by eapply perf_active.
Qed.

Lemma perf_rewards R l : ∀ vm, perf_all vm → perf_all (foldl (reward_step wild_uint R) vm l).
Proof.
  induction l as [|id l IH]; intros vm Hp; [done|]. cbn [foldl]. apply IH. unfold reward_step.
  destruct (vm_validators vm !! id) as [v|] eqn:Hv; [|done].
  apply perf_totals, perf_put; [done|]. cbn. by eapply (proj1 Hp).
Qed.

Lemma run_op_perf op vm h s : run_op pow wild_uint ord op vm h = Some s →
  perf_all vm → perf_all s.1.
Proof.
  intros Hr Hp. assert (∀ id v, vm_validators vm !! id = Some v → perf_in_range (vi_Performance v))
    as Hv by apply Hp.
  destruct op; cbn [run_op] in Hr;
    unfold AddValidator, UpdateStake, ActivateValidator, DeactivateValidator, SlashValidator,
      JailValidator, UnjailValidator, RewardBlockProduction, RewardEventFinalization, push_stake
      in Hr; try destruct (vm_validators vm !! id) as [v|] eqn:Hid;
    try (injection Hr as <-; exact Hp).
  - destruct (stake =? 0); [by injection Hr as <-|].
    destruct (DPoS.AddValidator _ _ _ _ _); [|done]. cbn in Hr.
    eapply perf_refresh; [exact Hr|]. apply perf_totals, perf_put; [done|]. by vm_compute.
  - destruct (stake =? 0); [by injection Hr as <-|].
    destruct (DPoS.UpdateStake _ _ _ _); [|done]. cbn in Hr.
    eapply perf_refresh; [exact Hr|]. apply perf_totals, perf_put; [done|]. by apply (Hv id v).
  - repeat (case_match; [by injection Hr as <-|]).
    eapply perf_refresh; [exact Hr|]. apply perf_put; [done|]. by apply (Hv id v).
  - case_match; [by injection Hr as <-|].
    eapply perf_refresh; [exact Hr|]. apply perf_put; [done|]. by apply (Hv id v).
  - destruct (DPoS.UpdateStake _ _ _ _); [|done]. cbn in Hr.
    eapply perf_refresh; [exact Hr|]. apply perf_totals, perf_put; [done|]. by apply (Hv id v).
  - case_match; [by injection Hr as <-|].
    eapply perf_refresh; [exact Hr|]. apply perf_put; [done|]. by apply (Hv id v).
  - injection Hr as <-. case_match; [done|]. cbn [fst]. apply perf_put; [done|]. by apply (Hv id v).
  - injection Hr as <-. apply perf_put; [done|]. apply updated_in_range; [done|]. by apply (Hv id v).
  - injection Hr as <-. apply perf_put; [done|]. apply updated_in_range; [done|]. by apply (Hv id v).
  - unfold ProcessEpoch in Hr. destruct (_ =? 0); [done|].
    destruct (negb _); [by injection Hr as <-|].
    set (vm1 := distributeEpochRewards _ _ _ _) in Hr.
    assert (perf_all vm1) as H1.
    { unfold vm1, distributeEpochRewards. case_match; [done|by apply perf_rewards]. }
    destruct (updateActiveValidators _ _ _) as [vm2|] eqn:Hu; [|done]. injection Hr as <-.
    enough (perf_all vm2) by done. eapply perf_active; [exact Hu|].
    split; [|apply H1]. intros i v. cbn. rewrite lookup_fmap.
    destruct (vm_validators vm1 !! i) as [w|] eqn:Hw; [|done]. intros [= <-].
    apply decay_in_range; [done|]. by eapply (proj1 H1).
Qed.

Lemma run_ops_perf ops : ∀ vm h s, run_ops pow wild_uint ord ops vm h = Some s →
  perf_all vm → perf_all s.1.
Proof.
  induction ops as [|op ops IH]; intros vm h s Hr Hp; [by injection Hr as <-|].
  cbn [run_ops] in Hr. destruct (run_op _ _ _ op vm h) as [[vm1 h1]|] eqn:Ho; [|done].
  eapply IH; [exact Hr|]. by apply (run_op_perf op vm h (vm1, h1)).
Qed.
End performance.

(** ** The selection *)

Lemma score_above_sorted m l : (∀ i, i ∈ l → f_is_nan (vi_score_of m i) = false) →
  StronglySorted (λ a b, score_above m b a = false) (sortValidatorsByScore m l).
Proof.
  intros Hl. apply (exchange_sort_sorted _ (λ i, f_is_nan (vi_score_of m i) = false)).
  - intros a b _ _. unfold score_above, f_gt. apply f_lt_asym.
  - intros a b c Ha Hb Hc. unfold score_above, f_gt. by apply f_nlt_trans.
  - by apply Forall_forall.
Qed.

Lemma sorted_take_drop {A} (R : A → A → Prop) n l a b : StronglySorted R l →
  a ∈ take n l → b ∈ drop n l → R a b.
Proof.
  revert n. induction l as [|x l IH]; intros n Hs Ha Hb; [destruct n; by apply elem_of_nil in Ha|].
  destruct n as [|n]; [by apply elem_of_nil in Ha|]. inversion Hs as [|? ? Hs' Hx]; subst.
  cbn in Ha, Hb. apply elem_of_cons in Ha as [->|Ha].
  - rewrite Forall_forall in Hx. apply Hx. rewrite <- (take_drop n l). apply elem_of_app. by right.
  - by eapply IH.
Qed.

(** A new manager over a DPoS without validators. *)
Lemma new_manager_good b h : hybrid_ok h → epochDuration (hy_dpos h) ≠ 0 →
  validators (hy_dpos h) = ∅ → good b NewValidatorManager h.
Proof.
  intros Hh He Hd. split; [split_and!; [|done|done|]|by intros _ id v; cbn; rewrite lookup_empty].
  - split; [split|..]; cbn; try done; [by constructor|]. by intros i ?%elem_of_nil.
  - intros id. unfold dpos_stake. rewrite Hd. cbn. rewrite !lookup_empty. cbn.
    split; [done|]. by intros [? ?].
Qed.

(** * The properties *)

(** any sequence of calls of the manager, with any clock, returns and
    leaves the manager consistent: identifiers, total stake, and an active
    list without duplicates, of active validators, with its total; DPoS stays
    consistent and knows exactly the manager's validators. *)
Theorem manager_runs pow wild_uint ord ops h : (∀ m, iter_order m (ord m)) →
  hybrid_ok h → epochDuration (hy_dpos h) ≠ 0 → validators (hy_dpos h) = ∅ →
  Forall op_u64 ops →
  ∃ vm h', run_ops pow wild_uint ord ops NewValidatorManager h = Some (vm, h') ∧
    vm_wf vm ∧ hybrid_ok h' ∧ linked vm h'.
Proof.
  intros Hord Hh He Hd Hu.
  destruct (run_ops_good pow wild_uint ord Hord false ops NewValidatorManager h)
    as ([vm h'] & Hr & (Hw & ? & _ & ?) & _); [by apply new_manager_good|done|done|].
  by exists vm, h'.
Qed.

(** C19: as long as no epoch reward is paid, the stake of every validator of
    the manager is the one the event DAG has, and, without RestoreState, the
    one DPoS has, whatever else the manager does.  RestoreState empties the
    registry but not DPoS: a validator added again keeps its old stake in
    DPoS until the stake is next updated or slashed. *)
Theorem registries_agree pow wild_uint ord unmarshal cs h vm h' : (∀ m, iter_order m (ord m)) →
  hybrid_ok h → epochDuration (hy_dpos h) ≠ 0 → validators (hy_dpos h) = ∅ → Forall call_ok cs →
  run_calls pow wild_uint ord unmarshal cs NewValidatorManager h = Some (vm, h') →
  let L := lagging pow wild_uint ord unmarshal cs NewValidatorManager h ∅ in
  (∀ id v, vm_validators vm !! id = Some v →
     node_stake h' id = Some (vi_Stake v) ∧ is_Some (dpos_stake h' id) ∧
     (id ∉ L → dpos_stake h' id = Some (vi_Stake v))) ∧
  (Forall (λ c, is_restore c = false) cs → L = ∅).
Proof.
  intros Hord Hh He Hd Hc Hr L.
  assert (good true NewValidatorManager h) as Hg by by apply new_manager_good.
  split; [|by apply lagging_none].
  assert (shared ∅ NewValidatorManager h) as H0
    by (split; [done|intros i v; cbn; by rewrite lookup_empty..]).
  destruct (calls_shared pow wild_uint ord unmarshal cs ∅ _ _ _ H0 Hc Hr) as [_ H2 H3 H4].
  intros id v Hv. split_and!; [by apply H2|by eapply H3|by apply H4].
Qed.

(** the rebuilt active list: as many of the validators of active
    status as the set size admits, in descending score, and nobody left out
    scores higher than anybody chosen, whatever the order of the map. *)
Theorem active_list_topk order n vm : vm_base vm → perf_all vm →
  iter_order (vm_validators vm) order → 0 ≤ n →
  let act := List.filter (is_status ValidatorStatusActive (vm_validators vm)) order in
  ∃ vm', updateActiveValidators order n vm = Some vm' ∧ vm_wf vm' ∧
    vm_validators vm' = vm_validators vm ∧
    Z.of_nat (length (vm_active vm')) = Z.min (Z.of_nat (length act)) n ∧
    StronglySorted (λ i j, score_above (vm_validators vm) j i = false) (vm_active vm') ∧
    (∀ i j, i ∈ vm_active vm' → is_status ValidatorStatusActive (vm_validators vm) j = true →
       j ∉ vm_active vm' → score_above (vm_validators vm) j i = false).
Proof.
  intros Hb [Hp _] Ho Hn act.
  destruct (vm_rebuild order n vm Hb Ho Hn) as (vm' & Hu & Hw & -> & Hlen).
  eexists. split; [exact Hu|]. split; [done|]. split; [done|]. cbn [vm_active vm_with_active] in *.
  unfold vm_selection in Hw, Hu, Hlen |- *. change (List.filter _ order) with act. set (s := sortValidatorsByScore (vm_validators vm) act).
  assert (s ≡ₚ act) as Hperm by apply exchange_sort_perm.
  assert (StronglySorted (λ i j, score_above (vm_validators vm) j i = false) s) as Hs.
  { apply score_above_sorted. intros i [Hi _]%elem_of_listfilter. apply Ho in Hi as [v Hv].
    unfold vi_score_of. rewrite Hv. apply f_mul_nan; [apply f_of_Z_nan|].
    by apply perf_finite, (Hp i). }
  split_and!.
  - rewrite length_take, (Permutation_length Hperm). lia.
  - clear -Hs. revert n. induction Hs as [|x l Hl IH Hx]; intros n; [by destruct (Z.to_nat n); constructor|].
    destruct (Z.to_nat n) as [|k] eqn:Hk; cbn; [constructor|]. constructor.
    + specialize (IH (Z.of_nat k)). by rewrite Nat2Z.id in IH.
    + apply Forall_forall. rewrite Forall_forall in Hx. intros y Hy. apply Hx.
      rewrite <- (take_drop k l). apply elem_of_app. by left.
  - intros i j Hi Hj Hnj. apply (sorted_take_drop _ _ _ _ _ Hs Hi).
    assert (j ∈ s) as Hjs.
    { rewrite Hperm. apply elem_of_listfilter. split; [|done]. apply Ho. unfold is_status in Hj.
      destruct (vm_validators vm !! j); [by eexists|done]. }
    rewrite <- (take_drop (Z.to_nat n) s) in Hjs. by apply elem_of_app in Hjs as [?|?].
Qed.

(** performances stay between 0.1 and 1 over any sequence of calls,
    provided the power function returns numbers. *)
Theorem performance_in_range pow wild_uint ord ops h vm h' :
  (∀ x, f_is_nan x = false → f_is_nan (pow (f_lit 99 2) x) = false) →
  run_ops pow wild_uint ord ops NewValidatorManager h = Some (vm, h') →
  ∀ i v, vm_validators vm !! i = Some v →
    f_is_nan (vi_Performance v) = false ∧ f_lt (vi_Performance v) (f_lit 1 1) = false ∧
    f_lt f_one (vi_Performance v) = false.
Proof.
  intros Hpow Hr. apply (run_ops_perf pow wild_uint ord Hpow ops _ h (vm, h') Hr).
  split; [|done]. intros i v. cbn. by rewrite lookup_empty.
Qed.

(** restoring decoded data that names any validator fails, and the
    registry is empty afterwards. *)
Theorem RestoreState_loses_validators unmarshal keys data vm s :
  unmarshal data = Some s → iter_order (ms_Validators s) keys →
  ms_Validators s ≠ ∅ ∨ ms_ActiveValidators s ≠ [] →
  (RestoreState unmarshal keys data vm).2 = Err ErrStateInconsistency ∧
  vm_validators (RestoreState unmarshal keys data vm).1 = ∅.
Proof.
  intros Hs [_ Ho] Hne. unfold RestoreState. rewrite Hs.
  assert (∀ ks m, (restore_validators ks (ms_Validators s) m).1 = m) as Hm.
  { induction ks as [|k ks IH]; intros m; [done|]. cbn [restore_validators].
    destruct (ms_Validators s !! k); [done|apply IH]. }
  assert (∀ ks k vs m, k ∈ ks → ms_Validators s !! k = Some vs →
    (restore_validators ks (ms_Validators s) m).2 = Err ErrStateInconsistency) as Herr.
  { induction ks as [|k' ks IH]; intros k vs m Hk Hv; [by apply elem_of_nil in Hk|].
    cbn [restore_validators]. destruct (ms_Validators s !! k') eqn:Hk'; [done|].
    apply elem_of_cons in Hk as [->|Hk]; [congruence|by eapply IH]. }
  destruct (restore_validators keys (ms_Validators s) ∅) as [m r] eqn:Hr.
  assert (m = ∅) as -> by (rewrite <- (Hm keys ∅), Hr; done).
  assert (r = Ok () ∨ r = Err ErrStateInconsistency) as Hre.
  { assert (∀ ks m, (restore_validators ks (ms_Validators s) m).2 = Ok () ∨
      (restore_validators ks (ms_Validators s) m).2 = Err ErrStateInconsistency) as Hany.
    { induction ks as [|k ks IH]; intros m; [by left|]. cbn [restore_validators].
      destruct (ms_Validators s !! k); [by right|apply IH]. }
    specialize (Hany keys ∅). by rewrite Hr in Hany. }
  destruct r as [[]|e].
  - destruct Hne as [Hne|Hne].
    + exfalso. apply map_choose in Hne as (k & vs & Hk).
      assert (k ∈ keys) as Hin by (apply Ho; by eexists).
      specialize (Herr keys k vs ∅ Hin Hk). by rewrite Hr in Herr.
    + destruct (ms_ActiveValidators s); [done|]. done.
  - destruct Hre as [Hre|Hre]; [done|]. by injection Hre as ->.
Qed.

(** ** Concrete runs *)

Definition hybrid_e : Hybrid :=
  mkHybrid (NewDPoS 2 10) (NewLachesis 100) 0 (λ m, (map_to_list m).*1) (λ _, 0).
Definition any_order : orders := λ m, (map_to_list m).*1.
Definition pow1 (x _ : f64) : f64 := x.
Definition wild1 (_ : f64) : Z := 0.

Lemma any_order_ok m : iter_order m (any_order m).
Proof. apply iter_order_default. Qed.
Lemma hybrid_e_ok : hybrid_ok hybrid_e.
Proof. split; [by apply wf_NewDPoS|intros m; apply iter_order_default]. Qed.

Definition two_added : list vm_op :=
  [OpAdd 0 0 0 val_a 50; OpAdd 0 0 0 val_b 40; OpActivate val_a; OpActivate val_b].
Definition calls : list vm_op :=
  two_added ++ [OpUpdateStake val_b 60; OpSlash val_a 20; OpJail val_b; OpUnjail val_b;
                OpRewardBlock 5 5 val_b; OpActivate val_b].

Definition after (ops : list vm_op) : ValidatorManager * Hybrid :=
  default (NewValidatorManager, hybrid_e)
    (run_ops pow1 wild1 any_order ops NewValidatorManager hybrid_e).
Definition stake_status (id : bytes32) (ops : list vm_op) : option (Z * ValidatorStatus) :=
  (λ v, (vi_Stake v, vi_Status v)) <$> vm_validators (after ops).1 !! id.

Lemma calls_u64 : Forall op_u64 calls.
Proof. repeat constructor; by vm_compute. Qed.
Lemma calls_run : run_ops pow1 wild1 any_order calls NewValidatorManager hybrid_e
  = Some ((after calls).1, (after calls).2).
Proof.
  unfold after. destruct (run_ops_good pow1 wild1 any_order any_order_ok false calls
    NewValidatorManager hybrid_e) as ([vm h] & -> & _); [|apply calls_u64|by intros ?|done].
  apply new_manager_good; [apply hybrid_e_ok|done|done].
Qed.

Lemma manager_runs_witness :
  stake_status val_a calls = Some (30, ValidatorStatusSlashed) ∧
  ∃ vm h', run_ops pow1 wild1 any_order calls NewValidatorManager hybrid_e = Some (vm, h') ∧
    vm_wf vm ∧ hybrid_ok h' ∧ linked vm h'.
Proof.
  split; [by vm_compute|].
  apply (manager_runs pow1 wild1 any_order calls hybrid_e any_order_ok hybrid_e_ok);
    [done|done|apply calls_u64].
Defined.

(** The calls, then a restore and two validators added again, one of them
    updated. *)
Definition saved : manager_state := manager_state_of (after calls).1.
Definition with_restore : list vm_call :=
  (Call <$> calls) ++ [CallRestore (map_to_list (ms_Validators saved)).*1 [];
    Call (OpAdd 0 0 0 val_a 70); Call (OpAdd 0 0 0 val_b 75); Call (OpUpdateStake val_b 80)].
Definition restored : ValidatorManager * Hybrid :=
  default (NewValidatorManager, hybrid_e)
    (run_calls pow1 wild1 any_order (λ _, Some saved) with_restore NewValidatorManager hybrid_e).

Lemma restored_run : run_calls pow1 wild1 any_order (λ _, Some saved) with_restore
  NewValidatorManager hybrid_e = Some (restored.1, restored.2).
Proof.
  unfold restored. destruct (run_calls _ _ _ _ _ _ _) as [[vm h]|] eqn:Hr; [done|].
  assert (match run_calls pow1 wild1 any_order (λ _, Some saved) with_restore NewValidatorManager
    hybrid_e with Some _ => true | None => false end = true) as Hc by by vm_compute.
  by rewrite Hr in Hc.
Qed.

Lemma registries_agree_witness :
  let L := lagging pow1 wild1 any_order (λ _, Some saved) with_restore NewValidatorManager hybrid_e ∅ in
  bool_decide (L = {[val_a]}) = true ∧
  (∀ id v, vm_validators restored.1 !! id = Some v →
     node_stake restored.2 id = Some (vi_Stake v) ∧ is_Some (dpos_stake restored.2 id) ∧
     (id ∉ L → dpos_stake restored.2 id = Some (vi_Stake v))) ∧
  (Forall (λ c, is_restore c = false) with_restore → L = ∅).
Proof.
  intros L. split; [by vm_compute|].
  apply (registries_agree pow1 wild1 any_order (λ _, Some saved) with_restore hybrid_e restored.1
    restored.2 any_order_ok hybrid_e_ok); [done|done| |apply restored_run].
  repeat constructor; by vm_compute.
Defined.

(** After a restore a validator added again has its new stake in the manager
    and in the DAG, and the old one in DPoS. *)
Example restore_splits_registries :
  (vi_Stake <$> vm_validators restored.1 !! val_a, node_stake restored.2 val_a,
   dpos_stake restored.2 val_a) = (Some 70, Some 70, Some 30).
Proof. by vm_compute. Qed.

Definition three_infos : ValidatorManager :=
  vm_with_totals 90 0 (vm_with_validators
    (<[val_a := mkInfo val_a 20 ValidatorStatusActive f_one 0 0 0 0 0]>
      (<[val_b := mkInfo val_b 40 ValidatorStatusActive f_one 0 0 0 0 0]>
        (<[val_c := mkInfo val_c 30 ValidatorStatusActive f_one 0 0 0 0 0]> ∅)))
    NewValidatorManager).

Lemma three_infos_entries i v : vm_validators three_infos !! i = Some v →
  vi_ID v = i ∧ is_u64 (vi_Stake v) ∧ perf_in_range (vi_Performance v).
Proof.
  cbn. rewrite !lookup_insert_Some, lookup_empty.
  intros [[<- <-]|[_ [[<- <-]|[_ [[<- <-]|[_ ?]]]]]]; [..|done]; by repeat split.
Qed.

Lemma active_list_topk_witness :
  let act := List.filter (is_status ValidatorStatusActive (vm_validators three_infos))
               [val_a; val_b; val_c] in
  ∃ vm', updateActiveValidators [val_a; val_b; val_c] 2 three_infos = Some vm' ∧ vm_wf vm' ∧
    vm_validators vm' = vm_validators three_infos ∧
    Z.of_nat (length (vm_active vm')) = Z.min (Z.of_nat (length act)) 2 ∧
    StronglySorted (λ i j, score_above (vm_validators three_infos) j i = false) (vm_active vm') ∧
    (∀ i j, i ∈ vm_active vm' →
       is_status ValidatorStatusActive (vm_validators three_infos) j = true →
       j ∉ vm_active vm' → score_above (vm_validators three_infos) j i = false).
Proof.
  apply (active_list_topk [val_a; val_b; val_c] 2 three_infos); [| |solve_order|lia].
  - split; [|by vm_compute]. intros i v Hv. by destruct (three_infos_entries i v Hv) as (? & ? & _).
  - split; [|done]. intros i v Hv. by destruct (three_infos_entries i v Hv) as (_ & _ & ?).
Defined.

Lemma performance_in_range_witness :
  ∀ i v, vm_validators (after calls).1 !! i = Some v →
    f_is_nan (vi_Performance v) = false ∧ f_lt (vi_Performance v) (f_lit 1 1) = false ∧
    f_lt f_one (vi_Performance v) = false.
Proof.
  apply (performance_in_range pow1 wild1 any_order calls hybrid_e (after calls).1 (after calls).2);
    [by intros x _|apply calls_run].
Defined.

Lemma RestoreState_loses_validators_witness :
  (RestoreState (λ _, Some saved) (map_to_list (ms_Validators saved)).*1 [] (after calls).1).2
    = Err ErrStateInconsistency ∧
  vm_validators (RestoreState (λ _, Some saved) (map_to_list (ms_Validators saved)).*1 []
    (after calls).1).1 = ∅.
Proof.
  apply (RestoreState_loses_validators (λ _, Some saved) (map_to_list (ms_Validators saved)).*1 []
    (after calls).1 saved); [done|apply iter_order_default|].
  right. intros Hnil. by vm_compute in Hnil.
Defined.

(** ** What the manager does not promise *)

(** A slashed validator is refused activation, but not deactivation, after
    which it can be activated. *)
Example slashed_comes_back :
  stake_status val_a (two_added ++ [OpSlash val_a 20; OpActivate val_a])
    = Some (30, ValidatorStatusSlashed) ∧
  stake_status val_a (two_added ++ [OpSlash val_a 20; OpDeactivate val_a; OpActivate val_a])
    = Some (30, ValidatorStatusActive).
Proof. by vm_compute. Qed.

(** Epoch rewards stay in the manager: DPoS and the DAG keep the old stake.
    The single validator that produced five blocks is paid three times the
    total reward of the epoch. *)
Definition rewarded : list vm_op :=
  [OpAdd 0 0 0 val_a 50; OpActivate val_a] ++ replicate 5 (OpRewardBlock 0 0 val_a)
    ++ [OpEpoch 0 0].
Example epoch_splits_registries :
  stake_status val_a rewarded = Some (50 + 3 * 1000000, ValidatorStatusActive) ∧
  calculateEpochReward pow1 wild1 0 = 1000000 ∧
  dpos_stake (after rewarded).2 val_a = Some 50 ∧ node_stake (after rewarded).2 val_a = Some 50.
Proof. by vm_compute. Qed.

(** Active by status, but outside the active list. *)
Example active_outside_the_list :
  let vm := default three_infos
    (updateActiveValidators [val_a; val_b; val_c] 2 three_infos) in
  IsActiveValidator val_a vm = true ∧ bool_decide (val_a ∈ vm_active vm) = false.
Proof. by vm_compute. Qed.
