(* ===== verification/Errors.v ===== *)
(** * Structured errors: src/consensus/errors.go

    Codes, categories, the structured error with its builder methods, its
    text, and the queries on a Go [error], which is either a structured one
    or any other.  [Duration.String] of the standard library is modelled
    because the text uses it. *)
From Stdlib Require Import ZArith Lia.
From Stdlib Require Import Strings.Byte Strings.String.
From stdpp Require Import numbers prelude gmap strings pretty.
From S2P Require Import Prelude GoFloat Bytes.
Open Scope Z_scope.

Inductive ErrorCategory :=
| ErrorCategoryTemporary
| ErrorCategoryPermanent
| ErrorCategoryByzantine
| ErrorCategoryNetwork
| ErrorCategoryState
| ErrorCategoryConfiguration
| ErrorCategoryOther (n : Z).

#[export] Instance category_eq_dec : EqDecision ErrorCategory.
Proof. solve_decision. Defined.

Definition category_String (c : ErrorCategory) : string :=
  match c with
  | ErrorCategoryTemporary => "Temporary"
  | ErrorCategoryPermanent => "Permanent"
  | ErrorCategoryByzantine => "Byzantine"
  | ErrorCategoryNetwork => "Network"
  | ErrorCategoryState => "State"
  | ErrorCategoryConfiguration => "Configuration"
  | ErrorCategoryOther _ => "Unknown"
  end.

Inductive ConsensusErrorCode :=
| ErrUnknown | ErrTimeout | ErrCanceled
| ErrInvalidValidator | ErrValidatorNotFound | ErrInsufficientStake | ErrValidatorSetInconsistency
| ErrEventCreationFailed | ErrEventValidationFailed | ErrEventFinalizationFailed
| ErrEventDuplicate | ErrEventTimeout | ErrEventRejected
| ErrBlockCreationFailed | ErrBlockValidationFailed | ErrBlockFinalizationFailed
| ErrInvalidBlockNumber | ErrInvalidBlockProducer
| ErrPoHVerificationFailed | ErrPoHDriftExceeded | ErrPoHSynchronizationFailed
| ErrStateCorruption | ErrStateInconsistency | ErrStateSynchronizationFailed
| ErrCheckpointCreationFailed | ErrCheckpointRestorationFailed | ErrCheckpointNotFound
| ErrInvalidCheckpoint
| ErrNetworkPartition | ErrNetworkOverload | ErrMessagePropagationFailed
| ErrInvalidConfiguration | ErrIncompatibleConfiguration
| ErrCodeOther (n : positive) (* a number outside the declared ones *).

(** The declared codes in the order of their [iota]. *)
Definition declared_codes : list ConsensusErrorCode :=
  [ErrUnknown; ErrTimeout; ErrCanceled; ErrInvalidValidator; ErrValidatorNotFound;
   ErrInsufficientStake; ErrValidatorSetInconsistency; ErrEventCreationFailed;
   ErrEventValidationFailed; ErrEventFinalizationFailed; ErrEventDuplicate; ErrEventTimeout;
   ErrEventRejected; ErrBlockCreationFailed; ErrBlockValidationFailed; ErrBlockFinalizationFailed;
   ErrInvalidBlockNumber; ErrInvalidBlockProducer; ErrPoHVerificationFailed; ErrPoHDriftExceeded;
   ErrPoHSynchronizationFailed; ErrStateCorruption; ErrStateInconsistency;
   ErrStateSynchronizationFailed; ErrCheckpointCreationFailed; ErrCheckpointRestorationFailed;
   ErrCheckpointNotFound; ErrInvalidCheckpoint; ErrNetworkPartition; ErrNetworkOverload;
   ErrMessagePropagationFailed; ErrInvalidConfiguration; ErrIncompatibleConfiguration].

(** The numbers of the codes, which make them keys of maps. *)
Definition code_key (c : ConsensusErrorCode) : nat + positive :=
  match c with
  | ErrUnknown => inl 0%nat | ErrTimeout => inl 1%nat | ErrCanceled => inl 2%nat
  | ErrInvalidValidator => inl 3%nat | ErrValidatorNotFound => inl 4%nat
  | ErrInsufficientStake => inl 5%nat | ErrValidatorSetInconsistency => inl 6%nat
  | ErrEventCreationFailed => inl 7%nat | ErrEventValidationFailed => inl 8%nat
  | ErrEventFinalizationFailed => inl 9%nat | ErrEventDuplicate => inl 10%nat
  | ErrEventTimeout => inl 11%nat | ErrEventRejected => inl 12%nat
  | ErrBlockCreationFailed => inl 13%nat | ErrBlockValidationFailed => inl 14%nat
  | ErrBlockFinalizationFailed => inl 15%nat | ErrInvalidBlockNumber => inl 16%nat
  | ErrInvalidBlockProducer => inl 17%nat | ErrPoHVerificationFailed => inl 18%nat
  | ErrPoHDriftExceeded => inl 19%nat | ErrPoHSynchronizationFailed => inl 20%nat
  | ErrStateCorruption => inl 21%nat | ErrStateInconsistency => inl 22%nat
  | ErrStateSynchronizationFailed => inl 23%nat | ErrCheckpointCreationFailed => inl 24%nat
  | ErrCheckpointRestorationFailed => inl 25%nat | ErrCheckpointNotFound => inl 26%nat
  | ErrInvalidCheckpoint => inl 27%nat | ErrNetworkPartition => inl 28%nat
  | ErrNetworkOverload => inl 29%nat | ErrMessagePropagationFailed => inl 30%nat
  | ErrInvalidConfiguration => inl 31%nat | ErrIncompatibleConfiguration => inl 32%nat
  | ErrCodeOther n => inr n
  end.
Definition key_code (k : nat + positive) : option ConsensusErrorCode :=
  match k with
  | inr n => Some (ErrCodeOther n)
  | inl i => declared_codes !! i
  end.
Lemma key_code_key c : key_code (code_key c) = Some c.
Proof. by destruct c. Qed.

#[export] Instance code_key_inj : Inj (=) (=) code_key.
Proof. intros c c' Heq. apply (f_equal key_code) in Heq. rewrite !key_code_key in Heq. congruence. Qed.
#[export] Instance code_eq_dec : EqDecision ConsensusErrorCode.
Proof.
  intros c c'. refine (cast_if (decide (code_key c = code_key c'))); [by apply (inj code_key)|congruence].
Defined.
#[export] Instance code_countable : Countable ConsensusErrorCode :=
  inj_countable code_key key_code key_code_key.

Definition code_String (c : ConsensusErrorCode) : string :=
  match c with
  | ErrUnknown => "UnknownError"
  | ErrTimeout => "Timeout"
  | ErrCanceled => "Canceled"
  | ErrInvalidValidator => "InvalidValidator"
  | ErrValidatorNotFound => "ValidatorNotFound"
  | ErrInsufficientStake => "InsufficientStake"
  | ErrValidatorSetInconsistency => "ValidatorSetInconsistency"
  | ErrEventCreationFailed => "EventCreationFailed"
  | ErrEventValidationFailed => "EventValidationFailed"
  | ErrEventFinalizationFailed => "EventFinalizationFailed"
  | ErrEventDuplicate => "EventDuplicate"
  | ErrEventTimeout => "EventTimeout"
  | ErrEventRejected => "EventRejected"
  | ErrBlockCreationFailed => "BlockCreationFailed"
  | ErrBlockValidationFailed => "BlockValidationFailed"
  | ErrBlockFinalizationFailed => "BlockFinalizationFailed"
  | ErrInvalidBlockNumber => "InvalidBlockNumber"
  | ErrInvalidBlockProducer => "InvalidBlockProducer"
  | ErrPoHVerificationFailed => "PoHVerificationFailed"
  | ErrPoHDriftExceeded => "PoHDriftExceeded"
  | ErrPoHSynchronizationFailed => "PoHSynchronizationFailed"
  | ErrStateCorruption => "StateCorruption"
  | ErrStateInconsistency => "StateInconsistency"
  | ErrStateSynchronizationFailed => "StateSynchronizationFailed"
  | ErrCheckpointCreationFailed => "CheckpointCreationFailed"
  | ErrCheckpointRestorationFailed => "CheckpointRestorationFailed"
  | ErrCheckpointNotFound => "CheckpointNotFound"
  | ErrInvalidCheckpoint => "InvalidCheckpoint"
  | ErrNetworkPartition => "NetworkPartition"
  | ErrNetworkOverload => "NetworkOverload"
  | ErrMessagePropagationFailed => "MessagePropagationFailed"
  | ErrInvalidConfiguration => "InvalidConfiguration"
  | ErrIncompatibleConfiguration => "IncompatibleConfiguration"
  | ErrCodeOther n => ("UnknownErrorCode(" +:+ pretty (Npos n) +:+ ")")%string
  end.

(** A value of the context map. *)
Inductive context_value :=
| CtxInt (n : Z)
| CtxString (s : string)
| CtxOther.

#[local] Set Warnings "-register-all".
(** Go errors: a structured one, or any other, known by its text. *)
Inductive go_error :=
| PlainError (text : string)
| Structured (code : ConsensusErrorCode) (category : ErrorCategory) (message : string)
    (cause : option go_error) (blockNumber : Z) (eventID validatorID : bytes32) (timestamp : Z)
    (retryable : bool) (retryAfter : Z) (recoveryAction : string)
    (context : gmap string context_value).

(** ** Construction *)

Definition NewConsensusError (now : Z) (code : ConsensusErrorCode) (category : ErrorCategory)
    (message : string) : go_error :=
  Structured code category message None 0 zero32 zero32 now false 0 "" ∅.
Definition WrapError (now : Z) (err : go_error) (code : ConsensusErrorCode)
    (category : ErrorCategory) (message : string) : go_error :=
  Structured code category message (Some err) 0 zero32 zero32 now false 0 "" ∅.

(** The builder methods; they exist on structured errors only. *)
Definition WithContext (key : string) (value : context_value) (e : go_error) : go_error :=
  match e with
  | Structured co ca m cs b ev v t r a act ctx =>
      Structured co ca m cs b ev v t r a act (<[key := value]> ctx)
  | _ => e
  end.
Definition WithBlockNumber (n : Z) (e : go_error) : go_error :=
  match e with
  | Structured co ca m cs _ ev v t r a act ctx => Structured co ca m cs n ev v t r a act ctx
  | _ => e
  end.
Definition WithEventID (id : bytes32) (e : go_error) : go_error :=
  match e with
  | Structured co ca m cs b _ v t r a act ctx => Structured co ca m cs b id v t r a act ctx
  | _ => e
  end.
Definition WithValidatorID (id : bytes32) (e : go_error) : go_error :=
  match e with
  | Structured co ca m cs b ev _ t r a act ctx => Structured co ca m cs b ev id t r a act ctx
  | _ => e
  end.
Definition WithRetryInfo (retryable : bool) (after : Z) (e : go_error) : go_error :=
  match e with
  | Structured co ca m cs b ev v t _ _ act ctx =>
      Structured co ca m cs b ev v t retryable after act ctx
  | _ => e
  end.
Definition WithRecoveryAction (action : string) (e : go_error) : go_error :=
  match e with
  | Structured co ca m cs b ev v t r a _ ctx => Structured co ca m cs b ev v t r a action ctx
  | _ => e
  end.

(** ** Text *)

(** [fmtFrac] of package time: the last [prec] digits of [v] as a fraction
    without trailing zeros, and the rest. *)
Fixpoint fmt_frac (prec : nat) (v : Z) (printed : bool) (acc : string) : string * Z :=
  match prec with
  | O => ((if printed then "." +:+ acc else acc)%string, v)
  | S prec =>
      let digit := v mod 10 in
      let printed := printed || negb (digit =? 0) in
      fmt_frac prec (v / 10) printed (if printed then (pretty digit +:+ acc)%string else acc)
  end.

(** [Duration.String]. *)
Definition duration_String (d : Z) : string :=
  let u := Z.abs d in
  let body :=
    if u =? 0 then "0s"%string
    else if u <? 1000 then (pretty u +:+ "ns")%string
    else if u <? 1000000 then
      let '(f, q) := fmt_frac 3 u false "" in (pretty q +:+ f +:+ "µs")%string
    else if u <? 1000000000 then
      let '(f, q) := fmt_frac 6 u false "" in (pretty q +:+ f +:+ "ms")%string
    else
      let '(f, q) := fmt_frac 9 u false "" in
      let sec := (pretty (q mod 60) +:+ f +:+ "s")%string in
      let q := q / 60 in
      if q =? 0 then sec
      else
        let min := (pretty (q mod 60) +:+ "m" +:+ sec)%string in
        let q := q / 60 in
        if q =? 0 then min else (pretty q +:+ "h" +:+ min)%string in
  if d <? 0 then ("-" +:+ body)%string else body.

(** [Error]. *)
Fixpoint error_text (e : go_error) : string :=
  match e with
  | PlainError text => text
  | Structured code category message cause blockNumber _ _ _ retryable retryAfter _ _ =>
      let s := ("[" +:+ category_String category +:+ ":" +:+ code_String code +:+ "] "
                +:+ message)%string in
      let s := match cause with
               | Some c => (s +:+ " (caused by: " +:+ error_text c +:+ ")")%string
               | None => s
               end in
      let s := if 0 <? blockNumber then (s +:+ " [block=" +:+ pretty blockNumber +:+ "]")%string
               else s in
      if retryable then
        if 0 <? retryAfter
        then (s +:+ " (retryable after " +:+ duration_String retryAfter +:+ ")")%string
        else (s +:+ " (retryable)")%string
      else s
  end.

Definition Unwrap (e : go_error) : option go_error :=
  match e with Structured _ _ _ cause _ _ _ _ _ _ _ _ => cause | _ => None end.

(** ** Queries *)

Definition IsTemporary (e : go_error) : bool :=
  match e with
  | Structured _ ca _ _ _ _ _ _ r _ _ _ => bool_decide (ca = ErrorCategoryTemporary) || r
  | _ => false
  end.
Definition IsPermanent (e : go_error) : bool :=
  match e with
  | Structured _ ca _ _ _ _ _ _ r _ _ _ => bool_decide (ca = ErrorCategoryPermanent) && negb r
  | _ => false
  end.
Definition has_category (c : ErrorCategory) (e : go_error) : bool :=
  match e with
  | Structured _ ca _ _ _ _ _ _ _ _ _ _ => bool_decide (ca = c)
  | _ => false
  end.
Definition IsByzantine := has_category ErrorCategoryByzantine.
Definition IsNetworkError := has_category ErrorCategoryNetwork.
Definition IsStateError := has_category ErrorCategoryState.
Definition IsConfigurationError := has_category ErrorCategoryConfiguration.

Definition GetErrorCode (e : go_error) : ConsensusErrorCode :=
  match e with Structured c _ _ _ _ _ _ _ _ _ _ _ => c | _ => ErrUnknown end.
Definition GetErrorCategory (e : go_error) : ErrorCategory :=
  match e with Structured _ c _ _ _ _ _ _ _ _ _ _ => c | _ => ErrorCategoryTemporary end.
Definition GetRecoveryAction (e : go_error) : string :=
  match e with Structured _ _ _ _ _ _ _ _ _ _ a _ => a | _ => "" end.
Definition ShouldRetry (e : go_error) : bool * Z :=
  match e with Structured _ _ _ _ _ _ _ _ r a _ _ => (r, a) | _ => (false, 0) end.
Definition GetErrorContext (e : go_error) : gmap string context_value :=
  match e with Structured _ _ _ _ _ _ _ _ _ _ _ c => c | _ => ∅ end.

(** * Facts *)

(** Distinct declared codes have distinct names. *)
Lemma code_String_inj c c' : c ∈ declared_codes → c' ∈ declared_codes →
  code_String c = code_String c' → c = c'.
Proof.
  assert (forallb (λ c, forallb (λ c', implb (bool_decide (code_String c = code_String c'))
    (bool_decide (c = c'))) declared_codes) declared_codes = true) as Hall by by vm_compute.
  rewrite forallb_forall in Hall. intros Hc%list_elem_of_In Hc'%list_elem_of_In Heq.
  specialize (Hall c Hc). rewrite forallb_forall in Hall. specialize (Hall c' Hc').
  rewrite (bool_decide_eq_true_2 (code_String c = _)) in Hall by done.
  by apply bool_decide_eq_true in Hall.
Qed.

(** The text of a structured error starts with a bracket. *)
Definition is_structured (e : go_error) : bool :=
  match e with Structured _ _ _ _ _ _ _ _ _ _ _ _ => true | _ => false end.

Lemma structured_text e : is_structured e = true → ∃ s, error_text e = ("[" +:+ s)%string.
Proof.
  destruct e as [t|co ca m cs b ev v t r a act ctx]; [done|]. intros _. cbn [error_text].
  destruct cs, (0 <? b), r; try destruct (0 <? a); by eexists.
Qed.

Example text_example :
  error_text (WithRetryInfo true 1500000000 (WithBlockNumber 7
    (NewConsensusError 0 ErrEventDuplicate ErrorCategoryTemporary "duplicate event")))
  = "[Temporary:EventDuplicate] duplicate event [block=7] (retryable after 1.5s)"%string.
Proof. by vm_compute. Qed.

Example durations :
  (duration_String 90000000000, duration_String 1500, duration_String 3661000000000,
   duration_String (-250000000))
  = ("1m30s"%string, "1.5µs"%string, "1h1m1s"%string, "-250ms"%string).
Proof. by vm_compute. Qed.
