(* ===== verification/Recovery.v ===== *)
(** * Recovery manager: src/consensus/recovery_manager.go

    Chooses a strategy by error code, counts the attempts per code and opens
    a circuit breaker when they are used up.  What a strategy does to the
    consensus is an interface, the class [Recoverable]; waiting is not
    modelled.  Times are readings of the clock. *)
From Stdlib Require Import ZArith Lia.
From Stdlib Require Import Strings.String.
From stdpp Require Import numbers prelude gmap strings pretty.
From S2P Require Import Prelude GoFloat Maps Errors.
Open Scope Z_scope.

Inductive RecoveryStrategy :=
| RecoveryStrategyNone
| RecoveryStrategyRetry
| RecoveryStrategyCheckpoint
| RecoveryStrategyReset
| RecoveryStrategyRestart
| RecoveryStrategyManual
| RecoveryStrategyOther (n : Z).

#[export] Instance strategy_eq_dec : EqDecision RecoveryStrategy.
Proof. solve_decision. Defined.

Definition strategy_String (s : RecoveryStrategy) : string :=
  match s with
  | RecoveryStrategyNone => "None"
  | RecoveryStrategyRetry => "Retry"
  | RecoveryStrategyCheckpoint => "Checkpoint"
  | RecoveryStrategyReset => "Reset"
  | RecoveryStrategyRestart => "Restart"
  | RecoveryStrategyManual => "Manual"
  | RecoveryStrategyOther n => ("Unknown(" +:+ pretty n +:+ ")")%string
  end.

Record RecoveryManager := mkRM {
  recoveryAttempts : gmap ConsensusErrorCode Z;
  circuitBreakers : gmap ConsensusErrorCode Z;
  maxRecoveryAttempts : Z;
  recoveryBackoff : Z;
  circuitBreakerDuration : Z;
  enableAutomaticRecovery : bool;
  recoveryStrategies : gmap ConsensusErrorCode RecoveryStrategy }.

(** [initDefaultRecoveryStrategies]. *)
Definition default_strategies : list (ConsensusErrorCode * RecoveryStrategy) :=
  [(ErrTimeout, RecoveryStrategyRetry); (ErrCanceled, RecoveryStrategyNone);
   (ErrInvalidValidator, RecoveryStrategyNone); (ErrValidatorNotFound, RecoveryStrategyNone);
   (ErrInsufficientStake, RecoveryStrategyNone);
   (ErrValidatorSetInconsistency, RecoveryStrategyCheckpoint);
   (ErrEventCreationFailed, RecoveryStrategyRetry);
   (ErrEventValidationFailed, RecoveryStrategyNone);
   (ErrEventFinalizationFailed, RecoveryStrategyRetry); (ErrEventDuplicate, RecoveryStrategyNone);
   (ErrEventTimeout, RecoveryStrategyRetry); (ErrEventRejected, RecoveryStrategyNone);
   (ErrBlockCreationFailed, RecoveryStrategyRetry);
   (ErrBlockValidationFailed, RecoveryStrategyNone);
   (ErrBlockFinalizationFailed, RecoveryStrategyRetry);
   (ErrInvalidBlockNumber, RecoveryStrategyCheckpoint);
   (ErrInvalidBlockProducer, RecoveryStrategyNone);
   (ErrPoHVerificationFailed, RecoveryStrategyNone);
   (ErrPoHDriftExceeded, RecoveryStrategyCheckpoint);
   (ErrPoHSynchronizationFailed, RecoveryStrategyCheckpoint);
   (ErrStateCorruption, RecoveryStrategyCheckpoint);
   (ErrStateInconsistency, RecoveryStrategyCheckpoint);
   (ErrStateSynchronizationFailed, RecoveryStrategyCheckpoint);
   (ErrCheckpointCreationFailed, RecoveryStrategyRetry);
   (ErrCheckpointRestorationFailed, RecoveryStrategyManual);
   (ErrCheckpointNotFound, RecoveryStrategyManual); (ErrInvalidCheckpoint, RecoveryStrategyManual);
   (ErrNetworkPartition, RecoveryStrategyRetry); (ErrNetworkOverload, RecoveryStrategyRetry);
   (ErrMessagePropagationFailed, RecoveryStrategyRetry);
   (ErrInvalidConfiguration, RecoveryStrategyManual);
   (ErrIncompatibleConfiguration, RecoveryStrategyManual)].

Definition NewRecoveryManager : RecoveryManager :=
  mkRM ∅ ∅ 3 (5 * second) (5 * minute) true (list_to_map default_strategies).

(** ** Configuration *)

Definition SetRecoveryStrategy (code : ConsensusErrorCode) (s : RecoveryStrategy)
    (rm : RecoveryManager) : RecoveryManager :=
  mkRM (recoveryAttempts rm) (circuitBreakers rm) (maxRecoveryAttempts rm) (recoveryBackoff rm)
    (circuitBreakerDuration rm) (enableAutomaticRecovery rm) (<[code := s]> (recoveryStrategies rm)).
Definition GetRecoveryStrategy (code : ConsensusErrorCode) (rm : RecoveryManager) :
    RecoveryStrategy := default RecoveryStrategyNone (recoveryStrategies rm !! code).
Definition SetMaxRecoveryAttempts (max : Z) (rm : RecoveryManager) : RecoveryManager :=
  if 0 <? max then
    mkRM (recoveryAttempts rm) (circuitBreakers rm) max (recoveryBackoff rm)
      (circuitBreakerDuration rm) (enableAutomaticRecovery rm) (recoveryStrategies rm)
  else rm.
Definition SetRecoveryBackoff (backoff : Z) (rm : RecoveryManager) : RecoveryManager :=
  if 0 <? backoff then
    mkRM (recoveryAttempts rm) (circuitBreakers rm) (maxRecoveryAttempts rm) backoff
      (circuitBreakerDuration rm) (enableAutomaticRecovery rm) (recoveryStrategies rm)
  else rm.
Definition SetCircuitBreakerDuration (duration : Z) (rm : RecoveryManager) : RecoveryManager :=
  if 0 <? duration then
    mkRM (recoveryAttempts rm) (circuitBreakers rm) (maxRecoveryAttempts rm) (recoveryBackoff rm)
      duration (enableAutomaticRecovery rm) (recoveryStrategies rm)
  else rm.
Definition EnableAutomaticRecovery (enable : bool) (rm : RecoveryManager) : RecoveryManager :=
  mkRM (recoveryAttempts rm) (circuitBreakers rm) (maxRecoveryAttempts rm) (recoveryBackoff rm)
    (circuitBreakerDuration rm) enable (recoveryStrategies rm).

Definition with_breakers (b : gmap ConsensusErrorCode Z) (rm : RecoveryManager) :
    RecoveryManager :=
  mkRM (recoveryAttempts rm) b (maxRecoveryAttempts rm) (recoveryBackoff rm)
    (circuitBreakerDuration rm) (enableAutomaticRecovery rm) (recoveryStrategies rm).
Definition with_attempts (a : gmap ConsensusErrorCode Z) (rm : RecoveryManager) :
    RecoveryManager :=
  mkRM a (circuitBreakers rm) (maxRecoveryAttempts rm) (recoveryBackoff rm)
    (circuitBreakerDuration rm) (enableAutomaticRecovery rm) (recoveryStrategies rm).

(** ** Breakers and attempts *)

(** An expired breaker is deleted by the test. *)
Definition isCircuitBreakerActive (now : Z) (code : ConsensusErrorCode) (rm : RecoveryManager) :
    RecoveryManager * bool :=
  match circuitBreakers rm !! code with
  | None => (rm, false)
  | Some openTime =>
      if time_sub now openTime <? circuitBreakerDuration rm then (rm, true)
      else (with_breakers (delete code (circuitBreakers rm)) rm, false)
  end.
Definition activateCircuitBreaker (now : Z) (code : ConsensusErrorCode) (rm : RecoveryManager) :
    RecoveryManager := with_breakers (<[code := now]> (circuitBreakers rm)) rm.
Definition getRecoveryAttempts (code : ConsensusErrorCode) (rm : RecoveryManager) : Z :=
  default 0 (recoveryAttempts rm !! code).
Definition incrementRecoveryAttempts (code : ConsensusErrorCode) (rm : RecoveryManager) :
    RecoveryManager :=
  with_attempts (<[code := i64 (getRecoveryAttempts code rm + 1)]> (recoveryAttempts rm)) rm.
Definition resetRecoveryAttempts (code : ConsensusErrorCode) (rm : RecoveryManager) :
    RecoveryManager := with_attempts (delete code (recoveryAttempts rm)) rm.
Definition ResetCircuitBreakers (rm : RecoveryManager) : RecoveryManager := with_breakers ∅ rm.
Definition ResetRecoveryAttempts (rm : RecoveryManager) : RecoveryManager := with_attempts ∅ rm.

(** ** The consensus as recovery sees it *)

Class Recoverable (C : Type) := {
  rc_last_checkpoint : C → Z;
  rc_recover : C → C * result go_error ();
  rc_stop : C → C * result go_error ();
  rc_start : C → C * result go_error ();
  rc_zero_heights : C → C }.

Section handling.
Context {C : Type} `{Recoverable C}.

(** The retry strategy only sleeps. *)
Definition applyRetryStrategy (c : C) : C * result go_error () := (c, Ok ()).

Definition applyCheckpointStrategy (c : C) : C * result go_error () :=
  if rc_last_checkpoint c =? 0
  then (c, Err (PlainError "no checkpoint available for recovery"))
  else rc_recover c.

Definition plain_wrap (prefix : string) (e : go_error) : go_error :=
  PlainError (prefix +:+ error_text e)%string.

Definition applyResetStrategy (c : C) : C * result go_error () :=
  match rc_stop c with
  | (c, Err e) => (c, Err (plain_wrap "failed to stop consensus: " e))
  | (c, Ok _) =>
      match rc_start (rc_zero_heights c) with
      | (c, Err e) => (c, Err (plain_wrap "failed to restart consensus: " e))
      | (c, Ok _) => (c, Ok ())
      end
  end.

Definition applyRestartStrategy (c : C) : C * result go_error () :=
  match rc_stop c with
  | (c, Err e) => (c, Err (plain_wrap "failed to stop consensus: " e))
  | (c, Ok _) =>
      match rc_start c with
      | (c, Err e) => (c, Err (plain_wrap "failed to restart consensus: " e))
      | (c, Ok _) => (c, Ok ())
      end
  end.

Definition applyManualStrategy (c : C) : C * result go_error () :=
  (c, Err (PlainError "manual intervention required")).

Definition apply_strategy (s : RecoveryStrategy) (c : C) : C * result go_error () :=
  match s with
  | RecoveryStrategyRetry => applyRetryStrategy c
  | RecoveryStrategyCheckpoint => applyCheckpointStrategy c
  | RecoveryStrategyReset => applyResetStrategy c
  | RecoveryStrategyRestart => applyRestartStrategy c
  | RecoveryStrategyManual => applyManualStrategy c
  | _ => (c, Err (PlainError ("unknown recovery strategy: " +:+ strategy_String s)))
  end.

(** The structured form of an error. *)
Definition structured (now : Z) (e : go_error) : go_error :=
  match e with
  | PlainError _ => WrapError now e ErrUnknown ErrorCategoryTemporary "Unknown error"
  | _ => e
  end.

(** [HandleError] on an error that is not nil; the answer [Ok] is nil.
    [now1], [now2]: the clock at the breaker test and at its opening. *)
Definition HandleError (now1 now2 : Z) (err : go_error) (rm : RecoveryManager) (c : C) :
    RecoveryManager * C * result go_error () :=
  let cerr := structured now1 err in
  let code := GetErrorCode cerr in
  let '(rm, active) := isCircuitBreakerActive now1 code rm in
  if active then (rm, c, Err cerr)
  else
    let strategy := GetRecoveryStrategy code rm in
    if bool_decide (strategy = RecoveryStrategyNone) || negb (enableAutomaticRecovery rm)
    then (rm, c, Err cerr)
    else if maxRecoveryAttempts rm <=? getRecoveryAttempts code rm
    then (activateCircuitBreaker now2 code rm, c, Err cerr)
    else
      let rm := incrementRecoveryAttempts code rm in
      match apply_strategy strategy c with
      | (c, Ok _) => (rm, c, Ok ())
      | (c, Err _) => (rm, c, Err cerr)
      end.
End handling.

(** ** Status *)

Definition GetCircuitBreakerStatus (now : Z) (rm : RecoveryManager) :
    gmap ConsensusErrorCode (Z * Z) :=
  omap (λ openTime,
    let remaining := circuitBreakerDuration rm - time_sub now openTime in
    if 0 <? remaining then Some (openTime, remaining) else None) (circuitBreakers rm).
Definition GetRecoveryAttemptStatus (rm : RecoveryManager) : gmap ConsensusErrorCode Z :=
  recoveryAttempts rm.

(** * Facts *)

(** What a call leaves alone. *)
Definition same_config (rm rm' : RecoveryManager) : Prop :=
  maxRecoveryAttempts rm' = maxRecoveryAttempts rm ∧
  recoveryBackoff rm' = recoveryBackoff rm ∧
  circuitBreakerDuration rm' = circuitBreakerDuration rm ∧
  enableAutomaticRecovery rm' = enableAutomaticRecovery rm ∧
  recoveryStrategies rm' = recoveryStrategies rm.

Section facts.
Context {C : Type} `{Recoverable C}.

(** Whether the call runs a strategy. *)
Definition attempts_recovery (now : Z) (err : go_error) (rm : RecoveryManager) : bool :=
  let code := GetErrorCode (structured now err) in
  negb (isCircuitBreakerActive now code rm).2
  && negb (bool_decide (GetRecoveryStrategy code rm = RecoveryStrategyNone))
  && enableAutomaticRecovery rm && (getRecoveryAttempts code rm <? maxRecoveryAttempts rm).

Lemma breaker_frame now code rm :
  same_config rm (isCircuitBreakerActive now code rm).1 ∧
  recoveryAttempts (isCircuitBreakerActive now code rm).1 = recoveryAttempts rm.
Proof. unfold isCircuitBreakerActive. repeat case_match; by split. Qed.

Lemma HandleError_spec now1 now2 err rm (c : C) :
  let cerr := structured now1 err in
  let code := GetErrorCode cerr in
  let '(rm', c', r) := HandleError now1 now2 err rm c in
  same_config rm rm' ∧
  if attempts_recovery now1 err rm then
    (∀ k, getRecoveryAttempts k rm' = if decide (k = code)
       then i64 (getRecoveryAttempts code rm + 1) else getRecoveryAttempts k rm) ∧
    c' = (apply_strategy (GetRecoveryStrategy code rm) c).1 ∧
    r = (if is_Ok (apply_strategy (GetRecoveryStrategy code rm) c).2 then Ok () else Err cerr)
  else c' = c ∧ r = Err cerr ∧ ∀ k, getRecoveryAttempts k rm' = getRecoveryAttempts k rm.
Proof.
  cbn zeta. unfold HandleError, attempts_recovery.
  set (cerr := structured now1 err). set (code := GetErrorCode cerr).
  destruct (breaker_frame now1 code rm) as [Hcfg Ha].
  destruct (isCircuitBreakerActive now1 code rm) as [rm1 act]. cbn [fst snd] in *.
  pose proof Hcfg as (Hm & _ & _ & He & Hs).
  destruct act; cbn [negb andb].
  { split; [done|]. split_and!; [done..|]. intros k. unfold getRecoveryAttempts. by rewrite Ha. }
  unfold GetRecoveryStrategy. rewrite Hs, He, Hm.
  destruct (bool_decide _); cbn [orb negb andb].
  { split; [done|]. split_and!; [done..|]. intros k. unfold getRecoveryAttempts. by rewrite Ha. }
  destruct (enableAutomaticRecovery rm) eqn:Hen; cbn [negb andb].
  2: { split; [done|]. split_and!; [done..|]. intros k. unfold getRecoveryAttempts.
       by rewrite Ha. }
  assert (getRecoveryAttempts code rm1 = getRecoveryAttempts code rm) as Hg
    by (unfold getRecoveryAttempts; by rewrite Ha).
  rewrite Hg. destruct (Z.leb_spec (maxRecoveryAttempts rm) (getRecoveryAttempts code rm)) as [Hle|Hlt].
  - rewrite (proj2 (Z.ltb_ge _ _) Hle). split; [exact Hcfg|]. split_and!; [done..|].
    intros k. unfold getRecoveryAttempts. cbn. by rewrite Ha.
  - rewrite (proj2 (Z.ltb_lt _ _) Hlt).
    set (s := default RecoveryStrategyNone (recoveryStrategies rm !! code)).
    assert (∀ k, getRecoveryAttempts k (incrementRecoveryAttempts code rm1) = if decide (k = code)
       then i64 (getRecoveryAttempts code rm + 1) else getRecoveryAttempts k rm) as Hinc.
    { intros k. unfold getRecoveryAttempts, incrementRecoveryAttempts. cbn. rewrite Hg, Ha.
      case_decide as Hk; [subst; by rewrite lookup_insert_eq|by rewrite lookup_insert_ne]. }
    destruct (apply_strategy s c) as [c' [[]|e]]; (split; [exact Hcfg|]); by split_and!.
Qed.

(** A history of calls: the clock readings and the error of each. *)
Fixpoint handle_all (hs : list (Z * Z * go_error)) (rm : RecoveryManager) (c : C) :
    RecoveryManager * C * list (result go_error ()) :=
  match hs with
  | [] => (rm, c, [])
  | (now1, now2, err) :: hs =>
      let '(rm, c, r) := HandleError now1 now2 err rm c in
      let '(rm, c, rs) := handle_all hs rm c in (rm, c, r :: rs)
  end.

Lemma structured_code now now' e : GetErrorCode (structured now e) = GetErrorCode (structured now' e).
Proof. by destruct e. Qed.

Lemma attempts_recovery_lt now err rm :
  attempts_recovery now err rm = true →
  getRecoveryAttempts (GetErrorCode (structured now err)) rm < maxRecoveryAttempts rm.
Proof. unfold attempts_recovery. rewrite !andb_true_iff. intros [_ H1%Z.ltb_lt]. done. Qed.

Lemma exhausted_call code now1 now2 err rm (c : C) :
  GetErrorCode (structured now1 err) = code →
  maxRecoveryAttempts rm ≤ getRecoveryAttempts code rm →
  let '(rm', c', r) := HandleError now1 now2 err rm c in
  c' = c ∧ r = Err (structured now1 err) ∧ same_config rm rm' ∧
  (∀ k, getRecoveryAttempts k rm' = getRecoveryAttempts k rm).
Proof.
  intros <- Hmax. pose proof (HandleError_spec now1 now2 err rm c) as Hs. cbn zeta in Hs.
  pose proof (attempts_recovery_lt now1 err rm) as Hlt.
  destruct (HandleError now1 now2 err rm c) as [[rm' c'] r].
  destruct (attempts_recovery now1 err rm); [specialize (Hlt eq_refl); lia|].
  destruct Hs as [Hc (-> & -> & Hk)]. done.
Qed.

(** The errors a list of calls answers with when none recovers. *)
Definition unrecovered (hs : list (Z * Z * go_error)) : list (result go_error ()) :=
  (λ h, Err (structured h.1.1 h.2)) <$> hs.

Definition has_code (code : ConsensusErrorCode) (h : Z * Z * go_error) : Prop :=
  GetErrorCode (structured h.1.1 h.2) = code.

Lemma exhausted_all code hs rm (c : C) :
  Forall (has_code code) hs → maxRecoveryAttempts rm ≤ getRecoveryAttempts code rm →
  (handle_all hs rm c).1.2 = c ∧ (handle_all hs rm c).2 = unrecovered hs.
Proof.
  intros Hall. revert rm. induction Hall as [|[[now1 now2] err] hs Hc Hall IH]; intros rm Hmax;
    [done|]. cbn [handle_all].
  pose proof (exhausted_call code now1 now2 err rm c Hc Hmax) as Hx.
  destruct (HandleError now1 now2 err rm c) as [[rm' c'] r].
  destruct Hx as (-> & -> & (Hm & _) & Hk).
  destruct (IH rm' ltac:(rewrite Hm, Hk; done)) as [IHc IHr].
  destruct (handle_all hs rm' c) as [[rm2 c2] rs]. cbn in *. by subst.
Qed.

Lemma attempt_call code now1 now2 err rm (c : C) :
  GetErrorCode (structured now1 err) = code → circuitBreakers rm !! code = None →
  GetRecoveryStrategy code rm ≠ RecoveryStrategyNone → enableAutomaticRecovery rm = true →
  getRecoveryAttempts code rm < maxRecoveryAttempts rm →
  let '(rm', c', r) := HandleError now1 now2 err rm c in
  c' = (apply_strategy (GetRecoveryStrategy code rm) c).1 ∧ same_config rm rm' ∧
  circuitBreakers rm' = circuitBreakers rm ∧
  getRecoveryAttempts code rm' = i64 (getRecoveryAttempts code rm + 1).
Proof.
  intros <- Hb Hs He Hlt. pose proof (HandleError_spec now1 now2 err rm c) as Hsp. cbn zeta in Hsp.
  assert (attempts_recovery now1 err rm = true) as Hat.
  { unfold attempts_recovery, isCircuitBreakerActive. rewrite Hb, He. cbn.
    rewrite bool_decide_eq_false_2 by done. by apply Z.ltb_lt. }
  rewrite Hat in Hsp. unfold HandleError in *. unfold isCircuitBreakerActive in *.
  rewrite Hb in *. rewrite He, bool_decide_eq_false_2 in * by done. cbn [orb negb] in *.
  rewrite (proj2 (Z.leb_gt _ _) Hlt) in *.
  destruct (apply_strategy _ c) as [c' [[]|e]]; destruct Hsp as [Hc (Hk & -> & _)];
    (split_and!; [done|done|done|]); by rewrite Hk, decide_True.
Qed.

(** The whole effect of a history of errors of one code. *)
Lemma handle_all_spec code hs rm (c : C) :
  Forall (has_code code) hs → circuitBreakers rm !! code = None →
  GetRecoveryStrategy code rm ≠ RecoveryStrategyNone → enableAutomaticRecovery rm = true →
  0 ≤ getRecoveryAttempts code rm → maxRecoveryAttempts rm < 2 ^ 63 →
  let left := Z.to_nat (maxRecoveryAttempts rm - getRecoveryAttempts code rm) in
  (handle_all hs rm c).1.2 =
    Nat.iter (length hs `min` left) (λ c, (apply_strategy (GetRecoveryStrategy code rm) c).1) c ∧
  drop left (handle_all hs rm c).2 = unrecovered (drop left hs).
Proof.
  intros Hall. revert rm c. induction Hall as [|[[now1 now2] err] hs Hc Hall IH];
    intros rm c Hb Hs He Hpos Hmax; cbn zeta.
  { split; [done|]. cbn. unfold unrecovered. by rewrite !drop_nil. }
  destruct (decide (maxRecoveryAttempts rm ≤ getRecoveryAttempts code rm)) as [Hle|Hlt].
  { replace (Z.to_nat _) with 0%nat by lia. rewrite Nat.min_0_r, !drop_0.
    apply (exhausted_all code); [by constructor|done]. }
  pose proof (attempt_call code now1 now2 err rm c Hc Hb Hs He ltac:(lia)) as Hat.
  cbn [handle_all]. destruct (HandleError now1 now2 err rm c) as [[rm' c'] r].
  destruct Hat as (-> & (Hm & _ & _ & He' & Hst) & Hb' & Hk).
  rewrite i64_small in Hk by (unfold is_i64; lia).
  assert (GetRecoveryStrategy code rm' = GetRecoveryStrategy code rm) as Hsame
    by (unfold GetRecoveryStrategy; by rewrite Hst).
  destruct (IH rm' (apply_strategy (GetRecoveryStrategy code rm) c).1) as [IHc IHr];
    [congruence|congruence|congruence|lia|lia|].
  rewrite Hm, Hk, Hsame in IHc. rewrite Hm, Hk in IHr.
  replace (Z.to_nat (maxRecoveryAttempts rm - getRecoveryAttempts code rm)) with
    (S (Z.to_nat (maxRecoveryAttempts rm - (getRecoveryAttempts code rm + 1)))) by lia.
  destruct (handle_all hs rm' _) as [[rm2 c2] rs]. cbn [length fst snd] in *.
  rewrite <- Nat.succ_min_distr, Nat.iter_succ_r. by rewrite IHc.
Qed.
End facts.

(** * Properties *)

(** [HandleError] answers nil exactly when its strategy ran and succeeded.  It runs the
    strategy of the error's code, once, only when the code's breaker is closed, automatic
    recovery is on, the code has a strategy and attempts are left, and then counts an attempt for
    that code alone; in every other case the consensus and the counts are unchanged and the error,
    wrapped when it is not structured, is returned.  The configuration never changes. *)
Theorem HandleError_correct {C : Type} `{Recoverable C} now1 now2 err rm (c : C) :
  let cerr := structured now1 err in
  let code := GetErrorCode cerr in
  let '(rm', c', r) := HandleError now1 now2 err rm c in
  same_config rm rm' ∧
  (if attempts_recovery now1 err rm then
     (∀ k, getRecoveryAttempts k rm' = if decide (k = code)
        then i64 (getRecoveryAttempts code rm + 1) else getRecoveryAttempts k rm) ∧
     c' = (apply_strategy (GetRecoveryStrategy code rm) c).1 ∧
     r = (if is_Ok (apply_strategy (GetRecoveryStrategy code rm) c).2 then Ok () else Err cerr)
   else c' = c ∧ r = Err cerr ∧ ∀ k, getRecoveryAttempts k rm' = getRecoveryAttempts k rm).
Proof. exact (HandleError_spec now1 now2 err rm c). Qed.

(** the recovery budget of a code is spent once and for all, by successes as well: over any
    history of errors of one code, at any times, the strategy is applied at most as often as
    attempts are left, and from then on the consensus is never touched again and every error is
    returned.  No operation of the manager's handling puts the count back. *)
Theorem recovery_runs_out {C : Type} `{Recoverable C} code hs rm (c : C) :
  Forall (has_code code) hs → circuitBreakers rm !! code = None →
  GetRecoveryStrategy code rm ≠ RecoveryStrategyNone → enableAutomaticRecovery rm = true →
  0 ≤ getRecoveryAttempts code rm → maxRecoveryAttempts rm < 2 ^ 63 →
  let left := Z.to_nat (maxRecoveryAttempts rm - getRecoveryAttempts code rm) in
  let '(rm', c', rs) := handle_all hs rm c in
  c' = Nat.iter (length hs `min` left)
         (λ c, (apply_strategy (GetRecoveryStrategy code rm) c).1) c ∧
  drop left rs = unrecovered (drop left hs).
Proof.
  intros Hall Hb Hs He Hpos Hmax left.
  pose proof (handle_all_spec code hs rm c Hall Hb Hs He Hpos Hmax) as Hx. cbn zeta in Hx.
  by destruct (handle_all hs rm c) as [[rm' c'] rs].
Qed.

(** * Examples *)

(** A consensus that counts its recoveries and always succeeds. *)
#[export] Instance counter_recoverable : Recoverable Z := {
  rc_last_checkpoint := λ _, 7;
  rc_recover := λ n, (n + 1, Ok ());
  rc_stop := λ n, (n, Ok ());
  rc_start := λ n, (n, Ok ());
  rc_zero_heights := λ n, n }.

Definition drift_error : go_error := NewConsensusError 0 ErrPoHDriftExceeded ErrorCategoryState "drift".

Example fourth_drift_is_fatal :
  (handle_all (replicate 5 (0, 0, drift_error)) NewRecoveryManager 0).1.2 = 3 ∧
  is_Ok <$> (handle_all (replicate 5 (0, 0, drift_error)) NewRecoveryManager 0).2 =
    [true; true; true; false; false].
Proof. by vm_compute. Qed.

Lemma recovery_runs_out_witness :
  let '(rm', c', rs) := handle_all (replicate 5 (0, 0, drift_error)) NewRecoveryManager 0 in
  c' = 3 ∧ drop 3 rs = unrecovered (replicate 2 (0, 0, drift_error)).
Proof.
  refine (recovery_runs_out ErrPoHDriftExceeded (replicate 5 (0, 0, drift_error))
    NewRecoveryManager 0 _ _ _ _ _ _).
  - by repeat constructor.
  - by vm_compute.
  - by vm_compute.
  - by vm_compute.
  - by vm_compute.
  - by vm_compute.
Defined.
