(* ===== verification/Batch.v ===== *)
(** * Batch processor: src/consensus/batch_processor.go

    Events wait in three places: a list, a queue per creator and a priority
    queue on the height.  They are pointers into the store of the event DAG.
    Goroutines are modelled by the call they make, the clock and the
    iteration over the creator queues are arguments, and the results sent to
    the channel are the answer of the call. *)
From Stdlib Require Import ZArith Lia.
From Stdlib Require Import Strings.Byte Strings.String.
From stdpp Require Import numbers prelude gmap strings sorting pretty.
From S2P Require Import Prelude GoFloat Bytes Maps Common GoHeap Dag.
Open Scope Z_scope.

Definition MinBatchSize : Z := 10.
Definition DefaultBatchSize : Z := 100.
Definition MaxBatchSize : Z := 1000.

Record BatchProcessorConfig := mkBConfig {
  BatchSize : Z;
  MaxBatchDelay : Z;
  MaxBatchBytes : Z;
  GroupByCreator : bool;
  ParallelProcessing : bool;
  MaxParallelBatches : Z;
  AdaptiveBatchSize : bool }.

Definition with_BatchSize (n : Z) (c : BatchProcessorConfig) : BatchProcessorConfig :=
  mkBConfig n (MaxBatchDelay c) (MaxBatchBytes c) (GroupByCreator c) (ParallelProcessing c)
    (MaxParallelBatches c) (AdaptiveBatchSize c).

Definition DefaultBatchProcessorConfig : BatchProcessorConfig :=
  mkBConfig DefaultBatchSize (100 * 1000000) (1024 * 1024) true true 4 true.

Record BatchMetrics := mkBMetrics {
  TotalBatches : Z;
  TotalEventsInBatch : Z;
  AvgBatchSize : f64;
  bm_MaxBatchSize : Z;
  AvgProcessingTime : Z;
  MaxProcessingTime : Z;
  LastBatchTime : Z;
  BatchSizeHistory : list Z }.

Record BatchResult := mkBResult {
  br_Events : list loc;
  br_ProcessedCount : Z;
  br_SuccessCount : Z;
  br_FailureCount : Z;
  br_ProcessingTime : Z;
  br_Errors : list string;
  br_BatchIdentifier : string }.

(** ** The priority queue

    Every item is allocated by one push and only the queue points to it, so
    the queue is a list of items; [Swap] and [Push] maintain [Index]. *)
Record EventWithPriority := mkEWP { ep_Event : loc; ep_Priority : Z; ep_Index : Z }.

Definition set_Index (i : nat) (it : EventWithPriority) : EventWithPriority :=
  mkEWP (ep_Event it) (ep_Priority it) (Z.of_nat i).

Abbreviation EventPriorityQueue := (list EventWithPriority).

Definition epq_Less (i j : nat) (q : EventPriorityQueue) : bool :=
  match q !! i, q !! j with
  | Some a, Some b => ep_Priority a <? ep_Priority b
  | _, _ => false
  end.
Definition epq_Swap (i j : nat) (q : EventPriorityQueue) : EventPriorityQueue :=
  match q !! i, q !! j with
  | Some a, Some b => <[j := set_Index j a]> (<[i := set_Index i b]> q)
  | _, _ => q
  end.
Definition epq_Push (it : EventWithPriority) (q : EventPriorityQueue) : EventPriorityQueue :=
  q ++ [set_Index (length q) it].

#[export] Instance epq_heap : HeapInterface EventPriorityQueue :=
  {| Len := length; Less := epq_Less; Swap := epq_Swap |}.

Definition epq_heap_Push (it : EventWithPriority) (q : EventPriorityQueue) : EventPriorityQueue :=
  push_finish (epq_Push it q).

(** ** State *)

Record BatchProcessor := mkBP {
  bp_config : BatchProcessorConfig;
  bp_pending : list loc;
  bp_byID : gmap bytes32 loc;
  bp_queues : gmap bytes32 (list loc);
  bp_priority : EventPriorityQueue;
  isProcessing : bool;
  bp_metrics : BatchMetrics;
  lastAdapted : Z }.

Definition clamp_config (c : BatchProcessorConfig) : BatchProcessorConfig :=
  if BatchSize c <? MinBatchSize then with_BatchSize MinBatchSize c
  else if MaxBatchSize <? BatchSize c then with_BatchSize MaxBatchSize c
  else c.

(** [zero_time] is Go's zero [time.Time]. *)
Definition NewBatchProcessor (zero_time : Z) (config : option BatchProcessorConfig) :
    BatchProcessor :=
  mkBP (clamp_config (default DefaultBatchProcessorConfig config)) [] ∅ ∅ (init []) false
    (mkBMetrics 0 0 f_zero 0 0 0 zero_time []) zero_time.

Definition with_config (c : BatchProcessorConfig) (b : BatchProcessor) : BatchProcessor :=
  mkBP c (bp_pending b) (bp_byID b) (bp_queues b) (bp_priority b) (isProcessing b)
    (bp_metrics b) (lastAdapted b).
Definition with_queues (p : list loc) (i : gmap bytes32 loc) (q : gmap bytes32 (list loc))
    (b : BatchProcessor) : BatchProcessor :=
  mkBP (bp_config b) p i q (bp_priority b) (isProcessing b) (bp_metrics b) (lastAdapted b).
Definition with_priority (q : EventPriorityQueue) (b : BatchProcessor) : BatchProcessor :=
  mkBP (bp_config b) (bp_pending b) (bp_byID b) (bp_queues b) q (isProcessing b) (bp_metrics b)
    (lastAdapted b).
Definition with_processing (r : bool) (b : BatchProcessor) : BatchProcessor :=
  mkBP (bp_config b) (bp_pending b) (bp_byID b) (bp_queues b) (bp_priority b) r (bp_metrics b)
    (lastAdapted b).
Definition with_metrics (m : BatchMetrics) (t : Z) (b : BatchProcessor) : BatchProcessor :=
  mkBP (bp_config b) (bp_pending b) (bp_byID b) (bp_queues b) (bp_priority b) (isProcessing b) m t.

Inductive BatchError := ErrBatchRunning | ErrBatchNotRunning.

Definition Start (b : BatchProcessor) : BatchProcessor * result BatchError () :=
  if isProcessing b then (b, Err ErrBatchRunning) else (with_processing true b, Ok ()).
Definition Stop (b : BatchProcessor) : BatchProcessor * result BatchError () :=
  if negb (isProcessing b) then (b, Err ErrBatchNotRunning)
  else (with_processing false b, Ok ()).

(** ** Adding events *)

Definition addToCreatorQueue (ev : loc) (e : Event) (b : BatchProcessor) : BatchProcessor :=
  with_queues (bp_pending b) (bp_byID b)
    (<[ev_Creator e := default [] (bp_queues b !! ev_Creator e) ++ [ev]]> (bp_queues b)) b.

Definition addToPriorityQueue (ev : loc) (e : Event) (b : BatchProcessor) : BatchProcessor :=
  with_priority (epq_heap_Push (mkEWP ev (ev_Height e) 0) (bp_priority b)) b.

(** [e] is what the pointer [ev] points to; the flag tells whether
    [triggerProcessing] is started. *)
Definition AddEvent (ev : loc) (e : Event) (b : BatchProcessor) : BatchProcessor * bool :=
  match bp_byID b !! ev_ID e with
  | Some _ => (b, false)
  | None =>
      let b := with_queues (bp_pending b ++ [ev]) (<[ev_ID e := ev]> (bp_byID b)) (bp_queues b) b in
      let b := if GroupByCreator (bp_config b) then addToCreatorQueue ev e b else b in
      let b := addToPriorityQueue ev e b in
      (b, BatchSize (bp_config b) <=? Z.of_nat (length (bp_pending b)))
  end.

(** Whether [triggerProcessing] and the ticker start [processBatch]. *)
Definition triggerProcessing (b : BatchProcessor) : bool :=
  isProcessing b && (BatchSize (bp_config b) <=? Z.of_nat (length (bp_pending b))).
Definition tick_processes (b : BatchProcessor) : bool :=
  0 <? Z.of_nat (length (bp_pending b)).

(** ** Forming batches *)

Section batches.
Variable d : DAG.

Definition height_of (ev : loc) : Z := from_option ev_Height 0 (event_at d ev).
Definition lower (a b : loc) : bool := height_of a <? height_of b.

(** [delete(bp.pendingEventsByID, event.ID)]. *)
Definition removeEvent (ev : loc) (b : BatchProcessor) : BatchProcessor :=
  match event_at d ev with
  | None => b
  | Some e => with_queues (bp_pending b) (delete (ev_ID e) (bp_byID b)) (bp_queues b) b
  end.

Definition batch_size (b : BatchProcessor) : nat := Z.to_nat (BatchSize (bp_config b)).

(** The body of the loop over the creator queues. *)
Definition creator_step (acc : BatchProcessor * list (list loc)) (creator : bytes32) :
    BatchProcessor * list (list loc) :=
  let '(b, batches) := acc in
  match bp_queues b !! creator with
  | None | Some [] => (b, batches)
  | Some events =>
      let events := sort_slice lower events in
      let new := chunks (batch_size b) events in
      let b := foldl (λ b ev, removeEvent ev b) b (concat new) in
      let queues :=
        if (length events <=? batch_size b)%nat then delete creator (bp_queues b)
        else <[creator := drop (batch_size b) events]> (bp_queues b) in
      (with_queues (bp_pending b) (bp_byID b) queues b, batches ++ new)
  end.

Definition createCreatorBasedBatches (order : list bytes32) (b : BatchProcessor) :
    BatchProcessor * list (list loc) := foldl creator_step (b, []) order.

Definition createHeightBasedBatches (b : BatchProcessor) : BatchProcessor * list (list loc) :=
  match bp_pending b with
  | [] => (b, [])
  | _ =>
      let pending := sort_slice lower (bp_pending b) in
      let batches := chunks (batch_size b) pending in
      match batches with
      | [] => (with_queues pending (bp_byID b) (bp_queues b) b, [])
      | _ =>
          let totalProcessed := ((length batches * batch_size b) `min` length pending)%nat in
          let b := with_queues (drop totalProcessed pending) (bp_byID b) (bp_queues b) b in
          (foldl (λ b ev, removeEvent ev b) b (concat batches), batches)
      end
  end.

(** ** Processing *)

(** Every event counts as a success. *)
Definition processSingleBatch (elapsed : Z) (events : list loc) (batchID : string) :
    BatchResult :=
  let n := Z.of_nat (length events) in mkBResult events n n 0 elapsed [] batchID.

(** Both ways of processing send one result per batch. *)
Definition batch_results (elapsed : nat → Z) (batches : list (list loc)) : list BatchResult :=
  imap (λ i events, processSingleBatch (elapsed i) events ("batch-" +:+ pretty i)) batches.

Definition updateMetrics (now : Z) (batchCount : Z) (duration : Z) (b : BatchProcessor) :
    BatchProcessor :=
  let m := bp_metrics b in
  let avg := if AvgProcessingTime m =? 0 then duration
             else Z.quot (i64 (i64 (AvgProcessingTime m * 9) + duration)) 10 in
  let hist := if (10 <=? length (BatchSizeHistory m))%nat then drop 1 (BatchSizeHistory m)
              else BatchSizeHistory m in
  with_metrics
    (mkBMetrics (i64 (TotalBatches m + batchCount)) (TotalEventsInBatch m) (AvgBatchSize m)
       (bm_MaxBatchSize m) avg
       (if MaxProcessingTime m <? duration then duration else MaxProcessingTime m) now
       (hist ++ [BatchSize (bp_config b)])) (lastAdapted b) b.

(** [now], [duration]: the clock at the update of the metrics and the time
    since the start. *)
Definition processBatch (order : list bytes32) (elapsed : nat → Z) (now duration : Z)
    (b : BatchProcessor) : BatchProcessor * list BatchResult :=
  if negb (isProcessing b) then (b, [])
  else
    let '(b, batches) := if GroupByCreator (bp_config b) then createCreatorBasedBatches order b
                         else createHeightBasedBatches b in
    (updateMetrics now (Z.of_nat (length batches)) duration b, batch_results elapsed batches).
End batches.

(** ** Adapting the batch size *)

Definition adaptBatchSize (now : Z) (b : BatchProcessor) : BatchProcessor :=
  let b := with_metrics (bp_metrics b) now b in
  let c := bp_config b in
  let m := bp_metrics b in
  if (length (BatchSizeHistory m) <? 3)%nat then b
  else if i64 (MaxBatchDelay c * 2) <? AvgProcessingTime m then
    let newSize := Z.quot (i64 (BatchSize c * 3)) 4 in
    with_config (with_BatchSize (if newSize <? MinBatchSize then MinBatchSize else newSize) c) b
  else if AvgProcessingTime m <? Z.quot (MaxBatchDelay c) 2 then
    let newSize := Z.quot (i64 (BatchSize c * 5)) 4 in
    with_config (with_BatchSize (if MaxBatchSize <? newSize then MaxBatchSize else newSize) c) b
  else b.

(** The adaptation at a tick. *)
Definition tick_adapts (now1 now2 : Z) (b : BatchProcessor) : BatchProcessor :=
  if AdaptiveBatchSize (bp_config b) && (30 * second <? time_sub now1 (lastAdapted b))
  then adaptBatchSize now2 b else b.

Definition GetMetrics (b : BatchProcessor) : BatchMetrics := bp_metrics b.
Definition GetPendingCount (b : BatchProcessor) : Z := Z.of_nat (length (bp_pending b)).

(** ** Histories *)

Inductive bp_op :=
| OpAdd (ev : loc)
| OpProcess (order : gmap bytes32 (list loc) → list bytes32) (elapsed : nat → Z) (now duration : Z)
| OpAdapt (now1 now2 : Z)
| OpStart
| OpStop.

(** The processor with the events accepted and those put into batches so
    far; a nil event is ignored. *)
Record bp_run := mkRun { run_bp : BatchProcessor; accepted : list loc; emitted : list loc }.

Definition run_op (d : DAG) (r : bp_run) (op : bp_op) : bp_run :=
  let b := run_bp r in
  match op with
  | OpAdd ev =>
      match event_at d ev with
      | None => r
      | Some e =>
          mkRun (AddEvent ev e b).1
            (match bp_byID b !! ev_ID e with None => accepted r ++ [ev] | Some _ => accepted r end)
            (emitted r)
      end
  | OpProcess order elapsed now duration =>
      let '(b, results) := processBatch d (order (bp_queues b)) elapsed now duration b in
      mkRun b (accepted r) (emitted r ++ concat (br_Events <$> results))
  | OpAdapt now1 now2 => mkRun (tick_adapts now1 now2 b) (accepted r) (emitted r)
  | OpStart => mkRun (Start b).1 (accepted r) (emitted r)
  | OpStop => mkRun (Stop b).1 (accepted r) (emitted r)
  end.

Definition run_history (d : DAG) (ops : list bp_op) (b : BatchProcessor) : bp_run :=
  foldl (run_op d) (mkRun b [] []) ops.

(** * Facts *)

Lemma ordered_concat {A} (less : A → A → bool) (ls : list (list A)) :
  ordered less (concat ls) → Forall (ordered less) ls.
Proof.
  induction ls as [|l ls IH]; simpl; [constructor|]. intros Ho.
  assert (ordered less l ∧ ordered less (concat ls)) as [Hl Hls].
  { revert Ho. induction l as [|x l IHl]; simpl; [by split; [constructor|]|].
    intros [Ho Hx]%StronglySorted_inv. apply IHl in Ho as [? ?]. split; [|done].
    constructor; [done|]. by apply Forall_app in Hx as [? _]. }
  constructor; [done|by apply IH].
Qed.

Section batching.
Context (d : DAG).

Definition forget (evs : list loc) (m : gmap bytes32 loc) : gmap bytes32 loc :=
  foldl (λ m ev, match event_at d ev with Some e => delete (ev_ID e) m | None => m end) m evs.

Lemma forget_app l k m : forget (l ++ k) m = forget k (forget l m).
Proof. apply foldl_app. Qed.

Lemma lookup_forget evs m id :
  forget evs m !! id = None ↔ m !! id = None ∨ ∃ ev e, ev ∈ evs ∧ event_at d ev = Some e ∧ ev_ID e = id.
Proof.
  revert m. induction evs as [|ev evs IH]; intros m; simpl.
  { split; [by left|]. intros [?|(ev & e & Hin & _)]; [done|]. by apply elem_of_nil in Hin. }
  rewrite IH. destruct (event_at d ev) as [e|] eqn:He.
  - rewrite lookup_delete_None. split.
    + intros [[Hid|Hm]|(x & ex & Hin & Hx)]; [right; exists ev, e; set_solver|by left|].
      right. exists x, ex. set_solver.
    + intros [Hm|(x & ex & Hin & Hx & Hid)]; [by left; right|].
      apply elem_of_cons in Hin as [->|Hin]; [|right; by exists x, ex].
      left. left. congruence.
  - split; intros [Hm|(x & ex & Hin & Hx & Hid)]; [by left| |by left|].
    + right. exists x, ex. set_solver.
    + apply elem_of_cons in Hin as [->|Hin]; [congruence|]. right. by exists x, ex.
Qed.

Lemma remove_all evs b : foldl (λ b ev, removeEvent d ev b) b evs
  = with_queues (bp_pending b) (forget evs (bp_byID b)) (bp_queues b) b.
Proof.
  revert b. induction evs as [|ev evs IH]; intros b; simpl; [by destruct b|].
  rewrite IH. unfold removeEvent. destruct (event_at d ev); by destruct b.
Qed.

Lemma lower_ordered evs : ordered (lower d) (sort_slice (lower d) evs).
Proof.
  apply (sort_slice_ordered _ (λ _, True)).
  - intros a b _ _. unfold lower. rewrite Z.ltb_lt, Z.ltb_ge. lia.
  - intros a b c _ _ _. unfold lower. rewrite !Z.ltb_ge. lia.
  - by apply Forall_forall.
Qed.

(** What stays in a creator's queue. *)
Definition left_over (n : nat) (q : list loc) : option (list loc) :=
  match q with
  | [] => Some []
  | _ => if (length q <=? n)%nat then None else Some (drop n (sort_slice (lower d) q))
  end.

Definition queue_batches (n : nat) (q : list loc) : list (list loc) :=
  chunks n (sort_slice (lower d) q).

Lemma left_over_cons n q : q ≠ [] →
  left_over n q = if (length q <=? n)%nat then None else Some (drop n (sort_slice (lower d) q)).
Proof. by destruct q. Qed.

(** The effect of the loop over the creators. *)
Lemma creator_fold order b acc : NoDup order → (0 < batch_size b)%nat →
  let new := concat (queue_batches (batch_size b) <$> visit (bp_queues b) order) in
  ∃ queues, foldl (creator_step d) (b, acc) order =
    (with_queues (bp_pending b) (forget (concat new) (bp_byID b)) queues b, acc ++ new) ∧
  ∀ c, queues !! c = if decide (c ∈ order) then bp_queues b !! c ≫= left_over (batch_size b)
                     else bp_queues b !! c.
Proof.
  intros Hnd Hn. revert b acc Hn. induction Hnd as [|c order Hc Hnd IH]; intros b acc Hn; cbn zeta.
  { exists (bp_queues b). cbn. rewrite app_nil_r. split; [by destruct b|done]. }
  cbn [foldl]. rewrite visit_cons.
  assert (∀ m, (∀ k, k ≠ c → m !! k = bp_queues b !! k) →
    visit m order = visit (bp_queues b) order) as Hvis.
  { intros m Hm. apply visit_ext. intros k Hk. apply Hm. by intros ->. }
  destruct (decide (default [] (bp_queues b !! c) = [])) as [He|Hne].
  { assert (creator_step d (b, acc) c = (b, acc)) as ->.
    { cbn. by destruct (bp_queues b !! c) as [[|]|]. }
    destruct (IH b acc Hn) as (queues & Hf & Hqs). exists queues. split.
    - rewrite Hf. by destruct (bp_queues b !! c) as [[|]|].
    - intros k. rewrite Hqs. destruct (decide (k = c)) as [->|Hkc].
      + rewrite decide_False, decide_True by set_solver.
        by destruct (bp_queues b !! c) as [[|]|].
      + by rewrite (decide_ext (k ∈ order) (k ∈ c :: order)) by set_solver. }
  destruct (bp_queues b !! c) as [q|] eqn:Hq; [|done]. cbn [default] in Hne.
  set (q' := match left_over (batch_size b) q with Some r => <[c := r]> (bp_queues b)
             | None => delete c (bp_queues b) end).
  assert (creator_step d (b, acc) c =
    (with_queues (bp_pending b) (forget (concat (queue_batches (batch_size b) q)) (bp_byID b)) q' b,
     acc ++ queue_batches (batch_size b) q)) as ->.
  { unfold creator_step, q'. rewrite Hq, (left_over_cons _ q Hne).
    assert (length (sort_slice (lower d) q) = length q) as Hlen
      by apply Permutation_length, sort_slice_perm.
    destruct q as [|x q0]; [done|]. rewrite remove_all, Hlen.
    change (batch_size (with_queues _ _ _ b)) with (batch_size b).
    by destruct (length (x :: q0) <=? batch_size b)%nat. }
  destruct (IH (with_queues (bp_pending b)
      (forget (concat (queue_batches (batch_size b) q)) (bp_byID b)) q' b)
      (acc ++ queue_batches (batch_size b) q) Hn) as (queues & Hf & Hqs).
  assert (∀ k, k ≠ c → q' !! k = bp_queues b !! k) as Hq'.
  { intros k Hk. unfold q'. by destruct (left_over _ _); simplify_map_eq. }
  exists queues. rewrite Hf. cbn [bp_queues bp_pending bp_byID with_queues].
  rewrite (Hvis q' Hq'). cbn [fmap list_fmap concat]. rewrite concat_app, forget_app, (assoc_L app).
  split; [done|]. intros k. rewrite Hqs. cbn [bp_queues with_queues].
  destruct (decide (k = c)) as [->|Hkc].
  - rewrite decide_False, decide_True by set_solver. rewrite Hq. unfold q'. cbn.
    destruct (left_over _ _); by simplify_map_eq.
  - rewrite Hq' by done. by rewrite (decide_ext (k ∈ order) (k ∈ c :: order)) by set_solver.
Qed.

Lemma height_batches_eq b : (0 < batch_size b)%nat →
  createHeightBasedBatches d b =
    (with_queues [] (forget (sort_slice (lower d) (bp_pending b)) (bp_byID b)) (bp_queues b) b,
     chunks (batch_size b) (sort_slice (lower d) (bp_pending b))).
Proof.
  intros Hn. unfold createHeightBasedBatches.
  destruct (bp_pending b) as [|x p] eqn:Hp; [destruct b; cbn in *; by subst|].
  set (l := sort_slice (lower d) (x :: p)).
  destruct (chunks (batch_size b) l) as [|c cs] eqn:Hc.
  { apply (proj1 (chunks_nil_iff _ _)) in Hc. exfalso.
    pose proof (Permutation_length (sort_slice_perm (lower d) (x :: p))) as Hl.
    fold l in Hl. by rewrite Hc in Hl. }
  pose proof (chunks_cover (batch_size b) Hn l) as Hcov. rewrite Hc in Hcov.
  rewrite Nat.min_r, drop_all by done. rewrite remove_all.
  rewrite <- Hc, concat_chunks by done. done.
Qed.

Lemma creator_batches_eq order b : iter_order (bp_queues b) order → (0 < batch_size b)%nat →
  let new := concat (queue_batches (batch_size b) <$> visit (bp_queues b) order) in
  ∃ queues, createCreatorBasedBatches d order b =
    (with_queues (bp_pending b) (forget (concat new) (bp_byID b)) queues b, new) ∧
  ∀ c, queues !! c = bp_queues b !! c ≫= left_over (batch_size b).
Proof.
  intros Ho Hn. destruct (creator_fold order b [] (proj1 Ho) Hn) as (queues & Hf & Hqs).
  exists queues. split; [done|]. intros c. rewrite Hqs. case_decide as Hc; [done|].
  destruct (bp_queues b !! c) eqn:Hq; [|done]. exfalso. apply Hc. apply Ho. eauto.
Qed.

Lemma concat_queue_batches n qs : (0 < n)%nat →
  concat (concat (queue_batches n <$> qs)) ≡ₚ concat qs.
Proof.
  intros Hn. induction qs as [|q qs IH]; simpl; [done|]. rewrite concat_app, IH.
  unfold queue_batches. rewrite concat_chunks by done. by rewrite sort_slice_perm.
Qed.

Lemma queue_batches_good n q b : (0 < n)%nat → b ∈ queue_batches n q →
  (0 < length b ≤ n)%nat ∧ ordered (lower d) b ∧ ∀ ev, ev ∈ b → ev ∈ q.
Proof.
  intros Hn Hb. pose proof (chunks_sizes n Hn (sort_slice (lower d) q)) as Hs.
  rewrite Forall_forall in Hs. destruct (Hs b Hb) as [Hne Hlen].
  pose proof (lower_ordered q) as Ho. rewrite <- (concat_chunks n Hn (sort_slice _ q)) in Ho.
  apply ordered_concat in Ho. rewrite Forall_forall in Ho. split_and!.
  - destruct b; [done|simpl; lia].
  - done.
  - by apply Ho.
  - intros ev Hev. rewrite <- (sort_slice_perm (lower d) q).
    rewrite <- (concat_chunks n Hn (sort_slice _ q)). apply list_elem_of_In, in_concat.
    exists b. by rewrite <- !list_elem_of_In.
Qed.
End batching.

(** ** The priority queue *)

Definition epq_pair (it : EventWithPriority) : loc * Z := (ep_Event it, ep_Priority it).
Definition epq_arr (q : EventPriorityQueue) : list (loc * Z) := epq_pair <$> q.
(** A max-heap on the negated height: the lowest height is on top. *)
Definition epq_key (p : loc * Z) : Z := - p.2.
Definition epq_wf (q : EventPriorityQueue) : Prop :=
  ∀ i it, q !! i = Some it → ep_Index it = Z.of_nat i.

#[export] Instance epq_laws : HeapLaws epq_key epq_wf epq_arr.
Proof.
  split.
  - intros q. unfold epq_arr. by rewrite length_fmap.
  - intros q i j _ _ _. cbn. unfold epq_Less, less_list, epq_arr. rewrite !list_lookup_fmap.
    destruct (q !! i) as [a|], (q !! j) as [b|]; try done.
    change ((ep_Priority a <? ep_Priority b) = (- ep_Priority b <? - ep_Priority a)).
    apply eq_true_iff_eq. rewrite !Z.ltb_lt. lia.
  - intros q i j Hwf Hi Hj. cbn in *. unfold epq_Swap, swap_list, epq_arr.
    rewrite !list_lookup_fmap.
    destruct (lookup_lt_is_Some_2 q i Hi) as [a Ha].
    destruct (lookup_lt_is_Some_2 q j Hj) as [b Hb]. rewrite Ha, Hb. cbn. split.
    + intros k it. rewrite list_lookup_insert_Some. intros [(-> & <- & _)|[_ Hk]]; [done|].
      apply list_lookup_insert_Some in Hk as [(-> & <- & _)|[_ Hk]]; [done|]. by apply Hwf.
    + rewrite !list_fmap_insert. destruct (decide (i = j)) as [->|Hij].
      * rewrite !list_insert_insert_eq. assert (a = b) as -> by congruence. done.
      * by rewrite list_insert_insert_ne.
Qed.

Definition epq_ok (q : EventPriorityQueue) : Prop := epq_wf q ∧ heap_ok epq_key (epq_arr q).

Lemma epq_push_ok it q : epq_ok q →
  epq_ok (epq_heap_Push it q) ∧ epq_arr (epq_heap_Push it q) ≡ₚ epq_pair it :: epq_arr q.
Proof.
  intros [Hwf Hh]. unfold epq_heap_Push.
  assert (epq_wf (epq_Push it q)) as Hwf'.
  { intros i x. unfold epq_Push. intros [Hx|[Hlen Hx]]%lookup_app_Some; [by apply Hwf|].
    destruct (i - length q)%nat eqn:Hd; simplify_eq/=. lia. }
  assert (epq_arr (epq_Push it q) = epq_arr q ++ [epq_pair it]) as Ha
    by (unfold epq_arr, epq_Push; by rewrite fmap_app).
  destruct (push_finish_sim (epq_Push it q) Hwf') as [P1 P2].
  { cbn. unfold epq_Push. rewrite length_app. simpl. lia. }
  destruct (push_finish_spec epq_key (epq_arr q) (epq_pair it) Hh) as [S1 S2].
  rewrite Ha in P2. unfold epq_ok. rewrite P2. by split.
Qed.

(** ** Histories *)

Section histories.
Context (d : DAG).

Definition queued (b : BatchProcessor) (ev : loc) : Prop :=
  ∃ c q, bp_queues b !! c = Some q ∧ ev ∈ q.

(** Where the accepted events are, in the two modes. *)
Definition accounted (group : bool) (r : bp_run) : Prop :=
  if group then
    bp_pending (run_bp r) = accepted r ∧
    ∀ ev, ev ∈ accepted r → queued (run_bp r) ev ∨ ev ∈ emitted r
  else accepted r ≡ₚ emitted r ++ bp_pending (run_bp r).

Record run_inv (group : bool) (r : bp_run) : Prop := {
  ri_mode : GroupByCreator (bp_config (run_bp r)) = group;
  ri_size : MinBatchSize ≤ BatchSize (bp_config (run_bp r)) ≤ MaxBatchSize;
  ri_events : accounted group r;
  ri_heap : epq_ok (bp_priority (run_bp r));
  ri_priority : (epq_arr (bp_priority (run_bp r))).*1 ≡ₚ accepted r }.

Definition op_ordered (op : bp_op) : Prop :=
  match op with OpProcess order _ _ _ => ∀ m, iter_order m (order m) | _ => True end.

Lemma results_events elapsed batches : br_Events <$> batch_results elapsed batches = batches.
Proof.
  apply list_eq. intros i. unfold batch_results. rewrite list_lookup_fmap, list_lookup_imap.
  by destruct (batches !! i).
Qed.

Lemma adapt_spec now b : MinBatchSize ≤ BatchSize (bp_config b) ≤ MaxBatchSize →
  let b' := adaptBatchSize now b in
  MinBatchSize ≤ BatchSize (bp_config b') ≤ MaxBatchSize ∧
  GroupByCreator (bp_config b') = GroupByCreator (bp_config b) ∧
  bp_pending b' = bp_pending b ∧ bp_queues b' = bp_queues b ∧ bp_priority b' = bp_priority b.
Proof.
  unfold MinBatchSize, MaxBatchSize. intros Hs. cbn zeta. unfold adaptBatchSize. cbn [bp_config].
  case_match; [split; [exact Hs|by split_and!]|]. cbn [bp_config with_metrics bp_metrics].
  assert (∀ k, 0 ≤ k ≤ 5 → i64 (BatchSize (bp_config b) * k) = BatchSize (bp_config b) * k) as Hi.
  { intros k Hk. apply i64_small. unfold is_i64. nia. }
  case_match; [|case_match; [|split; [exact Hs|by split_and!]]]; rewrite !Hi by lia;
    (split; [|by split_and!]); cbn [BatchSize with_BatchSize bp_config with_config];
    unfold MinBatchSize, MaxBatchSize; rewrite Z.quot_div_nonneg by lia.
  - pose proof (Z.div_le_upper_bound (BatchSize (bp_config b) * 3) 4 1000).
    destruct (Z.ltb_spec (BatchSize (bp_config b) * 3 / 4) 10); lia.
  - pose proof (Z.div_le_lower_bound (BatchSize (bp_config b) * 5) 4 10).
    destruct (Z.ltb_spec 1000 (BatchSize (bp_config b) * 5 / 4)); lia.
Qed.

Lemma run_inv_same group r b : run_inv group r → bp_config b = bp_config (run_bp r) →
  bp_pending b = bp_pending (run_bp r) → bp_queues b = bp_queues (run_bp r) →
  bp_priority b = bp_priority (run_bp r) → run_inv group (mkRun b (accepted r) (emitted r)).
Proof.
  intros [Hm Hs He Hh Hp] Hc Hpe Hq Hpr.
  split; cbn [run_bp accepted emitted]; rewrite ?Hc, ?Hpr; try done.
  unfold accounted, queued in *. cbn [run_bp accepted emitted]. by rewrite Hpe, Hq.
Qed.

Lemma run_add group r ev : run_inv group r → run_inv group (run_op d r (OpAdd ev)).
Proof.
  intros [Hm Hs He Hh Hp]. cbn [run_op]. destruct (event_at d ev) as [e|]; [|by split].
  unfold AddEvent. destruct (bp_byID (run_bp r) !! ev_ID e); [by split|].
  destruct (epq_push_ok (mkEWP ev (ev_Height e) 0) (bp_priority (run_bp r)) Hh) as [Hh' Hp'].
  cbn [bp_config with_queues]. rewrite Hm. unfold accounted, queued in *. split.
  - by destruct group.
  - by destruct group.
  - unfold accounted, queued. cbn [run_bp fst accepted emitted].
    destruct group; cbn [addToCreatorQueue addToPriorityQueue with_queues with_priority bp_pending
      bp_queues]; [|by rewrite He, (assoc_L app)].
    destruct He as [Hpe He]. split; [by rewrite Hpe|].
    intros x [Hx|Hx]%elem_of_app.
    + destruct (He x Hx) as [(c & q & Hq & Hin)|?]; [|by right]. left.
      destruct (decide (c = ev_Creator e)) as [->|Hne].
      * exists (ev_Creator e), (q ++ [ev]). rewrite lookup_insert_eq, Hq. set_solver.
      * exists c, q. by rewrite lookup_insert_ne.
    + apply list_elem_of_singleton in Hx as ->. left.
      eexists (ev_Creator e), _. rewrite lookup_insert_eq. split; [done|set_solver].
  - by destruct group.
  - destruct group; cbn [run_bp fst accepted addToCreatorQueue addToPriorityQueue with_queues
      with_priority bp_priority]; rewrite Hp'; cbn; rewrite Hp; by rewrite Permutation_app_comm.
Qed.

Lemma run_process group r order elapsed now duration : (∀ m, iter_order m (order m)) →
  run_inv group r → run_inv group (run_op d r (OpProcess order elapsed now duration)).
Proof.
  intros Ho [Hm Hs He Hh Hp]. cbn [run_op]. unfold processBatch.
  destruct (isProcessing (run_bp r)); cbn [negb].
  2: { cbn. rewrite app_nil_r. by split. }
  assert (0 < batch_size (run_bp r))%nat as Hn
    by (unfold batch_size, MinBatchSize in *; lia).
  rewrite Hm. unfold accounted in He. destruct group.
  - destruct (creator_batches_eq d (order (bp_queues (run_bp r))) (run_bp r) (Ho _) Hn)
      as (queues & -> & Hqs). cbn [fst snd]. rewrite results_events.
    split; cbn; try done. unfold accounted, queued. cbn.
    destruct He as [Hpe He]. split; [done|]. intros x Hx. right.
    apply elem_of_app. destruct (He x Hx) as [(c & q & Hq & Hin)|?]; [right|by left].
    rewrite concat_queue_batches by done. apply list_elem_of_In, in_concat. exists q.
    rewrite <- !list_elem_of_In. split; [|done]. apply list_elem_of_omap.
    exists c. split; [|done]. apply Ho. eauto.
  - rewrite (height_batches_eq d _ Hn). rewrite results_events.
    split; cbn; try done. unfold accounted. cbn.
    rewrite concat_chunks, sort_slice_perm, app_nil_r by done. done.
Qed.

Lemma run_op_inv group r op : op_ordered op → run_inv group r → run_inv group (run_op d r op).
Proof.
  intros Hop Hr. destruct op as [ev|order elapsed now duration|now1 now2| |].
  - by apply run_add.
  - by apply run_process.
  - cbn [run_op]. unfold tick_adapts. case_match; [|by destruct r].
    destruct Hr as [Hm Hs He Hh Hp].
    destruct (adapt_spec now2 (run_bp r) Hs) as (A1 & A2 & A3 & A4 & A5).
    split; cbn [run_bp accepted emitted]; [congruence|done| |by rewrite A5..].
    unfold accounted, queued in *. cbn [run_bp accepted emitted]. by rewrite A3, A4.
  - cbn [run_op]. apply run_inv_same; unfold Start; by destruct (isProcessing (run_bp r)).
  - cbn [run_op]. apply run_inv_same; unfold Stop; by destruct (isProcessing (run_bp r)).
Qed.

Lemma run_history_inv group ops b : Forall op_ordered ops → run_inv group (mkRun b [] []) →
  run_inv group (run_history d ops b).
Proof.
  intros Hops Hb. unfold run_history. revert Hb. generalize (mkRun b [] []).
  induction Hops as [|op ops Hop Hops IH]; intros r Hr; [done|]. apply IH. by apply run_op_inv.
Qed.
End histories.

Lemma new_processor_inv t config :
  let b := NewBatchProcessor t config in
  run_inv (GroupByCreator (bp_config b)) (mkRun b [] []).
Proof.
  cbn zeta. split; cbn [run_bp]; try done.
  - unfold NewBatchProcessor, clamp_config. cbn [bp_config]. unfold MinBatchSize, MaxBatchSize.
    destruct (Z.ltb_spec (BatchSize (default DefaultBatchProcessorConfig config)) 10); [done|].
    destruct (Z.ltb_spec 1000 (BatchSize (default DefaultBatchProcessorConfig config))); [done|lia].
  - unfold accounted. case_match; cbn; [|done]. split; [done|]. intros ev Hev.
    by apply elem_of_nil in Hev.
Qed.

(** * Properties *)

(** no accepted event is lost, over any history of additions, processing rounds, adaptations,
    starts and stops from a new processor.  Without grouping the accepted events are, as a
    multiset, exactly those already put into a batch and those still pending: each is processed
    once.  With grouping each accepted event is in a creator's queue or was in a batch; the pending
    list then still holds every event ever accepted, as the priority queue does in both modes. *)
Theorem no_event_lost d t config ops : Forall op_ordered ops →
  let b := NewBatchProcessor t config in
  let r := run_history d ops b in
  (if GroupByCreator (bp_config b) then
     bp_pending (run_bp r) = accepted r ∧
     ∀ ev, ev ∈ accepted r → queued (run_bp r) ev ∨ ev ∈ emitted r
   else accepted r ≡ₚ emitted r ++ bp_pending (run_bp r)) ∧
  (epq_arr (bp_priority (run_bp r))).*1 ≡ₚ accepted r.
Proof.
  intros Hops b r. pose proof (run_history_inv d _ ops b Hops (new_processor_inv t config)) as Hr.
  split; [exact (ri_events _ _ Hr)|exact (ri_priority _ _ Hr)].
Qed.

(** the batch size stays between 10 and 1000 over any history, and the priority queue stays a
    heap whose first element has the lowest height of all accepted events. *)
Theorem batch_size_bounded d t config ops : Forall op_ordered ops →
  let r := run_history d ops (NewBatchProcessor t config) in
  MinBatchSize ≤ BatchSize (bp_config (run_bp r)) ≤ MaxBatchSize ∧
  ∀ i it top, bp_priority (run_bp r) !! i = Some it → bp_priority (run_bp r) !! 0%nat = Some top →
    ep_Index it = Z.of_nat i ∧ ep_Priority top ≤ ep_Priority it.
Proof.
  intros Hops r.
  pose proof (run_history_inv d _ ops _ Hops (new_processor_inv t config)) as [_ Hs _ [Hwf Hh] _].
  fold r in Hs, Hwf, Hh. split; [done|]. intros i it top Hi H0. split; [by apply Hwf|].
  pose proof (heap_max epq_key (epq_arr (bp_priority (run_bp r))) i Hh) as Hmax.
  unfold kat, epq_arr in Hmax. rewrite !list_lookup_fmap, Hi, H0, length_fmap in Hmax.
  apply lookup_lt_Some in Hi. specialize (Hmax Hi). unfold epq_key in Hmax. simpl in Hmax. lia.
Qed.

(** grouping by creator.  A round emits every queued event exactly once, in batches that hold
    events of one queue, in height order, at most a batch size each; the identifiers of the
    emitted events are released.  A queue no longer than a batch is removed; a longer one keeps
    everything behind its first batch although all of it was emitted, so the next round emits
    those events again. *)
Theorem creator_batches_correct d order b : iter_order (bp_queues b) order →
  (0 < batch_size b)%nat →
  let '(b', batches) := createCreatorBasedBatches d order b in
  concat batches ≡ₚ concat (visit (bp_queues b) order) ∧
  (∀ batch, batch ∈ batches → (0 < length batch ≤ batch_size b)%nat ∧ ordered (lower d) batch ∧
     ∃ c q, bp_queues b !! c = Some q ∧ ∀ ev, ev ∈ batch → ev ∈ q) ∧
  (∀ id, bp_byID b' !! id = None ↔ bp_byID b !! id = None ∨
     ∃ ev e, ev ∈ concat (visit (bp_queues b) order) ∧ event_at d ev = Some e ∧ ev_ID e = id) ∧
  (∀ c, bp_queues b' !! c = bp_queues b !! c ≫= left_over d (batch_size b)).
Proof.
  intros Ho Hn. destruct (creator_batches_eq d order b Ho Hn) as (queues & -> & Hqs).
  pose proof (concat_queue_batches d (batch_size b) (visit (bp_queues b) order) Hn) as Hperm.
  split_and!; [done| | |done].
  - intros batch Hb. apply list_elem_of_In, in_concat in Hb as (bs & Hbs & Hb).
    apply list_elem_of_In, list_elem_of_fmap in Hbs as (q & -> & Hq).
    apply list_elem_of_In in Hb.
    destruct (queue_batches_good d (batch_size b) q batch Hn Hb) as (H1 & H2 & H3).
    split_and!; [lia|lia|done|]. apply list_elem_of_omap in Hq as (c & _ & Hc). by exists c, q.
  - intros id. cbn [bp_byID with_queues]. rewrite lookup_forget.
    by setoid_rewrite Hperm.
Qed.

(** * Examples *)

Definition id_of (c : byte) : bytes32 := copy32 (replicate 32 c).
Definition creator_a : bytes32 := id_of x61.

(** Eleven events of one creator, the heights decreasing. *)
Definition marks : list byte := [x01; x02; x03; x04; x05; x06; x07; x08; x09; x0a; x0b].
Definition eleven : DAG :=
  foldl (λ d c, (add_event (mkEvent (id_of c) creator_a [] [c] 0
      (12 - Z.of_N (Byte.to_N c)) false zero32 0 zero32)
    (mkNode creator_a [] 5 true) d).1) NewDAG marks.

Definition queue_order (m : gmap bytes32 (list loc)) : list bytes32 := (map_to_list m).*1.
Definition round : bp_op := OpProcess queue_order (λ _, 0) 7 7.
Definition adds : list bp_op := OpAdd <$> [1; 2; 3; 4; 5; 6; 7; 8; 9; 10; 11]%positive.

Definition grouped : BatchProcessor :=
  NewBatchProcessor 0 (Some (mkBConfig 10 1000 1000 true false 1 true)).
Definition ungrouped : BatchProcessor :=
  NewBatchProcessor 0 (Some (mkBConfig 10 1000 1000 false false 1 true)).

(** Two rounds: with grouping the event that did not fit in the first batch
    is processed twice, and nothing leaves the pending list. *)
Example batched_twice :
  let r := run_history eleven (OpStart :: adds ++ [round; round]) grouped in
  emitted r = [11; 10; 9; 8; 7; 6; 5; 4; 3; 2; 1; 1]%positive ∧
  GetPendingCount (run_bp r) = 11.
Proof. by vm_compute. Qed.

Example batched_once :
  let r := run_history eleven (OpStart :: adds ++ [round; round]) ungrouped in
  emitted r = [11; 10; 9; 8; 7; 6; 5; 4; 3; 2; 1]%positive ∧ GetPendingCount (run_bp r) = 0.
Proof. by vm_compute. Qed.

Lemma sample_ordered : Forall op_ordered (OpStart :: adds ++ [round; round; OpAdapt 0 0]).
Proof.
  repeat (apply Forall_cons; split; [first [exact I|intros m; apply iter_order_default]|]).
  by apply Forall_nil.
Defined.

Lemma no_event_lost_witness :
  let r := run_history eleven (OpStart :: adds ++ [round; round; OpAdapt 0 0]) ungrouped in
  accepted r ≡ₚ emitted r ++ bp_pending (run_bp r).
Proof.
  exact (proj1 (no_event_lost eleven 0 (Some (mkBConfig 10 1000 1000 false false 1 true)) _
    sample_ordered)).
Defined.

Lemma batch_size_bounded_witness :
  let r := run_history eleven (OpStart :: adds ++ [round; round; OpAdapt 0 0]) grouped in
  MinBatchSize ≤ BatchSize (bp_config (run_bp r)) ≤ MaxBatchSize.
Proof.
  exact (proj1 (batch_size_bounded eleven 0 (Some (mkBConfig 10 1000 1000 true false 1 true)) _
    sample_ordered)).
Defined.

Definition filled : BatchProcessor := run_bp (run_history eleven (OpStart :: adds) grouped).

Lemma creator_batches_correct_witness :
  let '(b', batches) := createCreatorBasedBatches eleven (queue_order (bp_queues filled)) filled in
  concat batches ≡ₚ concat (visit (bp_queues filled) (queue_order (bp_queues filled))) ∧
  bp_queues b' !! creator_a = Some [1%positive].
Proof.
  pose proof (creator_batches_correct eleven (queue_order (bp_queues filled)) filled
    (iter_order_default _) ltac:(apply Nat.ltb_lt; by vm_compute)) as Hc.
  destruct (createCreatorBasedBatches _ _ _) as [b' batches].
  destruct Hc as (H1 & _ & _ & H4). split; [done|]. rewrite H4. by vm_compute.
Defined.
