(* ===== verification/Flow.v ===== *)
(** * Event flow: the state of src/consensus/event_flow.go

    The tracking maps of the event flow manager, its metrics and its
    configuration, with the operations that need nothing else of the
    consensus; those that validate and finalize events are in Node.v.
    Events are pointers into the store of the event DAG. *)
From Stdlib Require Import ZArith Lia SpecFloat.
From Stdlib Require Import Strings.Byte Strings.String.
From stdpp Require Import numbers prelude gmap strings sorting.
From S2P Require Import Prelude GoFloat Bytes Maps Common Voting Finalizer Gossip Lachesis Dag.
Open Scope Z_scope.

Record FlowMetrics := mkFMetrics {
  totalEventsCreated : Z;
  totalEventsFinalized : Z;
  avgFinalizationTime : Z;
  maxFinalizationTime : Z;
  finalizationTimeouts : Z;
  eventDuplicateCount : Z;
  eventValidationErrors : Z;
  eventPropagationErrors : Z;
  eventRetries : Z;
  batchProcessingTime : Z;
  lastBatchSize : Z;
  successRate : f64 }.

Record FlowConfig := mkFConfig {
  finalizationTimeout : Z;
  maxPendingEvents : Z;
  batchSize : Z;
  enableDeduplication : bool;
  enableValidation : bool;
  maxRetries : Z;
  adaptiveBatching : bool }.

Record EventFlowManager := mkFlow {
  fl_pending : gmap bytes32 loc;
  fl_finalized : gmap bytes32 loc;
  fl_byHeight : gmap Z (list loc);
  fl_created : gmap bytes32 Z;
  fl_retry : gmap bytes32 Z;
  fl_metrics : FlowMetrics;
  fl_config : FlowConfig }.

Definition NewEventFlowManager : EventFlowManager :=
  mkFlow ∅ ∅ ∅ ∅ ∅ (mkFMetrics 0 0 0 0 0 0 0 0 0 0 0 f_one)
    (mkFConfig (5 * second) 10000 100 true true 3 true).

Definition with_fmetrics (m : FlowMetrics) (f : EventFlowManager) : EventFlowManager :=
  mkFlow (fl_pending f) (fl_finalized f) (fl_byHeight f) (fl_created f) (fl_retry f) m (fl_config f).
Definition with_fconfig (c : FlowConfig) (f : EventFlowManager) : EventFlowManager :=
  mkFlow (fl_pending f) (fl_finalized f) (fl_byHeight f) (fl_created f) (fl_retry f)
    (fl_metrics f) c.
Definition with_retry (m : gmap bytes32 Z) (f : EventFlowManager) : EventFlowManager :=
  mkFlow (fl_pending f) (fl_finalized f) (fl_byHeight f) (fl_created f) m (fl_metrics f)
    (fl_config f).

(** ** Metrics *)

(** An unknown name changes nothing. *)
Definition incrementMetric (name : string) (f : EventFlowManager) : EventFlowManager :=
  let '(mkFMetrics a b c d e g h i j k l m) := fl_metrics f in
  with_fmetrics
    (if bool_decide (name = "totalEventsCreated"%string)
     then mkFMetrics (uadd a 1) b c d e g h i j k l m
     else if bool_decide (name = "totalEventsFinalized"%string)
     then mkFMetrics a (uadd b 1) c d e g h i j k l m
     else if bool_decide (name = "finalizationTimeouts"%string)
     then mkFMetrics a b c d (uadd e 1) g h i j k l m
     else if bool_decide (name = "eventDuplicateCount"%string)
     then mkFMetrics a b c d e (uadd g 1) h i j k l m
     else if bool_decide (name = "eventValidationErrors"%string)
     then mkFMetrics a b c d e g (uadd h 1) i j k l m
     else if bool_decide (name = "eventPropagationErrors"%string)
     then mkFMetrics a b c d e g h (uadd i 1) j k l m
     else if bool_decide (name = "eventRetries"%string)
     then mkFMetrics a b c d e g h i (uadd j 1) k l m
     else mkFMetrics a b c d e g h i j k l m) f.

(** The exponential moving average of a duration. *)
Definition moving (avg x : Z) : Z :=
  if avg =? 0 then x else Z.quot (i64 (i64 (avg * 9) + x)) 10.

(** ** Tracking *)

(** The four insertions under the lock. *)
Definition track_event (now : Z) (ev : loc) (e : Event) (f : EventFlowManager) :
    EventFlowManager :=
  mkFlow (<[ev_ID e := ev]> (fl_pending f)) (fl_finalized f)
    (<[ev_Height e := default [] (fl_byHeight f !! ev_Height e) ++ [ev]]> (fl_byHeight f))
    (<[ev_ID e := now]> (fl_created f)) (<[ev_ID e := 0]> (fl_retry f)) (fl_metrics f)
    (fl_config f).

(** [efm.eventRetryCount[id] = retries + 1]. *)
Definition count_retry (id : bytes32) (f : EventFlowManager) : EventFlowManager :=
  with_retry (<[id := i64 (default 0 (fl_retry f !! id) + 1)]> (fl_retry f)) f.

(** [handleFinalizedEvent] up to the reward. *)
Definition book_finalized (now : Z) (ev : loc) (e : Event) (f : EventFlowManager) :
    EventFlowManager :=
  let id := ev_ID e in
  let m := fl_metrics f in
  let m := match fl_created f !! id with
           | None => m
           | Some t =>
               let d := time_sub now t in
               mkFMetrics (totalEventsCreated m) (totalEventsFinalized m)
                 (moving (avgFinalizationTime m) d)
                 (if maxFinalizationTime m <? d then d else maxFinalizationTime m)
                 (finalizationTimeouts m) (eventDuplicateCount m) (eventValidationErrors m)
                 (eventPropagationErrors m) (eventRetries m) (batchProcessingTime m)
                 (lastBatchSize m) (successRate m)
           end in
  incrementMetric "totalEventsFinalized"
    (mkFlow (delete id (fl_pending f)) (<[id := ev]> (fl_finalized f)) (fl_byHeight f)
       (delete id (fl_created f)) (delete id (fl_retry f)) m (fl_config f)).

(** ** Batch size *)

Section floats.
Variable wild_int : f64 → Z.

Definition with_batchSize (n : Z) (c : FlowConfig) : FlowConfig :=
  mkFConfig (finalizationTimeout c) (maxPendingEvents c) n (enableDeduplication c)
    (enableValidation c) (maxRetries c) (adaptiveBatching c).

Definition decreased (n : Z) : Z :=
  let n := to_int wild_int (f_mul (f_of_Z n) (f_lit 8 1)) in if n <? 10 then 10 else n.
Definition increased (n : Z) : Z :=
  let n := to_int wild_int (f_mul (f_of_Z n) (f_lit 12 1)) in if 500 <? n then 500 else n.

Definition adjustBatchSize (f : EventFlowManager) : EventFlowManager :=
  let c := fl_config f in
  let avgTime := batchProcessingTime (fl_metrics f) in
  let rate := successRate (fl_metrics f) in
  if (500 * 1000000 <? avgTime) || f_lt rate (f_lit 7 1)
  then with_fconfig (with_batchSize (decreased (batchSize c)) c) f
  else if (avgTime <? 100 * 1000000) && f_gt rate (f_lit 9 1)
  then with_fconfig (with_batchSize (increased (batchSize c)) c) f
  else f.
End floats.

(** The metrics at the end of a processing round. *)
Definition book_round (processingTime pendingCount totalProcessed totalFinalized : Z)
    (f : EventFlowManager) : EventFlowManager :=
  let m := fl_metrics f in
  let rate := if 0 <? totalProcessed
              then f_div (f_of_Z totalFinalized) (f_of_Z totalProcessed) else f_zero in
  with_fmetrics
    (mkFMetrics (totalEventsCreated m) (totalEventsFinalized m) (avgFinalizationTime m)
       (maxFinalizationTime m) (finalizationTimeouts m) (eventDuplicateCount m)
       (eventValidationErrors m) (eventPropagationErrors m) (eventRetries m)
       (moving (batchProcessingTime m) processingTime) pendingCount
       (f_div (f_add (f_mul (successRate m) (f_of_Z 9)) rate) (f_of_Z 10))) f.

(** ** Queries *)

Definition GetPendingEvents (order : list bytes32) (f : EventFlowManager) : list loc :=
  visit (fl_pending f) order.

Definition GetEventByID (id : bytes32) (f : EventFlowManager) : option loc :=
  match fl_pending f !! id with Some ev => Some ev | None => fl_finalized f !! id end.

Definition GetEventsByHeight (height : Z) (f : EventFlowManager) : list loc :=
  default [] (fl_byHeight f !! height).

Inductive FlowError :=
| ErrHeightRange.

Section store.
Variable d : DAG.

Definition is_Finalized (ev : loc) : bool := from_option ev_Finalized false (event_at d ev).
Definition ev_height (ev : loc) : Z := from_option ev_Height 0 (event_at d ev).
Definition height_before (a b : loc) : bool := ev_height a <? ev_height b.

(** The loop [for h := from; h <= to; h++]; [None] when the fuel runs out. *)
Fixpoint collect_finalized (fuel : nat) (h to : Z) (m : gmap Z (list loc)) (acc : list loc) :
    option (list loc) :=
  match fuel with
  | O => None
  | S fuel =>
      if to <? h then Some acc
      else collect_finalized fuel (uadd h 1) to m
             (acc ++ List.filter is_Finalized (default [] (m !! h)))
  end.

Definition GetFinalizedEvents (fuel : nat) (fromHeight toHeight : Z) (f : EventFlowManager) :
    option (result FlowError (list loc)) :=
  if toHeight <? fromHeight then Some (Err ErrHeightRange)
  else events ← collect_finalized fuel fromHeight toHeight (fl_byHeight f) [];
       Some (Ok (sort_slice height_before events)).

(** One finalized event of a height that is cleaned. *)
Definition forget_event (acc : EventFlowManager * Z) (ev : loc) : EventFlowManager * Z :=
  let '(f, removed) := acc in
  match event_at d ev with
  | None => acc
  | Some e =>
      if ev_Finalized e then
        (mkFlow (fl_pending f) (delete (ev_ID e) (fl_finalized f)) (fl_byHeight f)
           (delete (ev_ID e) (fl_created f)) (delete (ev_ID e) (fl_retry f)) (fl_metrics f)
           (fl_config f), removed + 1)
      else acc
  end.

Definition clean_height (acc : EventFlowManager * Z) (h : Z) : EventFlowManager * Z :=
  match fl_byHeight acc.1 !! h with
  | None => acc
  | Some events =>
      let '(f, removed) := foldl forget_event acc events in
      (mkFlow (fl_pending f) (fl_finalized f) (delete h (fl_byHeight f)) (fl_created f)
         (fl_retry f) (fl_metrics f) (fl_config f), removed)
  end.

Definition CleanupOldEvents (maxHeight : Z) (f : EventFlowManager) : EventFlowManager * Z :=
  foldl clean_height (f, 0) (seqZ 0 maxHeight).
End store.

(** ** Configuration *)

Definition SetFinalizationTimeout (timeout : Z) (f : EventFlowManager) : EventFlowManager :=
  let c := fl_config f in
  if 0 <? timeout then
    with_fconfig (mkFConfig timeout (maxPendingEvents c) (batchSize c) (enableDeduplication c)
      (enableValidation c) (maxRetries c) (adaptiveBatching c)) f
  else f.
Definition SetMaxPendingEvents (max : Z) (f : EventFlowManager) : EventFlowManager :=
  let c := fl_config f in
  if 0 <? max then
    with_fconfig (mkFConfig (finalizationTimeout c) max (batchSize c) (enableDeduplication c)
      (enableValidation c) (maxRetries c) (adaptiveBatching c)) f
  else f.
Definition SetBatchSize (size : Z) (f : EventFlowManager) : EventFlowManager :=
  if 0 <? size then with_fconfig (with_batchSize size (fl_config f)) f else f.
Definition EnableDeduplication (enable : bool) (f : EventFlowManager) : EventFlowManager :=
  let c := fl_config f in
  with_fconfig (mkFConfig (finalizationTimeout c) (maxPendingEvents c) (batchSize c) enable
    (enableValidation c) (maxRetries c) (adaptiveBatching c)) f.
Definition EnableValidation (enable : bool) (f : EventFlowManager) : EventFlowManager :=
  let c := fl_config f in
  with_fconfig (mkFConfig (finalizationTimeout c) (maxPendingEvents c) (batchSize c)
    (enableDeduplication c) enable (maxRetries c) (adaptiveBatching c)) f.
Definition SetMaxRetries (max : Z) (f : EventFlowManager) : EventFlowManager :=
  let c := fl_config f in
  if 0 <? max then
    with_fconfig (mkFConfig (finalizationTimeout c) (maxPendingEvents c) (batchSize c)
      (enableDeduplication c) (enableValidation c) max (adaptiveBatching c)) f
  else f.
(** The flag is stored before it is tested, so no worker is ever started. *)
Definition EnableAdaptiveBatching (enable : bool) (f : EventFlowManager) :
    EventFlowManager * bool :=
  let c := fl_config f in
  let f := with_fconfig (mkFConfig (finalizationTimeout c) (maxPendingEvents c) (batchSize c)
    (enableDeduplication c) (enableValidation c) (maxRetries c) enable) f in
  (f, enable && negb (adaptiveBatching (fl_config f))).

(** * Facts *)

(** The loop is the one of Lachesis on the finalized events. *)
Lemma collect_finalized_eq d m fuel : ∀ h to acc, collect_finalized d fuel h to m acc
  = collect fuel h to (List.filter (is_Finalized d) <$> m) acc.
Proof.
  induction fuel as [|fuel IH]; intros h to acc; [done|]. cbn [collect_finalized collect].
  rewrite IH, lookup_fmap. by destruct (m !! h).
Qed.

Lemma height_ordered d evs : ordered (height_before d) (sort_slice (height_before d) evs).
Proof.
  apply (sort_slice_ordered _ (λ _, True)).
  - intros a b _ _. unfold height_before. rewrite Z.ltb_lt, Z.ltb_ge. lia.
  - intros a b c _ _ _. unfold height_before. rewrite !Z.ltb_ge. lia.
  - by apply Forall_forall.
Qed.

Lemma incrementMetric_frame name f :
  let f' := incrementMetric name f in
  fl_pending f' = fl_pending f ∧ fl_finalized f' = fl_finalized f ∧
  fl_byHeight f' = fl_byHeight f ∧ fl_created f' = fl_created f ∧ fl_retry f' = fl_retry f ∧
  fl_config f' = fl_config f.
Proof. unfold incrementMetric. by destruct (fl_metrics f). Qed.

(** ** The batch size *)

(** The products and their truncations, evaluated for every size in the range. *)
Lemma scaled_range n : 10 ≤ n ≤ 500 →
  ∃ a b, f_trunc (f_mul (f_of_Z n) (f_lit 8 1)) = Some a ∧
    f_trunc (f_mul (f_of_Z n) (f_lit 12 1)) = Some b ∧ 0 ≤ a ≤ n ∧ n ≤ b ≤ 1000.
Proof.
  intros Hn.
  assert (forallb (λ n,
    match f_trunc (f_mul (f_of_Z n) (f_lit 8 1)), f_trunc (f_mul (f_of_Z n) (f_lit 12 1)) with
    | Some a, Some b => (0 <=? a) && (a <=? n) && (n <=? b) && (b <=? 1000)
    | _, _ => false end) (seqZ 10 491) = true) as Hb by by vm_compute.
  rewrite forallb_forall in Hb. specialize (Hb n). rewrite <- list_elem_of_In, elem_of_seqZ in Hb.
  specialize (Hb ltac:(lia)).
  destruct (f_trunc _) as [a|]; [|done]. destruct (f_trunc _) as [b|]; [|done].
  exists a, b. bool_to_prop. by split_and!.
Qed.

Lemma adjusted_range wild n : 10 ≤ n ≤ 500 →
  10 ≤ decreased wild n ≤ n ∧ n ≤ increased wild n ≤ 500.
Proof.
  intros Hn. destruct (scaled_range n Hn) as (a & b & Ha & Hb & Hra & Hrb).
  unfold decreased, increased, to_int. rewrite Ha, Hb.
  rewrite !decide_True by (unfold is_i64; lia).
  destruct (Z.ltb_spec a 10), (Z.ltb_spec 500 b); lia.
Qed.

(** * Properties *)

(** the listing of finalized events.  It fails exactly on an empty range; otherwise it
    terminates and returns the tracked events of the range that are finalized, each as often as it
    was tracked, ordered by height -- unless the range ends at the largest [uint64]: then the loop
    counter wraps and no amount of steps is enough. *)
Theorem GetFinalizedEvents_correct d f fromHeight toHeight : is_u64 fromHeight → is_u64 toHeight →
  (toHeight < fromHeight → ∀ fuel,
     GetFinalizedEvents d fuel fromHeight toHeight f = Some (Err ErrHeightRange)) ∧
  (fromHeight ≤ toHeight → toHeight = u64_max → ∀ fuel,
     GetFinalizedEvents d fuel fromHeight toHeight f = None) ∧
  (fromHeight ≤ toHeight → toHeight ≠ u64_max → ∀ fuel,
     (Z.to_nat (toHeight + 2 - fromHeight) ≤ fuel)%nat →
     ∃ evs, GetFinalizedEvents d fuel fromHeight toHeight f = Some (Ok evs) ∧
       ordered (height_before d) evs ∧
       evs ≡ₚ concat ((λ h, List.filter (is_Finalized d) (GetEventsByHeight h f))
                        <$> seqZ fromHeight (toHeight + 1 - fromHeight))).
Proof.
  unfold GetFinalizedEvents, is_u64, u64_max. intros Hf Ht. split_and!; intros Hle.
  - intros fuel. by rewrite (proj2 (Z.ltb_lt _ _) Hle).
  - intros -> fuel. rewrite (proj2 (Z.ltb_ge _ _) Hle), collect_finalized_eq.
    by rewrite (collect_diverges _ fuel fromHeight).
  - intros Hne fuel Hfuel. rewrite (proj2 (Z.ltb_ge _ _) Hle), collect_finalized_eq.
    rewrite collect_spec by (unfold u64_max; lia). cbn [mbind option_bind]. eexists. split; [done|].
    split; [apply height_ordered|]. rewrite sort_slice_perm.
    rewrite app_nil_l. apply reflexive_eq, (f_equal (@concat loc)), list_fmap_ext. intros _ h _. rewrite lookup_fmap.
    unfold GetEventsByHeight. by destruct (fl_byHeight f !! h).
Qed.

(** the adaptive batch size never leaves [10, 500] once inside, whatever the measured time and
    success rate, and it only shrinks when the rounds are slow or fail and only grows when they are
    fast and succeed. *)
Theorem adjustBatchSize_bounded wild f : 10 ≤ batchSize (fl_config f) ≤ 500 →
  let f' := adjustBatchSize wild f in
  10 ≤ batchSize (fl_config f') ≤ 500 ∧
  (batchSize (fl_config f') < batchSize (fl_config f) →
     500000000 < batchProcessingTime (fl_metrics f) ∨
     f_lt (successRate (fl_metrics f)) (f_lit 7 1) = true) ∧
  (batchSize (fl_config f) < batchSize (fl_config f') →
     batchProcessingTime (fl_metrics f) < 100000000 ∧
     f_gt (successRate (fl_metrics f)) (f_lit 9 1) = true).
Proof.
  intros Hn. destruct (adjusted_range wild _ Hn) as [Hd Hi]. cbn zeta. unfold adjustBatchSize.
  destruct ((500 * 1000000 <? _) || f_lt _ _) eqn:Hslow.
  - cbn [fl_config with_fconfig batchSize with_batchSize]. apply orb_true_iff in Hslow.
    rewrite Z.ltb_lt in Hslow. split_and!; [lia|lia|intros _; tauto|lia].
  - destruct ((_ <? 100 * 1000000) && f_gt _ _) eqn:Hfast; [|split_and!; lia].
    cbn [fl_config with_fconfig batchSize with_batchSize]. bool_to_prop.
    split_and!; [lia|lia|lia|intros _; split; [lia|done]].
Qed.

(** * Examples *)

Definition tracked2 : EventFlowManager :=
  track_event 9 2%positive event2 (track_event 8 1%positive event1 NewEventFlowManager).

Lemma GetFinalizedEvents_correct_witness :
  (∀ fuel, GetFinalizedEvents (lc_dag ticked) fuel 3 1 tracked2 = Some (Err ErrHeightRange)) ∧
  (∀ fuel, GetFinalizedEvents (lc_dag ticked) fuel 0 u64_max tracked2 = None) ∧
  ∃ evs, GetFinalizedEvents (lc_dag ticked) 4 0 2 tracked2 = Some (Ok evs) ∧
    evs ≡ₚ [1; 2]%positive.
Proof.
  assert (is_u64 0 ∧ is_u64 1 ∧ is_u64 2 ∧ is_u64 3 ∧ is_u64 u64_max) as (H0 & H1 & H2 & H3 & Hm)
    by (unfold is_u64, u64_max; lia).
  destruct (GetFinalizedEvents_correct (lc_dag ticked) tracked2 3 1 H3 H1) as (Ha & _).
  destruct (GetFinalizedEvents_correct (lc_dag ticked) tracked2 0 u64_max H0 Hm) as (_ & Hb & _).
  destruct (GetFinalizedEvents_correct (lc_dag ticked) tracked2 0 2 H0 H2) as (_ & _ & Hc).
  split; [by apply Ha|]. split; [by apply Hb|].
  assert ((Z.to_nat (2 + 2 - 0) ≤ 4)%nat) as Hf by (by vm_compute; repeat constructor).
  destruct (Hc ltac:(lia) ltac:(done) 4%nat Hf) as (evs & He & _ & Hp).
  exists evs. split; [done|]. rewrite Hp. by vm_compute.
Defined.

Lemma adjustBatchSize_bounded_witness :
  batchSize (fl_config NewEventFlowManager) = 100 ∧
  10 ≤ batchSize (fl_config (adjustBatchSize wild0 NewEventFlowManager)) ≤ 500.
Proof.
  split; [done|]. apply (adjustBatchSize_bounded wild0 NewEventFlowManager). by vm_compute.
Defined.

(** The worker is never started again, whatever the flag was. *)
Example no_second_worker f enable : (EnableAdaptiveBatching enable f).2 = false.
Proof. by destruct enable. Qed.
