(* ===== verification/Node.v ===== *)
(** * The hybrid consensus: src/consensus/diamantehybrid.go and the event
    operations of src/consensus/event_flow.go

    The node puts the components together: events are created, validated and
    finalized through Lachesis, PoH, the validator manager and the event
    flow; blocks, checkpoints, recovery and the life cycle are its own.
    Every operation is one atomic step; a goroutine is the call it makes, run
    at any later time.  Logging is left out.

    An [env] holds what one call observes from outside: the clock and the
    iteration orders of the maps.  JSON encoders are parameters. *)
From Stdlib Require Import ZArith Lia SpecFloat.
From Stdlib Require Import Strings.Byte Strings.String.
From stdpp Require Import numbers prelude gmap strings sorting pretty.
From S2P Require Import Prelude GoFloat Bytes Sha256 Maps Common PoH DPoS Dag DPoSState Voting.
From S2P Require Import Finalizer Gossip Lachesis Governance ValMgr Errors Recovery Batch Flow.
Open Scope Z_scope.

Inductive HybridMode := ProductionMode | TestMode.
#[export] Instance mode_eq_dec : EqDecision HybridMode.
Proof. solve_decision. Defined.

Record HybridConsensusConfig := mkHConfig {
  Mode : HybridMode;
  cf_GossipDelay : Z;
  PoHTickDelay : Z;
  DPoSSetSize : Z;
  DPoSEpoch : Z;
  cf_VotingDuration : Z;
  PoHDriftTolerance : Z;
  CheckpointInterval : Z;
  VotingThreshold : f64 }.

Definition DefaultHybridConfig : HybridConsensusConfig :=
  mkHConfig ProductionMode second second 21 1000 (2 * minute) 0 1000 (f_lit 66 2).
Definition TestHybridConfig : HybridConsensusConfig :=
  mkHConfig TestMode (50 * 1000000) (200 * 1000000) 21 100 (5 * second) 15 5 (f_lit 5 2).

(** The constant [CheckpointInterval] of the package, not the field. *)
Definition checkpoint_interval : Z := 1000.

Record Block := mkBlock {
  blk_Number : Z;
  blk_Timestamp : Z;
  blk_Producer : string;
  blk_Events : option (list loc); (* None: the nil slice *)
  blk_PoHHash : string }.

Record Checkpoint := mkCheckpoint {
  ck_BlockNumber : Z;
  ck_LachesisState : list byte;
  ck_DPoSState : list byte;
  ck_PoHState : bytes32;
  ck_PoHCount : Z;
  ck_CreatedAt : Z;
  ck_StateHashes : gmap string string }.

(** The node's own fields.  [ch_ckptLocked]: checkpointsMu is held by a
    goroutine that will never release it. *)
Record Chain := mkChain {
  lastBlockHeight : Z;
  lastBlockHash : bytes32;
  ch_pending : option (list loc); (* None: the nil slice *)
  ch_finalized : gmap Z (list loc);
  ch_checkpoints : gmap Z Checkpoint;
  lastCheckpoint : Z;
  ch_ckptLocked : bool;
  ch_running : bool;
  startDone : bool; (* startOnce *)
  stopDone : bool; (* stopOnce *)
  lastError : option go_error;
  errorCount : gmap ConsensusErrorCode Z }.

Record HybridConsensus := mkHC {
  hc_core : Hybrid; (* DPoS, Lachesis, lastFinalizedHeight *)
  hc_poh : PoH;
  hc_vm : ValidatorManager;
  hc_flow : EventFlowManager;
  hc_batch : BatchProcessor;
  hc_recovery : RecoveryManager;
  hc_cfg : HybridConsensusConfig;
  hc_chain : Chain }.

Definition with_core (x : Hybrid) (n : HybridConsensus) : HybridConsensus :=
  mkHC x (hc_poh n) (hc_vm n) (hc_flow n) (hc_batch n) (hc_recovery n) (hc_cfg n) (hc_chain n).
Definition with_poh (x : PoH) (n : HybridConsensus) : HybridConsensus :=
  mkHC (hc_core n) x (hc_vm n) (hc_flow n) (hc_batch n) (hc_recovery n) (hc_cfg n) (hc_chain n).
Definition with_vm (x : ValidatorManager) (n : HybridConsensus) : HybridConsensus :=
  mkHC (hc_core n) (hc_poh n) x (hc_flow n) (hc_batch n) (hc_recovery n) (hc_cfg n) (hc_chain n).
Definition with_flow (x : EventFlowManager) (n : HybridConsensus) : HybridConsensus :=
  mkHC (hc_core n) (hc_poh n) (hc_vm n) x (hc_batch n) (hc_recovery n) (hc_cfg n) (hc_chain n).
Definition with_batch (x : BatchProcessor) (n : HybridConsensus) : HybridConsensus :=
  mkHC (hc_core n) (hc_poh n) (hc_vm n) (hc_flow n) x (hc_recovery n) (hc_cfg n) (hc_chain n).
Definition with_recovery (x : RecoveryManager) (n : HybridConsensus) : HybridConsensus :=
  mkHC (hc_core n) (hc_poh n) (hc_vm n) (hc_flow n) (hc_batch n) x (hc_cfg n) (hc_chain n).
Definition with_chain (x : Chain) (n : HybridConsensus) : HybridConsensus :=
  mkHC (hc_core n) (hc_poh n) (hc_vm n) (hc_flow n) (hc_batch n) (hc_recovery n) (hc_cfg n) x.

(** The event store, inside Lachesis. *)
Definition node_dag (n : HybridConsensus) : DAG := lc_dag (hy_lachesis (hc_core n)).
Definition with_node_lachesis (l : Lachesis) (n : HybridConsensus) : HybridConsensus :=
  with_core (with_lachesis l (hc_core n)) n.
Definition with_node_dag (d : DAG) (n : HybridConsensus) : HybridConsensus :=
  with_node_lachesis (with_dag d (hy_lachesis (hc_core n))) n.
Definition with_finalized_height (h : Z) (x : Hybrid) : Hybrid :=
  mkHybrid (hy_dpos x) (hy_lachesis x) h (hy_order x) (hy_wild x).

(** Updates of the node's own fields. *)
Definition set_height (h : Z) (c : Chain) : Chain :=
  mkChain h (lastBlockHash c) (ch_pending c) (ch_finalized c) (ch_checkpoints c)
    (lastCheckpoint c) (ch_ckptLocked c) (ch_running c) (startDone c) (stopDone c)
    (lastError c) (errorCount c).
Definition set_hash (h : bytes32) (c : Chain) : Chain :=
  mkChain (lastBlockHeight c) h (ch_pending c) (ch_finalized c) (ch_checkpoints c)
    (lastCheckpoint c) (ch_ckptLocked c) (ch_running c) (startDone c) (stopDone c)
    (lastError c) (errorCount c).
Definition set_pending (p : option (list loc)) (c : Chain) : Chain :=
  mkChain (lastBlockHeight c) (lastBlockHash c) p (ch_finalized c) (ch_checkpoints c)
    (lastCheckpoint c) (ch_ckptLocked c) (ch_running c) (startDone c) (stopDone c)
    (lastError c) (errorCount c).
Definition set_finalized (m : gmap Z (list loc)) (c : Chain) : Chain :=
  mkChain (lastBlockHeight c) (lastBlockHash c) (ch_pending c) m (ch_checkpoints c)
    (lastCheckpoint c) (ch_ckptLocked c) (ch_running c) (startDone c) (stopDone c)
    (lastError c) (errorCount c).
Definition set_checkpoints (m : gmap Z Checkpoint) (last : Z) (locked : bool) (c : Chain) :
    Chain :=
  mkChain (lastBlockHeight c) (lastBlockHash c) (ch_pending c) (ch_finalized c) m last locked
    (ch_running c) (startDone c) (stopDone c) (lastError c) (errorCount c).
Definition set_life (running started stopped : bool) (c : Chain) : Chain :=
  mkChain (lastBlockHeight c) (lastBlockHash c) (ch_pending c) (ch_finalized c)
    (ch_checkpoints c) (lastCheckpoint c) (ch_ckptLocked c) running started stopped
    (lastError c) (errorCount c).
Definition set_errors (e : option go_error) (m : gmap ConsensusErrorCode Z) (c : Chain) : Chain :=
  mkChain (lastBlockHeight c) (lastBlockHash c) (ch_pending c) (ch_finalized c)
    (ch_checkpoints c) (lastCheckpoint c) (ch_ckptLocked c) (ch_running c) (startDone c)
    (stopDone c) e m.

Definition on_chain (f : Chain → Chain) (n : HybridConsensus) : HybridConsensus :=
  with_chain (f (hc_chain n)) n.

(** ** Construction *)

(** Go's zero [time.Time], in nanoseconds from the Unix epoch. *)
Definition zero_time : Z := -62135596800 * second.

Definition initialState : bytes32 := sha256 (list_byte_of_string "Diamante Initial State").

Definition with_threshold (t : f64) (c : HybridConsensusConfig) : HybridConsensusConfig :=
  mkHConfig (Mode c) (cf_GossipDelay c) (PoHTickDelay c) (DPoSSetSize c) (DPoSEpoch c)
    (cf_VotingDuration c) (PoHDriftTolerance c) (CheckpointInterval c) t.

Definition valid_config (c : HybridConsensusConfig) : HybridConsensusConfig :=
  if f_le (VotingThreshold c) f_zero || f_gt (VotingThreshold c) f_one
  then with_threshold (if bool_decide (Mode c = TestMode) then f_lit 5 2 else f_lit 66 2) c
  else c.

Definition node_batch_config (c : HybridConsensusConfig) : BatchProcessorConfig :=
  with_BatchSize (if bool_decide (Mode c = TestMode) then 20 else 100)
    DefaultBatchProcessorConfig.

Definition NewHybridConsensusWithConfig (now : Z) (order : gmap bytes32 Validator → list bytes32)
    (wild : f64 → Z) (cfg : HybridConsensusConfig) : HybridConsensus :=
  let cfg := valid_config cfg in
  let l := SetVotingThreshold (VotingThreshold cfg) (NewLachesis (cf_GossipDelay cfg)) in
  mkHC (mkHybrid (NewDPoS (DPoSSetSize cfg) (DPoSEpoch cfg)) l 0 order wild)
    (NewPoH now initialState (PoHTickDelay cfg)) NewValidatorManager NewEventFlowManager
    (NewBatchProcessor zero_time (Some (node_batch_config cfg))) NewRecoveryManager cfg
    (mkChain 0 initialState (Some []) ∅ ∅ 0 false false false false None ∅).

(** The old constructor leaves the checkpoint interval and the threshold
    zero. *)
Definition NewHybridConsensus (now : Z) (order : gmap bytes32 Validator → list bytes32)
    (wild : f64 → Z) (gossipDelay pohTickDelay dposSetSize dposEpochDuration votingDuration : Z) :
    HybridConsensus :=
  NewHybridConsensusWithConfig now order wild
    (mkHConfig ProductionMode gossipDelay pohTickDelay dposSetSize dposEpochDuration
       votingDuration 0 0 f_zero).

Definition minPoHDelay : Z := 1000000.
Definition maxPoHDelay : Z := 5 * second.
Definition clampDuration (d lower upper : Z) : Z :=
  if d <? lower then lower else if upper <? d then upper else d.

(** ** Errors *)

Definition trackError (err : go_error) (n : HybridConsensus) : HybridConsensus :=
  match err with
  | PlainError _ => n
  | _ => on_chain (λ c, set_errors (Some err)
           (<[GetErrorCode err := i64 (default 0 (errorCount c !! GetErrorCode err) + 1)]>
              (errorCount c)) c) n
  end.

(** ** Proof of history with drift *)

Definition IsTestMode (n : HybridConsensus) : bool := bool_decide (Mode (hc_cfg n) = TestMode).

Definition verifyPoHWithDrift (st : bytes32) (data : list byte) (proof : bytes32) (cnt : Z)
    (n : HybridConsensus) : bool :=
  let currentCount := GetCount (hc_poh n) in
  let tolerance := PoHDriftTolerance (hc_cfg n) in
  let in_drift :=
    if IsTestMode n then
      let diff := i64 (i64 cnt - i64 currentCount) in
      let diff := if diff <? 0 then i64 (- diff) else diff in
      diff <=? i64 tolerance
    else cnt <=? uadd currentCount tolerance in
  in_drift && PoH.Verify st data proof cnt (hc_poh n).

Definition verify_event (e : Event) (n : HybridConsensus) : bool :=
  verifyPoHWithDrift (ev_PoHState e) (ev_Data e) (ev_PoHProof e) (ev_PoHCount e) n.

(** ** Finalizing an event *)

Section node.
(** [math.Pow], and the conversions of floats outside the integer range. *)
Variable pow : f64 → f64 → f64.
Variable wild_uint : f64 → Z.

(** The orders of the two votes and the clock of one finalization. *)
Record fin_env := mkFinEnv {
  fe_total1 : gmap bytes32 Node → list bytes32;
  fe_active1 : gmap bytes32 Node → list bytes32;
  fe_total2 : gmap bytes32 Node → list bytes32;
  fe_active2 : gmap bytes32 Node → list bytes32;
  fe_now : Z }.

Definition creator_hex (e : Event) : context_value := CtxString (byteArrayToString (ev_Creator e)).

(** The error of the validator manager for an unknown identifier. *)
Definition unknown_validator (now : Z) (e : Event) : go_error :=
  WithContext "eventHeight" (CtxInt (ev_Height e)) (WithValidatorID (ev_Creator e)
    (NewConsensusError now Errors.ErrValidatorNotFound ErrorCategoryTemporary
       ("validator " +:+ byteArrayToString (ev_Creator e) +:+ " not found"))).

(** The reward, whose error is only tracked. *)
Definition reward_event (now : Z) (e : Event) (n : HybridConsensus) : HybridConsensus :=
  match RewardEventFinalization pow now (ev_Creator e) (hc_vm n) with
  | (vm, Ok _) => with_vm vm n
  | (vm, Err _) =>
      trackError (WithValidatorID (ev_Creator e) (WithEventID (ev_ID e)
        (WrapError now (unknown_validator now e) ErrStateInconsistency
           ErrorCategoryTemporary "failed to reward validator for event finalization")))
        (with_vm vm n)
  end.

(** What follows a yes of Lachesis: the event is listed under the current
    block height, its height recorded, its flag set, its creator rewarded. *)
Definition record_final (ev : loc) (e : Event) (n : HybridConsensus) : HybridConsensus :=
  let h := lastBlockHeight (hc_chain n) in
  let n := on_chain (λ c, set_finalized
             (<[h := default [] (ch_finalized c !! h) ++ [ev]]> (ch_finalized c)) c) n in
  let n := with_core (with_finalized_height (ev_Height e) (hc_core n)) n in
  with_node_dag (mark_finalized ev (node_dag n)) n.

Definition commit_event (now : Z) (ev : loc) (e : Event) (n : HybridConsensus) : HybridConsensus :=
  reward_event now e (record_final ev e n).

Definition FinalizeEvent (env : fin_env) (ev : loc) (n : HybridConsensus) :
    HybridConsensus * result go_error bool :=
  match event_at (node_dag n) ev with
  | None =>
      let err := NewConsensusError (fe_now env) ErrEventValidationFailed ErrorCategoryTemporary
                   "nil event" in
      (trackError err n, Err err)
  | Some e =>
      if ev_Finalized e then (n, Ok true)
      else if negb (verify_event e n) && negb (IsTestMode n) then
        let err := WithContext "currentPohCount" (CtxInt (GetCount (hc_poh n)))
          (WithContext "pohCount" (CtxInt (ev_PoHCount e))
          (WithContext "creator" (creator_hex e)
          (WithEventID (ev_ID e)
          (NewConsensusError (fe_now env) ErrPoHVerificationFailed ErrorCategoryByzantine
             "PoH verification failed (with drift check)")))) in
        (trackError err n, Err err)
      else
        match ProcessEvent (fe_total1 env) (fe_active1 env) (fe_total2 env) (fe_active2 env) ev
                (hy_lachesis (hc_core n)) with
        | Some (l, true) => (commit_event (fe_now env) ev e (with_node_lachesis l n), Ok true)
        | Some (l, false) => (with_node_lachesis l n, Ok false)
        | None => (n, Ok false) (* only for a nil event, refused above *)
        end
  end.

(** ** Validating an event *)

Definition about_event (e : Event) (err : go_error) : go_error :=
  WithContext "height" (CtxInt (ev_Height e))
    (WithValidatorID (ev_Creator e) (WithEventID (ev_ID e) err)).

Definition on_flow (f : EventFlowManager → EventFlowManager) (n : HybridConsensus) :
    HybridConsensus := with_flow (f (hc_flow n)) n.

(** The answer [None] is nil.  Unknown parents are only logged. *)
Definition ValidateEvent (now : Z) (ev : loc) (n : HybridConsensus) :
    HybridConsensus * option go_error :=
  match event_at (node_dag n) ev with
  | None => (n, Some (NewConsensusError now ErrEventValidationFailed ErrorCategoryTemporary
                        "event is nil"))
  | Some e =>
      if negb (ValMgr.IsActiveValidator (ev_Creator e) (hc_vm n)) then
        (n, Some (about_event e (NewConsensusError now ErrInvalidValidator ErrorCategoryTemporary
                    "creator is not an active validator")))
      else if negb (verify_event e n) then
        (n, Some (WithContext "currentPohCount" (CtxInt (GetCount (hc_poh n)))
                 (WithContext "pohCount" (CtxInt (ev_PoHCount e))
                 (about_event e (NewConsensusError now ErrPoHVerificationFailed
                    ErrorCategoryByzantine "PoH verification failed")))))
      else
        let pendingEvent := fl_pending (hc_flow n) !! ev_ID e in
        let finalizedEvent := fl_finalized (hc_flow n) !! ev_ID e in
        match (match pendingEvent with
               | Some k => Some ("pending"%string, k)
               | None => (λ k, ("finalized"%string, k)) <$> finalizedEvent
               end) with
        | Some (info, k) =>
            let h := ev_height (node_dag n) k in
            (on_flow (incrementMetric "eventDuplicateCount") n,
             Some (WithContext "duplicateHeight" (CtxInt h)
                  (WithContext "duplicateStatus" (CtxString info)
                  (about_event e (NewConsensusError now ErrEventDuplicate ErrorCategoryTemporary
                     ("duplicate event: " +:+ info +:+ " event at height " +:+ pretty h))))))
        | None =>
            if ev_Timestamp e =? zero_time then
              (n, Some (about_event e (NewConsensusError now ErrEventValidationFailed
                          ErrorCategoryTemporary "event has zero timestamp")))
            else if now + 5 * second <? ev_Timestamp e then
              (n, Some (WithContext "currentTime" CtxOther
                       (WithContext "timestamp" CtxOther
                       (about_event e (NewConsensusError now ErrEventValidationFailed
                          ErrorCategoryTemporary "event timestamp is too far in the future")))))
            else (n, None)
        end
  end.

(** ** Creating an event *)

(** [event.PoHState], [event.PoHCount] and [event.PoHProof]. *)
Definition set_poh (s : bytes32) (c : Z) (p : bytes32) (e : Event) : Event :=
  mkEvent (ev_ID e) (ev_Creator e) (ev_ParentIDs e) (ev_Data e) (ev_Timestamp e) (ev_Height e)
    (ev_Finalized e) s c p.
Definition write_event (f : Event → Event) (ev : loc) (d : DAG) : DAG :=
  mkDAG (Nodes d) (Dag.Events d) (MaxHeight d)
    (mkHeap (alter f ev (objs (store d))) (next (store d))).

(** The clock at the creation in Lachesis, at the PoH record, at the
    validation and at the tracking. *)
Record create_env := mkCreateEnv { ce_event : Z; ce_poh : Z; ce_validate : Z; ce_track : Z }.

(** [EventFlowManager.CreateEvent]; the finalization it starts is a later
    call of [finalizeEvent]. *)
Definition flow_CreateEvent (env : create_env) (creator : bytes32) (parentIDs : list bytes32)
    (data : list byte) (n : HybridConsensus) : HybridConsensus * result go_error loc :=
  if negb (ValMgr.IsActiveValidator creator (hc_vm n))
  then (n, Err (PlainError "creator is not an active validator"))
  else
    let pendingCount := Z.of_nat (size (fl_pending (hc_flow n))) in
    let max := maxPendingEvents (fl_config (hc_flow n)) in
    if max <=? pendingCount then
      (n, Err (PlainError ("too many pending events (" +:+ pretty pendingCount +:+ " >= "
                           +:+ pretty max +:+ ")")))
    else
      match Lachesis.CreateEvent (ce_event env) creator parentIDs data (hy_lachesis (hc_core n)) with
      | (l, None) =>
          (on_flow (incrementMetric "eventCreationErrors") (with_node_lachesis l n),
           Err (PlainError "failed to create event"))
      | (l, Some ev) =>
          let n := with_node_lachesis l n in
          let pohState := PoH.GetState (hc_poh n) in
          let pohCount := GetCount (hc_poh n) in
          let '(p, pohHash) := Record_ (ce_poh env) data (hc_poh n) in
          let n := with_poh p n in
          let n := with_node_dag (write_event (set_poh pohState pohCount pohHash) ev (node_dag n)) n in
          let track n :=
            match event_at (node_dag n) ev with
            | None => (n, Ok ev)
            | Some e =>
                (on_flow (incrementMetric "totalEventsCreated")
                   (on_flow (track_event (ce_track env) ev e) n), Ok ev)
            end in
          if enableValidation (fl_config (hc_flow n)) then
            match ValidateEvent (ce_validate env) ev n with
            | (n, None) => track n
            | (n, Some err) =>
                let fail := (on_flow (incrementMetric "eventValidationErrors") n,
                             Err (plain_wrap "event validation failed: " err)) in
                if bool_decide (error_text err = "duplicate event"%string) then
                  match event_at (node_dag n) ev with
                  | None => fail
                  | Some e =>
                      match GetEventByID (ev_ID e) (hc_flow n) with
                      | Some existing => (n, Ok existing)
                      | None => fail
                      end
                  end
                else fail
            end
          else track n
      end.

(** [HybridConsensus.CreateEvent]; [now]: the clock at an error. *)
Definition CreateEvent (now : Z) (env : create_env) (creator : bytes32)
    (parentIDs : list bytes32) (data : list byte) (n : HybridConsensus) :
    HybridConsensus * option loc :=
  let ctx := CtxString (byteArrayToString creator) in
  if negb (ValMgr.IsActiveValidator creator (hc_vm n)) then
    (trackError (WithContext "creator" ctx (NewConsensusError now ErrInvalidValidator
       ErrorCategoryTemporary "creator is not an active validator")) n, None)
  else
    match flow_CreateEvent env creator parentIDs data n with
    | (n, Err err) =>
        (trackError (WithRetryInfo true second (WithContext "creator" ctx
           (WrapError now err ErrEventCreationFailed ErrorCategoryTemporary
              "failed to create event"))) n, None)
    | (n, Ok ev) =>
        (match event_at (node_dag n) ev with
         | None => n
         | Some e => with_batch (AddEvent ev e (hc_batch n)).1 n
         end, Some ev)
    end.

(** ** The event flow at work *)

(** [handleFinalizedEvent]: the second reward. *)
Definition handleFinalizedEvent (now1 now2 : Z) (ev : loc) (n : HybridConsensus) :
    HybridConsensus :=
  match event_at (node_dag n) ev with
  | None => n
  | Some e =>
      let n := on_flow (book_finalized now1 ev e) n in
      with_vm (RewardEventFinalization pow now2 (ev_Creator e) (hc_vm n)).1 n
  end.

Definition on_retry (ev : loc) (n : HybridConsensus) : HybridConsensus :=
  match event_at (node_dag n) ev with
  | None => n
  | Some e => on_flow (count_retry (ev_ID e)) n
  end.

(** The goroutine [finalizeEvent].  When it times out ([timeout]) the
    finalization it started still completes, later and unobserved: that is a
    separate call of [FinalizeEvent]. *)
Definition finalizeEvent (env : fin_env) (now1 now2 : Z) (timeout : bool) (ev : loc)
    (n : HybridConsensus) : HybridConsensus :=
  if timeout then on_retry ev (on_flow (incrementMetric "finalizationTimeouts") n)
  else
    match FinalizeEvent env ev n with
    | (n, Ok true) => handleFinalizedEvent now1 now2 ev n
    | (n, _) => on_flow (incrementMetric "eventRetries") (on_retry ev n)
    end.

(** One pending event of a round; the counters are those processed and
    finalized so far. *)
Definition pending_step (envs : loc → fin_env) (now1 now2 : loc → Z)
    (acc : HybridConsensus * (Z * Z)) (ev : loc) : HybridConsensus * (Z * Z) :=
  let '(n, (processed, finalized)) := acc in
  match event_at (node_dag n) ev with
  | None => acc
  | Some e =>
      if ev_Finalized e then acc
      else if maxRetries (fl_config (hc_flow n)) <=? default 0 (fl_retry (hc_flow n) !! ev_ID e)
      then acc
      else
        match FinalizeEvent (envs ev) ev n with
        | (n, Ok true) =>
            (handleFinalizedEvent (now1 ev) (now2 ev) ev n, (processed + 1, finalized + 1))
        | (n, _) => (n, (processed + 1, finalized))
        end
  end.

(** [EventFlowManager.processPendingEvents].  [order]: the iteration over
    the pending map; [elapsed]: the time the round took. *)
Definition flow_processPendingEvents (order : list bytes32) (envs : loc → fin_env)
    (now1 now2 : loc → Z) (elapsed : Z) (n : HybridConsensus) : HybridConsensus :=
  let pending := sort_slice (height_before (node_dag n))
                   (GetPendingEvents order (hc_flow n)) in
  let batches := chunks (Z.to_nat (batchSize (fl_config (hc_flow n)))) pending in
  let '(n, (processed, finalized)) :=
    foldl (foldl (pending_step envs now1 now2)) (n, (0, 0)) batches in
  on_flow (book_round elapsed (Z.of_nat (length pending)) processed finalized) n.

(** Event objects the DAG does not know, unmarshalled from messages or made
    by a caller: objects of the same store, outside the index of the DAG. *)
Definition new_objects (es : list Event) (n : HybridConsensus) : list loc * HybridConsensus :=
  let d := node_dag n in
  let '(ls, h) := alloc_list es (store d) in
  (ls, with_node_dag (mkDAG (Nodes d) (Dag.Events d) (MaxHeight d) h) n).

(** One event received during a partition, known to the DAG or not; the
    finalization it starts is a later call of [finalizeEvent]. *)
Definition partition_step (now1 now2 : loc → Z) (n : HybridConsensus) (ev : loc) :
    HybridConsensus :=
  match event_at (node_dag n) ev with
  | None => n
  | Some e =>
      if ev_Finalized e then n
      else
        let track n := on_flow (track_event (now2 ev) ev e) n in
        if enableValidation (fl_config (hc_flow n)) then
          match ValidateEvent (now1 ev) ev n with
          | (n, None) => track n
          | (n, Some err) =>
              if bool_decide (error_text err = "duplicate event"%string) then n
              else on_flow (incrementMetric "eventValidationErrors") n
          end
        else track n
  end.

(** A pointer to an event object; any other is nil. *)
Definition is_object (n : HybridConsensus) (ev : loc) : bool :=
  bool_decide (is_Some (event_at (node_dag n) ev)).

(** The events are sorted by the node and again by the flow.  [None] is the
    panic on a nil event, which the comparisons or the loop dereference
    before anything is tracked. *)
Definition HandleNetworkPartition (now1 now2 : loc → Z) (events : list loc)
    (n : HybridConsensus) : option HybridConsensus :=
  let before := height_before (node_dag n) in
  if forallb (is_object n) events
  then Some (foldl (partition_step now1 now2) n (sort_slice before (sort_slice before events)))
  else None.

(** [HybridConsensus.processPendingEvents]. *)
Definition processPendingEvents (order1 order2 : list bytes32) (envs : loc → fin_env)
    (now1 now2 : loc → Z) (elapsed : Z) (n : HybridConsensus) : HybridConsensus :=
  let add n ev :=
    match event_at (node_dag n) ev with
    | None => n
    | Some e => with_batch (AddEvent ev e (hc_batch n)).1 n
    end in
  flow_processPendingEvents order2 envs now1 now2 elapsed
    (foldl add n (GetPendingEvents order1 (hc_flow n))).

(** ** Blocks *)

(** [json.Marshal] of the events of a block and of a block; the nil slice
    and the empty one have different texts; [None] is an error. *)
Variable marshal_events : option (list Event) → option (list byte).
Variable marshal_block : Block → option (list Event) → option (list byte).

Definition slice_events (d : DAG) (s : option (list loc)) : option (list Event) :=
  option_map (λ evs : list loc, omap (event_at d) evs) s.

Definition collectPendingEvents (n : HybridConsensus) : HybridConsensus * option (list loc) :=
  (on_chain (set_pending None) n, ch_pending (hc_chain n)).

(** The events are lost when they cannot be serialised. *)
Definition produceBlock (now1 now2 blockNumber : Z) (producerID : bytes32)
    (n : HybridConsensus) : HybridConsensus * result go_error Block :=
  let '(n, events) := collectPendingEvents n in
  match marshal_events (slice_events (node_dag n) events) with
  | None => (n, Err (PlainError "failed to serialize events"))
  | Some data =>
      let '(p, pohHash) := Record_ now1 (b32 (sha256 data)) (hc_poh n) in
      (with_poh p n,
       Ok (mkBlock blockNumber now2 (byteArrayToString producerID) events
             (byteArrayToString pohHash)))
  end.

Definition validateBlock (block : Block) (n : HybridConsensus) : option go_error :=
  let expected := uadd (lastBlockHeight (hc_chain n)) 1 in
  if negb (blk_Number block =? expected) then
    if IsTestMode n && (0 <? blk_Number block) then None
    else Some (PlainError ("invalid block number: expected " +:+ pretty expected +:+ ", got "
                           +:+ pretty (blk_Number block)))
  else None.

(** The loop over the events of the block. *)
Fixpoint apply_events (envs : loc → fin_env) (evs : list loc) (n : HybridConsensus) :
    HybridConsensus * option go_error :=
  match evs with
  | [] => (n, None)
  | ev :: evs =>
      match FinalizeEvent (envs ev) ev n with
      | (n, Err e) => (n, Some (plain_wrap "failed to finalize event: " e))
      | (n, Ok true) => apply_events envs evs n
      | (n, Ok false) =>
          apply_events envs evs
            (on_chain (λ c, set_pending (Some (default [] (ch_pending c) ++ [ev])) c) n)
      end
  end.

(** The orders and clocks of the work on one block. *)
Record block_env := mkBlockEnv {
  be_fin : loc → fin_env;
  be_now1 : loc → Z;
  be_now2 : loc → Z;
  be_order1 : gmap bytes32 loc → list bytes32;
  be_order2 : gmap bytes32 loc → list bytes32;
  be_elapsed : Z;
  be_vm : ValMgr.orders;
  be_dpos1 : gmap bytes32 Validator → list bytes32;
  be_dpos2 : gmap bytes32 Validator → list bytes32;
  be_clock : Z }.

Definition applyBlock (env : block_env) (block : Block) (n : HybridConsensus) :
    HybridConsensus * option go_error :=
  match apply_events (be_fin env) (default [] (blk_Events block)) n with
  | (n, Some e) => (n, Some e)
  | (n, None) =>
      let pending := fl_pending (hc_flow n) in
      let n := processPendingEvents (be_order1 env pending) (be_order2 env pending)
                 (be_fin env) (be_now1 env) (be_now2 env) (be_elapsed env) n in
      let n := on_chain (λ c, set_finalized
                 (<[blk_Number block := default [] (blk_Events block)]> (ch_finalized c)) c) n in
      match hex_decode (list_byte_of_string (blk_Producer block)) with
      | None => (n, Some (PlainError "failed to decode producer ID"))
      | Some bytes =>
          let '(vm, h, _) := RewardBlockProduction pow (be_clock env) (be_clock env)
                               (copy32 bytes) (hc_vm n) (hc_core n) in
          (with_core h (with_vm vm n), None)
      end
  end.

(** ** Checkpoints *)

(** How a call that takes locks or divides can end: it returns, the process
    panics, or the goroutine blocks for ever, leaving the state to the
    others. *)
Inductive outcome (A : Type) :=
| Returns (n : HybridConsensus) (a : A)
| Panics
| Blocks (n : HybridConsensus).
Arguments Returns {A} n a.
Arguments Panics {A}.
Arguments Blocks {A} n.

Definition bind_outcome {A B} (o : outcome A) (k : HybridConsensus → A → outcome B) : outcome B :=
  match o with
  | Returns n a => k n a
  | Panics => Panics
  | Blocks n => Blocks n
  end.

(** The codecs of the serialised states. *)
Variable codec_l : Lachesis.codecs.
Variable codec_d : (dpos_state → list byte) * (list byte → option dpos_state).

(** Taking checkpointsMu for reading, or for a section that gives it back;
    it waits as long as the lock is held. *)
Definition ckpt_lock {A} (n : HybridConsensus) (k : outcome A) : outcome A :=
  if ch_ckptLocked (hc_chain n) then Blocks n else k.

Definition HasCheckpoint (blockNum : Z) (n : HybridConsensus) : outcome bool :=
  ckpt_lock n
    (Returns n (bool_decide (is_Some (ch_checkpoints (hc_chain n) !! blockNum)))).

(** checkpointsMu.Lock(): waits as long as the lock is held -- for ever when
    the holder is the caller itself -- then holds it; and Unlock(). *)
Definition ckpt_Lock (n : HybridConsensus) : outcome () :=
  if ch_ckptLocked (hc_chain n) then Blocks n
  else Returns (on_chain (λ c, set_checkpoints (ch_checkpoints c) (lastCheckpoint c) true c) n) ().
Definition ckpt_Unlock (n : HybridConsensus) : HybridConsensus :=
  on_chain (λ c, set_checkpoints (ch_checkpoints c) (lastCheckpoint c) false c) n.

(** Lock, the body, and the deferred Unlock when the body returns. *)
Definition ckpt_section {A} (body : HybridConsensus → outcome A) (n : HybridConsensus) :
    outcome A :=
  bind_outcome (ckpt_Lock n) (λ n _,
    bind_outcome (body n) (λ n a, Returns (ckpt_Unlock n) a)).

(** The loop that deletes while it ranges; the order does not matter. *)
Definition delete_old (below : Z) (m : gmap Z Checkpoint) : gmap Z Checkpoint :=
  filter (λ kv, ¬ (kv.1 < below)) m.

Definition cleanOldCheckpoints (currentBlockNumber : Z) (n : HybridConsensus) : outcome () :=
  let twice := umul (CheckpointInterval (hc_cfg n)) 2 in
  if currentBlockNumber <=? twice then Returns n ()
  else ckpt_section (λ n,
    Returns (on_chain (λ c, set_checkpoints
      (delete_old (usub currentBlockNumber twice) (ch_checkpoints c))
      (lastCheckpoint c) (ch_ckptLocked c) c) n) ()) n.

Definition build_checkpoint (now blockNumber : Z) (lachState dposState : list byte)
    (n : HybridConsensus) : Checkpoint :=
  let st := PoH.GetState (hc_poh n) in
  mkCheckpoint blockNumber lachState dposState st (GetCount (hc_poh n)) now
    (list_to_map [("lachesis"%string, byteArrayToString (sha256 lachState));
                  ("dpos"%string, byteArrayToString (sha256 dposState));
                  ("poh"%string, byteArrayToString st)]).

Definition is_nil (l : list byte) : bool := match l with [] => true | _ => false end.

Definition createCheckpoint (now blockNumber : Z) (n : HybridConsensus) :
    outcome (option go_error) :=
  let interval := CheckpointInterval (hc_cfg n) in
  if interval =? 0 then Panics
  else if negb (blockNumber mod interval =? 0) then
    Returns n (Some (PlainError ("invalid checkpoint block number " +:+ pretty blockNumber
      +:+ ": not divisible by interval " +:+ pretty interval)))
  else
    let lachState := Lachesis.GetState codec_l (hy_lachesis (hc_core n)) in
    let dposState := DPoSState.GetState codec_d.1 (hy_dpos (hc_core n)) in
    if is_nil lachState || is_nil dposState
    then Returns n (Some (PlainError "invalid empty state in checkpoint creation"))
    else
      let ck := build_checkpoint now blockNumber lachState dposState n in
      ckpt_section (λ n,
        bind_outcome
          (cleanOldCheckpoints blockNumber
             (on_chain (λ c, set_checkpoints (<[blockNumber := ck]> (ch_checkpoints c)) blockNumber
                          (ch_ckptLocked c) c) n))
          (λ n _, Returns n None)) n.

(** ** Recovery *)

Record recover_env := mkRecEnv {
  re_orders : list byte → restore_orders;
  re_keys : list byte → list string;
  re_now1 : Z;
  re_now2 : Z;
  re_nodes : gmap bytes32 Node → list bytes32 }.

Definition verifySystemConsistency (nodes : gmap bytes32 Node → list bytes32)
    (n : HybridConsensus) : option go_error :=
  let blockHeight := lastBlockHeight (hc_chain n) in
  let pohCount := GetCount (hc_poh n) in
  let vals := Z.of_nat (length (ValMgr.GetActiveValidators (hc_vm n))) in
  let lach := Z.of_nat (length (Lachesis.GetActiveNodes (nodes (Nodes (node_dag n)))
                                  (hy_lachesis (hc_core n)))) in
  if pohCount <? blockHeight then
    Some (PlainError ("inconsistent state: PoH count (" +:+ pretty pohCount
      +:+ ") < block height (" +:+ pretty blockHeight +:+ ")"))
  else if 1 <? Z.abs (vals - lach) then
    Some (PlainError ("validator set mismatch: ValidatorManager has " +:+ pretty vals
      +:+ ", Lachesis has " +:+ pretty lach))
  else if (0 <? blockHeight) && (hy_height (hc_core n) =? 0) then
    Some (PlainError "inconsistent finality: blocks exist but nothing finalized")
  else None.

Definition restore_lachesis (env : recover_env) (data : list byte) (n : HybridConsensus) :
    HybridConsensus * result LachesisError () :=
  let '(l, r) := Lachesis.RestoreState codec_l (re_orders env data) data
                   (hy_lachesis (hc_core n)) in (with_node_lachesis l n, r).
Definition restore_dpos (env : recover_env) (data : list byte) (n : HybridConsensus) :
    HybridConsensus * result DPoSStateError () :=
  let '(d, r) := DPoSState.RestoreState codec_d.2 (re_keys env data) data
                   (hy_dpos (hc_core n)) in (with_core (with_dpos d (hc_core n)) n, r).
Definition synchronize (now : Z) (s : bytes32) (c : Z) (n : HybridConsensus) :
    HybridConsensus * result PoHError () :=
  let '(p, r) := PoH.Synchronize now s c (hc_poh n) in (with_poh p n, r).

(** The three restores, until one fails. *)
Definition restore_parts (env : recover_env) (ck : Checkpoint) (n : HybridConsensus) :
    HybridConsensus * option go_error :=
  match restore_lachesis env (ck_LachesisState ck) n with
  | (n, Err _) => (n, Some (PlainError "failed to restore Lachesis state"))
  | (n, Ok _) =>
      match restore_dpos env (ck_DPoSState ck) n with
      | (n, Err _) => (n, Some (PlainError "failed to restore DPoS state"))
      | (n, Ok _) =>
          match synchronize (re_now1 env) (ck_PoHState ck) (ck_PoHCount ck) n with
          | (n, Err _) => (n, Some (PlainError "failed to synchronize PoH"))
          | (n, Ok _) => (n, None)
          end
      end
  end.

(** The rollback to the state [n0] before the recovery; its errors are only
    logged. *)
Definition rollback (env : recover_env) (n0 n : HybridConsensus) : HybridConsensus :=
  let lach := Lachesis.GetState codec_l (hy_lachesis (hc_core n0)) in
  let dpos := DPoSState.GetState codec_d.1 (hy_dpos (hc_core n0)) in
  let n := if is_nil lach then n else (restore_lachesis env lach n).1 in
  let n := if is_nil dpos then n else (restore_dpos env dpos n).1 in
  (synchronize (re_now2 env) (PoH.GetState (hc_poh n0)) (GetCount (hc_poh n0)) n).1.

(** [recoverFromError] once checkpointsMu is free; the errors of the parts
    are reported without their cause. *)
Definition recover_state (env : recover_env) (n : HybridConsensus) :
    HybridConsensus * result go_error () :=
  match ch_checkpoints (hc_chain n) !! lastCheckpoint (hc_chain n) with
  | None => (n, Err (PlainError "no checkpoint available for recovery"))
  | Some ck =>
      match restore_parts env ck n with
      | (n', Some e) => (rollback env n n', Err e)
      | (n', None) =>
          let n' := on_chain (set_height (ck_BlockNumber ck)) n' in
          match verifySystemConsistency (re_nodes env) n' with
          | Some e => (n', Err (plain_wrap "failed consistency check after recovery: " e))
          | None => (n', Ok ())
          end
      end
  end.

Definition recoverFromError (env : recover_env) (n : HybridConsensus) :
    outcome (result go_error ()) :=
  ckpt_lock n (let '(n, r) := recover_state env n in Returns n r).

(** ** Life cycle *)

(** The first start starts the components; a later one only sets the flag.
    Workers are not part of the state, their switches are. *)
Definition start_node (n : HybridConsensus) : HybridConsensus * result go_error () :=
  let c := hc_chain n in
  if ch_running c then (n, Err (PlainError "consensus is already running"))
  else
    let n := on_chain (λ c, set_life true true (stopDone c) c) n in
    if startDone c then (n, Ok ())
    else
      match Lachesis.Start (hy_lachesis (hc_core n)) with
      | (l, Err _) => (with_node_lachesis l n, Err (PlainError "failed to start Lachesis"))
      | (l, Ok _) =>
          let n := with_node_lachesis l n in
          match Batch.Start (hc_batch n) with
          | (b, Err _) => (with_batch b n, Err (PlainError "failed to start BatchProcessor"))
          | (b, Ok _) => (with_batch b n, Ok ())
          end
      end.

(** Without the wait for the goroutines, which may time out. *)
Definition stop_node (n : HybridConsensus) : HybridConsensus * result go_error () :=
  let c := hc_chain n in
  if negb (ch_running c) then (n, Err (PlainError "consensus is not running"))
  else if stopDone c then (n, Ok ())
  else
    let n := on_chain (λ c, set_life false (startDone c) true c) n in
    let n := with_node_lachesis (Lachesis.Stop (hy_lachesis (hc_core n))).1 n in
    (with_batch (Batch.Stop (hc_batch n)).1 n, Ok ()).

Definition zero_heights (n : HybridConsensus) : HybridConsensus :=
  on_chain (set_height 0) (with_core (with_finalized_height 0 (hc_core n)) n).

(** What the recovery manager does to the node. *)
Definition node_recoverable (env : recover_env) : Recoverable HybridConsensus := {|
  rc_last_checkpoint n := lastCheckpoint (hc_chain n);
  rc_recover := recover_state env;
  rc_stop := stop_node;
  rc_start := start_node;
  rc_zero_heights := zero_heights |}.

(** Whether the recovery manager recovers from a checkpoint now, which takes
    checkpointsMu. *)
Definition takes_checkpoint (now : Z) (err : go_error) (n : HybridConsensus) : bool :=
  attempts_recovery now err (hc_recovery n)
  && bool_decide (GetRecoveryStrategy (GetErrorCode (structured now err)) (hc_recovery n)
                  = RecoveryStrategyCheckpoint)
  && negb (lastCheckpoint (hc_chain n) =? 0).

Definition handle_error (env : recover_env) (now1 now2 : Z) (err : go_error)
    (n : HybridConsensus) : outcome (result go_error ()) :=
  let '(rm, n', r) := @HandleError _ (node_recoverable env) now1 now2 err (hc_recovery n) n in
  if takes_checkpoint now1 err n then ckpt_lock (with_recovery rm n) (Returns (with_recovery rm n') r)
  else Returns (with_recovery rm n') r.

(** ** Processing a block *)

(** Ends a block with a tracked error. *)
Definition fails (err : go_error) (n : HybridConsensus) : outcome (result go_error ()) :=
  Returns (trackError err n) (Err err).

Definition block_error (now : Z) (cause : go_error) (code : ConsensusErrorCode)
    (category : ErrorCategory) (message : string) (blockNumber : Z) (producer : option bytes32)
    (retryable : bool) (after : Z) : go_error :=
  let e := WithBlockNumber blockNumber (WrapError now cause code category message) in
  WithRetryInfo retryable after
    (match producer with Some id => WithValidatorID id e | None => e end).

(** The continuity test: a gap needs the checkpoint below the block, and a
    recovery. *)
Definition check_gap (env : block_env) (renv : recover_env) (blockNumber : Z)
    (n : HybridConsensus) : outcome (result go_error ()) :=
  let now := be_clock env in
  let last := lastBlockHeight (hc_chain n) in
  if blockNumber <=? uadd last 1 then Returns n (Ok ())
  else
    bind_outcome (HasCheckpoint (usub blockNumber 1) n) (λ n found,
      if negb found then
        fails (WithContext "expectedCheckpoint" (CtxInt (usub blockNumber 1))
          (WithRetryInfo false 0 (WithBlockNumber blockNumber
          (NewConsensusError now ErrCheckpointNotFound ErrorCategoryPermanent
             ("missing checkpoint for block " +:+ pretty (usub blockNumber 1)))))) n
      else
        bind_outcome
          (handle_error renv now now (WithContext "lastHeight" (CtxInt last)
             (WithBlockNumber blockNumber (NewConsensusError now ErrStateInconsistency
                ErrorCategoryState "block number gap detected"))) n)
          (λ n r, match r with Err e => fails e n | Ok _ => Returns n (Ok ()) end)).

(** The two epoch steps; [None]: a panic.  The manager's returns no error,
    that of DPoS is only logged. *)
Definition process_epochs (env : block_env) (blockNumber : Z) (n : HybridConsensus) :
    option HybridConsensus :=
  vm ← ValMgr.ProcessEpoch pow wild_uint (be_vm env) (be_clock env) blockNumber (hc_vm n)
         (hc_core n);
  let d := hy_dpos (hc_core n) in
  '(d, _) ← DPoS.ProcessEpoch pow (be_dpos1 env (validators d)) (be_dpos2 env (validators d))
              (be_clock env) blockNumber d;
  Some (with_core (with_dpos d (hc_core n)) (with_vm vm n)).

(** Producing the block, once more after a recovery. *)
Definition produce_or_recover (env : block_env) (renv : recover_env) (blockNumber : Z)
    (id : bytes32) (n : HybridConsensus) : outcome (result go_error Block) :=
  let now := be_clock env in
  match produceBlock now now blockNumber id n with
  | (n, Ok b) => Returns n (Ok b)
  | (n, Err err) =>
      let cerr := block_error now err ErrBlockCreationFailed ErrorCategoryTemporary
                    "failed to produce block" blockNumber (Some id) true (2 * second) in
      bind_outcome (handle_error renv now now cerr n) (λ n r,
        match r with
        | Err e => Returns n (Err e)
        | Ok _ =>
            match produceBlock now now blockNumber id n with
            | (n, Ok b) => Returns n (Ok b)
            | (n, Err err) => Returns n
                (Err (block_error now err ErrBlockCreationFailed ErrorCategoryPermanent
                        "failed to produce block after recovery" blockNumber (Some id) false 0))
            end
        end)
  end.

(** From the serialisation on: hash, height, checkpoint. *)
Definition finish_block (env : block_env) (blockNumber : Z) (block : Block)
    (n : HybridConsensus) : outcome (result go_error ()) :=
  let now := be_clock env in
  match marshal_block block (slice_events (node_dag n) (blk_Events block)) with
  | None => fails (block_error now (PlainError "failed to marshal") ErrStateInconsistency
                     ErrorCategoryTemporary "failed to serialize block" blockNumber None true
                     second) n
  | Some data =>
      let n := on_chain (λ c, set_height blockNumber (set_hash (sha256 data) c)) n in
      bind_outcome
        (if blockNumber mod checkpoint_interval =? 0 then createCheckpoint now blockNumber n
         else Returns n None)
        (λ n r,
           let n := match r with
                    | None => n
                    | Some e => trackError (block_error now e ErrCheckpointCreationFailed
                        ErrorCategoryTemporary "failed to create checkpoint" blockNumber None true
                        (5 * second)) n
                    end in
           let n := match last (default [] (blk_Events block)) with
                    | None => n
                    | Some ev => with_core (with_finalized_height (ev_height (node_dag n) ev)
                                              (hc_core n)) n
                    end in
           Returns n (Ok ()))
  end.

Definition ProcessBlock (env : block_env) (renv : recover_env) (blockNumber : Z)
    (n : HybridConsensus) : outcome (result go_error ()) :=
  let now := be_clock env in
  if negb (ch_running (hc_chain n)) then
    fails (WithContext "state" (CtxString "stopped") (WithRetryInfo true second
      (WithBlockNumber blockNumber (NewConsensusError now ErrStateInconsistency
         ErrorCategoryTemporary "consensus is not running")))) n
  else
    bind_outcome (check_gap env renv blockNumber n) (λ n r,
    match r with
    | Err e => Returns n (Err e)
    | Ok _ =>
    match process_epochs env blockNumber n with
    | None => Panics
    | Some n =>
    match ValMgr.GetNextValidator blockNumber (lastBlockHash (hc_chain n)) (hc_core n) with
    | None => fails (WithRetryInfo true second (WithBlockNumber blockNumber
                (NewConsensusError now Errors.ErrValidatorNotFound ErrorCategoryTemporary
                   "no validator available for block creation"))) n
    | Some (id, _) =>
    bind_outcome (produce_or_recover env renv blockNumber id n) (λ n r,
    match r with
    | Err e => fails e n
    | Ok block =>
    match validateBlock block n with
    | Some e => fails (block_error now e ErrBlockValidationFailed ErrorCategoryTemporary
                  "block validation failed" blockNumber (Some id) true second) n
    | None =>
    match applyBlock env block n with
    | (n, Some e) => fails (block_error now e ErrBlockFinalizationFailed ErrorCategoryTemporary
                       "failed to apply block" blockNumber (Some id) true second) n
    | (n, None) => finish_block env blockNumber block n
    end end end) end end end).

(** One tick of the PoH worker. *)
Definition poh_tick (now : Z) (n : HybridConsensus) : HybridConsensus :=
  let d := clampDuration (GetTickDelay (hc_poh n)) minPoHDelay maxPoHDelay in
  with_poh (Tick now (SetTickDelay d (hc_poh n)).1) n.

(** One tick of the block worker: the counter of consecutive errors, and the
    recovery from the fifth on.  [timeout]: the block took too long; it still
    completes, unobserved. *)
Definition production_tick (env : block_env) (renv : recover_env) (timeout : bool)
    (errors : Z) (n : HybridConsensus) : outcome Z :=
  match ProcessBlock env renv (uadd (lastBlockHeight (hc_chain n)) 1) n with
  | Panics => Panics
  | Blocks n => Returns n (errors + 1) (* times out *)
  | Returns n r =>
      if timeout then Returns n (errors + 1)
      else
        match r with
        | Ok _ => Returns n 0
        | Err _ =>
            if 5 <=? errors + 1
            then bind_outcome (recoverFromError renv n) (λ n _, Returns n (errors + 1))
            else Returns n (errors + 1)
        end
  end.

(** ** State synchronisation *)

(** The checkpoint with the highest number among those not past the target,
    whatever the iteration order. *)
Definition latest_before (targetCount : Z) (order : list Z) (m : gmap Z Checkpoint) :
    option Checkpoint :=
  foldl (λ best k,
    match m !! k with
    | None => best
    | Some c =>
        if ck_PoHCount c <=? targetCount then
          match best with
          | None => Some c
          | Some b => if ck_BlockNumber b <? k then Some c else best
          end
        else best
    end) None order.

(** The replay of the finalized events; [None]: the listing did not end. *)
Fixpoint replay (envs : loc → fin_env) (evs : list loc) (n : HybridConsensus) :
    HybridConsensus * result go_error () :=
  match evs with
  | [] => (n, Ok ())
  | ev :: evs =>
      match FinalizeEvent (envs ev) ev n with
      | (n, Err e) => (n, Err (plain_wrap "failed to replay event: " e))
      | (n, Ok _) => replay envs evs n
      end
  end.

Definition SynchronizeState (env : recover_env) (envs : loc → fin_env) (fuel : nat)
    (order : gmap Z Checkpoint → list Z) (targetState : bytes32) (targetCount : Z)
    (n : HybridConsensus) : outcome (option (result go_error ())) :=
  match synchronize (re_now1 env) targetState targetCount n with
  | (n, Err _) => Returns n (Some (Err (PlainError "failed to synchronize PoH")))
  | (n, Ok _) =>
      ckpt_lock n
        (let m := ch_checkpoints (hc_chain n) in
         match latest_before targetCount (order m) m with
         | None => Returns n (Some (Err (PlainError "no valid checkpoint found for synchronization")))
         | Some ck =>
             match restore_lachesis env (ck_LachesisState ck) n with
             | (n, Err _) => Returns n (Some (Err (PlainError "failed to restore Lachesis state")))
             | (n, Ok _) =>
                 match restore_dpos env (ck_DPoSState ck) n with
                 | (n, Err _) => Returns n (Some (Err (PlainError "failed to restore DPoS state")))
                 | (n, Ok _) =>
                     match Flow.GetFinalizedEvents (node_dag n) fuel (ck_BlockNumber ck)
                             (lastBlockHeight (hc_chain n)) (hc_flow n) with
                     | None => Returns n None
                     | Some (Err _) => Returns n (Some (Err
                         (PlainError "failed to get finalized events for replay")))
                     | Some (Ok evs) =>
                         let '(n, r) := replay envs evs n in Returns n (Some r)
                     end
                 end
             end
         end)
  end.
End node.

Arguments Returns {A} n a.
Arguments Panics {A}.
Arguments Blocks {A} n.
