(* ===== verification/NodeProps.v ===== *)
(** * Properties of the hybrid consensus

    Creation and finalization of events and the invariant of the event flow,
    for the operations of Node.v: over any history, with the part that needs
    validation under a condition [V] that it was never disabled; the rest of the node is in NodeChain.v. *)
From Stdlib Require Import ZArith Lia SpecFloat.
From Stdlib Require Import Strings.Byte Strings.String.
From stdpp Require Import numbers prelude gmap strings relations sorting.
From S2P Require Import Prelude GoFloat Bytes Sha256 Maps Common PoH DPoS Dag DPoSState Voting.
From S2P Require Import Finalizer Gossip Lachesis Governance ValMgr Errors Recovery Batch Flow.
From S2P Require Import Node.
Open Scope Z_scope.

(** ** What tracking an error leaves alone *)

Lemma trackError_frame err n :
  let n' := trackError err n in
  hc_core n' = hc_core n ∧ hc_poh n' = hc_poh n ∧ hc_vm n' = hc_vm n ∧ hc_flow n' = hc_flow n ∧
  hc_batch n' = hc_batch n ∧ hc_cfg n' = hc_cfg n ∧
  ch_pending (hc_chain n') = ch_pending (hc_chain n) ∧
  ch_finalized (hc_chain n') = ch_finalized (hc_chain n) ∧
  lastBlockHeight (hc_chain n') = lastBlockHeight (hc_chain n) ∧
  lastBlockHash (hc_chain n') = lastBlockHash (hc_chain n).
Proof. by destruct err. Qed.

(** The vote of one finalization. *)
Definition vote1 (env : fin_env) (n : HybridConsensus) (e : Event) : bool :=
  vote (mkOrdered (lc_voting (hy_lachesis (hc_core n))) (fe_total1 env) (fe_active1 env))
    (node_dag n) e.
Definition vote2 (env : fin_env) (n : HybridConsensus) (e : Event) : bool :=
  vote (mkOrdered (lc_voting (hy_lachesis (hc_core n))) (fe_total2 env) (fe_active2 env))
    (node_dag n) e.

(** Whether an event that is not final yet is finalized now. *)
Definition accepts (env : fin_env) (n : HybridConsensus) (e : Event) : bool :=
  (verify_event e n || IsTestMode n) && Dag.IsActiveValidator (ev_Creator e) (node_dag n)
  && vote1 env n e
  && (IsFinalized (ev_ID e) (lc_finalizer (hy_lachesis (hc_core n))) || vote2 env n e).

Definition events_finalized (n : HybridConsensus) (id : bytes32) : option Z :=
  vi_EventsFinalized <$> vm_validators (hc_vm n) !! id.

Section finalizing.
Variable pow : f64 → f64 → f64.

(** Everything but the store, the validator manager, the error record, the
    list of finalized events and the finalized height. *)
Definition same_rest (n n' : HybridConsensus) : Prop :=
  hc_flow n' = hc_flow n ∧ hc_poh n' = hc_poh n ∧ hc_batch n' = hc_batch n ∧
  hc_cfg n' = hc_cfg n ∧ ch_pending (hc_chain n') = ch_pending (hc_chain n) ∧
  lastBlockHeight (hc_chain n') = lastBlockHeight (hc_chain n) ∧
  lastBlockHash (hc_chain n') = lastBlockHash (hc_chain n).

Lemma mark_idemp k d : mark_finalized k (mark_finalized k d) = mark_finalized k d.
Proof.
  unfold mark_finalized. cbn. f_equal. f_equal. apply map_eq. intros i.
  destruct (decide (i = k)) as [->|Hne]; [|by rewrite !lookup_alter_ne].
  rewrite !lookup_alter_eq. by destruct (objs (store d) !! k).
Qed.

(** A yes of Lachesis changes the finalizer, the store and the list of
    Lachesis; a no changes nothing. *)
Lemma ProcessEvent_spec oT1 oA1 oT2 oA2 ev l e : event_at (lc_dag l) ev = Some e →
  let yes := Dag.IsActiveValidator (ev_Creator e) (lc_dag l) &&
    vote (mkOrdered (lc_voting l) oT1 oA1) (lc_dag l) e &&
    (IsFinalized (ev_ID e) (lc_finalizer l) ||
     vote (mkOrdered (lc_voting l) oT2 oA2) (lc_dag l) e) in
  ∃ l', ProcessEvent oT1 oA1 oT2 oA2 ev l = Some (l', yes) ∧
    if yes then
      lc_dag l' = (if IsFinalized (ev_ID e) (lc_finalizer l) then lc_dag l
                   else mark_finalized ev (lc_dag l)) ∧
      lc_voting l' = lc_voting l
    else l' = l.
Proof.
  intros He. cbn zeta. unfold ProcessEvent. rewrite He. cbn [mbind option_bind].
  destruct (Dag.IsActiveValidator _ _); cbn [negb andb]; [|by exists l].
  destruct (vote (mkOrdered _ oT1 oA1) _ _); cbn [negb andb]; [|by exists l].
  unfold Finalize. rewrite He. cbn [mbind option_bind].
  destruct (IsFinalized (ev_ID e) (lc_finalizer l)) eqn:Hf; cbn [orb mbind option_bind].
  { eexists. split; [done|]. by destruct l. }
  destruct (vote (mkOrdered _ oT2 oA2) _ _); cbn [mbind option_bind].
  - unfold commit. rewrite Hf. cbn [mbind option_bind]. eexists. split; [done|]. done.
  - eexists. split; [done|]. by destruct l.
Qed.

Lemma reward_event_frame now e n :
  let n' := reward_event pow now e n in
  same_rest n n' ∧ hc_core n' = hc_core n ∧
  hc_vm n' = (RewardEventFinalization pow now (ev_Creator e) (hc_vm n)).1 ∧
  ch_finalized (hc_chain n') = ch_finalized (hc_chain n).
Proof.
  unfold reward_event. cbn zeta.
  destruct (RewardEventFinalization _ _ _ _) as [vm [[]|err]]; [by unfold same_rest; split_and!|].
  match goal with |- context [trackError ?err ?m] => pose proof (trackError_frame err m) as Hfr end.
  cbn zeta in Hfr. destruct Hfr as (F1 & F2 & F3 & F4 & F5 & F6 & F7 & F8 & F9 & F10).
  unfold same_rest. by split_and!.
Qed.

Lemma commit_event_frame now ev e n :
  let n' := commit_event pow now ev e n in
  same_rest n n' ∧ hy_dpos (hc_core n') = hy_dpos (hc_core n) ∧
  node_dag n' = mark_finalized ev (node_dag n) ∧
  hc_vm n' = (RewardEventFinalization pow now (ev_Creator e) (hc_vm n)).1 ∧
  hy_height (hc_core n') = ev_Height e ∧
  ch_finalized (hc_chain n') =
    (let h := lastBlockHeight (hc_chain n) in
     <[h := default [] (ch_finalized (hc_chain n) !! h) ++ [ev]]> (ch_finalized (hc_chain n))).
Proof.
  unfold commit_event. cbn zeta.
  destruct (reward_event_frame now e (record_final ev e n))
    as ((F1 & F2 & F3 & F4 & F5 & F6 & F7) & F8 & F9 & F10).
  unfold same_rest, node_dag. rewrite F8. by split_and!.
Qed.

(** The whole effect of finalizing an event that is not final yet. *)
Lemma FinalizeEvent_spec env ev n e :
  event_at (node_dag n) ev = Some e → ev_Finalized e = false →
  let '(n', r) := FinalizeEvent pow env ev n in
  same_rest n n' ∧ hy_dpos (hc_core n') = hy_dpos (hc_core n) ∧
  if accepts env n e then
    r = Ok true ∧ node_dag n' = mark_finalized ev (node_dag n) ∧
    hc_vm n' = (RewardEventFinalization pow (fe_now env) (ev_Creator e) (hc_vm n)).1 ∧
    hy_height (hc_core n') = ev_Height e ∧
    ch_finalized (hc_chain n') =
      (let h := lastBlockHeight (hc_chain n) in
       <[h := default [] (ch_finalized (hc_chain n) !! h) ++ [ev]]> (ch_finalized (hc_chain n)))
  else
    r ≠ Ok true ∧ node_dag n' = node_dag n ∧ hc_vm n' = hc_vm n ∧
    hy_height (hc_core n') = hy_height (hc_core n) ∧
    ch_finalized (hc_chain n') = ch_finalized (hc_chain n).
Proof.
  intros He Hnf. unfold FinalizeEvent. rewrite He, Hnf. unfold accepts.
  destruct (verify_event e n || IsTestMode n) eqn:Hv; cbn [andb].
  2: { apply orb_false_iff in Hv as [-> ->]. cbn [negb andb].
    match goal with |- context [trackError ?err n] => pose proof (trackError_frame err n) as Hfr end.
    destruct Hfr as (F1 & F2 & F3 & F4 & F5 & F6 & F7 & F8 & F9 & F10).
    unfold same_rest, node_dag. rewrite F1, F3. by split_and!. }
  assert (negb (verify_event e n) && negb (IsTestMode n) = false) as ->.
  { destruct (verify_event e n), (IsTestMode n); done. }
  destruct (ProcessEvent_spec (fe_total1 env) (fe_active1 env) (fe_total2 env) (fe_active2 env) ev
    (hy_lachesis (hc_core n)) e He) as (l' & -> & Hl').
  fold (node_dag n) in *. fold (vote1 env n e) (vote2 env n e) in *.
  destruct (Dag.IsActiveValidator _ _ && vote1 env n e && _).
  2: { subst l'. unfold same_rest, node_dag. by split_and!. }
  destruct Hl' as [Hd _].
  destruct (commit_event_frame (fe_now env) ev e (with_node_lachesis l' n))
    as (Hs & Hp & Hg & Hvm & Hh & Hfin).
  split; [exact Hs|]. split; [exact Hp|]. split_and!; [done| |exact Hvm|exact Hh|exact Hfin].
  rewrite Hg. change (node_dag (with_node_lachesis l' n)) with (lc_dag l'). rewrite Hd.
  case_match; [done|apply mark_idemp].
Qed.
End finalizing.

(** ** The maps of the event flow *)

(** The store only grows: events keep their identifier and their flag. *)
Definition evolves (d d' : DAG) : Prop :=
  ∀ k e, event_at d k = Some e → ∃ e', event_at d' k = Some e' ∧ ev_ID e' = ev_ID e ∧
    (ev_Finalized e = true → ev_Finalized e' = true).

#[export] Instance evolves_preorder : PreOrder evolves.
Proof.
  split; [intros d k e He; by exists e|].
  intros a b c Hab Hbc k e He. destruct (Hab k e He) as (x & Hx & Hid & Hf).
  destruct (Hbc k x Hx) as (y & Hy & Hid' & Hf'). exists y. split_and!; [done|congruence|auto].
Qed.

Definition store_ok (d d' : DAG) : Prop := heap_fresh (store d') ∧ evolves d d'.

Lemma grows_ok d d' : heap_fresh (store d) → heap_grows d d' → store_ok d d'.
Proof.
  intros Hf Hg. destruct (Hg Hf) as [Hf' Hgr]. split; [done|]. intros k e He.
  destruct (Hgr k e He) as (e' & He' & Hs). exists e'.
  destruct (same_event_core _ _ Hs) as (Hid & _). split_and!; [done|done|]. by destruct Hs as [->| ->].
Qed.

Lemma mark_ok k d : heap_fresh (store d) → store_ok d (mark_finalized k d).
Proof. intros Hf. apply grows_ok; [done|apply mark_grows]. Qed.

Lemma write_event_at f ev d k :
  event_at (write_event f ev d) k = if decide (k = ev) then f <$> event_at d k else event_at d k.
Proof.
  unfold event_at, write_event. cbn. case_decide as Hk; [subst; by rewrite lookup_alter_eq|].
  by rewrite lookup_alter_ne.
Qed.

Lemma set_poh_ok s c p ev d : heap_fresh (store d) →
  store_ok d (write_event (set_poh s c p) ev d).
Proof.
  intros Hf. split.
  - intros l. cbn. rewrite lookup_alter_is_Some. apply Hf.
  - intros k e He. rewrite write_event_at, He. case_decide; [by exists (set_poh s c p e)|by exists e].
Qed.

(** The maps; [V]: validation was never disabled. *)
Record flow_inv (V : Prop) (d : DAG) (f : EventFlowManager) : Prop := {
  fi_store : heap_fresh (store d);
  fi_pending : ∀ id l, fl_pending f !! id = Some l →
    ∃ e, event_at d l = Some e ∧ ev_ID e = id;
  fi_finalized : ∀ id l, fl_finalized f !! id = Some l →
    ∃ e, event_at d l = Some e ∧ ev_ID e = id ∧ ev_Finalized e = true;
  fi_created : ∀ id, is_Some (fl_created f !! id) → is_Some (fl_pending f !! id);
  fi_disjoint : V → ∀ id, is_Some (fl_pending f !! id) → fl_finalized f !! id = None;
  fi_validation : V → enableValidation (fl_config f) = true }.

Definition node_inv (V : Prop) (n : HybridConsensus) : Prop :=
  flow_inv V (node_dag n) (hc_flow n).

(** A change of metrics, retry counters and other settings; finalized events
    may be dropped. *)
Definition same_maps (f f' : EventFlowManager) : Prop :=
  fl_pending f' = fl_pending f ∧
  (∀ id l, fl_finalized f' !! id = Some l → fl_finalized f !! id = Some l) ∧
  (∀ id, is_Some (fl_created f' !! id) → is_Some (fl_created f !! id)) ∧
  enableValidation (fl_config f') = enableValidation (fl_config f).

Lemma flow_inv_keep V d d' f f' :
  flow_inv V d f → store_ok d d' → same_maps f f' → flow_inv V d' f'.
Proof.
  intros [H1 H2 H3 H4 H5 H6] [Hw Hev] (M1 & M2 & M3 & M4).
  split; rewrite ?M1, ?M4; [done| | | | |done].
  - intros id l Hl. destruct (H2 id l Hl) as (e & He & Hid).
    destruct (Hev l e He) as (e' & He' & Hid' & _). exists e'. split; [done|congruence].
  - intros id l Hl. destruct (H3 id l (M2 id l Hl)) as (e & He & Hid & Hf).
    destruct (Hev l e He) as (e' & He' & Hid' & Hf'). exists e'. split_and!; [done|congruence|auto].
  - intros id Hid. apply H4, M3, Hid.
  - intros HV id Hid. specialize (H5 HV id Hid).
    destruct (fl_finalized f' !! id) as [l|] eqn:Hl; [|done]. rewrite (M2 id l Hl) in H5. done.
Qed.

Lemma same_maps_refl f : same_maps f f.
Proof. by unfold same_maps; split_and!. Qed.

Lemma increment_same name f : same_maps f (incrementMetric name f).
Proof.
  destruct (incrementMetric_frame name f) as (F1 & F2 & _ & F4 & _ & F6).
  unfold same_maps. rewrite F1, F2, F4, F6. by split_and!.
Qed.

(** Cleaning drops finalized events only. *)
Lemma clean_same d h : ∀ f0 acc, same_maps f0 acc.1 → same_maps f0 (clean_height d acc h).1.
Proof.
  intros f0 [f r] Hf. unfold clean_height. cbn [fst] in *. destruct (fl_byHeight f !! h) as [l|]; [|done].
  assert (∀ a, same_maps f0 a.1 → same_maps f0 (foldl (forget_event d) a l).1) as Hfold.
  { induction l as [|ev l IH]; intros [g k] Hg; [done|]. cbn [foldl]. apply IH.
    unfold forget_event. destruct (event_at d ev) as [e|]; [|done].
    destruct (ev_Finalized e); [|done]. destruct Hg as (G1 & G2 & G3 & G4).
    split_and!; [done| | |done].
    - intros id k'. cbn. rewrite lookup_delete_Some. intros [_ Hk]. by apply G2.
    - intros id [t Ht]. apply G3. cbn in Ht. apply lookup_delete_Some in Ht as [_ Ht]. by eexists. }
  specialize (Hfold (f, r) Hf). by destruct (foldl _ _ _) as [g k].
Qed.

Lemma CleanupOldEvents_same d maxHeight f : same_maps f (CleanupOldEvents d maxHeight f).1.
Proof.
  unfold CleanupOldEvents. generalize (seqZ 0 maxHeight). intros hs.
  assert (∀ acc, same_maps f acc.1 → same_maps f (foldl (clean_height d) acc hs).1) as H.
  { induction hs as [|h hs IH]; intros acc Hacc; [done|]. cbn [foldl]. by apply IH, clean_same. }
  apply H, same_maps_refl.
Qed.

(** Tracking an event; with validation its identifier is not final yet. *)
Lemma track_inv V d f now ev e : flow_inv V d f → event_at d ev = Some e →
  (V → fl_finalized f !! ev_ID e = None) → flow_inv V d (track_event now ev e f).
Proof.
  intros [H1 H2 H3 H4 H5 H6] He Hf. split; cbn; [done| |done| | |done].
  - intros id l. rewrite lookup_insert_Some. intros [[<- <-]|[_ Hl]]; [by exists e|auto].
  - intros id Hid. destruct (decide (id = ev_ID e)) as [->|Hne];
      [rewrite lookup_insert_eq; by eexists|]. rewrite lookup_insert_ne in Hid by done.
    rewrite lookup_insert_ne by done. auto.
  - intros HV id. destruct (decide (id = ev_ID e)) as [->|Hne]; [auto|].
    rewrite lookup_insert_ne by done. auto.
Qed.

(** Moving a finalized event. *)
Lemma book_inv V d f now ev e : flow_inv V d f → event_at d ev = Some e → ev_Finalized e = true →
  flow_inv V d (book_finalized now ev e f).
Proof.
  intros [H1 H2 H3 H4 H5 H6] He Hfin. unfold book_finalized.
  match goal with |- flow_inv V d (incrementMetric ?name ?g) =>
    apply (flow_inv_keep V d d g); [|by split|apply increment_same] end.
  split; cbn; [done| | | | |done].
  - intros id l. rewrite lookup_delete_Some. intros [_ Hl]. auto.
  - intros id l. rewrite lookup_insert_Some. intros [[<- <-]|[_ Hl]]; [by exists e|auto].
  - intros id [t Ht]. apply lookup_delete_Some in Ht as [Hne Ht].
    rewrite lookup_delete_ne by done. apply H4. by eexists.
  - intros HV id [l Hl]. apply lookup_delete_Some in Hl as [Hne Hl].
    rewrite lookup_insert_ne by done. apply (H5 HV). by eexists.
Qed.

(** The store after a creation in Lachesis. *)
Lemma Lachesis_CreateEvent_grows now creator ps data l :
  heap_grows (lc_dag l) (lc_dag (Lachesis.CreateEvent now creator ps data l).1).
Proof.
  pose proof (NewEvent_grows now creator ps data (lc_dag l)) as He.
  unfold Lachesis.CreateEvent. by destruct (NewEvent _ _ _ _ _) as [d [k|e]].
Qed.

(** The store of Lachesis under any of its own operations. *)
Lemma process_loop_grows oA oT evs : ∀ l,
  heap_grows (lc_dag l) (lc_dag (process_loop oA oT evs l)).
Proof.
  induction evs as [|ev evs IH]; intros l; [done|]. cbn [process_loop].
  destruct (event_at (lc_dag l) ev) as [e|]; [|apply IH].
  destruct (detectFinality _ _ e l); [|apply IH].
  match goal with |- heap_grows _ (lc_dag (process_loop _ _ _ ?m)) => specialize (IH m) end.
  exact (transitivity (mark_grows ev (lc_dag l)) IH).
Qed.

Lemma lachesis_step_grows wild l l' : lachesis_step wild l l' → heap_grows (lc_dag l) (lc_dag l').
Proof.
  destruct 1 as [| | | | | |oT1 oA1 oT2 oA2 ev l l' b Hp| | | |id cur new l|l|l|
    |now order id l t g d Ht|]; try done.
  - apply AddNode_grows.
  - apply heap_grows_store. cbn. unfold Dag.UpdateNodeStake. by case_match.
  - apply Lachesis_CreateEvent_grows.
  - destruct (event_at (lc_dag l) ev) as [e|] eqn:He;
      [|unfold ProcessEvent in Hp; by rewrite He in Hp].
    destruct (ProcessEvent_spec oT1 oA1 oT2 oA2 ev l e He) as (l1 & Hp1 & Hl1).
    rewrite Hp1 in Hp. injection Hp as -> <-. destruct (_ && _); [|by subst].
    destruct Hl1 as [-> _]. case_match; [done|apply mark_grows].
  - apply process_loop_grows.
  - unfold UpdateProposalState. by case_match.
  - unfold Lachesis.Start. by case_match.
  - unfold Lachesis.Stop. by case_match.
  - by eapply gossip_turn_grows.
  - by eapply alloc_grows.
Qed.

(** ** Steps of the event flow *)

(** An event that is final and still pending. *)
Definition stuck (n : HybridConsensus) (id : bytes32) (evs : loc) : Prop :=
  fl_pending (hc_flow n) !! id = Some evs ∧
  ∃ e, event_at (node_dag n) evs = Some e ∧ ev_ID e = id ∧ ev_Finalized e = true.

Section steps.
Variable pow : f64 → f64 → f64.
Variable V : Prop.
Variable id : bytes32.
Variable evs : loc.

(** What a step does: the invariant and the store are kept and, with
    validation and under a condition, the event [evs] stays stuck under
    [id]. *)
Definition good_if (C : Prop) (n n' : HybridConsensus) : Prop :=
  node_inv V n → node_inv V n' ∧ store_ok (node_dag n) (node_dag n') ∧
  (V → C → stuck n id evs → stuck n' id evs).
Definition good_step (n n' : HybridConsensus) : Prop := ∀ C, good_if C n n'.

Lemma good_refl n : good_step n n.
Proof. intros C Hi. split_and!; [done|split; [apply Hi|done]|done]. Qed.

Lemma good_if_trans C a b c : good_if C a b → good_if C b c → good_if C a c.
Proof.
  intros Hab Hbc Ha. destruct (Hab Ha) as (Hb & [Hwb Heb] & Hsb).
  destruct (Hbc Hb) as (Hc & [Hwc Hec] & Hsc). split_and!; [done| |auto].
  split; [done|by etrans].
Qed.

Lemma good_trans a b c : good_step a b → good_step b c → good_step a c.
Proof. intros Hab Hbc C. by eapply good_if_trans. Qed.

Lemma good_maps n n' : (heap_fresh (store (node_dag n)) → store_ok (node_dag n) (node_dag n')) →
  same_maps (hc_flow n) (hc_flow n') → good_step n n'.
Proof.
  intros Hs Hm C Hi. specialize (Hs (fi_store _ _ _ Hi)). split_and!; [|done|].
  - exact (flow_inv_keep _ _ _ _ _ Hi Hs Hm).
  - intros _ _ [Hp (e & He & Hid & Hf)]. destruct (proj2 Hs evs e He) as (e' & He' & Hid' & Hf').
    destruct Hm as (M1 & _). split; [by rewrite M1|]. exists e'. split_and!; [done|congruence|auto].
Qed.

Lemma good_flow n f : same_maps (hc_flow n) f → good_step n (with_flow f n).
Proof. intros Hm. by apply good_maps. Qed.

Lemma good_metric name n : good_step n (on_flow (incrementMetric name) n).
Proof. apply good_flow, increment_same. Qed.

(** A yes leaves the event final. *)
Lemma FinalizeEvent_good env ev n :
  let '(n', r) := FinalizeEvent pow env ev n in
  good_step n n' ∧ hc_flow n' = hc_flow n ∧
  (r = Ok true → ∃ e e', event_at (node_dag n) ev = Some e ∧ event_at (node_dag n') ev = Some e' ∧
     ev_ID e' = ev_ID e ∧ ev_Finalized e' = true).
Proof.
  destruct (event_at (node_dag n) ev) as [e|] eqn:He.
  2: { unfold FinalizeEvent. rewrite He.
    match goal with |- context [trackError ?err n] => pose proof (trackError_frame err n) as Hfr end.
    destruct Hfr as (F1 & _ & _ & F4 & _). split_and!; [|done|done].
    apply good_maps; [|rewrite F4; apply same_maps_refl]. intros Hw. unfold node_dag. rewrite F1.
    by split. }
  destruct (ev_Finalized e) eqn:Hf.
  { unfold FinalizeEvent. rewrite He, Hf. split_and!; [apply good_refl|done|]. intros _. by exists e, e. }
  pose proof (FinalizeEvent_spec pow env ev n e He Hf) as Hs.
  destruct (FinalizeEvent pow env ev n) as [n' r]. destruct Hs as ((Hfl & _) & _ & Hs).
  assert (same_maps (hc_flow n) (hc_flow n')) as Hm by (rewrite Hfl; apply same_maps_refl).
  destruct (accepts env n e).
  - destruct Hs as (-> & Hd & _). split_and!; [|done|].
    + apply good_maps; [|done]. rewrite Hd. apply mark_ok.
    + intros _. exists e, (set_Finalized e). by rewrite Hd, mark_event_at, decide_True, He.
  - destruct Hs as (Hr & Hd & _). split_and!; [|done|done].
    apply good_maps; [|done]. rewrite Hd. intros Hw. by split.
Qed.

(** Booking a final event; the stuck one must be another. *)
Lemma handle_good now1 now2 ev n e : event_at (node_dag n) ev = Some e → ev_Finalized e = true →
  good_if (ev_ID e ≠ id) n (handleFinalizedEvent pow now1 now2 ev n).
Proof.
  intros He Hf Hi. unfold handleFinalizedEvent. rewrite He. split_and!.
  - exact (book_inv _ _ _ now1 ev e Hi He Hf).
  - split; [apply Hi|done].
  - intros _ Hne [Hp Hx]. split; [|exact Hx]. cbn. unfold book_finalized.
    match goal with |- fl_pending (incrementMetric ?name ?g) !! _ = _ =>
      destruct (incrementMetric_frame name g) as (-> & _) end.
    cbn. by rewrite lookup_delete_ne.
Qed.

Lemma retry_good ev n : good_step n (on_retry ev n).
Proof. unfold on_retry. destruct (event_at _ _); [by apply good_flow|apply good_refl]. Qed.

Definition other_id (n : HybridConsensus) (ev : loc) : Prop :=
  ∃ e, event_at (node_dag n) ev = Some e ∧ ev_ID e ≠ id.

Lemma other_id_evolves n n' ev : evolves (node_dag n) (node_dag n') → other_id n ev → other_id n' ev.
Proof.
  intros Hev (e & He & Hne). destruct (Hev ev e He) as (e' & He' & Hid & _).
  exists e'. split; [done|congruence].
Qed.

(** Finalizing and booking. *)
Lemma finalize_book_good env now1 now2 ev n :
  let '(n', r) := FinalizeEvent pow env ev n in
  r = Ok true → good_if (other_id n ev) n (handleFinalizedEvent pow now1 now2 ev n').
Proof.
  pose proof (FinalizeEvent_good env ev n) as Hg.
  destruct (FinalizeEvent pow env ev n) as [n' r]. destruct Hg as (Hg & _ & Hok).
  intros ->. destruct (Hok eq_refl) as (e & e' & He & He' & Hid & Hf).
  eapply good_if_trans; [apply Hg|].
  pose proof (handle_good now1 now2 ev n' e' He' Hf) as Hh. intros Hi.
  destruct (Hh Hi) as (H1 & H2 & H3). split_and!; [done|done|].
  intros HV (x & Hx & Hne). apply (H3 HV). congruence.
Qed.

(** The goroutine of another event. *)
Lemma goroutine_good env now1 now2 timeout ev n :
  good_if (other_id n ev) n (finalizeEvent pow env now1 now2 timeout ev n).
Proof.
  unfold finalizeEvent. destruct timeout.
  { eapply good_if_trans; [apply good_metric|apply retry_good]. }
  pose proof (FinalizeEvent_good env ev n) as Hg.
  pose proof (finalize_book_good env now1 now2 ev n) as Hb.
  destruct (FinalizeEvent pow env ev n) as [n' r]. destruct Hg as (Hg & _).
  assert (good_step n (on_flow (incrementMetric "eventRetries") (on_retry ev n'))) as Hretry.
  { eapply good_trans; [exact Hg|]. eapply good_trans; [apply retry_good|apply good_metric]. }
  by destruct r as [[|]|err]; [apply Hb|apply Hretry|apply Hretry].
Qed.

(** One event of a round: it is the stuck one, which is skipped, or has
    another identifier. *)
Definition apart (n : HybridConsensus) (ev : loc) : Prop := ev = evs ∨ other_id n ev.

Lemma pending_step_good envs now1 now2 n c ev :
  good_if (apart n ev) n (pending_step pow envs now1 now2 (n, c) ev).1.
Proof.
  unfold pending_step. destruct c as [p f].
  destruct (event_at (node_dag n) ev) as [e|] eqn:He; [|by apply good_refl].
  destruct (ev_Finalized e) eqn:Hf; [by apply good_refl|].
  case_match; [by apply good_refl|].
  pose proof (FinalizeEvent_good (envs ev) ev n) as Hg.
  pose proof (finalize_book_good (envs ev) (now1 ev) (now2 ev) ev n) as Hb.
  destruct (FinalizeEvent pow (envs ev) ev n) as [n' r]. destruct Hg as (Hg & _).
  destruct r as [[|]|err]; [|apply Hg|apply Hg].
  intros Hi. destruct (Hb eq_refl Hi) as (H1 & H2 & H3). split_and!; [done|done|].
  intros HV [->|Ho] Hst; [|by apply H3]. exfalso. destruct Hst as [_ (e' & He' & _ & Hf')]. congruence.
Qed.

Lemma pending_fold_good envs now1 now2 l : ∀ n c,
  good_if (Forall (apart n) l) n (foldl (pending_step pow envs now1 now2) (n, c) l).1.
Proof.
  induction l as [|ev l IH]; intros n c; [apply good_refl|]. cbn [foldl].
  pose proof (pending_step_good envs now1 now2 n c ev) as Hs.
  destruct (pending_step pow envs now1 now2 (n, c) ev) as [n1 c1]. cbn [fst] in Hs.
  specialize (IH n1 c1). intros Hi. destruct (Hs Hi) as (Hi1 & Hst1 & Hk1).
  destruct (IH Hi1) as (Hi2 & Hst2 & Hk2). split_and!; [done| |].
  - destruct Hst1 as [_ He1], Hst2 as [Hw2 He2]. split; [done|by etrans].
  - intros HV [Hev Hl]%Forall_cons Hst. apply Hk2; [done| |by apply Hk1].
    eapply Forall_impl; [exact Hl|]. intros x [->|Ho]; [by left|right].
    exact (other_id_evolves n n1 x (proj2 Hst1) Ho).
Qed.

Lemma foldl_concat {A B} (f : A → B → A) (ls : list (list B)) : ∀ a,
  foldl (foldl f) a ls = foldl f a (concat ls).
Proof. induction ls as [|l ls IH]; intros a; [done|]. cbn. by rewrite IH, foldl_app. Qed.

(** A round of the worker. *)
Lemma round_good order envs now1 now2 elapsed n : 0 < batchSize (fl_config (hc_flow n)) →
  good_step n (flow_processPendingEvents pow order envs now1 now2 elapsed n).
Proof.
  intros Hb C Hi. unfold flow_processPendingEvents.
  set (l := sort_slice (height_before (node_dag n)) (Flow.GetPendingEvents order (hc_flow n))).
  rewrite foldl_concat, concat_chunks by lia.
  pose proof (pending_fold_good envs now1 now2 l n (0, 0)) as Hf.
  destruct (foldl _ (n, (0, 0)) l) as [n' [p f]]. destruct (Hf Hi) as (Hi' & Hs & Hk).
  assert (good_step n' (on_flow (book_round elapsed (Z.of_nat (length l)) p f) n')) as Hbook
    by by apply good_flow.
  destruct (Hbook C Hi') as (Hi2 & Hs2 & Hk2).
  split_and!; [done| |].
  - destruct Hs as [_ He1], Hs2 as [Hw2 He2]. split; [done|by etrans].
  - intros HV HC Hst. apply Hk2; [done..|]. apply Hk; [done| |done]. apply Forall_forall. intros x Hx.
    unfold l in Hx. rewrite (sort_slice_perm _ _) in Hx.
    apply list_elem_of_omap in Hx as (i & _ & Hix).
    destruct (fi_pending _ _ _ Hi i x Hix) as (e & He & Hid).
    destruct (decide (i = id)) as [->|Hne]; [left; destruct Hst; congruence|].
    right. exists e. split; [done|congruence].
Qed.

(** *** Validation, tracking and creation *)

(** Nil means that the event exists, its creator is active in the validator
    manager, its proof of history verifies and both maps are free of it; an
    error changes the metrics at most. *)
Lemma ValidateEvent_spec now ev n :
  let '(n', r) := ValidateEvent now ev n in
  hc_core n' = hc_core n ∧ same_maps (hc_flow n) (hc_flow n') ∧
  (r = None → n' = n ∧ ∃ e, event_at (node_dag n) ev = Some e ∧
     ValMgr.IsActiveValidator (ev_Creator e) (hc_vm n) = true ∧ verify_event e n = true ∧
     fl_pending (hc_flow n) !! ev_ID e = None ∧ fl_finalized (hc_flow n) !! ev_ID e = None).
Proof.
  unfold ValidateEvent. pose proof (same_maps_refl (hc_flow n)) as Hr.
  destruct (event_at (node_dag n) ev) as [e|] eqn:He; [|by split_and!].
  destruct (ValMgr.IsActiveValidator _ _) eqn:Ha; cbn [negb]; [|by split_and!].
  destruct (verify_event e n) eqn:Hv; cbn [negb]; [|by split_and!].
  destruct (fl_pending (hc_flow n) !! ev_ID e) as [k|] eqn:Hp.
  { cbn. split_and!; [done|apply increment_same|done]. }
  destruct (fl_finalized (hc_flow n) !! ev_ID e) as [k|] eqn:Hf; cbn [fmap option_fmap option_map].
  { cbn. split_and!; [done|apply increment_same|done]. }
  destruct (_ =? zero_time); [by split_and!|]. destruct (_ <? _); [by split_and!|].
  split_and!; [done|done|]. intros _. split; [done|]. by exists e.
Qed.

Lemma ValidateEvent_good now ev n : good_step n (ValidateEvent now ev n).1.
Proof.
  pose proof (ValidateEvent_spec now ev n) as Hs. destruct (ValidateEvent now ev n) as [n' r].
  destruct Hs as (Hc & Hm & _). apply good_maps; [|done]. intros Hw. unfold node_dag.
  cbn [fst]. rewrite Hc. by split.
Qed.

Lemma track_good now ev e n : event_at (node_dag n) ev = Some e →
  (V → fl_pending (hc_flow n) !! ev_ID e = None ∧ fl_finalized (hc_flow n) !! ev_ID e = None) →
  good_step n (on_flow (track_event now ev e) n).
Proof.
  intros He Hnew C Hi. split_and!.
  - apply track_inv; [exact Hi|exact He|apply Hnew].
  - split; [apply Hi|done].
  - intros HV _ [Hs Hx]. destruct (Hnew HV) as [Hp _]. split; [|exact Hx]. cbn.
    rewrite lookup_insert_ne; [done|congruence].
Qed.

Lemma partition_step_good now1 now2 n ev : node_inv V n →
  good_step n (partition_step now1 now2 n ev).
Proof.
  intros Hi. unfold partition_step.
  destruct (event_at (node_dag n) ev) as [e|] eqn:He; [|apply good_refl].
  destruct (ev_Finalized e); [apply good_refl|].
  destruct (enableValidation (fl_config (hc_flow n))) eqn:Hv.
  2: { apply track_good; [done|]. intros HV. pose proof (fi_validation _ _ _ Hi HV). congruence. }
  pose proof (ValidateEvent_spec (now1 ev) ev n) as Hs.
  pose proof (ValidateEvent_good (now1 ev) ev n) as Hg.
  destruct (ValidateEvent (now1 ev) ev n) as [n' [err|]]; cbn [fst] in Hg.
  - case_match; [exact Hg|]. eapply good_trans; [exact Hg|apply good_metric].
  - destruct Hs as (_ & _ & Hok). destruct (Hok eq_refl) as (-> & e' & He' & _ & _ & Hp & Hf).
    replace e' with e in * by congruence. by apply track_good.
Qed.

Lemma new_event_good l p s c h ev n : heap_grows (node_dag n) (lc_dag l) →
  good_step n (with_node_dag (write_event (set_poh s c h) ev (lc_dag l))
    (with_poh p (with_node_lachesis l n))).
Proof.
  intros Hl. apply good_maps; [|apply same_maps_refl]. intros Hw.
  destruct (grows_ok _ _ Hw Hl) as [Hw1 He1].
  destruct (set_poh_ok s c h ev (lc_dag l) Hw1) as [Hw2 He2].
  split; [exact Hw2|]. exact (transitivity He1 He2).
Qed.

(** Tracking a new event that passed validation, or without it. *)
Lemma created_good now ev n : node_inv V n →
  (V → ∀ e, event_at (node_dag n) ev = Some e →
     fl_pending (hc_flow n) !! ev_ID e = None ∧ fl_finalized (hc_flow n) !! ev_ID e = None) →
  good_step n (match event_at (node_dag n) ev with
    | None => n
    | Some e => on_flow (incrementMetric "totalEventsCreated") (on_flow (track_event now ev e) n)
    end).
Proof.
  intros Hi Hnew. destruct (event_at (node_dag n) ev) as [e|] eqn:He; [|apply good_refl].
  eapply good_trans; [apply track_good; [done|]|apply good_metric]. intros HV. by apply Hnew.
Qed.

Lemma flow_CreateEvent_good env creator ps data n : node_inv V n →
  good_step n (flow_CreateEvent env creator ps data n).1.
Proof.
  intros Hi. unfold flow_CreateEvent.
  destruct (negb _); [apply good_refl|]. destruct (_ <=? _); [apply good_refl|].
  pose proof (Lachesis_CreateEvent_grows (ce_event env) creator ps data
    (hy_lachesis (hc_core n))) as Hl.
  destruct (Lachesis.CreateEvent _ _ _ _ _) as [l [ev|]]; cbn [fst] in Hl.
  2: { apply (good_trans _ (with_node_lachesis l n)); [|apply good_metric].
    apply good_maps; [|apply same_maps_refl]. intros Hw. by apply grows_ok. }
  destruct (Record_ (ce_poh env) data _) as [p h].
  pose proof (new_event_good l p (PoH.GetState (hc_poh (with_node_lachesis l n)))
    (GetCount (hc_poh (with_node_lachesis l n))) h ev n Hl) as Hn.
  change (node_dag (with_poh p (with_node_lachesis l n))) with (lc_dag l).
  set (n1 := with_node_dag _ _) in *. cbn zeta.
  destruct (Hn True Hi) as [Hi1 _].
  pose proof (created_good (ce_track env) ev n1 Hi1) as Htr.
  destruct (enableValidation (fl_config (hc_flow n1))) eqn:Hen.
  2: { eapply good_trans; [exact Hn|].
    assert (V → False) as HnV by (intros HV; pose proof (fi_validation _ _ _ Hi1 HV); congruence).
    specialize (Htr ltac:(by intros HV; destruct (HnV HV))). by destruct (event_at (node_dag n1) ev). }
  pose proof (ValidateEvent_spec (ce_validate env) ev n1) as Hs.
  pose proof (ValidateEvent_good (ce_validate env) ev n1) as Hg.
  destruct (ValidateEvent (ce_validate env) ev n1) as [n' [err|]]; cbn [fst] in Hg.
  - clear Htr.
    assert (good_step n (on_flow (incrementMetric "eventValidationErrors") n')) as Hf
      by (eapply good_trans; [exact Hn|eapply good_trans; [exact Hg|apply good_metric]]).
    case_bool_decide; [|exact Hf]. case_match; [|exact Hf]. case_match; [|exact Hf].
    eapply good_trans; [exact Hn|exact Hg].
  - destruct Hs as (_ & _ & Hok). destruct (Hok eq_refl) as (-> & e & He & _ & _ & Hp & Hf).
    eapply good_trans; [exact Hn|]. rewrite He in Htr |- *. apply Htr.
    by intros _ ? [= <-].
Qed.

(** A step that keeps the flow and the store. *)
Lemma good_same n n' : hc_flow n' = hc_flow n → store (node_dag n') = store (node_dag n) →
  good_step n n'.
Proof.
  intros Hf Hd. apply good_maps; [intros Hw; by apply grows_ok, heap_grows_store|].
  rewrite Hf. apply same_maps_refl.
Qed.

Lemma CreateEvent_good now env creator ps data n : node_inv V n →
  good_step n (CreateEvent now env creator ps data n).1.
Proof.
  intros Hi. unfold CreateEvent.
  assert (∀ err m, good_step m (trackError err m)) as Ht.
  { intros err m. destruct (trackError_frame err m) as (F1 & _ & _ & F4 & _).
    apply good_same; [done|]. unfold node_dag. by rewrite F1. }
  destruct (negb _); [apply Ht|].
  pose proof (flow_CreateEvent_good env creator ps data n Hi) as Hg.
  destruct (flow_CreateEvent env creator ps data n) as [n' [ev|err]]; cbn [fst] in *.
  - eapply good_trans; [exact Hg|]. case_match; [by apply good_same|apply good_refl].
  - eapply good_trans; [exact Hg|apply Ht].
Qed.

(** *** The other operations *)

Lemma partition_good now1 now2 events n n' : node_inv V n →
  HandleNetworkPartition now1 now2 events n = Some n' → good_step n n'.
Proof.
  unfold HandleNetworkPartition. destruct (forallb _ _); [|done]. intros Hi [= <-].
  generalize (sort_slice (height_before (node_dag n)) (sort_slice (height_before (node_dag n)) events)).
  intros l. revert n Hi. induction l as [|ev l IH]; intros n Hi; [apply good_refl|]. cbn [foldl].
  pose proof (partition_step_good now1 now2 n ev Hi) as Hg.
  eapply good_trans; [exact Hg|]. apply IH. by apply (Hg True).
Qed.

Lemma lachesis_good l n : heap_grows (node_dag n) (lc_dag l) → good_step n (with_node_lachesis l n).
Proof.
  intros Hg. apply good_maps; [|apply same_maps_refl]. intros Hw. by apply grows_ok.
Qed.

Lemma new_objects_good es n : good_step n (new_objects es n).2.
Proof.
  unfold new_objects. destruct (alloc_list es (store (node_dag n))) as [ls h] eqn:Ha.
  apply good_maps; [|apply same_maps_refl]. intros Hw. apply grows_ok; [done|].
  apply (alloc_list_grows es). by rewrite Ha.
Qed.
End steps.

(** ** Runs of the event flow *)

Section runs.
Variable pow : f64 → f64 → f64.
Variable wild : f64 → Z.
(** The values [EnableValidation] is called with. *)
Variable valid : bool → Prop.
(** For which events a goroutine [finalizeEvent] may end. *)
Variable allowed : HybridConsensus → loc → Prop.

(** One step of the system as the event flow sees it.  The steps of the other
    components change neither the flow nor the event store; Lachesis adds and
    marks events, and its [RestoreState] rebuilds the DAG from any bytes; a
    caller may make event objects of any content.  A round with a batch size
    that is not positive does not come to an end in the code. *)
Inductive flow_step : HybridConsensus → HybridConsensus → Prop :=
| fs_CreateEvent now env creator ps data n :
    flow_step n (CreateEvent now env creator ps data n).1
| fs_FinalizeEvent env ev n : flow_step n (FinalizeEvent pow env ev n).1
| fs_finalizeEvent env now1 now2 timeout ev n : allowed n ev →
    flow_step n (finalizeEvent pow env now1 now2 timeout ev n)
| fs_round order envs now1 now2 elapsed n : 0 < batchSize (fl_config (hc_flow n)) →
    flow_step n (flow_processPendingEvents pow order envs now1 now2 elapsed n)
| fs_objects es n : flow_step n (new_objects es n).2
| fs_partition now1 now2 events n n' : HandleNetworkPartition now1 now2 events n = Some n' →
    flow_step n n'
| fs_cleanup maxHeight n :
    flow_step n (on_flow (λ f, (CleanupOldEvents (node_dag n) maxHeight f).1) n)
| fs_timeout d n : flow_step n (on_flow (SetFinalizationTimeout d) n)
| fs_max k n : flow_step n (on_flow (SetMaxPendingEvents k) n)
| fs_batch k n : flow_step n (on_flow (SetBatchSize k) n)
| fs_dedup b n : flow_step n (on_flow (EnableDeduplication b) n)
| fs_validation b n : valid b → flow_step n (on_flow (EnableValidation b) n)
| fs_retries k n : flow_step n (on_flow (SetMaxRetries k) n)
| fs_adaptive b n : flow_step n (on_flow (λ f, (EnableAdaptiveBatching b f).1) n)
| fs_adjust n : flow_step n (on_flow (adjustBatchSize wild) n)
| fs_lachesis l n : lachesis_step wild (hy_lachesis (hc_core n)) l →
    flow_step n (with_node_lachesis l n)
| fs_restore c o data n :
    flow_step n (with_node_lachesis (Lachesis.RestoreState c o data (hy_lachesis (hc_core n))).1 n)
| fs_other n n' : hc_flow n' = hc_flow n → store (node_dag n') = store (node_dag n) →
    flow_step n n'.

(** A call that disables validation is excluded by [V]. *)
Lemma set_validation_good b id evs C n : valid b →
  good_if (¬ valid false) id evs C n (on_flow (EnableValidation b) n).
Proof.
  intros Hb [H1 H2 H3 H4 H5 H6]. split_and!; [|by split|done].
  split; cbn; [exact H1|exact H2|exact H3|exact H4|exact H5|]. intros HV. by destruct b.
Qed.

Lemma flow_step_good id evs n n' : flow_step n n' →
  good_if (¬ valid false) id evs (∀ m ev, allowed m ev → other_id id m ev) n n'.
Proof.
  assert (∀ f m, same_maps (hc_flow m) (f (hc_flow m)) →
    good_if (¬ valid false) id evs (∀ m ev, allowed m ev → other_id id m ev) m (on_flow f m)) as Hflow.
  { intros f m Hm. by apply good_flow. }
  assert (∀ c f, enableValidation c = enableValidation (fl_config f) →
    same_maps f (with_fconfig c f)) as Hcfg by by (intros; unfold same_maps; split_and!).
  destruct 1.
  - intros Hi. by apply CreateEvent_good.
  - pose proof (FinalizeEvent_good pow (¬ valid false) id evs env ev n) as Hg.
    destruct (FinalizeEvent pow env ev n). apply Hg.
  - intros Hi.
    destruct (goroutine_good pow (¬ valid false) id evs env now1 now2 timeout ev n Hi) as (H1 & H2 & H3).
    split_and!; [done|done|]. intros HV HC. by apply H3, HC.
  - by apply round_good.
  - apply new_objects_good.
  - intros Hi. by eapply partition_good.
  - apply Hflow, CleanupOldEvents_same.
  - apply Hflow. unfold SetFinalizationTimeout. case_match; [by apply Hcfg|apply same_maps_refl].
  - apply Hflow. unfold SetMaxPendingEvents. case_match; [by apply Hcfg|apply same_maps_refl].
  - apply Hflow. unfold SetBatchSize. case_match; [by apply Hcfg|apply same_maps_refl].
  - apply Hflow. by apply Hcfg.
  - by apply set_validation_good.
  - apply Hflow. unfold SetMaxRetries. case_match; [by apply Hcfg|apply same_maps_refl].
  - apply Hflow. by apply Hcfg.
  - apply Hflow. unfold adjustBatchSize. repeat case_match; first [by apply Hcfg|apply same_maps_refl].
  - by apply lachesis_good, (lachesis_step_grows wild).
  - apply lachesis_good, RestoreState_grows.
  - by apply good_same.
Qed.

Lemma new_node_inv now order cfg : node_inv (¬ valid false) (NewHybridConsensusWithConfig now order wild cfg).
Proof.
  split; [exact (dw_fresh _ (proj1 (NewLachesis_inv (cf_GossipDelay (valid_config cfg)))))| | | |intros _|done];
    cbn; intros id; rewrite ?lookup_empty; try done; intros [? Hx]; by rewrite lookup_empty in Hx.
Qed.

Lemma flow_run_inv n n' : node_inv (¬ valid false) n → star flow_step n n' →
  node_inv (¬ valid false) n'.
Proof.
  intros Hi Hrun. refine (star_invariant _ (node_inv (¬ valid false)) _ _ _ Hi Hrun).
  intros a b Ha Hs. exact (proj1 (flow_step_good initialState 1%positive a b Hs Ha)).
Qed.
End runs.

(** * Properties of the event flow *)


(** an event that is already final when the flow comes to it -- finalized by Lachesis itself, or
    by a finalization that completed after the flow's timeout -- stays in the pending map for ever:
    whatever the node does with validation enabled, the worker's rounds and the cleanups included,
    it is never moved to the finalized events and goes on counting against the limit of pending
    events, unless a finalization goroutine for the same identifier is still to end. *)
Theorem finalized_elsewhere_stays_pending pow wild now order cfg n n' id evs :
  star (flow_step pow wild (λ b, b = true) (λ _ _, True))
    (NewHybridConsensusWithConfig now order wild cfg) n →
  fl_pending (hc_flow n) !! id = Some evs →
  (∃ e, event_at (node_dag n) evs = Some e ∧ ev_Finalized e = true) →
  star (flow_step pow wild (λ b, b = true) (other_id id)) n n' →
  fl_pending (hc_flow n') !! id = Some evs ∧ fl_finalized (hc_flow n') !! id = None ∧
  (1 ≤ size (fl_pending (hc_flow n')))%nat.
Proof.
  intros Hrun Hp (e & He & Hf) Hrun'. assert (¬ (λ b, b = true) false) as HV by done.
  pose proof (flow_run_inv pow wild _ _ _ _ (new_node_inv wild _ now order cfg) Hrun) as Hi.
  destruct (fi_pending _ _ _ Hi id evs Hp) as (e' & He' & Hid).
  assert (stuck n id evs) as Hst by (split; [done|]; exists e'; split_and!; congruence).
  assert (node_inv (¬ (λ b, b = true) false) n' ∧ stuck n' id evs) as [Hi' [Hp' _]].
  { refine (star_invariant _ (λ m, node_inv _ m ∧ stuck m id evs) _ _ _ (conj Hi Hst) Hrun').
    intros a b [Ha Hsa] Hs.
    destruct (flow_step_good pow wild _ _ id evs a b Hs Ha) as (Hb & _ & Hk). auto. }
  split_and!; [done|by apply (fi_disjoint _ _ _ Hi' HV); eexists|].
  destruct (size _) eqn:Hz; [|lia]. apply map_size_empty_iff in Hz. by rewrite Hz in Hp'.
Qed.

(** * Creation and rewards *)

(** The event a creation adds to the store, before its proof of history. *)
Definition fresh_event (env : create_env) (creator : bytes32) (ps : list bytes32)
    (data : list byte) (n : HybridConsensus) : Event :=
  build_event (ce_event env) creator ps data (node_dag n).

(** A creation that passes every test but the proof of history: an active
    creator, room, a new identifier, a sensible clock and payload, and a PoH
    far from its bounds. *)
Record creatable (env : create_env) (creator : bytes32) (ps : list bytes32) (data : list byte)
    (n : HybridConsensus) : Prop := {
  cr_valid : enableValidation (fl_config (hc_flow n)) = true;
  cr_active : ValMgr.IsActiveValidator creator (hc_vm n) = true;
  cr_node : Dag.IsActiveValidator creator (node_dag n) = true;
  cr_room : Z.of_nat (size (fl_pending (hc_flow n))) < maxPendingEvents (fl_config (hc_flow n));
  cr_pending : fl_pending (hc_flow n) !! ev_ID (fresh_event env creator ps data n) = None;
  cr_finalized : fl_finalized (hc_flow n) !! ev_ID (fresh_event env creator ps data n) = None;
  cr_time : ce_event env ≠ zero_time ∧ ce_event env ≤ ce_validate env + 5 * second;
  cr_data : data ≠ [] ∧ Z.of_nat (length data) ≤ 1048576;
  cr_state : state (hc_poh n) ≠ zero32;
  cr_count : 0 ≤ count (hc_poh n) ∧ count (hc_poh n) + 10002 < 2 ^ 63;
  cr_drift : 0 ≤ PoHDriftTolerance (hc_cfg n) < 2 ^ 63 ∧
    (IsTestMode n = true → 2 ≤ PoHDriftTolerance (hc_cfg n)) }.

(** The proof the event carries, taken after the tick that recording may do. *)
Definition recorded_proof (env : create_env) (data : list byte) (n : HybridConsensus) : bytes32 :=
  sha256 (b32 (state (tickLocked (ce_poh env) (hc_poh n))) ++ data).

(** It verifies against the state read before. *)
Definition proof_holds (env : create_env) (data : list byte) (n : HybridConsensus) : bool :=
  bool_decide (sha256 (b32 (state (hc_poh n)) ++ data) = recorded_proof env data n).

Lemma tickLocked_count now p : 0 ≤ count p → count p + 2 < 2 ^ 63 →
  count (tickLocked now p) = count p ∨ count (tickLocked now p) = count p + 1.
Proof.
  intros H0 H1. unfold tickLocked. case_match; [by left|right]. cbn. unfold uadd.
  apply u64_small. unfold is_u64. lia.
Qed.

(** The drift test passes right after recording. *)
Lemma in_drift st data proof c n p : 0 ≤ c → c + 10002 < 2 ^ 63 →
  0 ≤ PoHDriftTolerance (hc_cfg n) < 2 ^ 63 →
  (IsTestMode n = true → 2 ≤ PoHDriftTolerance (hc_cfg n)) →
  hc_poh n = p → count p = c + 1 ∨ count p = c + 2 →
  verifyPoHWithDrift st data proof c n = Verify st data proof c p.
Proof.
  intros H0 H1 Ht Htest <- Hc. unfold verifyPoHWithDrift, GetCount.
  set (t := PoHDriftTolerance (hc_cfg n)) in *.
  destruct (IsTestMode n).
  - specialize (Htest eq_refl).
    rewrite (i64_small c), (i64_small (count (hc_poh n))), (i64_small t) by (unfold is_i64; lia).
    rewrite (i64_small (c - count (hc_poh n))) by (unfold is_i64; lia).
    rewrite (proj2 (Z.ltb_lt (c - count (hc_poh n)) 0)) by lia.
    rewrite i64_small by (unfold is_i64; lia).
    by rewrite (proj2 (Z.leb_le _ _)) by lia.
  - unfold uadd. rewrite u64_small by (unfold is_u64; lia).
    by rewrite (proj2 (Z.leb_le _ _)) by lia.
Qed.

(** The proof of a new event verifies exactly when the tick changed
    nothing. *)
Lemma verify_new env creator ps data n n' e : creatable env creator ps data n →
  hc_poh n' = (Record_ (ce_poh env) data (hc_poh n)).1 → hc_cfg n' = hc_cfg n →
  ev_PoHState e = state (hc_poh n) → ev_PoHCount e = count (hc_poh n) → ev_Data e = data →
  ev_PoHProof e = recorded_proof env data n →
  verify_event e n' = proof_holds env data n.
Proof.
  intros H Hp Hc H1 H2 H3 H4. unfold verify_event. rewrite H1, H2, H3, H4.
  destruct (cr_count _ _ _ _ _ H) as [C0 C1]. destruct (cr_drift _ _ _ _ _ H) as [D0 D1].
  destruct (tickLocked_count (ce_poh env) (hc_poh n) C0 ltac:(lia)) as [Ht|Ht];
    (assert (count (hc_poh n') = u64 (count (tickLocked (ce_poh env) (hc_poh n)) + 1)) as Hcn
      by (by rewrite Hp)); rewrite Ht, u64_small in Hcn by (unfold is_u64; lia).
  all: rewrite (in_drift _ _ _ _ n' _ C0 C1 ltac:(by rewrite Hc)
    ltac:(unfold IsTestMode in *; by rewrite Hc) eq_refl) by lia.
  all: unfold Verify; destruct (cr_data _ _ _ _ _ H) as [Dn Dl].
  all: rewrite (proj2 (Z.ltb_ge _ _)) by lia; unfold uadd.
  all: rewrite u64_small by (unfold is_u64; lia); rewrite (proj2 (Z.ltb_ge _ _)) by lia.
  all: rewrite decide_False by apply (cr_state _ _ _ _ _ H); by destruct data.
Qed.

(** The Lachesis call of a creation. *)
Lemma Lachesis_CreateEvent_ok now creator ps data l :
  Dag.IsActiveValidator creator (lc_dag l) = true →
  let e := build_event now creator ps data (lc_dag l) in
  ∃ l' ev, Lachesis.CreateEvent now creator ps data l = (l', Some ev) ∧
    event_at (lc_dag l') ev = Some e ∧ Events (lc_dag l') !! ev_ID e = Some ev.
Proof.
  unfold Dag.IsActiveValidator. intros Ha. unfold Lachesis.CreateEvent, NewEvent.
  destruct (Nodes (lc_dag l) !! creator) as [nd|]; [|done]. rewrite Ha. cbn [negb].
  set (e := build_event _ _ _ _ _). unfold add_event, alloc.
  eexists _, _. split; [done|]. unfold event_at. cbn. by rewrite !lookup_insert_eq.
Qed.

(** Without a duplicate and with a sensible clock, validation is the test of
    the creator and of the proof. *)
Lemma ValidateEvent_fresh now ev n e : event_at (node_dag n) ev = Some e →
  ValMgr.IsActiveValidator (ev_Creator e) (hc_vm n) = true →
  fl_pending (hc_flow n) !! ev_ID e = None → fl_finalized (hc_flow n) !! ev_ID e = None →
  ev_Timestamp e ≠ zero_time → ev_Timestamp e ≤ now + 5 * second →
  ∃ r, ValidateEvent now ev n = (n, r) ∧ (r = None ↔ verify_event e n = true).
Proof.
  intros He Ha Hp Hf Ht Hn. unfold ValidateEvent. rewrite He, Ha, Hp, Hf. cbn [negb].
  destruct (verify_event e n); cbn [negb]; [|by eexists].
  rewrite (proj2 (Z.eqb_neq _ _) Ht), (proj2 (Z.ltb_ge _ _) Hn). by eexists.
Qed.

Lemma incr_pending name f : fl_pending (incrementMetric name f) = fl_pending f.
Proof. apply incrementMetric_frame. Qed.
Lemma incr_created name f : fl_created (incrementMetric name f) = fl_created f.
Proof. apply incrementMetric_frame. Qed.

(** The creation by the event flow. *)
Lemma flow_CreateEvent_spec env creator ps data n : creatable env creator ps data n →
  let e := set_poh (state (hc_poh n)) (count (hc_poh n)) (recorded_proof env data n)
             (fresh_event env creator ps data n) in
  ∃ ev, let '(n', r) := flow_CreateEvent env creator ps data n in
  hc_poh n' = (Record_ (ce_poh env) data (hc_poh n)).1 ∧ hc_batch n' = hc_batch n ∧
  event_at (node_dag n') ev = Some e ∧ Events (node_dag n') !! ev_ID e = Some ev ∧
  if proof_holds env data n then
    r = Ok ev ∧ fl_pending (hc_flow n') = <[ev_ID e := ev]> (fl_pending (hc_flow n)) ∧
    fl_created (hc_flow n') = <[ev_ID e := ce_track env]> (fl_created (hc_flow n))
  else
    (∃ err, r = Err err) ∧ fl_pending (hc_flow n') = fl_pending (hc_flow n) ∧
    fl_created (hc_flow n') = fl_created (hc_flow n).
Proof.
  intros H. set (e0 := fresh_event env creator ps data n). intros e.
  destruct (Lachesis_CreateEvent_ok (ce_event env) creator ps data (hy_lachesis (hc_core n))
    (cr_node _ _ _ _ _ H)) as (l & ev & Hl & Hev & Hin).
  change (build_event _ _ _ _ _) with e0 in Hev, Hin. exists ev.
  unfold flow_CreateEvent. rewrite (cr_active _ _ _ _ _ H). cbn [negb].
  rewrite (proj2 (Z.leb_gt _ _) (cr_room _ _ _ _ _ H)), Hl.
  change (Record_ (ce_poh env) data (hc_poh (with_node_lachesis l n)))
    with (Record_ (ce_poh env) data (hc_poh n)).
  destruct (Record_ (ce_poh env) data (hc_poh n)) as [p h] eqn:Hrec.
  assert (h = recorded_proof env data n) as -> by (by injection Hrec).
  change (node_dag (with_poh p (with_node_lachesis l n))) with (lc_dag l). cbn zeta.
  match goal with |- context [with_node_dag ?d ?m] => set (n1 := with_node_dag d m) end.
  assert (event_at (node_dag n1) ev = Some e) as He.
  { change (node_dag n1) with (write_event (set_poh (state (hc_poh n)) (count (hc_poh n))
      (recorded_proof env data n)) ev (lc_dag l)).
    by rewrite write_event_at, decide_True, Hev. }
  assert (verify_event e n1 = proof_holds env data n) as Hv.
  { apply (verify_new env creator ps data n n1 e H); try done. by rewrite Hrec. }
  change (fl_config (hc_flow n1)) with (fl_config (hc_flow n)).
  rewrite (cr_valid _ _ _ _ _ H).
  destruct (ValidateEvent_fresh (ce_validate env) ev n1 e He (cr_active _ _ _ _ _ H)
    (cr_pending _ _ _ _ _ H) (cr_finalized _ _ _ _ _ H) (proj1 (cr_time _ _ _ _ _ H))
    (proj2 (cr_time _ _ _ _ _ H))) as (r & -> & Hr). rewrite Hv in Hr.
  destruct r as [err|].
  - destruct (proof_holds env data n); [by destruct Hr as [_ Hr]; specialize (Hr eq_refl)|].
    assert (GetEventByID (ev_ID e) (hc_flow n1) = None) as Hg.
    { unfold GetEventByID. change (hc_flow n1) with (hc_flow n).
      change (ev_ID e) with (ev_ID (fresh_event env creator ps data n)).
      by rewrite (cr_pending _ _ _ _ _ H), (cr_finalized _ _ _ _ _ H). }
    rewrite He, Hg. case_bool_decide; cbn [hc_flow on_flow with_flow];
      rewrite incr_pending, incr_created; split_and!; try done; by eexists.
  - destruct (proof_holds env data n); [|by destruct Hr as [Hr _]; specialize (Hr eq_refl)].
    rewrite He. cbn [hc_flow on_flow with_flow]. rewrite incr_pending, incr_created. by split_and!.
Qed.

(** creating an event.  Every other test passing, the answer depends on
    the tick alone: the PoH state is read before [Record], which may tick
    first and then hashes the ticked state.  When no tick is due the event
    is stored with a verifying proof, tracked as pending and queued for
    batching.  When the tick changed the hash the creation fails -- yet the
    event stays in the DAG and the PoH has advanced. *)
Theorem CreateEvent_correct now env creator ps data n : creatable env creator ps data n →
  let e := set_poh (state (hc_poh n)) (count (hc_poh n)) (recorded_proof env data n)
             (fresh_event env creator ps data n) in
  (time_sub (ce_poh env) (lastTick (hc_poh n)) < tickDelay (hc_poh n) →
     proof_holds env data n = true) ∧
  ∃ ev, let '(n', r) := CreateEvent now env creator ps data n in
  hc_poh n' = (Record_ (ce_poh env) data (hc_poh n)).1 ∧
  event_at (node_dag n') ev = Some e ∧ Events (node_dag n') !! ev_ID e = Some ev ∧
  if proof_holds env data n then
    r = Some ev ∧ fl_pending (hc_flow n') = <[ev_ID e := ev]> (fl_pending (hc_flow n)) ∧
    fl_created (hc_flow n') = <[ev_ID e := ce_track env]> (fl_created (hc_flow n)) ∧
    hc_batch n' = (AddEvent ev e (hc_batch n)).1
  else
    r = None ∧ fl_pending (hc_flow n') = fl_pending (hc_flow n) ∧
    fl_created (hc_flow n') = fl_created (hc_flow n) ∧ hc_batch n' = hc_batch n.
Proof.
  intros H e. split.
  { intros Ht. unfold proof_holds, recorded_proof, tickLocked.
    rewrite (proj2 (Z.ltb_lt _ _) Ht). by apply bool_decide_eq_true. }
  destruct (flow_CreateEvent_spec env creator ps data n H) as (ev & Hs). exists ev.
  unfold CreateEvent. rewrite (cr_active _ _ _ _ _ H). cbn [negb]. fold e in Hs.
  destruct (flow_CreateEvent env creator ps data n) as [n' r].
  destruct Hs as (Hp & Hb & He & Hin & Hr).
  destruct (proof_holds env data n).
  - destruct Hr as (-> & Hpe & Hc). rewrite He. split_and!; try done. cbn. by rewrite Hb.
  - destruct Hr as ([err ->] & Hpe & Hc).
    match goal with |- context [trackError ?x n'] => destruct (trackError_frame x n')
      as (F1 & F2 & _ & F4 & F5 & _) end.
    unfold node_dag in *. rewrite F1, F2, F4, F5. by split_and!.
Qed.

(** One reward counts one event. *)
Lemma reward_count pow now id vm k : vi_EventsFinalized <$> vm_validators vm !! id = Some k →
  vi_EventsFinalized <$> vm_validators (RewardEventFinalization pow now id vm).1 !! id
    = Some (uadd k 1).
Proof.
  intros Hk. unfold RewardEventFinalization. destruct (vm_validators vm !! id) as [v|]; [|done].
  injection Hk as <-. cbn. by rewrite lookup_insert_eq.
Qed.

(** Finalizing and booking one event. *)
Lemma finalize_book pow env now1 now2 ev n e k :
  event_at (node_dag n) ev = Some e → ev_Finalized e = false → accepts env n e = true →
  events_finalized n (ev_Creator e) = Some k →
  let '(n1, r) := FinalizeEvent pow env ev n in
  let n2 := handleFinalizedEvent pow now1 now2 ev n1 in
  r = Ok true ∧ events_finalized n2 (ev_Creator e) = Some (uadd (uadd k 1) 1) ∧
  event_at (node_dag n2) ev = Some (set_Finalized e) ∧
  fl_pending (hc_flow n2) = delete (ev_ID e) (fl_pending (hc_flow n)) ∧
  fl_finalized (hc_flow n2) = <[ev_ID e := ev]> (fl_finalized (hc_flow n)).
Proof.
  intros He Hf Ha Hk. pose proof (FinalizeEvent_spec pow env ev n e He Hf) as Hs.
  destruct (FinalizeEvent pow env ev n) as [n1 r]. destruct Hs as ((Hfl & _) & _ & Hs).
  rewrite Ha in Hs. destruct Hs as (-> & Hd & Hvm & _). cbn zeta.
  assert (event_at (node_dag n1) ev = Some (set_Finalized e)) as He1
    by by rewrite Hd, mark_event_at, decide_True, He.
  unfold handleFinalizedEvent. rewrite He1. split_and!; [done| |exact He1| |].
  - unfold events_finalized. cbn [hc_vm with_vm on_flow with_flow].
    change (ev_Creator (set_Finalized e)) with (ev_Creator e). apply reward_count.
    rewrite Hvm. by apply reward_count.
  - cbn [hc_flow with_vm on_flow with_flow]. unfold book_finalized. rewrite incr_pending. cbn.
    by rewrite Hfl.
  - cbn [hc_flow with_vm on_flow with_flow]. unfold book_finalized.
    match goal with |- fl_finalized (incrementMetric ?name ?g) = _ =>
      destruct (incrementMetric_frame name g) as (_ & -> & _) end. cbn. by rewrite Hfl.
Qed.

(** C20: finalizing an event.  A final event is left alone.  Otherwise the
    answer is yes exactly when the proof of history verifies (or the node is
    in test mode), the creator is active in the DAG, the votes reach the
    threshold, and the finalizer knows the event or its own vote passes too;
    then the event is marked and listed under the current block, its height
    recorded and its creator rewarded.  On a no or an error store, rewards,
    list and height are unchanged. *)
Theorem FinalizeEvent_correct pow env ev n e : event_at (node_dag n) ev = Some e →
  let '(n', r) := FinalizeEvent pow env ev n in
  if ev_Finalized e then n' = n ∧ r = Ok true
  else if accepts env n e then
    r = Ok true ∧ node_dag n' = mark_finalized ev (node_dag n) ∧
    hc_vm n' = (RewardEventFinalization pow (fe_now env) (ev_Creator e) (hc_vm n)).1 ∧
    hy_height (hc_core n') = ev_Height e ∧
    ch_finalized (hc_chain n') =
      (let h := lastBlockHeight (hc_chain n) in
       <[h := default [] (ch_finalized (hc_chain n) !! h) ++ [ev]]> (ch_finalized (hc_chain n)))
  else
    r ≠ Ok true ∧ node_dag n' = node_dag n ∧ hc_vm n' = hc_vm n ∧
    hy_height (hc_core n') = hy_height (hc_core n) ∧
    ch_finalized (hc_chain n') = ch_finalized (hc_chain n).
Proof.
  intros He. destruct (ev_Finalized e) eqn:Hf.
  { unfold FinalizeEvent. by rewrite He, Hf. }
  pose proof (FinalizeEvent_spec pow env ev n e He Hf) as Hs.
  destruct (FinalizeEvent pow env ev n) as [n' r]. apply Hs.
Qed.

(** one event, two rewards.  When the goroutine of a new event, or the
    worker, finalizes it, the event moves from the pending to the finalized
    map and its creator's counter of finalized events grows by two: once in
    [FinalizeEvent], once in [handleFinalizedEvent]. *)
Theorem one_event_two_rewards pow env now1 now2 ev n e k c :
  event_at (node_dag n) ev = Some e → ev_Finalized e = false → accepts env n e = true →
  events_finalized n (ev_Creator e) = Some k →
  default 0 (fl_retry (hc_flow n) !! ev_ID e) < maxRetries (fl_config (hc_flow n)) →
  let n1 := finalizeEvent pow env now1 now2 false ev n in
  let n2 := (pending_step pow (λ _, env) (λ _, now1) (λ _, now2) (n, c) ev).1 in
  n2 = n1 ∧ events_finalized n1 (ev_Creator e) = Some (uadd (uadd k 1) 1) ∧
  event_at (node_dag n1) ev = Some (set_Finalized e) ∧
  fl_pending (hc_flow n1) = delete (ev_ID e) (fl_pending (hc_flow n)) ∧
  fl_finalized (hc_flow n1) = <[ev_ID e := ev]> (fl_finalized (hc_flow n)).
Proof.
  intros He Hf Ha Hk Hr. unfold finalizeEvent, pending_step. destruct c as [p f].
  rewrite He, Hf, (proj2 (Z.leb_gt _ _) Hr).
  pose proof (finalize_book pow env now1 now2 ev n e k He Hf Ha Hk) as Hs.
  destruct (FinalizeEvent pow env ev n) as [n1 r]. destruct Hs as (-> & Hs). by split.
Qed.


(** * A concrete node *)

Definition keys_of (m : gmap bytes32 Validator) : list bytes32 := (map_to_list m).*1.
Definition node0 : HybridConsensus :=
  NewHybridConsensusWithConfig 0 keys_of wild0 DefaultHybridConfig.
(** One validator joins, through the validator manager: its registry and
    DPoS change first, then Lachesis. *)
Definition joined : ValidatorManager * Hybrid :=
  default (hc_vm node0, hc_core node0)
    (run_ops pow1 wild1 any_order [ValMgr.OpAdd 1 1 1 node_a 100; OpActivate node_a]
       (hc_vm node0) (hc_core node0)).
Definition half_joined : HybridConsensus :=
  with_core (with_dpos (hy_dpos joined.2) (hc_core node0)) (with_vm joined.1 node0).
Definition node1 : HybridConsensus :=
  with_node_lachesis (Lachesis.AddNode node_a 100 (hy_lachesis (hc_core node0))) half_joined.
Definition cenv (t : Z) : create_env := mkCreateEnv t t t t.
Definition fenv (t : Z) : fin_env := mkFinEnv node_order node_order node_order node_order t.
Definition node2 : HybridConsensus := (CreateEvent 5 (cenv 5) node_a [] [x01] node1).1.
Definition node3 : HybridConsensus := (FinalizeEvent pow1 (fenv 6) 1%positive node2).1.

Example node1_joined : hc_core node1 = joined.2.
Proof. reflexivity. Qed.

(** The finalization started at the creation times out; it completes later. *)
Definition timed_out : HybridConsensus :=
  finalizeEvent pow1 (fenv 6) 6 6 true 1%positive node2.
Definition late : HybridConsensus := (FinalizeEvent pow1 (fenv 7) 1%positive timed_out).1.
(** Afterwards: a round of the worker, and a cleanup. *)
Definition worked : HybridConsensus :=
  flow_processPendingEvents pow1 [id1] (λ _, fenv 8) (λ _, 8) (λ _, 8) 1 late.
Definition cleaned : HybridConsensus :=
  on_flow (λ f, (CleanupOldEvents (node_dag worked) 5 f).1) worked.
(** Without the timeout. *)
Definition booked : HybridConsensus :=
  finalizeEvent pow1 (fenv 6) 6 6 false 1%positive node2.

Lemma node2_run valid : star (flow_step pow1 wild0 valid (λ _ _, True)) node0 node2.
Proof.
  apply (star_snoc _ _ node1); [|apply fs_CreateEvent].
  apply (star_snoc _ _ half_joined); [|by apply fs_lachesis, lr_AddNode].
  apply (star_snoc _ _ node0); [apply star_refl|by apply fs_other].
Qed.

Lemma late_run valid : star (flow_step pow1 wild0 valid (λ _ _, True)) node0 late.
Proof.
  apply (star_snoc _ _ timed_out); [|apply fs_FinalizeEvent].
  apply (star_snoc _ _ node2); [apply node2_run|by apply fs_finalizeEvent].
Qed.

Lemma cleaned_run valid : star (flow_step pow1 wild0 valid (other_id id1)) late cleaned.
Proof.
  apply (star_snoc _ _ worked); [|exact (fs_cleanup pow1 wild0 _ _ 5 worked)].
  apply (star_snoc _ _ late); [apply star_refl|]. apply fs_round. by vm_compute.
Qed.

Lemma booked_run valid : star (flow_step pow1 wild0 valid (λ _ _, True)) node0 booked.
Proof. apply (star_snoc _ _ node2); [apply node2_run|by apply fs_finalizeEvent]. Qed.



(** A copy of the finalized event, without the flag, arrives in a partition. *)
Definition copy1 : Event :=
  match event_at (node_dag node2) 1%positive with
  | Some e => e
  | None => build_event 0 node_a [] [] NewDAG
  end.
Definition with_copy : list loc * HybridConsensus := new_objects [copy1] booked.
Definition both : HybridConsensus :=
  default booked (HandleNetworkPartition (λ _, 8) (λ _, 8) with_copy.1
    (on_flow (EnableValidation false) with_copy.2)).

(** Without validation it is tracked again: its identifier is in both maps. *)
Example disabled_both :
  star (flow_step pow1 wild0 (λ _, True) (λ _ _, True)) node0 both ∧
  fl_finalized (hc_flow both) !! id1 = Some 1%positive ∧
  fl_pending (hc_flow both) !! id1 = Some 2%positive.
Proof.
  split; [|by vm_compute].
  apply (star_snoc _ _ (on_flow (EnableValidation false) with_copy.2)).
  2: { apply (fs_partition _ _ _ _ (λ _, 8) (λ _, 8) with_copy.1). unfold both.
    unfold HandleNetworkPartition.
    replace (forallb _ _) with true; [done|by vm_compute]. }
  apply (star_snoc _ _ with_copy.2); [|by apply fs_validation].
  apply (star_snoc _ _ booked); [apply booked_run|apply fs_objects].
Qed.

(** On a node that never saw it, the same object passes validation and is
    tracked, although its DAG does not know the event; a nil event panics. *)
Definition foreign : list loc * HybridConsensus := new_objects [copy1] node1.
Example foreign_tracked :
  (GetEventByID id1 ∘ hc_flow <$> HandleNetworkPartition (λ _, 8) (λ _, 8) foreign.1 foreign.2)
    = Some (Some 1%positive) ∧ Events (node_dag foreign.2) = ∅ ∧
  HandleNetworkPartition (λ _, 8) (λ _, 8) [7%positive] foreign.2 = None.
Proof. by vm_compute. Qed.

Lemma finalized_elsewhere_stays_pending_witness :
  GetPendingEvents [id1] (hc_flow cleaned) = [1%positive] ∧
  fl_pending (hc_flow cleaned) !! id1 = Some 1%positive ∧
  fl_finalized (hc_flow cleaned) !! id1 = None ∧ (1 ≤ size (fl_pending (hc_flow cleaned)))%nat.
Proof.
  split; [by vm_compute|].
  apply (finalized_elsewhere_stays_pending pow1 wild0 0 keys_of DefaultHybridConfig late cleaned id1
    1%positive (late_run _)); [by vm_compute| |apply cleaned_run].
  destruct (event_at (node_dag late) 1%positive) as [e|] eqn:He;
    [exists e; split; [done|]|by vm_compute in He].
  assert (ev_Finalized <$> event_at (node_dag late) 1%positive = Some true) as Hf by by vm_compute.
  rewrite He in Hf. by injection Hf.
Defined.

Lemma node_ev (n : HybridConsensus) ev (P : Event → bool) :
  from_option P false (event_at (node_dag n) ev) = true →
  ∃ e, event_at (node_dag n) ev = Some e ∧ P e = true.
Proof. destruct (event_at (node_dag n) ev) as [e|]; [by exists e|done]. Qed.

Lemma node1_creatable t : creatable (mkCreateEnv 5 t 5 5) node_a [] [x01] node1.
Proof.
  by split; vm_compute.
Qed.

(** On the same node: half a second after the last tick the creation
    succeeds, after two seconds it fails. *)
Lemma CreateEvent_correct_witness :
  (CreateEvent 5 (cenv 5) node_a [] [x01] node1).2 = Some 1%positive ∧
  proof_holds (mkCreateEnv 5 (2 * second) 5 5) [x01] node1 = false ∧
  ∃ ev, let '(n', r) := CreateEvent 5 (mkCreateEnv 5 (2 * second) 5 5) node_a [] [x01] node1 in
    r = None ∧ Events (node_dag n') !! id1 = Some ev ∧ GetCount (hc_poh n') = 2.
Proof.
  assert (proof_holds (mkCreateEnv 5 (2 * second) 5 5) [x01] node1 = false) as Hh by by vm_compute.
  split; [by vm_compute|]. split; [exact Hh|].
  destruct (CreateEvent_correct 5 _ node_a [] [x01] node1 (node1_creatable (2 * second)))
    as (_ & ev & Hs). exists ev.
  destruct (CreateEvent 5 (mkCreateEnv 5 (2 * second) 5 5) node_a [] [x01] node1) as [n' r].
  rewrite Hh in Hs. destruct Hs as (Hp & _ & Hin & -> & _).
  split; [done|]. split; [exact Hin|]. unfold GetCount. rewrite Hp. by vm_compute.
Defined.

Lemma FinalizeEvent_correct_witness :
  ∃ e, event_at (node_dag node2) 1%positive = Some e ∧
    let '(n', r) := FinalizeEvent pow1 (fenv 6) 1%positive node2 in
    r = Ok true ∧ node_dag n' = mark_finalized 1%positive (node_dag node2) ∧
    hy_height (hc_core n') = ev_Height e ∧ ch_finalized (hc_chain n') !! 0 = Some [1%positive].
Proof.
  destruct (node_ev node2 1%positive (λ e, negb (ev_Finalized e) && accepts (fenv 6) node2 e))
    as (e & He & Hb); [by vm_compute|].
  exists e. split; [exact He|].
  pose proof (FinalizeEvent_correct pow1 (fenv 6) 1%positive node2 e He) as Hs.
  destruct (FinalizeEvent pow1 (fenv 6) 1%positive node2) as [n' r].
  apply andb_true_iff in Hb as [Hf Ha]. apply negb_true_iff in Hf. rewrite Hf, Ha in Hs.
  destruct Hs as (-> & Hd & _ & Hh & Hl). split_and!; [done|exact Hd|exact Hh|].
  rewrite Hl. by vm_compute.
Defined.

Lemma one_event_two_rewards_witness :
  events_finalized node2 node_a = Some 0 ∧ events_finalized booked node_a = Some 2.
Proof.
  split; [by vm_compute|].
  destruct (node_ev node2 1%positive (λ e, negb (ev_Finalized e) && accepts (fenv 6) node2 e
    && bool_decide (ev_Creator e = node_a) && bool_decide (ev_ID e = id1)))
    as (e & He & Hb); [by vm_compute|].
  rewrite !andb_true_iff, negb_true_iff, !bool_decide_eq_true in Hb.
  destruct Hb as [[[Hf Ha] Hc] Hid].
  destruct (one_event_two_rewards pow1 (fenv 6) 6 6 1%positive node2 e 0 (0, 0) He Hf Ha)
    as (_ & Hk & _); [rewrite Hc; by vm_compute|rewrite Hid; by vm_compute|].
  rewrite Hc in Hk. exact Hk.
Defined.
