(* ===== verification/NodeChain.v ===== *)
(** * Blocks, checkpoints, recovery and life cycle of the hybrid consensus

    Properties of Node.v: what each operation does to the node's own fields,
    the outcomes of [ProcessBlock], the checkpoint lock, recovery and
    restart. *)
From Stdlib Require Import ZArith Lia SpecFloat.
From Stdlib Require Import Strings.Byte Strings.String.
From stdpp Require Import numbers prelude gmap strings relations sorting.
From S2P Require Import Prelude GoFloat Bytes Sha256 Maps Common PoH DPoS Dag DPoSState Voting.
From S2P Require Import Finalizer Gossip Lachesis Governance ValMgr Errors Recovery Batch Flow.
From S2P Require Import Node NodeProps.
Open Scope Z_scope.

(** ** Steps that leave the chain alone *)

(** Everything of the node's own fields but the list of finalized events and
    the error record; and the configuration. *)
Record calm (n n' : HybridConsensus) : Prop := {
  calm_cfg : hc_cfg n' = hc_cfg n;
  calm_height : lastBlockHeight (hc_chain n') = lastBlockHeight (hc_chain n);
  calm_hash : lastBlockHash (hc_chain n') = lastBlockHash (hc_chain n);
  calm_pending : ch_pending (hc_chain n') = ch_pending (hc_chain n);
  calm_checkpoints : ch_checkpoints (hc_chain n') = ch_checkpoints (hc_chain n);
  calm_last : lastCheckpoint (hc_chain n') = lastCheckpoint (hc_chain n);
  calm_locked : ch_ckptLocked (hc_chain n') = ch_ckptLocked (hc_chain n);
  calm_running : ch_running (hc_chain n') = ch_running (hc_chain n);
  calm_started : startDone (hc_chain n') = startDone (hc_chain n);
  calm_stopped : stopDone (hc_chain n') = stopDone (hc_chain n) }.

#[export] Instance calm_preorder : PreOrder calm.
Proof.
  split; [by split|]. intros a b c [] []. split; by etrans.
Qed.

Lemma calm_chain n n' : hc_cfg n' = hc_cfg n → hc_chain n' = hc_chain n → calm n n'.
Proof. intros Hc Hn. split; by rewrite ?Hn. Qed.

Lemma trackError_calm err n : calm n (trackError err n).
Proof. by destruct err. Qed.

Section operations.
Variable pow : f64 → f64 → f64.

Lemma reward_calm now e n : calm n (reward_event pow now e n).
Proof.
  unfold reward_event. destruct (RewardEventFinalization _ _ _ _) as [vm [[]|err]]; [by apply calm_chain|].
  etrans; [|apply trackError_calm]. by apply calm_chain.
Qed.

Lemma FinalizeEvent_calm env ev n : calm n (FinalizeEvent pow env ev n).1.
Proof.
  unfold FinalizeEvent. destruct (event_at (node_dag n) ev) as [e|]; [|apply trackError_calm].
  destruct (ev_Finalized e); [done|]. destruct (negb _ && negb _); [apply trackError_calm|].
  destruct (ProcessEvent _ _ _ _ _ _) as [[l [|]]|]; [|by apply calm_chain|done].
  unfold commit_event. etrans; [|apply reward_calm]. by split.
Qed.

Lemma ValidateEvent_calm now ev n : calm n (ValidateEvent now ev n).1.
Proof.
  unfold ValidateEvent. destruct (event_at _ _); [|done].
  destruct (negb _); [done|]. destruct (negb _); [done|].
  destruct (fl_pending _ !! _); [by apply calm_chain|].
  destruct (fl_finalized _ !! _); [by apply calm_chain|]. cbn [fmap option_fmap option_map].
  destruct (_ =? _); [done|]. by destruct (_ <? _).
Qed.

Lemma flow_CreateEvent_calm env creator ps data n :
  calm n (flow_CreateEvent env creator ps data n).1.
Proof.
  unfold flow_CreateEvent. destruct (negb _); [done|]. destruct (_ <=? _); [done|].
  destruct (Lachesis.CreateEvent _ _ _ _ _) as [l [ev|]]; [|by apply calm_chain].
  destruct (Record_ _ _ _) as [p h]. cbn zeta.
  match goal with |- context [with_node_dag ?d ?m] => set (n1 := with_node_dag d m) end.
  assert (calm n n1) as H1 by by apply calm_chain.
  destruct (enableValidation _).
  - pose proof (ValidateEvent_calm (ce_validate env) ev n1) as Hv.
    destruct (ValidateEvent _ ev n1) as [n2 [err|]]; cbn [fst] in Hv.
    + assert (calm n (on_flow (incrementMetric "eventValidationErrors") n2)) as Hf
        by (etrans; [exact H1|etrans; [exact Hv|by apply calm_chain]]).
      case_bool_decide; [|exact Hf]. case_match; [|exact Hf]. case_match; [|exact Hf].
      by etrans.
    + etrans; [exact H1|etrans; [exact Hv|]]. case_match; [by apply calm_chain|done].
  - etrans; [exact H1|]. case_match; [by apply calm_chain|done].
Qed.

Lemma CreateEvent_calm now env creator ps data n :
  calm n (CreateEvent now env creator ps data n).1.
Proof.
  unfold CreateEvent. destruct (negb _); [apply trackError_calm|].
  pose proof (flow_CreateEvent_calm env creator ps data n) as Hc.
  destruct (flow_CreateEvent _ _ _ _ _) as [n1 [ev|err]]; cbn [fst] in *.
  - etrans; [exact Hc|]. case_match; [by apply calm_chain|done].
  - etrans; [exact Hc|apply trackError_calm].
Qed.

Lemma handleFinalized_calm now1 now2 ev n : calm n (handleFinalizedEvent pow now1 now2 ev n).
Proof. unfold handleFinalizedEvent. case_match; [by apply calm_chain|done]. Qed.

Lemma retry_calm ev n : calm n (on_retry ev n).
Proof. unfold on_retry. case_match; [by apply calm_chain|done]. Qed.

Lemma goroutine_calm env now1 now2 timeout ev n :
  calm n (finalizeEvent pow env now1 now2 timeout ev n).
Proof.
  unfold finalizeEvent. destruct timeout; [etrans; [|apply retry_calm]; by apply calm_chain|].
  pose proof (FinalizeEvent_calm env ev n) as Hf.
  destruct (FinalizeEvent _ _ _ _) as [n1 [[|]|err]]; cbn [fst] in Hf.
  - etrans; [exact Hf|apply handleFinalized_calm].
  - etrans; [exact Hf|]. etrans; [apply (retry_calm ev)|]. by apply calm_chain.
  - etrans; [exact Hf|]. etrans; [apply (retry_calm ev)|]. by apply calm_chain.
Qed.

Lemma pending_step_calm envs now1 now2 n c ev :
  calm n (pending_step pow envs now1 now2 (n, c) ev).1.
Proof.
  unfold pending_step. destruct c as [p f]. destruct (event_at _ _) as [e|]; [|done].
  destruct (ev_Finalized e); [done|]. destruct (_ <=? _); [done|].
  pose proof (FinalizeEvent_calm (envs ev) ev n) as Hf.
  destruct (FinalizeEvent _ _ _ _) as [n1 [[|]|err]]; cbn [fst] in *; [|done..].
  etrans; [exact Hf|apply handleFinalized_calm].
Qed.

Lemma pending_fold_calm envs now1 now2 l : ∀ n c,
  calm n (foldl (pending_step pow envs now1 now2) (n, c) l).1.
Proof.
  induction l as [|ev l IH]; intros n c; [done|]. cbn [foldl].
  pose proof (pending_step_calm envs now1 now2 n c ev) as Hs.
  destruct (pending_step _ _ _ _ _ _) as [n1 c1]. etrans; [exact Hs|apply IH].
Qed.

Lemma round_calm order envs now1 now2 elapsed n :
  calm n (flow_processPendingEvents pow order envs now1 now2 elapsed n).
Proof.
  unfold flow_processPendingEvents. rewrite foldl_concat.
  match goal with |- context [foldl _ _ ?l] =>
    pose proof (pending_fold_calm envs now1 now2 l n (0, 0)) as Hf end.
  destruct (foldl _ _ _) as [n1 [p f]]. etrans; [exact Hf|by apply calm_chain].
Qed.

Lemma partition_step_calm now1 now2 n ev : calm n (partition_step now1 now2 n ev).
Proof.
  unfold partition_step. destruct (event_at _ _) as [e|]; [|done].
  destruct (ev_Finalized e); [done|]. destruct (enableValidation _); [|by apply calm_chain].
  pose proof (ValidateEvent_calm (now1 ev) ev n) as Hv.
  destruct (ValidateEvent _ _ _) as [n1 [err|]]; cbn [fst] in Hv.
  - case_bool_decide; [done|]. etrans; [exact Hv|by apply calm_chain].
  - etrans; [exact Hv|by apply calm_chain].
Qed.

Lemma foldl_calm {A} (f : HybridConsensus → A → HybridConsensus) (l : list A) :
  (∀ n a, calm n (f n a)) → ∀ n, calm n (foldl f n l).
Proof. intros Hf. induction l as [|a l IH]; intros n; [done|]. cbn. etrans; [apply Hf|apply IH]. Qed.

Lemma processPending_calm o1 o2 envs now1 now2 elapsed n :
  calm n (processPendingEvents pow o1 o2 envs now1 now2 elapsed n).
Proof.
  unfold processPendingEvents. etrans; [|apply round_calm]. apply foldl_calm.
  intros m ev. case_match; [by apply calm_chain|done].
Qed.
End operations.

(** ** Steps that move the chain *)

(** How a call ended: with an answer, or blocked. *)
Definition ends {A} (P : HybridConsensus → option A → Prop) (o : outcome A) : Prop :=
  match o with Returns n a => P n (Some a) | Blocks n => P n None | Panics => True end.

Lemma ends_bind {A B} (P : HybridConsensus → option A → Prop) (Q : HybridConsensus → option B → Prop)
    o k : ends P o → (∀ n a, P n (Some a) → ends Q (k n a)) → (∀ n, P n None → Q n None) →
  ends Q (bind_outcome o k).
Proof. destruct o; cbn; auto. Qed.

(** Every checkpoint is stored under its number, a multiple of the interval,
    and the last one is there. *)
Definition ckpts_ok (n : HybridConsensus) : Prop :=
  (∀ k ck, ch_checkpoints (hc_chain n) !! k = Some ck →
     ck_BlockNumber ck = k ∧ k mod CheckpointInterval (hc_cfg n) = 0) ∧
  (lastCheckpoint (hc_chain n) ≠ 0 →
     is_Some (ch_checkpoints (hc_chain n) !! lastCheckpoint (hc_chain n))).

(** What every operation respects: the configuration is fixed, checkpoints
    stay well formed, a lock that is held for ever stays held and freezes the
    checkpoints, and the once-only flags are never reset. *)
Record shifts (n n' : HybridConsensus) : Prop := {
  sh_cfg : hc_cfg n' = hc_cfg n;
  sh_ckpts : ckpts_ok n → ckpts_ok n';
  sh_locked : ch_ckptLocked (hc_chain n) = true → ch_ckptLocked (hc_chain n') = true ∧
    ch_checkpoints (hc_chain n') = ch_checkpoints (hc_chain n) ∧
    lastCheckpoint (hc_chain n') = lastCheckpoint (hc_chain n);
  sh_started : startDone (hc_chain n) = true → startDone (hc_chain n') = true;
  sh_stopped : stopDone (hc_chain n) = true → stopDone (hc_chain n') = true }.

#[export] Instance shifts_preorder : PreOrder shifts.
Proof.
  split; [by split|]. intros a b c Hab Hbc. split; [|intros H; by apply Hbc, Hab| |intros H; by apply Hbc, Hab..].
  - etrans; [apply Hbc|apply Hab].
  - intros H. destruct (sh_locked _ _ Hab H) as (H1 & H2 & H3).
    destruct (sh_locked _ _ Hbc H1) as (H4 & H5 & H6). split_and!; [done|congruence..].
Qed.

Definition pend (n : HybridConsensus) : list loc := default [] (ch_pending (hc_chain n)).

(** No event waits for a block. *)
Definition moves (n n' : HybridConsensus) : Prop :=
  shifts n n' ∧ (pend n = [] → pend n' = []).

#[export] Instance moves_preorder : PreOrder moves.
Proof. split; [by split|]. intros a b c [H1 H2] [H3 H4]. split; [by etrans|auto]. Qed.

Lemma calm_moves n n' : calm n n' → moves n n'.
Proof.
  intros []. split; [split|]; unfold ckpts_ok, pend in *.
  - done.
  - by rewrite calm_cfg0, calm_checkpoints0, calm_last0.
  - intros Hl. split_and!; congruence.
  - by rewrite calm_started0.
  - by rewrite calm_stopped0.
  - by rewrite calm_pending0.
Qed.

(** The same fields of the chain and the configuration, the height, the hash
    and the lists of events apart. *)
Lemma core_shifts n n' : hc_cfg n' = hc_cfg n →
  ch_checkpoints (hc_chain n') = ch_checkpoints (hc_chain n) →
  lastCheckpoint (hc_chain n') = lastCheckpoint (hc_chain n) →
  ch_ckptLocked (hc_chain n') = ch_ckptLocked (hc_chain n) →
  (startDone (hc_chain n) = true → startDone (hc_chain n') = true) →
  (stopDone (hc_chain n) = true → stopDone (hc_chain n') = true) → shifts n n'.
Proof.
  intros H1 H2 H3 H4 H5 H6. split; [done| | |done|done].
  - unfold ckpts_ok. by rewrite H1, H2, H3.
  - intros Hl. split_and!; congruence.
Qed.

Section moving.
Variable pow : f64 → f64 → f64.
Variable wild_uint : f64 → Z.
Variable marshal_events : option (list Event) → option (list byte).
Variable marshal_block : Block → option (list Event) → option (list byte).
Variable codec_l : Lachesis.codecs.
Variable codec_d : (dpos_state → list byte) * (list byte → option dpos_state).

(** Recovery, start and stop. *)
Lemma restore_calm env ck n :
  calm n (restore_parts codec_l codec_d env ck n).1.
Proof.
  unfold restore_parts, restore_lachesis, restore_dpos, synchronize.
  destruct (Lachesis.RestoreState _ _ _ _) as [l [[]|]]; [|by apply calm_chain].
  destruct (DPoSState.RestoreState _ _ _ _) as [d [[]|]]; [|by apply calm_chain].
  destruct (PoH.Synchronize _ _ _ _) as [p [[]|]]; by apply calm_chain.
Qed.

Lemma rollback_calm env n0 n : calm n (rollback codec_l codec_d env n0 n).
Proof.
  unfold rollback, restore_lachesis, restore_dpos, synchronize.
  destruct (is_nil _), (is_nil _);
    repeat match goal with |- context [let '(_, _) := ?t in _] => destruct t end; by apply calm_chain.
Qed.

Lemma recover_moves env n : moves n (recover_state codec_l codec_d env n).1.
Proof.
  unfold recover_state. destruct (ch_checkpoints _ !! _) as [ck|]; [|done].
  pose proof (restore_calm env ck n) as Hr. destruct (restore_parts _ _ _ _ _) as [n1 [e|]].
  - etrans; [apply calm_moves, Hr|]. apply calm_moves, rollback_calm.
  - etrans; [apply calm_moves, Hr|].
    assert (moves n1 (on_chain (set_height (ck_BlockNumber ck)) n1)) as Hm
      by (split; [by apply core_shifts|done]).
    by destruct (verifySystemConsistency _ _).
Qed.

Lemma start_moves n : moves n (start_node n).1.
Proof.
  unfold start_node. destruct (ch_running _); [done|].
  set (n1 := on_chain (λ c, set_life true true (stopDone c) c) n).
  assert (moves n n1) as H1 by (split; [by apply core_shifts|done]).
  destruct (startDone _); [exact H1|].
  destruct (Lachesis.Start _) as [l [[]|]]; [|by etrans; [exact H1|by apply calm_moves, calm_chain]].
  destruct (Batch.Start _) as [b [[]|]]; (etrans; [exact H1|by apply calm_moves, calm_chain]).
Qed.

Lemma stop_moves n : moves n (stop_node n).1.
Proof.
  unfold stop_node. destruct (negb _); [done|]. destruct (stopDone _); [done|].
  set (n1 := on_chain (λ c, set_life false (startDone c) true c) n).
  assert (moves n n1) as H1 by (split; [by apply core_shifts|done]).
  etrans; [exact H1|]. by apply calm_moves, calm_chain.
Qed.

Lemma zero_moves n : moves n (zero_heights n).
Proof. split; [by apply core_shifts|done]. Qed.

Lemma strategy_moves env s n : moves n (@apply_strategy _ (node_recoverable codec_l codec_d env) s n).1.
Proof.
  assert (∀ m, moves m (@applyResetStrategy _ (node_recoverable codec_l codec_d env) m).1 ∧
    moves m (@applyRestartStrategy _ (node_recoverable codec_l codec_d env) m).1) as Hr.
  { intros m. unfold applyResetStrategy, applyRestartStrategy. cbn [rc_stop rc_start rc_zero_heights node_recoverable].
    pose proof (stop_moves m) as Hs. destruct (stop_node m) as [m1 [[]|e]]; [|by split].
    cbn [fst] in Hs. split.
    - pose proof (start_moves (zero_heights m1)) as Ht.
      assert (moves m (start_node (zero_heights m1)).1) as Hm
        by (etrans; [exact Hs|]; etrans; [apply zero_moves|exact Ht]).
      by destruct (start_node (zero_heights m1)) as [m2 [[]|e]].
    - pose proof (start_moves m1) as Ht.
      assert (moves m (start_node m1).1) as Hm by (etrans; [exact Hs|exact Ht]).
      by destruct (start_node m1) as [m2 [[]|e]]. }
  destruct s; cbn [apply_strategy]; try done; [|apply Hr..].
  unfold applyCheckpointStrategy. case_match; [done|]. apply recover_moves.
Qed.

Lemma handle_error_moves env now1 now2 err n :
  ends (λ n' _, moves n n') (handle_error codec_l codec_d env now1 now2 err n).
Proof.
  unfold handle_error.
  pose proof (@HandleError_spec _ (node_recoverable codec_l codec_d env) now1 now2 err (hc_recovery n) n)
    as Hs. cbn zeta in Hs.
  destruct (HandleError _ _ _ _ _) as [[rm n'] r]. destruct Hs as [_ Hs].
  assert (moves n n') as Hm.
  { destruct (attempts_recovery _ _ _); destruct Hs as (H1 & H2 & H3); subst; [|done].
    apply strategy_moves. }
  assert (∀ m, moves n m → moves n (with_recovery rm m)) as Hw
    by (intros m Hnm; etrans; [exact Hnm|by apply calm_moves, calm_chain]).
  destruct (takes_checkpoint _ _ _); [|by apply Hw]. unfold ckpt_lock.
  destruct (ch_ckptLocked _); by apply Hw.
Qed.

(** Blocks. *)
Lemma produce_moves now1 now2 b id n :
  let '(n', r) := produceBlock marshal_events now1 now2 b id n in
  moves n n' ∧ lastBlockHeight (hc_chain n') = lastBlockHeight (hc_chain n) ∧
  lastBlockHash (hc_chain n') = lastBlockHash (hc_chain n) ∧
  ch_running (hc_chain n') = ch_running (hc_chain n) ∧
  ∀ blk, r = Ok blk → default [] (blk_Events blk) = pend n ∧ blk_Number blk = b.
Proof.
  unfold produceBlock, collectPendingEvents. cbn zeta.
  assert (moves n (on_chain (set_pending None) n)) as Hm by (split; [by apply core_shifts|done]).
  destruct (marshal_events _) as [data|]; [|by split_and!].
  destruct (Record_ _ _ _) as [p h]. split_and!; try done. intros blk Hb. by injection Hb as <-.
Qed.

Lemma apply_events_shifts envs evs : ∀ n,
  let n' := (apply_events pow envs evs n).1 in
  shifts n n' ∧ lastBlockHeight (hc_chain n') = lastBlockHeight (hc_chain n) ∧
  lastBlockHash (hc_chain n') = lastBlockHash (hc_chain n).
Proof.
  induction evs as [|ev evs IH]; intros n; cbn zeta; [done|]. cbn [apply_events].
  pose proof (FinalizeEvent_calm pow (envs ev) ev n) as Hf.
  destruct (FinalizeEvent _ _ _ _) as [n1 [[|]|e]]; cbn [fst] in *.
  - destruct (IH n1) as (H1 & H2 & H3). pose proof (calm_moves _ _ Hf) as [Hs _].
    split_and!; [by etrans|by rewrite H2, (calm_height _ _ Hf)|by rewrite H3, (calm_hash _ _ Hf)].
  - match goal with |- context [apply_events pow envs evs ?m] => set (n2 := m) end.
    destruct (IH n2) as (H1 & H2 & H3). pose proof (calm_moves _ _ Hf) as [Hs _].
    assert (shifts n1 n2) as H12 by by apply core_shifts.
    split_and!; [by etrans; [exact Hs|etrans; [exact H12|exact H1]]|..].
    + rewrite H2. exact (calm_height _ _ Hf).
    + rewrite H3. exact (calm_hash _ _ Hf).
  - split_and!; [apply (calm_moves _ _ Hf)|apply Hf|apply Hf].
Qed.

Lemma apply_moves env blk n :
  let n' := (applyBlock pow env blk n).1 in
  shifts n n' ∧ (default [] (blk_Events blk) = [] → pend n' = pend n) ∧
  lastBlockHeight (hc_chain n') = lastBlockHeight (hc_chain n) ∧
  lastBlockHash (hc_chain n') = lastBlockHash (hc_chain n).
Proof.
  cbn zeta. unfold applyBlock.
  pose proof (apply_events_shifts (be_fin env) (default [] (blk_Events blk)) n) as Ha. cbn zeta in Ha.
  assert (default [] (blk_Events blk) = [] →
    (apply_events pow (be_fin env) (default [] (blk_Events blk)) n).1 = n) as Hnil
    by by intros ->.
  destruct (apply_events _ _ _ _) as [n1 [e|]]; cbn [fst] in *; destruct Ha as (Hs & Hh & Hx).
  { split_and!; [done| |done|done]. by intros ->%Hnil. }
  pose proof (processPending_calm pow (be_order1 env (fl_pending (hc_flow n1)))
    (be_order2 env (fl_pending (hc_flow n1))) (be_fin env) (be_now1 env) (be_now2 env)
    (be_elapsed env) n1) as Hc.
  set (n2 := processPendingEvents _ _ _ _ _ _ _ _) in *. cbn zeta.
  set (n3 := on_chain _ n2).
  assert (shifts n n3 ∧ (default [] (blk_Events blk) = [] → pend n3 = pend n) ∧
    lastBlockHeight (hc_chain n3) = lastBlockHeight (hc_chain n) ∧
    lastBlockHash (hc_chain n3) = lastBlockHash (hc_chain n)) as H3.
  { split_and!.
    - etrans; [exact Hs|]. etrans; [apply (calm_moves _ _ Hc)|]. by apply core_shifts.
    - intros He. change (pend n3) with (pend n2). unfold pend. rewrite (calm_pending _ _ Hc).
      by rewrite (Hnil He).
    - rewrite <- Hh. exact (calm_height _ _ Hc).
    - rewrite <- Hx. exact (calm_hash _ _ Hc). }
  destruct (hex_decode _) as [bytes|]; [|exact H3].
  destruct (RewardBlockProduction _ _ _ _ _ _) as [[vm h] r].
  destruct H3 as (S1 & S2 & S3 & S4). split_and!; [|done..]. etrans; [exact S1|by apply core_shifts].
Qed.

Lemma epochs_calm env b n n' : process_epochs pow wild_uint env b n = Some n' → calm n n'.
Proof.
  unfold process_epochs. destruct (ValMgr.ProcessEpoch _ _ _ _ _ _ _) as [vm|]; [|done].
  cbn [mbind option_bind]. destruct (DPoS.ProcessEpoch _ _ _ _ _ _) as [[d r]|]; [|done].
  cbn [mbind option_bind]. intros [= <-]. by apply calm_chain.
Qed.

(** Cleaning, with the lock free: it returns and deletes exactly the old
    ones; with the lock held it waits. *)
Lemma cleanOldCheckpoints_free b n : ch_ckptLocked (hc_chain n) = false →
  umul (CheckpointInterval (hc_cfg n)) 2 < b →
  cleanOldCheckpoints b n = Returns (on_chain (λ c, set_checkpoints
    (delete_old (usub b (umul (CheckpointInterval (hc_cfg n)) 2)) (ch_checkpoints c))
    (lastCheckpoint c) false c) n) ().
Proof.
  intros Hf Hb. unfold cleanOldCheckpoints. cbn zeta. rewrite (proj2 (Z.leb_gt _ _) Hb).
  unfold ckpt_section, ckpt_Lock. by rewrite Hf.
Qed.

Lemma cleanOldCheckpoints_held b n : ch_ckptLocked (hc_chain n) = true →
  umul (CheckpointInterval (hc_cfg n)) 2 < b → cleanOldCheckpoints b n = Blocks n.
Proof.
  intros Hf Hb. unfold cleanOldCheckpoints. cbn zeta. rewrite (proj2 (Z.leb_gt _ _) Hb).
  unfold ckpt_section, ckpt_Lock. by rewrite Hf.
Qed.

Lemma delete_old_lookup below m k :
  delete_old below m !! k = if decide (k < below) then None else m !! k.
Proof.
  unfold delete_old. rewrite map_lookup_filter. destruct (m !! k) as [ck|]; cbn; [|by case_decide].
  case_guard; case_decide; naive_solver lia.
Qed.

(** A creation either finds the lock held, or stores the checkpoint under
    the lock and gives it back, or waits in the cleaning it calls. *)
Definition with_ckpt (b : Z) (ck : Checkpoint) (locked : bool) (n : HybridConsensus) :
    HybridConsensus :=
  on_chain (λ c, set_checkpoints (<[b := ck]> (ch_checkpoints c)) b locked c) n.

Lemma store_section b ck n :
  ckpt_section (λ n, bind_outcome
      (cleanOldCheckpoints b (on_chain (λ c, set_checkpoints (<[b := ck]> (ch_checkpoints c)) b
         (ch_ckptLocked c) c) n)) (λ n _, Returns n (None (A:=go_error)))) n
  = if ch_ckptLocked (hc_chain n) then Blocks n
    else if b <=? umul (CheckpointInterval (hc_cfg n)) 2 then Returns (with_ckpt b ck false n) None
    else Blocks (with_ckpt b ck true n).
Proof.
  unfold ckpt_section, ckpt_Lock. destruct (ch_ckptLocked (hc_chain n)); [done|]. cbn [bind_outcome].
  unfold cleanOldCheckpoints. cbn zeta. cbn [hc_cfg on_chain with_chain].
  by destruct (b <=? umul (CheckpointInterval (hc_cfg n)) 2).
Qed.

(** Checkpoints.  Past a held lock nothing changes; otherwise a good number
    is stored, and the lock taken for ever past the second interval. *)
Lemma createCheckpoint_moves now b n : 0 ≤ b →
  ends (λ n' _, moves n n' ∧ lastBlockHeight (hc_chain n') = lastBlockHeight (hc_chain n) ∧
      lastBlockHash (hc_chain n') = lastBlockHash (hc_chain n))
    (createCheckpoint codec_l codec_d now b n).
Proof.
  intros Hb. unfold createCheckpoint. destruct (_ =? 0); [done|].
  destruct (b mod _ =? 0) eqn:Hmod; cbn [negb]; [|done]. destruct (_ || _); [done|].
  cbn zeta. rewrite store_section. destruct (ch_ckptLocked (hc_chain n)) eqn:Hl; [done|].
  set (ck := build_checkpoint _ _ _ _ _).
  assert (∀ locked, shifts n (with_ckpt b ck locked n)) as Hs.
  { intros locked. split; [done| |congruence|done|done]. intros [H1 H2]. split.
    - intros k c. cbn. rewrite lookup_insert_Some. intros [[<- <-]|[_ Hk]]; [|by apply H1].
      split; [done|]. by apply Z.eqb_eq in Hmod.
    - intros _. cbn. rewrite lookup_insert_eq. by eexists. }
  case_match; cbn; (split_and!; [split; [apply Hs|done]|done|done]).
Qed.

Lemma fails_moves err n : ends (λ n' r, calm n n' ∧ r = Some (Err err)) (fails err n).
Proof. unfold fails. cbn. split; [apply trackError_calm|done]. Qed.

Definition chain_kept (n n' : HybridConsensus) : Prop :=
  lastBlockHeight (hc_chain n') = lastBlockHeight (hc_chain n) ∧
  lastBlockHash (hc_chain n') = lastBlockHash (hc_chain n).

Lemma calm_kept n n' : calm n n' → chain_kept n n'.
Proof. intros []. by split. Qed.

(** What the end of a block means for height and hash. *)
Definition block_result (b : Z) (n n' : HybridConsensus) (r : option (result go_error ())) : Prop :=
  match r with
  | Some (Ok _) => lastBlockHeight (hc_chain n') = b ∧
      ∃ blk evs data, marshal_block blk evs = Some data ∧ blk_Number blk = b ∧
        lastBlockHash (hc_chain n') = sha256 data
  | Some (Err _) => chain_kept n n'
  | None => lastBlockHeight (hc_chain n') = b ∧ b mod checkpoint_interval = 0
  end.

Lemma finish_ends env b blk n : 0 ≤ b → blk_Number blk = b →
  ends (λ n' r, moves n n' ∧ block_result b n n' r)
    (finish_block marshal_block codec_l codec_d env b blk n).
Proof.
  intros Hb Hnum. unfold finish_block.
  destruct (marshal_block _ _) as [data|] eqn:Hdata.
  2: { split; [apply calm_moves, trackError_calm|apply calm_kept, trackError_calm]. }
  cbn zeta. set (n1 := on_chain _ n).
  assert (moves n n1) as H1 by (split; [by apply core_shifts|done]).
  apply (ends_bind (λ n' r, moves n n' ∧ lastBlockHeight (hc_chain n') = b ∧
    lastBlockHash (hc_chain n') = sha256 data ∧ (r = None → b mod checkpoint_interval = 0))).
  - destruct (b mod checkpoint_interval =? 0) eqn:Hm; [|by cbn].
    pose proof (createCheckpoint_moves (be_clock env) b n1 Hb) as Hc.
    destruct (createCheckpoint _ _ _ _ _) as [n' a| |n']; cbn in *; [|done|];
      destruct Hc as (Hc & Hh & Hx); (split_and!; [by etrans|done|done|]); [done|].
    intros _. by apply Z.eqb_eq.
  - intros n' r (Hm & Hh & Hx & _). cbn beta iota zeta delta [ends].
    match goal with |- context [match last ?l with _ => _ end] => generalize (last l) end.
    intros lst.
    assert (∀ m, calm n' m → moves n m ∧ lastBlockHeight (hc_chain m) = b ∧
      lastBlockHash (hc_chain m) = sha256 data) as Hcalm.
    { intros m Hc. split_and!; [etrans; [exact Hm|by apply calm_moves]| |].
      - by rewrite (calm_height _ _ Hc).
      - by rewrite (calm_hash _ _ Hc). }
    match goal with |- moves n ?m ∧ _ => assert (calm n' m) as Hc end.
    { assert (∀ m ev, calm n' m → calm n' (match ev with None => m
        | Some ev => with_core (with_finalized_height (ev_height (node_dag m) ev) (hc_core m)) m end)) as Hl
        by (intros m [ev|] Hc; [etrans; [exact Hc|by apply calm_chain]|done]).
      apply Hl. destruct r; [apply trackError_calm|done]. }
    destruct (Hcalm _ Hc) as (G1 & G2 & G3). split; [done|]. split; [done|]. by eexists blk, _, data.
  - intros n' (Hm & Hh & _ & Hi). cbn. auto.
Qed.

(** The gap test. *)
Lemma gap_ends env renv b n :
  ends (λ n' r, moves n n' ∧ (b ≤ uadd (lastBlockHeight (hc_chain n)) 1 → n' = n ∧ r = Some (Ok ())))
    (check_gap codec_l codec_d env renv b n).
Proof.
  unfold check_gap. destruct (Z.leb_spec b (uadd (lastBlockHeight (hc_chain n)) 1)) as [Hle|Hgt];
    [by cbn|].
  apply (ends_bind (λ n' _, n' = n)).
  - unfold HasCheckpoint, ckpt_lock. by destruct (ch_ckptLocked _).
  - intros n' found ->. destruct (negb found).
    { split; [apply calm_moves, trackError_calm|lia]. }
    eapply ends_bind; [apply handle_error_moves| |].
    + intros n' [[]|e] Hm; (split; [|lia]); [exact Hm|].
      etrans; [exact Hm|apply calm_moves, trackError_calm].
    + cbn. intros n' Hm. split; [done|lia].
  - intros n' ->. split; [done|lia].
Qed.

(** Production. *)
Lemma produce_ends env renv b id n :
  ends (λ n' r, moves n n' ∧
      (∀ blk, r = Some (Ok blk) → blk_Number blk = b ∧ (pend n = [] → default [] (blk_Events blk) = [])) ∧
      ((∀ evs, marshal_events evs ≠ None) →
         chain_kept n n' ∧ ch_running (hc_chain n') = ch_running (hc_chain n) ∧ r ≠ None))
    (produce_or_recover marshal_events codec_l codec_d env renv b id n).
Proof.
  unfold produce_or_recover.
  pose proof (produce_moves (be_clock env) (be_clock env) b id n) as Hp.
  destruct (produceBlock _ _ _ _ _ n) as [n1 r1] eqn:Hpb.
  destruct Hp as (Hm & Hh & Hx & Hrun & Hb).
  destruct r1 as [blk|err].
  { cbn. split_and!; [done| |by intros _; split_and!].
    intros blk' [= <-]. destruct (Hb blk eq_refl) as [H1 H2]. split; [done|congruence]. }
  assert (¬ ∀ evs, marshal_events evs ≠ None) as Hno.
  { intros Hall. unfold produceBlock, collectPendingEvents in Hpb. cbn zeta in Hpb.
    destruct (marshal_events _) eqn:Hme; [|by apply (Hall _ Hme)].
    destruct (Record_ _ _ _). done. }
  eapply ends_bind; [apply handle_error_moves| |].
  - intros n2 [[]|e] H2; [|split_and!; [by etrans|done|done]].
    pose proof (produce_moves (be_clock env) (be_clock env) b id n2) as Hp.
    destruct (produceBlock _ _ _ _ _ n2) as [n3 [blk|err3]];
      destruct Hp as (Hm3 & _ & _ & _ & Hb3).
    + split_and!; [by etrans; [exact Hm|etrans; [exact H2|exact Hm3]]| |done].
      intros blk' [= <-]. destruct (Hb3 blk eq_refl) as [G1 G2]. split; [done|].
      intros Hnil. rewrite G1. apply H2, Hm, Hnil.
    + split_and!; [by etrans; [exact Hm|etrans; [exact H2|exact Hm3]]|done|done].
  - intros n2 H2. split_and!; [by etrans|done|done].
Qed.

Abbreviation process := (ProcessBlock pow wild_uint marshal_events marshal_block codec_l codec_d).

Lemma ends_impl {A} (P Q : HybridConsensus → option A → Prop) o :
  (∀ n r, P n r → Q n r) → ends P o → ends Q o.
Proof. destruct o; cbn; auto. Qed.

Lemma validate_number blk n : validateBlock blk n = None → IsTestMode n = false →
  blk_Number blk = uadd (lastBlockHeight (hc_chain n)) 1.
Proof.
  unfold validateBlock. destruct (Z.eqb_spec (blk_Number blk) (uadd (lastBlockHeight (hc_chain n)) 1));
    [done|]. cbn [negb]. intros Hv Ht. by rewrite Ht in Hv.
Qed.

(** The state while a block is made: moved and, in the plain case [C], at the
    height and hash of the beginning. *)
Definition underway (C : Prop) (n m : HybridConsensus) : Prop :=
  moves n m ∧ (C → chain_kept n m).

Lemma underway_calm C n m m' : underway C n m → calm m m' → underway C n m'.
Proof.
  intros [Hm Hk] Hc. split; [etrans; [exact Hm|by apply calm_moves]|].
  intros HC. destruct (Hk HC) as [H1 H2], (calm_kept _ _ Hc) as [H3 H4]. split; congruence.
Qed.

(** No gap, and events that can be serialised. *)
Definition plain (b : Z) (n : HybridConsensus) : Prop :=
  b ≤ uadd (lastBlockHeight (hc_chain n)) 1 ∧ ∀ evs, marshal_events evs ≠ None.

(** How a block ended: every call moves the chain; in the plain case a yes
    means the next height, with the hash of the block. *)
Definition block_end (b : Z) (n n' : HybridConsensus) (r : option (result go_error ())) : Prop :=
  moves n n' ∧ (plain b n → block_result b n n' r ∧
    (∀ u, r = Some (Ok u) → IsTestMode n = false → b = uadd (lastBlockHeight (hc_chain n)) 1)).

Lemma fails_end b n m err : underway (plain b n) n m → ends (block_end b n) (fails err m).
Proof.
  intros Hu. pose proof (underway_calm _ _ _ _ Hu (trackError_calm err m)) as [Hm Hk].
  split; [exact Hm|]. intros HC. split; [exact (Hk HC)|done].
Qed.

Lemma apply_finish_end env b blk n m : 0 ≤ b → blk_Number blk = b →
  (pend n = [] → default [] (blk_Events blk) = []) → underway (plain b n) n m →
  (plain b n → IsTestMode n = false → b = uadd (lastBlockHeight (hc_chain n)) 1) →
  ∀ err, ends (block_end b n)
    (match applyBlock pow env blk m with
     | (m, Some e) => fails (err e) m
     | (m, None) => finish_block marshal_block codec_l codec_d env b blk m
     end).
Proof.
  intros Hb Hnum Hev [[Hs Hp] Hk] Hprod err.
  destruct (apply_moves env blk m) as (H1 & H2 & H3 & H4).
  destruct (applyBlock pow env blk m) as [m' [e|]]; cbn [fst] in *;
    (assert (underway (plain b n) n m') as Hu;
     [split; [split; [by etrans|]|]|]).
  1, 4: intros Hnil; rewrite H2 by auto; auto.
  1, 3: intros HC; destruct (Hk HC); split; congruence.
  - by apply fails_end.
  - destruct Hu as [Hm Hk']. eapply ends_impl; [|by apply (finish_ends env b blk m')].
    intros n' r [Hm' Hr]. split; [by etrans|]. intros HC. split; [|intros u _; by apply Hprod].
    destruct (Hk' HC) as [K1 K2]. destruct r as [[[]|e]|]; cbn in *; [done| |done].
    destruct Hr. split; congruence.
Qed.

Lemma ProcessBlock_ends env renv b n : 0 ≤ b →
  ends (block_end b n) (process env renv b n).
Proof.
  intros Hb. unfold ProcessBlock.
  assert (underway (plain b n) n n) as Hn by by split.
  destruct (ch_running (hc_chain n)); cbn [negb]; [|by apply fails_end].
  eapply ends_bind; [apply gap_ends| |].
  2: { intros n1 [Hm Hg]. split; [done|]. intros [Hgap _]. by destruct (Hg Hgap). }
  intros n1 r [Hm Hg]. assert (underway (plain b n) n n1) as H1.
  { split; [done|]. intros [Hgap _]. by destruct (Hg Hgap) as [-> _]. }
  destruct r as [[]|e].
  2: { split; [done|]. intros [Hgap _]. by destruct (Hg Hgap) as [_ ?]. }
  destruct (process_epochs _ _ _ _ _) as [n2|] eqn:Hep; [|done].
  pose proof (underway_calm _ _ _ _ H1 (epochs_calm _ _ _ _ Hep)) as H2.
  destruct (ValMgr.GetNextValidator _ _ _) as [[id v]|]; [|by apply fails_end].
  eapply ends_bind; [apply produce_ends| |].
  2: { intros n3 (Hm3 & _ & Hk). split; [by etrans; [apply H2|]|]. intros [_ Hser].
    by destruct (Hk Hser) as (_ & _ & ?). }
  intros n3 r (Hm3 & Hblk & Hk). assert (underway (plain b n) n n3) as H3.
  { split; [by etrans; [apply H2|]|]. intros HC. destruct (Hk (proj2 HC)) as ([K1 K2] & _).
    destruct (proj2 H2 HC) as [K3 K4]. split; congruence. }
  destruct r as [blk|e]; [|by apply fails_end].
  destruct (Hblk blk eq_refl) as [Hnum Hev].
  destruct (validateBlock blk n3) as [e|] eqn:Hv; [by apply fails_end|].
  apply (apply_finish_end env b blk n n3 Hb Hnum); [intros Hnil; apply Hev, H2, Hnil|done|].
  intros HC Ht. destruct (proj2 H3 HC) as [K1 _]. rewrite <- K1, <- Hnum.
  apply (validate_number blk n3 Hv). unfold IsTestMode in *. by rewrite (sh_cfg _ _ (proj1 (proj1 H3))).
Qed.

(** In the plain case only the epoch step and an interval of zero panic. *)
Lemma plain_panics env renv b n : b ≤ uadd (lastBlockHeight (hc_chain n)) 1 →
  (∀ evs, marshal_events evs ≠ None) → process env renv b n = Panics →
  process_epochs pow wild_uint env b n = None ∨
  CheckpointInterval (hc_cfg n) = 0 ∧ b mod checkpoint_interval = 0.
Proof.
  intros Hgap Hser. unfold ProcessBlock. destruct (ch_running _); cbn [negb]; [|done].
  unfold check_gap. rewrite (proj2 (Z.leb_le _ _) Hgap). cbn [bind_outcome].
  destruct (process_epochs _ _ _ _ _) as [n2|] eqn:Hep; [|by left].
  destruct (ValMgr.GetNextValidator _ _ _) as [[id v]|]; [|done].
  pose proof (produce_ends env renv b id n2) as Hpr. unfold produce_or_recover in *.
  pose proof (produce_moves (be_clock env) (be_clock env) b id n2) as Hm.
  destruct (produceBlock _ _ _ _ _ n2) as [n3 [blk|err]] eqn:Hpb.
  2: { exfalso. unfold produceBlock, collectPendingEvents in Hpb. cbn zeta in Hpb.
    destruct (marshal_events _) eqn:Hme; [|by apply (Hser _ Hme)]. by destruct (Record_ _ _ _). }
  cbn [bind_outcome]. destruct (validateBlock blk n3); [done|].
  destruct (apply_moves env blk n3) as (H1 & _). destruct (applyBlock pow env blk n3) as [n4 [e|]]; [done|].
  unfold finish_block. destruct (marshal_block _ _) as [data|]; [|done]. cbn zeta.
  destruct (b mod checkpoint_interval =? 0) eqn:Hmod; [|done]. apply Z.eqb_eq in Hmod.
  intros Hpan. right. split; [|done].
  unfold createCheckpoint in Hpan. cbn [hc_cfg on_chain with_chain] in Hpan.
  assert (hc_cfg n4 = hc_cfg n) as Hcfg.
  { etrans; [apply (sh_cfg _ _ H1)|]. etrans; [apply (sh_cfg _ _ (proj1 (proj1 Hm)))|].
    exact (calm_cfg _ _ (epochs_calm _ _ _ _ Hep)). }
  rewrite Hcfg in Hpan. destruct (_ =? 0) eqn:Hz; [by apply Z.eqb_eq in Hz|].
  destruct (negb _); [done|]. destruct (_ || _); [done|]. cbn zeta in Hpan.
  rewrite store_section in Hpan. destruct (ch_ckptLocked _); [done|]. by case_match.
Qed.

(** ** Runs of the node *)

(** The state a call leaves, whether it answers or blocks. *)
Definition left_state {A} (o : outcome A) : option HybridConsensus :=
  match o with Returns n _ => Some n | Blocks n => Some n | Panics => None end.

Lemma left_ends {A} (P : HybridConsensus → option A → Prop) o n :
  ends P o → left_state o = Some n → ∃ r, P n r.
Proof. destruct o; cbn; intros H [= <-]; eauto. Qed.

(** One step of the node.  The steps that leave height, blocks, checkpoints
    and life cycle alone (events, the other components, the PoH worker) are
    [calm], as proved above. *)
Inductive node_step : HybridConsensus → HybridConsensus → Prop :=
| ns_calm n n' : calm n n' → node_step n n'
| ns_ProcessBlock env renv b n n' : 0 ≤ b →
    left_state (process env renv b n) = Some n' → node_step n n'
| ns_production_tick env renv timeout errors n n' :
    left_state (production_tick pow wild_uint marshal_events marshal_block codec_l codec_d
      env renv timeout errors n) = Some n' → node_step n n'
| ns_createCheckpoint now b n n' : 0 ≤ b →
    left_state (createCheckpoint codec_l codec_d now b n) = Some n' → node_step n n'
| ns_handle_error renv now1 now2 err n n' :
    left_state (handle_error codec_l codec_d renv now1 now2 err n) = Some n' → node_step n n'
| ns_recoverFromError renv n n' :
    left_state (recoverFromError codec_l codec_d renv n) = Some n' → node_step n n'
| ns_SynchronizeState renv envs fuel order st c n n' :
    left_state (SynchronizeState pow codec_l codec_d renv envs fuel order st c n) = Some n' →
    node_step n n'
| ns_start n : node_step n (start_node n).1
| ns_stop n : node_step n (stop_node n).1.

Lemma recover_ends renv n :
  ends (λ n' _, moves n n') (recoverFromError codec_l codec_d renv n).
Proof.
  unfold recoverFromError, ckpt_lock. destruct (ch_ckptLocked _); [done|].
  pose proof (recover_moves renv n) as Hm. by destruct (recover_state _ _ _ _).
Qed.

Lemma tick_ends env renv timeout errors n :
  ends (λ n' _, moves n n') (production_tick pow wild_uint marshal_events marshal_block codec_l
    codec_d env renv timeout errors n).
Proof.
  unfold production_tick. set (b := uadd _ 1).
  assert (0 ≤ b) as Hb by apply u64_range.
  pose proof (ProcessBlock_ends env renv b n Hb) as He.
  destruct (process env renv b n) as [n' r| |n']; [|done|exact (proj1 He)].
  destruct He as [Hm _]. destruct timeout; [exact Hm|]. destruct r as [[]|e]; [exact Hm|].
  destruct (5 <=? errors + 1); [|exact Hm].
  eapply ends_bind; [apply recover_ends| |].
  - intros n2 a H2. exact (transitivity Hm H2).
  - intros n2 H2. exact (transitivity Hm H2).
Qed.

Lemma replay_calm envs evs : ∀ n, calm n (replay pow envs evs n).1.
Proof.
  induction evs as [|ev evs IH]; intros n; [done|]. cbn [replay].
  pose proof (FinalizeEvent_calm pow (envs ev) ev n) as Hf.
  destruct (FinalizeEvent _ _ _ _) as [n1 [x|e]]; [|exact Hf]. etrans; [exact Hf|apply IH].
Qed.

Lemma sync_ends renv envs fuel order st c n :
  ends (λ n' _, moves n n') (SynchronizeState pow codec_l codec_d renv envs fuel order st c n).
Proof.
  assert (ends (λ n' _, calm n n')
    (SynchronizeState pow codec_l codec_d renv envs fuel order st c n)) as H.
  2: { eapply ends_impl; [|exact H]. intros n' r. apply calm_moves. }
  unfold SynchronizeState, synchronize. destruct (PoH.Synchronize _ _ _ _) as [p [[]|e]];
    [|by apply calm_chain].
  assert (calm n (with_poh p n)) as H0 by by apply calm_chain.
  unfold ckpt_lock. destruct (ch_ckptLocked _); [exact H0|]. cbn zeta.
  destruct (latest_before _ _ _) as [ck|]; [|exact H0].
  unfold restore_lachesis, restore_dpos.
  destruct (Lachesis.RestoreState _ _ _ _) as [l [[]|e]]; [|by apply calm_chain].
  destruct (DPoSState.RestoreState _ _ _ _) as [d [[]|e]]; [|by apply calm_chain].
  match goal with |- context [Flow.GetFinalizedEvents (node_dag ?m)] => set (n3 := m) end.
  assert (calm n n3) as H3 by by apply calm_chain.
  destruct (Flow.GetFinalizedEvents _ _ _ _ _) as [[evs|e]|]; [|exact H3..].
  pose proof (replay_calm envs evs n3) as Hr. destruct (replay _ _ _ _) as [n4 r].
  exact (transitivity H3 Hr).
Qed.

Lemma node_step_moves n n' : node_step n n' → moves n n'.
Proof.
  intros Hs. destruct Hs as [n n' Hc|env renv b n n' Hb H|env renv timeout errors n n' H
    |now b n n' Hb H|renv now1 now2 err n n' H|renv n n' H|renv envs fuel order st c n n' H|n|n].
  - by apply calm_moves.
  - by destruct (left_ends _ _ _ (ProcessBlock_ends env renv b n Hb) H) as (r & Hm & _).
  - by destruct (left_ends _ _ _ (tick_ends env renv timeout errors n) H).
  - by destruct (left_ends _ _ _ (createCheckpoint_moves now b n Hb) H) as (r & Hm & _).
  - by destruct (left_ends _ _ _ (handle_error_moves renv now1 now2 err n) H).
  - by destruct (left_ends _ _ _ (recover_ends renv n) H).
  - by destruct (left_ends _ _ _ (sync_ends renv envs fuel order st c n) H).
  - apply start_moves.
  - apply stop_moves.
Qed.

Lemma run_moves n n' : star node_step n n' → moves n n'.
Proof. induction 1 as [|a b c _ IH Hs]; [done|]. etrans; [exact IH|by apply node_step_moves]. Qed.
End moving.

(** * Properties *)

Lemma new_pend now order wild cfg : pend (NewHybridConsensusWithConfig now order wild cfg) = [].
Proof. done. Qed.

Lemma new_ckpts now order wild cfg : ckpts_ok (NewHybridConsensusWithConfig now order wild cfg).
Proof. split; [|done]. intros k ck. cbn. by rewrite lookup_empty. Qed.

Section properties.
Variable pow : f64 → f64 → f64.
Variable wild_uint : f64 → Z.
Variable marshal_events : option (list Event) → option (list byte).
Variable marshal_block : Block → option (list Event) → option (list byte).
Variable codec_l : Lachesis.codecs.
Variable codec_d : (dpos_state → list byte) * (list byte → option dpos_state).
Abbreviation step := (node_step pow wild_uint marshal_events marshal_block codec_l codec_d).

(** blocks carry no events.  Nothing ever puts an event into the list a
    block is made from -- only a block that holds events returns some to it
    -- so in every state the node can reach the list is empty and every
    block it produces is empty, whatever was created or finalized. *)
Theorem blocks_are_empty now order wild cfg n now1 now2 b id n' blk :
  star step (NewHybridConsensusWithConfig now order wild cfg) n →
  produceBlock marshal_events now1 now2 b id n = (n', Ok blk) →
  default [] (blk_Events blk) = [] ∧ pend n' = [].
Proof.
  intros Hrun Hp. destruct (run_moves _ _ _ _ _ _ _ _ Hrun) as [_ Hnil].
  specialize (Hnil (new_pend now order wild cfg)).
  pose proof (produce_moves marshal_events now1 now2 b id n) as Hm. rewrite Hp in Hm.
  destruct Hm as ([_ Hm] & _ & _ & _ & Hb). destruct (Hb blk eq_refl) as [-> _]. auto.
Qed.

(** checkpoints.  In every reachable state each checkpoint is stored
    under its own block number, a multiple of the configured interval, the
    last checkpoint exists unless none was made, and the configuration is
    the one of the construction. *)
Theorem checkpoints_well_formed now order wild cfg n :
  star step (NewHybridConsensusWithConfig now order wild cfg) n →
  hc_cfg n = valid_config cfg ∧
  (∀ k ck, ch_checkpoints (hc_chain n) !! k = Some ck →
     ck_BlockNumber ck = k ∧ k mod CheckpointInterval (hc_cfg n) = 0) ∧
  (lastCheckpoint (hc_chain n) ≠ 0 →
     is_Some (ch_checkpoints (hc_chain n) !! lastCheckpoint (hc_chain n))).
Proof.
  intros Hrun. destruct (run_moves _ _ _ _ _ _ _ _ Hrun) as [Hs _].
  split; [exact (sh_cfg _ _ Hs)|]. apply (sh_ckpts _ _ Hs), new_ckpts.
Qed.

(** C10: the checkpoint deadlock.  Cleaning the old checkpoints takes their
    lock: called with the lock free it returns and deletes exactly those
    older than two intervals.  createCheckpoint calls it with the lock held:
    past twice the interval the creation never returns, and from then on,
    whatever the node does, every test for a checkpoint, every recovery and
    every later creation at a multiple of the interval blocks too, and the
    checkpoints never change again. *)
Theorem checkpoint_deadlock now b n :
  (∀ l, is_nil (Lachesis.GetState codec_l l) = false) →
  (∀ d, is_nil (DPoSState.GetState codec_d.1 d) = false) →
  let i := CheckpointInterval (hc_cfg n) in
  0 < i → is_u64 b → b mod i = 0 → umul i 2 < b → ch_ckptLocked (hc_chain n) = false →
  (∃ n', cleanOldCheckpoints b n = Returns n' () ∧ ch_ckptLocked (hc_chain n') = false ∧
     ∀ k, ch_checkpoints (hc_chain n') !! k
       = if decide (k < b - umul i 2) then None else ch_checkpoints (hc_chain n) !! k) ∧
  ∃ n1, createCheckpoint codec_l codec_d now b n = Blocks n1 ∧
    (∃ ck, ch_checkpoints (hc_chain n1) !! b = Some ck) ∧
    ∀ n2, star step n1 n2 →
      ch_checkpoints (hc_chain n2) = ch_checkpoints (hc_chain n1) ∧
      (∀ k, HasCheckpoint k n2 = Blocks n2) ∧
      (∀ renv, recoverFromError codec_l codec_d renv n2 = Blocks n2) ∧
      (∀ now' b', b' mod i = 0 → createCheckpoint codec_l codec_d now' b' n2 = Blocks n2).
Proof.
  intros Hl Hd i Hi Hb Hmod Hlt Hfree. split.
  { rewrite cleanOldCheckpoints_free by done. eexists. split; [done|]. split; [done|].
    intros k. cbn. fold i. rewrite delete_old_lookup. unfold usub. rewrite u64_small; [done|].
    pose proof (u64_range (i * 2)). unfold umul in *. unfold is_u64 in *. lia. }
  unfold createCheckpoint at 1. fold i.
  rewrite (proj2 (Z.eqb_neq _ _)), Hmod, Hl, Hd by lia. cbn [negb orb Z.eqb]. cbn zeta.
  rewrite store_section, Hfree. fold i. rewrite (proj2 (Z.leb_gt _ _) Hlt).
  set (ck := build_checkpoint _ _ _ _ _). eexists. split; [done|]. split.
  { exists ck. cbn. by rewrite lookup_insert_eq. }
  intros n2 Hrun. destruct (run_moves _ _ _ _ _ _ _ _ Hrun) as [Hs _].
  destruct (sh_locked _ _ Hs eq_refl) as (H1 & H2 & _).
  assert (hc_cfg n2 = hc_cfg n) as Hcfg by apply (sh_cfg _ _ Hs).
  split; [exact H2|]. unfold HasCheckpoint, recoverFromError, createCheckpoint, ckpt_lock.
  cbn zeta. setoid_rewrite store_section.
  rewrite H1, Hcfg. split_and!; [done|done|]. intros now' b' Hm. fold i.
  rewrite (proj2 (Z.eqb_neq _ _)), Hm, Hl, Hd by lia. done.
Qed.

(** C14: processing a block that is not ahead of the chain, when events can
    be serialised.  A yes means -- outside test mode -- that it was the next
    block; height and hash are then its own.  After an error both are
    unchanged.  A call that never returns has already moved the height, to a
    multiple of 1000. *)
Theorem ProcessBlock_correct env renv b n : 0 ≤ b →
  b ≤ uadd (lastBlockHeight (hc_chain n)) 1 → (∀ evs, marshal_events evs ≠ None) →
  match ProcessBlock pow wild_uint marshal_events marshal_block codec_l codec_d env renv b n with
  | Returns n' (Ok _) =>
      (IsTestMode n = false → b = uadd (lastBlockHeight (hc_chain n)) 1) ∧
      lastBlockHeight (hc_chain n') = b ∧
      ∃ blk evs data, marshal_block blk evs = Some data ∧ blk_Number blk = b ∧
        lastBlockHash (hc_chain n') = sha256 data
  | Returns n' (Err _) =>
      lastBlockHeight (hc_chain n') = lastBlockHeight (hc_chain n) ∧
      lastBlockHash (hc_chain n') = lastBlockHash (hc_chain n)
  | Blocks n' => lastBlockHeight (hc_chain n') = b ∧ b mod checkpoint_interval = 0
  | Panics => process_epochs pow wild_uint env b n = None ∨
      CheckpointInterval (hc_cfg n) = 0 ∧ b mod checkpoint_interval = 0
  end.
Proof.
  intros Hb Hgap Hser.
  pose proof (ProcessBlock_ends pow wild_uint marshal_events marshal_block codec_l codec_d env renv b n Hb)
    as He.
  destruct (ProcessBlock _ _ _ _ _ _ _ _ _ _) as [n' r| |n'] eqn:Hp.
  - destruct He as [_ He]. destruct (He (conj Hgap Hser)) as [Hr Hn].
    destruct r as [u|e]; [|exact Hr]. split; [intros Ht; by apply (Hn u)|exact Hr].
  - by apply (plain_panics pow wild_uint marshal_events marshal_block codec_l codec_d env renv).
  - destruct He as [_ He]. by destruct (He (conj Hgap Hser)).
Qed.

(** recovery.  The PoH never goes back: when it has advanced past the
    last checkpoint -- one block, event or tick is enough -- recovering from
    it always fails, whatever the serialised states are; the height, the
    checkpoints and the PoH are then as before. *)
Theorem recovery_needs_idle_history env n ck :
  ch_checkpoints (hc_chain n) !! lastCheckpoint (hc_chain n) = Some ck →
  ck_PoHCount ck < GetCount (hc_poh n) →
  ∃ n' e, recover_state codec_l codec_d env n = (n', Err e) ∧
    GetSnapshot (hc_poh n') = GetSnapshot (hc_poh n) ∧
    lastBlockHeight (hc_chain n') = lastBlockHeight (hc_chain n) ∧
    ch_checkpoints (hc_chain n') = ch_checkpoints (hc_chain n).
Proof.
  intros Hck Hlt. unfold recover_state. rewrite Hck.
  pose proof (restore_calm codec_l codec_d env ck n) as Hc.
  assert (∃ e, (restore_parts codec_l codec_d env ck n).2 = Some e ∧
    hc_poh (restore_parts codec_l codec_d env ck n).1 = hc_poh n) as (e & He & Hp).
  { unfold restore_parts, restore_lachesis, restore_dpos, synchronize.
    destruct (Lachesis.RestoreState _ _ _ _) as [l [[]|]]; [|by eexists].
    destruct (DPoSState.RestoreState _ _ _ _) as [d [[]|]]; [|by eexists].
    unfold PoH.Synchronize, GetCount in *. cbn [hc_poh with_core with_node_lachesis].
    rewrite (proj2 (Z.ltb_lt _ _) Hlt). by eexists. }
  destruct (restore_parts _ _ _ _ _) as [n1 r]. cbn [fst snd] in *. subst r.
  pose proof (rollback_calm codec_l codec_d env n n1) as Hr.
  eexists _, e. split; [done|]. split.
  - unfold rollback, restore_lachesis, restore_dpos, synchronize. cbn zeta.
    assert (∀ m, hc_poh m = hc_poh n1 → GetSnapshot (PoH.Synchronize (re_now2 env)
      (PoH.GetState (hc_poh n)) (GetCount (hc_poh n)) (hc_poh m)).1 = GetSnapshot (hc_poh n)) as Hs.
    { intros m ->. rewrite Hp. unfold PoH.Synchronize, GetCount. by rewrite Z.ltb_irrefl. }
    destruct (is_nil _), (is_nil _);
      repeat match goal with |- context [Lachesis.RestoreState ?a ?b ?c ?d] =>
        destruct (Lachesis.RestoreState a b c d) as [? ?] end;
      repeat match goal with |- context [DPoSState.RestoreState ?a ?b ?c ?d] =>
        destruct (DPoSState.RestoreState a b c d) as [? ?] end; cbn [fst];
      (match goal with |- GetSnapshot (hc_poh (let '(p, r) := PoH.Synchronize _ _ _ (hc_poh ?m) in _).1) = _ =>
         specialize (Hs m eq_refl); by destruct (PoH.Synchronize _ _ _ (hc_poh m)) end).
  - split; [by rewrite (calm_height _ _ Hr), (calm_height _ _ Hc)|].
    by rewrite (calm_checkpoints _ _ Hr), (calm_checkpoints _ _ Hc).
Qed.
End properties.

(** The three calls of a life cycle. *)
Lemma start_first n : ch_running (hc_chain n) = false → startDone (hc_chain n) = false →
  running (hy_lachesis (hc_core n)) = false → isProcessing (hc_batch n) = false →
  ∃ n1, start_node n = (n1, Ok ()) ∧ ch_running (hc_chain n1) = true ∧
    startDone (hc_chain n1) = true ∧ stopDone (hc_chain n1) = stopDone (hc_chain n) ∧
    running (hy_lachesis (hc_core n1)) = true ∧ isProcessing (hc_batch n1) = true.
Proof.
  intros Hr Hs Hl Hb. unfold start_node. rewrite Hr, Hs. cbn zeta.
  set (n0 := on_chain _ n). change (hy_lachesis (hc_core n0)) with (hy_lachesis (hc_core n)).
  unfold Lachesis.Start. rewrite Hl. set (n1 := with_node_lachesis _ n0).
  change (hc_batch n1) with (hc_batch n). unfold Batch.Start. rewrite Hb. by eexists.
Qed.

Lemma stop_first n : ch_running (hc_chain n) = true → stopDone (hc_chain n) = false →
  ∃ n2, stop_node n = (n2, Ok ()) ∧ ch_running (hc_chain n2) = false ∧
    startDone (hc_chain n2) = startDone (hc_chain n) ∧ stopDone (hc_chain n2) = true ∧
    running (hy_lachesis (hc_core n2)) = false ∧ isProcessing (hc_batch n2) = false.
Proof.
  intros Hr Ht. unfold stop_node. rewrite Hr, Ht. cbn [negb]. eexists. split; [done|].
  split_and!; try done; cbn [hc_core hc_batch with_batch with_node_lachesis with_core
    hy_lachesis with_lachesis on_chain with_chain].
  - unfold Lachesis.Stop. destruct (running (hy_lachesis (hc_core n))) eqn:Hl; done.
  - unfold Batch.Stop. destruct (isProcessing (hc_batch n)) eqn:Hb; done.
Qed.

Lemma start_again n : ch_running (hc_chain n) = false → startDone (hc_chain n) = true →
  start_node n = (on_chain (λ c, set_life true true (stopDone c) c) n, Ok ()).
Proof. intros Hr Hs. unfold start_node. by rewrite Hr, Hs. Qed.

(** a node has one life.  From a node that was never started: start,
    stop and start again all succeed, but the second start starts nothing --
    the node says it runs while Lachesis and the batch processor are stopped
    -- and the second stop succeeds without stopping it: from then on
    starting is refused and the state never changes again. *)
Theorem restart_is_hollow n : ch_running (hc_chain n) = false →
  startDone (hc_chain n) = false → stopDone (hc_chain n) = false →
  running (hy_lachesis (hc_core n)) = false → isProcessing (hc_batch n) = false →
  let n1 := (start_node n).1 in let n2 := (stop_node n1).1 in let n3 := (start_node n2).1 in
  (start_node n).2 = Ok () ∧ (stop_node n1).2 = Ok () ∧ (start_node n2).2 = Ok () ∧
  running (hy_lachesis (hc_core n1)) = true ∧ isProcessing (hc_batch n1) = true ∧
  ch_running (hc_chain n3) = true ∧ running (hy_lachesis (hc_core n3)) = false ∧
  isProcessing (hc_batch n3) = false ∧
  stop_node n3 = (n3, Ok ()) ∧ ∃ e, start_node n3 = (n3, Err e).
Proof.
  intros Hr Hs Ht Hl Hb. cbn zeta.
  destruct (start_first n Hr Hs Hl Hb) as (n1 & -> & R1 & S1 & T1 & L1 & B1). cbn [fst snd].
  destruct (stop_first n1 R1 ltac:(by rewrite T1)) as (n2 & -> & R2 & S2 & T2 & L2 & B2). cbn [fst snd].
  rewrite (start_again n2 R2 ltac:(by rewrite S2)). cbn [fst snd]. set (n3 := on_chain _ n2).
  assert (ch_running (hc_chain n3) = true) as R3 by done.
  assert (stopDone (hc_chain n3) = true) as T3 by exact T2.
  split_and!; try done.
  - unfold stop_node. by rewrite R3, T3.
  - unfold start_node. rewrite R3. by eexists.
Qed.

(** the old constructor leaves the checkpoint interval zero: however the
    node runs, the first block whose number is a multiple of 1000 divides by
    it, after it was applied, and the process panics. *)
Theorem old_constructor_panics pow wild_uint marshal_events marshal_block codec_l codec_d
    now order wild gossip tick size epoch voting n env b blk data :
  star (node_step pow wild_uint marshal_events marshal_block codec_l codec_d)
    (NewHybridConsensus now order wild gossip tick size epoch voting) n →
  marshal_block blk (slice_events (node_dag n) (blk_Events blk)) = Some data →
  b mod checkpoint_interval = 0 →
  finish_block marshal_block codec_l codec_d env b blk n = Panics.
Proof.
  intros Hrun Hdata Hb. destruct (run_moves _ _ _ _ _ _ _ _ Hrun) as [Hs _].
  unfold finish_block. rewrite Hdata, Hb. cbn [Z.eqb bind_outcome].
  assert (CheckpointInterval (hc_cfg n) = 0) as Hz by by rewrite (sh_cfg _ _ Hs).
  unfold createCheckpoint. cbn [hc_cfg on_chain with_chain]. by rewrite Hz.
Qed.

(** ** Choosing a checkpoint *)

Section latest.
Variable target : Z.
Variable m : gmap Z Checkpoint.
Hypothesis keyed : ∀ k ck, m !! k = Some ck → ck_BlockNumber ck = k.

(** The best among the keys visited so far. *)
Definition best_of (seen : Z → Prop) (best : option Checkpoint) : Prop :=
  match best with
  | None => ∀ k ck, seen k → m !! k = Some ck → target < ck_PoHCount ck
  | Some b => m !! ck_BlockNumber b = Some b ∧ ck_PoHCount b ≤ target ∧
      ∀ k ck, seen k → m !! k = Some ck → ck_PoHCount ck ≤ target → k ≤ ck_BlockNumber b
  end.

Lemma best_fold order : ∀ best (seen : Z → Prop), best_of seen best →
  best_of (λ k, seen k ∨ k ∈ order)
    (foldl (λ best k,
       match m !! k with
       | None => best
       | Some c =>
           if ck_PoHCount c <=? target then
             match best with
             | None => Some c
             | Some b => if ck_BlockNumber b <? k then Some c else best
             end
           else best
       end) best order).
Proof.
  induction order as [|k order IH]; intros best seen Hbest; cbn [foldl].
  { destruct best as [b|]; cbn in *.
    - destruct Hbest as (H1 & H2 & H3). split_and!; [done|done|].
      intros k ck [Hs|Hk]; [by apply H3|by apply elem_of_nil in Hk].
    - intros k ck [Hs|Hk]; [by apply Hbest|by apply elem_of_nil in Hk]. }
  match goal with |- best_of _ (foldl _ ?b _) => set (best' := b) end.
  assert (best_of (λ j, seen j ∨ j = k) best') as H'.
  { unfold best'. destruct (m !! k) as [c|] eqn:Hk.
    2: { destruct best as [b|]; cbn in *.
      - destruct Hbest as (H1 & H2 & H3). split_and!; [done|done|].
        intros j ck [Hs| ->]; [by apply H3|congruence].
      - intros j ck [Hs| ->]; [by apply Hbest|congruence]. }
    destruct (Z.leb_spec (ck_PoHCount c) target) as [Hle|Hgt].
    2: { destruct best as [b|]; cbn in *.
      - destruct Hbest as (H1 & H2 & H3). split_and!; [done|done|].
        intros j ck [Hs| ->] Hj Ht; [by eapply H3|]. assert (ck = c) by congruence. subst. lia.
      - intros j ck [Hs| ->] Hj; [by eapply Hbest|]. congruence. }
    pose proof (keyed k c Hk) as Hc. destruct best as [b|]; cbn in *.
    - destruct Hbest as (H1 & H2 & H3). destruct (Z.ltb_spec (ck_BlockNumber b) k) as [Hlt|Hge].
      + split_and!; [by rewrite Hc|done|]. rewrite Hc.
        intros j ck [Hs| ->] Hj Ht; [|lia]. specialize (H3 j ck Hs Hj Ht). lia.
      + split_and!; [done|done|]. intros j ck [Hs| ->] Hj Ht; [by eapply H3|done].
    - split_and!; [by rewrite Hc|done|]. rewrite Hc.
      intros j ck [Hs| ->] Hj Ht; [|lia]. specialize (Hbest j ck Hs Hj). lia. }
  specialize (IH best' _ H').
  destruct (foldl _ best' order) as [b|]; cbn in *.
  - destruct IH as (H1 & H2 & H3). split_and!; [done|done|]. intros j ck Hj.
    apply H3. rewrite elem_of_cons in Hj. tauto.
  - intros j ck Hj. apply IH. rewrite elem_of_cons in Hj. tauto.
Qed.
End latest.

(** the checkpoint a synchronisation starts from.  Whatever the order in
    which the map is walked, it is the checkpoint with the highest number
    among those whose PoH count is not past the target, and none only if
    there is no such checkpoint. *)
Theorem latest_before_correct target order m : iter_order m order →
  (∀ k ck, m !! k = Some ck → ck_BlockNumber ck = k) →
  match latest_before target order m with
  | None => ∀ k ck, m !! k = Some ck → target < ck_PoHCount ck
  | Some b => m !! ck_BlockNumber b = Some b ∧ ck_PoHCount b ≤ target ∧
      ∀ k ck, m !! k = Some ck → ck_PoHCount ck ≤ target → k ≤ ck_BlockNumber b
  end.
Proof.
  intros [_ Hord] Hkey.
  pose proof (best_fold target m Hkey order None (λ _, False) ltac:(by intros ? ? [])) as Hb.
  unfold latest_before. destruct (foldl _ None order) as [b|]; cbn in Hb.
  - destruct Hb as (H1 & H2 & H3). split_and!; [done|done|]. intros k ck Hk.
    apply H3; [right; apply Hord; by eexists|done].
  - intros k ck Hk. apply (Hb k ck); [right; apply Hord; by eexists|done].
Qed.

(** * Concrete runs *)

(** Encoders that always yield the same text; decoders that yield the state
    of a new component. *)
Definition m_events (_ : option (list Event)) : option (list byte) := Some [x01].
Definition m_block (b : Block) (_ : option (list Event)) : option (list byte) :=
  Some (be64 (blk_Number b)).
Definition toy_l : codecs :=
  mkCodecs (λ _, [x01]) (λ _, Some (state_of NewDAG))
    (λ _, [x01]) (λ _, Some (gossip_state_of (lc_gossip (NewLachesis 100))))
    (λ _, [x01]) (λ _, Some (f_lit 66 2))
    (λ _, [x01]) (λ _, Some (mkFinState ∅ ∅))
    (λ _, [x01]) (λ _, Some (mkLachesisState [x01] [x01] [x01] [x01] ∅)).
Definition toy_d : (dpos_state → list byte) * (list byte → option dpos_state) :=
  ((λ _, [x01]), λ _, Some (dpos_state_of (NewDPoS 1 1))).

Definition benv : block_env := mkBlockEnv (λ _, fenv 9) (λ _, 9) (λ _, 9)
  (λ m, (map_to_list m).*1) (λ m, (map_to_list m).*1) 1 any_order keys_of keys_of 9.
Definition renv : recover_env :=
  mkRecEnv (λ _, mkOrders [] [] [] [] [] []) (λ _, []) 9 9 node_order.

(** The node with one validator, started; then its first block. *)
Definition started : HybridConsensus := (start_node node1).1.
Definition first_block : outcome (result go_error ()) :=
  ProcessBlock pow1 wild1 m_events m_block toy_l toy_d benv renv 1 started.
Definition state_after {A} (o : outcome A) (n : HybridConsensus) : HybridConsensus :=
  default n (left_state o).
Definition block1 : HybridConsensus := state_after first_block started.

Definition ckpt0 : HybridConsensus := state_after (createCheckpoint toy_l toy_d 9 0 started) started.
Definition ckpt1 : HybridConsensus := (produceBlock m_events 9 9 1 node_a ckpt0).1.

Lemma left_some {A} (o : outcome A) :
  match o with Panics => false | _ => true end = true → ∃ m, left_state o = Some m.
Proof. destruct o; [by eexists|done|by eexists]. Qed.

Abbreviation toy_step := (node_step pow1 wild1 m_events m_block toy_l toy_d).

Lemma started_run : star toy_step node0 started.
Proof.
  apply (star_snoc _ _ node1); [|apply ns_start].
  apply (star_snoc _ _ node0); [apply star_refl|]. by apply ns_calm, calm_chain.
Qed.

Lemma block1_run : star toy_step node0 block1.
Proof.
  apply (star_snoc _ _ started); [apply started_run|].
  apply (ns_ProcessBlock _ _ _ _ _ _ benv renv 1); [done|].
  unfold block1, state_after. fold first_block.
  destruct (left_some first_block) as [m ->]; [by vm_compute|done].
Qed.

Lemma blocks_are_empty_witness :
  lastBlockHeight (hc_chain block1) = 1 ∧
  ∃ n' blk, produceBlock m_events 10 10 2 node_a block1 = (n', Ok blk) ∧
    default [] (blk_Events blk) = [] ∧ pend n' = [].
Proof.
  split; [by vm_compute|].
  destruct (produceBlock m_events 10 10 2 node_a block1) as [n' [blk|e]] eqn:Hp.
  - exists n', blk. split; [done|].
    exact (blocks_are_empty pow1 wild1 m_events m_block toy_l toy_d 0 keys_of wild0
      DefaultHybridConfig block1 10 10 2 node_a n' blk block1_run Hp).
  - exfalso. unfold produceBlock, collectPendingEvents, m_events in Hp. cbn zeta in Hp.
    by destruct (Record_ _ _ _).
Defined.

Lemma checkpoints_well_formed_witness :
  (ck_BlockNumber <$> ch_checkpoints (hc_chain ckpt0) !! 0 = Some 0) ∧
  ∀ k ck, ch_checkpoints (hc_chain ckpt0) !! k = Some ck →
    ck_BlockNumber ck = k ∧ k mod CheckpointInterval (hc_cfg ckpt0) = 0.
Proof.
  split; [by vm_compute|].
  apply (checkpoints_well_formed pow1 wild1 m_events m_block toy_l toy_d 0 keys_of wild0
    DefaultHybridConfig ckpt0).
  apply (star_snoc _ _ started); [apply started_run|].
  apply (ns_createCheckpoint _ _ _ _ _ _ 9 0); [done|].
  unfold ckpt0, state_after.
  destruct (left_some (createCheckpoint toy_l toy_d 9 0 started)) as [m ->]; [by vm_compute|done].
Defined.

Lemma checkpoint_deadlock_witness :
  (∃ n', cleanOldCheckpoints 3000 ckpt0 = Returns n' () ∧ ch_ckptLocked (hc_chain n') = false ∧
     ch_checkpoints (hc_chain n') !! 0 = None) ∧
  ∃ n1, createCheckpoint toy_l toy_d 9 3000 ckpt0 = Blocks n1 ∧
    ∀ n2, star toy_step n1 n2 → recoverFromError toy_l toy_d renv n2 = Blocks n2.
Proof.
  destruct (checkpoint_deadlock pow1 wild1 m_events m_block toy_l toy_d 9 3000 ckpt0)
    as ((n' & H1 & H2 & H3) & n1 & Hn1 & _ & Hall); [done|done|by vm_compute..|].
  split; [exists n'; split; [exact H1|]; split; [exact H2|exact (H3 0)]|].
  exists n1. split; [exact Hn1|]. intros n2 Hrun. by apply (Hall n2 Hrun).
Defined.

Lemma ProcessBlock_correct_witness :
  ∃ n', first_block = Returns n' (Ok ()) ∧ lastBlockHeight (hc_chain n') = 1 ∧
    ∃ blk evs data, m_block blk evs = Some data ∧ blk_Number blk = 1 ∧
      lastBlockHash (hc_chain n') = sha256 data.
Proof.
  assert (1 ≤ uadd (lastBlockHeight (hc_chain started)) 1) as Hgap by by vm_compute.
  assert (match first_block with Returns _ (Ok _) => true | _ => false end = true) as Hr
    by by vm_compute.
  pose proof (ProcessBlock_correct pow1 wild1 m_events m_block toy_l toy_d benv renv 1 started
    Z.le_0_1 Hgap (λ evs, ltac:(discriminate))) as H.
  unfold first_block in *.
  destruct (ProcessBlock _ _ _ _ _ _ _ _ _ _) as [n' [[]|e]| |n']; try done.
  exists n'. split; [done|]. apply H.
Defined.

Lemma recovery_needs_idle_history_witness :
  GetCount (hc_poh ckpt1) = 1 ∧
  ∃ n' e, recover_state toy_l toy_d renv ckpt1 = (n', Err e) ∧
    GetSnapshot (hc_poh n') = GetSnapshot (hc_poh ckpt1).
Proof.
  split; [by vm_compute|].
  assert (ck_PoHCount <$> ch_checkpoints (hc_chain ckpt1) !! lastCheckpoint (hc_chain ckpt1) = Some 0)
    as Hc by by vm_compute.
  destruct (ch_checkpoints (hc_chain ckpt1) !! lastCheckpoint (hc_chain ckpt1)) as [ck|] eqn:Hck;
    [|done]. injection Hc as Hc.
  destruct (recovery_needs_idle_history toy_l toy_d renv ckpt1 ck Hck)
    as (n' & e & H1 & H2 & _); [rewrite Hc; by vm_compute|].
  exists n', e. split; [exact H1|exact H2].
Defined.

Lemma restart_is_hollow_witness :
  let n3 := (start_node (stop_node (start_node node1).1).1).1 in
  ch_running (hc_chain n3) = true ∧ running (hy_lachesis (hc_core n3)) = false ∧
  stop_node n3 = (n3, Ok ()).
Proof.
  destruct (restart_is_hollow node1) as (_ & _ & _ & _ & _ & H1 & H2 & _ & H3 & _); [done..|].
  split; [exact H1|split; [exact H2|exact H3]].
Defined.

Lemma old_constructor_panics_witness :
  finish_block m_block toy_l toy_d benv 1000 (mkBlock 1000 9 "" None "")
    (NewHybridConsensus 0 keys_of wild0 second second 21 1000 (2 * minute)) = Panics.
Proof.
  apply (old_constructor_panics pow1 wild1 m_events m_block toy_l toy_d 0 keys_of wild0 second second
    21 1000 (2 * minute) _ benv 1000 (mkBlock 1000 9 "" None "") (be64 1000));
    [apply star_refl|done|done].
Defined.

Definition ckpt_at (b c : Z) : Checkpoint := mkCheckpoint b [x01] [x01] zero32 c 0 ∅.
Definition three_ckpts : gmap Z Checkpoint :=
  <[1000 := ckpt_at 1000 10]> (<[2000 := ckpt_at 2000 20]> (<[3000 := ckpt_at 3000 30]> ∅)).

Lemma latest_before_correct_witness :
  latest_before 25 [3000; 1000; 2000] three_ckpts = Some (ckpt_at 2000 20) ∧
  ∀ k ck, three_ckpts !! k = Some ck → ck_PoHCount ck ≤ 25 → k ≤ 2000.
Proof.
  assert (latest_before 25 [3000; 1000; 2000] three_ckpts = Some (ckpt_at 2000 20)) as Hl by done.
  split; [exact Hl|].
  pose proof (latest_before_correct 25 [3000; 1000; 2000] three_ckpts) as H. rewrite Hl in H.
  destruct H as (_ & _ & H); [by solve_order| |exact H].
  intros k ck. unfold three_ckpts. rewrite !lookup_insert_Some, lookup_empty.
  intros [[<- <-]|[_ [[<- <-]|[_ [[<- <-]|[_ ?]]]]]]; done.
Defined.
