(* ===== verification/Production.v ===== *)
(** * The node's workers: src/consensus/diamantehybrid.go

    The block worker ([startBlockProduction]) with its backoff, its recovery
    and the limit of test mode, the PoH worker, the health check, the metrics
    and the test checkpoint.  A worker is a state and a function of the next
    message it selects; what it logs, sleeps or starts is returned as a list
    of effects. *)
From Stdlib Require Import ZArith Lia SpecFloat.
From Stdlib Require Import Strings.Byte Strings.String.
From stdpp Require Import numbers prelude gmap strings relations sorting pretty.
From S2P Require Import Prelude GoFloat FloatBounds Bytes Sha256 Maps Common PoH DPoS Dag DPoSState.
From S2P Require Import Voting Finalizer Gossip Lachesis Governance ValMgr Errors Recovery Batch Flow.
From S2P Require Import Node NodeProps NodeChain.
Open Scope Z_scope.

Definition testMaxBlocks : Z := 200.
Definition MaxPendingEvents : Z := 10000.

(** ** Health check *)

Inductive health_warning :=
| PoHBehind (diff : Z)
| ManyPending (count : Z)
| OldCheckpoint (last recommended : Z).

(** The warnings for a PoH count, a height, a number of pending events and a
    last checkpoint. *)
Definition health_warnings (pohCount blockHeight pending last : Z) : list health_warning :=
  (if (0 <? blockHeight) && (pohCount <? blockHeight)
   then [PoHBehind (usub blockHeight pohCount)] else [])
  ++ (if Z.quot MaxPendingEvents 2 <? pending then [ManyPending pending] else [])
  ++ (if (checkpoint_interval <? blockHeight)
         && (last <? usub blockHeight (umul 2 checkpoint_interval))
      then [OldCheckpoint last (usub blockHeight checkpoint_interval)] else []).

Definition performHealthCheck (order : list bytes32) (n : HybridConsensus) : list health_warning :=
  health_warnings (GetCount (hc_poh n)) (lastBlockHeight (hc_chain n))
    (Z.of_nat (length (Flow.GetPendingEvents order (hc_flow n)))) (lastCheckpoint (hc_chain n)).

(** ** Metrics *)

Record NodeMetrics := mkNodeMetrics {
  nm_height : Z;
  nm_pending : Z;
  nm_active : Z;
  nm_stake : Z;
  nm_load : f64;
  nm_poh : Z }.

Definition GetNetworkLoad (n : HybridConsensus) : f64 :=
  Lachesis.GetNetworkLoad (hy_lachesis (hc_core n)).

Definition collectMetrics (n : HybridConsensus) : NodeMetrics :=
  mkNodeMetrics (lastBlockHeight (hc_chain n))
    (Z.of_nat (length (default [] (ch_pending (hc_chain n)))))
    (Z.of_nat (length (ValMgr.GetActiveValidators (hc_vm n))))
    (ValMgr.GetTotalStake (hc_vm n)) (GetNetworkLoad n) (GetCount (hc_poh n)).

(** ** PoH worker *)

Definition poh_start (n : HybridConsensus) : HybridConsensus :=
  with_poh (SetTickDelay (clampDuration (GetTickDelay (hc_poh n)) minPoHDelay maxPoHDelay) (hc_poh n)).1 n.

(** The worker after the ticks at the given times; other goroutines may
    change the node in between, which [between] stands for. *)
Definition startPoH (between : HybridConsensus → HybridConsensus) (ticks : list Z)
    (n : HybridConsensus) : HybridConsensus :=
  foldl (λ n now, poh_tick now (between n)) (poh_start n) ticks.

(** ** The test checkpoint *)

Record TestDPoS := mkTestDPoS {
  td_validators : gmap string (string * Z);
  td_active : list string;
  td_height : Z;
  td_epochDuration : Z;
  td_currentEpoch : Z;
  td_maxSetSize : Z }.

Section checkpoint.
(** [json.Marshal] of the fixed Lachesis state and of the DPoS state. *)
Variable test_lachesis : option (list byte).
Variable marshal_test : TestDPoS → option (list byte).

Definition test_dpos (order : list bytes32) (blockNumber : Z) (n : HybridConsensus) : TestDPoS :=
  let ids := (λ v, (byteArrayToString v.1, v.2)) <$> ValMgr.GetValidators order (hc_vm n) in
  let d := hy_dpos (hc_core n) in
  mkTestDPoS (list_to_map (reverse ((λ v, (v.1, v)) <$> ids))) ids.*1 blockNumber (GetEpochDuration d)
    (blockNumber / GetEpochDuration d) (GetSetSize d).

Definition createTestCheckpoint (order : list bytes32) (blockNumber : Z) (n : HybridConsensus) :
    outcome (option go_error) :=
  let interval := CheckpointInterval (hc_cfg n) in
  if interval =? 0 then Panics
  else if negb (blockNumber mod interval =? 0) then
    Returns n (Some (PlainError ("invalid test checkpoint block number " +:+ pretty blockNumber
      +:+ ": not divisible by interval " +:+ pretty interval)))
  else
    match test_lachesis with
    | None => Returns n (Some (PlainError "failed to marshal Lachesis state"))
    | Some lach =>
        if GetEpochDuration (hy_dpos (hc_core n)) =? 0 then Panics
        else
          match marshal_test (test_dpos order blockNumber n) with
          | None => Returns n (Some (PlainError "failed to marshal DPoS state"))
          | Some dpos =>
              let ck := mkCheckpoint blockNumber lach dpos (PoH.GetState (hc_poh n))
                          (GetCount (hc_poh n)) zero_time ∅ in
              ckpt_lock n (Returns
                (on_chain (λ c, set_checkpoints (<[blockNumber := ck]> (ch_checkpoints c)) blockNumber
                                  (ch_ckptLocked c) c) n) None)
          end
    end.
End checkpoint.

(** Waiting for the goroutines, then forgetting the pending events. *)
Definition cleanupGoroutines (n : HybridConsensus) : HybridConsensus :=
  on_chain (set_pending None) n.

(** [Stop] with the wait for the goroutines: [timeout] when it takes longer
    than five seconds. *)
Definition Stop (timeout : bool) (n : HybridConsensus) : HybridConsensus * result go_error () :=
  let first := ch_running (hc_chain n) && negb (stopDone (hc_chain n)) in
  let '(n, r) := stop_node n in
  (n, if first && timeout then Err (PlainError "timeout waiting for goroutines to stop") else r).

(** ** Setters and delegations; the errors of the two are only logged *)

Definition SetLastBlockHeight (h : Z) : HybridConsensus → HybridConsensus := on_chain (set_height h).
Definition SetLastBlockHash (h : bytes32) : HybridConsensus → HybridConsensus := on_chain (set_hash h).
Definition SetRunning (r : bool) : HybridConsensus → HybridConsensus :=
  on_chain (λ c, set_life r (startDone c) (stopDone c) c).

Definition keep_manager (n : HybridConsensus) (o : ValMgr.outcome) : option HybridConsensus :=
  '(vm, h, _) ← o; Some (with_core h (with_vm vm n)).
Definition AddValidator (ord : orders) (now1 now2 now3 : Z) (id : bytes32) (stake : Z)
    (n : HybridConsensus) : option HybridConsensus :=
  keep_manager n (ValMgr.AddValidator ord now1 now2 now3 id stake (hc_vm n) (hc_core n)).
Definition UpdateStake (ord : orders) (id : bytes32) (newStake : Z) (n : HybridConsensus) :
    option HybridConsensus :=
  keep_manager n (ValMgr.UpdateStake ord id newStake (hc_vm n) (hc_core n)).

(** ** Block worker *)

Inductive effect :=
| Slept (d : Z)
| StopStarted (* go hc.Stop() *)
| Collected (m : NodeMetrics)
| Checked (ws : list health_warning).

(** What the worker selects next: a tick of one of its three tickers, or the
    closed stop channel. *)
Inductive message :=
| MsgTick (env : block_env) (renv : recover_env) (timeout : bool)
| MsgMetrics
| MsgHealth (order : list bytes32)
| MsgStop.

(** [None]: the worker has returned; else its count of consecutive errors. *)
Definition worker : Type := option Z.

Section production.
Variable pow : f64 → f64 → f64.
Variable wild : f64 → Z.
Variable wild_uint : f64 → Z.
Variable marshal_events : option (list Event) → option (list byte).
Variable marshal_block : Block → option (list Event) → option (list byte).
Variable codec_l : Lachesis.codecs.
Variable codec_d : (dpos_state → list byte) * (list byte → option dpos_state).

Definition baseBackoff : Z := 2 * second.
Definition maxBackoff : Z := 30 * second.
Definition backoff (errors : Z) : Z :=
  to_int wild (f_min (f_of_Z maxBackoff)
    (f_mul (f_of_Z baseBackoff) (pow (f_of_Z 2) (f_of_Z (i64 (errors - 1)))))).

Definition sleeps (errors : Z) : list effect :=
  if 0 <? errors then [Slept (backoff errors)] else [].

Definition worker_turn (msg : message) (errors : Z) (n : HybridConsensus) :
    outcome (worker * list effect) :=
  match msg with
  | MsgTick env renv timeout =>
      if negb (ch_running (hc_chain n)) then Returns n (None, [])
      else if IsTestMode n && (testMaxBlocks <=? lastBlockHeight (hc_chain n))
      then Returns n (None, [StopStarted])
      else
        bind_outcome
          (production_tick pow wild_uint marshal_events marshal_block codec_l codec_d env renv
             timeout errors n)
          (λ n errors', Returns n (Some errors', sleeps errors))
  | MsgMetrics => Returns n (Some errors, [Collected (collectMetrics n)])
  | MsgHealth order => Returns n (Some errors, [Checked (performHealthCheck order n)])
  | MsgStop => Returns n (None, [])
  end.

(** The worker on the messages it selects; a worker that blocks selects no
    more. *)
Fixpoint startBlockProduction (msgs : list message) (errors : Z) (n : HybridConsensus) :
    outcome (worker * list effect) :=
  match msgs with
  | [] => Returns n (Some errors, [])
  | msg :: msgs =>
      bind_outcome (worker_turn msg errors n) (λ n r,
        match r with
        | (None, effs) => Returns n (None, effs)
        | (Some errors, effs) =>
            bind_outcome (startBlockProduction msgs errors n)
              (λ n r', Returns n (r'.1, effs ++ r'.2))
        end)
  end.
End production.

(** ** The health check *)

(** On a chain whose last checkpoint is not ahead of it, the health check
    calls the checkpoint too old when it lies more than 2000 blocks back, and
    also -- because the subtraction wraps around -- at every height between
    1000 and 2000, whatever the checkpoint. *)
Theorem old_checkpoint_iff pohCount h pending last : is_u64 h → 0 ≤ last ≤ h →
  (∃ l r, OldCheckpoint l r ∈ health_warnings pohCount h pending last)
  ↔ 1000 < h < 2000 ∨ 2000 ≤ h ∧ last + 2000 < h.
Proof.
  intros Hh Hl. unfold is_u64 in Hh.
  assert ((∃ l r, OldCheckpoint l r ∈ health_warnings pohCount h pending last)
    ↔ checkpoint_interval < h ∧ last < usub h (umul 2 checkpoint_interval)) as ->.
  { unfold health_warnings. split.
    - intros (l & r & Hin).
      destruct (_ && (pohCount <? h)), (Z.quot _ _ <? _), (_ && (last <? _)) eqn:Ho; bool_to_prop;
        first [done | exfalso; cbn [app] in Hin; set_solver].
    - intros [H1%Z.ltb_lt H2%Z.ltb_lt]. eexists _, _. apply elem_of_app. right.
      apply elem_of_app. right. rewrite H1, H2. by left. }
  change (umul 2 checkpoint_interval) with 2000.
  unfold checkpoint_interval, usub. destruct (decide (h < 2000)).
  - assert (u64 (h - 2000) = h - 2000 + 18446744073709551616) as ->.
    { unfold u64. rewrite <- (Z.mod_add _ 1) by lia. rewrite Z.mod_small; lia. }
    lia.
  - rewrite u64_small by (unfold is_u64; lia). lia.
Qed.

(** ** The PoH worker *)

Lemma clamp_range d lo hi : lo ≤ hi → lo ≤ clampDuration d lo hi ≤ hi.
Proof. unfold clampDuration. intros. repeat case_match; bool_to_prop; lia. Qed.

Lemma set_clamped d n :
  GetTickDelay (hc_poh (with_poh (SetTickDelay (clampDuration d minPoHDelay maxPoHDelay) (hc_poh n)).1 n))
  = clampDuration d minPoHDelay maxPoHDelay.
Proof.
  pose proof (clamp_range d minPoHDelay maxPoHDelay) as Hc. unfold SetTickDelay.
  destruct (_ <=? 0) eqn:H0; [|done]. bool_to_prop. unfold minPoHDelay, maxPoHDelay, second in *. lia.
Qed.

Lemma tick_delay now p : GetTickDelay (Tick now p) = GetTickDelay p.
Proof. unfold Tick, tickLocked. by case_match. Qed.

(** Whatever the optimizer sets between two ticks, the PoH delay is between a
    millisecond and five seconds after the start and after every tick. *)
Lemma poh_delay_clamped between ticks n :
  minPoHDelay ≤ GetTickDelay (hc_poh (startPoH between ticks n)) ≤ maxPoHDelay.
Proof.
  unfold startPoH. induction ticks as [|now ticks _] using rev_ind.
  - unfold poh_start. simpl foldl. rewrite set_clamped. by apply clamp_range.
  - rewrite foldl_app. cbn [foldl]. unfold poh_tick. cbn [hc_poh with_poh].
    rewrite tick_delay. match goal with |- context [foldl ?f ?a ticks] => set (m := foldl f a ticks) end.
    pose proof (set_clamped (GetTickDelay (hc_poh (between m))) (between m)) as Hs.
    cbn [hc_poh with_poh] in Hs. rewrite Hs. by apply clamp_range.
Qed.

(** ** The backoff *)

Section backoff.
Variables (pow : f64 → f64 → f64) (wild : f64 → Z).

(** [math.Pow] is exact on these powers of two. *)
Hypothesis pow_two : ∀ j, 0 ≤ j < 900 →
  fin (pow (f_of_Z 2) (f_of_Z j)) ∧ fval (pow (f_of_Z 2) (f_of_Z j)) = 2 ^ j * 2 ^ 1074.

(** After k consecutive errors the worker sleeps 2 * 2^(k-1) seconds, at
    most 30: from the fifth error on it is always 30 seconds. *)
Theorem backoff_exact k : 1 ≤ k ≤ 900 →
  backoff pow wild k = Z.min (30 * second) (2 * second * 2 ^ (k - 1)).
Proof using pow_two.
  intros Hk. unfold backoff. rewrite i64_small by (unfold is_i64; lia).
  destruct (pow_two (k - 1)) as [Hpf Hpv]; [lia|].
  assert (exact_int maxBackoff ∧ exact_int baseBackoff) as [He1 He2] by (by split; vm_compute).
  destruct (f_of_Z_fval _ He1) as [Hmf Hmv], (f_of_Z_fval _ He2) as [Hbf Hbv].
  pose proof (pow_pos 1074 ltac:(lia)) as Hp. pose proof (pow_pos (k - 1) ltac:(lia)) as Hq.
  assert (Hrep : rep (baseBackoff * 2 ^ (k - 1) * 2 ^ 1074)).
  { exists baseBackoff, (k - 1 + 1074). split_and!; [by vm_compute|lia..|].
    rewrite Z.pow_add_r by lia. by rewrite Z.mul_assoc. }
  destruct (f_mul_bounds _ _ _ _ Hbf Hpf Hrep Hrep) as [Hxf Hxv]; [rewrite Hbv, Hpv; clear; hide_pow 1074; lia|].
  destruct (f_min_fval _ _ Hmf Hxf) as [Hf Hv].
  unfold to_int. rewrite (f_trunc_fval _ Hf), Hv, Hmv.
  replace (fval (f_mul _ _)) with (baseBackoff * 2 ^ (k - 1) * 2 ^ 1074)
    by (clear - Hxv; hide_pow 1074; lia).
  rewrite Z.mul_min_distr_nonneg_r, Z.quot_mul by lia.
  change maxBackoff with (30 * second). change baseBackoff with (2 * second).
  rewrite decide_True; [done|]. unfold is_i64, second. lia.
Qed.
End backoff.

(** ** The block worker *)

Section worker.
Variable pow : f64 → f64 → f64.
Variable wild : f64 → Z.
Variable wild_uint : f64 → Z.
Variable marshal_events : option (list Event) → option (list byte).
Variable marshal_block : Block → option (list Event) → option (list byte).
Variable codec_l : Lachesis.codecs.
Variable codec_d : (dpos_state → list byte) * (list byte → option dpos_state).

Abbreviation turn := (worker_turn pow wild wild_uint marshal_events marshal_block codec_l codec_d).
Abbreviation run := (startBlockProduction pow wild wild_uint marshal_events marshal_block codec_l codec_d).
Abbreviation process := (ProcessBlock pow wild_uint marshal_events marshal_block codec_l codec_d).

(** Whether a tick tries the next block. *)
Definition producing (n : HybridConsensus) : Prop :=
  ch_running (hc_chain n) = true ∧ (IsTestMode n = true → lastBlockHeight (hc_chain n) < testMaxBlocks).

Lemma turn_producing env renv timeout errors n : producing n →
  turn (MsgTick env renv timeout) errors n
  = bind_outcome (production_tick pow wild_uint marshal_events marshal_block codec_l codec_d env renv
                    timeout errors n) (λ n e, Returns n (Some e, sleeps pow wild errors)).
Proof.
  intros [Hr Hlim]. unfold worker_turn. rewrite Hr. cbn [negb].
  destruct (IsTestMode n) eqn:Ht; cbn [andb]; [|done].
  specialize (Hlim eq_refl). by rewrite (proj2 (Z.leb_gt _ _)).
Qed.

(** What a recovery leaves of the chain: the hash stays; the height becomes
    that of the last checkpoint when its three parts could be restored. *)
Lemma recover_state_chain renv n :
  let n' := (recover_state codec_l codec_d renv n).1 in
  lastBlockHash (hc_chain n') = lastBlockHash (hc_chain n) ∧
  lastBlockHeight (hc_chain n')
    = match ch_checkpoints (hc_chain n) !! lastCheckpoint (hc_chain n) with
      | Some ck => match (restore_parts codec_l codec_d renv ck n).2 with
                   | None => ck_BlockNumber ck
                   | Some _ => lastBlockHeight (hc_chain n)
                   end
      | None => lastBlockHeight (hc_chain n)
      end.
Proof.
  cbn zeta. unfold recover_state. destruct (ch_checkpoints _ !! _) as [ck|]; [|done].
  pose proof (restore_calm codec_l codec_d renv ck n) as Hc.
  destruct (restore_parts _ _ _ _ _) as [n1 [e|]]; cbn [fst snd] in *.
  - pose proof (rollback_calm codec_l codec_d renv n n1) as Hr.
    pose proof (transitivity Hc Hr) as Ht. split; [apply (calm_hash _ _ Ht)|apply (calm_height _ _ Ht)].
  - cbn zeta. assert (∀ r, lastBlockHash (hc_chain (on_chain (set_height (ck_BlockNumber ck)) n1, r : result go_error ()).1)
      = lastBlockHash (hc_chain n) ∧
      lastBlockHeight (hc_chain (on_chain (set_height (ck_BlockNumber ck)) n1, r).1) = ck_BlockNumber ck)
      as H by (intros r; split; [exact (calm_hash _ _ Hc)|done]).
    destruct (verifySystemConsistency _ _); apply H.
Qed.

(** The outcome of a block that was tried, in terms of the chain. *)
Lemma process_chain env renv n : (∀ evs, marshal_events evs ≠ None) →
  let b := uadd (lastBlockHeight (hc_chain n)) 1 in
  match process env renv b n with
  | Panics => process_epochs pow wild_uint env b n = None ∨
      CheckpointInterval (hc_cfg n) = 0 ∧ b mod checkpoint_interval = 0
  | Blocks n1 => lastBlockHeight (hc_chain n1) = b ∧ b mod checkpoint_interval = 0
  | Returns n1 r => block_result marshal_block b n n1 (Some r)
  end.
Proof.
  intros Hser b. assert (0 ≤ b) as Hb by apply u64_range.
  pose proof (ProcessBlock_ends pow wild_uint marshal_events marshal_block codec_l codec_d env renv b n Hb) as Hend.
  destruct (process env renv b n) as [n1 r| |n1] eqn:Hp.
  - destruct Hend as [_ Hend]. by destruct Hend as [Hres _]; [by split|].
  - by apply (plain_panics pow wild_uint marshal_events marshal_block codec_l codec_d env renv).
  - destruct Hend as [_ Hend]. by destruct Hend as [Hres _]; [by split|].
Qed.

(** C23: A tick of the block worker, when events can be serialised, on every
    branch.  It ends the worker when the node has stopped and, in test mode,
    at 200 blocks.  Otherwise it sleeps if there were errors and tries the
    block [b] after the last.  A block in time resets the count, a late one
    counts as an error although it moved height and hash all the same.  A
    block that failed leaves height and hash; it counts as an error and from
    the fifth in a row on the node recovers: the worker waits for ever when
    the checkpoint lock is lost, else the height becomes that of the last
    checkpoint whose parts can be restored.  A block that never returns (in
    its checkpoint) has moved the height and counts as late. *)
Theorem production_tick_correct env renv timeout errors n : (∀ evs, marshal_events evs ≠ None) →
  let b := uadd (lastBlockHeight (hc_chain n)) 1 in
  let t := turn (MsgTick env renv timeout) errors n in
  let counted n' := Returns n' (Some (errors + 1), sleeps pow wild errors) in
  (ch_running (hc_chain n) = false → t = Returns n (None, [])) ∧
  (ch_running (hc_chain n) = true → IsTestMode n = true →
     testMaxBlocks ≤ lastBlockHeight (hc_chain n) → t = Returns n (None, [StopStarted])) ∧
  (producing n →
   match process env renv b n with
   | Panics => t = Panics ∧ (process_epochs pow wild_uint env b n = None ∨
       CheckpointInterval (hc_cfg n) = 0 ∧ b mod checkpoint_interval = 0)
   | Blocks n1 => t = counted n1 ∧ lastBlockHeight (hc_chain n1) = b ∧ b mod checkpoint_interval = 0
   | Returns n1 (Ok _) =>
       t = (if timeout then counted n1 else Returns n1 (Some 0, sleeps pow wild errors)) ∧
       lastBlockHeight (hc_chain n1) = b ∧ ∃ blk evs data, marshal_block blk evs = Some data ∧
         blk_Number blk = b ∧ lastBlockHash (hc_chain n1) = sha256 data
   | Returns n1 (Err _) => chain_kept n n1 ∧
       if timeout || (errors <? 4) then t = counted n1
       else if ch_ckptLocked (hc_chain n1) then t = Blocks n1
       else ∃ n2, t = counted n2 ∧ lastBlockHash (hc_chain n2) = lastBlockHash (hc_chain n) ∧
         lastBlockHeight (hc_chain n2)
           = match ch_checkpoints (hc_chain n1) !! lastCheckpoint (hc_chain n1) with
             | Some ck => match (restore_parts codec_l codec_d renv ck n1).2 with
                          | None => ck_BlockNumber ck
                          | Some _ => lastBlockHeight (hc_chain n)
                          end
             | None => lastBlockHeight (hc_chain n)
             end
   end).
Proof.
  intros Hser b t counted. subst t. split_and!.
  { intros Hr. unfold worker_turn. by rewrite Hr. }
  { intros Hr Ht Hh. unfold worker_turn. rewrite Hr, Ht. cbn [negb andb]. by rewrite (proj2 (Z.leb_le _ _) Hh). }
  intros Hp. rewrite turn_producing by done. unfold production_tick. fold b.
  pose proof (process_chain env renv n Hser) as Hc. cbv zeta in Hc. fold b in Hc.
  destruct (process env renv b n) as [n1 [u|e]| |n1]; cbn [bind_outcome block_result] in *;
    [by destruct timeout| |done|done].
  split; [exact Hc|]. destruct timeout; cbn [orb bind_outcome]; [done|].
  destruct (Z.ltb_spec errors 4) as [H4|H4].
  { by rewrite (proj2 (Z.leb_gt 5 (errors + 1))) by lia. }
  rewrite (proj2 (Z.leb_le 5 (errors + 1))) by lia. unfold recoverFromError, ckpt_lock.
  destruct (ch_ckptLocked (hc_chain n1)); [done|].
  pose proof (recover_state_chain renv n1) as [H1 H2].
  destruct (recover_state _ _ _ _) as [n2 r]. cbn [fst bind_outcome] in *. destruct Hc as [Hh Hx].
  exists n2. split; [done|]. by rewrite H1, H2, Hh.
Qed.

(** Once a checkpoint has deadlocked, the fifth consecutive error ends
    block production for good: the worker waits for the lock, whatever is
    sent to it afterwards, the stop signal included. *)
Theorem production_hangs env renv errors n n1 e msgs : producing n →
  ch_ckptLocked (hc_chain n) = true → 4 ≤ errors →
  process env renv (uadd (lastBlockHeight (hc_chain n)) 1) n = Returns n1 (Err e) →
  run (MsgTick env renv false :: msgs) errors n = Blocks n1.
Proof.
  intros Hp Hl He Hb. cbn [startBlockProduction]. rewrite turn_producing by done.
  unfold production_tick. rewrite Hb. cbn beta iota.
  rewrite (proj2 (Z.leb_le 5 (errors + 1))) by lia. unfold recoverFromError, ckpt_lock.
  pose proof (ProcessBlock_ends pow wild_uint marshal_events marshal_block codec_l codec_d env renv
    (uadd (lastBlockHeight (hc_chain n)) 1) n (proj1 (u64_range _))) as Hend.
  rewrite Hb in Hend. destruct Hend as [[Hs _] _].
  destruct (sh_locked _ _ Hs Hl) as (H1 & _). by rewrite H1.
Qed.
End worker.

(** The test checkpoint keeps the checkpoints well formed, and is stored. *)
Lemma createTestCheckpoint_ok lach marshal order b n : ckpts_ok n →
  match createTestCheckpoint lach marshal order b n with
  | Returns n' None => ckpts_ok n' ∧ is_Some (ch_checkpoints (hc_chain n') !! b)
  | Returns n' (Some _) => n' = n
  | Blocks n' => n' = n ∧ ch_ckptLocked (hc_chain n) = true
  | Panics => True
  end.
Proof.
  intros [H1 H2]. unfold createTestCheckpoint. destruct (_ =? 0); [done|].
  destruct (b mod _ =? 0) eqn:Hmod; cbn [negb]; [|done]. destruct lach; [|done].
  destruct (GetEpochDuration _ =? 0); [done|]. destruct (marshal _); [|done].
  unfold ckpt_lock. destruct (ch_ckptLocked (hc_chain n)); [done|].
  cbn. rewrite lookup_insert_eq. split; [split|by eexists].
  - intros k c. cbn. rewrite lookup_insert_Some. intros [[<- <-]|[_ Hk]]; [|by apply H1].
    split; [done|]. by apply Z.eqb_eq.
  - intros _. cbn. rewrite lookup_insert_eq. by eexists.
Qed.

(** ** On concrete values *)

Lemma old_checkpoint_iff_witness :
  ∃ l r, OldCheckpoint l r ∈ health_warnings 1600 1500 0 1000.
Proof. apply (old_checkpoint_iff 1600 1500 0 1000); [by vm_compute|lia|left; lia]. Defined.

Definition pow_exact (x y : f64) : f64 :=
  match f_trunc y with Some j => f_of_Z (2 ^ j) | None => S754_nan end.

Lemma pow_exact_two j : 0 ≤ j < 900 →
  fin (pow_exact (f_of_Z 2) (f_of_Z j)) ∧ fval (pow_exact (f_of_Z 2) (f_of_Z j)) = 2 ^ j * 2 ^ 1074.
Proof.
  intros Hj. unfold pow_exact.
  destruct (f_of_Z_fval j) as [Hf Hv]; [unfold exact_int; lia|].
  rewrite (f_trunc_fval _ Hf), Hv, Z.quot_mul by done.
  assert (Hr : rep (2 ^ j * 2 ^ 1074)).
  { exists 1, (j + 1074). split_and!; [lia..|]. by rewrite Z.pow_add_r, Z.mul_1_l by lia. }
  destruct (normalize_bounds (2 ^ j) 0 _ _ ltac:(lia) Hr Hr) as [Hn Hb].
  - by replace (0 + 1074) with 1074 by done.
  - split; [exact Hn|]. unfold f_of_Z. clear - Hb. hide_pow 1074. lia.
Qed.

Lemma backoff_exact_witness : backoff pow_exact wild0 3 = 8 * second.
Proof. exact (backoff_exact pow_exact wild0 pow_exact_two 3 ltac:(lia)). Defined.

(** A node whose checkpoint of block 0 can be restored, without validators:
    the fifth failing block sends it back to the checkpoint. *)
Definition sixth : HybridConsensus :=
  on_chain (set_height 6) (state_after (createCheckpoint toy_l toy_d 9 0 (start_node node0).1) node0).

Lemma production_tick_correct_witness :
  (∃ n', worker_turn pow1 wild0 wild1 m_events m_block toy_l toy_d (MsgTick benv renv false) 0 started
    = Returns n' (Some 0, []) ∧ lastBlockHeight (hc_chain n') = 1) ∧
  ∃ n2, worker_turn pow1 wild0 wild1 m_events m_block toy_l toy_d (MsgTick benv renv false) 4 sixth
    = Returns n2 (Some 5, sleeps pow1 wild0 4) ∧ lastBlockHeight (hc_chain n2) = 0.
Proof.
  split.
  - destruct (production_tick_correct pow1 wild0 wild1 m_events m_block toy_l toy_d benv renv false 0
      started (λ evs, ltac:(discriminate))) as (_ & _ & H).
    specialize (H ltac:(split; [by vm_compute|by vm_compute])).
    assert (Hok : match ProcessBlock pow1 wild1 m_events m_block toy_l toy_d benv renv 1 started with
                  | Returns _ (Ok _) => true | _ => false end = true) by by vm_compute.
    change (uadd (lastBlockHeight (hc_chain started)) 1) with 1 in H.
    destruct (ProcessBlock _ _ _ _ _ _ _ _ 1 started) as [n' [u|e]| |n']; [|done|done|done].
    destruct H as (H1 & H2 & _). exists n'. split; [exact H1|exact H2].
  - destruct (production_tick_correct pow1 wild0 wild1 m_events m_block toy_l toy_d benv renv false 4
      sixth (λ evs, ltac:(discriminate))) as (_ & _ & H).
    specialize (H ltac:(split; [by vm_compute|by vm_compute])).
    change (uadd (lastBlockHeight (hc_chain sixth)) 1) with 7 in H.
    assert (Hok : match ProcessBlock pow1 wild1 m_events m_block toy_l toy_d benv renv 7 sixth with
        | Returns n1 (Err _) => negb (ch_ckptLocked (hc_chain n1)) &&
            match ch_checkpoints (hc_chain n1) !! lastCheckpoint (hc_chain n1) with
            | Some ck => (ck_BlockNumber ck =? 0) &&
                match (restore_parts toy_l toy_d renv ck n1).2 with None => true | _ => false end
            | None => false end
        | _ => false end = true) by by vm_compute.
    destruct (ProcessBlock _ _ _ _ _ _ _ _ 7 sixth) as [n1 [u|e]| |n1]; [done| |done|done].
    destruct H as [_ H]. cbn [orb Z.ltb Z.compare] in H.
    apply andb_true_iff in Hok as [Hl Hok]. apply negb_true_iff in Hl. rewrite Hl in H.
    destruct (ch_checkpoints (hc_chain n1) !! lastCheckpoint (hc_chain n1)) as [ck|]; [|done].
    apply andb_true_iff in Hok as [Hz%Z.eqb_eq Hok].
    destruct (restore_parts toy_l toy_d renv ck n1).2; [done|].
    destruct H as (n2 & H1 & _ & H2). exists n2. split; [exact H1|]. by rewrite H2.
Defined.

(** A running node without validators whose checkpointsMu is lost. *)
Definition locked_node : HybridConsensus :=
  state_after (createCheckpoint toy_l toy_d 9 3000 (start_node node0).1) node0.

Lemma production_hangs_witness : ∃ n1,
  startBlockProduction pow1 wild0 wild1 m_events m_block toy_l toy_d
    [MsgTick benv renv false; MsgStop] 4 locked_node = Blocks n1.
Proof.
  assert (Hf : match ProcessBlock pow1 wild1 m_events m_block toy_l toy_d benv renv 1 locked_node with
               | Returns _ (Err _) => true | _ => false end = true) by by vm_compute.
  destruct (ProcessBlock pow1 wild1 m_events m_block toy_l toy_d benv renv 1 locked_node)
    as [n1 [u|e]| |n1] eqn:Hb; [discriminate Hf| |discriminate Hf|discriminate Hf].
  exists n1.
  apply (production_hangs pow1 wild0 wild1 m_events m_block toy_l toy_d benv renv 4 locked_node n1 e [MsgStop]);
    [split; [by vm_compute|by vm_compute]|by vm_compute|done|exact Hb].
Defined.
