(* ===== verification/Checkpoints.v ===== *)
(** * Checkpoint manager: src/consensus/recovery/checkpoint_manager.go

    Checkpoints live in directories of one directory of the disk, next to the
    manager's own maps.  [disk] is that directory: from directory names to
    file names to contents; it survives a restart, the manager does not.
    Every call takes what the file system does during it ([disk_env]): each
    step may fail, and a failing step says what it leaves behind.

    The components are handlers of an interface, the class
    [ComponentCheckpointHandler], acting on a shared world.  JSON is a pair of
    parameters.  The [Metrics] of a checkpoint are always empty and left out,
    as is logging. *)
From Stdlib Require Import ZArith Lia.
From Stdlib Require Import Strings.Byte Strings.String Strings.Ascii.
From stdpp Require Import numbers prelude gmap strings sorting pretty.
From S2P Require Import Prelude GoFloat Maps Bytes.
Open Scope Z_scope.

Record CheckpointMetadata := mkMeta {
  md_Height : Z;
  md_Timestamp : Z;
  md_BlockHash : string;
  md_PreviousHash : string;
  md_StateSize : Z;
  md_Components : list string;
  md_Version : string }.

Inductive CheckpointStatus :=
| CheckpointPending | CheckpointComplete | CheckpointCorrupted | CheckpointVerified.

#[export] Instance ckpt_status_eq_dec : EqDecision CheckpointStatus.
Proof. solve_decision. Defined.

Definition status_String (s : CheckpointStatus) : string :=
  match s with
  | CheckpointPending => "Pending"
  | CheckpointComplete => "Complete"
  | CheckpointCorrupted => "Corrupted"
  | CheckpointVerified => "Verified"
  end.

(** [cp_Path]: the name of the directory, below the manager's. *)
Record Checkpoint := mkCheckpoint {
  cp_Metadata : CheckpointMetadata;
  cp_Status : CheckpointStatus;
  cp_Path : string;
  cp_States : gmap string (list byte) }.

Abbreviation files := (gmap string (list byte)).
Abbreviation disk := (gmap string files).

(** What a failing write leaves of the file, and a failing removal of the
    directory. *)
Inductive io (A : Type) := Done | Failed (rest : A).
Arguments Done {A}.
Arguments Failed {A} rest.

Record disk_env := mkEnv {
  de_mkdir : string → bool;
  de_write : string → string → io (option (list byte));
  de_read : string → string → bool;
  de_stat : string → string → bool;
  de_remove : string → io (option files) }.

(** Everything works. *)
Definition good_disk : disk_env :=
  mkEnv (λ _, true) (λ _ _, Done) (λ _ _, true) (λ _ _, true) (λ _, Done).

(** [os.MkdirAll], [os.WriteFile], [os.ReadFile], [os.Stat],
    [os.RemoveAll]. *)
Definition mkdir (env : disk_env) (dir : string) (d : disk) : disk * bool :=
  if de_mkdir env dir then (<[dir := default ∅ (d !! dir)]> d, true) else (d, false).
Definition put_file (dir file : string) (c : option (list byte)) (d : disk) : disk :=
  match c with
  | None => d
  | Some bs => alter (λ fs, <[file := bs]> fs) dir d
  end.
Definition write_file (env : disk_env) (dir file : string) (bs : list byte) (d : disk) :
    disk * bool :=
  match d !! dir with
  | None => (d, false)
  | Some _ =>
      match de_write env dir file with
      | Done => (put_file dir file (Some bs) d, true)
      | Failed rest => (put_file dir file rest d, false)
      end
  end.
Definition read_file (env : disk_env) (dir file : string) (d : disk) : option (list byte) :=
  if de_read env dir file then d !! dir ≫= (λ fs : files, fs !! file) else None.
Definition stat_file (env : disk_env) (dir file : string) (d : disk) : bool :=
  de_stat env dir file
  && bool_decide (is_Some (d !! dir ≫= (λ fs : files, fs !! file))).
Definition remove_all (env : disk_env) (dir : string) (d : disk) : disk * bool :=
  match de_remove env dir with
  | Done => (delete dir d, true)
  | Failed None => (delete dir d, false)
  | Failed (Some fs) => (alter (λ _, fs) dir d, false)
  end.

(** A component; [None] is an error of [GetCheckpointState], [false] one of
    [RestoreFromCheckpoint]. *)
Class ComponentCheckpointHandler (H W : Type) := {
  GetComponentName : H → string;
  GetCheckpointState : H → W → option (list byte);
  RestoreState_ : H → list byte → W → W * bool }.

Section manager.
Context {H W : Type} `{ComponentCheckpointHandler H W}.
Variable enc_meta : CheckpointMetadata → list byte.
Variable dec_meta : list byte → option CheckpointMetadata.

Record CheckpointManager := mkManager {
  checkpointInterval : Z;
  maxCheckpoints : Z;
  compressionEnabled : bool;
  autoVerify : bool;
  checkpoints : gmap Z Checkpoint;
  lastCheckpoint : Z;
  components : gmap string H;
  pendingCheckpoint : option Checkpoint }.

Definition with_checkpoints (m : gmap Z Checkpoint) (last : Z) (cm : CheckpointManager) :
    CheckpointManager :=
  mkManager (checkpointInterval cm) (maxCheckpoints cm) (compressionEnabled cm) (autoVerify cm)
    m last (components cm) (pendingCheckpoint cm).
Definition with_pending (p : option Checkpoint) (cm : CheckpointManager) : CheckpointManager :=
  mkManager (checkpointInterval cm) (maxCheckpoints cm) (compressionEnabled cm) (autoVerify cm)
    (checkpoints cm) (lastCheckpoint cm) (components cm) p.
Definition with_components (c : gmap string H) (cm : CheckpointManager) : CheckpointManager :=
  mkManager (checkpointInterval cm) (maxCheckpoints cm) (compressionEnabled cm) (autoVerify cm)
    (checkpoints cm) (lastCheckpoint cm) c (pendingCheckpoint cm).
Definition with_settings (interval max : Z) (compress verify : bool) (cm : CheckpointManager) :
    CheckpointManager :=
  mkManager interval max compress verify (checkpoints cm) (lastCheckpoint cm) (components cm)
    (pendingCheckpoint cm).

Definition with_status (s : CheckpointStatus) (c : Checkpoint) : Checkpoint :=
  mkCheckpoint (cp_Metadata c) s (cp_Path c) (cp_States c).

(** ** Construction *)

Inductive CheckpointOption :=
| WithCheckpointInterval (interval : Z)
| WithMaxCheckpoints (max : Z)
| WithCompressionEnabled (enabled : bool)
| WithAutoVerify (enabled : bool).

Definition apply_option (cm : CheckpointManager) (o : CheckpointOption) : CheckpointManager :=
  let '(i, m, c, v) :=
    (checkpointInterval cm, maxCheckpoints cm, compressionEnabled cm, autoVerify cm) in
  match o with
  | WithCheckpointInterval interval => if 0 <? interval then with_settings interval m c v cm else cm
  | WithMaxCheckpoints max => if 0 <? max then with_settings i max c v cm else cm
  | WithCompressionEnabled b => with_settings i m b v cm
  | WithAutoVerify b => with_settings i m c b cm
  end.

Definition metadata_file : string := "metadata.json".
Definition state_file (name : string) : string := name +:+ ".state".
Definition checkpoint_dir (height : Z) : string := "checkpoint_" +:+ pretty height.

(** [fmt.Sscanf(name, "checkpoint_%d", &height)] for a [uint64]: blanks may
    precede the digits and anything may follow them. *)
Definition digit (a : ascii) : option Z :=
  let n := Z.of_nat (nat_of_ascii a) in if (48 <=? n) && (n <=? 57) then Some (n - 48) else None.
Definition blank (a : ascii) : bool :=
  let n := Z.of_nat (nat_of_ascii a) in (n =? 32) || (n =? 9) || (n =? 11) || (n =? 12) || (n =? 13).
Fixpoint skip_blanks (s : string) : string :=
  match s with
  | String a s' => if blank a then skip_blanks s' else s
  | EmptyString => s
  end.
Fixpoint scan_digits (s : string) (acc : Z) : Z :=
  match s with
  | String a s' => match digit a with Some d => scan_digits s' (acc * 10 + d) | None => acc end
  | EmptyString => acc
  end.
Fixpoint strip_prefix (p s : string) : option string :=
  match p, s with
  | EmptyString, _ => Some s
  | String a p, String b s => if bool_decide (a = b) then strip_prefix p s else None
  | _, EmptyString => None
  end.
Definition scan_height (name : string) : option Z :=
  s ← strip_prefix "checkpoint_" name;
  match skip_blanks s with
  | EmptyString => None
  | String a s' =>
      match digit a with
      | None => None
      | Some d => let h := scan_digits s' d in if h <=? u64_max then Some h else None
      end
  end.

(** One directory entry. *)
Definition load_entry (env : disk_env) (d : disk) (cm : CheckpointManager) (name : string) :
    CheckpointManager :=
  match scan_height name with
  | None => cm
  | Some height =>
      match read_file env name metadata_file d ≫= dec_meta with
      | None => cm
      | Some metadata =>
          with_checkpoints
            (<[height := mkCheckpoint metadata CheckpointComplete name ∅]> (checkpoints cm))
            (if lastCheckpoint cm <? height then height else lastCheckpoint cm) cm
      end
  end.

(** [entries]: the listing of the directory, [None] when it cannot be
    read. *)
Definition loadCheckpoints (env : disk_env) (entries : option (list string)) (d : disk)
    (cm : CheckpointManager) : CheckpointManager :=
  match entries with
  | None => cm
  | Some names => foldl (load_entry env d) cm names
  end.

(** [root_ok]: whether the directory can be created. *)
Definition NewCheckpointManager (options : list CheckpointOption) (root_ok : bool)
    (env : disk_env) (entries : option (list string)) (d : disk) : option CheckpointManager :=
  let cm := foldl apply_option (mkManager 1000 10 true true ∅ 0 ∅ None) options in
  if root_ok then Some (loadCheckpoints env entries d cm) else None.

Definition RegisterComponent (c : H) (cm : CheckpointManager) : CheckpointManager :=
  with_components (<[GetComponentName c := c]> (components cm)) cm.
Definition UnregisterComponent (name : string) (cm : CheckpointManager) : CheckpointManager :=
  with_components (delete name (components cm)) cm.

(** ** Creating *)

Inductive CheckpointError :=
| ErrHeightZero
| ErrCheckpointExists (height : Z)
| ErrInProgress
| ErrMkdir
| ErrNothingPending
| ErrWriteMetadata
| ErrNotFound (height : Z)
| ErrNoCheckpoints
| ErrIncomplete (height : Z)
| ErrMetadataMissing
| ErrStateMissing (name : string)
| ErrDeleteDir.

Definition HasCheckpoint (height : Z) (cm : CheckpointManager) : bool :=
  bool_decide (is_Some (checkpoints cm !! height)).
Definition has_pending (cm : CheckpointManager) : bool :=
  bool_decide (is_Some (pendingCheckpoint cm)).

Definition ShouldCreateCheckpoint (height : Z) (cm : CheckpointManager) : bool :=
  if negb (height mod checkpointInterval cm =? 0) then false
  else if HasCheckpoint height cm then false
  else negb (has_pending cm).

Definition CreateCheckpoint (env : disk_env) (now height : Z) (blockHash prevHash : string)
    (cm : CheckpointManager) (d : disk) : CheckpointManager * disk * result CheckpointError Checkpoint :=
  if height =? 0 then (cm, d, Err ErrHeightZero)
  else if HasCheckpoint height cm then (cm, d, Err (ErrCheckpointExists height))
  else if has_pending cm then (cm, d, Err ErrInProgress)
  else
    let path := checkpoint_dir height in
    match mkdir env path d with
    | (d, false) => (cm, d, Err ErrMkdir)
    | (d, true) =>
        let c := mkCheckpoint (mkMeta height now blockHash prevHash 0 [] "1.0") CheckpointPending
                   path ∅ in
        (with_pending (Some c) cm, d, Ok c)
    end.

(** One component of the collection: its state is noted and written; a
    failing write is only logged. *)
Definition collect_one (env : disk_env) (w : W) (cs : gmap string H)
    (acc : Checkpoint * Z * disk) (name : string) : Checkpoint * Z * disk :=
  let '(c, size, d) := acc in
  match cs !! name ≫= (λ h, GetCheckpointState h w) with
  | None => acc
  | Some st =>
      let m := cp_Metadata c in
      let m := mkMeta (md_Height m) (md_Timestamp m) (md_BlockHash m) (md_PreviousHash m)
                 (md_StateSize m) (md_Components m ++ [name]) (md_Version m) in
      (mkCheckpoint m (cp_Status c) (cp_Path c) (<[name := st]> (cp_States c)),
       i64 (size + Z.of_nat (length st)),
       (write_file env (cp_Path c) (state_file name) st d).1)
  end.

Definition set_size (size : Z) (c : Checkpoint) : Checkpoint :=
  let m := cp_Metadata c in
  mkCheckpoint (mkMeta (md_Height m) (md_Timestamp m) (md_BlockHash m) (md_PreviousHash m) size
                  (md_Components m) (md_Version m)) (cp_Status c) (cp_Path c) (cp_States c).

(** ** Cleaning *)

Definition sorted_heights (order : list Z) : list Z := sort_slice Z.ltb order.

Definition clean_one (env : disk_env) (acc : gmap Z Checkpoint * disk) (height : Z) :
    gmap Z Checkpoint * disk :=
  let '(m, d) := acc in
  match m !! height with
  | None => acc
  | Some c =>
      match remove_all env (cp_Path c) d with
      | (d, false) => (m, d)
      | (d, true) => (delete height m, d)
      end
  end.

(** [order]: the iteration over the checkpoints. *)
Definition cleanupOldCheckpoints (env : disk_env) (order : gmap Z Checkpoint → list Z)
    (cm : CheckpointManager) (d : disk) : CheckpointManager * disk :=
  let m := checkpoints cm in
  if Z.of_nat (size m) <=? maxCheckpoints cm then (cm, d)
  else
    let heights := sorted_heights (order m) in
    let old := take (length heights - Z.to_nat (maxCheckpoints cm)) heights in
    let '(m, d) := foldl (clean_one env) (m, d) old in
    (with_checkpoints m (lastCheckpoint cm) cm, d).

(** [names]: the iteration over the components. *)
Definition FinalizeCheckpoint (env : disk_env) (w : W) (names : list string)
    (order : gmap Z Checkpoint → list Z) (cm : CheckpointManager) (d : disk) :
    CheckpointManager * disk * result CheckpointError () :=
  match pendingCheckpoint cm with
  | None => (cm, d, Err ErrNothingPending)
  | Some c =>
      let '(c, size, d) :=
        foldl (collect_one env w (components cm)) (with_status CheckpointComplete c, 0, d) names in
      let c := set_size size c in
      match write_file env (cp_Path c) metadata_file (enc_meta (cp_Metadata c)) d with
      | (d, false) => (with_pending (Some c) cm, d, Err ErrWriteMetadata)
      | (d, true) =>
          let h := md_Height (cp_Metadata c) in
          let cm := with_pending None (with_checkpoints (<[h := c]> (checkpoints cm)) h cm) in
          let '(cm, d) := cleanupOldCheckpoints env order cm d in
          (cm, d, Ok ())
      end
  end.

(** ** Queries *)

Definition GetCheckpoint (height : Z) (cm : CheckpointManager) : result CheckpointError Checkpoint :=
  match checkpoints cm !! height with None => Err (ErrNotFound height) | Some c => Ok c end.

(** The answer [Ok None] is the nil pointer, without an error. *)
Definition GetLatestCheckpoint (cm : CheckpointManager) :
    result CheckpointError (option Checkpoint) :=
  if lastCheckpoint cm =? 0 then Err ErrNoCheckpoints
  else Ok (checkpoints cm !! lastCheckpoint cm).

Definition GetCheckpointHeights (order : gmap Z Checkpoint → list Z) (cm : CheckpointManager) :
    list Z := sorted_heights (order (checkpoints cm)).
Definition GetLastCheckpointHeight (cm : CheckpointManager) : Z := lastCheckpoint cm.
Definition GetCheckpointCount (cm : CheckpointManager) : Z := Z.of_nat (size (checkpoints cm)).

(** ** Restoring, verifying, deleting *)

(** A missing file or a refused state is only logged. *)
Definition restore_one (env : disk_env) (d : disk) (path : string) (cs : gmap string H) (w : W)
    (name : string) : W :=
  match cs !! name, read_file env path (state_file name) d with
  | Some h, Some st => (RestoreState_ h st w).1
  | _, _ => w
  end.

Definition RestoreFromCheckpoint (env : disk_env) (names : list string) (height : Z)
    (cm : CheckpointManager) (d : disk) (w : W) : W * result CheckpointError () :=
  match checkpoints cm !! height with
  | None => (w, Err (ErrNotFound height))
  | Some c =>
      if negb (bool_decide (cp_Status c = CheckpointComplete))
         && negb (bool_decide (cp_Status c = CheckpointVerified))
      then (w, Err (ErrIncomplete height))
      else (foldl (restore_one env d (cp_Path c) (components cm)) w names, Ok ())
  end.

Fixpoint first_missing (env : disk_env) (path : string) (names : list string) (d : disk) :
    option string :=
  match names with
  | [] => None
  | name :: names =>
      if stat_file env path (state_file name) d then first_missing env path names d else Some name
  end.

Definition set_status (height : Z) (s : CheckpointStatus) (cm : CheckpointManager) :
    CheckpointManager :=
  with_checkpoints (alter (with_status s) height (checkpoints cm)) (lastCheckpoint cm) cm.

Definition VerifyCheckpoint (env : disk_env) (height : Z) (cm : CheckpointManager) (d : disk) :
    CheckpointManager * result CheckpointError bool :=
  match checkpoints cm !! height with
  | None => (cm, Err (ErrNotFound height))
  | Some c =>
      if negb (bool_decide (cp_Status c = CheckpointComplete)) then (cm, Err (ErrIncomplete height))
      else if negb (stat_file env (cp_Path c) metadata_file d) then
        (set_status height CheckpointCorrupted cm, Err ErrMetadataMissing)
      else
        match first_missing env (cp_Path c) (md_Components (cp_Metadata c)) d with
        | Some name => (set_status height CheckpointCorrupted cm, Err (ErrStateMissing name))
        | None => (set_status height CheckpointVerified cm, Ok true)
        end
  end.

(** The greatest key, 0 when there is none. *)
Definition greatest (order : list Z) : Z := foldl (λ acc h, if acc <? h then h else acc) 0 order.

Definition DeleteCheckpoint (env : disk_env) (order : gmap Z Checkpoint → list Z) (height : Z)
    (cm : CheckpointManager) (d : disk) : CheckpointManager * disk * result CheckpointError () :=
  match checkpoints cm !! height with
  | None => (cm, d, Err (ErrNotFound height))
  | Some c =>
      match remove_all env (cp_Path c) d with
      | (d, false) => (cm, d, Err ErrDeleteDir)
      | (d, true) =>
          let m := delete height (checkpoints cm) in
          (with_checkpoints m
             (if lastCheckpoint cm =? height then greatest (order m) else lastCheckpoint cm) cm,
           d, Ok ())
      end
  end.

(** ** Settings *)

Definition GetCheckpointInterval (cm : CheckpointManager) : Z := checkpointInterval cm.
Definition SetCheckpointInterval (interval : Z) (cm : CheckpointManager) : CheckpointManager :=
  if interval =? 0 then cm
  else with_settings interval (maxCheckpoints cm) (compressionEnabled cm) (autoVerify cm) cm.
Definition GetMaxCheckpoints (cm : CheckpointManager) : Z := maxCheckpoints cm.
Definition SetMaxCheckpoints (env : disk_env) (order : gmap Z Checkpoint → list Z) (max : Z)
    (cm : CheckpointManager) (d : disk) : CheckpointManager * disk :=
  if max <=? 0 then (cm, d)
  else cleanupOldCheckpoints env order
         (with_settings (checkpointInterval cm) max (compressionEnabled cm) (autoVerify cm) cm) d.
End manager.

(** * Facts *)

(** ** Names *)

Lemma scan_digits_go x : ∀ s, scan_digits (pretty_N_go x s) 0 = scan_digits s (Z.of_N x).
Proof.
  induction (N.lt_wf_0 x) as [x _ IH]. intros s.
  destruct (decide (x = 0)%N) as [->|Hx]; [done|].
  rewrite pretty_N_go_step by lia. rewrite IH by (apply N.div_lt; lia).
  cbn [scan_digits].
  assert (digit (pretty_N_char (x `mod` 10)) = Some (Z.of_N (x `mod` 10))) as ->.
  { assert (x `mod` 10 < 10)%N as Hm by (apply N.mod_lt; lia).
    assert (∃ k : nat, (x `mod` 10)%N = N.of_nat k ∧ (k < 10)%nat) as (k & -> & Hk)
      by (exists (N.to_nat (x `mod` 10)); lia).
    do 10 (destruct k as [|k]; [reflexivity|]). lia. }
  f_equal. pose proof (N.div_mod x 10). lia.
Qed.

Lemma digit_char k : (k < 10)%N → digit (pretty_N_char k) = Some (Z.of_N k).
Proof.
  intros Hk. assert (∃ n : nat, k = N.of_nat n ∧ (n < 10)%nat) as (n & -> & Hn)
    by (exists (N.to_nat k); lia).
  do 10 (destruct n as [|n]; [reflexivity|]). lia.
Qed.

Lemma digit_not_blank a d : digit a = Some d → blank a = false.
Proof.
  unfold digit, blank. intros Hd. case_match eqn:Ha; [|done].
  bool_to_prop. rewrite !orb_false_iff, !Z.eqb_neq. lia.
Qed.

Lemma pretty_head x s : x ≠ 0%N → ∃ a s' d, pretty_N_go x s = String a s' ∧ digit a = Some d.
Proof.
  revert s. induction (N.lt_wf_0 x) as [x _ IH]. intros s Hx.
  rewrite pretty_N_go_step by lia. destruct (decide (x `div` 10 = 0)%N) as [->|Hd].
  - rewrite pretty_N_go_0. eexists _, _, _. split; [done|].
    apply digit_char, N.mod_lt. lia.
  - apply IH; [apply N.div_lt; lia|done].
Qed.

Lemma pretty_Z_scan h : 0 ≤ h →
  ∃ a s d, pretty h = String a s ∧ digit a = Some d ∧ scan_digits s d = h.
Proof.
  intros Hh. destruct (decide (h = 0)) as [->|Hz]; [by exists "0"%char, "", 0|].
  destruct h as [|p|p]; [done| |lia].
  destruct (pretty_head (N.pos p) "") as (a & s & d & Hgo & Hd); [done|].
  assert (pretty (Z.pos p) = pretty_N_go (N.pos p) "") as -> by done.
  exists a, s, d. split_and!; [done..|].
  pose proof (scan_digits_go (N.pos p) "") as Hs. rewrite Hgo in Hs. cbn [scan_digits] in Hs.
  rewrite Hd in Hs. by rewrite Z.add_0_l in Hs.
Qed.

(** The name of a checkpoint's directory reads back as its height. *)
Lemma scan_checkpoint_dir h : is_u64 h → scan_height (checkpoint_dir h) = Some h.
Proof.
  intros [Hh Hmax]. destruct (pretty_Z_scan h Hh) as (a & s & d & Hp & Hd & Hs).
  unfold scan_height, checkpoint_dir. rewrite Hp.
  assert (strip_prefix "checkpoint_" ("checkpoint_" +:+ String a s) = Some (String a s)) as ->
    by done.
  cbn [mbind option_bind skip_blanks]. rewrite (digit_not_blank a d Hd), Hd, Hs.
  by rewrite (proj2 (Z.leb_le h u64_max)) by (unfold u64_max; lia).
Qed.

Lemma checkpoint_dir_inj h h' : is_u64 h → is_u64 h' →
  checkpoint_dir h = checkpoint_dir h' → h = h'.
Proof.
  intros Hh Hh' He. apply scan_checkpoint_dir in Hh, Hh'. rewrite He in Hh. congruence.
Qed.

Lemma length_append (a b : string) : String.length (a +:+ b) = (String.length a + String.length b)%nat.
Proof. induction a as [|x a IH]; simpl; [done|]. by rewrite IH. Qed.

Lemma append_inj_r (s a b : string) : a +:+ s = b +:+ s → a = b.
Proof.
  revert b. induction a as [|x a IH]; intros [|y b] Hab; [done|..].
  - apply (f_equal String.length) in Hab. rewrite !length_append in Hab. simpl in Hab. lia.
  - apply (f_equal String.length) in Hab. rewrite !length_append in Hab. simpl in Hab. lia.
  - injection Hab as -> Hab. f_equal. by apply IH.
Qed.

#[export] Instance state_file_inj : Inj (=) (=) state_file.
Proof. intros n n'. apply append_inj_r. Qed.

Lemma state_file_not_metadata n : state_file n ≠ metadata_file.
Proof.
  unfold state_file, metadata_file. intros He.
  pose proof (f_equal String.length He) as Hl. rewrite length_append in Hl. simpl in Hl.
  do 7 (destruct n as [|? n]; [simpl in Hl; lia|]). destruct n; [|simpl in Hl; lia].
  by simplify_eq/=.
Qed.

(** ** Cleaning *)

Definition removes (env : disk_env) : Prop := ∀ dir, de_remove env dir = Done.

Section cleaning.
Variable env : disk_env.
Implicit Types (m : gmap Z Checkpoint) (d : disk) (l : list Z).

Lemma clean_sub l m d : (foldl (clean_one env) (m, d) l).1 ⊆ m.
Proof.
  revert m d. induction l as [|h l IH]; intros m d; [done|]. cbn [foldl clean_one].
  case_match; [|apply IH]. destruct (remove_all _ _ _) as [d' []]; [|apply IH].
  etrans; [apply IH|]. apply delete_subseteq.
Qed.

Lemma clean_keeps l m d h : h ∉ l → (foldl (clean_one env) (m, d) l).1 !! h = m !! h.
Proof.
  revert m d. induction l as [|j l IH]; intros m d Hh; [done|]. cbn [foldl clean_one].
  apply not_elem_of_cons in Hh as [Hj Hh].
  case_match; [|by apply IH]. destruct (remove_all _ _ _) as [d' []]; [|by apply IH].
  rewrite IH by done. by rewrite lookup_delete_ne.
Qed.

Lemma remove_all_frame dir dir' d : dir' ≠ dir → (remove_all env dir d).1 !! dir' = d !! dir'.
Proof.
  intros Hd. unfold remove_all. destruct (de_remove env dir) as [|[fs|]]; cbn [fst].
  - by apply lookup_delete_ne.
  - by apply lookup_alter_ne.
  - by apply lookup_delete_ne.
Qed.

Lemma clean_disk_frame l m d dir : (∀ h c, h ∈ l → m !! h = Some c → cp_Path c ≠ dir) →
  (foldl (clean_one env) (m, d) l).2 !! dir = d !! dir.
Proof.
  revert m d. induction l as [|h l IH]; intros m d Hl; [done|]. cbn [foldl clean_one].
  destruct (m !! h) as [c|] eqn:Hm; [|apply IH; intros; eapply Hl; [by right|done]].
  pose proof (remove_all_frame (cp_Path c) dir d) as Hf.
  assert (dir ≠ cp_Path c) as Hne
    by (intros ->; eapply Hl; [apply list_elem_of_here|exact Hm|done]).
  destruct (remove_all env (cp_Path c) d) as [d' []]; cbn [fst] in Hf; rewrite IH.
  - by apply Hf.
  - intros j c' Hj [_ Hc]%lookup_delete_Some. eapply Hl; [by right|done].
  - by apply Hf.
  - intros j c' Hj Hc. eapply Hl; [by right|done].
Qed.

Lemma clean_drops l m d h : removes env → h ∈ l → (foldl (clean_one env) (m, d) l).1 !! h = None.
Proof.
  intros Hr. revert m d. induction l as [|j l IH]; intros m d Hh; [by apply elem_of_nil in Hh|].
  cbn [foldl clean_one]. apply elem_of_cons in Hh as [->|Hh].
  - assert (Hnone : ∀ m d, m !! j = None → (foldl (clean_one env) (m, d) l).1 !! j = None).
    { intros m' d' Hj. pose proof (clean_sub l m' d' j) as Hs. rewrite Hj in Hs.
      by destruct ((foldl (clean_one env) (m', d') l).1 !! j). }
    destruct (m !! j) eqn:Hm; [|by apply Hnone].
    unfold remove_all. rewrite Hr. apply Hnone, lookup_delete_eq.
  - destruct (m !! j); [|by apply IH]. unfold remove_all. rewrite Hr. by apply IH.
Qed.

(** Removals that succeed take the whole directories. *)
Lemma clean_disk_kept l m d dir fs : removes env →
  (foldl (clean_one env) (m, d) l).2 !! dir = Some fs → d !! dir = Some fs.
Proof.
  intros Hr. revert m d. induction l as [|j l IH]; intros m d; [done|]. cbn [foldl clean_one].
  case_match; [|by apply IH]. unfold remove_all. rewrite Hr. intros Hd.
  apply IH in Hd. by apply lookup_delete_Some in Hd as [_ ?].
Qed.
End cleaning.

Lemma heights_perm l : sorted_heights l ≡ₚ l.
Proof. apply sort_slice_perm. Qed.

Lemma heights_ordered l : ordered Z.ltb (sorted_heights l).
Proof.
  apply (sort_slice_ordered _ (λ _, True)).
  - intros a b _ _ H%Z.ltb_lt. apply Z.ltb_ge. lia.
  - intros a b c _ _ _ H1%Z.ltb_ge H2%Z.ltb_ge. apply Z.ltb_ge. lia.
  - by apply Forall_true.
Qed.

Lemma iter_order_length {V} (m : gmap Z V) o : iter_order m o → length o = size m.
Proof.
  intros Ho. rewrite (Permutation_length (iter_order_perm _ _ _ Ho (iter_order_default m))).
  by rewrite length_fmap, length_map_to_list.
Qed.

Section facts.
Context {H W : Type} `{ComponentCheckpointHandler H W}.
Variable enc_meta : CheckpointMetadata → list byte.
Variable dec_meta : list byte → option CheckpointMetadata.
Implicit Types (cm : CheckpointManager (H := H)) (d : disk) (env : disk_env).

(** The heights a cleanup drops. *)
Definition cleaned (order : gmap Z Checkpoint → list Z) cm : list Z :=
  let heights := sorted_heights (order (checkpoints cm)) in
  if Z.of_nat (size (checkpoints cm)) <=? maxCheckpoints cm then []
  else take (length heights - Z.to_nat (maxCheckpoints cm)) heights.

Lemma cleanup_fold env order cm d :
  let '(m, d') := foldl (clean_one env) (checkpoints cm, d) (cleaned order cm) in
  cleanupOldCheckpoints env order cm d = (with_checkpoints m (lastCheckpoint cm) cm, d').
Proof.
  unfold cleanupOldCheckpoints, cleaned. destruct (_ <=? _); cbn [foldl].
  - by destruct cm.
  - by destruct (foldl (clean_one env) _ _).
Qed.

Lemma cleaned_sub order cm h : iter_order (checkpoints cm) (order (checkpoints cm)) →
  h ∈ cleaned order cm → is_Some (checkpoints cm !! h).
Proof.
  intros [_ Ho] Hh. apply Ho. unfold cleaned in Hh. destruct (_ <=? _).
  - by apply elem_of_nil in Hh.
  - rewrite <- heights_perm. eapply elem_of_take in Hh as (i & Hi & _).
    by eapply list_elem_of_lookup_2.
Qed.

(** The greatest heights stay. *)
Lemma cleaned_low order cm h h' : iter_order (checkpoints cm) (order (checkpoints cm)) →
  h ∈ cleaned order cm → h' ∉ cleaned order cm → is_Some (checkpoints cm !! h') → h < h'.
Proof.
  intros [Hn Ho] Hh Hh' Hin%Ho. rewrite <- heights_perm in Hin. unfold cleaned in Hh, Hh'.
  destruct (_ <=? _); [by apply elem_of_nil in Hh|].
  set (l := sorted_heights _) in *. set (n := (_ - _)%nat) in *.
  rewrite <- (take_drop n l) in Hin. apply elem_of_app in Hin as [?|Hin]; [done|].
  pose proof (ordered_take_drop _ n l h h' (heights_ordered _) Hh Hin) as Hle%Z.ltb_ge.
  assert (h ≠ h') by (intros ->; done). lia.
Qed.

Lemma cleaned_length order cm : iter_order (checkpoints cm) (order (checkpoints cm)) →
  0 < maxCheckpoints cm →
  length (cleaned order cm) = (size (checkpoints cm) - Z.to_nat (maxCheckpoints cm))%nat.
Proof.
  intros Ho Hmax. unfold cleaned. destruct (_ <=? _) eqn:Hle; bool_to_prop; [simpl; lia|].
  rewrite length_take, heights_perm, (iter_order_length (checkpoints cm)) by done. lia.
Qed.

Lemma cleaned_nodup order cm : iter_order (checkpoints cm) (order (checkpoints cm)) →
  NoDup (cleaned order cm).
Proof.
  intros [Hn _]. unfold cleaned. destruct (_ <=? _); [constructor|].
  eapply sublist_NoDup; [|apply sublist_take]. by rewrite heights_perm.
Qed.

Lemma size_drop_all (m m' : gmap Z Checkpoint) l : NoDup l → (∀ h, h ∈ l → is_Some (m !! h)) →
  m' ⊆ m → (∀ h, h ∈ l → m' !! h = None) → (∀ h, h ∉ l → m' !! h = m !! h) →
  size m' = (size m - length l)%nat.
Proof.
  revert m m'. induction l as [|h l IH]; intros m m' Hn Hin Hsub Hd Hk.
  - replace m' with m; [simpl; lia|]. apply map_eq. intros h. symmetry. apply Hk.
    apply not_elem_of_nil.
  - apply NoDup_cons in Hn as [Hh Hn]. destruct (Hin h (list_elem_of_here _ _)) as [c Hc].
    rewrite (IH (delete h m) m' Hn).
    + rewrite map_size_delete, Hc. simpl. lia.
    + intros j Hj. rewrite lookup_delete_ne by (intros ->; done). apply Hin. by right.
    + apply map_subseteq_spec. intros j c' Hj. apply lookup_delete_Some. split.
      * intros <-. rewrite Hd in Hj by apply list_elem_of_here. done.
      * by eapply lookup_weaken.
    + intros j Hj. apply Hd. by right.
    + intros j Hj. destruct (decide (j = h)) as [->|Hne].
      * rewrite lookup_delete_eq. apply Hd, list_elem_of_here.
      * rewrite lookup_delete_ne by done. apply Hk. by intros [?|?]%elem_of_cons.
Qed.

(** when removals succeed, cleaning up leaves [min(count, max)]
    checkpoints, the highest ones, drops the files of the others, leaves
    every other directory alone, and changes nothing else, whatever the
    order the map is ranged over.  The last height is not adjusted: it may
    be one of the dropped. *)
Theorem cleanup_keeps_highest env order cm d :
  removes env → iter_order (checkpoints cm) (order (checkpoints cm)) → 0 < maxCheckpoints cm →
  let '(cm', d') := cleanupOldCheckpoints env order cm d in
  Z.of_nat (size (checkpoints cm')) = Z.of_nat (size (checkpoints cm)) `min` maxCheckpoints cm
  ∧ checkpoints cm' ⊆ checkpoints cm
  ∧ (∀ h h', is_Some (checkpoints cm !! h) → checkpoints cm' !! h = None →
       is_Some (checkpoints cm' !! h') → h < h')
  ∧ (∀ dir, (∀ h c, checkpoints cm !! h = Some c → checkpoints cm' !! h = None →
               cp_Path c ≠ dir) → d' !! dir = d !! dir)
  ∧ lastCheckpoint cm' = lastCheckpoint cm ∧ pendingCheckpoint cm' = pendingCheckpoint cm.
Proof.
  intros Hr Ho Hmax. pose proof (cleanup_fold env order cm d) as Hf.
  pose proof (clean_sub env (cleaned order cm) (checkpoints cm) d) as Hsub.
  pose proof (λ h, clean_keeps env (cleaned order cm) (checkpoints cm) d h) as Hk.
  pose proof (λ h, clean_drops env (cleaned order cm) (checkpoints cm) d h Hr) as Hd.
  pose proof (λ dir, clean_disk_frame env (cleaned order cm) (checkpoints cm) d dir) as Hfr.
  destruct (foldl _ _ _) as [m d']. rewrite Hf. cbn [fst snd] in *. simpl.
  split_and!; [|done| | |done..].
  - rewrite (size_drop_all (checkpoints cm) m (cleaned order cm)); [| |
      intros h; by apply cleaned_sub|done..]; [|by apply cleaned_nodup].
    rewrite cleaned_length by done. lia.
  - intros h h' Hh Hm Hm'. destruct (decide (h ∈ cleaned order cm)) as [Hin|Hin].
    + eapply cleaned_low; [done..| |].
      * intros Hin'. rewrite Hd in Hm' by done. by destruct Hm'.
      * destruct Hm' as [c' ?]. exists c'. by eapply lookup_weaken.
    + rewrite Hk in Hm by done. rewrite Hm in Hh. by destruct Hh.
  - intros dir Hdir. apply Hfr. intros h c Hin Hc. eapply Hdir; [done|]. by apply Hd.
Qed.

(** ** Collecting *)

Lemma write_frame env dir file bs d dir' :
  dir' ≠ dir → (write_file env dir file bs d).1 !! dir' = d !! dir'.
Proof.
  intros Hd. unfold write_file. case_match; [|done].
  destruct (de_write env dir file) as [|[rest|]]; simpl; [|..|done]; by apply lookup_alter_ne.
Qed.

Lemma write_dirs env dir file bs d dir' :
  is_Some ((write_file env dir file bs d).1 !! dir') ↔ is_Some (d !! dir').
Proof.
  unfold write_file. case_match; [|done].
  destruct (de_write env dir file) as [|[rest|]]; simpl; [..|done];
    by rewrite lookup_alter_is_Some.
Qed.

Lemma write_done env dir file bs d fs : d !! dir = Some fs → de_write env dir file = Done →
  write_file env dir file bs d = (<[dir := <[file := bs]> fs]> d, true).
Proof.
  intros Hd Hw. unfold write_file. rewrite Hd, Hw. simpl.
  f_equal. apply map_eq. intros k. destruct (decide (k = dir)) as [->|Hk].
  - by rewrite lookup_alter_eq, lookup_insert_eq, Hd.
  - by rewrite lookup_alter_ne, lookup_insert_ne.
Qed.

(** What the collection leaves of a checkpoint being made. *)
Lemma collect_frame env (w : W) (cs : gmap string H) names c z d :
  let '(c', _, d') := foldl (collect_one env w cs) (c, z, d) names in
  cp_Path c' = cp_Path c ∧ cp_Status c' = cp_Status c
  ∧ md_Height (cp_Metadata c') = md_Height (cp_Metadata c)
  ∧ (∀ dir, dir ≠ cp_Path c → d' !! dir = d !! dir)
  ∧ (∀ dir, is_Some (d' !! dir) ↔ is_Some (d !! dir)).
Proof.
  revert c z d. induction names as [|n names IH]; intros c z d; [done|].
  cbn [foldl collect_one]. destruct (cs !! n ≫= _) as [st|]; [|apply IH].
  match goal with |- context [foldl _ (?c1, ?z1, ?d1) _] => specialize (IH c1 z1 d1) end.
  destruct (foldl _ _ names) as [[c' z'] d']. cbn [cp_Path cp_Status cp_Metadata md_Height] in IH.
  destruct IH as (? & ? & ? & Hf & Hs). split_and!; [done..| |].
  - intros dir Hd. rewrite Hf by done. by apply write_frame.
  - intros dir. rewrite Hs. apply write_dirs.
Qed.

(** The bytes a component gives. *)
Definition state_of (w : W) (cs : gmap string H) (name : string) : option (list byte) :=
  cs !! name ≫= (λ h, GetCheckpointState h w).

(** When every write works, each component that gives its state is listed
    and its file holds the bytes. *)
Lemma collect_files env (w : W) (cs : gmap string H) names c z d fs :
  (∀ dir f, de_write env dir f = Done) → d !! cp_Path c = Some fs →
  let '(c', _, d') := foldl (collect_one env w cs) (c, z, d) names in
  md_Components (cp_Metadata c')
    = md_Components (cp_Metadata c) ++ filter (λ n, is_Some (state_of w cs n)) names
  ∧ ∃ fs', d' !! cp_Path c = Some fs'
    ∧ (∀ n, n ∈ names → is_Some (state_of w cs n) → fs' !! state_file n = state_of w cs n)
    ∧ (∀ f, (∀ n, n ∈ names → is_Some (state_of w cs n) → state_file n ≠ f) →
         fs' !! f = fs !! f).
Proof.
  intros Hw. revert c z d fs. induction names as [|n names IH]; intros c z d fs Hd.
  { cbn. split; [by rewrite app_nil_r|]. exists fs. split_and!; [done| |done].
    by intros n ?%elem_of_nil. }
  cbn [foldl collect_one]. fold (state_of w cs n).
  destruct (state_of w cs n) as [st|] eqn:Hst.
  - match goal with |- context [foldl _ (?c1, ?z1, ?d1) _] => specialize (IH c1 z1 d1) end.
    rewrite (write_done _ _ _ _ _ fs) in IH by done. cbn [fst cp_Path] in IH.
    rewrite (write_done _ _ _ _ _ fs) by done. cbn [fst].
    specialize (IH _ (lookup_insert_eq _ _ _)).
    destruct (foldl _ _ names) as [[c' z'] d']. destruct IH as (Hc & fs' & Hd' & Hin & Hout).
    split.
    + rewrite Hc. cbn [cp_Metadata md_Components]. rewrite <- app_assoc. f_equal.
      by rewrite (filter_cons_True (λ n, is_Some (state_of w cs n))) by (rewrite Hst; by eexists).
    + exists fs'. split_and!; [done| |].
      * intros k Hk Hs. destruct (decide (k ∈ names)) as [?|Hno]; [by apply Hin|].
        apply elem_of_cons in Hk as [->|?]; [|done].
        rewrite Hout; [by rewrite lookup_insert_eq|].
        intros j Hj _ ->%state_file_inj. done.
      * intros f Hf. rewrite Hout by (intros k Hk; apply Hf; by right).
        apply lookup_insert_ne, Hf; [apply list_elem_of_here|]. rewrite Hst. by eexists.
  - specialize (IH c z d fs Hd). destruct (foldl _ _ names) as [[c' z'] d'].
    destruct IH as (Hc & fs' & Hd' & Hin & Hout). split.
    + rewrite Hc. f_equal.
      by rewrite (filter_cons_False (λ n, is_Some (state_of w cs n)))
        by (rewrite Hst; intros [? [=]]).
    + exists fs'. split_and!; [done| |].
      * intros k [->|Hk]%elem_of_cons Hs; [|by apply Hin]. rewrite Hst in Hs. by destruct Hs.
      * intros f Hf. apply Hout. intros k Hk. apply Hf. by right.
Qed.

(** ** Invariants *)

(** Every listed checkpoint has been completed, in a directory whose name
    gives its height; the one being made is not listed. *)
Record manager_ok cm : Prop := {
  mo_interval : 0 < checkpointInterval cm;
  mo_max : 0 < maxCheckpoints cm;
  mo_listed : ∀ h c, checkpoints cm !! h = Some c →
    scan_height (cp_Path c) = Some h ∧ cp_Status c ≠ CheckpointPending;
  mo_pending : ∀ c, pendingCheckpoint cm = Some c →
    let h := md_Height (cp_Metadata c) in
    checkpoints cm !! h = None ∧ 0 < h ∧ is_u64 h ∧ cp_Path c = checkpoint_dir h }.

(** Nothing but checkpoints in the directory, and each listed one with its
    metadata. *)
Record tidy cm d : Prop := {
  td_listed : ∀ h c, checkpoints cm !! h = Some c →
    is_u64 h ∧ cp_Path c = checkpoint_dir h
    ∧ read_file good_disk (cp_Path c) metadata_file d ≫= dec_meta = Some (cp_Metadata c);
  td_dirs : ∀ dir, is_Some (d !! dir) → ∃ h, is_u64 h ∧ dir = checkpoint_dir h }.

Inductive op :=
| ORegister (c : H)
| OUnregister (name : string)
| OCreate (env : disk_env) (now height : Z) (blockHash prevHash : string)
| OFinalize (env : disk_env) (w : W) (names : list string) (order : gmap Z Checkpoint → list Z)
| OVerify (env : disk_env) (height : Z)
| ODelete (env : disk_env) (order : gmap Z Checkpoint → list Z) (height : Z)
| OSetInterval (interval : Z)
| OSetMax (env : disk_env) (order : gmap Z Checkpoint → list Z) (max : Z).

Definition perform (o : op) (s : CheckpointManager (H := H) * disk) :
    CheckpointManager (H := H) * disk :=
  let '(cm, d) := s in
  match o with
  | ORegister c => (RegisterComponent c cm, d)
  | OUnregister name => (UnregisterComponent name cm, d)
  | OCreate env now height bh ph => (CreateCheckpoint env now height bh ph cm d).1
  | OFinalize env w names order => (FinalizeCheckpoint enc_meta env w names order cm d).1
  | OVerify env height => ((VerifyCheckpoint env height cm d).1, d)
  | ODelete env order height => (DeleteCheckpoint env order height cm d).1
  | OSetInterval interval => (SetCheckpointInterval interval cm, d)
  | OSetMax env order max => SetMaxCheckpoints env order max cm d
  end.
Definition perform_all (os : list op) (s : CheckpointManager (H := H) * disk) :
    CheckpointManager (H := H) * disk := foldl (λ s o, perform o s) s os.

(** The arguments are uint64s and the maps are ranged over properly. *)
Definition op_ok (o : op) : Prop :=
  match o with
  | OCreate _ _ height _ _ => is_u64 height
  | OFinalize _ _ _ order | ODelete _ order _ | OSetMax _ order _ => ∀ m, iter_order m (order m)
  | OSetInterval interval => is_u64 interval
  | _ => True
  end.
Definition op_removes (o : op) : Prop :=
  match o with
  | OFinalize env _ _ _ | ODelete env _ _ | OSetMax env _ _ => removes env
  | _ => True
  end.

(** The list of checkpoints may only shrink. *)
Lemma manager_ok_sub cm m last : manager_ok cm → m ⊆ checkpoints cm →
  manager_ok (with_checkpoints m last cm).
Proof.
  intros [Hi Hm Hl Hp] Hs. split; simpl; [done..| |].
  - intros h c Hc. apply Hl. by eapply lookup_weaken.
  - intros c Hc. destruct (Hp c Hc) as (Hnone & ? & ? & ?). split_and!; [|done..].
    eapply lookup_weaken_None; [exact Hnone|done].
Qed.

Lemma cleanup_ok env order cm d : manager_ok cm →
  manager_ok (cleanupOldCheckpoints env order cm d).1.
Proof.
  intros Hok. pose proof (cleanup_fold env order cm d) as Hf.
  pose proof (clean_sub env (cleaned order cm) (checkpoints cm) d) as Hs.
  destruct (foldl _ _ _) as [m d']. rewrite Hf. by apply manager_ok_sub.
Qed.

Lemma cleanup_tidy env order cm d : manager_ok cm → removes env →
  (∀ m, iter_order m (order m)) → tidy cm d →
  tidy (cleanupOldCheckpoints env order cm d).1 (cleanupOldCheckpoints env order cm d).2.
Proof.
  intros Hok Hr Ho [Hl Hd]. pose proof (cleanup_fold env order cm d) as Hf.
  pose proof (clean_sub env (cleaned order cm) (checkpoints cm) d) as Hs.
  pose proof (λ h, clean_drops env (cleaned order cm) (checkpoints cm) d h Hr) as Hdrop.
  pose proof (λ dir fs, clean_disk_kept env (cleaned order cm) (checkpoints cm) d dir fs Hr) as Hk.
  pose proof (λ dir, clean_disk_frame env (cleaned order cm) (checkpoints cm) d dir) as Hfr.
  destruct (foldl _ _ _) as [m d']. rewrite Hf. cbn [fst snd] in *. split.
  - cbn [checkpoints with_checkpoints]. intros h c Hc.
    destruct (Hl h c) as (Hu & Hpath & Hread); [by eapply lookup_weaken|].
    split_and!; [done..|]. rewrite <- Hread. f_equal. unfold read_file. cbn [de_read good_disk].
    rewrite Hfr; [done|]. intros j c' Hj Hc' Heq.
    destruct (Hl j c' Hc') as (Hu' & Hpath' & _). rewrite Hpath, Hpath' in Heq.
    apply checkpoint_dir_inj in Heq as ->; [|done..]. rewrite Hdrop in Hc; done.
  - intros dir [fs Hfs]. apply Hd. exists fs. by apply Hk.
Qed.

(** The two ways a finalization goes. *)
Lemma finalize_cases env w names order cm d c0 : pendingCheckpoint cm = Some c0 →
  ∃ c d2,
    cp_Path c = cp_Path c0 ∧ cp_Status c = CheckpointComplete
    ∧ md_Height (cp_Metadata c) = md_Height (cp_Metadata c0)
    ∧ (∀ dir, dir ≠ cp_Path c0 → d2 !! dir = d !! dir)
    ∧ (∀ dir, is_Some (d2 !! dir) ↔ is_Some (d !! dir))
    ∧ (FinalizeCheckpoint enc_meta env w names order cm d
         = (with_pending (Some c) cm, d2, Err ErrWriteMetadata)
       ∨ FinalizeCheckpoint enc_meta env w names order cm d
         = (let h := md_Height (cp_Metadata c0) in
            let '(cm', d') := cleanupOldCheckpoints env order
              (with_pending None (with_checkpoints (<[h := c]> (checkpoints cm)) h cm)) d2 in
            (cm', d', Ok ()))
         ∧ read_file good_disk (cp_Path c0) metadata_file d2 = Some (enc_meta (cp_Metadata c))).
Proof.
  intros Hp. unfold FinalizeCheckpoint. rewrite Hp.
  pose proof (collect_frame env w (components cm) names (with_status CheckpointComplete c0) 0 d)
    as Hc.
  destruct (foldl _ _ names) as [[c z] d1].
  destruct Hc as (Hpath & Hst & Hh & Hf & Hs). simpl in Hpath, Hst, Hh, Hf.
  assert (Hw : ∀ file bs,
    (∀ dir, dir ≠ cp_Path c0 → (write_file env (cp_Path c0) file bs d1).1 !! dir = d !! dir)
    ∧ (∀ dir, is_Some ((write_file env (cp_Path c0) file bs d1).1 !! dir) ↔ is_Some (d !! dir))).
  { intros file bs. split; intros dir; [intros Hd|].
    - rewrite write_frame by done. by apply Hf.
    - rewrite write_dirs. apply Hs. }
  cbn [cp_Path cp_Metadata set_size md_Height]. rewrite Hpath.
  match goal with |- context [write_file env ?p ?f ?bs d1] =>
    specialize (Hw f bs); destruct (write_file env p f bs d1) as [d2 ok] eqn:Hwr end.
  destruct Hw as [Hw1 Hw2]. cbn [fst] in Hw1, Hw2.
  exists (set_size z c), d2. cbn [cp_Path cp_Status cp_Metadata set_size md_Height].
  split_and!; [done..|]. destruct ok; [right|left; done].
  split; [by rewrite Hh|]. unfold write_file in Hwr. destruct (d1 !! cp_Path c0) as [fs|] eqn:Hd; [|done].
  destruct (de_write env _ _); [|done]. injection Hwr as <-.
  unfold read_file. cbn [de_read good_disk put_file]. rewrite lookup_alter_eq, Hd. simpl.
  apply lookup_insert_eq.
Qed.

(** A completed checkpoint takes its place in the list. *)
Lemma listed_ok cm c0 c : manager_ok cm → pendingCheckpoint cm = Some c0 →
  cp_Path c = cp_Path c0 → cp_Status c = CheckpointComplete →
  let h := md_Height (cp_Metadata c0) in
  manager_ok (with_pending None (with_checkpoints (<[h := c]> (checkpoints cm)) h cm)).
Proof.
  intros [Hi Hm Hl Hpend] Hp Hpath Hst. destruct (Hpend c0 Hp) as (_ & _ & Hu & Hpd).
  split; simpl; [done..| |done].
  intros j c' [[<- <-]|[? ?]]%lookup_insert_Some; [|by apply Hl].
  rewrite Hpath, Hpd, Hst. split; [by apply scan_checkpoint_dir|done].
Qed.

Lemma set_status_ok h s cm : s ≠ CheckpointPending → manager_ok cm →
  manager_ok (set_status h s cm).
Proof.
  intros Hs [Hi Hm Hl Hp]. split; cbn [set_status with_checkpoints checkpointInterval
    maxCheckpoints checkpoints pendingCheckpoint]; [done..| |].
  - intros j c Hc. destruct (decide (j = h)) as [->|Hj].
    + rewrite lookup_alter_eq in Hc. destruct (checkpoints cm !! h) as [c'|] eqn:Hc'; [|done].
      injection Hc as <-. split; [by apply (Hl h c')|done].
    + rewrite lookup_alter_ne in Hc by done. by apply Hl.
  - intros c Hc. destruct (Hp c Hc) as (Hnone & ? & ? & ?). split_and!; [|done..].
    by rewrite lookup_alter_None.
Qed.

Lemma set_status_tidy h s cm d : tidy cm d → tidy (set_status h s cm) d.
Proof.
  intros [Hl Hd]. split; [|done]. cbn [set_status with_checkpoints checkpoints]. intros j c Hc.
  destruct (decide (j = h)) as [->|Hj].
  - rewrite lookup_alter_eq in Hc. destruct (checkpoints cm !! h) as [c'|] eqn:Hc'; [|done].
    injection Hc as <-. by apply (Hl h c').
  - rewrite lookup_alter_ne in Hc by done. by apply Hl.
Qed.

Lemma perform_ok o s : op_ok o → manager_ok s.1 → manager_ok (perform o s).1.
Proof.
  destruct s as [cm d]. cbn [fst]. intros Ho Hok.
  destruct o as [c|n|env now h bh ph|env w names order|env h|env order h|i|env order mx];
    cbn [perform]; [by destruct Hok..| | | | | |].
  - unfold CreateCheckpoint, HasCheckpoint. destruct (h =? 0) eqn:Hz; [done|].
    destruct (bool_decide _) eqn:Hh; [done|]. destruct (has_pending cm); [done|].
    destruct (mkdir _ _ _) as [d' []]; [|done]. bool_to_prop.
    destruct Hok as [Hi Hm Hl _]. split; simpl; [done..|].
    intros c [= <-]. simpl in *. split_and!; [by apply eq_None_not_Some| |done..].
    unfold is_u64 in Ho. lia.
  - unfold FinalizeCheckpoint at 1. destruct (pendingCheckpoint cm) as [c0|] eqn:Hp; [|done].
    destruct (finalize_cases env w names order cm d c0 Hp)
      as (c & d2 & Hpath & Hst & Hh & _ & _ & Hcase).
    unfold FinalizeCheckpoint in Hcase. rewrite Hp in Hcase.
    destruct (mo_pending _ Hok c0 Hp) as (Hnone & Hpos & Hu & Hpd).
    destruct Hcase as [->|[-> _]]; cbn [fst].
    + destruct Hok as [Hi Hm Hl _]. split; simpl; [done..|]. intros c' [= <-].
      rewrite Hh, Hpath. done.
    + pose proof (cleanup_ok env order _ d2 (listed_ok cm c0 c Hok Hp Hpath Hst)) as Hc.
      by destruct (cleanupOldCheckpoints _ _ _ _).
  - unfold VerifyCheckpoint. repeat case_match; try done; by apply set_status_ok.
  - unfold DeleteCheckpoint. case_match; [|done]. destruct (remove_all _ _ _) as [d' []]; [|done].
    by apply manager_ok_sub, delete_subseteq.
  - unfold SetCheckpointInterval. destruct (i =? 0) eqn:Hi; [done|]. bool_to_prop.
    simpl in Ho. unfold is_u64 in Ho. destruct Hok. split; simpl; [lia|done..].
  - unfold SetMaxCheckpoints. destruct (mx <=? 0) eqn:Hm; [done|]. bool_to_prop.
    apply cleanup_ok. destruct Hok. split; simpl; done.
Qed.

Section tidiness.
Hypothesis json : ∀ m, dec_meta (enc_meta m) = Some m.

Lemma create_tidy env now h bh ph cm d : is_u64 h → manager_ok cm → tidy cm d →
  tidy (CreateCheckpoint env now h bh ph cm d).1.1 (CreateCheckpoint env now h bh ph cm d).1.2.
Proof.
  intros Hu Hok [Hl Hd]. unfold CreateCheckpoint. destruct (h =? 0); [done|].
  destruct (HasCheckpoint h cm) eqn:Hh; [done|]. destruct (has_pending cm); [done|].
  unfold mkdir. destruct (de_mkdir _ _); [|done]. cbn [fst snd]. split.
  - cbn [checkpoints with_pending]. intros j c Hc. destruct (Hl j c Hc) as (Hj & Hpath & Hread).
    split_and!; [done..|]. rewrite <- Hread. f_equal. unfold read_file. cbn [de_read good_disk].
    rewrite lookup_insert_ne; [done|]. rewrite Hpath. intros ->%checkpoint_dir_inj; [|done..].
    unfold HasCheckpoint in Hh. rewrite Hc in Hh. done.
  - intros dir [<-|[_ Hs]]%lookup_insert_is_Some; [by exists h|by apply Hd].
Qed.

Lemma finalize_tidy env w names order cm d : removes env → (∀ m, iter_order m (order m)) →
  manager_ok cm → tidy cm d →
  let r := FinalizeCheckpoint enc_meta env w names order cm d in tidy r.1.1 r.1.2.
Proof.
  intros Hr Ho Hok Htd. destruct (pendingCheckpoint cm) as [c0|] eqn:Hp;
    [|by unfold FinalizeCheckpoint; rewrite Hp].
  destruct (finalize_cases env w names order cm d c0 Hp)
    as (c & d2 & Hpath & Hst & Hh & Hf & Hs & Hcase).
  destruct (mo_pending _ Hok c0 Hp) as (Hnone & Hpos & Hu & Hpd).
  destruct Htd as [Hl Hd].
  assert (Hold : ∀ j c', checkpoints cm !! j = Some c' → is_u64 j ∧ cp_Path c' = checkpoint_dir j
    ∧ read_file good_disk (cp_Path c') metadata_file d2 ≫= dec_meta = Some (cp_Metadata c')).
  { intros j c' Hj. destruct (Hl j c' Hj) as (Huj & Hpj & Hread). split_and!; [done..|].
    rewrite <- Hread. f_equal. unfold read_file. cbn [de_read good_disk].
    rewrite Hf; [done|]. rewrite Hpd, Hpj. intros ->%checkpoint_dir_inj; [|done..].
    by rewrite Hnone in Hj. }
  destruct Hcase as [->|[Hfin Hread]]; cbn [fst snd].
  { split; [done|]. intros dir Hdir. apply Hd. by apply Hs. }
  cbn zeta. rewrite Hfin. cbv zeta.
  match goal with |- context [cleanupOldCheckpoints env order ?cm1 d2] => set (cm1' := cm1) end.
  assert (manager_ok cm1') by (by apply listed_ok).
  assert (Htd : tidy cm1' d2).
  { split; [|intros dir Hdir; apply Hd; by apply Hs].
    unfold cm1'. cbn [checkpoints with_pending with_checkpoints].
    intros j c' [[<- <-]|[? ?]]%lookup_insert_Some; [|by apply Hold].
    split_and!; [done|by rewrite Hpath|]. rewrite Hpath, Hread. apply json. }
  pose proof (cleanup_tidy env order cm1' d2) as Hct.
  destruct (cleanupOldCheckpoints _ _ _ _). by apply Hct.
Qed.

Lemma delete_tidy env order h cm d : removes env → tidy cm d →
  let r := DeleteCheckpoint env order h cm d in tidy r.1.1 r.1.2.
Proof.
  intros Hr [Hl Hd]. cbn zeta. unfold DeleteCheckpoint, remove_all.
  destruct (checkpoints cm !! h) as [c|] eqn:Hc; [|done]. rewrite Hr. cbn [fst snd].
  destruct (Hl h c Hc) as (Hu & Hpath & _). split.
  - cbn [checkpoints with_checkpoints]. intros j c' [Hne Hj]%lookup_delete_Some.
    destruct (Hl j c' Hj) as (Huj & Hpj & Hread). split_and!; [done..|]. rewrite <- Hread.
    f_equal. unfold read_file. cbn [de_read good_disk]. rewrite lookup_delete_ne; [done|].
    rewrite Hpath, Hpj. by intros ->%checkpoint_dir_inj.
  - intros dir [fs [_ Hfs]%lookup_delete_Some]. apply Hd. by exists fs.
Qed.

Lemma perform_tidy o s : op_ok o → op_removes o → manager_ok s.1 → tidy s.1 s.2 →
  tidy (perform o s).1 (perform o s).2.
Proof.
  destruct s as [cm d]. cbn [fst snd]. intros Ho Hr Hok Ht.
  destruct o as [c|n|env now h bh ph|env w names order|env h|env order h|i|env order mx];
    cbn [perform fst snd op_ok op_removes] in *.
  - by destruct Ht.
  - by destruct Ht.
  - by apply create_tidy.
  - by apply finalize_tidy.
  - unfold VerifyCheckpoint. repeat case_match; try done; by apply set_status_tidy.
  - by apply delete_tidy.
  - unfold SetCheckpointInterval. destruct (i =? 0); by destruct Ht.
  - unfold SetMaxCheckpoints. destruct (mx <=? 0) eqn:Hm; [done|]. bool_to_prop.
    apply cleanup_tidy; [by destruct Hok|done..|by destruct Ht].
Qed.
End tidiness.

(** ** Loading *)

Lemma apply_options_ok options cm : manager_ok cm →
  manager_ok (foldl apply_option cm options).
Proof.
  revert cm. induction options as [|o options IH]; intros cm Hok; [done|]. apply IH.
  destruct Hok as [Hi Hm Hl Hp].
  destruct o as [i|m|b|b]; unfold apply_option; [destruct (0 <? i) eqn:Hpos|
    destruct (0 <? m) eqn:Hpos| |]; bool_to_prop; by split.
Qed.

Lemma apply_options_state options cm :
  pendingCheckpoint (foldl apply_option cm options) = pendingCheckpoint cm
  ∧ checkpoints (foldl apply_option cm options) = checkpoints cm.
Proof.
  revert cm. induction options as [|o options IH]; intros cm; [done|]. cbn [foldl].
  destruct (IH (apply_option cm o)) as [-> ->].
  destruct o as [i|m|b|b]; unfold apply_option; [destruct (0 <? i)|destruct (0 <? m)|..]; done.
Qed.

Lemma load_ok env d names cm : manager_ok cm → pendingCheckpoint cm = None →
  manager_ok (foldl (load_entry dec_meta env d) cm names).
Proof.
  revert cm. induction names as [|n names IH]; intros cm Hok Hp; [done|]. cbn [foldl].
  unfold load_entry at 2. destruct (scan_height n) as [h|] eqn:Hs; [|by apply IH].
  destruct (read_file _ _ _ _ ≫= _) as [md|]; [|by apply IH]. apply IH; [|done].
  destruct Hok as [Hi Hm Hl _]. split; simpl; [done..| |by rewrite Hp].
  intros j c [[<- <-]|[? ?]]%lookup_insert_Some; [done|by apply Hl].
Qed.

Lemma new_ok options root_ok env entries d cm :
  NewCheckpointManager dec_meta options root_ok env entries d = Some cm → manager_ok cm.
Proof.
  unfold NewCheckpointManager. destruct root_ok; [|done]. intros [= <-].
  assert (manager_ok (foldl apply_option (mkManager 1000 10 true true ∅ 0 ∅ None) options)) as Hok.
  { apply apply_options_ok. by split. }
  destruct entries as [names|]; [|done]. apply load_ok; [done|].
  by apply apply_options_state.
Qed.

Lemma load_other env d names cm h : (∀ n, n ∈ names → scan_height n ≠ Some h) →
  checkpoints (foldl (load_entry dec_meta env d) cm names) !! h = checkpoints cm !! h.
Proof.
  revert cm. induction names as [|n names IH]; intros cm Hn; [done|]. cbn [foldl].
  rewrite IH by (intros k Hk; apply Hn; by right). unfold load_entry.
  pose proof (Hn n (list_elem_of_here _ _)) as Hne.
  destruct (scan_height n) as [j|]; [|done]. destruct (read_file _ _ _ _ ≫= _); [|done].
  simpl. by rewrite lookup_insert_ne by congruence.
Qed.

Lemma load_finds env d names cm h md : NoDup names → is_u64 h → checkpoint_dir h ∈ names →
  (∀ n, n ∈ names → ∃ j, is_u64 j ∧ n = checkpoint_dir j) →
  read_file env (checkpoint_dir h) metadata_file d ≫= dec_meta = Some md →
  checkpoints (foldl (load_entry dec_meta env d) cm names) !! h
    = Some (mkCheckpoint md CheckpointComplete (checkpoint_dir h) ∅).
Proof.
  intros Hnd Hu Hin Hnames Hread. revert cm.
  induction names as [|n names IH]; intros cm; [by apply elem_of_nil in Hin|].
  apply NoDup_cons in Hnd as [Hn Hnd]. cbn [foldl].
  destruct (decide (n = checkpoint_dir h)) as [->|Hne].
  - rewrite load_other.
    + unfold load_entry. rewrite scan_checkpoint_dir, Hread by done. simpl.
      by rewrite lookup_insert_eq.
    + intros k Hk. destruct (Hnames k) as (j & Hj & ->); [by right|].
      rewrite scan_checkpoint_dir by done. intros [= ->]. done.
  - apply IH; [done| |].
    + by apply elem_of_cons in Hin as [<-|?].
    + intros k Hk. apply Hnames. by right.
Qed.

Lemma perform_all_ok os s : Forall op_ok os → manager_ok s.1 → manager_ok (perform_all os s).1.
Proof.
  revert s. induction os as [|o os IH]; intros s Hos Hok; [done|].
  apply Forall_cons in Hos as [Ho Hos]. by apply IH, perform_ok.
Qed.

Lemma perform_all_tidy os s : (∀ m, dec_meta (enc_meta m) = Some m) → Forall op_ok os →
  Forall op_removes os → manager_ok s.1 → tidy s.1 s.2 →
  tidy (perform_all os s).1 (perform_all os s).2.
Proof.
  intros json. revert s. induction os as [|o os IH]; intros s Hos Hrs Hok Ht; [done|].
  apply Forall_cons in Hos as [Ho Hos]. apply Forall_cons in Hrs as [Hr Hrs].
  apply IH; [done..|by apply perform_ok|by apply perform_tidy].
Qed.

(** ** The properties *)

(** whatever the disk does and whatever it held at the start, after any
    calls: interval and maximum are positive; a listed checkpoint has been
    completed and its directory's name reads back as its height, so no two
    share a directory; the checkpoint being made has a positive height that
    is not listed. *)
Theorem manager_invariant options env entries d cm os :
  NewCheckpointManager dec_meta options true env entries d = Some cm → Forall op_ok os →
  let '(cm', _) := perform_all os (cm, d) in
  manager_ok cm'
  ∧ ∀ h h' c c', checkpoints cm' !! h = Some c → checkpoints cm' !! h' = Some c' →
      cp_Path c = cp_Path c' → h = h'.
Proof.
  intros Hnew Hos. pose proof (perform_all_ok os (cm, d) Hos (new_ok _ _ _ _ _ _ Hnew)) as Hok.
  destruct (perform_all os (cm, d)) as [cm' d']. cbn [fst] in Hok. split; [done|].
  intros h h' c c' Hc Hc' Hpath. apply (mo_listed _ Hok) in Hc as [Hs _].
  apply (mo_listed _ Hok) in Hc' as [Hs' _]. rewrite Hpath in Hs. congruence.
Qed.

(** C31: checkpoints survive a restart.  Starting from an empty directory,
    after any calls in which every write, creation or reading may fail but
    no removal does, a manager made from what is on the disk lists every
    checkpoint the old one listed, with its metadata and directory, as
    complete, provided that the reads work; [entries] is any listing of the
    directory. *)
Theorem restart_keeps_checkpoints options options' env cm os cm' d' entries cm'' :
  (∀ m, dec_meta (enc_meta m) = Some m) →
  NewCheckpointManager dec_meta options true env (Some []) ∅ = Some cm →
  Forall op_ok os → Forall op_removes os → perform_all os (cm, ∅) = (cm', d') →
  iter_order d' entries →
  NewCheckpointManager dec_meta options' true good_disk (Some entries) d' = Some cm'' →
  ∀ h c, checkpoints cm' !! h = Some c →
    checkpoints cm'' !! h = Some (mkCheckpoint (cp_Metadata c) CheckpointComplete (cp_Path c) ∅).
Proof.
  intros json Hnew Hos Hrs Hrun [Hnd Hentries] Hnew' h c Hc.
  assert (Ht0 : tidy cm ∅).
  { assert (checkpoints cm = ∅) as He.
    { unfold NewCheckpointManager in Hnew. injection Hnew as <-. cbn [loadCheckpoints foldl].
      by rewrite (proj2 (apply_options_state options _)). }
    split; [by rewrite He|]. intros dir [? ?]. done. }
  pose proof (perform_all_tidy os (cm, ∅) json Hos Hrs (new_ok _ _ _ _ _ _ Hnew) Ht0) as [Hl Hd].
  rewrite Hrun in Hl, Hd. cbn [fst snd] in Hl, Hd. destruct (Hl h c Hc) as (Hu & Hpath & Hread).
  unfold NewCheckpointManager in Hnew'. injection Hnew' as <-. cbn [loadCheckpoints].
  rewrite Hpath in Hread |- *. apply load_finds; [done..| | |done].
  - apply Hentries. unfold read_file in Hread. cbn [de_read good_disk] in Hread.
    destruct (d' !! checkpoint_dir h); [by eexists|done].
  - intros n Hn. apply Hd. by apply Hentries.
Qed.

(** What a component is given back: the bytes it had given. *)
Definition give (saved : string → option (list byte)) (cs : gmap string H) (w : W)
    (name : string) : W :=
  match cs !! name, saved name with
  | Some h, Some st => (RestoreState_ h st w).1
  | _, _ => w
  end.

Lemma restore_gives d path cs saved names (w : W) :
  (∀ n, n ∈ names → read_file good_disk path (state_file n) d = saved n) →
  foldl (restore_one good_disk d path cs) w names = foldl (give saved cs) w names.
Proof.
  revert w. induction names as [|n names IH]; intros w Hs; [done|]. cbn [foldl].
  rewrite IH by (intros k Hk; apply Hs; by right). f_equal.
  unfold restore_one, give. rewrite Hs by apply list_elem_of_here. by repeat case_match.
Qed.

Lemma first_missing_none env path names d :
  (∀ n, n ∈ names → stat_file env path (state_file n) d = true) →
  first_missing env path names d = None.
Proof.
  induction names as [|n names IH]; intros Hs; [done|]. cbn [first_missing].
  rewrite Hs by apply list_elem_of_here. apply IH. intros k Hk. apply Hs. by right.
Qed.

(** A checkpoint above all the others outlives the cleanup that follows it. *)
Lemma cleanup_spares_top order cm d h c : manager_ok cm →
  iter_order (checkpoints cm) (order (checkpoints cm)) → checkpoints cm !! h = Some c →
  (∀ j, is_Some (checkpoints cm !! j) → j ≤ h) →
  let '(cm', d') := cleanupOldCheckpoints good_disk order cm d in
  checkpoints cm' !! h = Some c ∧ d' !! cp_Path c = d !! cp_Path c
  ∧ lastCheckpoint cm' = lastCheckpoint cm ∧ pendingCheckpoint cm' = pendingCheckpoint cm.
Proof.
  intros Hok Ho Hc Htop. pose proof (cleanup_fold good_disk order cm d) as Hf.
  pose proof (clean_keeps good_disk (cleaned order cm) (checkpoints cm) d h) as Hk.
  pose proof (clean_disk_frame good_disk (cleaned order cm) (checkpoints cm) d (cp_Path c)) as Hfr.
  destruct (foldl _ _ _) as [m d']. rewrite Hf. cbn [fst snd] in *. simpl.
  assert (h ∉ cleaned order cm) as Hh.
  { intros Hin. pose proof (cleaned_length order cm Ho (mo_max _ Hok)) as Hlen.
    destruct (decide (Forall (λ j, j ∈ cleaned order cm) (order (checkpoints cm)))) as [Hall|Hall].
    - rewrite Forall_forall in Hall.
      pose proof (submseteq_length _ _ (NoDup_submseteq _ _ (proj1 Ho) Hall)) as Hle.
      rewrite (iter_order_length (checkpoints cm)), Hlen in Hle by done.
      assert (size (checkpoints cm) ≠ 0%nat) by (intros Hz%map_size_empty_inv; by rewrite Hz in Hc).
      pose proof (mo_max _ Hok). lia.
    - apply not_Forall_Exists, Exists_exists in Hall as (j & Hj%(proj2 Ho) & Hnot); [|apply _].
      pose proof (cleaned_low order cm h j Ho Hin Hnot Hj). specialize (Htop j Hj). lia. }
  split_and!; [|apply Hfr|done..].
  - by rewrite Hk.
  - intros j c' Hj Hc' Heq. apply (mo_listed _ Hok) in Hc' as [Hs' _].
    apply (mo_listed _ Hok) in Hc as [Hs _]. rewrite Heq, Hs in Hs'. congruence.
Qed.

Lemma create_good now h bh ph cm d : pendingCheckpoint cm = None → 0 < h →
  checkpoints cm !! h = None → d !! checkpoint_dir h = None →
  let c := mkCheckpoint (mkMeta h now bh ph 0 [] "1.0") CheckpointPending (checkpoint_dir h) ∅ in
  CreateCheckpoint good_disk now h bh ph cm d
  = (with_pending (Some c) cm, <[checkpoint_dir h := ∅]> d, Ok c).
Proof.
  intros Hp Hpos Hno Hd. unfold CreateCheckpoint, HasCheckpoint, has_pending, mkdir.
  rewrite Hp, Hno, Hd. destruct (h =? 0) eqn:Hz; [bool_to_prop; lia|]. done.
Qed.

(** What finalizing writes when every write works. *)
Lemma finalize_good w names order cm d c0 fs : pendingCheckpoint cm = Some c0 →
  d !! cp_Path c0 = Some fs →
  ∃ c fs' d2,
    cp_Path c = cp_Path c0 ∧ cp_Status c = CheckpointComplete
    ∧ md_Components (cp_Metadata c) = md_Components (cp_Metadata c0)
        ++ filter (λ n, is_Some (state_of w (components cm) n)) names
    ∧ d2 !! cp_Path c0 = Some fs' ∧ fs' !! metadata_file = Some (enc_meta (cp_Metadata c))
    ∧ (∀ n, n ∈ names → is_Some (state_of w (components cm) n) →
         fs' !! state_file n = state_of w (components cm) n)
    ∧ (∀ n, (n ∉ names ∨ state_of w (components cm) n = None) →
         fs' !! state_file n = fs !! state_file n)
    ∧ FinalizeCheckpoint enc_meta good_disk w names order cm d
      = (let h := md_Height (cp_Metadata c0) in
         let '(cm', d') := cleanupOldCheckpoints good_disk order
           (with_pending None (with_checkpoints (<[h := c]> (checkpoints cm)) h cm)) d2 in
         (cm', d', Ok ())).
Proof.
  intros Hp Hd. unfold FinalizeCheckpoint. rewrite Hp.
  pose proof (collect_frame good_disk w (components cm) names (with_status CheckpointComplete c0)
    0 d) as Hc.
  pose proof (collect_files good_disk w (components cm) names (with_status CheckpointComplete c0)
    0 d fs (λ _ _, eq_refl) Hd) as Hfiles.
  destruct (foldl _ _ names) as [[c z] d1]. simpl in Hc, Hfiles.
  destruct Hc as (Hpath & Hst & Hh & _). destruct Hfiles as (Hcomp & fs' & Hd1 & Hin & Hout).
  assert (Hw : write_file good_disk (cp_Path (set_size z c)) metadata_file
    (enc_meta (cp_Metadata (set_size z c))) d1
    = (<[cp_Path c0 := <[metadata_file := enc_meta (cp_Metadata (set_size z c))]> fs']> d1, true)).
  { rewrite (write_done _ _ _ _ _ fs'); cbn [cp_Path set_size]; by rewrite Hpath. }
  rewrite Hw. exists (set_size z c), (<[metadata_file := enc_meta (cp_Metadata (set_size z c))]> fs'),
    (<[cp_Path c0 := <[metadata_file := enc_meta (cp_Metadata (set_size z c))]> fs']> d1).
  split_and!; [done..| | | | |].
  - by rewrite lookup_insert_eq.
  - by rewrite lookup_insert_eq.
  - intros n Hn Hs. rewrite lookup_insert_ne; [by apply Hin|].
    apply not_eq_sym, state_file_not_metadata.
  - intros n Hn. rewrite lookup_insert_ne by (apply not_eq_sym, state_file_not_metadata).
    apply Hout. intros j Hj Hs ->%state_file_inj. destruct Hn as [|Hn]; [done|].
    rewrite Hn in Hs. by destruct Hs.
  - cbn [cp_Metadata set_size md_Height]. by rewrite Hh.
Qed.

(** C24: a checkpoint gives every component back the bytes it had given.  On
    a disk that works and for a height above the listed ones, creating and
    finalizing succeed, whatever the iteration orders; the new checkpoint is
    the latest one, names exactly the components that gave a state, and
    verifies; and any manager with these components that lists it, the same
    one or one made after a restart, restores each of these components from
    its own bytes and no other component. *)
Theorem save_then_restore now h bh ph w names order cm d :
  manager_ok cm → pendingCheckpoint cm = None → 0 < h → is_u64 h →
  (∀ j, is_Some (checkpoints cm !! j) → j < h) → d !! checkpoint_dir h = None →
  iter_order (components cm) names → (∀ m, iter_order m (order m)) →
  let '(cm1, d1, r1) := CreateCheckpoint good_disk now h bh ph cm d in
  let '(cm2, d2, r2) := FinalizeCheckpoint enc_meta good_disk w names order cm1 d1 in
  let saved := state_of w (components cm) in
  is_Ok r1 = true ∧ r2 = Ok () ∧ pendingCheckpoint cm2 = None
  ∧ ∃ c, GetCheckpoint h cm2 = Ok c ∧ GetLatestCheckpoint cm2 = Ok (Some c)
    ∧ md_Components (cp_Metadata c) = filter (λ n, is_Some (saved n)) names
    ∧ (VerifyCheckpoint good_disk h cm2 d2).2 = Ok true
    ∧ ∀ cm3 c3 names' w', components cm3 = components cm → iter_order (components cm) names' →
        GetCheckpoint h cm3 = Ok c3 → cp_Path c3 = cp_Path c →
        cp_Status c3 = CheckpointComplete ∨ cp_Status c3 = CheckpointVerified →
        RestoreFromCheckpoint good_disk names' h cm3 d2 w'
        = (foldl (give saved (components cm)) w' names', Ok ()).
Proof.
  intros Hok Hp Hpos Hu Htop Hnew Hnames Ho.
  assert (checkpoints cm !! h = None) as Hno.
  { destruct (checkpoints cm !! h) eqn:Hc; [|done]. specialize (Htop h ltac:(by eexists)). lia. }
  rewrite create_good by done. set (c0 := mkCheckpoint _ _ _ _).
  assert (Hok0 : manager_ok (with_pending (Some c0) cm)).
  { destruct Hok. split; simpl; [done..|]. intros ? [= <-]. done. }
  destruct (finalize_good w names order (with_pending (Some c0) cm) (<[checkpoint_dir h := ∅]> d) c0 ∅
    eq_refl (lookup_insert_eq _ _ _))
    as (c & fs & d2 & Hpath & Hst & Hcomp & Hd2 & Hmeta & Hin & Hout & ->). cbv zeta.
  change (components (with_pending (Some c0) cm)) with (components cm) in Hcomp, Hin, Hout.
  pose proof (listed_ok _ c0 c Hok0 eq_refl Hpath Hst) as Hok2. cbv zeta in Hok2.
  pose proof (cleanup_spares_top order _ d2 h c Hok2 (Ho _) (lookup_insert_eq _ _ _)) as Hclean.
  simpl in Hclean. destruct (cleanupOldCheckpoints _ _ _ _) as [cm2 d3].
  destruct Hclean as (Hc2 & Hd3 & Hlast & Hpend).
  { intros j [<-|Hj]%lookup_insert_is_Some'; [simpl; lia|]. apply Htop in Hj. simpl. lia. }
  cbv zeta.
  assert (Hread : ∀ n, n ∈ names →
    read_file good_disk (cp_Path c) (state_file n) d3 = state_of w (components cm) n).
  { intros n Hn. unfold read_file. cbn [de_read good_disk]. rewrite Hd3, Hpath, Hd2.
    change (fs !! state_file n = state_of w (components cm) n).
    destruct (state_of w (components cm) n) as [st|] eqn:Hs.
    - rewrite <- Hs. apply Hin; [done|]. rewrite Hs. by eexists.
    - rewrite Hout by (by right). apply lookup_empty. }
  assert (Hfile : ∀ f, is_Some (fs !! f) → stat_file good_disk (cp_Path c) f d3 = true).
  { intros f Hf. unfold stat_file. rewrite Hd3, Hpath, Hd2. by apply bool_decide_eq_true_2. }
  split_and!; [done..|]. exists c. unfold GetCheckpoint, GetLatestCheckpoint. rewrite Hlast.
  destruct (h =? 0) eqn:Hz; [bool_to_prop; lia|]. rewrite Hc2.
  split_and!; [done..| |].
  - unfold VerifyCheckpoint. rewrite Hc2, Hst. cbn [negb bool_decide].
    rewrite Hfile by (rewrite Hmeta; by eexists). cbn.
    rewrite first_missing_none; [done|]. intros n Hn. rewrite Hcomp in Hn.
    apply list_elem_of_filter in Hn as [Hs Hn]. apply Hfile. by rewrite Hin.
  - intros cm3 c3 names' w' Hcs Hnames' Hc3 Hpath3 Hst3.
    destruct (checkpoints cm3 !! h) as [c3'|] eqn:Hc3'; [|done]. injection Hc3 as ->.
    unfold RestoreFromCheckpoint. rewrite Hc3'.
    destruct (negb _ && negb _) eqn:Hneg.
    { bool_to_prop. by destruct Hst3. }
    f_equal. rewrite Hcs, Hpath3. apply restore_gives. intros n Hn. apply Hread.
    by apply (proj2 Hnames), (proj2 Hnames').
Qed.

Lemma first_missing_some env path names d name :
  first_missing env path names d = Some name →
  name ∈ names ∧ stat_file env path (state_file name) d = false.
Proof.
  induction names as [|n names IH]; [done|]. cbn [first_missing].
  destruct (stat_file env path (state_file n) d) eqn:Hs.
  - intros [? ?]%IH. split; [by right|done].
  - intros [= <-]. split; [apply list_elem_of_here|done].
Qed.

(** verifying touches only the status of the checkpoint asked for.  A
    complete one becomes verified exactly when the metadata file and the
    file of every component it names are there, and corrupted otherwise; from
    then on verifying it again is an error, and so is restoring it when it is
    corrupted. *)
Theorem VerifyCheckpoint_correct env height cm d c :
  checkpoints cm !! height = Some c → cp_Status c = CheckpointComplete →
  let '(cm', r) := VerifyCheckpoint env height cm d in
  let present := stat_file env (cp_Path c) metadata_file d
    && forallb (λ n, stat_file env (cp_Path c) (state_file n) d) (md_Components (cp_Metadata c)) in
  is_Ok r = present
  ∧ cm' = set_status height (if present then CheckpointVerified else CheckpointCorrupted) cm
  ∧ (∀ env' d', VerifyCheckpoint env' height cm' d' = (cm', Err (ErrIncomplete height)))
  ∧ (∀ env' names d' w, is_Ok (RestoreFromCheckpoint env' names height cm' d' w).2 = present).
Proof.
  intros Hc Hst.
  assert (Hlater : ∀ s, s ≠ CheckpointComplete →
    (∀ env' d', VerifyCheckpoint env' height (set_status height s cm) d'
       = (set_status height s cm, Err (ErrIncomplete height)))
    ∧ (∀ env' names d' w, is_Ok (RestoreFromCheckpoint env' names height
         (set_status height s cm) d' w).2 = bool_decide (s = CheckpointVerified))).
  { intros s Hs.
    assert (checkpoints (set_status height s cm) !! height = Some (with_status s c)) as Hc'.
    { cbn [set_status with_checkpoints checkpoints]. by rewrite lookup_alter_eq, Hc. }
    split; intros; [unfold VerifyCheckpoint|unfold RestoreFromCheckpoint]; rewrite Hc'; by destruct s. }
  unfold VerifyCheckpoint. rewrite Hc, Hst. cbn [negb bool_decide].
  destruct (stat_file env (cp_Path c) metadata_file d) eqn:Hm; cbn.
  2:{ split_and!; [done..|apply Hlater|apply Hlater]; done. }
  destruct (first_missing _ _ _ _) as [n|] eqn:Hf.
  - apply first_missing_some in Hf as [Hn Hs].
    assert (forallb (λ n, stat_file env (cp_Path c) (state_file n) d)
      (md_Components (cp_Metadata c)) = false) as ->.
    { apply not_true_iff_false. rewrite forallb_forall. intros Hall.
      rewrite Hall in Hs; [done|by apply list_elem_of_In]. }
    split_and!; [done..|apply Hlater|apply Hlater]; done.
  - assert (forallb (λ n, stat_file env (cp_Path c) (state_file n) d)
      (md_Components (cp_Metadata c)) = true) as ->.
    { revert Hf. generalize (md_Components (cp_Metadata c)). intros l. induction l as [|n l IH]; [done|].
      simpl. destruct (stat_file env (cp_Path c) (state_file n) d); [done|]. intros [=]. }
    split_and!; [done..|apply Hlater|apply Hlater]; done.
Qed.
End facts.

(** * A concrete instance

    The world maps names to bytes, a component is its name, and JSON is a
    coding of the metadata by positive numbers. *)

#[export] Instance named_component : ComponentCheckpointHandler string (gmap string (list byte)) := {
  GetComponentName := λ n, n;
  GetCheckpointState := λ n w, w !! n;
  RestoreState_ := λ n st w, (<[n := st]> w, true) }.

Definition toy_tuple (m : CheckpointMetadata) : Z * Z * string * string * Z * list string * string :=
  (md_Height m, md_Timestamp m, md_BlockHash m, md_PreviousHash m, md_StateSize m, md_Components m,
   md_Version m).
Definition toy_enc (m : CheckpointMetadata) : list byte := bits (encode (toy_tuple m)).
Definition toy_dec (l : list byte) : option CheckpointMetadata :=
  '(h, t, b, p, s, c, v) ← (decode (unbits l)
     : option (Z * Z * string * string * Z * list string * string)); Some (mkMeta h t b p s c v).

Lemma toy_json m : toy_dec (toy_enc m) = Some m.
Proof. unfold toy_dec, toy_enc. rewrite unbits_bits, decode_encode. by destruct m. Qed.

Definition toy_order (m : gmap Z Checkpoint) : list Z := (map_to_list m).*1.
Lemma toy_order_ok m : iter_order m (toy_order m).
Proof. apply iter_order_default. Qed.

Definition toy_manager : CheckpointManager (H := string) :=
  mkManager 10 2 true true ∅ 0 {["poh" := "poh"; "dpos" := "dpos"]} None.
Definition toy_world : gmap string (list byte) := {["poh" := [x01; x02]]}.

(** Writes of the component files fail, those of the metadata work. *)
Definition flaky : disk_env :=
  mkEnv (λ _, true)
    (λ _ f, if bool_decide (f = metadata_file) then Done else Failed (Some [x07]))
    (λ _ _, true) (λ _ _, true) (λ _, Done).

(** Three heights, the last below the first. *)
Definition toy_ops : list (op (H := string) (W := gmap string (list byte))) :=
  [ORegister "poh"; OSetMax good_disk toy_order 2;
   OCreate good_disk 1 20 "b20" "b19"; OFinalize flaky toy_world ["poh"] toy_order;
   OCreate good_disk 2 30 "b30" "b29"; OFinalize good_disk toy_world ["poh"] toy_order;
   OCreate good_disk 3 10 "b10" "b9"; OFinalize good_disk toy_world ["poh"] toy_order;
   OVerify good_disk 30].

Lemma toy_ops_ok : Forall op_ok toy_ops.
Proof.
  unfold toy_ops. rewrite !Forall_cons. cbn [op_ok]. unfold is_u64.
  split_and!; try done; try lia; intros; apply toy_order_ok.
Qed.
Lemma toy_ops_remove : Forall op_removes toy_ops.
Proof. unfold toy_ops. by rewrite !Forall_cons. Qed.

Definition toy_new : CheckpointManager (H := string) :=
  mkManager 1000 10 true true ∅ 0 ∅ None.

Definition toy_end : CheckpointManager (H := string) * gmap string (gmap string (list byte)) :=
  perform_all toy_enc toy_ops (toy_new, ∅).

Lemma manager_invariant_witness :
  let '(cm', _) := perform_all toy_enc toy_ops (toy_new, ∅) in
  manager_ok cm'
  ∧ ∀ h h' c c', checkpoints cm' !! h = Some c → checkpoints cm' !! h' = Some c' →
      cp_Path c = cp_Path c' → h = h'.
Proof.
  exact (manager_invariant toy_enc toy_dec [] good_disk (Some []) ∅ toy_new toy_ops eq_refl
    toy_ops_ok).
Defined.

Lemma cleanup_keeps_highest_witness :
  let cm := with_settings 10 1 true true toy_end.1 in
    let '(cm', d') := cleanupOldCheckpoints good_disk toy_order cm toy_end.2 in
    Z.of_nat (size (checkpoints cm')) = Z.of_nat (size (checkpoints cm)) `min` maxCheckpoints cm
    ∧ checkpoints cm' ⊆ checkpoints cm
    ∧ (∀ h h', is_Some (checkpoints cm !! h) → checkpoints cm' !! h = None →
         is_Some (checkpoints cm' !! h') → h < h')
    ∧ (∀ dir, (∀ h c, checkpoints cm !! h = Some c → checkpoints cm' !! h = None →
                 cp_Path c ≠ dir) → d' !! dir = toy_end.2 !! dir)
    ∧ lastCheckpoint cm' = lastCheckpoint cm ∧ pendingCheckpoint cm' = pendingCheckpoint cm.
Proof.
  cbv zeta. apply (cleanup_keeps_highest good_disk toy_order (with_settings 10 1 true true toy_end.1)
    toy_end.2); [done|apply toy_order_ok|done].
Defined.

(** The calls above leave the latest checkpoint, of height
    10, already cleaned away. *)
Example latest_is_nil : GetLatestCheckpoint toy_end.1 = Ok None.
Proof. by vm_compute. Qed.

Lemma restart_keeps_checkpoints_witness :
  match NewCheckpointManager (H := string) toy_dec [] true good_disk
          (Some (map_to_list toy_end.2).*1) toy_end.2 with
  | None => False
  | Some cm'' => ∀ h c, checkpoints toy_end.1 !! h = Some c →
      checkpoints cm'' !! h = Some (mkCheckpoint (cp_Metadata c) CheckpointComplete (cp_Path c) ∅)
  end.
Proof.
  exact (restart_keeps_checkpoints toy_enc toy_dec [] [] good_disk toy_new toy_ops toy_end.1
    toy_end.2 (map_to_list toy_end.2).*1 _ toy_json eq_refl toy_ops_ok toy_ops_remove
    (surjective_pairing _) (iter_order_default _) eq_refl).
Defined.

Lemma save_then_restore_witness :
  let '(cm1, d1, r1) := CreateCheckpoint good_disk 5 10 "b10" "b9" toy_manager ∅ in
  let '(cm2, d2, r2) := FinalizeCheckpoint toy_enc good_disk toy_world ["poh"; "dpos"] toy_order
    cm1 d1 in
  let saved := state_of toy_world (components toy_manager) in
  is_Ok r1 = true ∧ r2 = Ok () ∧ pendingCheckpoint cm2 = None
  ∧ ∃ c, GetCheckpoint 10 cm2 = Ok c ∧ GetLatestCheckpoint cm2 = Ok (Some c)
    ∧ md_Components (cp_Metadata c) = filter (λ n, is_Some (saved n)) ["poh"; "dpos"]
    ∧ (VerifyCheckpoint good_disk 10 cm2 d2).2 = Ok true
    ∧ ∀ cm3 c3 names' w', components cm3 = components toy_manager →
        iter_order (components toy_manager) names' →
        GetCheckpoint 10 cm3 = Ok c3 → cp_Path c3 = cp_Path c →
        cp_Status c3 = CheckpointComplete ∨ cp_Status c3 = CheckpointVerified →
        RestoreFromCheckpoint good_disk names' 10 cm3 d2 w'
        = (foldl (give saved (components toy_manager)) w' names', Ok ()).
Proof.
  apply (save_then_restore toy_enc 5 10 "b10" "b9" toy_world ["poh"; "dpos"] toy_order toy_manager ∅).
  - by split.
  - done.
  - lia.
  - unfold is_u64. lia.
  - intros j [? ?]. done.
  - done.
  - solve_order.
  - apply toy_order_ok.
Defined.

Definition ckpt30 : Checkpoint := default (mkCheckpoint (mkMeta 0 0 "" "" 0 [] "") CheckpointPending "" ∅)
  (checkpoints (set_status 30 CheckpointComplete toy_end.1) !! 30).

Lemma VerifyCheckpoint_correct_witness :
  let cm := set_status 30 CheckpointComplete toy_end.1 in
  let '(cm', r) := VerifyCheckpoint good_disk 30 cm toy_end.2 in
  let present := stat_file good_disk (cp_Path ckpt30) metadata_file toy_end.2
    && forallb (λ n, stat_file good_disk (cp_Path ckpt30) (state_file n) toy_end.2)
         (md_Components (cp_Metadata ckpt30)) in
  is_Ok r = present
  ∧ cm' = set_status 30 (if present then CheckpointVerified else CheckpointCorrupted) cm
  ∧ (∀ env' d', VerifyCheckpoint env' 30 cm' d' = (cm', Err (ErrIncomplete 30)))
  ∧ (∀ env' names d' (w : gmap string (list byte)),
       is_Ok (RestoreFromCheckpoint env' names 30 cm' d' w).2 = present).
Proof.
  cbv zeta. exact (VerifyCheckpoint_correct (W := gmap string (list byte)) good_disk 30
    (set_status 30 CheckpointComplete toy_end.1) toy_end.2 ckpt30
    ltac:(vm_compute; reflexivity) ltac:(vm_compute; reflexivity)).
Defined.
