(* ===== verification/Optimizer.v ===== *)
(** * Adaptive parameters: src/consensus/aiopt/optimizer.go

    The optimizer samples the network load and its own sampling intervals,
    predicts the load and moves the parameters of Lachesis, DPoS and PoH.  It
    knows the consensus through an interface, the class [Tunable] with its
    laws; the node of Node.v is an instance.  [math.Pow] and conversions out
    of the integer range are parameters.  A panic is [None], a nil consensus
    or logger a missing argument; submodules are never nil here. *)
From Stdlib Require Import ZArith Lia SpecFloat.
From stdpp Require Import numbers prelude gmap.
From S2P Require Import Prelude GoFloat FloatBounds Bytes Maps Common PoH DPoS Dag Voting Gossip.
From S2P Require Import Lachesis Governance Node.
Open Scope Z_scope.

(** ** The interface *)

Record Params := mkParams {
  p_gossipDelay : Z;
  p_votingThreshold : f64;
  p_setSize : Z;
  p_epochDuration : Z;
  p_tickDelay : Z }.

Definition set_gossip (v : Z) (p : Params) : Params :=
  mkParams v (p_votingThreshold p) (p_setSize p) (p_epochDuration p) (p_tickDelay p).
Definition set_threshold (v : f64) (p : Params) : Params :=
  mkParams (p_gossipDelay p) v (p_setSize p) (p_epochDuration p) (p_tickDelay p).
Definition set_size (v : Z) (p : Params) : Params :=
  mkParams (p_gossipDelay p) (p_votingThreshold p) v (p_epochDuration p) (p_tickDelay p).
Definition set_epoch (v : Z) (p : Params) : Params :=
  mkParams (p_gossipDelay p) (p_votingThreshold p) (p_setSize p) v (p_tickDelay p).
Definition set_tick (v : Z) (p : Params) : Params :=
  mkParams (p_gossipDelay p) (p_votingThreshold p) (p_setSize p) (p_epochDuration p) v.

Class Tunable (C : Type) := {
  tn_load : C → f64;
  tn_test : C → bool;
  tn_params : C → Params;
  tn_set_gossip : Z → C → C;
  tn_set_threshold : f64 → C → C;
  tn_set_size : Z → C → option C;
  tn_set_epoch : Z → C → C;
  tn_set_tick : Z → C → C }.

(** [tn_same c c' p]: the consensus [c'] has parameters [p] and otherwise
    looks like [c]. *)
Definition tn_same `{Tunable C} (c c' : C) (p : Params) : Prop :=
  tn_params c' = p ∧ tn_load c' = tn_load c ∧ tn_test c' = tn_test c.

(** A set size that is not negative is accepted, and a tick delay exactly
    when it is positive. *)
Class TunableLaws (C : Type) `{Tunable C} := {
  tn_ok : C → Prop;
  tl_gossip v c : tn_ok c →
    tn_ok (tn_set_gossip v c) ∧ tn_same c (tn_set_gossip v c) (set_gossip v (tn_params c));
  tl_threshold v c : tn_ok c →
    tn_ok (tn_set_threshold v c) ∧ tn_same c (tn_set_threshold v c) (set_threshold v (tn_params c));
  tl_size v c : tn_ok c → 0 ≤ v → ∃ c', tn_set_size v c = Some c'
    ∧ tn_ok c' ∧ tn_same c c' (set_size v (tn_params c));
  tl_epoch v c : tn_ok c → v ≠ 0 →
    tn_ok (tn_set_epoch v c) ∧ tn_same c (tn_set_epoch v c) (set_epoch v (tn_params c));
  tl_tick v c : tn_ok c →
    tn_ok (tn_set_tick v c)
    ∧ tn_same c (tn_set_tick v c)
        (if 0 <? v then set_tick v (tn_params c) else tn_params c) }.

(** ** The optimizer *)

Record Optimizer := mkOptimizer {
  samples : list f64;
  blockTimes : list Z;
  lastBlockTime : Z;
  ema : f64;
  has_logger : bool }.

Record PerformanceMetrics := mkMetrics {
  averageBlockTime : Z;
  tps : f64;
  networkLoad : f64 }.

Definition targetBlockTime : Z := 5 * second.
Definition sampleSize : nat := 100.
Definition alpha : f64 := f_lit 2 1.
Definition one_minus_alpha : f64 := f_lit 8 1.

Definition maxInt (a b : Z) : Z := if b <? a then a else b.
Definition minInt (a b : Z) : Z := if a <? b then a else b.

Definition NewOptimizer (now : Z) (logger : bool) : Optimizer := mkOptimizer [] [] now f_zero logger.

(** The newest [sampleSize] values. *)
Definition push {A} (x : A) (l : list A) : list A :=
  let l := l ++ [x] in if (sampleSize <? length l)%nat then tail l else l.

Definition PredictLoad (o : Optimizer) : f64 :=
  if (length (samples o) <? 10)%nat then f_lit 5 1
  else
    let trend := f_div (f_sub (List.last (samples o) f_zero) (List.hd f_zero (samples o)))
                   (f_of_Z (Z.of_nat (length (samples o)))) in
    f_max f_zero (f_min f_one (f_add (ema o) trend)).

Definition total_block_time (o : Optimizer) : Z := foldl (λ a b, i64 (a + b)) 0 (blockTimes o).

Section tuning.
Variable pow : f64 → f64 → f64.
Variable wild : f64 → Z.
Context `{Tunable C}.

Definition CollectSample (now : Z) (c : option C) (o : Optimizer) : Optimizer :=
  match c with
  | None => o
  | Some c =>
      let load := tn_load c in
      let s := push load (samples o) in
      mkOptimizer s (push (time_sub now (lastBlockTime o)) (blockTimes o)) now
        (if (length s =? 1)%nat then load
         else f_add (f_mul alpha load) (f_mul one_minus_alpha (ema o)))
        (has_logger o)
  end.

(** [time.Duration(float64(d) * r)] and [int(float64(n) * r)]. *)
Definition scale (v : Z) (r : f64) : Z := to_int wild (f_mul (f_of_Z v) r).

Definition adaptParameters (predictedLoad : f64) (c : C) : option C :=
  let x := f_sub predictedLoad (f_lit 5 1) in
  let isTestMode := tn_test c in
  let c := tn_set_gossip (scale (p_gossipDelay (tn_params c)) (pow (f_of_Z 2) x)) c in
  let old := p_votingThreshold (tn_params c) in
  let c :=
    if isTestMode then c
    else tn_set_threshold
           (f_max (f_lit 66 2) (f_min (f_mul old (pow (f_lit 11 1) x)) (f_lit 9 1))) c in
  let size := scale (p_setSize (tn_params c)) (pow (f_lit 12 1) x) in
  c ← tn_set_size (maxInt 4 (minInt size 100)) c;
  Some (tn_set_tick (scale (p_tickDelay (tn_params c)) (pow (f_lit 11 1) x)) c).

Definition finetunePerformance (actualTime targetTime : f64) (c : C) : option C :=
  let deviation := f_div (f_sub actualTime targetTime) targetTime in
  let r := f_sub f_one (f_mul (f_lit 1 1) deviation) in
  let c := tn_set_gossip (scale (p_gossipDelay (tn_params c)) r) c in
  c ← tn_set_size (scale (p_setSize (tn_params c)) r) c;
  Some (tn_set_tick (scale (p_tickDelay (tn_params c)) r) c).

Definition adjustForSlowPerformance (c : C) : option C :=
  let r := f_lit 9 1 in
  let c := tn_set_gossip (scale (p_gossipDelay (tn_params c)) r) c in
  c ← tn_set_size (maxInt 4 (i64 (p_setSize (tn_params c) - 1))) c;
  Some (tn_set_tick (scale (p_tickDelay (tn_params c)) r) c).

Definition adjustForFastPerformance (c : C) : option C :=
  let r := f_lit 11 1 in
  let c := tn_set_gossip (scale (p_gossipDelay (tn_params c)) r) c in
  c ← tn_set_size (minInt 100 (i64 (p_setSize (tn_params c) + 1))) c;
  Some (tn_set_tick (scale (p_tickDelay (tn_params c)) r) c).

Definition collectPerformanceMetrics (c : option C) (o : Optimizer) : PerformanceMetrics :=
  let total := total_block_time o in
  let n := Z.of_nat (length (blockTimes o)) in
  mkMetrics (if 0 <? n then Z.quot total n else targetBlockTime)
    (if f_gt (dur_seconds total) f_zero then f_div (f_of_Z n) (dur_seconds total) else f_zero)
    (match c with None => f_zero | Some c => tn_load c end).

Definition monitorPerformance (c : C) (o : Optimizer) : option C :=
  let metrics := collectPerformanceMetrics (Some c) o in
  let target := dur_seconds targetBlockTime in
  let actual := dur_seconds (averageBlockTime metrics) in
  if f_gt actual (f_mul target (f_lit 12 1)) then adjustForSlowPerformance c
  else if f_lt actual (f_mul target (f_lit 8 1)) then adjustForFastPerformance c
  else finetunePerformance actual target c.

(** Without a logger the first log line panics; without a consensus the
    monitoring does. *)
Definition OptimizeConsensus (c : option C) (o : Optimizer) : option C :=
  if negb (has_logger o) then None
  else c ← c; c ← adaptParameters (PredictLoad o) c; monitorPerformance c o.

Definition ResetOptimization (now : Z) (c : option C) (o : Optimizer) :
    option (Optimizer * option C) :=
  let o := mkOptimizer [] [] now f_zero (has_logger o) in
  match c with
  | None => Some (o, None)
  | Some c =>
      let c := tn_set_gossip 100000000 c in
      let c := tn_set_threshold (f_lit 66 2) c in
      c ← tn_set_size 21 c;
      Some (o, Some (tn_set_tick 50000000 (tn_set_epoch 100 c)))
  end.
End tuning.

(** * Facts *)

(** ** Floats in a range *)

(** One, in units of the last place. *)
Definition unit_val : Z := 2 ^ 1074.
Definition in_range (lo hi : Z) (x : f64) : Prop := fin x ∧ lo ≤ fval x ≤ hi.
Abbreviation in_unit := (in_range 0 unit_val).

Lemma unit_pos : 0 < unit_val.
Proof. by apply pow_pos. Qed.

Lemma in_range_weaken lo hi lo' hi' x : lo' ≤ lo → hi ≤ hi' → in_range lo hi x → in_range lo' hi' x.
Proof. intros ? ? [? ?]. split; [done|lia]. Qed.

Definition litb (lo hi : Z) (x : f64) : bool :=
  bool_decide (fin x) && (lo <=? fval x) && (fval x <=? hi).
(** Decides the range of a literal. *)
Lemma lit_range lo hi x : litb lo hi x = true → in_range lo hi x.
Proof. unfold litb. intros Hx. bool_to_prop. by split. Qed.

(** The optimizer's averages: a load in the unit interval moves the average
    at most to two. *)
Lemma ema_step load e : in_unit load → in_range 0 (2 * unit_val) e →
  in_range 0 (2 * unit_val) (f_add (f_mul alpha load) (f_mul one_minus_alpha e)).
Proof.
  intros [Hlf Hl] [Hef He]. pose proof unit_pos as Hu.
  assert (in_range 0 (2 * 2 ^ 1071) alpha) as [Haf Ha] by (apply lit_range; by vm_compute).
  assert (in_range 0 (7 * 2 ^ 1071) one_minus_alpha) as [Hbf Hb]
    by (apply lit_range; by vm_compute).
  assert (∀ b, Z.abs b < 17 → rep (b * 2 ^ 1071)) as Hr by (intros b ?; apply rep_scaled; [lia|done]).
  pose proof (Hr 2 ltac:(done)) as Hr1. pose proof (Hr 14 ltac:(done)) as Hr2.
  pose proof (Hr 16 ltac:(done)) as Hr3. clear Hr.
  assert (Hu2 : 2 * unit_val = 16 * 2 ^ 1071) by (unfold unit_val; by vm_compute).
  destruct (f_mul_bounds alpha load 0 (2 * 2 ^ 1071)) as [Hf1 Hv1]; [done..|apply rep_0|done| |].
  { fold unit_val. clear - Ha Hl Hu. hide_pow 1071. nia. }
  destruct (f_mul_bounds one_minus_alpha e 0 (14 * 2 ^ 1071)) as [Hf2 Hv2];
    [done..|apply rep_0|done| |].
  { fold unit_val. clear - Hb He Hu. hide_pow 1071. nia. }
  destruct (f_add_bounds (f_mul alpha load) (f_mul one_minus_alpha e) 0 (16 * 2 ^ 1071)) as [Hf Hv];
    [done..|apply rep_0|done|clear - Hv1 Hv2; hide_pow 1071; lia|]. split; [done|]. by rewrite Hu2.
Qed.

Lemma clamp_unit x : fin x → in_unit (f_max f_zero (f_min f_one x)).
Proof.
  intros Hx. assert (fin f_one ∧ fval f_one = unit_val) as [H1 Hv1].
  { destruct (f_of_Z_fval 1) as [? Hv]; [by vm_compute|]. split; [done|].
    unfold f_one. rewrite Hv. by rewrite Z.mul_1_l. }
  destruct (f_min_fval f_one x H1 Hx) as [Hm Hmv].
  destruct (f_max_fval f_zero (f_min f_one x) I Hm) as [Hf Hfv].
  split; [done|]. rewrite Hfv, Hmv, Hv1. pose proof unit_pos. change (fval f_zero) with 0. lia.
Qed.

(** ** Samples *)

Record sane (o : Optimizer) : Prop := {
  sn_samples : Forall (in_range 0 unit_val) (samples o);
  sn_count : (length (samples o) ≤ sampleSize)%nat;
  sn_times : length (blockTimes o) = length (samples o);
  sn_ema : in_range 0 (2 * unit_val) (ema o) }.

Lemma push_length {A} (x : A) l :
  length (push x l) = Nat.min (S (length l)) (Nat.max sampleSize (length l)).
Proof.
  unfold push. generalize sampleSize. intros n.
  assert (length (l ++ [x]) = S (length l)) as Hl by (rewrite length_app; simpl; lia).
  rewrite Hl. destruct (n <? S (length l))%nat eqn:Hn.
  - apply Nat.ltb_lt in Hn. rewrite length_tl, Hl. lia.
  - apply Nat.ltb_ge in Hn. lia.
Qed.

Lemma push_Forall {A} (P : A → Prop) x l : P x → Forall P l → Forall P (push x l).
Proof.
  intros Hx Hl. assert (Forall P (l ++ [x])) as Hf by (apply Forall_app; auto).
  unfold push. destruct (_ <? _)%nat; [|done]. destruct (l ++ [x]); [done|]. by apply Forall_cons in Hf as [_ ?].
Qed.

Lemma PredictLoad_unit o : sane o → in_unit (PredictLoad o).
Proof.
  intros [Hs Hc _ [Hef He]]. unfold PredictLoad. destruct (_ <? _)%nat eqn:Hlen.
  { apply lit_range. by vm_compute. }
  apply Nat.ltb_ge in Hlen. apply clamp_unit.
  assert (Hends : in_unit (List.last (samples o) f_zero) ∧ in_unit (List.hd f_zero (samples o))).
  { destruct (samples o) as [|x l] eqn:Hl; [simpl in Hlen; lia|]. rewrite Forall_forall in Hs.
    split; [|apply Hs, list_elem_of_here].
    apply Hs, list_elem_of_In. destruct (@exists_last _ (x :: l)) as (l' & y & ->); [done|].
    rewrite last_last. apply in_or_app. right. by left. }
  destruct Hends as [[Hlf Hl] [Hhf Hh]]. pose proof unit_pos as Hu.
  assert (Hru : rep unit_val) by by apply (rep_int 1).
  assert (Hr4 : rep (4 * unit_val)) by by apply rep_int.
  destruct (f_sub_bounds (List.last (samples o) f_zero) (List.hd f_zero (samples o)) (- unit_val)
    unit_val) as [Hsf Hsv]; [done..|by apply rep_opp|done|lia|].
  destruct (f_of_Z_fval (Z.of_nat (length (samples o)))) as [Hnf Hnv];
    [unfold exact_int; unfold sampleSize in Hc; lia|]. fold unit_val in Hnv.
  destruct (f_div_magnitude (f_sub (List.last (samples o) f_zero) (List.hd f_zero (samples o)))
    (f_of_Z (Z.of_nat (length (samples o)))) unit_val) as [Hdf Hdv]; [done..|nia|done| |].
  { fold unit_val. rewrite Hnv. nia. }
  apply (f_add_bounds _ _ (- (4 * unit_val)) (4 * unit_val)); [done..|by apply rep_opp|done|lia].
Qed.

(** ** The loop *)

Section loop.
Variable pow : f64 → f64 → f64.
Variable wild : f64 → Z.
Context {C : Type} `{TunableLaws C}.

(** One turn of [Run]: sample, then optimize. *)
Definition tick (now : Z) (s : Optimizer * C) : option (Optimizer * C) :=
  let o := CollectSample now (Some s.2) s.1 in
  c ← OptimizeConsensus pow wild (Some s.2) o; Some (o, c).

(** [Run], up to the stop signal: [ticks] are the times of the ticker with
    what happened to the consensus since the last one. *)
Fixpoint run_ticks (ticks : list (Z * (C → C))) (s : Optimizer * C) : option (Optimizer * C) :=
  match ticks with
  | [] => Some s
  | (now, f) :: ticks => s ← tick now (s.1, f s.2); run_ticks ticks s
  end.
Definition Run (now : Z) (ticks : list (Z * (C → C))) (o : Optimizer) (c : C) :
    option (Optimizer * C) := run_ticks ticks (CollectSample now (Some c) o, c).

(** What the rest of the node may do between two ticks. *)
Definition benign (f : C → C) : Prop :=
  ∀ c, tn_ok c → in_unit (tn_load c) →
       tn_ok (f c) ∧ tn_params (f c) = tn_params c ∧ in_unit (tn_load (f c))
       ∧ tn_test (f c) = tn_test c.

(** The ticks come in order, less than [gap] apart. *)
Fixpoint paced (gap last : Z) (ticks : list (Z * (C → C))) : Prop :=
  match ticks with
  | [] => True
  | (now, _) :: ticks => last ≤ now < last + gap ∧ paced gap now ticks
  end.

(** [math.Pow] near zero, for the bases the optimizer uses. *)
Definition pow_near_one : Prop := ∀ b x, b ∈ [f_of_Z 2; f_lit 11 1; f_lit 12 1] →
  in_range (- 2 ^ 1073) (2 ^ 1073) x → in_range (2 ^ 1073) (3 * 2 ^ 1073) (pow b x).

Definition timed (gap : Z) (o : Optimizer) : Prop :=
  Forall (λ b, 0 ≤ b < gap) (blockTimes o).

Lemma collect_sane now c o : sane o → in_unit (tn_load c) → sane (CollectSample now (Some c) o).
Proof.
  intros [Hs Hc Ht He] Hl. cbn [CollectSample]. split; cbn [samples blockTimes ema].
  - by apply push_Forall.
  - rewrite push_length. lia.
  - by rewrite !push_length, Ht.
  - destruct (_ =? 1)%nat; [|by apply ema_step]. pose proof unit_pos.
    eapply in_range_weaken; [| |exact Hl]; lia.
Qed.

Lemma collect_timed gap now c o : 0 < gap < 9223372036854775807 → timed gap o →
  lastBlockTime o ≤ now < lastBlockTime o + gap → timed gap (CollectSample now (Some c) o).
Proof.
  intros Hg Ht Hn. unfold timed. cbn [CollectSample blockTimes]. apply push_Forall; [|done].
  unfold time_sub, clamp_i64. lia.
Qed.

(** The total of the block times does not wrap. *)
Lemma total_bounds gap o : timed gap o → 0 < gap → (length (blockTimes o) ≤ sampleSize)%nat →
  gap ≤ 90000000000000 →
  0 ≤ total_block_time o ≤ Z.of_nat (length (blockTimes o)) * (gap - 1).
Proof.
  unfold timed, total_block_time. intros Ht Hg Hl Hgap.
  assert (Hgen : ∀ l acc, Forall (λ b, 0 ≤ b < gap) l → 0 ≤ acc →
    acc + Z.of_nat (length l) * (gap - 1) < 9223372036854775808 →
    acc ≤ foldl (λ a b, i64 (a + b)) acc l ≤ acc + Z.of_nat (length l) * (gap - 1)).
  { induction l as [|b l IH]; intros acc Hf Hacc Hs; [simpl; lia|].
    apply Forall_cons in Hf as [Hb Hf]. cbn [foldl length] in *.
    rewrite i64_small by (unfold is_i64; nia). specialize (IH (acc + b) Hf). nia. }
  specialize (Hgen (blockTimes o) 0 Ht). unfold sampleSize in Hl. nia.
Qed.

Lemma average_bounds gap c o : timed gap o → 0 < gap ≤ 90000000000000 →
  (0 < length (blockTimes o) ≤ sampleSize)%nat →
  0 ≤ averageBlockTime (collectPerformanceMetrics (Some c) o) < gap.
Proof.
  intros Htm Hg Hl. pose proof (total_bounds gap o Htm ltac:(lia) ltac:(lia) ltac:(lia)) as Hb.
  unfold collectPerformanceMetrics. cbn [averageBlockTime].
  set (n := Z.of_nat (length (blockTimes o))) in *.
  destruct (0 <? n) eqn:Hn; bool_to_prop; [|lia].
  rewrite Z.quot_div_nonneg by lia. split; [apply Z.div_pos; lia|].
  apply Z.div_lt_upper_bound; [lia|]. nia.
Qed.

(** What a change of parameters reaches. *)
Record changed (c c' : C) (t : f64) (n : Z) : Prop := {
  ch_ok : tn_ok c';
  ch_load : tn_load c' = tn_load c;
  ch_test : tn_test c' = tn_test c;
  ch_threshold : p_votingThreshold (tn_params c') = t;
  ch_size : p_setSize (tn_params c') = n }.

Lemma gossip_changed v c : tn_ok c →
  changed c (tn_set_gossip v c) (p_votingThreshold (tn_params c)) (p_setSize (tn_params c)).
Proof. intros Hok. destruct (tl_gossip v c Hok) as (? & Hp & ? & ?). split; try done; by rewrite Hp. Qed.
Lemma threshold_changed v c : tn_ok c →
  changed c (tn_set_threshold v c) v (p_setSize (tn_params c)).
Proof. intros Hok. destruct (tl_threshold v c Hok) as (? & Hp & ? & ?). split; try done; by rewrite Hp. Qed.
Lemma tick_changed v c : tn_ok c →
  changed c (tn_set_tick v c) (p_votingThreshold (tn_params c)) (p_setSize (tn_params c)).
Proof.
  intros Hok. destruct (tl_tick v c Hok) as (? & Hp & ? & ?).
  split; try done; rewrite Hp; by destruct (0 <? v).
Qed.

Lemma changed_trans a b c t n t' n' : changed a b t n → changed b c t' n' → changed a c t' n'.
Proof. intros [] []. split; congruence. Qed.

(** Every adjustment ends with a set size and a tick delay. *)
Lemma size_tick_changed (n : Z) (g : C → Z) a c t k : changed a c t k → 0 ≤ n →
  ∃ c', (c' ← tn_set_size n c; Some (tn_set_tick (g c') c')) = Some c' ∧ changed a c' t n.
Proof.
  intros Hc Hn. destruct (tl_size n c (ch_ok _ _ _ _ Hc) Hn) as (c1 & Hs & Hok & Hp & Hl & Ht).
  exists (tn_set_tick (g c1) c1). rewrite Hs. split; [done|].
  pose proof (tick_changed (g c1) c1 Hok) as Hk. rewrite Hp in Hk. cbn [set_size
    p_votingThreshold p_setSize] in Hk. rewrite (ch_threshold _ _ _ _ Hc) in Hk.
  eapply changed_trans; [exact Hc|]. eapply changed_trans; [|exact Hk].
  split; try done; rewrite Hp; cbn; try done.
Qed.

Lemma adapt_changed load c : tn_ok c → ∃ c', adaptParameters pow wild load c = Some c'
  ∧ changed c c'
      (if tn_test c then p_votingThreshold (tn_params c)
       else f_max (f_lit 66 2)
              (f_min (f_mul (p_votingThreshold (tn_params c))
                        (pow (f_lit 11 1) (f_sub load (f_lit 5 1)))) (f_lit 9 1)))
      (p_setSize (tn_params c'))
  ∧ 4 ≤ p_setSize (tn_params c') ≤ 100.
Proof.
  intros Hok. unfold adaptParameters. set (x := f_sub load _).
  pose proof (gossip_changed (scale wild (p_gossipDelay (tn_params c)) (pow (f_of_Z 2) x)) c Hok) as H1.
  set (c1 := tn_set_gossip _ c) in *.
  assert (∃ c2 k, changed c c2 (if tn_test c then p_votingThreshold (tn_params c)
       else f_max (f_lit 66 2) (f_min (f_mul (p_votingThreshold (tn_params c))
              (pow (f_lit 11 1) x)) (f_lit 9 1))) k
    ∧ (if tn_test c then c1 else tn_set_threshold (f_max (f_lit 66 2)
         (f_min (f_mul (p_votingThreshold (tn_params c1)) (pow (f_lit 11 1) x)) (f_lit 9 1))) c1)
      = c2) as (c2 & k & H2 & Hc2).
  { destruct (tn_test c); [by eexists _, _|]. eexists _, _. split; [|done].
    eapply changed_trans; [exact H1|]. rewrite (ch_threshold _ _ _ _ H1).
    apply threshold_changed, (ch_ok _ _ _ _ H1). }
  rewrite Hc2. set (n := maxInt 4 _).
  assert (4 ≤ n ≤ 100) as Hn.
  { subst n. unfold maxInt, minInt. generalize (scale wild (p_setSize (tn_params c2))
      (pow (f_lit 12 1) x)). intros z. destruct (z <? 100) eqn:Hz; [destruct (z <? 4) eqn:?|cbn];
      bool_to_prop; lia. }
  destruct (size_tick_changed n (λ c, scale wild (p_tickDelay (tn_params c)) (pow (f_lit 11 1) x))
    c c2 _ k H2 ltac:(lia)) as (c' & Hc' & Hch).
  exists c'. split; [exact Hc'|]. rewrite (ch_size _ _ _ _ Hch). by split.
Qed.

Lemma slow_changed c : tn_ok c → 4 ≤ p_setSize (tn_params c) ≤ 100 →
  ∃ c', adjustForSlowPerformance wild c = Some c'
  ∧ changed c c' (p_votingThreshold (tn_params c)) (p_setSize (tn_params c'))
  ∧ 4 ≤ p_setSize (tn_params c') ≤ 99.
Proof.
  intros Hok Hsz. unfold adjustForSlowPerformance.
  pose proof (gossip_changed (scale wild (p_gossipDelay (tn_params c)) (f_lit 9 1)) c Hok) as H1.
  set (c1 := tn_set_gossip _ c) in *. rewrite (ch_size _ _ _ _ H1).
  set (n := maxInt 4 _).
  assert (4 ≤ n ≤ 99) as Hn.
  { subst n. rewrite i64_small by (unfold is_i64; lia). unfold maxInt.
    destruct (_ <? _) eqn:?; bool_to_prop; lia. }
  destruct (size_tick_changed n (λ c, scale wild (p_tickDelay (tn_params c)) (f_lit 9 1))
    c c1 _ _ H1 ltac:(lia)) as (c' & Hc' & Hch).
  exists c'. split; [exact Hc'|]. rewrite (ch_size _ _ _ _ Hch). by split.
Qed.

Lemma fast_changed c : tn_ok c → 4 ≤ p_setSize (tn_params c) ≤ 100 →
  ∃ c', adjustForFastPerformance wild c = Some c'
  ∧ changed c c' (p_votingThreshold (tn_params c)) (p_setSize (tn_params c'))
  ∧ 5 ≤ p_setSize (tn_params c') ≤ 100.
Proof.
  intros Hok Hsz. unfold adjustForFastPerformance.
  pose proof (gossip_changed (scale wild (p_gossipDelay (tn_params c)) (f_lit 11 1)) c Hok) as H1.
  set (c1 := tn_set_gossip _ c) in *. rewrite (ch_size _ _ _ _ H1).
  set (n := minInt 100 _).
  assert (5 ≤ n ≤ 100) as Hn.
  { subst n. rewrite i64_small by (unfold is_i64; lia). unfold minInt.
    destruct (_ <? _) eqn:?; bool_to_prop; lia. }
  destruct (size_tick_changed n (λ c, scale wild (p_tickDelay (tn_params c)) (f_lit 11 1))
    c c1 _ _ H1 ltac:(lia)) as (c' & Hc' & Hch).
  exists c'. split; [exact Hc'|]. rewrite (ch_size _ _ _ _ Hch). by split.
Qed.

(** The factor of the fine tuning, for an average between four and six
    seconds, is within a thirty-second of one. *)
Lemma finetune_ratio actual : in_range (4 * unit_val) (6 * unit_val) actual →
  in_range (31 * 2 ^ 1069) (33 * 2 ^ 1069)
    (f_sub f_one (f_mul (f_lit 1 1)
       (f_div (f_sub actual (dur_seconds targetBlockTime)) (dur_seconds targetBlockTime)))).
Proof.
  intros [Haf Ha].
  assert (in_range (5 * unit_val) (5 * unit_val) (dur_seconds targetBlockTime)) as [Htf Ht]
    by (apply lit_range; by vm_compute).
  assert (in_range 0 (4 * 2 ^ 1069) (f_lit 1 1)) as [Hcf Hc] by (apply lit_range; by vm_compute).
  assert (in_range unit_val unit_val f_one) as [Hof Ho] by (apply lit_range; by vm_compute).
  assert (Hu : unit_val = 32 * 2 ^ 1069) by (by vm_compute).
  assert (H74 : 2 ^ 1074 = 32 * 2 ^ 1069) by (by vm_compute).
  rewrite Hu in *.
  assert (Hr : ∀ b, Z.abs b < 100 → rep (b * 2 ^ 1069)) by (intros b ?; apply rep_scaled; [lia|done]).
  destruct (f_sub_bounds actual (dur_seconds targetBlockTime) (-32 * 2 ^ 1069) (32 * 2 ^ 1069))
    as [Hsf Hs]; [done..|by apply Hr|by apply Hr|clear - Ha Ht; hide_pow 1069; lia|].
  destruct (f_div_magnitude _ (dur_seconds targetBlockTime) (8 * 2 ^ 1069) Hsf Htf)
    as [Hdf Hd]; [clear - Ht; hide_pow 1069; lia|by apply Hr|
      rewrite H74; clear - Ht Hs; hide_pow 1069; nia|].
  destruct (f_mul_bounds _ _ (-1 * 2 ^ 1069) (1 * 2 ^ 1069) Hcf Hdf) as [Hmf Hm];
    [by apply Hr|by apply Hr|rewrite H74; clear - Hc Hd; hide_pow 1069; nia|].
  apply f_sub_bounds; [done|done|by apply Hr|by apply Hr|clear - Ho Hm; hide_pow 1069; lia].
Qed.

Lemma scale_size n r : 4 ≤ n ≤ 100 → in_range (31 * 2 ^ 1069) (33 * 2 ^ 1069) r →
  3 ≤ scale wild n r ≤ 103.
Proof.
  intros Hn [Hrf Hr]. destruct (f_of_Z_fval n) as [Hnf Hnv]; [unfold exact_int; lia|].
  assert (H74 : 2 ^ 1074 = 32 * 2 ^ 1069) by (by vm_compute).
  destruct (f_mul_bounds (f_of_Z n) r (n * 31 * 2 ^ 1069) (n * 33 * 2 ^ 1069)) as [Hf Hv];
    [done|done|apply rep_scaled; [lia|done]|apply rep_scaled; [lia|done]|
      rewrite Hnv; hide_pow 1074; hide_pow 1069; nia|].
  unfold scale, to_int. rewrite f_trunc_fval by done. rewrite Z.quot_div_nonneg by lia.
  assert (3 ≤ fval (f_mul (f_of_Z n) r) / 2 ^ 1074 ≤ 103) as Hq.
  { split; [apply Z.div_le_lower_bound; nia|].
    enough (fval (f_mul (f_of_Z n) r) / 2 ^ 1074 < 104) by lia. apply Z.div_lt_upper_bound; nia. }
  destruct (decide _) as [|Hn64]; [done|]. unfold is_i64 in Hn64. lia.
Qed.

Lemma finetune_changed actual c : tn_ok c → 4 ≤ p_setSize (tn_params c) ≤ 100 →
  in_range (4 * unit_val) (6 * unit_val) actual →
  ∃ c', finetunePerformance wild actual (dur_seconds targetBlockTime) c = Some c'
  ∧ changed c c' (p_votingThreshold (tn_params c)) (p_setSize (tn_params c'))
  ∧ 3 ≤ p_setSize (tn_params c') ≤ 103.
Proof.
  intros Hok Hsz Ha. unfold finetunePerformance. set (r := f_sub f_one _).
  pose proof (gossip_changed (scale wild (p_gossipDelay (tn_params c)) r) c Hok) as H1.
  set (c1 := tn_set_gossip _ c) in *. rewrite (ch_size _ _ _ _ H1).
  pose proof (scale_size _ r Hsz (finetune_ratio actual Ha)) as Hn.
  set (n := scale wild (p_setSize (tn_params c)) r) in *.
  destruct (size_tick_changed n (λ c, scale wild (p_tickDelay (tn_params c)) r)
    c c1 _ _ H1 ltac:(lia)) as (c' & Hc' & Hch).
  exists c'. split; [exact Hc'|]. rewrite (ch_size _ _ _ _ Hch). by split.
Qed.
Lemma monitor_changed gap c o : tn_ok c → 4 ≤ p_setSize (tn_params c) ≤ 100 →
  timed gap o → 0 < gap ≤ 90000000000000 → (0 < length (blockTimes o) ≤ sampleSize)%nat →
  ∃ c', monitorPerformance wild c o = Some c'
  ∧ changed c c' (p_votingThreshold (tn_params c)) (p_setSize (tn_params c'))
  ∧ 3 ≤ p_setSize (tn_params c') ≤ 103.
Proof.
  intros Hok Hsz Htm Hg Hl. unfold monitorPerformance.
  pose proof (average_bounds gap c o Htm Hg Hl) as Ha.
  destruct (dur_seconds_bounds _ ltac:(split; [exact (proj1 Ha)|lia])) as [Hf _].
  set (actual := dur_seconds _) in *.  destruct (f_gt actual _) eqn:Hslow.
  { destruct (slow_changed c Hok Hsz) as (c' & ? & ? & ?). exists c'. split_and!; [done..|lia|lia]. }
  destruct (f_lt actual _) eqn:Hfast.
  { destruct (fast_changed c Hok Hsz) as (c' & ? & ? & ?). exists c'. split_and!; [done..|lia|lia]. }
  apply finetune_changed; [done..|]. split; [done|].
  assert (in_range (4 * unit_val) (6 * unit_val)
    (f_mul (dur_seconds targetBlockTime) (f_lit 8 1))) as [H8f H8] by (apply lit_range; by vm_compute).
  assert (in_range (4 * unit_val) (6 * unit_val)
    (f_mul (dur_seconds targetBlockTime) (f_lit 12 1))) as [H12f H12] by (apply lit_range; by vm_compute).
  apply f_lt_fval_false in Hslow; [|done..]. apply f_lt_fval_false in Hfast; [|done..]. lia.
Qed.

(** ** The invariant of the loop *)

Definition threshold_range : f64 → Prop := in_range (fval (f_lit 66 2)) (fval (f_lit 9 1)).

Record steady (gap : Z) (s : Optimizer * C) : Prop := {
  st_sane : sane s.1;
  st_timed : timed gap s.1;
  st_logger : has_logger s.1 = true;
  st_some : samples s.1 ≠ [];
  st_ok : tn_ok s.2;
  st_load : in_unit (tn_load s.2);
  st_threshold : in_unit (p_votingThreshold (tn_params s.2)) }.

(** What one turn reaches. *)
Definition tuned (c : C) : Prop := 3 ≤ p_setSize (tn_params c) ≤ 103
  ∧ (tn_test c = false → threshold_range (p_votingThreshold (tn_params c))).

Lemma times_count o : sane o → samples o ≠ [] → (0 < length (blockTimes o) ≤ sampleSize)%nat.
Proof. intros [_ ? -> _] ?. destruct (samples o); [done|]. simpl in *. lia. Qed.

Lemma new_threshold load t : pow_near_one → in_unit load → in_unit t →
  threshold_range (f_max (f_lit 66 2)
    (f_min (f_mul t (pow (f_lit 11 1) (f_sub load (f_lit 5 1)))) (f_lit 9 1))).
Proof.
  intros Hpow [Hlf Hl] [Htf Ht]. pose proof unit_pos as Hu.
  assert (Hu2 : unit_val = 2 * 2 ^ 1073) by (by vm_compute).
  assert (Hr : ∀ b, Z.abs b < 100 → rep (b * 2 ^ 1073)) by (intros b ?; apply rep_scaled; [lia|done]).
  assert (in_range (2 ^ 1073) (2 ^ 1073) (f_lit 5 1)) as [Hhf Hh] by (apply lit_range; by vm_compute).
  destruct (f_sub_bounds load (f_lit 5 1) (-1 * 2 ^ 1073) (1 * 2 ^ 1073)) as [Hxf Hx];
    [done..|by apply Hr|by apply Hr|hide_pow 1073; lia|].
  destruct (Hpow (f_lit 11 1) (f_sub load (f_lit 5 1))) as [Hpf Hp];
    [right; left|split; [done|hide_pow 1073; lia]|].
  destruct (f_mul_bounds t (pow (f_lit 11 1) (f_sub load (f_lit 5 1))) 0 (3 * 2 ^ 1073)) as [Hmf Hm];
    [done..|apply rep_0|by apply Hr|fold unit_val; hide_pow 1073; nia|].
  assert (in_range 0 (fval (f_lit 9 1)) (f_lit 66 2)) as [Hlo Hlov] by (apply lit_range; by vm_compute).
  assert (in_range 0 unit_val (f_lit 9 1)) as [Hhi Hhiv] by (apply lit_range; by vm_compute).
  set (lo := f_lit 66 2) in *. set (hi := f_lit 9 1) in *.
  destruct (f_min_fval (f_mul t (pow (f_lit 11 1) (f_sub load (f_lit 5 1)))) hi Hmf Hhi) as [Hnf Hn].
  destruct (f_max_fval lo _ Hlo Hnf) as [Hf Hv]. split; [done|]. rewrite Hv, Hn.
  fold lo hi. lia.
Qed.

Lemma steady_tick gap now f s : pow_near_one → 0 < gap ≤ 90000000000000 → benign f →
  steady gap s → lastBlockTime s.1 ≤ now < lastBlockTime s.1 + gap →
  ∃ s', tick now (s.1, f s.2) = Some s' ∧ steady gap s' ∧ tuned s'.2 ∧ lastBlockTime s'.1 = now.
Proof.
  intros Hpow Hg Hben [Hs Ht Hlog Hne Hok Hload Hth] Hnow. destruct s as [o c]. cbn [fst snd] in *.
  destruct (Hben c Hok Hload) as (Hfok & Hfp & Hfl & Hft). unfold tick. cbn [fst snd].
  pose proof (collect_sane now (f c) o Hs Hfl) as Hs'.
  pose proof (collect_timed gap now (f c) o ltac:(lia) Ht Hnow) as Ht'.
  assert (samples (CollectSample now (Some (f c)) o) ≠ []) as Hne'.
  { intros He. apply (f_equal length) in He. cbn [CollectSample samples] in He.
    rewrite push_length in He. unfold sampleSize in He. cbn [length] in He. lia. }
  assert (has_logger (CollectSample now (Some (f c)) o) = true) as Hlog' by done.
  assert (lastBlockTime (CollectSample now (Some (f c)) o) = now) as Hlast by done.
  set (o' := CollectSample now (Some (f c)) o) in *. unfold OptimizeConsensus. rewrite Hlog'.
  cbn [negb mbind option_bind].
  pose proof (PredictLoad_unit o' Hs') as Hpl.
  destruct (adapt_changed (PredictLoad o') (f c) Hfok) as (c1 & Ha & H1 & Hsz).
  rewrite Ha. cbn [mbind option_bind].
  destruct (monitor_changed gap c1 o' (ch_ok _ _ _ _ H1) Hsz Ht' Hg (times_count o' Hs' Hne'))
    as (c2 & Hm & H2 & Hsz2).
  rewrite Hm. cbn [mbind option_bind]. exists (o', c2).
  rewrite Hfp in H1.
  assert (tn_test c2 = tn_test (f c)) as Htest by (destruct H1, H2; congruence).
  assert (tn_load c2 = tn_load (f c)) as Hld by (destruct H1, H2; congruence).
  assert (p_votingThreshold (tn_params c2) = p_votingThreshold (tn_params c1)) as Hthr
    by apply (ch_threshold _ _ _ _ H2).
  assert (p_votingThreshold (tn_params c1) = p_votingThreshold (tn_params c)
    ∨ threshold_range (p_votingThreshold (tn_params c1))) as Hcase.
  { rewrite (ch_threshold _ _ _ _ H1). destruct (tn_test (f c)); [by left|].
    right. by apply new_threshold. }
  split; [done|]. split; [|split; [|done]].
  - split; cbn [fst snd]; [exact Hs'|exact Ht'|exact Hlog'|exact Hne'|apply (ch_ok _ _ _ _ H2)|
      by rewrite Hld|]. rewrite Hthr.
    destruct Hcase as [->|Hr]; [done|]. eapply in_range_weaken; [| |exact Hr]; by vm_compute.
  - split; cbn [snd]; [done|]. rewrite Htest. intros Hprod. rewrite Hthr, (ch_threshold _ _ _ _ H1), Hprod.
    by apply new_threshold.
Qed.

Lemma steady_run gap ticks : ∀ s, pow_near_one → 0 < gap ≤ 90000000000000 →
  Forall (λ t, benign t.2) ticks → steady gap s → paced gap (lastBlockTime s.1) ticks →
  ∃ s', run_ticks ticks s = Some s' ∧ steady gap s' ∧ (ticks ≠ [] → tuned s'.2).
Proof.
  induction ticks as [|[now f] ticks IH]; intros s Hpow Hg Hben Hs Hp; [by exists s|].
  apply Forall_cons in Hben as [Hb Hben]. destruct Hp as [Hn Hp]. cbn [run_ticks].
  destruct (steady_tick gap now f s Hpow Hg Hb Hs Hn) as (s1 & -> & Hs1 & Ht1 & Hl1).
  cbn [mbind option_bind]. rewrite <- Hl1 in Hp.
  destruct (IH s1 Hpow Hg Hben Hs1 Hp) as (s2 & Hr & Hs2 & Ht2). exists s2. split_and!; [done..|].
  intros _. destruct ticks; [|by apply Ht2]. cbn in Hr. by injection Hr as <-.
Qed.

(** ** Correctness *)

Lemma new_steady gap t now c : tn_ok c → in_unit (tn_load c) →
  in_unit (p_votingThreshold (tn_params c)) → t ≤ now < t + gap → gap ≤ 90000000000000 →
  steady gap (CollectSample now (Some c) (NewOptimizer t true), c).
Proof.
  intros Hok Hl Ht Hn Hg. assert (sane (NewOptimizer t true)) as Hs.
  { split; [apply Forall_nil_2|simpl; lia|done|]. apply lit_range. by vm_compute. }
  split; cbn [fst snd]; [by apply collect_sane| |done|done|done|done|done].
  apply collect_timed; [lia|apply Forall_nil_2|done].
Qed.

(** C32: [Run] never panics and keeps every bound: with loads between zero and
    one and ticks less than 25 hours apart, the loop gets through every tick,
    its predictions stay between zero and one, and after the first tick the
    set size is between 3 and 103 and, outside the test mode, the voting
    threshold between 0.66 and 0.9.  (The size limits of the code are 4 and
    100; the fine tuning, which does not clamp, oversteps both.) *)
Theorem optimizer_in_bounds gap t now ticks c :
  pow_near_one → gap ≤ 90000000000000 → t ≤ now < t + gap → paced gap now ticks →
  Forall (λ t, benign t.2) ticks →
  tn_ok c → in_unit (tn_load c) → in_unit (p_votingThreshold (tn_params c)) →
  ∃ o' c', Run now ticks (NewOptimizer t true) c = Some (o', c')
    ∧ (length (samples o') ≤ sampleSize)%nat ∧ in_unit (PredictLoad o')
    ∧ (ticks ≠ [] → tuned c').
Proof.
  intros Hpow Hg Hn Hp Hb Hok Hl Ht.
  pose proof (new_steady gap t now c Hok Hl Ht Hn Hg) as Hs.
  destruct (steady_run gap ticks _ Hpow ltac:(lia) Hb Hs Hp) as ([o' c'] & Hr & Hs' & Htn).
  exists o', c'. split_and!; [exact Hr|apply sn_count, (st_sane _ _ Hs')| |exact Htn].
  apply PredictLoad_unit, (st_sane _ _ Hs').
Qed.

(** [Run] with the measurement left out: after the adaptation the fast
    adjustment, always. *)
Definition blind_tick (now : Z) (s : Optimizer * C) : option (Optimizer * C) :=
  let o := CollectSample now (Some s.2) s.1 in
  c ← adaptParameters pow wild (PredictLoad o) s.2;
  c ← adjustForFastPerformance wild c;
  Some (o, c).
Fixpoint blind_ticks (ticks : list (Z * (C → C))) (s : Optimizer * C) : option (Optimizer * C) :=
  match ticks with
  | [] => Some s
  | (now, f) :: ticks => s ← blind_tick now (s.1, f s.2); blind_ticks ticks s
  end.

Lemma monitor_is_blind c o : timed (3 * second) o →
  (0 < length (blockTimes o) ≤ sampleSize)%nat →
  monitorPerformance wild c o = adjustForFastPerformance wild c.
Proof.
  intros Ht Hl. unfold monitorPerformance.
  pose proof (average_bounds (3 * second) c o Ht ltac:(unfold second; lia) Hl) as Ha.
  unfold second in Ha. destruct (dur_seconds_bounds _ ltac:(split; [exact (proj1 Ha)|lia])) as [Hf Hv].
  set (actual := dur_seconds _) in *. fold unit_val in Hv. pose proof unit_pos as Hu.
  assert (Z.quot (averageBlockTime (collectPerformanceMetrics (Some c) o)) 1000000000 < 3) as Hq.
  { rewrite Z.quot_div_nonneg by lia. apply Z.div_lt_upper_bound; lia. }
  assert (in_range (4 * unit_val) (6 * unit_val)
    (f_mul (dur_seconds targetBlockTime) (f_lit 8 1))) as [H8f H8] by (apply lit_range; by vm_compute).
  assert (in_range (4 * unit_val) (6 * unit_val)
    (f_mul (dur_seconds targetBlockTime) (f_lit 12 1))) as [H12f H12] by (apply lit_range; by vm_compute).
  assert (f_gt actual (f_mul (dur_seconds targetBlockTime) (f_lit 12 1)) = false) as ->.
  { apply f_lt_fval_false; [done..|]. nia. }
  assert (f_lt actual (f_mul (dur_seconds targetBlockTime) (f_lit 8 1)) = true) as ->; [|done].
  apply f_lt_fval; [done..|]. nia.
Qed.

Lemma collect_times gap now c o : 0 < gap < 9223372036854775807 → timed gap o →
  (length (blockTimes o) ≤ sampleSize)%nat →
  lastBlockTime o ≤ now < lastBlockTime o + gap →
  timed gap (CollectSample now (Some c) o)
  ∧ (0 < length (blockTimes (CollectSample now (Some c) o)) ≤ sampleSize)%nat.
Proof.
  intros Hg Ht Hl Hn. split; [by apply collect_timed|]. cbn [CollectSample blockTimes].
  rewrite push_length. unfold sampleSize in *. lia.
Qed.

Lemma blind_run ticks : ∀ s, has_logger s.1 = true → timed (3 * second) s.1 →
  (length (blockTimes s.1) ≤ sampleSize)%nat → paced (3 * second) (lastBlockTime s.1) ticks →
  run_ticks ticks s = blind_ticks ticks s.
Proof.
  induction ticks as [|[now f] ticks IH]; intros [o c] Hlog Ht Hl Hp; [done|].
  destruct Hp as [Hn Hp]. cbn [run_ticks blind_ticks]. cbn [fst snd] in *.
  destruct (collect_times (3 * second) now (f c) o ltac:(unfold second; lia) Ht Hl Hn) as [Ht' Hl'].
  assert (tick now (o, f c) = blind_tick now (o, f c)) as ->.
  { unfold tick, blind_tick, OptimizeConsensus. cbn [fst snd].
    assert (has_logger (CollectSample now (Some (f c)) o) = true) as -> by done.
    cbn [negb mbind option_bind]. destruct (adaptParameters _ _ _ _) as [c'|]; [|done].
    cbn [mbind option_bind]. by rewrite monitor_is_blind. }
  unfold blind_tick. cbn [fst snd]. destruct (adaptParameters _ _ _ _) as [c1|]; [|done].
  cbn [mbind option_bind]. destruct (adjustForFastPerformance _ _) as [c2|]; [|done].
  cbn [mbind option_bind]. apply IH; cbn [fst]; [done|done|lia|done].
Qed.

(** the feedback loop is open: as long as the ticks come less than three
    seconds apart (the ticker fires every second) the slow branch and the
    fine tuning are never taken, whatever the node does between the ticks and
    whatever [Pow] returns: [Run] is the loop that adapts and then always
    adjusts for fast blocks.  The "block times" are the optimizer's own
    sampling intervals. *)
Theorem run_is_blind t now ticks c : t ≤ now < t + 3 * second → paced (3 * second) now ticks →
  Run now ticks (NewOptimizer t true) c
    = blind_ticks ticks (CollectSample now (Some c) (NewOptimizer t true), c).
Proof.
  intros Hn Hp.
  destruct (collect_times (3 * second) now c (NewOptimizer t true)) as [Ht Hl];
    [unfold second; lia|apply Forall_nil_2|simpl; lia|exact Hn|].
  apply blind_run; cbn [fst]; [done|done|lia|exact Hp].
Qed.

(** Resetting gives the defaults whatever happened before; the epoch
    duration too, which nothing else here touches. *)
Lemma reset_spec now c o : tn_ok c → ∃ c',
  ResetOptimization now (Some c) o = Some (NewOptimizer now (has_logger o), Some c')
  ∧ tn_ok c' ∧ tn_params c' = mkParams 100000000 (f_lit 66 2) 21 100 50000000.
Proof.
  intros Hok. unfold ResetOptimization.
  destruct (tl_gossip 100000000 c Hok) as (H1 & Hp1 & _). set (c1 := tn_set_gossip _ c) in *.
  destruct (tl_threshold (f_lit 66 2) c1 H1) as (H2 & Hp2 & _). set (c2 := tn_set_threshold _ c1) in *.
  destruct (tl_size 21 c2 H2 ltac:(lia)) as (c3 & -> & H3 & Hp3 & _). cbn [mbind option_bind].
  destruct (tl_epoch 100 c3 H3 ltac:(lia)) as (H4 & Hp4 & _). set (c4 := tn_set_epoch 100 c3) in *.
  destruct (tl_tick 50000000 c4 H4) as (H5 & Hp5 & _).
  eexists. split; [done|]. split; [exact H5|]. by rewrite Hp5, Hp4, Hp3, Hp2, Hp1.
Qed.
End loop.

(** * The node *)

Definition node_params (n : HybridConsensus) : Params :=
  mkParams (GetGossipDelay (hy_lachesis (hc_core n))) (GetVotingThreshold (hy_lachesis (hc_core n)))
    (maxSetSize (hy_dpos (hc_core n))) (epochDuration (hy_dpos (hc_core n)))
    (GetTickDelay (hc_poh n)).

#[export] Instance node_tunable : Tunable HybridConsensus := {
  tn_load n := GetNetworkLoad (hy_lachesis (hc_core n));
  tn_test := IsTestMode;
  tn_params := node_params;
  tn_set_gossip v n := with_core (ca_set_gossip_delay v (hc_core n)) n;
  tn_set_threshold v n := with_core (ca_set_voting_threshold v (hc_core n)) n;
  tn_set_size v n := h ← ca_set_set_size v (hc_core n); Some (with_core h n);
  tn_set_epoch v n := with_core (ca_set_epoch_duration v (hc_core n)) n;
  tn_set_tick v n := with_poh (SetTickDelay v (hc_poh n)).1 n }.

#[export] Instance node_tunable_laws : TunableLaws HybridConsensus.
Proof.
  refine {| tn_ok := λ n, hybrid_ok (hc_core n) |}.
  - intros v n [? ?]. split; [by split|done].
  - intros v n [? ?]. split; [by split|done].
  - intros v n [[[Hv Ht _] _ _ _ _ _] Ho] Hpos. cbn [tn_set_size node_tunable].
    assert (wf_base (with_maxSetSize v (hy_dpos (hc_core n)))) as Hb by (split; [done|done|cbn; lia]).
    destruct (updateActive_spec (hy_order (hc_core n) (validators (hy_dpos (hc_core n)))) _ Hb (Ho _))
      as (d' & Hd' & Hwf & _ & _ & Hep & _ & Hmx & _).
    cbn [ca_set_set_size hybrid_adapter]. unfold SetSetSize. rewrite Hd'.
    eexists. split; [done|]. split; [by split|]. split; [|done].
    unfold tn_params, node_tunable, node_params, set_size. cbn. by rewrite Hep, Hmx.
  - intros v n [? ?] Hv. split; [split; [by apply SetEpochDuration_wf|done]|]. unfold tn_same. cbn. unfold SetEpochDuration.
    by rewrite (proj2 (Z.eqb_neq _ _) Hv).
  - intros v n Hok. split; [done|]. split; [|done]. cbn. unfold SetTickDelay, node_params.
    destruct (v <=? 0) eqn:Hv, (0 <? v) eqn:Hv'; bool_to_prop; try lia; done.
Defined.

(** ** A concrete node *)

(** [math.Pow] at the exponents 0 and -0.5, the only ones an idle node
    needs. *)
Definition pow_idle (b x : f64) : f64 :=
  if f_lt x f_zero then
    if f_lt b (f_lit 12 1) then f_lit 9534625892455924 16
    else if f_lt b (f_of_Z 2) then f_lit 9128709291752769 16
    else f_lit 7071067811865476 16
  else f_one.
Definition int_min (_ : f64) : Z := -9223372036854775808.

Definition idle_node : HybridConsensus :=
  NewHybridConsensusWithConfig 0 (λ m, (map_to_list m).*1) int_min DefaultHybridConfig.
Definition each_second (k : nat) : list (Z * (HybridConsensus → HybridConsensus)) :=
  (λ i, (Z.of_nat i * second, id)) <$> seq 1 k.

Lemma pow_idle_near_one : pow_near_one pow_idle.
Proof.
  intros b x _ _. unfold pow_idle.
  repeat case_match; apply lit_range; by vm_compute.
Qed.

Lemma each_second_paced n k : paced (2 * second) (Z.of_nat n * second)
  ((λ i, (Z.of_nat i * second, id : HybridConsensus → HybridConsensus)) <$> seq (S n) k).
Proof.
  revert n. induction k as [|k IH]; intros n; [done|]. cbn [seq fmap list_fmap paced].
  split; [unfold second; lia|apply IH].
Qed.


Lemma idle_node_ok : tn_ok idle_node.
Proof. split; [by apply wf_NewDPoS|intros m; apply iter_order_default]. Qed.

Lemma id_benign : benign (id : HybridConsensus → HybridConsensus).
Proof. by intros c. Qed.
Lemma id_all_benign k : Forall (λ t, benign t.2) (each_second k).
Proof. apply Forall_fmap, Forall_true. intros i. apply id_benign. Qed.

(** An idle node, the default configuration: after a hundred seconds the
    gossip delay, one second at first, has reached zero, which
    [time.NewTicker] refuses with a panic, and the tick delay of PoH has grown
    to almost three minutes. *)
Example idle_delays :
  (λ s : Optimizer * HybridConsensus, (node_params s.2,
      currentDelay (lc_gossip (hy_lachesis (hc_core s.2)))))
    <$> Run pow_idle int_min 0 (each_second 100) (NewOptimizer 0 true) idle_node
  = Some (mkParams 0 (f_lit 66 2) 11 1000 171871946061, 0).
Proof. vm_compute. reflexivity. Qed.

Lemma optimizer_in_bounds_witness : ∃ o' c',
  Run pow_idle int_min 0 (each_second 3) (NewOptimizer 0 true) idle_node = Some (o', c')
  ∧ (length (samples o') ≤ sampleSize)%nat ∧ in_unit (PredictLoad o')
  ∧ (each_second 3 ≠ [] → tuned c').
Proof.
  apply (optimizer_in_bounds pow_idle int_min (2 * second) 0 0 (each_second 3) idle_node).
  - exact pow_idle_near_one.
  - vm_compute. discriminate.
  - unfold second. lia.
  - apply (each_second_paced 0 3).
  - apply id_all_benign.
  - exact idle_node_ok.
  - apply lit_range. vm_compute. reflexivity.
  - apply lit_range. vm_compute. reflexivity.
Defined.

Lemma run_is_blind_witness : paced (3 * second) 0 (each_second 3) ∧
  Run pow_idle int_min 0 (each_second 3) (NewOptimizer 0 true) idle_node
  = blind_ticks pow_idle int_min (each_second 3)
      (CollectSample 0 (Some idle_node) (NewOptimizer 0 true), idle_node).
Proof.
  assert (paced (3 * second) 0 (each_second 3)) as Hp by (cbn; unfold second; lia).
  split; [exact Hp|].
  apply (run_is_blind pow_idle int_min 0 0); [unfold second; lia|exact Hp].
Defined.
