(* ===== verification/OptStats.v ===== *)
(** * Statistics and the lock of the optimizer: src/consensus/aiopt/optimizer.go

    GetOptimizationStats and the lines the optimizer logs, and its
    [sync.RWMutex] with the calls that take it.  The mutex is as the standard
    library documents it: a writer that has announced itself keeps later
    readers out until the readers inside have left and it has been in and
    out again. *)
From Stdlib Require Import ZArith Lia SpecFloat.
From stdpp Require Import numbers prelude.
From S2P Require Import Prelude GoFloat Optimizer.
Open Scope Z_scope.

(** ** Statistics *)

Record OptimizationStats := mkOptStats {
  current_load : f64;
  predicted_load : f64;
  sample_count : Z;
  average_block_time : Z;
  stats_tps : f64;
  network_load : f64;
  (** Nothing without a consensus. *)
  parameters : option Params }.

Definition GetOptimizationStats `{Tunable C} (c : option C) (o : Optimizer) : OptimizationStats :=
  let metrics := collectPerformanceMetrics c o in
  mkOptStats
    (match samples o with [] => f_lit 5 1 | _ => List.last (samples o) f_zero end)
    (PredictLoad o) (Z.of_nat (length (samples o)))
    (averageBlockTime metrics) (tps metrics) (networkLoad metrics) (tn_params <$> c).

(** What [logPerformanceMetrics] logs, if there is a logger. *)
Record PerformanceLine := mkLine {
  target_block_time : f64; actual_block_time : f64; line_tps : f64; line_network_load : f64;
  line_parameters : option Params }.
Definition logPerformanceMetrics `{Tunable C} (metrics : PerformanceMetrics)
    (targetTime actualTime : f64) (c : option C) (o : Optimizer) : option PerformanceLine :=
  if has_logger o
  then Some (mkLine targetTime actualTime (tps metrics) (networkLoad metrics) (tn_params <$> c))
  else None.

(** ** The lock *)

(** Locking for writing has two steps: announcing, and getting in. *)
Inductive lock_op := RLock | RUnlock | Announce | Enter | Unlock.
#[export] Instance lock_op_dec : EqDecision lock_op.
Proof. solve_decision. Defined.

Record RWMutex := mkRW {
  readers : nat;
  (** The writer that has announced itself, and whether it is in. *)
  writer : option (nat * bool) }.

Inductive rw_op (i : nat) : lock_op → RWMutex → RWMutex → Prop :=
| rw_rlock n : rw_op i RLock (mkRW n None) (mkRW (S n) None)
| rw_runlock n w : rw_op i RUnlock (mkRW (S n) w) (mkRW n w)
| rw_announce n : rw_op i Announce (mkRW n None) (mkRW n (Some (i, false)))
| rw_enter : rw_op i Enter (mkRW 0 (Some (i, false))) (mkRW 0 (Some (i, true)))
| rw_unlock n : rw_op i Unlock (mkRW n (Some (i, true))) (mkRW n None).

(** Threads with the operations they still have before them. *)
Definition lock_state : Type := RWMutex * list (list lock_op).
Inductive lock_step : lock_state → lock_state → Prop :=
| ls_op i op rest m m' ts :
    ts !! i = Some (op :: rest) → rw_op i op m m' → lock_step (m, ts) (m', <[i := rest]> ts).
Definition lock_start (ts : list (list lock_op)) : lock_state := (mkRW 0 None, ts).
Definition lock_done (s : lock_state) : Prop := Forall (λ p, p = []) s.2.
Definition lock_stuck (s : lock_state) : Prop := ¬ lock_done s ∧ ∀ s', ¬ lock_step s s'.

(** The methods. *)
Definition CollectSample_locks : list lock_op := [Announce; Enter; Unlock].
Definition ResetOptimization_locks : list lock_op := [Announce; Enter; Unlock].
Definition PredictLoad_locks : list lock_op := [RLock; RUnlock].
Definition collectPerformanceMetrics_locks : list lock_op := [RLock; RUnlock].
(** Both calls are made with the lock held. *)
Definition GetOptimizationStats_locks : list lock_op :=
  [RLock] ++ collectPerformanceMetrics_locks ++ PredictLoad_locks ++ [RUnlock].
(** A turn of [Run]: the sample, the prediction, the monitoring. *)
Definition Run_locks : list lock_op :=
  CollectSample_locks ++ PredictLoad_locks ++ collectPerformanceMetrics_locks.

(** A thread that never locks while it holds the lock. *)
Fixpoint flat (p : list lock_op) : bool :=
  match p with
  | [] => true
  | RLock :: RUnlock :: p' => flat p'
  | Announce :: Enter :: Unlock :: p' => flat p'
  | _ => false
  end.
(** What is left of one, at any time. *)
Definition flat_rest (p : list lock_op) : bool :=
  flat p ||
  match p with
  | RUnlock :: p' => flat p'
  | Enter :: Unlock :: p' => flat p'
  | Unlock :: p' => flat p'
  | _ => false
  end.
Definition reading (p : list lock_op) : nat := match p with RUnlock :: _ => 1 | _ => 0 end.
Definition writing (p : list lock_op) : option bool :=
  match p with Enter :: _ => Some false | Unlock :: _ => Some true | _ => None end.

(** The mutex agrees with the threads. *)
Definition lock_inv (s : lock_state) : Prop :=
  Forall (λ p, flat_rest p = true) s.2 ∧ readers s.1 = sum_list_with reading s.2 ∧
  ∀ i b, writer s.1 = Some (i, b) ↔ ∃ p, s.2 !! i = Some p ∧ writing p = Some b.

Lemma sum_insert {A} (f : A → nat) (l : list A) : ∀ i x y, l !! i = Some x →
  (sum_list_with f (<[i := y]> l) + f x = sum_list_with f l + f y)%nat.
Proof.
  induction l as [|a l IH]; intros [|i] x y Hx; simpl in *; try done; [simplify_eq; lia|].
  pose proof (IH i x y Hx). lia.
Qed.

Lemma flat_rest_step op p : flat_rest (op :: p) = true → flat_rest p = true ∧
  match op with
  | RLock => reading p = 1%nat ∧ writing p = None
  | Announce => reading p = 0%nat ∧ writing p = Some false
  | Enter => reading p = 0%nat ∧ writing p = Some true
  | RUnlock | Unlock => reading p = 0%nat ∧ writing p = None
  end.
Proof.
  assert (∀ p, flat p = true → flat_rest p = true ∧ reading p = 0%nat ∧ writing p = None) as Hflat.
  { intros q Hq. split; [unfold flat_rest; by rewrite Hq|]. destruct q as [|[] q]; done. }
  unfold flat_rest at 1. destruct op; cbn; intros Hp.
  - destruct p as [|[] p]; try done. rewrite orb_false_r in Hp. unfold flat_rest. cbn. by rewrite Hp.
  - by apply Hflat.
  - destruct p as [|[] [|[] p]]; cbn in Hp |- *; try discriminate Hp.
    rewrite orb_false_r in Hp. unfold flat_rest. cbn. by rewrite Hp.
  - by destruct p as [|[] p].
  - by apply Hflat.
Qed.

Lemma lock_inv_step s s' : lock_inv s → lock_step s s' → lock_inv s'.
Proof.
  intros (Hf & Hr & Hw) Hs. destruct Hs as [i op rest m m' ts Hi Hop]. cbn [fst snd] in *.
  rewrite Forall_lookup in Hf. pose proof (Hf _ _ Hi) as Hop'.
  apply flat_rest_step in Hop' as [Hrest Hnow].
  pose proof (sum_insert reading ts i _ rest Hi) as Hsum. split_and!; cbn [fst snd].
  - apply Forall_lookup. intros j p [(-> & -> & _)|[_ Hj]]%list_lookup_insert_Some; [done|by eauto].
  - rewrite <- Hr in Hsum. destruct Hop; cbn in *; destruct Hnow as [Hn _]; rewrite Hn in Hsum; lia.
  - assert (∀ j b, (∃ p, <[i:=rest]> ts !! j = Some p ∧ writing p = Some b) ↔
      (j = i ∧ writing rest = Some b) ∨ (j ≠ i ∧ writer m = Some (j, b))) as Hts.
    { intros j b. destruct (decide (j = i)) as [->|Hne].
      - rewrite list_lookup_insert_eq by by eapply lookup_lt_Some. naive_solver.
      - rewrite list_lookup_insert_ne by done. rewrite Hw. naive_solver. }
    intros j b. rewrite Hts. pose proof (Hw i) as Hwi. rewrite Hi in Hwi.
    destruct Hop; cbn in *; destruct Hnow as [_ ->]; try naive_solver.
Qed.

Lemma lock_start_inv ts : Forall (λ p, flat p = true) ts → lock_inv (lock_start ts).
Proof.
  intros Hts. unfold lock_inv, lock_start. cbn.
  assert (Forall (λ p, flat_rest p = true ∧ reading p = 0%nat ∧ writing p = None) ts) as Hall.
  { eapply Forall_impl; [exact Hts|]. intros p Hp. cbn. unfold flat_rest. rewrite Hp.
    by destruct p as [|[] p]. }
  split_and!.
  - eapply Forall_impl; [exact Hall|]. by intros p [].
  - clear Hts. induction Hall as [|p ts (_ & Hr & _) _ IH]; [done|]. cbn. by rewrite Hr.
  - intros i b. split; [done|]. intros (p & Hi & Hp).
    rewrite Forall_lookup in Hall. apply Hall in Hi as (_ & _ & Hn). congruence.
Qed.

Lemma reading_thread (ts : list (list lock_op)) : sum_list_with reading ts ≠ 0%nat →
  ∃ i rest, ts !! i = Some (RUnlock :: rest).
Proof.
  induction ts as [|p ts IH]; [done|]. simpl. destruct (reading p) eqn:Hp.
  - intros Hs. destruct (IH Hs) as (i & rest & Hi). by exists (S i), rest.
  - intros _. exists 0%nat. destruct p as [|[] p]; try done. by exists p.
Qed.

(** A state that agrees with its threads is not stuck. *)
Lemma lock_progress s : lock_inv s → lock_done s ∨ ∃ s', lock_step s s'.
Proof.
  destruct s as [[n w] ts]. intros (Hf & Hr & Hw). cbn [fst snd readers writer] in *.
  destruct (decide (Forall (λ p, p = []) ts)) as [Hd|Hd]; [by left|]. right.
  assert (∀ i op rest m', ts !! i = Some (op :: rest) → rw_op i op (mkRW n w) m' →
    ∃ s', lock_step (mkRW n w, ts) s') as Hstep by (intros; eexists; by econstructor).
  destruct (decide (n = 0%nat)) as [->|Hn].
  2:{ destruct (reading_thread ts) as (i & rest & Hi); [congruence|]. destruct n as [|n]; [done|].
      eapply Hstep; [done|constructor]. }
  destruct w as [[i b]|].
  - destruct (Hw i b) as [(p & Hi & Hp) _]; [done|].
    destruct p as [|[] p]; try done; injection Hp as <-; (eapply Hstep; [done|constructor]).
  - apply not_Forall_Exists in Hd; [|intros p; apply _].
    apply Exists_exists in Hd as (p & [i Hi]%list_elem_of_lookup & Hp).
    destruct p as [|op p]; [by destruct Hp|]. destruct op; try (eapply Hstep; [done|constructor]).
    + exfalso. assert (sum_list_with reading ts ≠ 0%nat); [|congruence]. clear -Hi.
      revert i Hi. induction ts as [|q ts IH]; intros [|i] Hi; try done; simpl in *; [by simplify_eq|].
      specialize (IH _ Hi). lia.
    + by assert (@None (nat * bool) = Some (i, false)) by (apply Hw; by eexists).
    + by assert (@None (nat * bool) = Some (i, true)) by (apply Hw; by eexists).
Qed.

(** What is left to do. *)
Definition lock_work (s : lock_state) : nat := sum_list_with length s.2.

Lemma lock_step_work s s' : lock_step s s' → lock_work s = S (lock_work s').
Proof.
  destruct 1 as [i op rest m m' ts Hi _]. unfold lock_work. cbn [snd].
  pose proof (sum_insert length ts i _ rest Hi) as Hs. cbn in Hs. lia.
Qed.

(** The writer announces itself between the two read locks. *)
Lemma stats_stuck rest : ∃ s,
  rtc lock_step (lock_start [GetOptimizationStats_locks; CollectSample_locks ++ rest]) s ∧ lock_stuck s.
Proof.
  eexists. split.
  - eapply rtc_l; [by eapply (ls_op 0); [reflexivity|constructor]|].
    eapply rtc_l; [by eapply (ls_op 1); [reflexivity|constructor]|]. apply rtc_refl.
  - split; [by intros Hd; inversion Hd|]. intros s' Hs. inversion Hs as [i op p m m' ts Hi Hop]; subst.
    destruct i as [|[|i]]; cbn in Hi; simplify_eq; inversion Hop.
Qed.

(** C34: Calls of the optimizer that take its lock one at a time -- all but
    GetOptimizationStats -- never block each other for good, however many
    there are and however they interleave: while any of them is unfinished
    some can proceed, and after as many steps as there are operations all
    have returned.  GetOptimizationStats locks again what it has locked:
    beside one turn of Run, or one sample, there is an interleaving in which
    neither it nor the sample ever returns. *)
Theorem optimizer_lock :
  (∀ ts s k, Forall (λ p, flat p = true) ts → nsteps lock_step k (lock_start ts) s →
     (k + lock_work s = sum_list_with length ts)%nat ∧ (lock_done s ∨ ∃ s', lock_step s s')) ∧
  Forall (λ p, flat p = true)
    [Run_locks; CollectSample_locks; ResetOptimization_locks; PredictLoad_locks;
     collectPerformanceMetrics_locks] ∧
  (∃ s, rtc lock_step (lock_start [GetOptimizationStats_locks; Run_locks]) s ∧ lock_stuck s) ∧
  ∃ s, rtc lock_step (lock_start [GetOptimizationStats_locks; CollectSample_locks]) s ∧ lock_stuck s.
Proof.
  split_and!.
  - intros ts s k Hts Hk. apply lock_start_inv in Hts. remember (lock_start ts) as s0 eqn:Hs0.
    assert (k + lock_work s = lock_work s0)%nat as Hwork.
    { clear -Hk. induction Hk as [s|k s s1 s2 Hs Hk IH]; [done|]. apply lock_step_work in Hs. lia. }
    split; [by subst|]. apply lock_progress. clear -Hk Hts.
    induction Hk as [s|k s s1 s2 Hs Hk IH]; [done|]. by eapply IH, lock_inv_step.
  - by repeat constructor.
  - apply stats_stuck.
  - apply stats_stuck.
Qed.

(** Two samples, a prediction and a turn of Run, at the first step. *)
Definition four_calls : list (list lock_op) :=
  [CollectSample_locks; PredictLoad_locks; CollectSample_locks; Run_locks].
Lemma one_announced : nsteps lock_step 1 (lock_start four_calls)
  (mkRW 0 (Some (2%nat, false)), <[2%nat := [Enter; Unlock]]> four_calls).
Proof. eapply nsteps_l; [by eapply (ls_op 2); [reflexivity|constructor]|apply nsteps_O]. Qed.

Lemma optimizer_lock_witness :
  let s := (mkRW 0 (Some (2%nat, false)), <[2%nat := [Enter; Unlock]]> four_calls) in
  (1 + lock_work s = 15)%nat ∧ (lock_done s ∨ ∃ s', lock_step s s').
Proof. apply (proj1 optimizer_lock four_calls _ 1%nat); [by repeat constructor|apply one_announced]. Defined.
