(* ===== verification/AutoRecovery.v ===== *)
(** * Automatic recovery: src/consensus/recovery/recovery_manager.go

    The manager counts the attempts per component, picks a strategy by
    severity and remembers how the last attempt went.  The callbacks are
    functions on a world they share with the rest; they run while the
    manager's lock is held, so they cannot touch the manager.  Errors are a
    type of their own; waiting, logging and cancellation are left out. *)
From Stdlib Require Import ZArith Lia.
From stdpp Require Import numbers prelude gmap strings.
From S2P Require Import Prelude.
Open Scope Z_scope.

Inductive RecoveryState := Idle | Recovering | RecoveryFailed | Succeeded.
#[export] Instance recovery_state_eq_dec : EqDecision RecoveryState.
Proof. solve_decision. Defined.

Definition state_String (s : RecoveryState) : string :=
  match s with
  | Idle => "Idle" | Recovering => "Recovering" | RecoveryFailed => "Failed"
  | Succeeded => "Succeeded"
  end.

(** [Unnamed]: any other integer. *)
Inductive ErrorSeverity := Minor | Moderate | Severe | Critical | Unnamed.

Definition severity_String (s : ErrorSeverity) : string :=
  match s with
  | Minor => "Minor" | Moderate => "Moderate" | Severe => "Severe" | Critical => "Critical"
  | Unnamed => "Unknown"
  end.

Inductive RecoveryStrategy := StateRollback | StateResync | Restart_ | Manual.
#[export] Instance strategy_eq_dec : EqDecision RecoveryStrategy.
Proof. solve_decision. Defined.

Definition strategy_String (s : RecoveryStrategy) : string :=
  match s with
  | StateRollback => "StateRollback" | StateResync => "StateResync" | Restart_ => "Restart"
  | Manual => "Manual"
  end.

Section recovery.
Context {E W : Type}.

Record RecoveryError := mkRecoveryError {
  re_Err : E;
  re_Severity : ErrorSeverity;
  re_Strategy : RecoveryStrategy;
  re_Component : string;
  re_Timestamp : Z }.

Record RecoveryManager := mkRecovery {
  maxRetries : Z;
  retryDelay : Z;
  checkpointEnabled : bool;
  autoRecovery : bool;
  state : RecoveryState;
  lastError : option RecoveryError;
  recoveryCount : gmap string Z;
  lastRecovery : option Z;
  onRecoveryStart : option (string → E → W → W * option E);
  onRecoveryComplete : option (string → bool → W → W * option E) }.

Inductive RecoveryOption :=
| WithMaxRetries (max : Z)
| WithRetryDelay (delay : Z)
| WithCheckpointEnabled (enabled : bool)
| WithAutoRecovery (enabled : bool)
| WithOnRecoveryStart (callback : string → E → W → W * option E)
| WithOnRecoveryComplete (callback : string → bool → W → W * option E).

Definition with_config (max delay : Z) (ck auto : bool)
    (start : option (string → E → W → W * option E))
    (complete : option (string → bool → W → W * option E)) (rm : RecoveryManager) :
    RecoveryManager :=
  mkRecovery max delay ck auto (state rm) (lastError rm) (recoveryCount rm) (lastRecovery rm)
    start complete.

Definition apply_recovery_option (rm : RecoveryManager) (o : RecoveryOption) : RecoveryManager :=
  let '(m, d, k, a) := (maxRetries rm, retryDelay rm, checkpointEnabled rm, autoRecovery rm) in
  let '(s, c) := (onRecoveryStart rm, onRecoveryComplete rm) in
  match o with
  | WithMaxRetries max => if 0 <? max then with_config max d k a s c rm else rm
  | WithRetryDelay delay => if 0 <? delay then with_config m delay k a s c rm else rm
  | WithCheckpointEnabled b => with_config m d b a s c rm
  | WithAutoRecovery b => with_config m d k b s c rm
  | WithOnRecoveryStart f => with_config m d k a (Some f) c rm
  | WithOnRecoveryComplete f => with_config m d k a s (Some f) rm
  end.

Definition NewRecoveryManager (options : list RecoveryOption) : RecoveryManager :=
  foldl apply_recovery_option
    (mkRecovery 3 (5 * 1000000000) true true Idle None ∅ None None None) options.

Definition GetState (rm : RecoveryManager) : RecoveryState := state rm.
Definition GetLastError (rm : RecoveryManager) : option RecoveryError := lastError rm.
Definition IsRecovering (rm : RecoveryManager) : bool := bool_decide (state rm = Recovering).
Definition attempts (component : string) (rm : RecoveryManager) : Z :=
  default 0 (recoveryCount rm !! component).

Definition with_state (s : RecoveryState) (rm : RecoveryManager) : RecoveryManager :=
  mkRecovery (maxRetries rm) (retryDelay rm) (checkpointEnabled rm) (autoRecovery rm) s
    (lastError rm) (recoveryCount rm) (lastRecovery rm) (onRecoveryStart rm) (onRecoveryComplete rm).
Definition with_counts (m : gmap string Z) (rm : RecoveryManager) : RecoveryManager :=
  mkRecovery (maxRetries rm) (retryDelay rm) (checkpointEnabled rm) (autoRecovery rm) (state rm)
    (lastError rm) m (lastRecovery rm) (onRecoveryStart rm) (onRecoveryComplete rm).
Definition begin_attempt (e : RecoveryError) (component : string) (now : Z)
    (rm : RecoveryManager) : RecoveryManager :=
  mkRecovery (maxRetries rm) (retryDelay rm) (checkpointEnabled rm) (autoRecovery rm) Recovering
    (Some e) (<[component := i64 (attempts component rm + 1)]> (recoveryCount rm)) (Some now)
    (onRecoveryStart rm) (onRecoveryComplete rm).

Definition strategy_for (severity : ErrorSeverity) : RecoveryStrategy :=
  match severity with
  | Minor => StateRollback
  | Moderate => StateResync
  | Severe => Restart_
  | Critical => Manual
  | Unnamed => StateRollback
  end.

Inductive RecoverError :=
| ErrExceeded (component : string) (cause : E)
| ErrAutoDisabled (cause : E)
| ErrStartCallback (cause : E)
| ErrManualIntervention.

(** The strategies are placeholders: they wait and succeed. *)
Definition performStateRollback (component : string) : option RecoverError := None.
Definition performStateResync (component : string) : option RecoverError := None.
Definition performRestart (component : string) : option RecoverError := None.

Definition perform_strategy (s : RecoveryStrategy) (component : string) : option RecoverError :=
  match s with
  | StateRollback => performStateRollback component
  | StateResync => performStateResync component
  | Restart_ => performRestart component
  | Manual => Some ErrManualIntervention
  end.

(** The callbacks; an unset one does nothing, the error of the second is
    dropped. *)
Definition call_start (rm : RecoveryManager) (component : string) (err : E) (w : W) :
    W * option E :=
  match onRecoveryStart rm with None => (w, None) | Some f => f component err w end.
Definition call_complete (rm : RecoveryManager) (component : string) (success : bool) (w : W) : W :=
  match onRecoveryComplete rm with None => w | Some f => (f component success w).1 end.

(** [now1], [now2]: the two readings of the clock; [err = None] is nil. *)
Definition RecoverFromError (now1 now2 : Z) (component : string) (err : option E)
    (severity : ErrorSeverity) (rm : RecoveryManager) (w : W) :
    RecoveryManager * W * result RecoverError () :=
  match err with
  | None => (rm, w, Ok ())
  | Some err =>
      let strategy := strategy_for severity in
      let rm := begin_attempt (mkRecoveryError err severity strategy component now1) component now2
                  rm in
      if maxRetries rm <? attempts component rm then
        (with_state RecoveryFailed rm, w, Err (ErrExceeded component err))
      else if negb (autoRecovery rm) then (rm, w, Err (ErrAutoDisabled err))
      else
        match call_start rm component err w with
        | (w, Some e) => (rm, w, Err (ErrStartCallback e))
        | (w, None) =>
            match perform_strategy strategy component with
            | Some e =>
                (with_state RecoveryFailed rm, call_complete rm component false w, Err e)
            | None => (with_state Succeeded rm, call_complete rm component true w, Ok ())
            end
        end
  end.

Definition ResetRecoveryCount (component : string) (rm : RecoveryManager) : RecoveryManager :=
  with_counts (<[component := 0]> (recoveryCount rm)) rm.

(** ** Runs *)

Inductive rm_call :=
| CRecover (now1 now2 : Z) (component : string) (err : option E) (severity : ErrorSeverity)
| CReset (component : string).

Definition run_call (c : rm_call) (s : RecoveryManager * W) :
    RecoveryManager * W * option (result RecoverError ()) :=
  let '(rm, w) := s in
  match c with
  | CRecover t1 t2 comp err sev =>
      let '(rm, w, r) := RecoverFromError t1 t2 comp err sev rm w in (rm, w, Some r)
  | CReset comp => (ResetRecoveryCount comp rm, w, None)
  end.
Definition run_calls (cs : list rm_call) (s : RecoveryManager * W) : RecoveryManager * W :=
  foldl (λ s c, (run_call c s).1) s cs.

(** Reported errors of [component] since its last reset. *)
Fixpoint since_reset (component : string) (acc : Z) (cs : list rm_call) : Z :=
  match cs with
  | [] => acc
  | CRecover _ _ comp (Some _) _ :: cs =>
      since_reset component (if bool_decide (comp = component) then acc + 1 else acc) cs
  | CRecover _ _ _ None _ :: cs => since_reset component acc cs
  | CReset comp :: cs =>
      since_reset component (if bool_decide (comp = component) then 0 else acc) cs
  end.

(** * Facts *)

Lemma recover_counts t1 t2 comp e sev rm w :
  let rm' := (RecoverFromError t1 t2 comp (Some e) sev rm w).1.1 in
  recoveryCount rm' = <[comp := i64 (attempts comp rm + 1)]> (recoveryCount rm)
  ∧ maxRetries rm' = maxRetries rm.
Proof. unfold RecoverFromError. by repeat case_match. Qed.

Lemma run_call_counts c s component :
  attempts component (run_call c s).1.1 =
    match c with
    | CRecover _ _ comp (Some _) _ =>
        if bool_decide (comp = component) then i64 (attempts component s.1 + 1)
        else attempts component s.1
    | CRecover _ _ _ None _ => attempts component s.1
    | CReset comp => if bool_decide (comp = component) then 0 else attempts component s.1
    end
  ∧ maxRetries (run_call c s).1.1 = maxRetries s.1.
Proof.
  destruct s as [rm w], c as [t1 t2 comp [e|] sev|comp]; cbn [run_call fst].
  - pose proof (recover_counts t1 t2 comp e sev rm w) as [Hc Hm].
    destruct (RecoverFromError _ _ _ _ _ _ _) as [[rm' w'] r]. cbn [fst] in *.
    split; [|done]. unfold attempts at 1. rewrite Hc. case_bool_decide as Heq.
    + subst. by rewrite lookup_insert_eq.
    + by rewrite lookup_insert_ne.
  - done.
  - split; [|done]. unfold attempts at 1. simpl. case_bool_decide as Heq.
    + subst. by rewrite lookup_insert_eq.
    + by rewrite lookup_insert_ne.
Qed.

Lemma since_reset_bounds component cs acc : 0 ≤ acc →
  0 ≤ since_reset component acc cs ≤ acc + Z.of_nat (length cs).
Proof.
  revert acc. induction cs as [|c cs IH]; intros acc Hacc; [simpl; lia|].
  destruct c as [? ? comp [?|] ?|comp]; cbn [since_reset length]; try case_bool_decide;
    match goal with |- context [since_reset _ ?a _] => specialize (IH a) end; lia.
Qed.

Lemma run_counts cs s component : 0 ≤ attempts component s.1 →
  attempts component s.1 + Z.of_nat (length cs) < 9223372036854775808 →
  attempts component (run_calls cs s).1 = since_reset component (attempts component s.1) cs
  ∧ maxRetries (run_calls cs s).1 = maxRetries s.1.
Proof.
  unfold run_calls. revert s. induction cs as [|c cs IH]; intros s Hpos Hlen; [done|].
  cbn [foldl length] in *. pose proof (run_call_counts c s component) as [Hc Hm].
  assert (attempts component (run_call c s).1.1
    = since_reset component (attempts component s.1) [c]) as Hone.
  { rewrite Hc. destruct c as [? ? comp [?|] ?|comp]; cbn [since_reset]; try done.
    case_bool_decide; [|done]. apply i64_small. unfold is_i64. lia. }
  pose proof (since_reset_bounds component [c] _ Hpos) as Hb. simpl length in Hb.
  destruct (IH (run_call c s).1) as [-> ->]; [lia|lia|].
  rewrite Hone, Hm. split; [|done]. by destruct c as [? ? comp [?|] ?|comp].
Qed.

Lemma new_counts options :
  recoveryCount (NewRecoveryManager options) = ∅ ∧ state (NewRecoveryManager options) = Idle.
Proof.
  unfold NewRecoveryManager.
  assert (Hg : ∀ rm, recoveryCount (foldl apply_recovery_option rm options) = recoveryCount rm
    ∧ state (foldl apply_recovery_option rm options) = state rm).
  { induction options as [|o options IH]; intros rm; [done|]. cbn [foldl].
    destruct (IH (apply_recovery_option rm o)) as [-> ->].
    destruct o; cbn; try case_match; done. }
  by destruct (Hg (mkRecovery 3 (5 * 1000000000) true true Idle None ∅ None None None)).
Qed.

(** The state an answer leaves behind. *)
Definition mirror (r : result RecoverError ()) : RecoveryState :=
  match r with
  | Ok _ => Succeeded
  | Err (ErrExceeded _ _) | Err ErrManualIntervention => RecoveryFailed
  | Err (ErrAutoDisabled _) | Err (ErrStartCallback _) => Recovering
  end.

(** The answer to the last error reported, if any was. *)
Fixpoint last_answer (last : option (result RecoverError ())) (cs : list rm_call)
    (s : RecoveryManager * W) : option (result RecoverError ()) :=
  match cs with
  | [] => last
  | c :: cs =>
      let '(s', r) := run_call c s in
      last_answer (match c with CRecover _ _ _ (Some _) _ => r | _ => last end) cs s'
  end.

Lemma run_call_state c s : state (run_call c s).1.1 =
  match c with
  | CRecover _ _ _ (Some _) _ => from_option mirror Idle (run_call c s).2
  | _ => state s.1
  end.
Proof.
  destruct s as [rm w], c as [t1 t2 comp [e|] sev|comp]; [|done..].
  unfold run_call, RecoverFromError. destruct (_ <? _); [done|]. destruct (negb _); [done|].
  destruct (call_start _ _ _ _) as [w' [e'|]]; [done|]. by destruct sev.
Qed.

(** the attempts of a component are rationed, and a success gives none
    back: after any calls, an error of it is refused as "exceeded" exactly
    when more than [maxRetries] of its errors have come since its last reset,
    this one included and whatever became of them.  (Fewer than 2^63
    calls.) *)
Theorem retry_budget options (cs : list rm_call) t1 t2 component e severity (w : W) :
  Z.of_nat (length cs) < 9223372036854775807 →
  let '(rm, w') := run_calls cs (NewRecoveryManager options, w) in
  (RecoverFromError t1 t2 component (Some e) severity rm w').2 = Err (ErrExceeded component e)
  ↔ maxRetries (NewRecoveryManager options) < since_reset component 0 cs + 1.
Proof.
  intros Hlen. destruct (new_counts options) as [Hnew _].
  assert (attempts component (NewRecoveryManager options) = 0) as Hz
    by (unfold attempts; by rewrite Hnew).
  pose proof (run_counts cs (NewRecoveryManager options, w) component) as Hr. cbn [fst] in Hr.
  rewrite Hz in Hr. destruct Hr as [Hc Hm]; [lia..|].
  pose proof (since_reset_bounds component cs 0 ltac:(lia)) as Hb.
  destruct (run_calls _ _) as [rm w']. cbn [fst] in Hc, Hm.
  unfold RecoverFromError. rewrite <- Hm.
  assert (Hat : ∀ re, attempts component (begin_attempt re component t2 rm)
    = since_reset component 0 cs + 1).
  { intros re. unfold attempts. cbn [begin_attempt recoveryCount]. rewrite lookup_insert_eq.
    cbn [default]. rewrite Hc. apply i64_small. unfold is_i64. lia. }
  rewrite Hat. change (maxRetries (begin_attempt _ _ _ rm)) with (maxRetries rm).
  destruct (_ <? _) eqn:Hlt; bool_to_prop; [done|]. split; [|lia].
  destruct (negb _); [done|]. destruct (call_start _ _ _ _) as [? [?|]]; [done|].
  destruct severity; done.
Qed.

(** between calls the manager's state only mirrors its last answer:
    [IsRecovering] holds exactly when the last error reported was turned away
    because automatic recovery is off or the start callback refused, and it
    then holds until another error is reported; no reset clears it. *)
Theorem state_mirrors_last_answer options (cs : list rm_call) (w : W) :
  let s := (NewRecoveryManager options, w) in
  let last := last_answer None cs s in
  state (run_calls cs s).1 = from_option mirror Idle last
  ∧ (IsRecovering (run_calls cs s).1 = true
     ↔ ∃ e, last = Some (Err (ErrAutoDisabled e)) ∨ last = Some (Err (ErrStartCallback e))).
Proof.
  assert (Hgen : ∀ s last, state s.1 = from_option mirror Idle last →
    state (run_calls cs s).1 = from_option mirror Idle (last_answer last cs s)).
  { unfold run_calls. induction cs as [|c cs IH]; intros s last Hs; [done|].
    cbn [foldl last_answer]. pose proof (run_call_state c s) as Hst.
    destruct (run_call c s) as [s' r]. cbn [fst snd] in *. apply IH. rewrite Hst.
    by destruct c as [? ? comp [?|] ?|comp]. }
  cbv zeta. pose proof (Hgen (NewRecoveryManager options, w) None (proj2 (new_counts options))) as Hst.
  split; [done|]. unfold IsRecovering. rewrite bool_decide_eq_true, Hst.
  destruct (last_answer _ _ _) as [[?|[]]|]; simpl; naive_solver.
Qed.
End recovery.

(** * Concrete calls *)

Definition flaky_start : string → string → nat → nat * option string :=
  λ _ e w, (S w, if decide (e = "refused") then Some e else None).
Definition toy_options : list (RecoveryOption (E := string) (W := nat)) :=
  [WithMaxRetries 2; WithMaxRetries 0; WithOnRecoveryStart flaky_start].
Definition toy_calls : list (rm_call (E := string)) :=
  [CRecover 1 1 "poh" (Some "drift") Minor; CRecover 2 2 "dpos" (Some "refused") Severe;
   CRecover 3 3 "poh" (Some "drift") Moderate; CRecover 4 4 "poh" None Minor].

(** The third error of "poh" is refused although both attempts succeeded. *)
Lemma retry_budget_witness :
  let '(rm, w') := run_calls toy_calls (NewRecoveryManager toy_options, 0%nat) in
  (RecoverFromError 5 5 "poh" (Some "drift") Minor rm w').2 = Err (ErrExceeded "poh" "drift")
  ↔ maxRetries (NewRecoveryManager toy_options) < since_reset "poh" 0 toy_calls + 1.
Proof. apply (retry_budget toy_options toy_calls 5 5 "poh" "drift" Minor 0%nat). simpl. lia. Defined.

Example refused_after_success :
  let s := run_calls toy_calls (NewRecoveryManager toy_options, 0%nat) in
  since_reset "poh" 0 toy_calls = 2
  ∧ (RecoverFromError 5 5 "poh" (Some "drift") Minor s.1 s.2).2 = Err (ErrExceeded "poh" "drift").
Proof. by vm_compute. Qed.
