(* ===== verification/Adapter.v ===== *)
(** * Recovery adapter: src/consensus/recovery/hybrid_consensus_recovery.go

    The adapter joins a recovery manager, a checkpoint manager and a
    consensus.  It registers four components with the checkpoint manager:
    the handlers below, an instance of the interface of Checkpoints.v whose
    world is the node of Node.v.  A panic is [None]; JSON is a parameter and
    logging is left out. *)
From Stdlib Require Import ZArith Lia.
From Stdlib Require Import Strings.Byte Strings.String.
From stdpp Require Import numbers prelude gmap strings sorting pretty.
From S2P Require Import Prelude GoFloat Bytes Maps Common PoH DPoS Dag DPoSState Voting Finalizer.
From S2P Require Import Gossip Lachesis Governance ValMgr Errors Recovery Batch Flow Node NodeProps NodeChain.
From S2P Require Import Checkpoints AutoRecovery.
Open Scope Z_scope.

(** The components [registerComponents] registers. *)
Inductive handler := HLachesis | HDPoS | HPoH | HConsensus.
#[export] Instance handler_eq_dec : EqDecision handler.
Proof. solve_decision. Defined.

Section adapter.
Variable codec_l : Lachesis.codecs.
Variable codec_d : (dpos_state → list byte) * (list byte → option dpos_state).
Variable codec_p : (bytes32 * Z → list byte) * (list byte → option (bytes32 * Z)).
Variable marshal_main : Z → bytes32 → Z → list byte.
Variable enc_meta : CheckpointMetadata → list byte.
Variable dec_meta : list byte → option CheckpointMetadata.

(** What one call observes: the disk, the clock, map iterations. *)
Record adapter_env := mkAdEnv {
  ad_disk : disk_env;
  ad_created : Z;
  ad_stamp : Z;
  ad_restore : recover_env;
  ad_names : gmap string handler → list string;
  ad_order : gmap Z Checkpoints.Checkpoint → list Z }.

Definition component_name (h : handler) : string :=
  match h with
  | HLachesis => "lachesis" | HDPoS => "dpos" | HPoH => "poh" | HConsensus => "consensus"
  end.

Definition component_state (env : adapter_env) (h : handler) (n : HybridConsensus) :
    option (list byte) :=
  Some (match h with
        | HLachesis => Lachesis.GetState codec_l (hy_lachesis (hc_core n))
        | HDPoS => DPoSState.GetState codec_d.1 (hy_dpos (hc_core n))
        | HPoH => codec_p.1 (PoH.GetState (hc_poh n), GetCount (hc_poh n))
        | HConsensus =>
            marshal_main (lastBlockHeight (hc_chain n)) (lastBlockHash (hc_chain n)) (ad_stamp env)
        end).

(** The node's own state is not restored: the code's restore of the main
    component is a placeholder. *)
Definition restore_component (env : adapter_env) (h : handler) (st : list byte)
    (n : HybridConsensus) : HybridConsensus * bool :=
  match h with
  | HLachesis =>
      let '(n, r) := restore_lachesis codec_l (ad_restore env) st n in (n, is_Ok r)
  | HDPoS => let '(n, r) := restore_dpos codec_d (ad_restore env) st n in (n, is_Ok r)
  | HPoH =>
      match codec_p.2 st with
      | None => (n, false)
      | Some (s, c) => let '(n, r) := synchronize (re_now1 (ad_restore env)) s c n in (n, is_Ok r)
      end
  | HConsensus => (n, true)
  end.

Definition node_handlers (env : adapter_env) : ComponentCheckpointHandler handler HybridConsensus := {|
  GetComponentName := component_name;
  GetCheckpointState := component_state env;
  RestoreState_ := restore_component env |}.

Definition registerComponents (env : adapter_env) (cm : CheckpointManager (H := handler)) :
    CheckpointManager (H := handler) :=
  foldl (λ cm h, @RegisterComponent _ _ (node_handlers env) h cm) cm
    [HLachesis; HDPoS; HPoH; HConsensus].

Section errors.
Context {E W : Type}.

Record HybridConsensusRecoveryAdapter := mkAdapter {
  recoveryManager : RecoveryManager (E := E) (W := W);
  checkpointManager : CheckpointManager (H := handler) }.

Inductive AdapterError :=
| ErrConsensusNil
| ErrCheckpointManager
| ErrNoCheckpointAt (height : Z)
| ErrLatest (cause : CheckpointError)
| ErrCreate (cause : CheckpointError)
| ErrFinalize (cause : CheckpointError)
| ErrRestore (cause : CheckpointError).

Definition with_manager (cm : CheckpointManager (H := handler))
    (a : HybridConsensusRecoveryAdapter) : HybridConsensusRecoveryAdapter :=
  mkAdapter (recoveryManager a) cm.

(** The callbacks of the default recovery manager only log. *)
Definition default_recovery : RecoveryManager (E := E) (W := W) :=
  NewRecoveryManager [WithOnRecoveryStart (λ _ _ w, (w, None));
                      WithOnRecoveryComplete (λ _ _ w, (w, None))].

(** [root_ok], [disk], [entries], [d]: what a default checkpoint manager
    finds. *)
Definition NewHybridConsensusRecoveryAdapter (consensus : option HybridConsensus)
    (rm : option (RecoveryManager (E := E) (W := W)))
    (cm : option (CheckpointManager (H := handler)))
    (env : adapter_env) (root_ok : bool) (entries : option (list string))
    (d : gmap string (gmap string (list byte))) :
    result AdapterError HybridConsensusRecoveryAdapter :=
  match consensus with
  | None => Err ErrConsensusNil
  | Some _ =>
      let rm := default default_recovery rm in
      let cm := match cm with
                | Some cm => Some cm
                | None => NewCheckpointManager dec_meta [] root_ok (ad_disk env) entries d
                end in
      match cm with
      | None => Err ErrCheckpointManager
      | Some cm => Ok (mkAdapter rm (registerComponents env cm))
      end
  end.

Definition RecoverFromError (now1 now2 : Z) (component : string) (err : option E)
    (severity : ErrorSeverity) (a : HybridConsensusRecoveryAdapter) (w : W) :
    HybridConsensusRecoveryAdapter * W * result (RecoverError (E := E)) () :=
  let '(rm, w, r) := AutoRecovery.RecoverFromError now1 now2 component err severity
                       (recoveryManager a) w in
  (mkAdapter rm (checkpointManager a), w, r).

(** ** Checkpoints *)

Definition CreateCheckpoint (env : adapter_env) (height : Z) (blockHash prevHash : string)
    (a : HybridConsensusRecoveryAdapter) (d : gmap string (gmap string (list byte)))
    (n : HybridConsensus) :
    HybridConsensusRecoveryAdapter * gmap string (gmap string (list byte))
      * result AdapterError () :=
  let cm := checkpointManager a in
  if negb (ShouldCreateCheckpoint height cm) then (a, d, Ok ())
  else
    match Checkpoints.CreateCheckpoint (ad_disk env) (ad_created env) height blockHash prevHash
            cm d with
    | (cm, d, Err e) => (with_manager cm a, d, Err (ErrCreate e))
    | (cm, d, Ok _) =>
        match @FinalizeCheckpoint _ _ (node_handlers env) enc_meta (ad_disk env) n
                (ad_names env (components cm)) (ad_order env) cm d with
        | (cm, d, Err e) => (with_manager cm a, d, Err (ErrFinalize e))
        | (cm, d, Ok _) => (with_manager cm a, d, Ok ())
        end
    end.

Definition RestoreFromCheckpoint (env : adapter_env) (height : Z)
    (a : HybridConsensusRecoveryAdapter) (d : gmap string (gmap string (list byte)))
    (n : HybridConsensus) : HybridConsensus * result AdapterError () :=
  let cm := checkpointManager a in
  if negb (HasCheckpoint height cm) then (n, Err (ErrNoCheckpointAt height))
  else
    match @Checkpoints.RestoreFromCheckpoint _ _ (node_handlers env) (ad_disk env)
            (ad_names env (components cm)) height cm d n with
    | (n, Err e) => (n, Err (ErrRestore e))
    | (n, Ok _) => (n, Ok ())
    end.

(** A latest checkpoint that is nil is dereferenced. *)
Definition RestoreFromLatestCheckpoint (env : adapter_env)
    (a : HybridConsensusRecoveryAdapter) (d : gmap string (gmap string (list byte)))
    (n : HybridConsensus) : option (HybridConsensus * result AdapterError ()) :=
  let cm := checkpointManager a in
  match GetLatestCheckpoint cm with
  | Err e => Some (n, Err (ErrLatest e))
  | Ok None => None
  | Ok (Some c) =>
      Some (match @Checkpoints.RestoreFromCheckpoint _ _ (node_handlers env) (ad_disk env)
                    (ad_names env (components cm)) (md_Height (cp_Metadata c)) cm d n with
            | (n, Err e) => (n, Err (ErrRestore e))
            | (n, Ok _) => (n, Ok ())
            end)
  end.

Definition VerifyCheckpoint (env : adapter_env) (height : Z) (a : HybridConsensusRecoveryAdapter)
    (d : gmap string (gmap string (list byte))) :
    HybridConsensusRecoveryAdapter * result CheckpointError bool :=
  let '(cm, r) := Checkpoints.VerifyCheckpoint (ad_disk env) height (checkpointManager a) d in
  (with_manager cm a, r).
Definition DeleteCheckpoint (env : adapter_env) (height : Z) (a : HybridConsensusRecoveryAdapter)
    (d : gmap string (gmap string (list byte))) :
    HybridConsensusRecoveryAdapter * gmap string (gmap string (list byte))
      * result CheckpointError () :=
  let '(cm, d, r) := Checkpoints.DeleteCheckpoint (ad_disk env) (ad_order env) height
                       (checkpointManager a) d in
  (with_manager cm a, d, r).
Definition SetCheckpointInterval (interval : Z) (a : HybridConsensusRecoveryAdapter) :
    HybridConsensusRecoveryAdapter :=
  with_manager (Checkpoints.SetCheckpointInterval interval (checkpointManager a)) a.
Definition SetMaxCheckpoints (env : adapter_env) (max : Z) (a : HybridConsensusRecoveryAdapter)
    (d : gmap string (gmap string (list byte))) :
    HybridConsensusRecoveryAdapter * gmap string (gmap string (list byte)) :=
  let '(cm, d) := Checkpoints.SetMaxCheckpoints (ad_disk env) (ad_order env) max
                    (checkpointManager a) d in
  (with_manager cm a, d).

(** ** Health check *)

Record Health := mkHealth {
  hl_status : string;
  hl_warnings : list string;
  hl_blockHeight : Z;
  hl_finalizedHeight : Z;
  hl_pohCount : Z;
  hl_lastBlockHash : string;
  hl_lastCheckpoint : Z;
  hl_checkpointCount : Z;
  hl_recoveryState : string;
  hl_activeValidators : Z;
  hl_lastError : option (RecoveryError (E := E)) }.

Definition poh_behind (n : HybridConsensus) : bool :=
  (0 <? lastBlockHeight (hc_chain n)) && (GetCount (hc_poh n) <? lastBlockHeight (hc_chain n)).
(** The subtraction is on uint64s. *)
Definition checkpoint_old (cm : CheckpointManager (H := handler)) (n : HybridConsensus) : bool :=
  let blockHeight := lastBlockHeight (hc_chain n) in
  let interval := GetCheckpointInterval cm in
  (interval <? blockHeight)
  && (GetLastCheckpointHeight cm <? usub blockHeight (umul 2 interval)).

Definition poh_warning (n : HybridConsensus) : string :=
  "PoH count (" +:+ pretty (GetCount (hc_poh n)) +:+ ") behind block height ("
    +:+ pretty (lastBlockHeight (hc_chain n)) +:+ ")".
Definition old_warning (cm : CheckpointManager (H := handler)) (n : HybridConsensus) : string :=
  "Latest checkpoint (" +:+ pretty (GetLastCheckpointHeight cm) +:+ ") too old for current height ("
    +:+ pretty (lastBlockHeight (hc_chain n)) +:+ ")".

Definition PerformHealthCheck (a : HybridConsensusRecoveryAdapter) (n : HybridConsensus) : Health :=
  let cm := checkpointManager a in
  let rm := recoveryManager a in
  let status := "OK"%string in
  let '(status, warnings) :=
    if poh_behind n then ("WARNING"%string, [poh_warning n]) else (status, []) in
  let '(status, warnings) :=
    if checkpoint_old cm n then
      if bool_decide (status = "OK"%string) then ("WARNING"%string, [old_warning cm n])
      else (status, warnings ++ [old_warning cm n])
    else (status, warnings) in
  let '(status, err) :=
    if IsRecovering rm then ("RECOVERING"%string, GetLastError rm) else (status, None) in
  mkHealth status warnings (lastBlockHeight (hc_chain n)) (hy_height (hc_core n))
    (GetCount (hc_poh n)) (byteArrayToString (lastBlockHash (hc_chain n)))
    (GetLastCheckpointHeight cm) (GetCheckpointCount cm) (state_String (state rm))
    (Z.of_nat (length (ValMgr.GetActiveValidators (hc_vm n)))) err.

(** ** Runs *)

Inductive ad_op :=
| ACreate (env : adapter_env) (height : Z) (blockHash prevHash : string) (n : HybridConsensus)
| AVerify (env : adapter_env) (height : Z)
| ADelete (env : adapter_env) (height : Z)
| ASetInterval (interval : Z)
| ASetMax (env : adapter_env) (max : Z)
| ARecover (now1 now2 : Z) (component : string) (err : option E) (severity : ErrorSeverity) (w : W).

(** Restoring, the queries and the health check leave the adapter as it
    is. *)
Definition ad_perform (o : ad_op)
    (s : HybridConsensusRecoveryAdapter * gmap string (gmap string (list byte))) :
    HybridConsensusRecoveryAdapter * gmap string (gmap string (list byte)) :=
  let '(a, d) := s in
  match o with
  | ACreate env height bh ph n => (CreateCheckpoint env height bh ph a d n).1
  | AVerify env height => ((VerifyCheckpoint env height a d).1, d)
  | ADelete env height => (DeleteCheckpoint env height a d).1
  | ASetInterval interval => (SetCheckpointInterval interval a, d)
  | ASetMax env max => SetMaxCheckpoints env max a d
  | ARecover t1 t2 component err severity w =>
      ((RecoverFromError t1 t2 component err severity a w).1.1, d)
  end.

(** * Facts *)

(** ** A checkpoint that stays pending *)

(** The pending checkpoint stays and no height is added. *)
Definition frozen (cm cm' : CheckpointManager (H := handler)) : Prop :=
  pendingCheckpoint cm' = pendingCheckpoint cm
  ∧ ∀ h, is_Some (checkpoints cm' !! h) → is_Some (checkpoints cm !! h).

#[local] Instance frozen_preorder : PreOrder frozen.
Proof. split; [by split|]. intros x y z [? ?] [? ?]. split; [by etrans|auto]. Qed.

Lemma frozen_sub cm m last : m ⊆ checkpoints cm → frozen cm (with_checkpoints m last cm).
Proof. intros Hm. split; [done|]. intros h [c Hc]. exists c. by eapply lookup_weaken. Qed.

Lemma frozen_status height s cm : frozen cm (set_status height s cm).
Proof.
  split; [done|]. intros h. cbn [set_status with_checkpoints checkpoints].
  by rewrite lookup_alter_is_Some.
Qed.

Lemma frozen_cleanup env order cm d : frozen cm (cleanupOldCheckpoints env order cm d).1.
Proof.
  pose proof (cleanup_fold env order cm d) as Hf.
  pose proof (clean_sub env (cleaned order cm) (checkpoints cm) d) as Hs.
  destruct (foldl _ _ _) as [m d']. rewrite Hf. by apply frozen_sub.
Qed.

(** With a checkpoint pending, a creation does nothing and reports
    success. *)
Lemma create_stuck env height bh ph a d n : has_pending (checkpointManager a) = true →
  CreateCheckpoint env height bh ph a d n = (a, d, Ok ()).
Proof.
  intros Hp. unfold CreateCheckpoint, ShouldCreateCheckpoint. rewrite Hp.
  destruct (negb (_ =? 0)); [done|]. by destruct (HasCheckpoint _ _).
Qed.

Lemma ad_perform_frozen o s : has_pending (checkpointManager s.1) = true →
  frozen (checkpointManager s.1) (checkpointManager (ad_perform o s).1).
Proof.
  destruct s as [a d]. cbn [fst]. intros Hp.
  destruct o as [env h bh ph n|env h|env h|i|env mx|t1 t2 c err sev w]; cbn [ad_perform].
  - by rewrite create_stuck.
  - unfold VerifyCheckpoint, Checkpoints.VerifyCheckpoint.
    repeat case_match; simplify_eq/=; try done; apply frozen_status.
  - unfold DeleteCheckpoint, Checkpoints.DeleteCheckpoint. destruct (checkpoints _ !! h); [|done].
    destruct (remove_all _ _ _) as [d' []]; [|done]. apply frozen_sub, delete_subseteq.
  - unfold SetCheckpointInterval, Checkpoints.SetCheckpointInterval. by destruct (i =? 0).
  - unfold SetMaxCheckpoints, Checkpoints.SetMaxCheckpoints. destruct (mx <=? 0); [done|].
    match goal with |- context [cleanupOldCheckpoints ?e ?o ?cm d] =>
      pose proof (frozen_cleanup e o cm d) as Hf; destruct (cleanupOldCheckpoints e o cm d) end.
    exact Hf.
  - unfold RecoverFromError. by destruct (AutoRecovery.RecoverFromError _ _ _ _ _ _ _) as [[? ?] ?].
Qed.

Lemma ad_run_frozen os s : has_pending (checkpointManager s.1) = true →
  frozen (checkpointManager s.1) (checkpointManager (foldl (λ s o, ad_perform o s) s os).1).
Proof.
  revert s. induction os as [|o os IH]; intros s Hp; [done|]. cbn [foldl].
  pose proof (ad_perform_frozen o s Hp) as Ho. etrans; [exact Ho|]. apply IH.
  unfold has_pending in *. by rewrite (proj1 Ho).
Qed.

(** one metadata file that cannot be written ends checkpointing for good.
    When a creation fails while finalizing, then after any operations of the
    adapter, on any disk and at any node, every further creation does
    nothing and reports success, and no checkpoint has been added. *)
Theorem failed_write_ends_checkpoints env height bh ph a d n e a1 d1 os :
  CreateCheckpoint env height bh ph a d n = (a1, d1, Err (ErrFinalize e)) →
  let '(a2, d2) := foldl (λ s o, ad_perform o s) (a1, d1) os in
  (∀ env' height' bh' ph' n', CreateCheckpoint env' height' bh' ph' a2 d2 n' = (a2, d2, Ok ()))
  ∧ ∀ h, is_Some (checkpoints (checkpointManager a2) !! h) →
         is_Some (checkpoints (checkpointManager a) !! h).
Proof.
  unfold CreateCheckpoint at 1. destruct (negb _); [done|].
  unfold Checkpoints.CreateCheckpoint. destruct (height =? 0); [done|].
  destruct (HasCheckpoint _ _); [done|]. destruct (has_pending _); [done|].
  destruct (mkdir _ _ _) as [d' []]; [|done].
  match goal with |- context [with_pending (Some ?c) ?cm] =>
    set (c0 := c); set (cm0 := with_pending (Some c0) cm) end.
  destruct (@finalize_cases _ _ (node_handlers env) enc_meta (ad_disk env) n
    (ad_names env (components cm0)) (ad_order env) cm0 d' c0 eq_refl)
    as (c & d2 & _ & _ & _ & _ & _ & [->|[-> _]]).
  2:{ cbv zeta. by destruct (cleanupOldCheckpoints _ _ _ _). }
  intros [= <- <- _].
  pose proof (ad_run_frozen os (with_manager (with_pending (Some c) cm0) a, d2) eq_refl) as Hf.
  destruct (foldl _ _ os) as [a2 d3]. cbn [fst] in Hf. destruct Hf as [Hp Hs]. split.
  - intros. apply create_stuck. unfold has_pending. by rewrite Hp.
  - intros h Hh. by apply Hs in Hh.
Qed.

(** ** What a restore reaches *)

(** Only DPoS, Lachesis and the PoH chain may differ, and the PoH count has
    not gone back. *)
Record within (n n' : HybridConsensus) : Prop := {
  wi_chain : hc_chain n' = hc_chain n;
  wi_height : hy_height (hc_core n') = hy_height (hc_core n);
  wi_vm : hc_vm n' = hc_vm n;
  wi_flow : hc_flow n' = hc_flow n;
  wi_batch : hc_batch n' = hc_batch n;
  wi_recovery : hc_recovery n' = hc_recovery n;
  wi_poh : GetSnapshot (hc_poh n') = GetSnapshot (hc_poh n)
           ∨ GetCount (hc_poh n) ≤ GetCount (hc_poh n') }.

#[local] Instance within_preorder : PreOrder within.
Proof.
  split; [split; auto|]. intros x y z [] []. split; try (by etrans).
  unfold GetSnapshot, GetCount in *. destruct wi_poh0 as [Ha|Ha], wi_poh1 as [Hb|Hb];
    simplify_eq/=; [left|right..]; try congruence; lia.
Qed.

Lemma restore_component_within env h st n : within n (restore_component env h st n).1.
Proof.
  destruct h; unfold restore_component.
  - unfold restore_lachesis. destruct (Lachesis.RestoreState _ _ _ _). split; auto.
  - unfold restore_dpos. destruct (DPoSState.RestoreState _ _ _ _). split; auto.
  - destruct (codec_p.2 st) as [[s c]|]; [|done]. unfold synchronize, PoH.Synchronize.
    destruct (c <? count (hc_poh n)) eqn:Hc; [split; auto|]. bool_to_prop.
    split; [done..|]. by right.
  - done.
Qed.

Lemma restore_all_within env names d path cs n :
  within n (foldl (@restore_one _ _ (node_handlers env) (ad_disk env) d path cs) n names).
Proof.
  revert n. induction names as [|name names IH]; intros n; [done|]. cbn [foldl].
  etrans; [|apply IH]. unfold restore_one. destruct (cs !! name) as [h|]; [|done].
  destruct (read_file _ _ _ _); [|done]. apply restore_component_within.
Qed.

(** restoring from a checkpoint succeeds exactly when a complete or
    verified one is listed at the height, whether or not any component could
    be restored; and whatever the files hold it never touches the block
    height and hash, the node's own checkpoints, the finalized height, the
    validator manager or the event flow, and never turns the PoH count
    back. *)
Theorem restore_is_partial env height a d n :
  let '(n', r) := RestoreFromCheckpoint env height a d n in
  (r = Ok () ↔ ∃ c, checkpoints (checkpointManager a) !! height = Some c
     ∧ (cp_Status c = CheckpointComplete ∨ cp_Status c = CheckpointVerified))
  ∧ within n n'.
Proof.
  unfold RestoreFromCheckpoint, HasCheckpoint, Checkpoints.RestoreFromCheckpoint.
  destruct (checkpoints (checkpointManager a) !! height) as [c|] eqn:Hc; cbn [negb bool_decide].
  2:{ split; [|done]. split; [done|]. by intros (? & ? & _). }
  destruct (negb _ && negb _) eqn:Hst; cbn.
  - split; [|done]. bool_to_prop. split; [done|]. intros (c' & [= <-] & [?|?]); done.
  - split; [|apply restore_all_within]. split; [|done]. intros _. exists c. split; [done|].
    apply andb_false_iff in Hst as [Hs|Hs]; bool_to_prop; auto.
Qed.

(** ** The health check *)

(** the warnings of the health check, within uint64 and with the last
    checkpoint not above the block height: "PoH behind" when the count is
    below the height, and "too old" not only when the checkpoint is more than
    two intervals behind but at every height strictly between one and two
    intervals, however fresh the checkpoint is, because the difference wraps
    around.  The status is OK exactly when there is no warning and no
    recovery. *)
Theorem health_check_correct a n :
  let bh := lastBlockHeight (hc_chain n) in
  let i := GetCheckpointInterval (checkpointManager a) in
  let last := GetLastCheckpointHeight (checkpointManager a) in
  is_u64 bh → 0 < i → is_u64 (2 * i) → 0 ≤ last ≤ bh →
  let h := PerformHealthCheck a n in
  hl_warnings h
  = (if poh_behind n then [poh_warning n] else [])
    ++ (if bool_decide (i < bh ∧ (bh < 2 * i ∨ last < bh - 2 * i))
        then [old_warning (checkpointManager a) n] else [])
  ∧ (hl_status h = "OK"%string
     ↔ hl_warnings h = [] ∧ IsRecovering (recoveryManager a) = false).
Proof.
  cbv zeta. intros Hbh Hi H2i Hlast.
  assert (checkpoint_old (checkpointManager a) n = bool_decide
    (GetCheckpointInterval (checkpointManager a) < lastBlockHeight (hc_chain n)
     ∧ (lastBlockHeight (hc_chain n) < 2 * GetCheckpointInterval (checkpointManager a)
        ∨ GetLastCheckpointHeight (checkpointManager a)
          < lastBlockHeight (hc_chain n) - 2 * GetCheckpointInterval (checkpointManager a)))) as <-.
  { unfold checkpoint_old. revert Hbh Hi H2i Hlast.
    generalize (lastBlockHeight (hc_chain n)), (GetCheckpointInterval (checkpointManager a)),
      (GetLastCheckpointHeight (checkpointManager a)).
    intros bh i last Hbh Hi H2i Hlast. apply eq_bool_prop_intro.
    rewrite andb_True, !Is_true_true, Z.ltb_lt, Z.ltb_lt, bool_decide_eq_true.
    unfold umul, usub. rewrite (u64_small (2 * i)) by done. unfold is_u64, u64 in *.
    destruct (decide (bh < 2 * i)) as [Hlt|Hge].
    - replace ((bh - 2 * i) mod 18446744073709551616)
        with (bh - 2 * i + 18446744073709551616); [lia|].
      apply Zmod_unique with (-1); lia.
    - rewrite Z.mod_small by lia. lia. }
  unfold PerformHealthCheck.
  destruct (poh_behind n), (checkpoint_old (checkpointManager a) n),
    (IsRecovering (recoveryManager a)); cbn; naive_solver.
Qed.
End errors.
End adapter.

(** * Concrete runs *)

Definition toy_p : (bytes32 * Z → list byte) * (list byte → option (bytes32 * Z)) :=
  (λ sc, bits (encode sc), λ l, decode (unbits l)).
Definition toy_main (height : Z) (hash : bytes32) (now : Z) : list byte := b32 hash.

(** The disk refuses the metadata file, or works. *)
Definition no_metadata : disk_env :=
  mkEnv (λ _, true)
    (λ _ f, if bool_decide (f = metadata_file) then Failed None else Done)
    (λ _ _, true) (λ _ _, true) (λ _, Done).
Definition all_names (m : gmap string handler) : list string := (map_to_list m).*1.
Definition aenv (disk : disk_env) : adapter_env := mkAdEnv disk 7 7 renv all_names toy_order.

Definition toy_adapter : HybridConsensusRecoveryAdapter (E := string) (W := ()) :=
  mkAdapter default_recovery
    (registerComponents toy_l toy_d toy_p toy_main (aenv good_disk)
       (mkManager 10 2 true true ∅ 0 ∅ None)).

Definition toy_create (env : adapter_env) (height : Z) :=
  CreateCheckpoint toy_l toy_d toy_p toy_main toy_enc env height "b" "a" toy_adapter ∅ node1.

Lemma failed_create : (toy_create (aenv no_metadata) 10).2 = Err (ErrFinalize ErrWriteMetadata).
Proof. by vm_compute. Qed.

Lemma failed_write_ends_checkpoints_witness :
  let '(a2, d2) := foldl (λ s o, ad_perform toy_l toy_d toy_p toy_main toy_enc o s)
    ((toy_create (aenv no_metadata) 10).1.1, (toy_create (aenv no_metadata) 10).1.2)
    [AVerify (aenv good_disk) 10; ACreate (aenv good_disk) 20 "c" "b" node1] in
  (∀ env' height' bh' ph' n', CreateCheckpoint toy_l toy_d toy_p toy_main toy_enc env' height' bh' ph'
     a2 d2 n' = (a2, d2, Ok ()))
  ∧ ∀ h, is_Some (checkpoints (checkpointManager a2) !! h) →
         is_Some (checkpoints (checkpointManager toy_adapter) !! h).
Proof.
  apply (failed_write_ends_checkpoints toy_l toy_d toy_p toy_main toy_enc (aenv no_metadata) 10 "b" "a"
    toy_adapter ∅ node1 ErrWriteMetadata).
  rewrite <- failed_create. unfold toy_create. by destruct (CreateCheckpoint _ _ _ _ _ _ _ _ _ _ _ _) as [[? ?] ?].
Defined.

Definition at_height (h : Z) : HybridConsensus := on_chain (set_height h) node1.

(** Height 15 of interval 10: the checkpoint of height 10 is "too old". *)
Lemma health_check_correct_witness :
  let a := with_manager (with_checkpoints ∅ 10 (checkpointManager toy_adapter)) toy_adapter in
  let n := at_height 15 in
  let bh := lastBlockHeight (hc_chain n) in
  let i := GetCheckpointInterval (checkpointManager a) in
  let last := GetLastCheckpointHeight (checkpointManager a) in
  hl_warnings (PerformHealthCheck a n)
  = (if poh_behind n then [poh_warning n] else [])
    ++ (if bool_decide (i < bh ∧ (bh < 2 * i ∨ last < bh - 2 * i))
        then [old_warning (checkpointManager a) n] else [])
  ∧ (hl_status (PerformHealthCheck a n) = "OK"%string
     ↔ hl_warnings (PerformHealthCheck a n) = [] ∧ IsRecovering (recoveryManager a) = false).
Proof.
  cbv zeta. apply (health_check_correct
    (with_manager (with_checkpoints ∅ 10 (checkpointManager toy_adapter)) toy_adapter)
    (at_height 15)); try (unfold is_u64); vm_compute; split; congruence || done.
Defined.
