(* ===== verification/NodeApi.v ===== *)
(** * What the node shows: src/consensus/diamantehybrid.go, event_flow.go

    The getters and delegates of the hybrid consensus, the recovery hints in
    the text of an error, and the metrics of the event flow with their two
    distributions.  Durations that the code prints are left as numbers. *)
From Stdlib Require Import ZArith Lia SpecFloat.
From Stdlib Require Import Strings.Byte Strings.Ascii Strings.String.
From stdpp Require Import numbers prelude gmap strings.
From S2P Require Import Prelude GoFloat Bytes Maps Dag Lachesis Governance ValMgr Errors Flow Node.
Open Scope Z_scope.

(** ** Getters and setters *)

Definition GetLastBlockHeight (n : HybridConsensus) : Z := lastBlockHeight (hc_chain n).
Definition SetLastBlockHeight (h : Z) (n : HybridConsensus) : HybridConsensus := on_chain (set_height h) n.
Definition GetLastBlockHash (n : HybridConsensus) : bytes32 := lastBlockHash (hc_chain n).
Definition SetLastBlockHash (h : bytes32) (n : HybridConsensus) : HybridConsensus := on_chain (set_hash h) n.
Definition IsRunning (n : HybridConsensus) : bool := ch_running (hc_chain n).
Definition SetRunning (r : bool) (n : HybridConsensus) : HybridConsensus :=
  on_chain (λ c, set_life r (startDone c) (stopDone c) c) n.
Definition GetCurrentHeight (n : HybridConsensus) : Z := hy_height (hc_core n).
Definition node_GetValidators (order : list bytes32) (n : HybridConsensus) :=
  ValMgr.GetValidators order (hc_vm n).
Definition node_GetActiveValidators (n : HybridConsensus) :=
  ValMgr.GetActiveValidators (hc_vm n).
Definition node_GetPendingEvents (order : list bytes32) (n : HybridConsensus) : list loc :=
  Flow.GetPendingEvents order (hc_flow n).
Definition node_GetFinalizedEvents (fuel : nat) (from to : Z) (n : HybridConsensus) :=
  Flow.GetFinalizedEvents (node_dag n) fuel from to (hc_flow n).
(** The zero value of a missing entry is a nil pointer. *)
Definition getLastCheckpoint (n : HybridConsensus) : option Checkpoint :=
  ch_checkpoints (hc_chain n) !! lastCheckpoint (hc_chain n).

(** ** Errors that recovery may help with *)

Fixpoint has_prefix (p s : string) : bool :=
  match p, s with
  | EmptyString, _ => true
  | String a p', String b s' => Ascii.eqb a b && has_prefix p' s'
  | _, _ => false
  end.
(** [strings.Contains]. *)
Fixpoint contains (p s : string) : bool :=
  has_prefix p s || match s with String _ s' => contains p s' | EmptyString => false end.
Definition recovery_hints : list string :=
  ["state corruption"; "synchronization failed"; "checkpoint not found"; "consensus state mismatch";
   "database corruption"; "validator set inconsistency"]%string.
Definition shouldAttemptRecovery (err : option string) : bool :=
  match err with None => false | Some s => existsb (λ p, contains p s) recovery_hints end.

Lemma has_prefix_spec p s : has_prefix p s = true ↔ ∃ r, s = p +:+ r.
Proof.
  revert s. induction p as [|a p IH]; intros s; cbn; [split; [by exists s|done]|].
  destruct s as [|b s]; [split; [done|by intros [r ?]]|].
  rewrite andb_true_iff, IH. split.
  - intros [->%Ascii.eqb_eq [r ->]]. by exists r.
  - intros [r [= -> ->]]. split; [by apply Ascii.eqb_eq|by exists r].
Qed.

Lemma contains_spec p s : contains p s = true ↔ ∃ l r, s = l +:+ p +:+ r.
Proof.
  induction s as [|a s IH]; cbn [contains]; rewrite orb_true_iff, has_prefix_spec.
  - split; [|intros (l & r & Hs); left; exists r; by destruct l].
    intros [[r ->]|]; [|done]. by exists EmptyString, r.
  - rewrite IH. split.
    + intros [[r Hr]|(l & r & ->)]; [by exists EmptyString, r|by exists (String a l), r].
    + intros ([|b l] & r & Hs); [left; by exists r|right]. injection Hs as -> ->. by eauto.
Qed.

(** ** Metrics of the event flow *)

(** [m[key] += n] *)
Definition add_to `{Countable B} (key : B) (n : Z) (m : gmap B Z) : gmap B Z :=
  <[key := default 0 (m !! key) + n]> m.
(** Adding up [w] over a map, visited in some order, under a key for each
    entry. *)
Definition tally `{Countable K, Countable B} {V} (key : K → V → B) (w : V → Z) (order : list K)
    (m : gmap K V) : gmap B Z :=
  foldl (λ acc k, match m !! k with Some v => add_to (key k v) (w v) acc | None => acc end) ∅ order.

Definition height_key (height : Z) : string :=
  if height <? 100 then "0-99" else if height <? 1000 then "100-999"
  else if height <? 10000 then "1000-9999" else "10000+".
Definition heightDistribution (order : list Z) (f : EventFlowManager) : gmap string Z :=
  tally (λ h _, height_key h) (λ evs, Z.of_nat (length evs)) order (fl_byHeight f).
Definition retryDistribution (order : list bytes32) (f : EventFlowManager) : gmap Z Z :=
  tally (λ _ r, r) (λ _, 1) order (fl_retry f).

Record EventMetrics := mkEventMetrics {
  em_metrics : FlowMetrics;
  em_pendingCount : Z;
  em_finalizedCount : Z;
  em_batchSize : Z;
  em_retryDistribution : gmap Z Z }.
Definition GetEventMetrics (order : list bytes32) (f : EventFlowManager) : EventMetrics :=
  mkEventMetrics (fl_metrics f) (Z.of_nat (size (fl_pending f))) (Z.of_nat (size (fl_finalized f)))
    (batchSize (fl_config f)) (retryDistribution order f).
(** What [logMetrics] logs. *)
Record FlowLine := mkFlowLine {
  ln_metrics : FlowMetrics;
  ln_pendingCount : Z;
  ln_finalizedCount : Z;
  ln_batchSize : Z;
  ln_heightDistribution : gmap string Z }.
Definition logMetrics (order : list Z) (f : EventFlowManager) : FlowLine :=
  mkFlowLine (fl_metrics f) (Z.of_nat (size (fl_pending f))) (Z.of_nat (size (fl_finalized f)))
    (batchSize (fl_config f)) (heightDistribution order f).

Section tally.
Context `{Countable K, Countable B} {V : Type}.
Variables (key : K → V → B) (w : V → Z).
Implicit Types (m : gmap K V) (acc : gmap B Z).

Abbreviation add_entry m := (λ acc k, match m !! k with Some v => add_to (key k v) (w v) acc | None => acc end).

Lemma tally_skip m k o : ∀ acc, k ∉ o → foldl (add_entry (delete k m)) acc o = foldl (add_entry m) acc o.
Proof.
  induction o as [|j o IH]; intros acc Hk; [done|]. cbn [foldl].
  apply not_elem_of_cons in Hk as [Hne Hk]. rewrite lookup_delete_ne by done. by apply IH.
Qed.

Lemma tally_from o : ∀ m acc b, iter_order m o →
  default 0 (foldl (add_entry m) acc o !! b) =
    default 0 (acc !! b) + msum w (filter (λ kv, key kv.1 kv.2 = b) m).
Proof.
  induction o as [|k o IH]; intros m acc b [Hn Ho].
  { assert (m = ∅) as ->.
    { apply map_eq. intros k. rewrite lookup_empty. apply eq_None_not_Some. rewrite <- Ho. apply not_elem_of_nil. }
    rewrite map_filter_empty, msum_empty. cbn. lia. }
  apply NoDup_cons in Hn as [Hk Hn]. destruct (proj1 (Ho k)) as [v Hv]; [by left|].
  cbn [foldl]. rewrite Hv, <- (tally_skip m k) by done. rewrite IH.
  2:{ split; [done|]. intros j. rewrite lookup_delete_is_Some, <- Ho, elem_of_cons.
      split; [|naive_solver]. intros Hj. split; [by intros ->|by right]. }
  rewrite <- (insert_delete_id m k v) at 2 by done. unfold add_to.
  destruct (decide (key k v = b)) as [<-|Hb].
  - rewrite lookup_insert_eq, map_filter_insert_True, msum_insert_new; [cbn; lia|..|done].
    apply map_lookup_filter_None. left. apply lookup_delete_eq.
  - by rewrite lookup_insert_ne, map_filter_insert_False, delete_delete_eq by done.
Qed.
End tally.

(** The metrics add up, in whatever order the maps are visited: under
    every number of retries the distribution has the number of tracked
    events with so many, and under every range of heights the number of
    events tracked at heights of the range.  Together they are all of them. *)
Theorem distributions_exact order order' f :
  iter_order (fl_retry f) order → iter_order (fl_byHeight f) order' →
  (∀ r, default 0 (em_retryDistribution (GetEventMetrics order f) !! r) =
     Z.of_nat (size (filter (λ kv, kv.2 = r) (fl_retry f)))) ∧
  (∀ key, default 0 (ln_heightDistribution (logMetrics order' f) !! key) =
     msum (λ evs, Z.of_nat (length evs)) (filter (λ kv, height_key kv.1 = key) (fl_byHeight f))).
Proof.
  intros Ho Ho'. split; intros k; cbn [em_retryDistribution ln_heightDistribution GetEventMetrics logMetrics];
    unfold retryDistribution, heightDistribution, tally; rewrite tally_from by done;
    rewrite lookup_empty; cbn [default]; [|cbn; lia].
  assert (∀ m : gmap bytes32 Z, msum (λ _, 1) m = Z.of_nat (size m)) as ->; [|cbn; lia].
  intros m. induction m as [|j x m Hj IH] using map_ind; [done|].
  rewrite msum_insert_new, map_size_insert_None, IH by done. lia.
Qed.

Definition two_retries : EventFlowManager :=
  mkFlow ∅ ∅ {[5 := [1%positive]; 200 := [2%positive]]} ∅ {[zero32 := 3]}
    (fl_metrics NewEventFlowManager) (fl_config NewEventFlowManager).

Lemma distributions_exact_witness :
  (∀ r, default 0 (em_retryDistribution (GetEventMetrics [zero32] two_retries) !! r) =
     Z.of_nat (size (filter (λ kv, kv.2 = r) (fl_retry two_retries)))) ∧
  (∀ key, default 0 (ln_heightDistribution (logMetrics [200; 5] two_retries) !! key) =
     msum (λ evs, Z.of_nat (length evs))
       (filter (λ kv, height_key kv.1 = key) (fl_byHeight two_retries))).
Proof.
  apply (distributions_exact [zero32] [200; 5] two_retries);
    apply iter_orderb_true; vm_compute; reflexivity.
Defined.
