(* ===== verification/Metrics.v ===== *)
(** * The metrics reporter: src/metrics/reporter.go

    The metrics live in the Prometheus client, which is a parameter: gauges
    and counters that hold a float, and a registry of names.  The consensus
    and the transaction manager are read at every tick as they then are; what
    the reporter finds out about the consensus by type assertions is an
    answer of the class [ConsensusView].  The goroutines of [Start] and the
    stop channel are a step relation, where closing the channel twice and a
    ticker without a positive interval end the process. *)
From Stdlib Require Import ZArith Lia SpecFloat.
From Stdlib Require Import Strings.Byte Strings.Ascii Strings.String.
From stdpp Require Import numbers prelude gmap strings.
From S2P Require Import Prelude GoFloat Bytes PoH DPoS Accounts GoHeap TxQueue TxPool TxUtils TxManager Lachesis StartUp.
From S2P Require Import Node NodeApi Production.
Open Scope Z_scope.

(** ** The Prometheus client *)

Class Prometheus (Registry Metric : Type) := {
  NewMetric : string → Metric;
  metric_Set : f64 → Metric → Metric;
  metric_Write : Metric → f64;
  (** [None] is a panic. *)
  MustRegister : list string → Registry → option Registry }.
Class PrometheusLaws (Registry Metric : Type) `{Prometheus Registry Metric} := {
  registered : Registry → gset string;
  new_zero name : metric_Write (NewMetric name) = f_zero;
  set_write x m : metric_Write (metric_Set x m) = x;
  register_ok names r :
    NoDup names → (∀ n, n ∈ names → n ∉ registered r) →
    ∃ r', MustRegister names r = Some r' ∧ registered r' = list_to_set names ∪ registered r;
  register_panics names r n : n ∈ names → n ∈ registered r → MustRegister names r = None }.

(** ** What the reporter sees of the consensus *)

Class ConsensusView (C : Type) := {
  view_load : C → f64;
  (** The assertion to [api.HeightGetter], and its answer. *)
  view_height : C → option Z;
  (** The assertion to [ValidatorMetrics]: nodes and peers. *)
  view_validators : C → option (list bytes32 * list bytes32) }.

(** The wrapper that main builds has neither method, the hybrid node has
    [GetLastBlockHeight] only. *)
#[export] Instance wrapper_view : ConsensusView ConsensusWrapper := {
  view_load := cw_GetNetworkLoad;
  view_height _ := None;
  view_validators _ := None }.
#[export] Instance hybrid_view : ConsensusView HybridConsensus := {
  view_load := Production.GetNetworkLoad;
  view_height n := Some (GetLastBlockHeight n);
  view_validators _ := None }.

(** ** The reporter *)

Section reporter.
Context {Registry Metric C T L : Type} `{!Prometheus Registry Metric, !ConsensusView C}.

Record PrometheusStats := mkStats {
  blockHeight : Metric; networkLoad : Metric; activeValidators : Metric; txPoolSize : Metric;
  txProcessed : Metric; txFailed : Metric; peerCount : Metric; memoryUsage : Metric;
  cpuUsage : Metric; diskUsage : Metric }.

Definition metric_names : list string :=
  ["diamante_block_height"; "diamante_network_load"; "diamante_active_validators";
   "diamante_tx_pool_size"; "diamante_tx_processed_total"; "diamante_tx_failed_total";
   "diamante_peer_count"; "diamante_memory_usage_bytes"; "diamante_cpu_usage_percent";
   "diamante_disk_usage_bytes"]%string.
Definition new_stats : PrometheusStats :=
  mkStats (NewMetric "diamante_block_height") (NewMetric "diamante_network_load")
    (NewMetric "diamante_active_validators") (NewMetric "diamante_tx_pool_size")
    (NewMetric "diamante_tx_processed_total") (NewMetric "diamante_tx_failed_total")
    (NewMetric "diamante_peer_count") (NewMetric "diamante_memory_usage_bytes")
    (NewMetric "diamante_cpu_usage_percent") (NewMetric "diamante_disk_usage_bytes").

(** Goroutines of [Start] that have not made their ticker yet, and that are
    in their loop. *)
Record Reporter := mkReporter {
  updateInterval : Z;
  prometheusStats : PrometheusStats;
  stopClosed : bool;
  entering : nat;
  looping : nat }.

Definition NewReporter (interval : Z) (reg : Registry) : option (Registry * Reporter) :=
  reg' ← MustRegister metric_names reg;
  Some (reg', mkReporter interval new_stats false 0 0).

Definition getGaugeValue (g : Metric) : f64 := metric_Write g.

Definition GetMetricsSnapshot (r : Reporter) : gmap string f64 :=
  let st := prometheusStats r in
  <["peerCount" := getGaugeValue (peerCount st)]> (
  <["txPoolSize" := getGaugeValue (txPoolSize st)]> (
  <["activeValidators" := getGaugeValue (activeValidators st)]> (
  <["networkLoad" := getGaugeValue (networkLoad st)]> (
  <["blockHeight" := getGaugeValue (blockHeight st)]> ∅)))).

(** The gauges after a collection, from the metrics before it. *)
Definition collect (c : C) (tm : TransactionManager T L) (st : PrometheusStats) : PrometheusStats :=
  let height := match view_height c with Some h => f_of_Z h | None => f_zero end in
  let st := mkStats (metric_Set height (blockHeight st)) (metric_Set (view_load c) (networkLoad st))
              (activeValidators st) (txPoolSize st) (txProcessed st) (txFailed st) (peerCount st)
              (memoryUsage st) (cpuUsage st) (diskUsage st) in
  let st := match view_validators c with
            | Some (activeNodes, peerIDs) =>
                mkStats (blockHeight st) (networkLoad st)
                  (metric_Set (f_of_Z (Z.of_nat (length activeNodes))) (activeValidators st)) (txPoolSize st)
                  (txProcessed st) (txFailed st) (metric_Set (f_of_Z (Z.of_nat (length peerIDs))) (peerCount st))
                  (memoryUsage st) (cpuUsage st) (diskUsage st)
            | None => st
            end in
  mkStats (blockHeight st) (networkLoad st) (activeValidators st)
    (metric_Set (f_of_Z (GetPoolSize tm)) (txPoolSize st)) (txProcessed st) (txFailed st)
    (peerCount st) (memoryUsage st) (cpuUsage st) (diskUsage st).
(** [marshal]: the snapshot as JSON; its error is dropped.  The second
    component is the logged line, whose parts logrus puts side by side. *)
Definition collectAndReportMetrics (marshal : gmap string f64 → option string) (c : C)
    (tm : TransactionManager T L) (r : Reporter) : Reporter * string :=
  let r := mkReporter (updateInterval r) (collect c tm (prometheusStats r)) (stopClosed r)
             (entering r) (looping r) in
  let snapshot := match marshal (GetMetricsSnapshot r) with Some s => s | None => EmptyString end in
  (r, "Metrics updated" +:+ "snapshot" +:+ snapshot).

(** ** Its goroutines *)

Inductive process := Alive (r : Reporter) | Crashed.

Definition Start (r : Reporter) : Reporter :=
  mkReporter (updateInterval r) (prometheusStats r) (stopClosed r) (S (entering r)) (looping r).
Definition Stop (r : Reporter) : process :=
  if stopClosed r then Crashed
  else Alive (mkReporter (updateInterval r) (prometheusStats r) true (entering r) (looping r)).

(** What happens: calls of the two methods, and the steps of a loop. *)
Inductive happening :=
| CallStart
| CallStop
| LoopEnters
| LoopTicks (c : C) (tm : TransactionManager T L)
| LoopStops.

Variable marshal : gmap string f64 → option string.
(** [reportingLoop], from the ticker on: with the channel closed and a tick
    ready, [select] takes either. *)
Inductive reporter_step : happening → Reporter → process → Prop :=
| rs_start r : reporter_step CallStart r (Alive (Start r))
| rs_stop r : reporter_step CallStop r (Stop r)
| rs_enter r n : entering r = S n → 0 < updateInterval r →
    reporter_step LoopEnters r
      (Alive (mkReporter (updateInterval r) (prometheusStats r) (stopClosed r) n (S (looping r))))
| rs_enter_panics r n : entering r = S n → updateInterval r ≤ 0 →
    reporter_step LoopEnters r Crashed
| rs_tick r n c tm : looping r = S n →
    reporter_step (LoopTicks c tm) r (Alive (collectAndReportMetrics marshal c tm r).1)
| rs_quit r n : looping r = S n → stopClosed r = true →
    reporter_step LoopStops r
      (Alive (mkReporter (updateInterval r) (prometheusStats r) (stopClosed r) (entering r) n)).

Inductive reporter_run : list happening → Reporter → process → Prop :=
| rr_done r : reporter_run [] r (Alive r)
| rr_step h hs r r' p : reporter_step h r (Alive r') → reporter_run hs r' p → reporter_run (h :: hs) r p
| rr_crash h hs r : reporter_step h r Crashed → reporter_run (h :: hs) r Crashed.
End reporter.
Arguments PrometheusStats Metric : clear implicits.
Arguments Reporter Metric : clear implicits.
Arguments process Metric : clear implicits.
Arguments happening C T L : clear implicits.

(** * Properties *)

Section properties.
Context {Registry Metric C T L : Type} `{PrometheusLaws Registry Metric, !ConsensusView C}.
Variable marshal : gmap string f64 → option string.
Implicit Types (st : PrometheusStats Metric) (r : Reporter Metric).

(** What a collection makes of the values shown. *)
Definition shown st : list f64 :=
  metric_Write <$> [blockHeight st; networkLoad st; txPoolSize st; activeValidators st; peerCount st].
(** The metrics nothing ever sets. *)
Definition idle st : list f64 :=
  metric_Write <$> [txProcessed st; txFailed st; memoryUsage st; cpuUsage st; diskUsage st].

(** The values after a tick, from those before it. *)
Definition tick_values (c : C) (tm : TransactionManager T L) (v : list f64) : list f64 :=
  [match view_height c with Some h => f_of_Z h | None => f_zero end; view_load c;
   f_of_Z (GetPoolSize tm)] ++
  match view_validators c with
  | Some (nodes, peers) => [f_of_Z (Z.of_nat (length nodes)); f_of_Z (Z.of_nat (length peers))]
  | None => drop 3 v
  end.
Fixpoint values_after (hs : list (happening C T L)) (v : list f64) : list f64 :=
  match hs with
  | [] => v
  | LoopTicks c tm :: hs' => values_after hs' (tick_values c tm v)
  | _ :: hs' => values_after hs' v
  end.

Lemma collect_values (c : C) (tm : TransactionManager T L) st :
  shown (collect c tm st) = tick_values c tm (shown st) ∧ idle (collect c tm st) = idle st.
Proof.
  unfold collect, tick_values. destruct (view_validators c) as [[nodes peers]|];
    unfold shown, idle; cbn; by rewrite !set_write.
Qed.

Definition is_start (h : happening C T L) : bool := match h with CallStart => true | _ => false end.
Fixpoint stops (hs : list (happening C T L)) : nat :=
  match hs with
  | [] => 0
  | CallStop :: hs' => S (stops hs')
  | _ :: hs' => stops hs'
  end.

Lemma reporter_run_values hs r p : reporter_run marshal hs r p →
  match p with
  | Alive r' =>
      shown (prometheusStats r') = values_after hs (shown (prometheusStats r)) ∧
      idle (prometheusStats r') = idle (prometheusStats r) ∧
      (stops hs + Nat.b2n (stopClosed r) ≤ 1)%nat
  | Crashed =>
      (2 ≤ stops hs + Nat.b2n (stopClosed r))%nat ∨
      updateInterval r ≤ 0 ∧ (entering r ≠ 0%nat ∨ Exists (λ h, is_start h = true) hs)
  end.
Proof.
  induction 1 as [r|h hs r r' p Hs Hrun IH|h hs r Hs].
  - split_and!; [done..|]. destruct (stopClosed r); cbn; lia.
  - inversion Hs; subst.
    + destruct p; [exact IH|]. destruct IH as [IH|[Hi _]]; [by left|]. right. split; [done|]. right. by left.
    + unfold Stop in *. destruct (stopClosed r) eqn:Hc; [done|]. simplify_eq.
      destruct p; cbn in *; [destruct IH as (-> & -> & IH); split_and!; [done..|lia]|].
      destruct IH as [IH|[Hi [He|He]]]; [left; lia|right; by auto|right; split; [done|right; by right]].
    + destruct p; [exact IH|]. destruct IH as [IH|[Hi _]]; [by left|]. cbn in Hi. lia.
    + destruct (collect_values c tm (prometheusStats r)) as [Hv Hi]. destruct p.
      * destruct IH as (Hs1 & Hi1 & IH). split_and!; [|by rewrite Hi1|exact IH].
        rewrite Hs1. cbn [values_after]. by rewrite <- Hv.
      * destruct IH as [IH|[? [He|He]]]; [by left|right; split; [done|by left]|].
        right. split; [done|right; by right].
    + destruct p; [exact IH|]. destruct IH as [IH|[? [He|He]]]; [by left|right; split; [done|by left]|].
      right. split; [done|right; by right].
  - inversion Hs; subst.
    + left. unfold Stop in *. destruct (stopClosed r); [cbn; lia|done].
    + right. split; [done|]. left. lia.
Qed.

(** What the reporter publishes.  However the calls of Start and Stop
    and the ticks of its loops follow each other, the five gauges hold what
    the last tick read: the height, when the consensus tells one, and 0
    otherwise, its load, the size of the pool, and the numbers of validators
    and peers as of the last tick at which the consensus told them.  The
    other five metrics keep the value they were made with.  The process only
    ends when Stop is called a second time or a loop starts with an interval
    that is not positive. *)
Theorem reporter_publishes interval (reg reg' : Registry) r hs (p : process Metric) :
  NewReporter interval reg = Some (reg', r) → reporter_run marshal hs r p →
  match p with
  | Alive r' =>
      shown (prometheusStats r') = values_after hs (replicate 5 f_zero) ∧
      idle (prometheusStats r') = replicate 5 f_zero ∧ (stops hs ≤ 1)%nat
  | Crashed => (2 ≤ stops hs)%nat ∨ interval ≤ 0 ∧ Exists (λ h, is_start h = true) hs
  end.
Proof.
  unfold NewReporter. destruct (MustRegister metric_names reg) as [reg0|]; [|done].
  intros [= _ <-] Hrun%reporter_run_values. destruct p.
  - unfold shown, idle in *. cbn in Hrun |- *. rewrite !new_zero in Hrun. by rewrite Nat.add_0_r in Hrun.
  - cbn in Hrun. rewrite Nat.add_0_r in Hrun. destruct Hrun as [?|[? [?|?]]]; [by left|done|by right].
Qed.

(** A process has room for one reporter: the first registers its
    metrics, and making another one panics. *)
Theorem one_reporter interval interval' (reg : Registry) :
  (∀ n, n ∈ metric_names → n ∉ registered reg) →
  ∃ reg' r, NewReporter (Metric := Metric) interval reg = Some (reg', r) ∧
    NewReporter (Metric := Metric) interval' reg' = None.
Proof.
  intros Hn. destruct (register_ok metric_names reg) as (reg' & Hr & He);
    [by apply (bool_decide_unpack _); vm_compute|done|].
  eexists reg', _. unfold NewReporter. rewrite Hr. split; [done|].
  rewrite (register_panics metric_names reg' "diamante_block_height"); [done|by left|].
  rewrite He. apply elem_of_union_l, elem_of_list_to_set. by left.
Qed.

(** A consensus that tells no validators, as both of this repository. *)
Lemma validators_stay_zero hs v : (∀ c : C, view_validators c = None) →
  drop 3 (values_after hs v) = drop 3 v.
Proof.
  intros Hc. revert v. induction hs as [|h hs IH]; intros v; [done|].
  destruct h; cbn [values_after]; try apply IH. rewrite IH. unfold tick_values. by rewrite Hc.
Qed.
End properties.

(** Metrics in memory. *)
#[export] Instance mem_prometheus : Prometheus (gset string) f64 := {
  NewMetric _ := f_zero;
  metric_Set x _ := x;
  metric_Write m := m;
  MustRegister names r :=
    if decide (NoDup names ∧ Forall (λ n, n ∉ r) names) then Some (list_to_set names ∪ r) else None }.
#[export] Instance mem_prometheus_laws : PrometheusLaws (gset string) f64.
Proof.
  refine {| registered := λ r, r |}; try done; cbn.
  - intros names r Hd Hn. rewrite decide_True; [by eexists|]. split; [done|]. by apply Forall_forall.
  - intros names r n Hin Hr. apply decide_False. intros [_ Hall].
    rewrite Forall_forall in Hall. by apply (Hall n).
Defined.

(** A reporter of the node main starts, over a ledger of no account. *)
Definition sample_wrapper : ConsensusWrapper :=
  NewConsensusWrapper (NewLachesis 100) (NewDPoS 21 1000) (NewPoH 0 zero32 1).
Definition sample_happenings (tm : TransactionManager DefaultNonceTracker ()) :
    list (happening ConsensusWrapper DefaultNonceTracker ()) :=
  [CallStart; LoopEnters; LoopTicks sample_wrapper tm; CallStop; LoopTicks sample_wrapper tm; LoopStops].

Lemma stop_open {Registry Metric C T L} `{!Prometheus Registry Metric, !ConsensusView C}
    marshal (r : Reporter Metric) : stopClosed r = false →
  reporter_step (T := T) (L := L) (C := C) marshal CallStop r
    (Alive (mkReporter (updateInterval r) (prometheusStats r) true (entering r) (looping r))).
Proof. intros Hr. pose proof (rs_stop (T := T) (L := L) (C := C) marshal r) as Hs. unfold Stop in Hs. by rewrite Hr in Hs. Qed.

Lemma sample_run marshal tm r n : r = mkReporter n new_stats false 0 0 → 0 < n →
  ∃ r', reporter_run (Registry := gset string) (Metric := f64) marshal (sample_happenings tm) r (Alive r').
Proof.
  intros -> Hn. eexists. eapply rr_step; [apply rs_start|]. eapply rr_step; [by eapply rs_enter|].
  eapply rr_step; [by eapply rs_tick|]. eapply rr_step; [by apply stop_open|].
  eapply rr_step; [by eapply rs_tick|]. eapply rr_step; [by eapply rs_quit|]. apply rr_done.
Qed.

Definition sample_tm : TransactionManager DefaultNonceTracker () :=
  NewTransactionManager
    (mkPool (GoHeap.init (TxQueue.mkQueue ∅ [])) 1 ∅ 100 0 f_one f_one false 0
       (TxPool.mkMetrics 0 0 0 0 f_zero 0 0 0 0 ∅) false ∅ ∅ 0 0 0 0 0) f_one false ().
Definition no_json (m : gmap string f64) : option string := None.

Lemma sample_new : NewReporter 1 (∅ : gset string) =
  Some (list_to_set metric_names ∪ ∅, mkReporter (Metric := f64) 1 new_stats false 0 0).
Proof.
  unfold NewReporter. cbn [MustRegister mem_prometheus]. rewrite decide_True; [done|].
  split; [by apply (bool_decide_unpack _); vm_compute|]. apply Forall_forall.
  intros n _. apply not_elem_of_empty.
Qed.

Lemma reporter_publishes_witness : ∃ r' : Reporter f64,
  shown (prometheusStats r') = [f_zero; Lachesis.GetNetworkLoad (cw_lachesis sample_wrapper); f_zero; f_zero; f_zero] ∧
  idle (prometheusStats r') = replicate 5 f_zero.
Proof.
  destruct (sample_run no_json sample_tm _ 1 eq_refl eq_refl) as [r' Hr].
  exists r'. destruct (reporter_publishes (Registry := gset string) no_json 1 ∅ _ _ _ (Alive r') sample_new Hr)
    as (Hs & Hi & _).
  split; [|exact Hi]. rewrite Hs. reflexivity.
Defined.

Lemma one_reporter_witness : ∃ (reg' : gset string) (r : Reporter f64),
  NewReporter 1 ∅ = Some (reg', r) ∧ NewReporter (Metric := f64) 1 reg' = None.
Proof. apply (one_reporter (Registry := gset string) 1 1 ∅). intros n _. apply not_elem_of_empty. Defined.
